(* ===== verification/_CoqProject ===== *)
-Q . S2P
Prelude.v
Budget.v
Glob.v
Json.v
Canonical.v
Capability.v
Types.v
IdentityDb.v
Registry.v
LeaseStore.v
Delegation.v
Policy.v
Router.v
Scheduler.v
Effect.v
B64.v
Utf8.v
Ledger.v
Broker.v
BrokerRecord.v
BrokerOpen.v
Snapshot.v
Dag.v
DagScope.v
Gates.v
Path.v
Workspace.v
Net.v
Observation.v
Secrets.v
Auth.v
RawView.v
KernelText.v
IpText.v
Egress.v
EgressText.v
EgressProxy.v
EgressSafety.v
Service.v
GithubConn.v
HttpConn.v
McpConn.v
HostFs.v
LocalFiles.v
LocalSandbox.v
LocalProcess.v
Cgroup.v
LocalBackend.v
LocalSafety.v
EgressFwd.v
Remote.v
Hosts.v
Gvisor.v
Kubernetes.v
Mirror.v
MirrorSafety.v
Cube.v
Forkd.v
RemoteDemo.v
Kernel.v
KernelStep.v
KernelLogic.v
KernelSafety.v
KernelTransition.v
KernelTrace.v
KernelBranch.v
KernelEffects.v
KernelRefine.v
KernelInvariant.v
KernelCommit.v
Testbed.v
Receipts.v
KernelExplore.v
Config.v
Conformance.v
Adversarial.v
Http.v
KernelDemo.v
HttpSafety.v
HttpDemo.v
