(* ===== verification/Prelude.v ===== *)
(** * AgentKernel: a verification development

    AgentKernel runs untrusted agents.  An agent holds leases, not ambient
    authority; each step it takes runs on a branch of a world-state graph, is
    authorized by its lease and by the current policy, is executed by an
    isolation backend, and leaves a state and a causal trace.  Effects on the
    outside are proposed, prepared, approved and committed through a broker.
    This library models the Rust crates under [src/kernel], the connectors
    under [src/connectors], and the backends under [src/backends]: the local
    one with its egress proxy and those that drive remote sandboxes.  Each is
    written as executable definitions, with the theorems on what it promises.

    ** Parts and files

    Data and pure functions:
    - [Prelude]: results as a monad, insertion-ordered and sorted maps, string
      and list lemmas, the hint database and tactics shared by all files;
    - [Budget] ([core/budget.rs]), [Glob] and [Capability]
      ([core/capability.rs]), [Json] and [Canonical] ([core/hash.rs] and the
      part of serde_json it uses), [Types] (ids, principals, denials, errors,
      actions, replay classes), [Effect] ([core/effect.rs], [core/state.rs]);
    - [Path] ([core/path.rs], [core/sync.rs]), [B64] ([core/b64.rs]), [Net]
      ([core/net.rs]), [Utf8] (the std functions on UTF-8 the code uses),
      [Observation] ([core/observation.rs]), [Workspace] (the delta functions
      of [api/kernel.rs]), [KernelText] (its other pure helpers).

    Components with state, each a record with one definition per operation:
    - [IdentityDb], [Registry], [LeaseStore], [Delegation] ([kernel/identity]):
      the tables, principals, leases and audited delegation;
    - [Policy] ([kernel/policy]): documents with their epoch, the compiler, the
      engine and autonomy envelopes;
    - [Router], [Scheduler] ([kernel/scheduler]): backend selection, budget
      accounts, the step life cycle;
    - [Ledger] ([kernel/causal_ledger]): the hash-chained event log;
    - [Broker] ([kernel/effect_broker]): the effect transaction protocol, with
      [BrokerRecord] on what a move of the broker keeps of an effect and
      [BrokerOpen] on opening and migrating its store;
      [Secrets]: sealed files, keys and the vault;
    - [Snapshot], [Dag] ([kernel/state_dag]): content-addressed blobs,
      manifests, snapshots, and the graph of states and branches, with
      [DagScope] on which branches an operation touches;
    - [Auth] ([api/auth.rs]) and [RawView] (the raw-output handler of
      [api/http.rs]).

    The egress proxy of the local backend ([backends/local/src/egress.rs]):
    - [IpText]: the std parsers of IP literals; [Egress]: credentials, request
      heads, targets, the vetting of addresses; [EgressText]: the round trip
      of credentials; [EgressProxy]: one connection as a program over what the
      client, the resolver and the remote do, with the byte budget shared by
      the connections of a session and the relay of a tunnel as a step
      relation; [EgressSafety]: what holds of every run; [EgressFwd]: the
      forwarder inside the namespace ([src/bin/ak_egress_fwd.rs]).

    The connectors ([src/connectors]), through which the broker acts:
    - [Service]: calls on an outside service, recorded with their answers;
      [GithubConn], [HttpConn], [McpConn]: one connector each, with its
      canonicalization, preparation, commit and compensation.

    The local backend ([src/backends/local]), which runs the steps:
    - [HostFs]: a file system with links, the calls of std on it;
      [LocalFiles]: the file actions of [lib.rs] and their confinement;
    - [LocalSandbox] ([sandbox.rs]): the probes, the arguments for bubblewrap
      and its mounts, the Seatbelt profile, the egress route;
    - [LocalProcess] ([process.rs]): log buffers, signals and the registry of
      sessions; [Cgroup] ([cgroup.rs]): probing, making, metering, watching
      and dropping control groups;
    - [LocalBackend] (the rest of [lib.rs]): construction, grants, the confined
      command, running and accounting, session actions, [execute] and
      [discard]; [LocalSafety]: what holds of them.

    The remote backends ([src/backends/gvisor], [kubernetes], [cube], [forkd]):
    - [Remote]: what the four share, with the monad [Rem] of calls on a control
      plane (an operation may fail, and may not return) and the logic [upholds]
      on its runs; shell quoting and a reader of the shell's words;
    - [Hosts]: a service that runs commands and keeps no state of the kernel,
      behind the class [HostLaws]; [Gvisor] and [Kubernetes] are instances;
    - [Mirror]: a service that holds a copy of a state, behind the class
      [SvcLaws]: the map of sandboxes, pushing a state and checking it, running
      a step, pulling what changed, cloning and discarding; [MirrorSafety]:
      what holds of them for every such service; [Cube] and [Forkd]: its
      instances, one over a file interface and one over shell scripts;
      [RemoteDemo]: concrete services for the witnesses.

    The facade [api/kernel.rs], over all of the above:
    - [Kernel]: the composed state and its monad [K], registration,
      capability requests, envelopes, delegation, revocation;
    - [KernelStep]: [execute_step] with everything it dispatches to, and
      [execute_step_auto]; [KernelBranch]: opening, episodes, forks, merges,
      discards; [KernelEffects]: the effect life cycle, explanation, retry,
      replay; [KernelExplore]: speculative exploration, its tasks interleaved
      with each other and with other callers;
    - [KernelLogic]: a Hoare logic for [K]; [KernelSafety],
      [KernelTransition], [KernelTrace]: what a step may do, what it changes,
      what it records; [KernelRefine]: the facade as moves of its components;
      [KernelInvariant], [KernelCommit]: invariants of runs, restart, discard,
      commit; [KernelDemo]: a concrete kernel for the witnesses;
    - [Config]: the configuration and what opening a kernel builds from it,
      with the start-up of the server ([api/bin/agent_kernel_server.rs]);
    - [Gates]: the gate of each branch, with the operations that take gates as
      interleaved tasks; [Receipts]: the signer the kernel gives the broker,
      and the check of a receipt.

    The model against the program's own tests:
    - [Testbed]: a concrete environment, with JSON text that is printed and
      read, and a small host; [Conformance] ([src/conformance]) and
      [Adversarial] ([src/adversarial-bench]): the drivers of the conformance
      suite and of the security benchmark over the model, and in their Modules
      [ConformanceRun] and [AdversarialRun] the cases, evaluated.

    The HTTP interface [api/http.rs], over the facade and [Auth]:
    - [Http]: requests, the handler of every route, the mapping of errors to
      status codes, and [serve], which is routing, authentication and handler
      together; [HttpSafety]: what a request can reach; [HttpDemo]: a server
      for the witnesses.

    ** How code becomes definitions

    A fallible function returns [result], with the error type of the source; a
    function that changes a store returns the new store with its result, on
    failure too.  [?] is the bind of the result monad, and of [K] in the
    facade, where an operation may also end in a panic (time arithmetic in the
    policy compiler).  SQLite tables are [gmap]s by primary key, or lists where
    the row order matters; a failed transaction leaves its table as it was.
    Machine integers are [Z] with wrap-around or saturation written out.  Byte
    strings are [string]s.  Clock readings, random identifiers, backend and
    connector answers are arguments, or fields of the class [World]; hashing,
    ciphers, signatures, JSON text of scalars and Display texts are class
    parameters, with the documented laws a theorem needs as separate classes
    ([SerdeLaws], [AeadLaws] and so on), and each theorem with such a
    hypothesis has a witness over a concrete instance.

    Concurrency.  Where operations interleave inside one component they are
    split at their locks, and a step relation interleaves the pieces: every call
    on the broker, cut at each access to its store and each call of a connector,
    in Module [Calls] of [Broker] ([bstep]; run alone, a call so cut is the
    operation as one block), steps in [Scheduler] ([sys_step]).  At the facade an
    operation is one block: the gate per branch makes the steps of one branch
    exclusive ([gates_exclude]), and different branches meet only in the
    components.
    Exploration runs many facade calls at once: [KernelExplore] interleaves
    those calls in any order, with the calls of others between them.  In the
    egress proxy connections interleave through the shared budget, and the two
    directions of a tunnel through their own step relation.  An operation of a
    mirrored backend is one block; which sandboxes other tasks hold when it
    looks for one to clone is the choice of the world ([Contention]).

    Fuel.  A path may pass [HostFs.MAXSYMLINKS] = 40 links, the limit of Linux.
    Loops that are not structural take fuel: [Dag.mark_loop] and
    [search_loop] one unit per queue entry ([mark_fuel], at most two parents
    per state), [LeaseStore.revoke_loop] the number of leases,
    [Registry.lineage_loop] the limit of the source.  The theorems on them say
    that the fuel given is enough, so that the functions are total
    ([lca_common_ancestor], [gc_exact], [revocation_cascades],
    [ancestry_decided]).  Exploration is a relation over moves of
    its tasks: [explore_terminates] bounds the moves a call can make and shows
    that it never gets stuck before the reports are in.

    ** What is proved

    - Mediation: a step touches the outside only within a lease, a policy
      decision and a confinement that were checked for it ([step_mediated]);
      it moves its branch by one state or not at all ([step_transition]) and
      leaves its whole causal chain ([step_recorded]); an external call takes
      authority that is live at that moment ([commit_takes_authority]) and a
      commit is on record ([commit_recorded]).
    - Composition: every facade call is a sequence of moves of the components
      ([kernel_run_parts]), through which their invariants carry over: the
      composed kernel stays well formed ([kernel_stays_wf]), its log is
      append-only ([audit_append_only]), a restart serves every episode again,
      with its budget refilled ([restart_restores]), and a branch is
      discarded only once its resources are released
      ([discard_releases_first]).
    - Gates: one transition at a time on a branch, whatever is dropped or
      forgotten meanwhile ([gates_exclude]), and no deadlock among merges
      ([gates_never_deadlock]).
    - Tests: all cases of the conformance suite pass on the model, those that
      end in a refusal with any backend ([conformance_passes]), and so do the
      scenarios of the security benchmark ([adversarial_passes]).
    - Exploration: whatever the interleaving, each candidate made the calls its
      report says, on its own fork, the winner is the first that passed and only losers
      are discarded ([explore_sound]); a call ends and keeps to its fan-out
      ([explore_terminates]).
    - The HTTP interface: a request changes nothing of an episode whose owner
      is another principal ([tenant_isolation]), and one that the middleware or
      a check refuses changes nothing at all ([authorized_before_acting]).
    - Egress: the proxy dials only vetted addresses of allowed domains
      ([egress_dials_vetted]), moves no more bytes than its cap
      ([egress_bytes_capped]) and stops when it is revoked
      ([egress_revocation_cuts], [revoked_tunnel_drains]).
    - Connectors: an HTTP read reaches only checked public addresses, redirects
      included ([http_get_confined]); a tool is called only as its signed
      manifest allows ([mcp_keeps_manifest]); GitHub is asked for what the
      contract says ([github_keeps_contract]).
    - The local backend: what it says of itself was proved on the host
      ([backend_proved_not_declared]); every command it starts is confined and
      the grant of a step ends with it ([commands_confined]), on mounts that
      open no more than was granted ([sandbox_mounts_confined]); file actions
      change the workspace only ([file_actions_confined], up to dangling
      links, a finding) and what is written is read back ([write_then_read]);
      success means within budget ([success_is_within_budget]), a spent CPU
      budget is enforced ([cpu_budget_enforced]), groups are made whole or not
      at all ([group_all_or_nothing]), logs are windows on the output
      ([log_window]), and a discarded branch leaves nothing
      ([discard_leaves_nothing]).
    - Remote backends: a step on Cube or forkd that succeeds ran on exactly the
      state of its branch and reports exactly what changed, and one that fails
      part-way leaves no sandbox behind that could be taken for a clean one
      ([cube_step_exact], [forkd_step_exact]); a native fork is of exactly the
      state named ([cube_fork_exact]); listings are believed only as
      well-formed trees ([listing_wf]); gVisor and Kubernetes pass on the
      confinement of a step ([gvisor_forwards_confinement],
      [kubernetes_forwards_confinement]); quoting is exact ([shq_exact]).
    - Start-up: a tool server runs confined or not at all unless its setup says
      otherwise ([mcp_servers_fail_closed]); without authentication only this
      machine is served ([server_guarded]); flags only add
      ([flags_only_add]); configured backends claim what they do
      ([built_backends_honest]); the forwarder copies and reaches nothing but
      the proxy ([pump_exact], [forwarder_adds_no_authority]).
    - Authority: attenuation along delegation chains, cascading revocation,
      uses never overspent, audited delegation, first-match policy, token
      authentication and ownership checks, single-use scoped tokens.
    - Effects: at most one external call per effect that was not found to have
      failed, under every interleaving without a late approval or preparation;
      revalidation at commit, idempotence, recovery by probe.
    - State: exact three-way merges over a common ancestor and their conflicts,
      exact garbage collection, history kept, materialization that restores a
      snapshot (up to the mode of a file that the cache knows as unchanged),
      incremental snapshots equal to full ones, validated deltas applied
      exactly.
    - Receipts: none is dropped or altered, and each verifies under the
      kernel's key ([receipts_verify]); an opened effect store is well formed
      ([open_wf]).
    - Records: the hash chain binds what the rows of the log read as, appends
      verify, contract hashes
      bind contracts, raw output pages tile, distilled output is bounded.
    - Findings: where code and intent part, a theorem shows the behaviour on a
      concrete history (second calls through a shared key or an approval race,
      a merge base that is not lowest, a stale cache after collection, offsets
      that drift, filters that clear, a comment that can never be proposed, a
      repository name that leaves its path, a write through a dangling link, a
      quote that adds a sandbox rule, a clone that waits for itself, a mode
      that never materializes, an escape that is skipped, a listing that
      panics, a row rewritten without notice, a budget that a restart refills).

    ** Not modelled

    Sockets, their listeners and signals, the parsing of the command line into
    flags, YAML files, SQLite itself; the bytes the egress proxy sends back to
    its client after a request was forwarded; what bubblewrap, Seatbelt,
    control groups, child processes and remote services do once they were
    asked, which are the host's and the world's answers; a change of the file
    system by a running process between the check of a path and its use; the
    interleaving of the calls two tasks make on one mirrored backend;
    the utility benchmark, which measures time, and the examples. *)

From Stdlib Require Export Ascii.
From stdpp Require Export base tactics option list gmap strings sorting relations.
From Stdlib Require Export ZArith Lia.

(** * Results

    Rust's [Result<T, E>].  The monad instances give stdpp's [x ← m; k]
    notation the meaning of the [?] operator. *)

Inductive result (E A : Type) : Type :=
| Ok (a : A)
| Err (e : E).
Arguments Ok {E A} _.
Arguments Err {E A} _.

#[export] Instance result_ret {E} : MRet (result E) := fun A a => Ok a.
#[export] Instance result_bind {E} : MBind (result E) := fun A B f m =>
  match m with Ok a => f a | Err e => Err e end.
#[export] Instance result_fmap {E} : FMap (result E) := fun A B f m =>
  match m with Ok a => Ok (f a) | Err e => Err e end.

#[export] Instance result_eq_dec {E A} `{!EqDecision E, !EqDecision A} :
  EqDecision (result E A).
Proof. solve_decision. Defined.

Definition is_ok {E A} (r : result E A) : bool :=
  match r with Ok _ => true | Err _ => false end.

(** The value of a successful result, with a default for the other case. *)
Definition value_of {E A} (d : A) (r : result E A) : A :=
  match r with Ok a => a | Err _ => d end.

Lemma value_of_ok {E A} (d : A) (r : result E A) : is_ok r = true -> r = Ok (value_of d r).
Proof. by destruct r. Qed.

Lemma value_of_ok_pair {E A B} (d : A * B) (r : result E (A * B)) :
  is_ok r = true -> r = Ok ((value_of d r).1, (value_of d r).2).
Proof. by destruct r as [[]|]. Qed.

Lemma outcome_ok {E A S} (d : A) (x : result E A * S) :
  is_ok x.1 = true -> x = (Ok (value_of d x.1), x.2).
Proof. by destruct x as [[]]. Qed.

Lemma value_of_ok_triple {E A B C} (d : A * B * C) (r : result E (A * B * C)) :
  is_ok r = true -> r = Ok ((value_of d r).1.1, (value_of d r).1.2, (value_of d r).2).
Proof. by destruct r as [[[]]|]. Qed.

Lemma value_of_ok_quad {E A B C D} (d : A * B * C * D) (r : result E (A * B * C * D)) :
  is_ok r = true ->
  r = Ok ((value_of d r).1.1.1, (value_of d r).1.1.2, (value_of d r).1.2, (value_of d r).2).
Proof. by destruct r as [[[[]]]|]. Qed.

Definition ok_or {E A} (o : option A) (e : E) : result E A :=
  match o with Some a => Ok a | None => Err e end.

Definition map_err {E F A} (f : E -> F) (r : result E A) : result F A :=
  match r with Ok a => Ok a | Err e => Err (f e) end.

(** An early [return Err(e)] under a condition. *)
Definition fail_if {E} (b : bool) (e : E) : result E () :=
  if b then Err e else Ok tt.

Lemma map_err_Ok {E F A} (f : E -> F) (r : result E A) a : map_err f r = Ok a <-> r = Ok a.
Proof. destruct r; cbn; naive_solver. Qed.

Section result_lemmas.
Context {E A B : Type}.
Implicit Types (m : result E A) (k : A -> result E B).

Lemma bind_Ok m k b : (m ≫= k) = Ok b <-> exists a, m = Ok a /\ k a = Ok b.
Proof. destruct m; cbn; naive_solver. Qed.

Lemma bind_Err m k e :
  (m ≫= k) = Err e <-> m = Err e \/ exists a, m = Ok a /\ k a = Err e.
Proof. destruct m; cbn; naive_solver. Qed.

Lemma fail_if_Ok b (e : E) u : fail_if b e = Ok u <-> b = false.
Proof. destruct b, u; cbn; naive_solver. Qed.

Lemma ok_or_Ok (o : option A) (e : E) a : ok_or o e = Ok a <-> o = Some a.
Proof. destruct o; cbn; naive_solver. Qed.
End result_lemmas.

(** * Machine integers

    A Rust integer of width [w] is a [Z] kept in its range; the operations the
    source uses are written out with their overflow behaviour. *)

Open Scope Z_scope.

Definition u8_max : Z := 2 ^ 8 - 1.
Definition u32_max : Z := 2 ^ 32 - 1.
Definition u64_max : Z := 2 ^ 64 - 1.
Definition i64_max : Z := 2 ^ 63 - 1.

Definition in_range (hi x : Z) : Prop := 0 <= x <= hi.

Definition saturating_sub_int (a b : Z) : Z := Z.max 0 (a - b).
Definition saturating_add_int (hi a b : Z) : Z := Z.min hi (a + b).

Lemma saturating_sub_range hi a b :
  in_range hi a -> in_range hi b -> in_range hi (saturating_sub_int a b).
Proof. unfold in_range, saturating_sub_int. lia. Qed.

Lemma saturating_add_range hi a b :
  in_range hi a -> in_range hi b -> in_range hi (saturating_add_int hi a b).
Proof. unfold in_range, saturating_add_int. lia. Qed.

Close Scope Z_scope.

Create HintDb ak.
#[export] Hint Resolve saturating_sub_range saturating_add_range : ak.

(** * Strings

    A Rust [String] is modelled by the [string] of its UTF-8 bytes; the
    searches the source makes are for ASCII or for whole strings, so they work
    on bytes. *)

#[global] Arguments String.append !s1 s2 / : simpl nomatch.

Definition str_is_empty (s : string) : bool :=
  match s with EmptyString => true | _ => false end.

Fixpoint str_drop (n : nat) (s : string) : string :=
  match n, s with
  | O, _ => s
  | S n', String _ s' => str_drop n' s'
  | S _, EmptyString => EmptyString
  end.

Fixpoint strip_prefix (p s : string) : option string :=
  match p, s with
  | EmptyString, _ => Some s
  | String c p', String d s' =>
      if decide (c = d) then strip_prefix p' s' else None
  | String _ _, EmptyString => None
  end.

Definition starts_with (p s : string) : bool :=
  match strip_prefix p s with Some _ => true | None => false end.

Definition ends_with (p s : string) : bool :=
  (String.length p <=? String.length s) &&
  String.eqb (str_drop (String.length s - String.length p) s) p.

(** [str::find] of a substring: the byte offset of its first occurrence. *)
Fixpoint str_find (p s : string) : option nat :=
  match strip_prefix p s with
  | Some _ => Some O
  | None =>
      match s with
      | EmptyString => None
      | String _ s' => S <$> str_find p s'
      end
  end.

Definition str_contains (p s : string) : bool :=
  match str_find p s with Some _ => true | None => false end.

(** [str::split] on one character: always at least one piece. *)
Fixpoint str_split (c : Ascii.ascii) (s : string) : list string :=
  match s with
  | EmptyString => [EmptyString]
  | String d s' =>
      if decide (c = d) then EmptyString :: str_split c s'
      else match str_split c s' with
           | [] => [String d EmptyString]
           | w :: ws => String d w :: ws
           end
  end.

Fixpoint str_join (sep : string) (l : list string) : string :=
  match l with
  | [] => EmptyString
  | [w] => w
  | w :: ws => w +:+ sep +:+ str_join sep ws
  end.

Section string_lemmas.
Implicit Types (p r s : string).

Lemma str_app_assoc p r s : (p +:+ r) +:+ s = p +:+ (r +:+ s).
Proof. induction p as [|c p IH]; simpl; [done | by rewrite IH]. Qed.

Lemma str_app_nil_r s : s +:+ EmptyString = s.
Proof. induction s as [|c s IH]; simpl; [done | by rewrite IH]. Qed.

Lemma str_length_app p s :
  String.length (p +:+ s) = String.length p + String.length s.
Proof. induction p as [|c p IH]; simpl; [done | by rewrite IH]. Qed.

Lemma str_drop_app p s : str_drop (String.length p) (p +:+ s) = s.
Proof. by induction p. Qed.

Lemma strip_prefix_Some p s r : strip_prefix p s = Some r <-> s = p +:+ r.
Proof.
  revert s. induction p as [|c p IH]; intros [|d s]; cbn; try naive_solver.
  destruct (decide (c = d)) as [->|Hne].
  - rewrite IH. naive_solver.
  - naive_solver.
Qed.

Lemma strip_prefix_None p s : strip_prefix p s = None <-> forall r, s <> p +:+ r.
Proof.
  split.
  - intros HN r Heq. apply strip_prefix_Some in Heq. congruence.
  - intros Hno. destruct (strip_prefix p s) as [r|] eqn:E; [|done].
    apply strip_prefix_Some in E. by destruct (Hno r).
Qed.

Lemma starts_with_true p s : starts_with p s = true <-> exists r, s = p +:+ r.
Proof.
  unfold starts_with. destruct (strip_prefix p s) as [r|] eqn:E.
  - apply strip_prefix_Some in E. naive_solver.
  - rewrite strip_prefix_None in E. naive_solver.
Qed.

Lemma starts_with_trans p q s :
  starts_with p q = true -> starts_with q s = true -> starts_with p s = true.
Proof.
  rewrite !starts_with_true. intros [r ->] [r' ->].
  exists (r +:+ r'). by rewrite str_app_assoc.
Qed.

Lemma ends_with_true p s : ends_with p s = true <-> exists l, s = l +:+ p.
Proof.
  unfold ends_with. rewrite andb_true_iff, Nat.leb_le, String.eqb_eq. split.
  - intros [Hle Hd]. remember (String.length s - String.length p) as n eqn:Hn.
    clear Hle Hn. revert s Hd. induction n as [|n IH]; intros [|c s]; cbn; intros Hd.
    + by exists EmptyString.
    + by exists EmptyString.
    + by exists EmptyString.
    + destruct (IH _ Hd) as [l ->]. by exists (String c l).
  - intros [l ->]. rewrite str_length_app. split; [lia|].
    replace (String.length l + String.length p - String.length p)
      with (String.length l) by lia.
    apply str_drop_app.
Qed.

Lemma str_find_Some p s n :
  str_find p s = Some n ->
  exists l, s = l +:+ p +:+ str_drop (n + String.length p) s
            /\ String.length l = n.
Proof.
  revert n. induction s as [|c s IH]; intros n; cbn [str_find].
  - destruct (strip_prefix p EmptyString) as [r|] eqn:E; [|done].
    intros [= <-]. apply strip_prefix_Some in E. exists EmptyString. cbn.
    split; [|done]. rewrite E. by rewrite str_drop_app.
  - destruct (strip_prefix p (String c s)) as [r|] eqn:E.
    + intros [= <-]. apply strip_prefix_Some in E. exists EmptyString. cbn.
      split; [|done]. rewrite E. by rewrite str_drop_app.
    + destruct (str_find p s) as [m|] eqn:Em; [|done]. intros [= <-].
      destruct (IH m eq_refl) as (l & Hs & Hl).
      exists (String c l). cbn. split; [|lia]. f_equal. exact Hs.
Qed.

(** The first occurrence is at or before any other one. *)
Lemma str_find_first p l r :
  exists n, str_find p (l +:+ p +:+ r) = Some n /\ n <= String.length l.
Proof.
  induction l as [|c l IH]; cbn [String.app].
  - exists O. split; [|done].
    assert (strip_prefix p (p +:+ r) = Some r) as Hp
      by by apply strip_prefix_Some.
    destruct (p +:+ r) eqn:E; cbn; by rewrite Hp.
  - cbn [str_find]. destruct (strip_prefix p (String c (l +:+ p +:+ r))).
    + exists O. split; [done|lia].
    + destruct IH as (n & -> & Hn). exists (S n). split; [done|]. cbn. lia.
Qed.

Lemma str_contains_true p s :
  str_contains p s = true <-> exists l r, s = l +:+ p +:+ r.
Proof.
  unfold str_contains. split.
  - destruct (str_find p s) as [n|] eqn:E; [|done]. intros _.
    apply str_find_Some in E as (l & Hs & _). eauto.
  - intros (l & r & ->). destruct (str_find_first p l r) as (n & -> & _). done.
Qed.

Lemma str_app_split l1 r1 l2 r2 :
  l1 +:+ r1 = l2 +:+ r2 -> String.length l1 <= String.length l2 ->
  exists x, l2 = l1 +:+ x /\ r1 = x +:+ r2.
Proof.
  revert l2. induction l1 as [|c l1 IH]; cbn; intros l2 Heq Hle.
  - exists l2. done.
  - destruct l2 as [|d l2]; cbn in *; [lia|]. injection Heq as -> Heq.
    destruct (IH _ Heq ltac:(lia)) as (x & -> & ->). by exists x.
Qed.

Lemma substring_app n s : String.substring 0 (String.length n) (n +:+ s) = n.
Proof. induction n as [|c n IH]; cbn; [by destruct s|by rewrite IH]. Qed.

Lemma substring_0_app n s : String.substring 0 n s +:+ str_drop n s = s.
Proof. revert s. induction n as [|n IH]; intros [|c s]; cbn; try done. by rewrite IH. Qed.

Lemma substring_0_length n s : String.length (String.substring 0 n s) = Nat.min n (String.length s).
Proof. revert s. induction n as [|n IH]; intros [|c s]; cbn; try done. by rewrite IH. Qed.

Lemma str_drop_drop n m s : str_drop n (str_drop m s) = str_drop (m + n) s.
Proof.
  revert s. induction m as [|m IH]; intros s; cbn; [done|]. destruct s; cbn; [by destruct n|apply IH].
Qed.

Lemma str_drop_length n s : String.length (str_drop n s) = (String.length s - n)%nat.
Proof. revert s. induction n as [|n IH]; intros [|c s]; cbn; try done. Qed.

Lemma str_drop_all n s : (String.length s <= n)%nat -> str_drop n s = EmptyString.
Proof. intros Hn. pose proof (str_drop_length n s). destruct (str_drop n s); [done|]. cbn in *. lia. Qed.

Lemma substring_0_all n s : (String.length s <= n)%nat -> String.substring 0 n s = s.
Proof.
  intros Hn. rewrite <- (substring_0_app n s) at 2. rewrite str_drop_all by done. by rewrite str_app_nil_r.
Qed.

Lemma str_length_zero s : String.length s = O -> s = EmptyString.
Proof. by destruct s. Qed.

Lemma str_split_nonempty c s : str_split c s <> [].
Proof. destruct s; cbn; [done|]. case_match; [done|]. by case_match. Qed.

Lemma str_join_split c s : str_join (String c EmptyString) (str_split c s) = s.
Proof.
  induction s as [|d s IH]; cbn; [done|].
  destruct (decide (c = d)) as [->|Hne].
  - pose proof (str_split_nonempty d s).
    destruct (str_split d s) eqn:E; [done|]. cbn. by rewrite <- IH.
  - pose proof (str_split_nonempty c s).
    destruct (str_split c s) as [|w [|w' ws]] eqn:E; [done|..]; cbn in *;
      by rewrite <- IH.
Qed.
End string_lemmas.

(** * IndexMap

    [indexmap::IndexMap] iterates in insertion order, so it is an association
    list; [insert] replaces in place or appends. *)

Section index_map.
Context {V : Type}.
Implicit Types (m : list (string * V)) (k : string).

Fixpoint im_get k m : option V :=
  match m with
  | [] => None
  | (k', v) :: m' => if decide (k = k') then Some v else im_get k m'
  end.

Fixpoint im_insert k (v : V) m : list (string * V) :=
  match m with
  | [] => [(k, v)]
  | (k', v') :: m' =>
      if decide (k = k') then (k', v) :: m' else (k', v') :: im_insert k v m'
  end.

Lemma im_get_insert_eq k v m : im_get k (im_insert k v m) = Some v.
Proof.
  induction m as [|[k' v'] m IH]; cbn; [by rewrite decide_True|].
  destruct (decide (k = k')) as [->|Hne]; cbn.
  - by rewrite decide_True.
  - by rewrite decide_False.
Qed.

Lemma im_get_insert_ne k k' v m : k <> k' -> im_get k' (im_insert k v m) = im_get k' m.
Proof.
  intros Hne. induction m as [|[q w] m IH]; cbn; [by rewrite decide_False|].
  destruct (decide (k = q)) as [->|Hkq]; cbn.
  - by rewrite !decide_False by done.
  - by rewrite IH.
Qed.

Lemma im_get_elem k v m : im_get k m = Some v -> (k, v) ∈ m.
Proof.
  induction m as [|[q w] m IH]; cbn; [done|].
  destruct (decide (k = q)) as [->|Hne]; set_solver.
Qed.

Lemma im_elem_get k v m : NoDup m.*1 -> (k, v) ∈ m -> im_get k m = Some v.
Proof.
  induction m as [|[q w] m IH]; cbn; [set_solver|].
  intros [Hnin Hnd]%NoDup_cons [Heq|Hin]%elem_of_cons.
  - simplify_eq. by rewrite decide_True.
  - rewrite decide_False; [by apply IH|]. intros ->.
    apply Hnin, list_elem_of_fmap. by exists (q, v).
Qed.
End index_map.

(** * BTreeMap

    [BTreeMap<String, V>] is a [gmap] whose iteration is in key order. *)

Section btree.
Context {V : Type}.
Implicit Types (m : gmap string V).

Definition bt_keys m : list string := merge_sort String.le (elements (dom m)).

Lemma bt_keys_elem k m : k ∈ bt_keys m <-> is_Some (m !! k).
Proof.
  unfold bt_keys. by rewrite merge_sort_Permutation, elem_of_elements, elem_of_dom.
Qed.

Lemma bt_keys_sorted m : Sorted String.le (bt_keys m).
Proof. apply Sorted_merge_sort, _. Qed.

Lemma bt_keys_nodup m : NoDup (bt_keys m).
Proof. unfold bt_keys. rewrite merge_sort_Permutation. apply NoDup_elements. Qed.

Definition bt_iter m : list (string * V) :=
  omap (fun k => (fun v => (k, v)) <$> m !! k) (bt_keys m).

Lemma bt_iter_elem k v m : (k, v) ∈ bt_iter m <-> m !! k = Some v.
Proof.
  unfold bt_iter. rewrite list_elem_of_omap. split.
  - intros (k' & _ & H). destruct (m !! k') eqn:E; cbn in H; naive_solver.
  - intros H. exists k. rewrite bt_keys_elem, H. naive_solver.
Qed.
End btree.

(** * Relations *)

Lemma tc_last {A} (R : relation A) x z : tc R x z -> exists y, R y z.
Proof. induction 1 as [x y Hxy|x y z _ _ IH]; eauto. Qed.

(** * Tactics *)

(** Decompose a successful monadic computation in the context. *)
Ltac inv_result :=
  repeat match goal with
  | H : (_ ≫= _) = Ok _ |- _ =>
      let H' := fresh "Hb" in rename H into H';
      apply bind_Ok in H' as (? & ? & ?)
  | H : fail_if _ _ = Ok _ |- _ => apply fail_if_Ok in H
  | H : ok_or _ _ = Ok _ |- _ => apply ok_or_Ok in H
  | H : Ok _ = Ok _ |- _ => injection H as H
  | H : Err _ = Ok _ |- _ => discriminate H
  | H : Ok _ = Err _ |- _ => discriminate H
  | H : mret _ = Ok _ |- _ => injection H as H
  end; simplify_eq.

(** Split a conjunction of boolean tests in the context. *)
Ltac bool_hyps :=
  repeat match goal with
  | H : _ && _ = true |- _ =>
      let H' := fresh "Hb" in rename H into H'; apply andb_true_iff in H' as [? ?]
  | H : _ || _ = false |- _ =>
      let H' := fresh "Hb" in rename H into H'; apply orb_false_iff in H' as [? ?]
  | H : negb _ = true |- _ => apply negb_true_iff in H
  | H : negb _ = false |- _ => apply negb_false_iff in H
  | H : bool_decide _ = true |- _ => apply bool_decide_eq_true in H
  | H : bool_decide _ = false |- _ => apply bool_decide_eq_false in H
  | H : Z.leb _ _ = true |- _ => apply Z.leb_le in H
  | H : Z.leb _ _ = false |- _ => apply Z.leb_gt in H
  | H : Z.ltb _ _ = true |- _ => apply Z.ltb_lt in H
  | H : Z.ltb _ _ = false |- _ => apply Z.ltb_ge in H
  | H : Z.eqb _ _ = true |- _ => apply Z.eqb_eq in H
  | H : Z.eqb _ _ = false |- _ => apply Z.eqb_neq in H
  end.
