(* ===== verification/Budget.v ===== *)
(** Resource budgets: [kernel/core/src/budget.rs].

    A budget is six machine-width counters.  [charge] mutates its receiver in
    the source; here it returns the exhausted dimensions with the new budget.
    The lemmas give the order and arithmetic the scheduler and the lease
    algebra use: [fits_within] is a partial order whose meet is [clamped_to],
    reserving what fits and giving it back is the identity, and [charge] is
    [saturating_sub] with a report. *)

From S2P Require Import Prelude.

Open Scope Z_scope.

Record ResourceBudget := mkBudget {
  cpu_ms : Z;          (* u64 *)
  memory_bytes : Z;    (* u64 *)
  network_bytes : Z;   (* u64 *)
  tokens : Z;          (* u64 *)
  cost_micro_usd : Z;  (* u64 *)
  risk_units : Z;      (* u32 *)
}.

#[export] Instance ResourceBudget_eq_dec : EqDecision ResourceBudget.
Proof. solve_decision. Defined.

Definition budget_zero : ResourceBudget := mkBudget 0 0 0 0 0 0.

Definition step_default : ResourceBudget :=
  mkBudget 60000 (Z.shiftl 2 30) (Z.shiftl 256 20) 200000 0 10.

Definition fits_within (self outer : ResourceBudget) : bool :=
  (cpu_ms self <=? cpu_ms outer)
  && (memory_bytes self <=? memory_bytes outer)
  && (network_bytes self <=? network_bytes outer)
  && (tokens self <=? tokens outer)
  && (cost_micro_usd self <=? cost_micro_usd outer)
  && (risk_units self <=? risk_units outer).

(** The [dim!] macro of [exceeding_dimensions]. *)
Definition over_dim (name : string) (a b : Z) : list string :=
  if b <? a then [name] else [].

Definition exceeding_dimensions (self outer : ResourceBudget) : list string :=
  over_dim "cpu_ms" (cpu_ms self) (cpu_ms outer)
  ++ over_dim "memory_bytes" (memory_bytes self) (memory_bytes outer)
  ++ over_dim "network_bytes" (network_bytes self) (network_bytes outer)
  ++ over_dim "tokens" (tokens self) (tokens outer)
  ++ over_dim "cost_micro_usd" (cost_micro_usd self) (cost_micro_usd outer)
  ++ over_dim "risk_units" (risk_units self) (risk_units outer).

Definition clamped_to (self outer : ResourceBudget) : ResourceBudget :=
  mkBudget (Z.min (cpu_ms self) (cpu_ms outer))
           (Z.min (memory_bytes self) (memory_bytes outer))
           (Z.min (network_bytes self) (network_bytes outer))
           (Z.min (tokens self) (tokens outer))
           (Z.min (cost_micro_usd self) (cost_micro_usd outer))
           (Z.min (risk_units self) (risk_units outer)).

Definition saturating_sub (self other : ResourceBudget) : ResourceBudget :=
  mkBudget (saturating_sub_int (cpu_ms self) (cpu_ms other))
           (saturating_sub_int (memory_bytes self) (memory_bytes other))
           (saturating_sub_int (network_bytes self) (network_bytes other))
           (saturating_sub_int (tokens self) (tokens other))
           (saturating_sub_int (cost_micro_usd self) (cost_micro_usd other))
           (saturating_sub_int (risk_units self) (risk_units other)).

Definition saturating_add (self other : ResourceBudget) : ResourceBudget :=
  mkBudget (saturating_add_int u64_max (cpu_ms self) (cpu_ms other))
           (saturating_add_int u64_max (memory_bytes self) (memory_bytes other))
           (saturating_add_int u64_max (network_bytes self) (network_bytes other))
           (saturating_add_int u64_max (tokens self) (tokens other))
           (saturating_add_int u64_max (cost_micro_usd self) (cost_micro_usd other))
           (saturating_add_int u32_max (risk_units self) (risk_units other)).

(** The [dim!] macro of [charge]: the reported name and the new field. *)
Definition charge_dim (name : string) (have usage : Z) : list string * Z :=
  if have <? usage then ([name], 0) else ([], have - usage).

Definition charge (self usage : ResourceBudget) : list string * ResourceBudget :=
  let '(e1, cpu) := charge_dim "cpu_ms" (cpu_ms self) (cpu_ms usage) in
  let '(e2, mem) := charge_dim "memory_bytes" (memory_bytes self) (memory_bytes usage) in
  let '(e3, net) := charge_dim "network_bytes" (network_bytes self) (network_bytes usage) in
  let '(e4, tok) := charge_dim "tokens" (tokens self) (tokens usage) in
  let '(e5, usd) := charge_dim "cost_micro_usd" (cost_micro_usd self) (cost_micro_usd usage) in
  let '(e6, risk) := charge_dim "risk_units" (risk_units self) (risk_units usage) in
  (e1 ++ e2 ++ e3 ++ e4 ++ e5 ++ e6, mkBudget cpu mem net tok usd risk).

(** Every field is in the range of its Rust type. *)
Definition budget_wf (b : ResourceBudget) : Prop :=
  in_range u64_max (cpu_ms b) /\ in_range u64_max (memory_bytes b)
  /\ in_range u64_max (network_bytes b) /\ in_range u64_max (tokens b)
  /\ in_range u64_max (cost_micro_usd b) /\ in_range u32_max (risk_units b).

(** Dimension-wise (unbounded) sum, the reference for conservation laws. *)
Definition budget_plus (a b : ResourceBudget) : ResourceBudget :=
  mkBudget (cpu_ms a + cpu_ms b) (memory_bytes a + memory_bytes b)
           (network_bytes a + network_bytes b) (tokens a + tokens b)
           (cost_micro_usd a + cost_micro_usd b) (risk_units a + risk_units b).

(** * Lemmas *)

Ltac budget_destruct :=
  repeat match goal with b : ResourceBudget |- _ => destruct b end.

Ltac budget_crush :=
  budget_destruct;
  unfold fits_within, clamped_to, saturating_sub, saturating_add, budget_wf,
    budget_plus, budget_zero, in_range, saturating_sub_int, saturating_add_int in *;
  cbn [cpu_ms memory_bytes network_bytes tokens cost_micro_usd risk_units] in *;
  rewrite ?andb_true_iff, ?Z.leb_le in *;
  destruct_and?; repeat split; try f_equal; try lia.

Section budget_lemmas.
Implicit Types a b c : ResourceBudget.

Lemma fits_within_refl a : fits_within a a = true.
Proof. budget_crush. Qed.

Lemma fits_within_trans a b c :
  fits_within a b = true -> fits_within b c = true -> fits_within a c = true.
Proof. intros. budget_crush. Qed.

Lemma fits_within_antisym a b :
  fits_within a b = true -> fits_within b a = true -> a = b.
Proof. intros. budget_crush. Qed.

Lemma clamped_to_fits_l a b : fits_within (clamped_to a b) a = true.
Proof. budget_crush. Qed.

Lemma clamped_to_fits_r a b : fits_within (clamped_to a b) b = true.
Proof. budget_crush. Qed.

Lemma clamped_to_greatest a b c :
  fits_within c a = true -> fits_within c b = true ->
  fits_within c (clamped_to a b) = true.
Proof. intros. budget_crush. Qed.

Lemma saturating_sub_wf a b : budget_wf a -> budget_wf b -> budget_wf (saturating_sub a b).
Proof. intros. budget_crush. Qed.

Lemma saturating_add_wf a b : budget_wf a -> budget_wf b -> budget_wf (saturating_add a b).
Proof. intros. unfold u64_max, u32_max in *. budget_crush. Qed.

Lemma saturating_add_wf_l a b : budget_wf a -> budget_wf b ->
  fits_within a (saturating_add a b) = true.
Proof. intros. budget_crush. Qed.

(** Reserving an amount that fits and returning it restores the budget. *)
Lemma reserve_refund a b :
  budget_wf a -> budget_wf b -> fits_within b a = true ->
  saturating_add (saturating_sub a b) b = a.
Proof. intros. budget_crush. Qed.

(** An addition that stays in range is the exact sum. *)
Lemma saturating_add_exact a b :
  budget_wf (budget_plus a b) -> saturating_add a b = budget_plus a b.
Proof. intros. budget_crush. Qed.

Lemma saturating_sub_plus a b :
  fits_within b a = true -> budget_plus (saturating_sub a b) b = a.
Proof. intros. budget_crush. Qed.

Lemma budget_zero_wf : budget_wf budget_zero.
Proof. unfold budget_wf, in_range, u64_max, u32_max. cbn. lia. Qed.

Lemma budget_plus_assoc a b c :
  budget_plus (budget_plus a b) c = budget_plus a (budget_plus b c).
Proof. budget_crush. Qed.

Lemma budget_plus_zero_l a : budget_plus budget_zero a = a.
Proof. budget_crush. Qed.

Lemma exceeding_dimensions_nil a b :
  exceeding_dimensions a b = [] <-> fits_within a b = true.
Proof.
  unfold exceeding_dimensions, over_dim, fits_within.
  rewrite !app_nil, !andb_true_iff, !Z.leb_le.
  repeat match goal with |- context [?x <? ?y] => destruct (Z.ltb_spec x y) end;
    split; intros; destruct_and?; simplify_eq; repeat split; done || lia.
Qed.

Lemma charge_dim_spec name have usage :
  charge_dim name have usage
  = (over_dim name usage have,
     if have <? usage then 0 else have - usage).
Proof. unfold charge_dim, over_dim. by destruct (have <? usage). Qed.

(** [charge] reports exactly the dimensions usage exceeds and leaves the
    saturating difference. *)
Lemma charge_spec a b :
  budget_wf a -> budget_wf b ->
  charge a b = (exceeding_dimensions b a, saturating_sub a b).
Proof.
  intros Ha Hb. unfold charge. rewrite !charge_dim_spec. f_equal.
  unfold budget_wf, in_range, saturating_sub, saturating_sub_int in *.
  f_equal; case_match; bool_hyps; lia.
Qed.
End budget_lemmas.

#[export] Hint Resolve fits_within_refl clamped_to_fits_l clamped_to_fits_r
  saturating_sub_wf saturating_add_wf : ak.

Close Scope Z_scope.
