(* ===== verification/Glob.v ===== *)
(** The [*]-only glob matcher: [glob_match] of [kernel/core/src/capability.rs].

    [glob_match] splits the pattern on [*] and scans the input once, leftmost
    match first.  The reference is the relation [glob]: a [*] stands for any
    string, any other character for itself.  The scan decides the relation. *)

From S2P Require Import Prelude.

Definition star : Ascii.ascii := "*"%char.

(** The [for] loop over the pieces: [Some b] is an early [return b], [None]
    means the loop ran to its end. *)
Fixpoint glob_loop (len i : nat) (parts : list string) (rest : string) : option bool :=
  match parts with
  | [] => None
  | part :: parts' =>
      if str_is_empty part then glob_loop len (S i) parts' rest
      else if i =? 0 then
        match strip_prefix part rest with
        | Some r => glob_loop len (S i) parts' r
        | None => Some false
        end
      else if i =? len - 1 then Some (ends_with part rest)
      else
        match str_find part rest with
        | Some pos => glob_loop len (S i) parts' (str_drop (pos + String.length part) rest)
        | None => Some false
        end
  end.

Definition glob_match (pattern input : string) : bool :=
  let parts := str_split star pattern in
  if length parts =? 1 then String.eqb pattern input
  else
    match glob_loop (length parts) 0 parts input with
    | Some b => b
    | None =>
        match last parts with Some p => str_is_empty p | None => false end
        || (length parts =? 1)
    end.

(** * The reference relation *)

Inductive glob : string -> string -> Prop :=
| glob_empty : glob EmptyString EmptyString
| glob_char c p s : c <> star -> glob p s -> glob (String c p) (String c s)
| glob_star p s1 s2 : glob p s2 -> glob (String star p) (s1 +:+ s2).

(** What the pieces after the first [*] must do: each inner piece occurs
    somewhere, in order, and the last one ends the input. *)
Fixpoint tail_match (parts : list string) (s : string) : Prop :=
  match parts with
  | [] => False
  | [p] => exists l, s = l +:+ p
  | p :: ps => exists l r, s = l +:+ p +:+ r /\ tail_match ps r
  end.

Definition parts_match (parts : list string) (s : string) : Prop :=
  match parts with
  | [] => False
  | [p] => s = p
  | p :: ps => exists r, s = p +:+ r /\ tail_match ps r
  end.

Section glob_lemmas.

Lemma glob_loop_cons len i part parts rest :
  glob_loop len i (part :: parts) rest =
  if str_is_empty part then glob_loop len (S i) parts rest
  else if i =? 0 then
    match strip_prefix part rest with
    | Some r => glob_loop len (S i) parts r
    | None => Some false
    end
  else if i =? len - 1 then Some (ends_with part rest)
  else
    match str_find part rest with
    | Some pos => glob_loop len (S i) parts (str_drop (pos + String.length part) rest)
    | None => Some false
    end.
Proof. done. Qed.

Lemma tail_match_prepend ps x s : tail_match ps s -> tail_match ps (x +:+ s).
Proof.
  destruct ps as [|p [|q ps]]; cbn [tail_match]; [done|..].
  - intros [l ->]. exists (x +:+ l). by rewrite str_app_assoc.
  - intros (l & r & -> & Ht). exists (x +:+ l), r. by rewrite str_app_assoc.
Qed.

Lemma tail_match_empty p ps s : str_is_empty p = true -> ps <> [] ->
  tail_match (p :: ps) s <-> tail_match ps s.
Proof.
  destruct p; [|done]. intros _ Hne. destruct ps as [|q ps]; [done|].
  cbn [tail_match]. split.
  - intros (l & r & -> & Ht). by apply (tail_match_prepend (q :: ps)).
  - intros Ht. exists EmptyString, s. done.
Qed.

(** Taking the leftmost occurrence of an inner piece loses nothing. *)
Lemma tail_match_find p q ps s :
  tail_match (p :: q :: ps) s <->
  exists n, str_find p s = Some n
            /\ tail_match (q :: ps) (str_drop (n + String.length p) s).
Proof.
  cbn [tail_match]. split.
  - intros (l & r & -> & Ht). destruct (str_find_first p l r) as (n & Hf & Hn).
    exists n. split; [done|].
    destruct (str_find_Some _ _ _ Hf) as (l' & Heq & Hl').
    set (d := str_drop _ _) in *.
    destruct (str_app_split l' (p +:+ d) l (p +:+ r)) as (x & Hl & Hd);
      [by rewrite <- Heq | lia|].
    assert (exists y, d = y +:+ r) as [y ->].
    { destruct (str_app_split (l' +:+ p) d (l +:+ p) r) as (y & _ & ->).
      - rewrite !str_app_assoc. by rewrite <- Heq.
      - rewrite !str_length_app. lia.
      - by exists y. }
    by apply (tail_match_prepend (q :: ps)).
  - intros (n & Hf & Ht). destruct (str_find_Some _ _ _ Hf) as (l & Heq & _).
    exists l, (str_drop (n + String.length p) s). done.
Qed.

(** The loop past the first piece decides [tail_match]. *)
Lemma glob_loop_tail len i ps s :
  ps <> [] -> i <> 0 -> i + length ps = len ->
  tail_match ps s <->
  match glob_loop len i ps s with
  | Some b => b = true
  | None => match last ps with Some p => str_is_empty p = true | None => False end
  end.
Proof.
  revert i s. induction ps as [|p ps IH]; intros i s Hne Hi Hlen; [done|].
  rewrite glob_loop_cons. cbn [length] in Hlen. destruct ps as [|q ps].
  - cbn [glob_loop tail_match last]. destruct (str_is_empty p) eqn:Ep.
    + destruct p; [|done]. split; [done|]. exists s. by rewrite str_app_nil_r.
    + rewrite (proj2 (Nat.eqb_neq i 0)) by done.
      rewrite (proj2 (Nat.eqb_eq i (len - 1))) by (cbn in Hlen; lia).
      by rewrite ends_with_true.
  - change (last (p :: q :: ps)) with (last (q :: ps)).
    destruct (str_is_empty p) eqn:Ep.
    + rewrite (tail_match_empty p (q :: ps)) by done.
      apply IH; [done|lia|cbn in *; lia].
    + rewrite (proj2 (Nat.eqb_neq i 0)) by done.
      rewrite (proj2 (Nat.eqb_neq i (len - 1))) by (cbn in Hlen; lia).
      rewrite tail_match_find.
      destruct (str_find p s) as [n|] eqn:Ef.
      * rewrite <- IH by (done || cbn in *; lia). naive_solver.
      * naive_solver.
Qed.

Lemma glob_loop_parts ps s :
  2 <= length ps ->
  parts_match ps s <->
  match glob_loop (length ps) 0 ps s with
  | Some b => b = true
  | None => match last ps with Some p => str_is_empty p = true | None => False end
  end.
Proof.
  destruct ps as [|p [|q ps]]; cbn [length]; [lia..|]. intros _.
  change (last (p :: q :: ps)) with (last (q :: ps)).
  change (parts_match (p :: q :: ps) s)
    with (exists r, s = p +:+ r /\ tail_match (q :: ps) r).
  rewrite glob_loop_cons. destruct (str_is_empty p) eqn:Ep.
  - destruct p; [|done].
    transitivity (tail_match (q :: ps) s); [cbn; naive_solver|].
    by apply glob_loop_tail.
  - rewrite Nat.eqb_refl. destruct (strip_prefix p s) as [r|] eqn:E.
    + apply strip_prefix_Some in E as ->.
      transitivity (tail_match (q :: ps) r); [|by apply glob_loop_tail].
      split; [|eauto]. intros (r' & Heq & Ht).
      by apply String.app_inj in Heq as ->.
    + rewrite strip_prefix_None in E. naive_solver.
Qed.

(** The relation, read through the pieces of the pattern. *)
Lemma tail_match_parts ps s :
  tail_match ps s <-> exists l r, s = l +:+ r /\ parts_match ps r.
Proof.
  destruct ps as [|p [|q ps]]; cbn [tail_match parts_match]; [naive_solver|..].
  - split; [intros [l ->]; eauto|]. intros (l & r & -> & ->). eauto.
  - split.
    + intros (l & r & -> & Ht). exists l, (p +:+ r). eauto.
    + intros (l & r & -> & r' & -> & Ht). exists l, r'. done.
Qed.

Lemma glob_parts pattern s :
  glob pattern s <-> parts_match (str_split star pattern) s.
Proof.
  revert s. induction pattern as [|c p IH]; intros s; cbn [str_split].
  - cbn. split; [by inversion 1|intros ->; constructor].
  - pose proof (str_split_nonempty star p) as Hne.
    destruct (decide (star = c)) as [<-|Hc].
    + destruct (str_split star p) as [|w ws] eqn:Ew; [done|].
      change (parts_match (EmptyString :: w :: ws) s)
        with (exists r, s = EmptyString +:+ r /\ tail_match (w :: ws) r).
      transitivity (tail_match (w :: ws) s); [|cbn; naive_solver].
      rewrite tail_match_parts. split.
      * inversion 1; subst; [congruence|]. eexists _, _. split; [done|]. by apply IH.
      * intros (l & r & -> & Hm). constructor. by apply IH.
    + destruct (str_split star p) as [|w ws] eqn:Ew; [done|].
      assert (parts_match (String c w :: ws) s <->
              exists s', s = String c s' /\ parts_match (w :: ws) s') as ->.
      { destruct ws; cbn; naive_solver. }
      split.
      * inversion 1; subst; [|done]. eexists. split; [done|]. by apply IH.
      * intros (s' & -> & Hm). constructor; [done|]. by apply IH.
Qed.

Lemma glob_match_spec pattern input :
  glob_match pattern input = true <-> glob pattern input.
Proof.
  rewrite glob_parts. unfold glob_match.
  pose proof (str_split_nonempty star pattern) as Hne.
  pose proof (str_join_split star pattern) as Hj.
  destruct (str_split star pattern) as [|w [|w' ws]] eqn:E; [done|..].
  - cbn in *. subst w. rewrite String.eqb_eq. naive_solver.
  - cbn [length Nat.eqb]. rewrite glob_loop_parts by (cbn; lia).
    cbn [length]. rewrite orb_false_r.
    destruct (glob_loop _ _ _ _); [done|]. by case_match.
Qed.
End glob_lemmas.

(** * Properties *)

(** C40: [glob_match], which scans the input once and takes the leftmost occurrence of
    every piece, decides the glob relation: [*] stands for any string and every other
    character for itself. *)
Theorem glob_match_correct pattern input :
  glob_match pattern input = true <-> glob pattern input.
Proof. apply glob_match_spec. Qed.
