(* ===== verification/Json.v ===== *)
(** JSON values and canonical hashing: [kernel/core/src/hash.rs], with the part
    of [serde_json::Value] and of [f64] the kernel uses.

    [Value] has serde's constructors; numbers keep serde's three forms, floats
    are IEEE binary64 in the Standard Library's executable specification
    ([SpecFloat]).  An object is the list of its entries in iteration order
    (serde's map is a [BTreeMap], so [value_wf] asks for increasing keys).
    [value_eqb] is serde's [PartialEq]: structural, with IEEE equality on
    floats, so it is coarser than Leibniz equality ([0.0 == -0.0]).

    The text serde prints for a scalar and the SHA-256 digest are not code of
    the repository: they are the operations of the classes [Serde] and
    [Sha256]. *)

From Stdlib Require Export SpecFloat.
From S2P Require Import Prelude.

(** * Floats *)

Abbreviation f64 := spec_float.
Definition f64_prec : Z := 53.
Definition f64_emax : Z := 1024.

(** [n as f64] for an integer: round to nearest even. *)
Definition f64_of_int (n : Z) : f64 := binary_normalize f64_prec f64_emax n 0 false.

Definition f64_finite (f : f64) : bool :=
  match f with S754_zero _ | S754_finite _ _ _ => true | _ => false end.

(** IEEE comparison is the lexicographic order of these keys. *)
Definition f64_key (f : f64) : option (Z * Z * Z) :=
  match f with
  | S754_nan => None
  | S754_infinity true => Some (-2, 0, 0)%Z
  | S754_finite true m e => Some (-1, - e, - Zpos m)%Z
  | S754_zero _ => Some (0, 0, 0)%Z
  | S754_finite false m e => Some (1, e, Zpos m)%Z
  | S754_infinity false => Some (2, 0, 0)%Z
  end.

Definition lex_compare (a b : Z * Z * Z) : comparison :=
  match (a.1.1 ?= b.1.1)%Z with
  | Eq => match (a.1.2 ?= b.1.2)%Z with Eq => (a.2 ?= b.2)%Z | c => c end
  | c => c
  end.

Section float_lemmas.
Implicit Types f g h : f64.

Lemma SFcompare_key f g :
  SFcompare f g =
  match f64_key f, f64_key g with
  | Some a, Some b => Some (lex_compare a b)
  | _, _ => None
  end.
Proof.
  destruct f as [s|s| |s m e], g as [s'|s'| |s' m' e'];
    try destruct s; try destruct s'; cbn; try done.
  unfold lex_compare; cbn [fst snd]. rewrite !Z.compare_opp. cbn.
  rewrite (Z.compare_antisym e e'), (Pos.compare_antisym m m').
  by destruct (e ?= e')%Z.
Qed.

Lemma lex_compare_Eq a b : lex_compare a b = Eq -> a = b.
Proof.
  destruct a as [[a1 a2] a3], b as [[b1 b2] b3]. unfold lex_compare; cbn.
  repeat case_match; try done; intros H';
    repeat match goal with H : (_ ?= _)%Z = Eq |- _ => apply Z.compare_eq in H end;
    by subst.
Qed.

Lemma lex_compare_refl a : lex_compare a a = Eq.
Proof. unfold lex_compare. by rewrite !Z.compare_refl. Qed.

Lemma lex_compare_le_trans a b c :
  lex_compare a b <> Gt -> lex_compare b c <> Gt -> lex_compare a c <> Gt.
Proof.
  destruct a as [[a1 a2] a3], b as [[b1 b2] b3], c as [[c1 c2] c3].
  unfold lex_compare; cbn.
  repeat match goal with
  | |- context [(?x ?= ?y)%Z] => destruct (Z.compare_spec x y)
  end; subst; try done; lia.
Qed.

Lemma SFeqb_key f g : SFeqb f g = true <-> f64_key f = f64_key g /\ f64_key f <> None.
Proof.
  unfold SFeqb. rewrite SFcompare_key.
  destruct (f64_key f) as [a|], (f64_key g) as [b|];
    [|split; [done|by intros [??]]..].
  destruct (lex_compare a b) eqn:E.
  - apply lex_compare_Eq in E as ->. naive_solver.
  - split; [done|]. intros [[= ->] _]. by rewrite lex_compare_refl in E.
  - split; [done|]. intros [[= ->] _]. by rewrite lex_compare_refl in E.
Qed.

Lemma SFeqb_sym f g : SFeqb f g = SFeqb g f.
Proof. apply eq_iff_eq_true. rewrite !SFeqb_key. split; intros [? ?]; split; congruence. Qed.

Lemma SFeqb_trans f g h : SFeqb f g = true -> SFeqb g h = true -> SFeqb f h = true.
Proof. rewrite !SFeqb_key. intros [? ?] [? ?]. split; congruence. Qed.

Lemma SFleb_key f g :
  SFleb f g = true <->
  exists a b, f64_key f = Some a /\ f64_key g = Some b /\ lex_compare a b <> Gt.
Proof.
  unfold SFleb. rewrite SFcompare_key.
  destruct (f64_key f) as [a|], (f64_key g) as [b|];
    [|split; [done|by intros (?&?&?&?&?)]..].
  destruct (lex_compare a b) eqn:E; split; try done; try (by eauto 6 with congruence);
    intros; try (eexists _, _; repeat split; congruence); naive_solver.
Qed.

Lemma SFleb_trans f g h : SFleb f g = true -> SFleb g h = true -> SFleb f h = true.
Proof.
  rewrite !SFleb_key. intros (a & b & Ha & Hb & Hab) (b' & c & Hb' & Hc & Hbc).
  simplify_eq. exists a, c. eauto using lex_compare_le_trans.
Qed.

Lemma SFleb_eqb_l f g h : SFeqb f g = true -> SFleb f h = SFleb g h.
Proof.
  rewrite SFeqb_key. intros [Heq _]. apply eq_iff_eq_true.
  rewrite !SFleb_key. by rewrite Heq.
Qed.

Lemma SFleb_eqb_r f g h : SFeqb f g = true -> SFleb h f = SFleb h g.
Proof.
  rewrite SFeqb_key. intros [Heq _]. apply eq_iff_eq_true.
  rewrite !SFleb_key. by rewrite Heq.
Qed.
End float_lemmas.

(** * Values *)

Inductive JNumber : Type :=
| PosInt (n : Z)     (* u64 *)
| NegInt (n : Z)     (* i64, always negative *)
| Float (f : f64).   (* always finite *)

Inductive Value : Type :=
| Null
| VBool (b : bool)
| Number (n : JNumber)
| Str (s : string)
| Array (items : list Value)
| Object (entries : list (string * Value)).

(** Induction through the lists of an array or object. *)
Fixpoint Value_nested_ind (P : Value -> Prop)
    (HN : P Null) (HB : forall b, P (VBool b)) (HI : forall n, P (Number n))
    (HS : forall s, P (Str s))
    (HA : forall l, Forall P l -> P (Array l))
    (HO : forall m, Forall (fun kv => P kv.2) m -> P (Object m))
    (v : Value) : P v :=
  match v with
  | Null => HN
  | VBool b => HB b
  | Number n => HI n
  | Str s => HS s
  | Array l =>
      HA l ((fix go l : Forall P l :=
               match l with
               | [] => Forall_nil_2 P
               | x :: l' =>
                   Forall_cons_2 P x l'
                     (Value_nested_ind P HN HB HI HS HA HO x) (go l')
               end) l)
  | Object m =>
      HO m ((fix go m : Forall (fun kv => P kv.2) m :=
               match m with
               | [] => Forall_nil_2 _
               | kv :: m' =>
                   Forall_cons_2 (fun kv => P kv.2) kv m'
                     (Value_nested_ind P HN HB HI HS HA HO kv.2) (go m')
               end) m)
  end.

Definition number_eqb (a b : JNumber) : bool :=
  match a, b with
  | PosInt m, PosInt n | NegInt m, NegInt n => Z.eqb m n
  | Float f, Float g => SFeqb f g
  | _, _ => false
  end.

(** Element-wise comparison of two sequences ([Vec] and [BTreeMap] equality). *)
Definition list_eqb {A} (eqb : A -> A -> bool) : list A -> list A -> bool :=
  fix go l m :=
    match l, m with
    | [], [] => true
    | x :: l', y :: m' => eqb x y && go l' m'
    | _, _ => false
    end.

Fixpoint value_eqb (v w : Value) {struct v} : bool :=
  match v, w with
  | Null, Null => true
  | VBool a, VBool b => Bool.eqb a b
  | Number a, Number b => number_eqb a b
  | Str s, Str t => String.eqb s t
  | Array l, Array m => list_eqb value_eqb l m
  | Object l, Object m =>
      (fix go (l m : list (string * Value)) : bool :=
         match l, m with
         | [], [] => true
         | (k, x) :: l', (k', y) :: m' => String.eqb k k' && value_eqb x y && go l' m'
         | _, _ => false
         end) l m
  | _, _ => false
  end.

(** [slice::contains]. *)
Definition value_contains (l : list Value) (v : Value) : bool :=
  existsb (fun y => value_eqb y v) l.

(** [Value::get] with a string index: only objects have entries. *)
Definition value_get (key : string) (v : Value) : option Value :=
  match v with Object m => im_get key m | _ => None end.

Definition as_str (v : Value) : option string :=
  match v with Str s => Some s | _ => None end.

Definition as_bool (v : Value) : option bool :=
  match v with VBool b => Some b | _ => None end.

Definition as_f64 (v : Value) : option f64 :=
  match v with
  | Number (PosInt n) | Number (NegInt n) => Some (f64_of_int n)
  | Number (Float f) => Some f
  | _ => None
  end.

(** The invariants serde's types keep. *)
Definition number_wf (n : JNumber) : bool :=
  match n with
  | PosInt n => (0 <=? n)%Z && (n <=? u64_max)%Z
  | NegInt n => (- 2 ^ 63 <=? n)%Z && (n <? 0)%Z
  | Float f => f64_finite f
  end.

Definition key_lt (a b : string * Value) : bool :=
  String.leb a.1 b.1 && negb (String.eqb a.1 b.1).

Fixpoint keys_increasing (m : list (string * Value)) : bool :=
  match m with
  | a :: (b :: _) as m' => key_lt a b && keys_increasing m'
  | _ => true
  end.

Fixpoint value_wf (v : Value) : bool :=
  match v with
  | Number n => number_wf n
  | Array l => forallb value_wf l
  | Object m => keys_increasing m && forallb (fun kv => value_wf kv.2) m
  | _ => true
  end.

Section value_lemmas.
Implicit Types v w : Value.

Lemma value_eqb_Object l m :
  value_eqb (Object l) (Object m) =
  list_eqb (fun a b => String.eqb a.1 b.1 && value_eqb a.2 b.2) l m.
Proof.
  cbn. revert m. induction l as [|[k x] l IH]; intros [|[k' y] m]; cbn; try done.
  by rewrite IH.
Qed.

Lemma list_eqb_Forall2 {A} (eqb : A -> A -> bool) l m :
  list_eqb eqb l m = true <-> Forall2 (fun x y => eqb x y = true) l m.
Proof.
  revert m. induction l as [|x l IH]; intros [|y m]; cbn; split; try done;
    try (by inversion 1).
  - rewrite andb_true_iff, IH. intros [? ?]. by constructor.
  - inversion 1; subst. rewrite andb_true_iff, IH. done.
Qed.

Lemma number_eqb_sym a b : number_eqb a b = number_eqb b a.
Proof. destruct a, b; cbn; auto using Z.eqb_sym, SFeqb_sym. Qed.

Lemma number_eqb_trans a b c :
  number_eqb a b = true -> number_eqb b c = true -> number_eqb a c = true.
Proof.
  destruct a, b, c; cbn; try done; [rewrite !Z.eqb_eq; congruence..|].
  apply SFeqb_trans.
Qed.

Lemma value_eqb_sym v w : value_eqb v w = value_eqb w v.
Proof.
  revert w. induction v as [ | | | |l IH|m IH] using Value_nested_ind;
    intros [ | | | |l'|m']; try done.
  - cbn. by destruct b, b0.
  - cbn. apply number_eqb_sym.
  - cbn. apply String.eqb_sym.
  - cbn. revert l'. induction IH as [|x l Hx _ IHl]; intros [|y l']; cbn; try done.
    by rewrite Hx, IHl.
  - rewrite !value_eqb_Object. revert m'.
    induction IH as [|x l Hx _ IHl]; intros [|y l']; cbn; try done.
    by rewrite Hx, IHl, String.eqb_sym.
Qed.

Lemma value_eqb_trans v w u :
  value_eqb v w = true -> value_eqb w u = true -> value_eqb v u = true.
Proof.
  revert w u. induction v as [ | | | |l IH|m IH] using Value_nested_ind;
    intros [ | | | |l'|m'] [ | | | |l''|m'']; try done.
  - cbn. rewrite !eqb_true_iff. congruence.
  - cbn. apply number_eqb_trans.
  - cbn. rewrite !String.eqb_eq. congruence.
  - cbn. revert l' l''.
    induction IH as [|x l Hx _ IHl]; intros [|y l'] [|z l'']; cbn; try done.
    rewrite !andb_true_iff. naive_solver.
  - rewrite !value_eqb_Object. revert m' m''.
    induction IH as [|x l Hx _ IHl]; intros [|y l'] [|z l'']; cbn; try done.
    rewrite !andb_true_iff, !String.eqb_eq. naive_solver congruence.
Qed.

Lemma value_contains_true l v :
  value_contains l v = true <-> exists y, y ∈ l /\ value_eqb y v = true.
Proof. unfold value_contains. rewrite existsb_exists. by setoid_rewrite list_elem_of_In. Qed.

Lemma as_str_eqb v w : value_eqb v w = true -> as_str v = as_str w.
Proof. destruct v, w; cbn; try done. by intros ->%String.eqb_eq. Qed.

(** Equal values compare the same way as numbers. *)
Lemma as_f64_eqb v w max :
  value_eqb v w = true ->
  (exists f, as_f64 v = Some f /\ SFleb f max = true) ->
  exists f, as_f64 w = Some f /\ SFleb f max = true.
Proof.
  destruct v as [| |n| | |], w as [| |n'| | |]; cbn; try done; try naive_solver.
  destruct n, n'; cbn; try done; rewrite ?Z.eqb_eq; [naive_solver..|].
  intros Heq (f' & [= <-] & Hle). eexists. split; [done|].
  by rewrite <- (SFleb_eqb_l _ _ _ Heq).
Qed.
End value_lemmas.
