(* ===== verification/Canonical.v ===== *)
(** Canonical JSON and content hashes: [kernel/core/src/hash.rs].

    [canonical_json] sorts object keys and writes no white space.  What serde
    prints for a scalar is an operation of the class [Serde], whose law is that
    the text of a scalar can be read back in front of a structural character;
    the digest is the operation of [Sha256].  The lemmas show that the encoding
    does not depend on key order and is injective, so that two artifacts with
    one hash are equal or exhibit a collision of the digest. *)

From S2P Require Import Prelude Json.

(** [serde_json::to_string] on [null], booleans, numbers and strings. *)
Class Serde := { scalar_to_string : Value -> string }.

Definition is_scalar (v : Value) : bool :=
  match v with Array _ | Object _ => false | _ => true end.

Definition delimiter (c : ascii) : bool :=
  existsb (fun d => if decide (c = d) then true else false)
    [","%char; ":"%char; "]"%char; "}"%char].

(** The rest of a text after a scalar: empty, or a structural character. *)
Definition delimited (r : string) : Prop :=
  match r with EmptyString => True | String c _ => delimiter c = true end.

(** JSON texts of scalars are self-delimiting, and none of them starts like an
    array or an object. *)
Class SerdeLaws `{!Serde} : Prop := {
  scalar_read v w r r' :
    is_scalar v = true -> is_scalar w = true -> value_wf v = true -> value_wf w = true ->
    delimited r -> delimited r' ->
    scalar_to_string v +:+ r = scalar_to_string w +:+ r' -> v = w /\ r = r';
  scalar_head v r :
    is_scalar v = true -> value_wf v = true ->
    exists c s, scalar_to_string v +:+ r = String c s
                /\ c <> "["%char /\ c <> "{"%char /\ c <> "]"%char /\ c <> "}"%char;
}.

(** [hex::encode(Sha256::digest(bytes))]. *)
Class Sha256 := { sha256_hex : string -> string }.

Section canonical.
Context `{!Serde}.

Definition sorted_keys {A} (m : list (string * A)) : list string :=
  merge_sort String.le m.*1.

Definition write_entry (m : list (string * string)) (k : string) : string :=
  scalar_to_string (Str k) +:+ String ":"%char (default EmptyString (im_get k m)).

(** [write_canonical] threads an output buffer; it is the text appended. *)
Fixpoint write_canonical (v : Value) : string :=
  match v with
  | Object m =>
      let texts := map (fun kv => (kv.1, write_canonical kv.2)) m in
      String "{"%char
        (str_join (String ","%char EmptyString)
           (map (write_entry texts) (sorted_keys m))
         +:+ String "}"%char EmptyString)
  | Array items =>
      String "["%char
        (str_join (String ","%char EmptyString) (map write_canonical items)
         +:+ String "]"%char EmptyString)
  | other => scalar_to_string other
  end.

Definition canonical_json (v : Value) : string := write_canonical v.

Context `{!Sha256}.

Definition hash_bytes (bytes : string) : string := "sha256:" +:+ sha256_hex bytes.

Definition hash_canonical (v : Value) : string := hash_bytes (canonical_json v).
End canonical.

(** * Key order *)

Section key_order.
Context `{!Serde}.

Lemma im_get_perm {A} (m m' : list (string * A)) k :
  NoDup m.*1 -> m ≡ₚ m' -> im_get k m = im_get k m'.
Proof.
  intros Hnd Hp. assert (NoDup m'.*1) as Hnd' by by rewrite <- Hp.
  destruct (im_get k m) as [v|] eqn:E.
  - symmetry. apply im_elem_get; [done|]. rewrite <- Hp. by apply im_get_elem.
  - destruct (im_get k m') as [v|] eqn:E'; [|done].
    apply im_get_elem in E'. rewrite <- Hp in E'.
    by rewrite (im_elem_get _ _ _ Hnd E') in E.
Qed.

(** The text of an object does not depend on the order of its entries. *)
Lemma write_canonical_perm m m' :
  NoDup m.*1 -> m ≡ₚ m' -> write_canonical (Object m) = write_canonical (Object m').
Proof.
  intros Hnd Hp. cbn. do 2 f_equal.
  assert (sorted_keys m = sorted_keys m') as ->.
  { unfold sorted_keys. apply (Sorted_unique String.le);
      [apply Sorted_merge_sort, _..|].
    rewrite !merge_sort_Permutation. by rewrite Hp. }
  f_equal. apply map_ext. intros k. unfold write_entry. do 3 f_equal.
  apply im_get_perm.
  - change (map ?f m) with (f <$> m). rewrite <- list_fmap_compose.
    erewrite list_fmap_ext; [exact Hnd|]. by intros ? [].
  - by apply Permutation_map.
Qed.
End key_order.

(** * Injectivity *)

Section injective.
Context `{!Serde}.

Definition str_lt (a b : string) : Prop := String.le a b /\ a <> b.

#[local] Instance str_lt_trans : Transitive str_lt.
Proof.
  intros a b c [Hab Hne] [Hbc Hne']. split; [by trans b|].
  intros ->. apply Hne. by apply (anti_symm String.le).
Qed.

Lemma keys_increasing_lt m :
  keys_increasing m = true -> StronglySorted str_lt m.*1.
Proof.
  intros Hk. apply Sorted_StronglySorted; [apply _|].
  induction m as [|a [|b m] IH]; cbn; [constructor|by repeat constructor|].
  cbn in Hk. apply andb_true_iff in Hk as [Hab Hk].
  constructor; [by apply IH|]. constructor.
  unfold key_lt in Hab. apply andb_true_iff in Hab as [Hle Hne].
  apply negb_true_iff, String.eqb_neq in Hne. split; [|done].
  unfold String.le. by rewrite Hle.
Qed.

Lemma keys_increasing_sorted m : keys_increasing m = true -> Sorted String.le m.*1.
Proof.
  intros Hk%keys_increasing_lt. apply StronglySorted_Sorted.
  induction Hk as [|k ks _ IH Hall]; constructor; [done|].
  eapply Forall_impl; [done|]. by intros ? [].
Qed.

Lemma keys_increasing_nodup m : keys_increasing m = true -> NoDup m.*1.
Proof.
  intros Hk%keys_increasing_lt. induction Hk as [|k ks _ IH Hall]; constructor; [|done].
  intros Hin. rewrite Forall_forall in Hall. by destruct (Hall _ Hin).
Qed.

(** On values that keep serde's invariants the keys are sorted already, so
    the text of an object lists its entries in order. *)
Definition entry_text (kv : string * Value) : string :=
  scalar_to_string (Str kv.1) +:+ String ":"%char (write_canonical kv.2).

Lemma write_canonical_object m :
  keys_increasing m = true ->
  write_canonical (Object m) =
  String "{"%char (str_join (String ","%char EmptyString) (map entry_text m)
                   +:+ String "}"%char EmptyString).
Proof.
  intros Hk. cbn. do 3 f_equal. unfold sorted_keys.
  assert (merge_sort String.le m.*1 = m.*1) as ->.
  { apply (Sorted_unique String.le);
      [apply Sorted_merge_sort, _|by apply keys_increasing_sorted|].
    apply merge_sort_Permutation. }
  change (m.*1) with (map fst m). rewrite map_map.
  apply map_ext_in. intros [k v] Hin. unfold write_entry, entry_text. cbn.
  do 2 f_equal.
  erewrite im_elem_get; [done| |].
  - change (map ?f m) with (f <$> m). rewrite <- list_fmap_compose.
    erewrite list_fmap_ext; [by apply keys_increasing_nodup|]. by intros ? [].
  - apply list_elem_of_In, in_map_iff. exists (k, v). done.
Qed.

Context `{!SerdeLaws}.

Lemma delimited_cons c r : delimiter c = true -> delimited (String c r).
Proof. done. Qed.

Lemma write_canonical_head v r :
  value_wf v = true ->
  exists c s, write_canonical v +:+ r = String c s /\ c <> "]"%char /\ c <> "}"%char.
Proof.
  intros Hwf. destruct v; [..|cbn; naive_solver|].
  1-4: edestruct scalar_head as (c & t & Heq & ? & ? & ? & ?);
    [|exact Hwf|exists c, t; split; [exact Heq|done]]; done.
  cbn in Hwf. apply andb_true_iff in Hwf as [Hk _].
  rewrite write_canonical_object by done. cbn. naive_solver.
Qed.

(** Reading back: a text determines its value and where it ends. *)
Definition readable (v : Value) : Prop :=
  forall w r r', value_wf v = true -> value_wf w = true -> delimited r -> delimited r' ->
  write_canonical v +:+ r = write_canonical w +:+ r' -> v = w /\ r = r'.

Section sequences.
(** A comma-separated, closed sequence of self-delimiting items. *)
Context {A : Type} (text : A -> string) (wf : A -> bool) (close : ascii).
Hypothesis Hclose : delimiter close = true.
Hypothesis Hcomma : close <> ","%char.
Hypothesis Hhead : forall x r, wf x = true ->
  exists c s, text x +:+ r = String c s /\ c <> close.

Let comma := String ","%char EmptyString.
Let item_readable (x : A) : Prop :=
  forall y r r', wf x = true -> wf y = true -> delimited r -> delimited r' ->
  text x +:+ r = text y +:+ r' -> x = y /\ r = r'.

(** The text after the first item. *)
Definition seq_rest (l : list A) (r : string) : string :=
  match l with
  | [] => String close r
  | _ => String ","%char (str_join comma (map text l) +:+ String close r)
  end.

Lemma seq_rest_delimited l r : delimited (seq_rest l r).
Proof using Hclose. destruct l; cbn; [done|]. by rewrite decide_True. Qed.

Lemma seq_cons x l r :
  str_join comma (map text (x :: l)) +:+ String close r = text x +:+ seq_rest l r.
Proof.
  destruct l as [|y l]; [done|].
  change (map text (x :: y :: l)) with (text x :: map text (y :: l)).
  change (str_join comma (text x :: map text (y :: l)))
    with (text x +:+ comma +:+ str_join comma (map text (y :: l))).
  rewrite !str_app_assoc. done.
Qed.

Lemma seq_readable l l' r r' :
  Forall item_readable l -> forallb wf l = true -> forallb wf l' = true ->
  str_join comma (map text l) +:+ String close r =
  str_join comma (map text l') +:+ String close r' ->
  l = l' /\ r = r'.
Proof using Hclose Hcomma Hhead.
  intros Hread. revert l' r r'. induction Hread as [|x l Hx Hl IH]; intros [|y l'] r r'.
  - cbn. intros _ _ [= ->]. done.
  - cbn [forallb]. intros _ [Hy _]%andb_true_iff. rewrite seq_cons. cbn [map str_join String.append].
    intros Heq. destruct (Hhead y (seq_rest l' r') Hy) as (c & s & Hh & Hc).
    rewrite Hh in Heq. by injection Heq as <- _.
  - cbn [forallb]. intros [Hwx _]%andb_true_iff _. rewrite seq_cons. cbn [map str_join String.append].
    intros Heq. destruct (Hhead x (seq_rest l r) Hwx) as (c & s & Hh & Hc).
    rewrite Hh in Heq. by injection Heq as -> _.
  - cbn [forallb]. intros [Hwx Hwl]%andb_true_iff [Hwy Hwl']%andb_true_iff.
    rewrite !seq_cons. intros Heq.
    apply Hx in Heq as [-> Heq]; [|by try apply seq_rest_delimited..].
    destruct l as [|x' l], l' as [|y' l']; cbn [seq_rest] in Heq.
    + injection Heq as ->. done.
    + injection Heq as ?. done.
    + injection Heq as ?. done.
    + injection Heq as Heq.
      by destruct (IH (y' :: l') r r' Hwl Hwl' Heq) as [-> ->].
Qed.
End sequences.

Lemma entry_readable kv : readable kv.2 ->
  forall kv' r r', value_wf kv.2 = true -> value_wf kv'.2 = true ->
  delimited r -> delimited r' ->
  entry_text kv +:+ r = entry_text kv' +:+ r' -> kv = kv' /\ r = r'.
Proof.
  destruct kv as [k v]. intros Hv [k' v'] r r' Hw Hw' Hr Hr'. cbn [snd] in *.
  unfold entry_text. cbn [fst snd]. rewrite !str_app_assoc. cbn [String.append].
  intros Heq. apply scalar_read in Heq as [[= ->] Heq]; try done.
  injection Heq as Heq. apply Hv in Heq as [-> ->]; done.
Qed.

Lemma write_canonical_readable v : readable v.
Proof.
  induction v as [ |b|n|s|l IH|m IH] using Value_nested_ind; intros w r r' Hv Hw Hr Hr'.
  1-4: destruct w as [ |b'|n'|s'|l'|m'];
    try (apply scalar_read; done);
    (edestruct scalar_head as (c & s'' & Heq & ? & ? & ? & ?);
     [|exact Hv|cbn; intros Heq'; erewrite Heq in Heq'; congruence]; done).
  - assert (forall s, write_canonical (Array l) +:+ r = String "["%char s -> True) as _ by done.
    destruct w as [ |b'|n'|s'|l'|m'].
    1-4: edestruct scalar_head as (c & s'' & Heq & ? & ? & ? & ?);
     [|exact Hw|cbn; intros Heq'; symmetry in Heq'; erewrite Heq in Heq'; congruence]; done.
    + cbn. rewrite !str_app_assoc. intros [= Heq].
      apply (seq_readable write_canonical value_wf "]"%char) in Heq as [-> ->]; try done.
      intros x r0 Hx. destruct (write_canonical_head x r0 Hx) as (c & s & ? & ? & ?). eauto.
    + cbn. congruence.
  - cbn in Hv. apply andb_true_iff in Hv as [Hk Hv].
    destruct w as [ |b'|n'|s'|l'|m'].
    1-4: edestruct scalar_head as (c & s'' & Heq & ? & ? & ? & ?);
     [|exact Hw|cbn; intros Heq'; symmetry in Heq'; erewrite Heq in Heq'; congruence]; done.
    + cbn. congruence.
    + cbn in Hw. apply andb_true_iff in Hw as [Hk' Hw].
      rewrite !write_canonical_object by done. cbn [String.append]. rewrite !str_app_assoc.
      intros [= Heq].
      apply (seq_readable entry_text (fun kv => value_wf kv.2) "}"%char) in Heq
        as [-> ->]; try done.
      * intros [k x] r0 Hx. unfold entry_text. rewrite str_app_assoc.
        edestruct (scalar_head (Str k)) as (c & s & Hs & ? & ? & ? & ?); [done..|].
        exists c, s. done.
      * eapply Forall_impl; [exact IH|]. intros kv Hkv. by apply entry_readable.
Qed.

Lemma canonical_json_inj v w :
  value_wf v = true -> value_wf w = true ->
  canonical_json v = canonical_json w -> v = w.
Proof.
  intros Hv Hw Heq. unfold canonical_json in Heq.
  destruct (write_canonical_readable v w EmptyString EmptyString) as [-> _]; try done.
  by rewrite !str_app_nil_r.
Qed.
End injective.

Section hashing.
Context `{!Serde, !SerdeLaws, !Sha256}.

Definition sha256_collision : Prop :=
  exists x y, x <> y /\ sha256_hex x = sha256_hex y.

Lemma hash_bytes_binding x y : hash_bytes x = hash_bytes y -> x = y \/ sha256_collision.
Proof.
  unfold hash_bytes. intros Heq%String.app_inj.
  destruct (decide (x = y)); [by left|]. right. by exists x, y.
Qed.

Lemma hash_canonical_binding v w :
  value_wf v = true -> value_wf w = true ->
  hash_canonical v = hash_canonical w -> v = w \/ sha256_collision.
Proof.
  intros Hv Hw [Heq|?]%hash_bytes_binding; [|by right].
  left. by apply canonical_json_inj.
Qed.
End hashing.

(** * A concrete instance

    The laws of [Serde] can hold: write each scalar as the bits of its code,
    in letters that are not structural characters. *)

Module BitSerde.

Fixpoint bits (p : positive) : string :=
  match p with
  | xH => "z"
  | xO q => String "x"%char (bits q)
  | xI q => String "y"%char (bits q)
  end.

Definition float_code (f : f64) : bool * bool * bool * (positive * Z) :=
  match f with
  | S754_zero s => (false, false, s, (1%positive, 0%Z))
  | S754_infinity s => (false, true, s, (1%positive, 0%Z))
  | S754_nan => (true, false, true, (1%positive, 0%Z))
  | S754_finite s m e => (true, true, s, (m, e))
  end.

Definition code (v : Value) : positive :=
  match v with
  | Null => encode (inl (inl true) : bool + bool + (Z + Z + (bool * bool * bool * (positive * Z)) + string))
  | VBool b => encode (inl (inr b) : bool + bool + (Z + Z + (bool * bool * bool * (positive * Z)) + string))
  | Number (PosInt n) => encode (inr (inl (inl (inl n))) : bool + bool + (Z + Z + (bool * bool * bool * (positive * Z)) + string))
  | Number (NegInt n) => encode (inr (inl (inl (inr n))) : bool + bool + (Z + Z + (bool * bool * bool * (positive * Z)) + string))
  | Number (Float f) => encode (inr (inl (inr (float_code f))) : bool + bool + (Z + Z + (bool * bool * bool * (positive * Z)) + string))
  | Str s => encode (inr (inr s) : bool + bool + (Z + Z + (bool * bool * bool * (positive * Z)) + string))
  | _ => 1%positive
  end.

Lemma float_code_inj f g : float_code f = float_code g -> f = g.
Proof. destruct f, g; cbn; congruence. Qed.

Lemma code_inj v w : is_scalar v = true -> is_scalar w = true -> code v = code w -> v = w.
Proof.
  destruct v as [| |[]| | |], w as [| |[]| | |]; try done; intros _ _; unfold code;
    intros Heq%encode_inj; simplify_eq; try done.
  by apply float_code_inj in Heq as ->.
Qed.

Lemma bits_inj p q : bits p = bits q -> p = q.
Proof.
  revert q. induction p; intros []; cbn; intros [=]; f_equal; auto.
Qed.

Fixpoint plain (s : string) : Prop :=
  match s with EmptyString => True | String c s' => delimiter c = false /\ plain s' end.

Lemma bits_plain p : plain (bits p).
Proof. induction p; cbn; auto. Qed.

Lemma plain_split a b r r' :
  plain a -> plain b -> delimited r -> delimited r' -> a +:+ r = b +:+ r' -> a = b /\ r = r'.
Proof.
  revert b. induction a as [|c a IH]; intros [|d b]; cbn [plain].
  - intros _ _ _ _ Heq. done.
  - intros _ [Hd _] Hr _ Heq. cbn in Heq. subst r. unfold delimited in Hr. congruence.
  - intros [Hc _] _ _ Hr' Heq. cbn in Heq. subst r'. unfold delimited in Hr'. congruence.
  - intros [_ Ha] [_ Hb] Hr Hr' Heq. cbn in Heq. injection Heq as -> Heq.
    by destruct (IH b Ha Hb Hr Hr' Heq) as [-> ->].
Qed.

#[local] Instance serde : Serde := {| scalar_to_string v := bits (code v) |}.

#[local] Instance serde_laws : SerdeLaws.
Proof.
  split.
  - intros v w r r' Hv Hw _ _ Hr Hr' Heq. cbn in Heq.
    apply plain_split in Heq as [Heq ->]; auto using bits_plain.
    split; [|done]. by apply code_inj, bits_inj.
  - intros v r _ _. cbn. destruct (code v); cbn; eexists _, _; done.
Qed.

(** A digest without collisions, for witnesses. *)
#[local] Instance sha256 : Sha256 := {| sha256_hex x := x |}.
End BitSerde.

(** A scalar printer and a digest of 64 hexadecimal digits that are cheap to
    evaluate, for witnesses that compute. *)

Module ToySha.

Definition hex_digit (n : N) : ascii :=
  match n with
  | 0 => "0" | 1 => "1" | 2 => "2" | 3 => "3" | 4 => "4" | 5 => "5" | 6 => "6" | 7 => "7"
  | 8 => "8" | 9 => "9" | 10 => "a" | 11 => "b" | 12 => "c" | 13 => "d" | 14 => "e" | _ => "f"
  end%N%char.

Fixpoint hex (k : nat) (n : N) : string :=
  match k with
  | O => EmptyString
  | S k' => String (hex_digit (N.land n 15)) (hex k' (N.shiftr n 4))
  end.

Fixpoint digest (s : string) (h : N) : N :=
  match s with
  | EmptyString => h
  | String c s' => digest s' (N.land (h * 33 + Ascii.N_of_ascii c + 1) 16777215)
  end%N.

#[local] Instance serde : Serde :=
  {| scalar_to_string v :=
       match v with
       | Str s => s
       | Number (PosInt n) => hex 3 (Z.to_N n)
       | _ => "?"
       end |}.

#[local] Instance sha256 : Sha256 :=
  {| sha256_hex s :=
       hex 6 (digest s 0%N) +:+ "0000000000000000000000000000000000000000000000000000000000" |}.
End ToySha.
