(* ===== verification/Capability.v ===== *)
(** Capability leases: [kernel/core/src/capability.rs].

    Constraints on parameters, the lease check, and attenuation.  Parameters
    are JSON values; constraints are kept in an [IndexMap], an association list
    in insertion order.  Time is nanoseconds since the epoch.  The random part
    of [LeaseId::generate] is an argument of [attenuate]. *)

From S2P Require Import Prelude Json Glob Budget.

Abbreviation DateTime := Z (only parsing).
Abbreviation Operation := string (only parsing).

Definition namespace (op : Operation) : string :=
  default EmptyString (head (str_split "."%char op)).

Inductive Constraint : Type :=
| Equals (value : Value)
| OneOf (values : list Value)
| CGlob (pattern : string)
| Prefix (prefix : string)
| Max (max : f64)
| Forbidden.

#[export] Instance is_forbidden_dec (c : Constraint) : Decision (c = Forbidden).
Proof. refine (match c with Forbidden => left eq_refl | _ => right _ end); done. Defined.

(** The derived [PartialEq]. *)
Definition constraint_eqb (a b : Constraint) : bool :=
  match a, b with
  | Equals v, Equals w => value_eqb v w
  | OneOf l, OneOf m => list_eqb value_eqb l m
  | CGlob p, CGlob q => String.eqb p q
  | Prefix p, Prefix q => String.eqb p q
  | Max m, Max n => SFeqb m n
  | Forbidden, Forbidden => true
  | _, _ => false
  end.

Definition opt_bool {A} (o : option A) (f : A -> bool) : bool :=
  match o with Some a => f a | None => false end.

Definition allows (self : Constraint) (value : option Value) : bool :=
  match self with
  | Equals want => opt_bool value (fun v => value_eqb v want)
  | OneOf values => opt_bool value (fun v => value_contains values v)
  | CGlob pattern => opt_bool (value ≫= as_str) (fun s => glob_match pattern s)
  | Prefix prefix => opt_bool (value ≫= as_str) (fun s => starts_with prefix s)
  | Max max => opt_bool (value ≫= as_f64) (fun n => SFleb n max)
  | Forbidden =>
      match value with None | Some (VBool false) => true | _ => false end
  end.

Definition narrows (self parent : Constraint) : bool :=
  if constraint_eqb self parent then true
  else
    match self, parent with
    | Equals value, OneOf values => value_contains values value
    | Equals value, CGlob pattern => opt_bool (as_str value) (fun s => glob_match pattern s)
    | Equals value, Prefix prefix => opt_bool (as_str value) (fun s => starts_with prefix s)
    | Equals value, Max max => opt_bool (as_f64 value) (fun n => SFleb n max)
    | OneOf values, parent => forallb (fun v => allows parent (Some v)) values
    | Prefix child, Prefix parent_p => starts_with parent_p child
    | Max child, Max parent_m => SFleb child parent_m
    | Forbidden, _ => true
    | _, _ => false
    end.

Record CapabilityLease := mkLease {
  lease_id : string;
  lease_principal : string;
  lease_operation : Operation;
  lease_constraints : list (string * Constraint);
  remaining_uses : Z;                    (* u32 *)
  issued_at : DateTime;
  expires_at : DateTime;
  bound_branch : option string;
  lease_budget : ResourceBudget;
  parent_lease : option string;
  lease_preconditions : list (string * Value);
  revoked : bool;
}.

Inductive LeaseCheckFailure : Type :=
| Revoked
| Expired (expired_at : DateTime)
| Exhausted
| WrongPrincipal
| WrongOperation (granted : Operation)
| WrongBranch (bound : string)
| ConstraintViolated (parameter : string).

Inductive AttenuationError : Type :=
| ParentUnusable
| UsesExceedParent
| ExpiryExceedsParent
| BudgetExceedsParent
| ConstraintWidened (parameter : string).

#[export] Instance LeaseCheckFailure_eq_dec : EqDecision LeaseCheckFailure.
Proof. solve_decision. Defined.
#[export] Instance AttenuationError_eq_dec : EqDecision AttenuationError.
Proof. solve_decision. Defined.

Open Scope Z_scope.

(** The loop over the constraints: the first violated parameter. *)
Fixpoint first_violation (constraints : list (string * Constraint)) (params : Value)
    : option string :=
  match constraints with
  | [] => None
  | (param, c) :: rest =>
      if negb (allows c (value_get param params)) then Some param
      else first_violation rest params
  end.

Definition check (self : CapabilityLease) (principal : string) (operation : Operation)
    (params : Value) (branch : option string) (now : DateTime)
    : result LeaseCheckFailure () :=
  if revoked self then Err Revoked
  else if expires_at self <=? now then Err (Expired (expires_at self))
  else if remaining_uses self =? 0 then Err Exhausted
  else if negb (bool_decide (lease_principal self = principal)) then Err WrongPrincipal
  else if negb (bool_decide (lease_operation self = operation)) then
    Err (WrongOperation (lease_operation self))
  else
    let branch_ok :=
      match bound_branch self with
      | Some bound =>
          if bool_decide (branch = Some bound) then Ok tt else Err (WrongBranch bound)
      | None => Ok tt
      end in
    _ ← branch_ok;
    match first_violation (lease_constraints self) params with
    | Some param => Err (ConstraintViolated param)
    | None => Ok tt
    end.

(** The loop over the parent's constraints: the first one missing or widened. *)
Fixpoint first_widened (parent child : list (string * Constraint)) : option string :=
  match parent with
  | [] => None
  | (param, parent_c) :: rest =>
      match im_get param child with
      | Some child_c => if narrows child_c parent_c then first_widened rest child else Some param
      | None => Some param
      end
  end.

Definition attenuate (self : CapabilityLease) (fresh child : string)
    (constraints : list (string * Constraint)) (uses : Z) (expires : DateTime)
    (budget : ResourceBudget) (now : DateTime)
    : result AttenuationError CapabilityLease :=
  if revoked self || (expires_at self <=? now) then Err ParentUnusable
  else if remaining_uses self <? uses then Err UsesExceedParent
  else if expires_at self <? expires then Err ExpiryExceedsParent
  else if negb (fits_within budget (lease_budget self)) then Err BudgetExceedsParent
  else
    match first_widened (lease_constraints self) constraints with
    | Some param => Err (ConstraintWidened param)
    | None =>
        Ok {| lease_id := fresh; lease_principal := child;
              lease_operation := lease_operation self;
              lease_constraints := constraints; remaining_uses := uses;
              issued_at := now; expires_at := expires;
              bound_branch := bound_branch self; lease_budget := budget;
              parent_lease := Some (lease_id self);
              lease_preconditions := lease_preconditions self; revoked := false |}
    end.

(** * Lemmas *)

Section constraint_lemmas.

Lemma allows_eqb c v w : value_eqb v w = true ->
  allows c (Some v) = true -> allows c (Some w) = true.
Proof.
  intros Heq. destruct c as [want|values|p|p|m|]; cbn.
  - intros H. apply value_eqb_trans with v; [by rewrite value_eqb_sym|done].
  - rewrite !value_contains_true. intros (y & Hy & Hyv).
    exists y. split; [done|]. by apply value_eqb_trans with v.
  - by rewrite (as_str_eqb v w).
  - by rewrite (as_str_eqb v w).
  - intros Hle. destruct (as_f64 v) as [f|] eqn:Ef; [|done].
    destruct (as_f64_eqb v w m Heq) as (g & -> & Hg); eauto.
  - by destruct v as [|[]| | | |], w as [|[]| | | |].
Qed.

Lemma constraint_eqb_allows a b value :
  constraint_eqb a b = true -> allows a value = true -> allows b value = true.
Proof.
  destruct a as [v|l|p|p|m|], b as [v'|l'|p'|p'|m'|]; cbn; try done.
  - intros Heq. destruct value as [u|]; cbn; [|done]. intros Hu.
    by apply value_eqb_trans with v.
  - intros Heq%list_eqb_Forall2. destruct value as [u|]; cbn; [|done].
    rewrite !value_contains_true. intros (y & Hy & Hyu).
    apply list_elem_of_lookup in Hy as [i Hi].
    destruct (Forall2_lookup_l _ _ _ _ _ Heq Hi) as (y' & Hi' & Hyy').
    exists y'. split; [by eapply list_elem_of_lookup_2|].
    apply value_eqb_trans with y; [by rewrite value_eqb_sym|done].
  - by intros ->%String.eqb_eq.
  - by intros ->%String.eqb_eq.
  - intros Heq. destruct (value ≫= as_f64); cbn; [|done].
    by rewrite (SFleb_eqb_r _ _ _ Heq).
Qed.

(** A narrower constraint other than [Forbidden] allows no new value. *)
Lemma narrows_allows child parent value :
  child <> Forbidden -> narrows child parent = true ->
  allows child value = true -> allows parent value = true.
Proof.
  intros HnF. unfold narrows.
  destruct (constraint_eqb child parent) eqn:Heq.
  { intros _. by apply constraint_eqb_allows. }
  clear Heq. destruct child as [want|values|p|p|m|]; try done.
  - intros Hn Hv. destruct value as [v|]; cbn in Hv; [|done].
    apply (allows_eqb _ want); [by rewrite value_eqb_sym|].
    destruct parent; cbn in *; done.
  - intros Hn Hv. destruct value as [v|]; cbn in Hv; [|done].
    apply value_contains_true in Hv as (y & Hy & Hyv).
    apply (allows_eqb _ y); [done|].
    rewrite forallb_forall in Hn. apply Hn. by apply list_elem_of_In.
  - destruct parent as [| | |q| |]; try done. intros Hq. cbn.
    destruct (value ≫= as_str); cbn; [|done]. by apply starts_with_trans.
  - destruct parent as [| | | |n|]; try done. intros Hq. cbn.
    destruct (value ≫= as_f64); cbn; [|done]. intros. by apply SFleb_trans with m.
Qed.

(** [Forbidden] only lets through an absent parameter or [false]. *)
Lemma forbidden_allows value :
  allows Forbidden value = true <-> value = None \/ value = Some (VBool false).
Proof. destruct value as [[|[]| | | |]|]; cbn; naive_solver. Qed.

Lemma first_violation_None cs params :
  first_violation cs params = None <->
  Forall (fun kc => allows kc.2 (value_get kc.1 params) = true) cs.
Proof.
  induction cs as [|[k c] cs IH]; cbn; [by split|].
  rewrite Forall_cons. cbn. destruct (allows c _); cbn; naive_solver.
Qed.

Lemma first_widened_None parent child :
  first_widened parent child = None <->
  Forall (fun kc => exists c, im_get kc.1 child = Some c /\ narrows c kc.2 = true) parent.
Proof.
  induction parent as [|[k c] cs IH]; cbn; [by split|].
  rewrite Forall_cons. cbn. destruct (im_get k child) as [c'|]; [|naive_solver].
  destruct (narrows c' c) eqn:E.
  - rewrite IH. split; [by eauto|by intros [_ ?]].
  - split; [done|]. intros [(c'' & [= <-] & ?) _]. congruence.
Qed.
End constraint_lemmas.

(** What a successful check means, as one conjunction. *)
Definition authorizes (l : CapabilityLease) (principal : string) (operation : Operation)
    (params : Value) (branch : option string) (now : DateTime) : Prop :=
  revoked l = false /\ now < expires_at l /\ remaining_uses l <> 0
  /\ lease_principal l = principal /\ lease_operation l = operation
  /\ match bound_branch l with Some b => branch = Some b | None => True end
  /\ Forall (fun kc => allows kc.2 (value_get kc.1 params) = true) (lease_constraints l).

Section lease_lemmas.

Lemma check_Ok l pr op ps br now :
  check l pr op ps br now = Ok tt <-> authorizes l pr op ps br now.
Proof.
  unfold check, authorizes. rewrite <- first_violation_None.
  destruct (revoked l); [naive_solver|].
  destruct (Z.leb_spec (expires_at l) now); [naive_solver lia|].
  destruct (Z.eqb_spec (remaining_uses l) 0); [naive_solver|].
  repeat case_bool_decide; cbn; [|naive_solver..].
  destruct (bound_branch l) as [b|]; repeat case_bool_decide; cbn;
    destruct (first_violation _ _); naive_solver.
Qed.

Lemma attenuate_Ok self fresh child cs uses expires budget now l :
  attenuate self fresh child cs uses expires budget now = Ok l <->
  revoked self = false /\ now < expires_at self /\ uses <= remaining_uses self
  /\ expires <= expires_at self /\ fits_within budget (lease_budget self) = true
  /\ first_widened (lease_constraints self) cs = None
  /\ l = mkLease fresh child (lease_operation self) cs uses now expires
           (bound_branch self) budget (Some (lease_id self))
           (lease_preconditions self) false.
Proof.
  unfold attenuate. destruct (revoked self); cbn; [naive_solver|].
  destruct (Z.leb_spec (expires_at self) now); cbn; [naive_solver lia|].
  destruct (Z.ltb_spec (remaining_uses self) uses); [naive_solver lia|].
  destruct (Z.ltb_spec (expires_at self) expires); [naive_solver lia|].
  destruct (fits_within budget (lease_budget self)); cbn; [|naive_solver].
  destruct (first_widened _ _); naive_solver.
Qed.
End lease_lemmas.

Close Scope Z_scope.

(** * Properties *)

(** No parent constraint other than [Forbidden] is replaced by [Forbidden]. *)
Definition keeps_required (parent child : CapabilityLease) : Prop :=
  Forall (fun kc => im_get kc.1 (lease_constraints child) = Some Forbidden -> kc.2 = Forbidden)
    (lease_constraints parent).

(** [child] was derived from [parent] by one call of [attenuate]. *)
Definition derives (parent child : CapabilityLease) : Prop :=
  keeps_required parent child /\
  exists fresh pr cs uses expires budget now,
    attenuate parent fresh pr cs uses expires budget now = Ok child.

Section attenuation.
Context {pr : string} {op : Operation} {ps : Value} {br : option string} {t : DateTime}.

Lemma derives_authorizes parent child :
  (0 <= remaining_uses child)%Z -> derives parent child ->
  authorizes child pr op ps br t ->
  authorizes parent (lease_principal parent) op ps br t.
Proof.
  intros Huses [Hkeep (fresh & pr' & cs & uses & expires & budget & now & Hatt)] Hauth.
  apply attenuate_Ok in Hatt as (Hrev & Hnow & Hle & Hexp & _ & Hw & ->).
  destruct Hauth as (_ & Ht & Hu & _ & Hop & Hbr & Hcs). cbn in *.
  repeat split; try done; try lia.
  unfold keeps_required in Hkeep. rewrite first_widened_None in Hw.
  rewrite Forall_forall in Hw, Hkeep, Hcs |- *.
  intros [k c] Hin. cbn. destruct (Hw _ Hin) as (c' & Hget & Hnar). cbn in *.
  pose proof (Hcs _ (im_get_elem _ _ _ Hget)) as Hc'. cbn in Hc'.
  destruct (decide (c' = Forbidden)) as [->|Hne]; [|by eapply narrows_allows].
  pose proof (Hkeep _ Hin Hget) as Hc. cbn in Hc. by subst c.
Qed.

Lemma derives_bounds parent child :
  derives parent child ->
  fits_within (lease_budget child) (lease_budget parent) = true
  /\ (expires_at child <= expires_at parent)%Z
  /\ (remaining_uses child <= remaining_uses parent)%Z
  /\ lease_operation child = lease_operation parent
  /\ bound_branch child = bound_branch parent.
Proof.
  intros [_ (fresh & pr' & cs & uses & expires & budget & now & Hatt)].
  by apply attenuate_Ok in Hatt as (_ & _ & Hle & Hexp & Hb & _ & ->).
Qed.
End attenuation.

(** C26: Delegation only attenuates. Along any chain of [attenuate] calls, what the last
    lease authorizes the first one authorizes too (for its own holder, on the same
    operation, parameters, branch and time), with no larger budget, expiry or use
    count, provided no required parameter's constraint was replaced by [Forbidden]. *)
Theorem delegation_chain_attenuates (root leaf : CapabilityLease) pr op ps br t :
  rtc (fun p c => derives p c /\ (0 <= remaining_uses c)%Z) root leaf ->
  check leaf pr op ps br t = Ok tt ->
  check root (lease_principal root) op ps br t = Ok tt
  /\ fits_within (lease_budget leaf) (lease_budget root) = true
  /\ (expires_at leaf <= expires_at root)%Z
  /\ (remaining_uses leaf <= remaining_uses root)%Z.
Proof.
  intros Hchain Hcheck. apply check_Ok in Hcheck. rewrite check_Ok.
  induction Hchain as [l|root mid leaf [Hd Hu] _ IH].
  - split; [|auto using fits_within_refl with lia].
    unfold authorizes in *. tauto.
  - destruct (IH Hcheck) as (Hauth & Hb & He & Hn).
    destruct (derives_bounds _ _ Hd) as (Hb' & He' & Hn' & _).
    split; [by eapply derives_authorizes|].
    split; [by eapply fits_within_trans|lia].
Qed.

Definition demo_lease : CapabilityLease :=
  mkLease "lease-1" "pr-agent" "github.create_pull_request"
    [("repository", Equals (Str "org/repo")); ("head", Prefix "sandbox/"); ("merge", Forbidden)]
    3 0 1000 (Some "br-42") step_default None [] false.

Definition demo_child : CapabilityLease :=
  mkLease "lease-2" "pr-child" "github.create_pull_request"
    [("repository", Equals (Str "org/repo")); ("head", Equals (Str "sandbox/fix-1")); ("merge", Forbidden)]
    1 10 500 (Some "br-42") budget_zero (Some "lease-1") [] false.

Definition demo_params : Value :=
  Object [("head", Str "sandbox/fix-1"); ("repository", Str "org/repo")].

Lemma demo_derives : derives demo_lease demo_child.
Proof.
  split; [by repeat constructor|].
  exists "lease-2", "pr-child", (lease_constraints demo_child), 1%Z, 500%Z, budget_zero, 10%Z.
  vm_compute. reflexivity.
Qed.

Lemma delegation_chain_attenuates_witness :
  check demo_lease "pr-agent" "github.create_pull_request" demo_params (Some "br-42") 20 = Ok tt.
Proof.
  apply (delegation_chain_attenuates demo_lease demo_child "pr-child"
           "github.create_pull_request" demo_params (Some "br-42") 20).
  - apply rtc_once. split; [apply demo_derives|]. cbn. lia.
  - vm_compute. reflexivity.
Defined.

(** [narrows] accepts [Forbidden] as narrower than every constraint, although
    [Forbidden] lets an absent parameter through: attenuating a lease that requires a
    parameter can produce a child lease that authorizes an invocation, without that
    parameter, which its parent refuses. *)
Theorem forbidden_drops_requirement :
  exists parent child pr op ps br t,
    attenuate parent "lease-c" pr [("repository", Forbidden)] 1 500 budget_zero 10 = Ok child
    /\ check child pr op ps br t = Ok tt
    /\ check parent (lease_principal parent) op ps br t
       = Err (ConstraintViolated "repository").
Proof.
  exists (mkLease "lease-1" "pr-agent" "github.create_pull_request"
            [("repository", Equals (Str "org/repo"))] 3 0 1000 None step_default None [] false).
  eexists _, "pr-child", "github.create_pull_request", (Object []), None, 20%Z.
  repeat split; vm_compute; reflexivity.
Qed.
