(* ===== verification/Types.v ===== *)
(** The vocabulary of the kernel: identifiers, principals, replay classes,
    denials, errors and actions of [kernel/core/src] ([ids.rs], [principal.rs],
    [replay.rs], [denial.rs], [error.rs], [action.rs]).

    Identifiers are strings; the random part of [generate] is an argument of
    the operations that mint one. *)

From S2P Require Import Prelude Json Budget Capability.

(** * Errors of the kernel, and denials they carry *)

Inductive DenialCode : Type :=
| CapabilityDenied | CapabilityExpired | CapabilityExhausted | BudgetExhausted
| DConstraintViolated | BranchMismatch | EffectRequiresApproval | DStaleAuthorization
| PreconditionFailed | DDuplicateCommit | DBackendUnavailable | PolicyForbidden.

#[export] Instance DenialCode_eq_dec : EqDecision DenialCode.
Proof. solve_decision. Defined.

Record RequestableScope := mkScope {
  scope_operation : Operation;
  scope_constraints : Value;
  scope_requires_human : bool;
}.

Record Denial := mkDenial {
  denial_code : DenialCode;
  attempted_operation : Operation;
  denial_reason : string;
  safe_alternatives : list Operation;
  requestable_scopes : list RequestableScope;
  escalation_allowed : bool;
}.

(** Errors of other crates ([serde_json], [std::io]) are carried as text. *)
Inductive KernelError : Type :=
| InvalidId (expected_prefix got : string)
| NotFound (kind id : string)
| Denied (d : Denial)
| WrongEffectPhase (effect phase expected : string)
| StaleAuthorization (reason : string)
| DuplicateCommit (key receipt : string)
| CommitInDoubt (effect reason : string)
| BackendUnavailable (backend reason : string)
| BranchDiscarded (branch : string)
| MergeConflict (paths : list string)
| Storage (msg : string)
| EConnector (msg : string)
| ESerde (msg : string)
| EIo (msg : string)
| EOther (msg : string).

Abbreviation KernelResult := (result KernelError) (only parsing).

Definition error_code (e : KernelError) : string :=
  match e with
  | InvalidId _ _ => "INVALID_ID"
  | NotFound _ _ => "NOT_FOUND"
  | Denied _ => "DENIED"
  | WrongEffectPhase _ _ _ => "WRONG_EFFECT_PHASE"
  | StaleAuthorization _ => "STALE_AUTHORIZATION"
  | DuplicateCommit _ _ => "DUPLICATE_COMMIT"
  | CommitInDoubt _ _ => "COMMIT_IN_DOUBT"
  | BackendUnavailable _ _ => "BACKEND_UNAVAILABLE"
  | BranchDiscarded _ => "BRANCH_DISCARDED"
  | MergeConflict _ => "MERGE_CONFLICT"
  | Storage _ => "STORAGE"
  | EConnector _ => "CONNECTOR"
  | ESerde _ => "SERDE"
  | EIo _ => "IO"
  | EOther _ => "OTHER"
  end.

(** [ErrorEnvelope::from]; [display] is the derived [Display] text. *)
Record ErrorEnvelope := mkEnvelope {
  envelope_code : string;
  envelope_message : string;
  envelope_denial : option Denial;
}.

Definition error_envelope (display : KernelError -> string) (e : KernelError) : ErrorEnvelope :=
  {| envelope_code := error_code e;
     envelope_message := display e;
     envelope_denial := match e with Denied d => Some d | _ => None end |}.

(** * Identifiers *)

Definition id_generate (prefix uuid : string) : string := prefix +:+ "-" +:+ uuid.

Definition id_parse (prefix s : string) : KernelResult string :=
  if starts_with (prefix +:+ "-") s then Ok s else Err (InvalidId prefix s).

(** * Principals *)

Inductive PrincipalKind : Type := Agent | SubAgent | Tool | Human | KernelKind.

Inductive TrustLevel : Type := Quarantined | Untrusted | Limited | Standard | Elevated.

#[export] Instance PrincipalKind_eq_dec : EqDecision PrincipalKind.
Proof. solve_decision. Defined.
#[export] Instance TrustLevel_eq_dec : EqDecision TrustLevel.
Proof. solve_decision. Defined.

(** The derived order of an enum is the order of its constructors. *)
Definition trust_rank (t : TrustLevel) : nat :=
  match t with Quarantined => 0 | Untrusted => 1 | Limited => 2 | Standard => 3 | Elevated => 4 end.

Definition trust_leb (a b : TrustLevel) : bool := trust_rank a <=? trust_rank b.
Definition trust_ltb (a b : TrustLevel) : bool := trust_rank a <? trust_rank b.
Definition trust_min (a b : TrustLevel) : TrustLevel := if trust_leb a b then a else b.

Record Principal := mkPrincipal {
  principal_id : string;
  principal_kind : PrincipalKind;
  display_name : string;
  principal_parent : option string;
  principal_trust : TrustLevel;
}.

#[export] Instance Principal_eq_dec : EqDecision Principal.
Proof. solve_decision. Defined.

Definition new_agent (fresh name : string) : Principal :=
  mkPrincipal fresh Agent name None Standard.

Definition spawn_child (self : Principal) (fresh : string) (kind : PrincipalKind)
    (name : string) : Principal :=
  mkPrincipal fresh kind name (Some (principal_id self))
    (trust_min (principal_trust self) Limited).

(** * Replay classes *)

Inductive ReplayClass : Type :=
| AuditOnly | FilesystemOnly | ProcessAndFilesystem | FrameworkHostCalls | BrowserProfile.

Inductive ReplayMode : Type := ModeAudit | ModeSandbox | ModeLive.

#[export] Instance ReplayClass_eq_dec : EqDecision ReplayClass.
Proof. solve_decision. Defined.

Definition replay_rank (c : ReplayClass) : nat :=
  match c with
  | AuditOnly => 0 | FilesystemOnly => 1 | ProcessAndFilesystem => 2
  | FrameworkHostCalls => 3 | BrowserProfile => 4
  end.

Definition replay_leb (a b : ReplayClass) : bool := replay_rank a <=? replay_rank b.
Definition replay_min (a b : ReplayClass) : ReplayClass := if replay_leb a b then a else b.

Definition supports (self : ReplayClass) (mode : ReplayMode) : bool :=
  match mode with
  | ModeAudit => true
  | ModeSandbox => replay_leb FilesystemOnly self
  | ModeLive => replay_leb FilesystemOnly self
  end.

(** * Redaction *)

Definition redact_for (self : Denial) (trust : TrustLevel) : Denial :=
  if trust_leb Limited trust then self
  else
    {| denial_code := denial_code self;
       attempted_operation := attempted_operation self;
       denial_reason := "operation not permitted for this principal";
       safe_alternatives := safe_alternatives self;
       requestable_scopes := [];
       escalation_allowed := false |}.

(** * Actions *)

Inductive ActionKind : Type :=
| Shell (command : string) (cwd : option string) (env : gmap string string)
| ReadFile (path : string)
| WriteFile (path contents_b64 : string)
| DeletePath (path : string)
| ProcessStart (command : string) (cwd : option string) (env : gmap string string)
    (name : option string)
| ProcessStdin (process data_b64 : string) (close : bool)
| ProcessLogs (process : string) (from_offset : Z) (max_bytes : option Z)
| ProcessSignal (process signal : string)
| ProcessStatus (process : string)
| HttpRead (url : string)
| McpInvoke (server tool : string) (arguments : Value)
| ConnectorOp (connector operation : string) (params : Value)
| TraceQueryAction (query : string)
| BranchDiff (since : string).

Definition required_operation (a : ActionKind) : Operation :=
  match a with
  | Shell _ _ _ => "proc.shell"
  | ReadFile _ => "fs.read"
  | WriteFile _ _ => "fs.write"
  | DeletePath _ => "fs.delete"
  | ProcessStart _ _ _ _ => "proc.start"
  | ProcessStdin _ _ _ => "proc.stdin"
  | ProcessLogs _ _ _ => "proc.logs"
  | ProcessSignal _ _ => "proc.signal"
  | ProcessStatus _ => "proc.status"
  | HttpRead _ => "net.http_read"
  | McpInvoke _ _ _ => "mcp.invoke"
  | ConnectorOp connector operation _ => connector +:+ "." +:+ operation
  | TraceQueryAction _ => "trace.query"
  | BranchDiff _ => "state.diff"
  end.

Definition opt_str (o : option string) : Value :=
  match o with Some s => Str s | None => Null end.

(** The entries are in key order, as serde's map keeps them. *)
Definition action_params (a : ActionKind) : Value :=
  match a with
  | Shell command cwd _ => Object [("command", Str command); ("cwd", opt_str cwd)]
  | ReadFile path | DeletePath path => Object [("path", Str path)]
  | WriteFile path _ => Object [("path", Str path)]
  | ProcessStart command cwd _ _ => Object [("command", Str command); ("cwd", opt_str cwd)]
  | ProcessStdin process _ _ | ProcessLogs process _ _ | ProcessStatus process =>
      Object [("process", Str process)]
  | ProcessSignal process signal => Object [("process", Str process); ("signal", Str signal)]
  | HttpRead url => Object [("url", Str url)]
  | McpInvoke server tool arguments =>
      Object [("arguments", arguments); ("server", Str server); ("tool", Str tool)]
  | ConnectorOp _ _ params => params
  | TraceQueryAction query => Object [("query", Str query)]
  | BranchDiff since => Object [("since", Str since)]
  end.

Record Action := mkAction {
  action_kind : ActionKind;
  action_lease : string;
  intent_hint : option string;
  action_budget : ResourceBudget;
}.

(** * Lemmas *)

Section types_lemmas.

Lemma trust_min_le_l a b : trust_leb (trust_min a b) a = true.
Proof. by destruct a, b. Qed.

Lemma trust_min_le_r a b : trust_leb (trust_min a b) b = true.
Proof. by destruct a, b. Qed.

Lemma redact_for_idemp d t : redact_for (redact_for d t) t = redact_for d t.
Proof. unfold redact_for. by destruct (trust_leb Limited t). Qed.

Lemma id_parse_generate prefix uuid :
  id_parse prefix (id_generate prefix uuid) = Ok (id_generate prefix uuid).
Proof.
  unfold id_parse, id_generate. rewrite (proj2 (starts_with_true _ _)); [done|].
  exists uuid. by rewrite str_app_assoc.
Qed.
End types_lemmas.

(** * Properties *)

(** A denial redacted for a principal below [Limited] reveals nothing of the
    reason, the requestable scopes or the escalation switch: denials that agree on the
    code, the attempted operation and the safe alternatives become the same denial,
    while principals at [Limited] or above get theirs unchanged. *)
Theorem redaction_hides_policy (d1 d2 : Denial) (trust : TrustLevel) :
  (trust_leb Limited trust = true -> redact_for d1 trust = d1)
  /\ (trust_leb Limited trust = false ->
      denial_code d1 = denial_code d2 ->
      attempted_operation d1 = attempted_operation d2 ->
      safe_alternatives d1 = safe_alternatives d2 ->
      redact_for d1 trust = redact_for d2 trust
      /\ requestable_scopes (redact_for d1 trust) = []).
Proof.
  unfold redact_for. split; [by intros ->|].
  intros -> -> -> ->. done.
Qed.
