(* ===== verification/IdentityDb.v ===== *)
(** The identity database: [kernel/identity/src/db.rs] and [error.rs].

    One SQLite file holds three tables.  A table with a primary key is a [gmap]
    of rows, [ORDER BY id] is iteration in key order, and the audit table, whose
    key is AUTOINCREMENT, is a list in insertion order.  A column that stores a
    serialized record holds the record (serde's derived encoders round-trip).
    Timestamps are stored as RFC 3339 text and compared as text; that text is
    chrono's and its order is the operation of the class [TimeText]. *)

From S2P Require Import Prelude Json Budget Capability Types.

(** The text of a UTC timestamp ([DateTime::to_rfc3339]) and the order SQLite
    compares TEXT columns with. *)
Class TimeText := {
  time_text : Type;
  to_rfc3339 : DateTime -> time_text;
  text_ltb : time_text -> time_text -> bool;
  (* the years 0 to 9999, whose texts have one width *)
  in_era : DateTime -> Prop;
}.

(** Within those years the text order is the time order. *)
Class TimeTextLaws `{!TimeText} : Prop := {
  text_order a b : in_era a -> in_era b ->
    text_ltb (to_rfc3339 a) (to_rfc3339 b) = (a <? b)%Z;
}.

Inductive IdentityError : Type :=
| UnknownPrincipal (id : string)
| UnknownLease (id : string)
| DuplicatePrincipal (id : string)
| UnknownParent (id : string)
| LeaseUnusable (lease reason : string)
| DelegationRejected (msg : string)
| Attenuation (e : AttenuationError)
| IStorage (msg : string)
| ISerde (msg : string)
| IKey (msg : string)
| IIo (msg : string).

#[export] Instance IdentityError_eq_dec : EqDecision IdentityError.
Proof. solve_decision. Defined.

Abbreviation IdentityResult := (result IdentityError) (only parsing).

(** [From<IdentityError> for KernelError]; [display] is the derived text. *)
Definition kernel_error_of_identity (display : IdentityError -> string) (e : IdentityError)
    : KernelError :=
  match e with
  | UnknownPrincipal id => NotFound "principal" id
  | UnknownLease id => NotFound "lease" id
  | IStorage msg => Storage msg
  | ISerde msg => ESerde msg
  | IIo msg => EIo msg
  | other => EOther (display other)
  end.

Record PrincipalRow := mkPrincipalRow {
  prow_parent : option string;
  prow_trust : TrustLevel;
  prow_json : Principal;
}.

Record DelegationRecord := mkDelegation {
  del_parent_lease : string;
  del_child_lease : string;
  del_delegator : string;
  del_delegatee : string;
  del_at : DateTime;
}.

Section db.
Context `{!TimeText}.

Record LeaseRow := mkLeaseRow {
  lrow_principal : string;
  lrow_operation : string;
  lrow_parent : option string;
  lrow_revoked : bool;
  lrow_uses : Z;
  lrow_expires : time_text;
  lrow_json : CapabilityLease;
}.

Record IdentityDb := mkDb {
  principals : gmap string PrincipalRow;
  leases : gmap string LeaseRow;
  delegations : list DelegationRecord;
}.

Definition db_empty : IdentityDb := mkDb ∅ ∅ [].

Definition with_principals (db : IdentityDb) (p : gmap string PrincipalRow) : IdentityDb :=
  mkDb p (leases db) (delegations db).
Definition with_leases (db : IdentityDb) (l : gmap string LeaseRow) : IdentityDb :=
  mkDb (principals db) l (delegations db).
Definition with_delegations (db : IdentityDb) (d : list DelegationRecord) : IdentityDb :=
  mkDb (principals db) (leases db) d.
End db.

(** * A concrete instance of the text order, for witnesses *)

Module ZTime.
#[local] Instance time : TimeText :=
  {| time_text := Z; to_rfc3339 t := t; text_ltb := Z.ltb; in_era _ := True |}.
#[local] Instance time_laws : TimeTextLaws :=
  {| text_order a b _ _ := eq_refl |}.
End ZTime.
