(* ===== verification/Registry.v ===== *)
(** The principal registry: [kernel/identity/src/registry.rs].

    [register] asks for a registered parent and a fresh id, so the spawn
    relation of a reachable registry is a forest; on such a registry the
    ancestor walk of [lineage] terminates and [is_self_or_descendant] decides
    the reflexive-transitive closure of the parent relation. *)

From S2P Require Import Prelude Types IdentityDb.

Section registry.
Context `{!TimeText}.

Definition register (db : IdentityDb) (p : Principal) : IdentityResult IdentityDb :=
  _ ← match principal_parent p with
      | Some parent => fail_if (bool_decide (principals db !! parent = None))
                         (UnknownParent parent)
      | None => Ok tt
      end;
  (* INSERT OR IGNORE: an existing row is kept and nothing is inserted *)
  match principals db !! principal_id p with
  | Some _ => Err (DuplicatePrincipal (principal_id p))
  | None =>
      Ok (with_principals db
            (<[principal_id p := mkPrincipalRow (principal_parent p) (principal_trust p) p]>
               (principals db)))
  end.

Definition get_principal (db : IdentityDb) (id : string) : IdentityResult Principal :=
  match principals db !! id with
  | Some row => Ok (prow_json row)
  | None => Err (UnknownPrincipal id)
  end.

Definition exists_principal (db : IdentityDb) (id : string) : IdentityResult bool :=
  match get_principal db id with
  | Ok _ => Ok true
  | Err (UnknownPrincipal _) => Ok false
  | Err e => Err e
  end.

Definition set_trust (db : IdentityDb) (id : string) (trust : TrustLevel)
    : IdentityResult IdentityDb :=
  p ← get_principal db id;
  let p' := mkPrincipal (principal_id p) (principal_kind p) (display_name p)
              (principal_parent p) trust in
  (* UPDATE principals SET trust, json WHERE id *)
  Ok (with_principals db
        (alter (fun row => mkPrincipalRow (prow_parent row) trust p') id (principals db))).

Definition children (db : IdentityDb) (id : string) : IdentityResult (list Principal) :=
  Ok (omap (fun kr => if bool_decide (prow_parent kr.2 = Some id)
                      then Some (prow_json kr.2) else None)
        (bt_iter (principals db))).

Definition lineage_limit : nat := 4096.

(** The [while let] loop of [lineage]. Every turn lengthens [out], which is at
    most [lineage_limit] when the loop goes on, so [S lineage_limit] turns are
    enough. *)
Fixpoint lineage_loop (fuel : nat) (db : IdentityDb) (out : list Principal)
    (current : Principal) : IdentityResult (list Principal) :=
  match fuel with
  | O => Err (DelegationRejected "principal lineage contains a cycle")
  | S fuel' =>
      match principal_parent current with
      | None => Ok out
      | Some parent_id =>
          parent ← get_principal db parent_id;
          let out' := out ++ [parent] in
          if lineage_limit <? length out'
          then Err (DelegationRejected "principal lineage contains a cycle")
          else lineage_loop fuel' db out' parent
      end
  end.

Definition lineage (db : IdentityDb) (id : string) : IdentityResult (list Principal) :=
  current ← get_principal db id;
  lineage_loop (S lineage_limit) db [] current.

Definition is_self_or_descendant (db : IdentityDb) (descendant ancestor : string)
    : IdentityResult bool :=
  if bool_decide (descendant = ancestor) then Ok true
  else
    l ← lineage db descendant;
    Ok (existsb (fun p => bool_decide (principal_id p = ancestor)) l).

Definition list_principals (db : IdentityDb) : IdentityResult (list Principal) :=
  Ok (map (fun kr => prow_json kr.2) (bt_iter (principals db))).

(** Ancestry reads nothing but the principals. *)
Lemma lineage_loop_ext fuel db db' out current :
  principals db = principals db' -> lineage_loop fuel db out current = lineage_loop fuel db' out current.
Proof.
  intros Heq. revert out current. induction fuel as [|fuel IH]; intros out current; [done|].
  cbn [lineage_loop]. unfold get_principal. rewrite Heq. destruct (principal_parent current) as [q|]; [|done].
  destruct (principals db' !! q) as [row|]; [|done]. cbn [mbind result_bind]. cbv zeta. case_match; [done|].
  apply IH.
Qed.

Lemma is_self_or_descendant_ext db db' descendant ancestor :
  principals db = principals db' ->
  is_self_or_descendant db descendant ancestor = is_self_or_descendant db' descendant ancestor.
Proof.
  intros Heq. unfold is_self_or_descendant, lineage, get_principal. rewrite Heq.
  destruct (principals db' !! descendant) as [row|]; [|done]. cbn [mbind result_bind].
  by rewrite (lineage_loop_ext _ db db' _ _ Heq).
Qed.

(** * Reachable registries *)

(** The columns mirror the stored record, which is stored under its id. *)
Definition prow_ok (id : string) (row : PrincipalRow) : Prop :=
  principal_id (prow_json row) = id
  /\ principal_parent (prow_json row) = prow_parent row
  /\ principal_trust (prow_json row) = prow_trust row.

(** [parent_of db c p]: [p] is the parent recorded for [c]. *)
Definition parent_of (db : IdentityDb) (c p : string) : Prop :=
  exists row, principals db !! c = Some row /\ prow_parent row = Some p.

(** An order in which the principals can have been registered: every parent
    comes before its children. *)
Inductive spawn_order (ps : gmap string PrincipalRow) : list string -> Prop :=
| spawn_nil : spawn_order ps []
| spawn_cons id row l :
    ps !! id = Some row -> id ∉ l ->
    (forall p, prow_parent row = Some p -> p ∈ l) ->
    spawn_order ps l -> spawn_order ps (id :: l).

Record registry_wf (db : IdentityDb) : Prop := {
  wf_rows : map_Forall prow_ok (principals db);
  wf_forest : exists l, spawn_order (principals db) l
                        /\ (forall id, id ∈ l <-> is_Some (principals db !! id));
}.

Inductive registry_step (db : IdentityDb) : IdentityDb -> Prop :=
| step_register p db' : register db p = Ok db' -> registry_step db db'
| step_set_trust id t db' : set_trust db id t = Ok db' -> registry_step db db'.

Lemma register_Ok db p db' :
  register db p = Ok db' <->
  (forall q, principal_parent p = Some q -> is_Some (principals db !! q))
  /\ principals db !! principal_id p = None
  /\ db' = with_principals db
             (<[principal_id p := mkPrincipalRow (principal_parent p) (principal_trust p) p]>
                (principals db)).
Proof.
  unfold register. split.
  - intros Hreg. inv_result. repeat case_match; inv_result; bool_hyps.
    all: split; [|done]; intros q [= <-].
    by destruct (principals db !! _) eqn:?; [eexists|].
  - intros (Hp & Hid & ->). rewrite Hid. destruct (principal_parent p) as [q|]; [|done].
    destruct (Hp q eq_refl) as [row Hq]. by rewrite bool_decide_false by congruence.
Qed.

Lemma spawn_order_mono ps ps' l :
  (forall id row, ps !! id = Some row ->
     exists row', ps' !! id = Some row' /\ prow_parent row' = prow_parent row) ->
  spawn_order ps l -> spawn_order ps' l.
Proof.
  intros Hmono. induction 1 as [|id row l Hid Hnin Hpar Hl IH]; [constructor|].
  destruct (Hmono _ _ Hid) as (row' & Hrow' & Heq).
  econstructor; eauto. intros p Hp. apply Hpar. congruence.
Qed.

Lemma registry_wf_empty : registry_wf db_empty.
Proof.
  split; [by apply map_Forall_empty|]. exists []. split; [constructor|].
  intros id. cbn. rewrite lookup_empty. split; [by intros ?%not_elem_of_nil|by intros []].
Qed.

Lemma register_wf db p db' : registry_wf db -> register db p = Ok db' -> registry_wf db'.
Proof.
  intros [Hrows (l & Hl & Hdom)] (Hpar & Hfresh & ->)%register_Ok. split; cbn.
  - by apply map_Forall_insert_2.
  - exists (principal_id p :: l). split.
    + econstructor; [by rewrite lookup_insert_eq| | |].
      * rewrite Hdom, Hfresh. apply is_Some_None.
      * cbn. intros q Hq. apply Hdom. auto.
      * eapply spawn_order_mono; [|done]. intros id row Hid. exists row.
        by rewrite lookup_insert_ne by congruence.
    + intros id. rewrite elem_of_cons, Hdom, lookup_insert_is_Some.
      destruct (decide (principal_id p = id)); naive_solver.
Qed.

Lemma set_trust_wf db id t db' : registry_wf db -> set_trust db id t = Ok db' -> registry_wf db'.
Proof.
  intros [Hrows (l & Hl & Hdom)] Hset. unfold set_trust, get_principal in Hset.
  destruct (principals db !! id) as [row|] eqn:Eid; [|done]. cbn in Hset. inv_result.
  destruct (Hrows _ _ Eid) as (Hi & Hp & Ht). split; cbn.
  - intros k r. rewrite lookup_alter. case_decide as Hk.
    + subst k. rewrite Eid. cbn. intros [= <-]. by repeat split.
    + apply Hrows.
  - exists l. split.
    + eapply spawn_order_mono; [|done]. intros k r Hk. rewrite lookup_alter.
      case_decide; [|by eauto]. subst k. rewrite Hk. cbn. eauto.
    + intros k. rewrite Hdom, lookup_alter. case_decide; [|done].
      split; intros [r Hr].
      * subst k. rewrite Hr. cbn. eauto.
      * subst k. destruct (principals db !! id); [eauto|done].
Qed.

Lemma registry_step_wf db db' : registry_wf db -> registry_step db db' -> registry_wf db'.
Proof. intros Hwf [p ? ?|id t ? ?]; eauto using register_wf, set_trust_wf. Qed.

Lemma registry_reachable_wf db : rtc registry_step db_empty db -> registry_wf db.
Proof.
  apply (rtc_ind_r (fun db => registry_wf db)); [apply registry_wf_empty|].
  intros; eauto using registry_step_wf.
Qed.

(** * The ancestor walk *)

(** The chain of proper ancestors of [id], nearest first, read off an order. *)
Lemma lineage_loop_order db l cur out fuel :
  registry_wf db -> spawn_order (principals db) l ->
  (forall p, principal_parent cur = Some p -> p ∈ l) ->
  length l < fuel -> length out + length l <= lineage_limit ->
  exists anc, lineage_loop fuel db out cur = Ok (out ++ anc)
    /\ (forall a, (exists p, p ∈ anc /\ principal_id p = a)
                  <-> exists q, principal_parent cur = Some q /\ rtc (parent_of db) q a).
Proof.
  intros Hwf. revert l cur out. induction fuel as [|fuel IH]; intros l cur out Hl Hcur Hf Hlim;
    [lia|].
  cbn [lineage_loop]. destruct (principal_parent cur) as [q|] eqn:Eq.
  2: { exists []. rewrite app_nil_r. split; [done|]. set_solver. }
  assert (exists row l', principals db !! q = Some row
            /\ spawn_order (principals db) l' /\ length l' < length l
            /\ (forall p, prow_parent row = Some p -> p ∈ l')) as (row & l' & Hq & Hl' & Hlt & Hpar).
  { specialize (Hcur q eq_refl). clear -Hl Hcur.
    induction Hl as [|id r l Hid Hnin Hp Hl IHl]; [by apply not_elem_of_nil in Hcur|].
    destruct (decide (q = id)) as [->|Hne].
    - exists r, l. cbn. auto.
    - destruct IHl as (row & l' & ? & ? & ? & ?); [set_solver|].
      exists row, l'. cbn. auto with lia. }
  unfold get_principal. rewrite Hq. cbn [mbind result_bind].
  destruct (wf_rows _ Hwf _ _ Hq) as (Hid & Hparent & _).
  destruct (Nat.ltb_spec lineage_limit (length (out ++ [prow_json row]))) as [Hgt|_].
  { rewrite length_app in Hgt. cbn in Hgt. lia. }
  destruct (IH l' (prow_json row) (out ++ [prow_json row])) as (anc & -> & Hanc).
  - done.
  - rewrite Hparent. done.
  - lia.
  - rewrite length_app. cbn. lia.
  - exists (prow_json row :: anc). split; [by rewrite <- app_assoc|].
    intros a. split.
    + intros (p & [->|Hin]%elem_of_cons & <-).
      * exists q. split; [done|]. rewrite Hid. apply rtc_refl.
      * destruct (proj1 (Hanc (principal_id p))) as (q' & Hq' & Hr); [by eauto|].
        exists q. split; [done|]. eapply rtc_l; [|done].
        exists row. split; [done|]. congruence.
    + intros (q' & [= <-] & Hr). apply rtc_inv in Hr as [->|(z & (r & Hr1 & Hr2) & Hr)].
      * exists (prow_json row). set_solver.
      * simplify_eq. destruct (proj2 (Hanc a)) as (p & Hp & <-).
        { exists z. split; [congruence|done]. }
        exists p. set_solver.
Qed.

Lemma is_self_or_descendant_spec db d a :
  registry_wf db -> size (principals db) <= lineage_limit ->
  is_Some (principals db !! d) ->
  exists b, is_self_or_descendant db d a = Ok b
            /\ (b = true <-> rtc (parent_of db) d a).
Proof.
  intros Hwf Hsize [row Hd]. unfold is_self_or_descendant.
  case_bool_decide as Hda; [subst; eexists; split; [done|]; by split; [constructor|]|].
  destruct (wf_forest _ Hwf) as (l & Hl & Hdom).
  destruct (wf_rows _ Hwf _ _ Hd) as (Hid & Hpar & _).
  assert (NoDup l) as Hnd by by (clear -Hl; induction Hl; constructor).
  assert (length l <= size (principals db)) as Hlen.
  { rewrite <- size_dom, <- (size_list_to_set (C:=gset string)) by done.
    apply subseteq_size. intros x. rewrite elem_of_list_to_set, elem_of_dom. apply Hdom. }
  destruct (lineage_loop_order db l (prow_json row) [] (S lineage_limit) Hwf Hl)
    as (anc & Hloop & Hanc).
  - intros p Hp. rewrite Hpar in Hp.
    clear -Hl Hdom Hd Hp. assert (d ∈ l) as Hin by (apply Hdom; eauto).
    clear Hdom. induction Hl as [|id r l Hid Hnin Hpp Hl IHl]; [by apply not_elem_of_nil in Hin|].
    apply elem_of_cons. right. destruct (decide (d = id)) as [->|Hne].
    + apply Hpp. congruence.
    + apply IHl. set_solver.
  - lia.
  - cbn. lia.
  - unfold lineage, get_principal. rewrite Hd. cbn [mbind result_bind].
    rewrite Hloop. cbn [mbind result_bind app]. eexists. split; [done|].
    rewrite existsb_exists. setoid_rewrite <- list_elem_of_In.
    setoid_rewrite bool_decide_eq_true. rewrite Hanc. split.
    + intros (q & Hq & Hr). eapply rtc_l; [|done]. exists row. split; [done|]. congruence.
    + intros [->|(z & (r & Hr1 & Hr2) & Hr)]%rtc_inv; [done|].
      simplify_eq. exists z. split; [congruence|done].
Qed.
End registry.

(** * Properties *)

(** In every registry the public operations can produce, of at most 4096 principals,
    [is_self_or_descendant] answers (the ancestor walk terminates and meets neither a
    missing row nor its cycle guard) and its answer is whether the ancestor is reachable
    over recorded parents. *)
Theorem ancestry_decided `{!TimeText} (db : IdentityDb) (d a : string) :
  rtc registry_step db_empty db ->
  size (principals db) <= lineage_limit ->
  is_Some (principals db !! d) ->
  exists b, is_self_or_descendant db d a = Ok b
            /\ (b = true <-> rtc (parent_of db) d a).
Proof. intros Hr. by apply is_self_or_descendant_spec, registry_reachable_wf. Qed.

Section registry_demo.
#[local] Existing Instance ZTime.time.

Definition demo_root : Principal := new_agent "pr-1" "root".
Definition demo_worker : Principal := spawn_child demo_root "pr-2" SubAgent "worker".
Definition demo_row (p : Principal) : PrincipalRow :=
  mkPrincipalRow (principal_parent p) (principal_trust p) p.
Definition demo_db1 : IdentityDb :=
  mkDb (<["pr-1" := demo_row demo_root]> ∅) ∅ [].
Definition demo_db : IdentityDb :=
  mkDb (<["pr-2" := demo_row demo_worker]> (<["pr-1" := demo_row demo_root]> ∅)) ∅ [].

Lemma demo_db_reachable : rtc registry_step db_empty demo_db.
Proof.
  apply rtc_l with demo_db1; [|apply rtc_once].
  - apply (step_register _ demo_root). reflexivity.
  - apply (step_register _ demo_worker). reflexivity.
Qed.

Lemma ancestry_decided_witness :
  exists b, is_self_or_descendant demo_db "pr-2" "pr-1" = Ok b
            /\ (b = true <-> rtc (parent_of demo_db) "pr-2" "pr-1").
Proof.
  apply (ancestry_decided demo_db "pr-2" "pr-1").
  - exact demo_db_reachable.
  - vm_compute. lia.
  - vm_compute. eauto.
Defined.
End registry_demo.
