(* ===== verification/LeaseStore.v ===== *)
(** The lease store: [kernel/identity/src/lease_store.rs].

    A lease row keeps the columns SQL conditions read and a JSON mirror of the
    lease; every statement updates both.  [revoke_cascading] walks the children
    with an explicit stack and no visited set, so it takes fuel here; on a store
    whose parent links form a forest it terminates and revokes exactly the
    subtree.  [consume_use] is one conditional UPDATE. *)

From S2P Require Import Prelude Json Budget Capability Types IdentityDb.

Open Scope Z_scope.

Section lease_store.
Context `{!TimeText}.

Definition lease_set_revoked (l : CapabilityLease) : CapabilityLease :=
  mkLease (lease_id l) (lease_principal l) (lease_operation l) (lease_constraints l)
    (remaining_uses l) (issued_at l) (expires_at l) (bound_branch l) (lease_budget l)
    (parent_lease l) (lease_preconditions l) true.

Definition lease_set_uses (n : Z) (l : CapabilityLease) : CapabilityLease :=
  mkLease (lease_id l) (lease_principal l) (lease_operation l) (lease_constraints l)
    n (issued_at l) (expires_at l) (bound_branch l) (lease_budget l)
    (parent_lease l) (lease_preconditions l) (revoked l).

Definition row_of_lease (l : CapabilityLease) : LeaseRow :=
  mkLeaseRow (lease_principal l) (lease_operation l) (parent_lease l) (revoked l)
    (remaining_uses l) (to_rfc3339 (expires_at l)) l.

(** INSERT OR REPLACE. *)
Definition issue (db : IdentityDb) (l : CapabilityLease) : IdentityResult IdentityDb :=
  Ok (with_leases db (<[lease_id l := row_of_lease l]> (leases db))).

Definition get_lease (db : IdentityDb) (id : string) : IdentityResult CapabilityLease :=
  match leases db !! id with
  | Some row => Ok (lrow_json row)
  | None => Err (UnknownLease id)
  end.

Definition list_for_principal (db : IdentityDb) (id : string)
    : IdentityResult (list CapabilityLease) :=
  Ok (omap (fun kr => if bool_decide (lrow_principal kr.2 = id)
                      then Some (lrow_json kr.2) else None)
        (bt_iter (leases db))).

Definition active_for_principal (db : IdentityDb) (id : string) (now : DateTime)
    : IdentityResult (list CapabilityLease) :=
  l ← list_for_principal db id;
  Ok (List.filter (fun l => negb (revoked l) && (now <? expires_at l)
                            && (0 <? remaining_uses l)) l).

(** UPDATE ... SET revoked = 1, json.revoked = true. *)
Definition row_revoke (row : LeaseRow) : LeaseRow :=
  mkLeaseRow (lrow_principal row) (lrow_operation row) (lrow_parent row) true
    (lrow_uses row) (lrow_expires row) (lease_set_revoked (lrow_json row)).

(** SELECT id FROM leases WHERE parent_lease = id. *)
Definition child_ids (ls : gmap string LeaseRow) (id : string) : list string :=
  omap (fun kr => if bool_decide (lrow_parent kr.2 = Some id) then Some kr.1 else None)
    (bt_iter ls).

(** The body of the loop for one popped id: newly revoked or not. *)
Definition revoke_one (ls : gmap string LeaseRow) (id : string)
    : bool * gmap string LeaseRow :=
  match ls !! id with
  | Some row => if lrow_revoked row then (false, ls) else (true, <[id := row_revoke row]> ls)
  | None => (false, ls)
  end.

(** [frontier] is the stack, top first; the rows found are pushed in order, so
    the last one is popped next. *)
Fixpoint revoke_loop (fuel : nat) (ls : gmap string LeaseRow) (acc frontier : list string)
    : option (list string * gmap string LeaseRow) :=
  match frontier with
  | [] => Some (acc, ls)
  | current :: rest =>
      match fuel with
      | O => None
      | S fuel' =>
          let '(newly, ls') := revoke_one ls current in
          revoke_loop fuel' ls' (if newly then acc ++ [current] else acc)
            (reverse (child_ids ls' current) ++ rest)
      end
  end.

(** [None]: the loop is still running after [fuel] turns. *)
Definition revoke_cascading (fuel : nat) (db : IdentityDb) (id : string)
    : option (IdentityResult (list string * IdentityDb)) :=
  match leases db !! id with
  | None => Some (Err (UnknownLease id))
  | Some _ =>
      '(ids, ls) ← revoke_loop fuel (leases db) [] [id];
      Some (Ok (ids, with_leases db ls))
  end.

(** The conditional UPDATE of [consume_use] and its RETURNING clause. *)
Definition row_consume (row : LeaseRow) : LeaseRow :=
  mkLeaseRow (lrow_principal row) (lrow_operation row) (lrow_parent row) (lrow_revoked row)
    (lrow_uses row - 1) (lrow_expires row) (lease_set_uses (lrow_uses row - 1) (lrow_json row)).

Definition row_usable (row : LeaseRow) (now : DateTime) : bool :=
  negb (lrow_revoked row) && (0 <? lrow_uses row)
  && text_ltb (to_rfc3339 now) (lrow_expires row).

Definition consume_use (db : IdentityDb) (id : string) (now : DateTime)
    : IdentityResult CapabilityLease * IdentityDb :=
  match leases db !! id with
  | Some row =>
      if row_usable row now
      then (Ok (lrow_json (row_consume row)),
            with_leases db (<[id := row_consume row]> (leases db)))
      else
        let lease := lrow_json row in
        (Err (LeaseUnusable id
                (if revoked lease then "revoked"
                 else if expires_at lease <=? now then "expired" else "exhausted")), db)
  | None => (Err (UnknownLease id), db)
  end.

Definition row_sweepable (now : DateTime) (row : LeaseRow) : bool :=
  negb (lrow_revoked row) && negb (text_ltb (to_rfc3339 now) (lrow_expires row)).

(** UPDATE ... WHERE revoked = 0 AND expires_at <= now RETURNING id. *)
Definition sweep_expired (db : IdentityDb) (now : DateTime)
    : IdentityResult (list string * IdentityDb) :=
  Ok (omap (fun kr => if row_sweepable now kr.2 then Some kr.1 else None) (bt_iter (leases db)),
      with_leases db ((fun row => if row_sweepable now row then row_revoke row else row)
                        <$> leases db)).

(** * The mirror invariant *)

(** The columns agree with the lease the row serializes. *)
Definition row_ok (id : string) (row : LeaseRow) : Prop :=
  lease_id (lrow_json row) = id
  /\ lrow_principal row = lease_principal (lrow_json row)
  /\ lrow_operation row = lease_operation (lrow_json row)
  /\ lrow_parent row = parent_lease (lrow_json row)
  /\ lrow_revoked row = revoked (lrow_json row)
  /\ lrow_uses row = remaining_uses (lrow_json row)
  /\ lrow_expires row = to_rfc3339 (expires_at (lrow_json row)).

Definition store_ok (ls : gmap string LeaseRow) : Prop := map_Forall row_ok ls.

Lemma row_of_lease_ok l : row_ok (lease_id l) (row_of_lease l).
Proof. by repeat split. Qed.

Lemma row_revoke_ok id row : row_ok id row -> row_ok id (row_revoke row).
Proof. intros (?&?&?&?&?&?&?). by repeat split. Qed.

Lemma row_consume_ok id row : row_ok id row -> row_ok id (row_consume row).
Proof. intros (?&?&?&?&?&?&?). by repeat split. Qed.

(** * Cascading revocation *)

(** [child ls p c]: the row of [c] names [p] as its parent lease. *)
Definition child (ls : gmap string LeaseRow) (p c : string) : Prop :=
  exists row, ls !! c = Some row /\ lrow_parent row = Some p.

Lemma child_ids_keys ls id :
  child_ids ls id =
  omap (fun k => row ← ls !! k; if bool_decide (lrow_parent row = Some id) then Some k else None)
    (bt_keys ls).
Proof.
  unfold child_ids, bt_iter. induction (bt_keys ls) as [|k ks IH]; [done|]. cbn.
  destruct (ls !! k); cbn; [|done]. case_bool_decide; cbn; by rewrite IH.
Qed.

Lemma child_ids_elem ls p c : c ∈ child_ids ls p <-> child ls p c.
Proof.
  unfold child_ids, child. rewrite list_elem_of_omap. split.
  - intros ([k row] & Hin & Heq). apply bt_iter_elem in Hin. cbn in Heq.
    case_bool_decide; naive_solver.
  - intros (row & Hc & Hp). exists (c, row). rewrite bt_iter_elem. cbn.
    by rewrite bool_decide_true.
Qed.

Lemma omap_NoDup_id {A} (f : A -> option A) (l : list A) :
  (forall x y, f x = Some y -> y = x) -> NoDup l -> NoDup (omap f l).
Proof.
  intros Hf. induction 1 as [|x l Hnin _ IH]; cbn; [constructor|].
  destruct (f x) as [y|] eqn:E; [|done]. apply Hf in E as ->. constructor; [|done].
  intros (z & Hz & ->%Hf)%list_elem_of_omap. done.
Qed.

Lemma child_ids_nodup ls p : NoDup (child_ids ls p).
Proof.
  rewrite child_ids_keys. apply omap_NoDup_id; [|apply bt_keys_nodup].
  intros k k'. destruct (ls !! k); cbn; [|done]. case_bool_decide; naive_solver.
Qed.

Definition revoked_row (row : LeaseRow) : LeaseRow :=
  if lrow_revoked row then row else row_revoke row.

(** The store after the leases of [V] were revoked. *)
Definition revoke_set (V : list string) (ls : gmap string LeaseRow) : gmap string LeaseRow :=
  map_imap (fun k row => Some (if bool_decide (k ∈ V) then revoked_row row else row)) ls.

Lemma revoke_set_lookup V ls k :
  revoke_set V ls !! k =
  (fun row => if bool_decide (k ∈ V) then revoked_row row else row) <$> ls !! k.
Proof. unfold revoke_set. rewrite map_lookup_imap. by destruct (ls !! k). Qed.

Lemma revoked_row_parent row : lrow_parent (revoked_row row) = lrow_parent row.
Proof. unfold revoked_row. by destruct (lrow_revoked row). Qed.

Lemma revoke_set_keys V ls : bt_keys (revoke_set V ls) = bt_keys ls.
Proof.
  apply (Sorted_unique String.le); [apply bt_keys_sorted..|].
  apply NoDup_Permutation; [apply bt_keys_nodup..|]. intros k.
  rewrite !bt_keys_elem, revoke_set_lookup. destruct (ls !! k); cbn; [|done].
  split; eauto.
Qed.

Lemma revoke_set_child_ids V ls id : child_ids (revoke_set V ls) id = child_ids ls id.
Proof.
  rewrite !child_ids_keys, revoke_set_keys. induction (bt_keys ls) as [|k ks IH]; [done|].
  cbn. rewrite IH, revoke_set_lookup. destruct (ls !! k) as [row|]; cbn; [|done].
  destruct (bool_decide (k ∈ V)); by rewrite ?revoked_row_parent.
Qed.

Definition newly_revoked (ls : gmap string LeaseRow) (k : string) : bool :=
  match ls !! k with Some row => negb (lrow_revoked row) | None => false end.

Lemma revoke_one_set V ls id row :
  ls !! id = Some row -> id ∉ V ->
  revoke_one (revoke_set V ls) id = (newly_revoked ls id, revoke_set (V ++ [id]) ls).
Proof.
  intros Hid Hnin. unfold revoke_one, newly_revoked. rewrite revoke_set_lookup, Hid. cbn.
  rewrite bool_decide_false by done.
  destruct (lrow_revoked row) eqn:Er; cbn; f_equal; apply map_eq; intros k;
    rewrite ?lookup_insert, !revoke_set_lookup.
  - destruct (ls !! k) as [r|] eqn:Ek; cbn; [|done]. f_equal.
    destruct (decide (k = id)) as [->|Hne].
    + simplify_eq. rewrite bool_decide_false, bool_decide_true by set_solver.
      unfold revoked_row. by rewrite Er.
    + by rewrite (bool_decide_ext (k ∈ V) (k ∈ V ++ [id])) by set_solver.
  - case_decide as Hk.
    + subst k. rewrite Hid. cbn. rewrite bool_decide_true by set_solver.
      unfold revoked_row. by rewrite Er.
    + destruct (ls !! k) as [r|] eqn:Ek; cbn; [|done].
      by rewrite (bool_decide_ext (k ∈ V) (k ∈ V ++ [id])) by set_solver.
Qed.

(** The invariant of the loop: [V] lists the ids popped so far. *)
Record cascade_inv (ls : gmap string LeaseRow) (root : string) (V frontier : list string)
    : Prop := {
  ci_nodup : NoDup (V ++ frontier);
  ci_desc : forall x, x ∈ V ++ frontier -> is_Some (ls !! x) /\ rtc (child ls) root x;
  ci_parent : forall x, x ∈ V ++ frontier -> x = root \/ exists p, p ∈ V /\ child ls p x;
  ci_closed : forall p c, p ∈ V -> child ls p c -> c ∈ V ++ frontier;
  ci_root : root ∈ V ++ frontier;
}.

Lemma cascade_inv_step ls root V cur rest :
  ~ tc (child ls) root root ->
  cascade_inv ls root V (cur :: rest) ->
  cascade_inv ls root (V ++ [cur]) (reverse (child_ids ls cur) ++ rest).
Proof.
  intros Hacyc [Hnd Hdesc Hpar Hclosed Hroot].
  assert (forall x, x ∈ V ++ cur :: rest -> ~ child ls cur x) as Hfresh.
  { intros x Hx Hcx. destruct (Hdesc cur) as [_ Hcur]; [set_solver|].
    destruct (Hpar x Hx) as [->|(p & Hp & (r & Hr1 & Hr2))].
    - apply Hacyc. by eapply tc_rtc_l, tc_once.
    - destruct Hcx as (r' & Hr1' & Hr2'). simplify_eq.
      apply NoDup_app in Hnd as (_ & Hdisj & _). apply (Hdisj _ Hp). set_solver. }
  assert (forall x, x ∈ (V ++ [cur]) ++ reverse (child_ids ls cur) ++ rest <->
                    x ∈ V ++ cur :: rest \/ child ls cur x) as Helem.
  { intros x. rewrite <- child_ids_elem, !elem_of_app, !elem_of_cons, elem_of_nil,
      elem_of_reverse. tauto. }
  split.
  - assert ((V ++ [cur]) ++ reverse (child_ids ls cur) ++ rest
            ≡ₚ child_ids ls cur ++ (V ++ cur :: rest)) as ->.
    { rewrite (reverse_Permutation (child_ids ls cur)). by solve_Permutation. }
    apply NoDup_app. split; [apply child_ids_nodup|]. split; [|done].
    intros x Hx%child_ids_elem Hx'. by apply (Hfresh x).
  - intros x [Hx|Hx]%Helem; [auto|]. split.
    + destruct Hx as (r & Hr & _). eauto.
    + eapply rtc_r; [|done]. apply Hdesc. set_solver.
  - intros x [Hx|Hx]%Helem.
    + destruct (Hpar x Hx) as [->|(p & Hp & Hc)]; [by left|]. right. exists p. set_solver.
    + right. exists cur. set_solver.
  - intros p c [Hp| ->%list_elem_of_singleton]%elem_of_app Hc; apply Helem; [left|by right].
    by eapply Hclosed.
  - apply Helem. by left.
Qed.

Lemma cascade_done ls root V :
  cascade_inv ls root V [] -> forall x, x ∈ V <-> rtc (child ls) root x.
Proof.
  intros [_ Hdesc _ Hclosed Hroot] x. rewrite !app_nil_r in *. split.
  - intros Hx. by apply Hdesc.
  - intros Hr. clear Hdesc. revert Hroot. induction Hr as [|y z x Hyz _ IH]; [done|].
    intros Hy. apply IH. by eapply Hclosed.
Qed.

Lemma cascade_length ls root V frontier :
  cascade_inv ls root V frontier -> (length (V ++ frontier) <= size ls)%nat.
Proof.
  intros [Hnd Hdesc _ _ _].
  rewrite <- size_dom, <- (size_list_to_set (C:=gset string)) by done.
  apply subseteq_size. intros x. rewrite elem_of_list_to_set, elem_of_dom. apply Hdesc.
Qed.

Lemma revoke_loop_spec ls root fuel V frontier :
  ~ tc (child ls) root root ->
  cascade_inv ls root V frontier ->
  (size ls <= fuel + length V)%nat ->
  exists V', revoke_loop fuel (revoke_set V ls) (List.filter (newly_revoked ls) V) frontier
             = Some (List.filter (newly_revoked ls) (V ++ V'), revoke_set (V ++ V') ls)
             /\ NoDup (V ++ V')
             /\ (forall x, x ∈ V ++ V' <-> rtc (child ls) root x).
Proof.
  intros Hacyc. revert V frontier. induction fuel as [|fuel IH]; intros V [|cur rest] Hinv Hfuel.
  - exists []. rewrite !app_nil_r. split; [done|].
    split; [by destruct Hinv; rewrite app_nil_r in *|by apply cascade_done].
  - apply cascade_length in Hinv. rewrite length_app in Hinv. cbn in *. lia.
  - exists []. rewrite !app_nil_r. split; [done|].
    split; [by destruct Hinv; rewrite app_nil_r in *|by apply cascade_done].
  - cbn [revoke_loop].
    destruct (ci_desc _ _ _ _ Hinv cur) as [[row Hrow] _]; [set_solver|].
    assert (cur ∉ V) as Hnin.
    { intros Hin. destruct (proj1 (NoDup_app _ _) (ci_nodup _ _ _ _ Hinv)) as (_ & Hd & _).
      apply (Hd _ Hin). set_solver. }
    rewrite (revoke_one_set V ls cur row), revoke_set_child_ids by done.
    assert ((if newly_revoked ls cur then List.filter (newly_revoked ls) V ++ [cur]
             else List.filter (newly_revoked ls) V)
            = List.filter (newly_revoked ls) (V ++ [cur])) as ->.
    { rewrite List.filter_app. cbn. destruct (newly_revoked ls cur); [done|].
      by rewrite app_nil_r. }
    destruct (IH (V ++ [cur]) (reverse (child_ids ls cur) ++ rest)) as (V' & Hl & Hnd & HV).
    + by apply cascade_inv_step.
    + rewrite length_app. cbn. lia.
    + exists (cur :: V'). rewrite <- app_assoc in Hl, Hnd, HV. done.
Qed.

Lemma cascade_inv_start ls root :
  is_Some (ls !! root) -> cascade_inv ls root [] [root].
Proof.
  intros Hroot. split; cbn.
  - by repeat constructor; set_solver.
  - intros x ->%list_elem_of_singleton. auto using rtc_refl.
  - intros x ->%list_elem_of_singleton. by left.
  - set_solver.
  - set_solver.
Qed.

Lemma revoke_set_nil ls : revoke_set [] ls = ls.
Proof.
  apply map_eq. intros k. rewrite revoke_set_lookup. destruct (ls !! k); [|done].
  cbn. by rewrite bool_decide_false by set_solver.
Qed.

Lemma revoke_cascading_spec db root fuel :
  is_Some (leases db !! root) -> ~ tc (child (leases db)) root root ->
  (size (leases db) <= fuel)%nat ->
  exists V, revoke_cascading fuel db root
            = Some (Ok (List.filter (newly_revoked (leases db)) V,
                        with_leases db (revoke_set V (leases db))))
            /\ NoDup V /\ (forall x, x ∈ V <-> rtc (child (leases db)) root x).
Proof.
  intros [row Hroot] Hacyc Hfuel. unfold revoke_cascading. rewrite Hroot.
  destruct (revoke_loop_spec (leases db) root fuel [] [root]) as (V & Hl & Hnd & HV);
    [done|by apply cascade_inv_start|cbn; lia|].
  rewrite revoke_set_nil in Hl. cbn in Hl. exists V. by rewrite Hl.
Qed.

Lemma revoke_set_ok V ls : store_ok ls -> store_ok (revoke_set V ls).
Proof.
  intros Hok k row. rewrite revoke_set_lookup. destruct (ls !! k) as [r|] eqn:Ek; [|done].
  intros [= <-]. specialize (Hok _ _ Ek). unfold revoked_row.
  repeat case_match; auto using row_revoke_ok.
Qed.

(** * Consumption *)

Lemma consume_use_Ok db id now l db' :
  consume_use db id now = (Ok l, db') <->
  exists row, leases db !! id = Some row /\ row_usable row now = true
    /\ l = lrow_json (row_consume row)
    /\ db' = with_leases db (<[id := row_consume row]> (leases db)).
Proof.
  unfold consume_use. destruct (leases db !! id) as [row|];
    [|split; [done|by intros (?&?&?)]].
  destruct (row_usable row now) eqn:E; split.
  - intros [= <- <-]. eauto 6.
  - by intros (r & [= <-] & _ & -> & ->).
  - done.
  - intros (r & [= <-] & ? & _). congruence.
Qed.

Lemma consume_use_Err db id now e db' : consume_use db id now = (Err e, db') -> db' = db.
Proof. unfold consume_use. repeat case_match; naive_solver. Qed.

(** * Sequences of operations *)

Inductive lease_op : Type :=
| OpIssue (l : CapabilityLease)
| OpConsume (id : string) (now : DateTime)
| OpRevoke (id : string)
| OpSweep (now : DateTime).

(** The state after one operation; a cascade gets as many turns as there are
    rows. *)
Definition run_op (db : IdentityDb) (op : lease_op) : IdentityDb :=
  match op with
  | OpIssue l => match issue db l with Ok db' => db' | Err _ => db end
  | OpConsume id now => (consume_use db id now).2
  | OpRevoke id =>
      match revoke_cascading (size (leases db)) db id with
      | Some (Ok (_, db')) => db'
      | _ => db
      end
  | OpSweep now => match sweep_expired db now with Ok (_, db') => db' | Err _ => db end
  end.

(** Whether the operation consumed a use of [target]. *)
Definition consumed (target : string) (db : IdentityDb) (op : lease_op) : bool :=
  match op with
  | OpConsume id now => bool_decide (id = target) && is_ok (consume_use db id now).1
  | _ => false
  end.

Fixpoint run_ops (target : string) (db : IdentityDb) (ops : list lease_op)
    : nat * IdentityDb :=
  match ops with
  | [] => (O, db)
  | op :: ops' =>
      let '(n, db') := run_ops target (run_op db op) ops' in
      (if consumed target db op then S n else n, db')
  end.

Lemma revoke_loop_set fuel ls acc frontier ids ls' :
  revoke_loop fuel ls acc frontier = Some (ids, ls') ->
  exists V, ls' = revoke_set V ls.
Proof.
  revert ls acc frontier. induction fuel as [|fuel IH]; intros ls acc [|cur rest]; cbn.
  - intros [= _ <-]. exists []. by rewrite revoke_set_nil.
  - done.
  - intros [= _ <-]. exists []. by rewrite revoke_set_nil.
  - destruct (revoke_one ls cur) as [newly ls1] eqn:E1. intros Hl.
    apply IH in Hl as (V & ->).
    assert (exists W, ls1 = revoke_set W ls) as [W ->].
    { destruct (ls !! cur) as [row|] eqn:Ec.
      - exists [cur]. rewrite <- (revoke_set_nil ls) in E1.
        rewrite (revoke_one_set [] ls cur row) in E1 by (done || set_solver).
        by injection E1 as _ <-.
      - unfold revoke_one in E1. rewrite Ec in E1. injection E1 as _ <-.
        exists []. by rewrite revoke_set_nil. }
    exists (V ++ W). apply map_eq. intros k. rewrite !revoke_set_lookup.
    destruct (ls !! k) as [row|]; cbn; [|done]. f_equal.
    unfold revoked_row. destruct (lrow_revoked row) eqn:Er.
    + repeat case_bool_decide; rewrite ?Er; done.
    + repeat case_bool_decide; cbn; rewrite ?Er; set_solver.
Qed.

Lemma revoke_cascading_set fuel db id ids db' :
  revoke_cascading fuel db id = Some (Ok (ids, db')) ->
  exists V, db' = with_leases db (revoke_set V (leases db)).
Proof.
  unfold revoke_cascading. destruct (leases db !! id); [|done].
  destruct (revoke_loop _ _ _ _) as [[ids' ls]|] eqn:E; cbn; [|done].
  intros [= _ <-]. apply revoke_loop_set in E as [V ->]. eauto.
Qed.

Lemma run_op_ok db op : store_ok (leases db) -> store_ok (leases (run_op db op)).
Proof.
  intros Hok. destruct op as [l|id now|id|now]; cbn.
  - apply map_Forall_insert_2; [apply row_of_lease_ok|done].
  - unfold consume_use. destruct (leases db !! id) as [row|] eqn:E; [|done].
    destruct (row_usable row now); [|done]. cbn.
    apply map_Forall_insert_2; [by apply row_consume_ok, Hok|done].
  - destruct (revoke_cascading _ _ _) as [[[ids db']|]|] eqn:E; try done.
    apply revoke_cascading_set in E as [V ->]. by apply revoke_set_ok.
  - intros k row. rewrite lookup_fmap. destruct (leases db !! k) as [r|] eqn:E; [|done].
    intros [= <-]. specialize (Hok _ _ E). case_match; auto using row_revoke_ok.
Qed.

(** Uses only go down, by one per successful consumption. *)
Definition uses_of (db : IdentityDb) (id : string) : option Z := lrow_uses <$> leases db !! id.

Definition reissues (target : string) (op : lease_op) : bool :=
  match op with OpIssue l => bool_decide (lease_id l = target) | _ => false end.

Lemma run_op_uses db op target n :
  uses_of db target = Some n -> reissues target op = false ->
  uses_of (run_op db op) target = Some (if consumed target db op then n - 1 else n)
  /\ (consumed target db op = true -> 0 < n).
Proof.
  unfold uses_of. intros Hn Hre.
  destruct (leases db !! target) as [row|] eqn:Et; [|done]. injection Hn as Hn.
  destruct op as [l|id now|id|now]; cbn in *.
  - apply bool_decide_eq_false in Hre. rewrite lookup_insert_ne by done.
    rewrite Et. cbn. split; [by f_equal|done].
  - unfold consume_use. destruct (decide (id = target)) as [->|Hne].
    + rewrite Et, bool_decide_true by done. destruct (row_usable row now) eqn:Eu; cbn.
      * rewrite lookup_insert_eq. cbn. unfold row_usable in Eu. bool_hyps.
        split; [by subst|lia].
      * rewrite Et. cbn. by subst.
    + rewrite bool_decide_false by done. cbn.
      destruct (leases db !! id); [destruct (row_usable _ _); cbn|cbn].
      * rewrite lookup_insert_ne by done. rewrite Et. cbn. by subst.
      * rewrite Et. cbn. by subst.
      * rewrite Et. cbn. by subst.
  - destruct (revoke_cascading _ _ _) as [[[ids db']|]|] eqn:E;
      [|rewrite Et; cbn; by subst..].
    apply revoke_cascading_set in E as [V ->]. cbn. rewrite revoke_set_lookup, Et. cbn.
    split; [|done]. f_equal. unfold revoked_row. by repeat case_match.
  - rewrite lookup_fmap, Et. cbn. split; [|done]. f_equal. by case_match.
Qed.

Lemma run_ops_uses ops db target n :
  uses_of db target = Some n -> forallb (fun op => negb (reissues target op)) ops = true ->
  uses_of (run_ops target db ops).2 target = Some (n - Z.of_nat (run_ops target db ops).1)
  /\ ((run_ops target db ops).1 <= Z.to_nat n)%nat.
Proof.
  revert db n. induction ops as [|op ops IH]; intros db n Hn Hre; cbn.
  { split; [|lia]. rewrite Hn. f_equal. lia. }
  cbn in Hre. apply andb_true_iff in Hre as [Hop Hre]. apply negb_true_iff in Hop.
  destruct (run_op_uses db op target n Hn Hop) as [Hn' Hpos].
  destruct (IH (run_op db op) _ Hn' Hre) as [Hu Hle].
  destruct (run_ops target (run_op db op) ops) as [m db']. cbn in *.
  destruct (consumed target db op); cbn.
  - specialize (Hpos eq_refl). split; [rewrite Hu; f_equal; lia|lia].
  - split; [done|lia].
Qed.
End lease_store.

(** * Properties *)

(** C27: Cascading revocation terminates and is exact. When the lease exists and is not its
    own ancestor, a number of turns equal to the number of rows is enough; afterwards
    every lease transitively attenuated from it is revoked, every other lease is
    untouched, nothing but the revoked flag changed, and the returned ids are exactly the
    descendants that were not revoked before. *)
Theorem revocation_cascades `{!TimeText} (db : IdentityDb) (root : string) (fuel : nat) :
  is_Some (leases db !! root) ->
  ~ tc (child (leases db)) root root ->
  (size (leases db) <= fuel)%nat ->
  exists ids db',
    revoke_cascading fuel db root = Some (Ok (ids, db'))
    /\ (forall id row, leases db !! id = Some row ->
          (rtc (child (leases db)) root id ->
             leases db' !! id = Some (revoked_row row)
             /\ lrow_revoked (revoked_row row) = true)
          /\ (~ rtc (child (leases db)) root id -> leases db' !! id = Some row))
    /\ (forall id, id ∈ ids <->
          rtc (child (leases db)) root id /\ newly_revoked (leases db) id = true)
    /\ principals db' = principals db /\ delegations db' = delegations db.
Proof.
  intros Hroot Hacyc Hfuel.
  destruct (revoke_cascading_spec db root fuel Hroot Hacyc Hfuel) as (V & Hrun & Hnd & HV).
  eexists _, _. split; [exact Hrun|]. split; [|split; [|done]].
  - intros id row Hrow. cbn. rewrite revoke_set_lookup, Hrow. cbn. rewrite <- HV. split.
    + intros Hin. rewrite bool_decide_true by done. split; [done|].
      unfold revoked_row. by destruct (lrow_revoked row) eqn:E.
    + intros Hnin. by rewrite bool_decide_false.
  - intros id. rewrite <- HV, !list_elem_of_In, List.filter_In. done.
Qed.

(** C29: A lease is never spent more often than it allows. Over any sequence of consume,
    revoke and sweep calls on the store, and issues of other leases, the number of
    successful consumptions of a lease is at most its remaining uses, and the column
    holds exactly what is left. *)
Theorem uses_never_overspent `{!TimeText} (db : IdentityDb) (ops : list lease_op)
    (id : string) (n : Z) :
  uses_of db id = Some n ->
  forallb (fun op => negb (reissues id op)) ops = true ->
  ((run_ops id db ops).1 <= Z.to_nat n)%nat
  /\ uses_of (run_ops id db ops).2 id = Some (n - Z.of_nat (run_ops id db ops).1).
Proof. intros Hn Hre. by destruct (run_ops_uses ops db id n Hn Hre). Qed.

(** The columns SQL conditions read and the JSON mirror readers get never drift apart:
    starting from an empty store, every sequence of issue, consume, revoke and sweep
    calls keeps every column equal to the field of the serialized lease. *)
Theorem columns_mirror_json `{!TimeText} (ops : list lease_op) :
  store_ok (leases (foldl run_op db_empty ops)).
Proof.
  assert (forall db, store_ok (leases db) -> store_ok (leases (foldl run_op db ops))) as Hgen.
  { induction ops as [|op ops IH]; intros db Hdb; cbn; [done|]. by apply IH, run_op_ok. }
  apply Hgen, map_Forall_empty.
Qed.

(** [consume_use] on a mirrored store succeeds exactly when the lease is not revoked,
    has a use left and expires after [now]; it then returns the lease with one use less.
    Otherwise the store is unchanged and the error names the reason that applies. *)
Theorem consume_use_spec `{!TimeText, !TimeTextLaws} (db : IdentityDb) (id : string)
    (now : DateTime) (row : LeaseRow) :
  store_ok (leases db) -> leases db !! id = Some row ->
  in_era now -> in_era (expires_at (lrow_json row)) -> 0 <= lrow_uses row ->
  let l := lrow_json row in
  match consume_use db id now with
  | (Ok l', db') =>
      revoked l = false /\ now < expires_at l /\ 0 < remaining_uses l
      /\ l' = lease_set_uses (remaining_uses l - 1) l
      /\ leases db' = <[id := row_consume row]> (leases db)
  | (Err e, db') =>
      db' = db
      /\ ((e = LeaseUnusable id "revoked" /\ revoked l = true)
          \/ (e = LeaseUnusable id "expired" /\ revoked l = false /\ expires_at l <= now)
          \/ (e = LeaseUnusable id "exhausted" /\ revoked l = false /\ now < expires_at l
              /\ remaining_uses l = 0))
  end.
Proof.
  intros Hok Hid Hnow Hexp Hpos l. destruct (Hok _ _ Hid) as (_ & _ & _ & _ & Hr & Hu & He).
  unfold consume_use. rewrite Hid. unfold row_usable. rewrite He, text_order by done.
  fold l in Hr, Hu, He. rewrite Hr, Hu in *. fold l.
  destruct (revoked l) eqn:Erev; cbn; [naive_solver|].
  destruct (Z.ltb_spec 0 (remaining_uses l)); cbn.
  - destruct (Z.ltb_spec now (expires_at l)); cbn; fold l.
    + repeat split; try done. unfold row_consume. cbn. by rewrite Hu.
    + destruct (Z.leb_spec (expires_at l) now); [|lia]. split; [done|]. right; left. done.
  - split; [done|]. destruct (Z.leb_spec (expires_at l) now); [by right; left|].
    right; right. repeat split; try done. lia.
Qed.

Section lease_demo.
#[local] Existing Instance ZTime.time.
#[local] Existing Instance ZTime.time_laws.

Definition demo_leases : IdentityDb :=
  mkDb ∅ (<["lease-2" := row_of_lease demo_child]>
           (<["lease-1" := row_of_lease demo_lease]> ∅)) [].

Lemma demo_leases_acyclic : ~ tc (child (leases demo_leases)) "lease-1" "lease-1".
Proof.
  intros (p & row & Hrow & Hp)%tc_last. vm_compute in Hrow. injection Hrow as <-.
  discriminate Hp.
Qed.

Lemma revocation_cascades_witness :
  exists ids db',
    revoke_cascading 2 demo_leases "lease-1" = Some (Ok (ids, db'))
    /\ ids = ["lease-1"; "lease-2"].
Proof.
  destruct (revocation_cascades demo_leases "lease-1" 2) as (ids & db' & Hrun & _).
  - vm_compute. eauto.
  - apply demo_leases_acyclic.
  - vm_compute. lia.
  - exists ids, db'. split; [exact Hrun|].
    vm_compute in Hrun. injection Hrun as <- _. reflexivity.
Defined.

Definition demo_ops : list lease_op :=
  [OpConsume "lease-2" 20; OpConsume "lease-2" 30; OpRevoke "lease-1"; OpConsume "lease-1" 40].

Lemma uses_never_overspent_witness :
  ((run_ops "lease-2" demo_leases demo_ops).1 <= Z.to_nat 1)%nat
  /\ uses_of (run_ops "lease-2" demo_leases demo_ops).2 "lease-2"
     = Some (1 - Z.of_nat (run_ops "lease-2" demo_leases demo_ops).1).
Proof.
  apply (uses_never_overspent demo_leases demo_ops "lease-2" 1);
    vm_compute; reflexivity.
Defined.

Lemma consume_use_spec_witness :
  match consume_use demo_leases "lease-2" 20 with
  | (Ok l', db') => remaining_uses l' = 0
  | (Err e, db') => False
  end.
Proof.
  assert (store_ok (leases demo_leases)) as Hok.
  { apply map_Forall_insert_2; [apply (row_of_lease_ok demo_child)|].
    apply map_Forall_insert_2; [apply (row_of_lease_ok demo_lease)|]. apply map_Forall_empty. }
  pose proof (consume_use_spec demo_leases "lease-2" 20 (row_of_lease demo_child) Hok
                ltac:(vm_compute; reflexivity) I I ltac:(vm_compute; discriminate)) as Hspec.
  destruct (consume_use demo_leases "lease-2" 20) as [[l'|e] db'].
  - destruct Hspec as (_ & _ & _ & -> & _). reflexivity.
  - destruct Hspec as (_ & [[_ Hr]|[(_ & _ & Hr)|(_ & _ & _ & Hr)]]); vm_compute in Hr;
      try discriminate Hr. by destruct Hr.
Defined.
End lease_demo.

Close Scope Z_scope.
