(* ===== verification/Delegation.v ===== *)
(** Audited delegation: [kernel/identity/src/delegation.rs].

    [delegate] composes the registry checks, the lease algebra, the lease store
    and the audit table.  A refusal leaves the database as it was; a success
    issues the attenuated lease and appends one audit record. *)

From S2P Require Import Prelude Json Budget Capability Types IdentityDb Registry LeaseStore.

Section delegation.
Context `{!TimeText}.

Definition delegate (db : IdentityDb) (fresh delegator parent_id delegatee : string)
    (constraints : list (string * Constraint)) (uses : Z) (expires : DateTime)
    (budget : ResourceBudget) (now : DateTime)
    : IdentityResult (CapabilityLease * IdentityDb) :=
  delegator_known ← exists_principal db delegator;
  _ ← fail_if (negb delegator_known) (UnknownPrincipal delegator);
  delegatee_known ← exists_principal db delegatee;
  _ ← fail_if (negb delegatee_known)
        (DelegationRejected ("delegatee `" +:+ delegatee +:+ "` is not a registered principal"));
  descends ← is_self_or_descendant db delegatee delegator;
  _ ← fail_if (negb descends)
        (DelegationRejected ("delegatee `" +:+ delegatee
           +:+ "` is not the delegator or one of its descendants"));
  parent ← get_lease db parent_id;
  _ ← fail_if (negb (bool_decide (lease_principal parent = delegator)))
        (DelegationRejected "parent lease is not held by the delegator");
  child ← map_err Attenuation
            (attenuate parent fresh delegatee constraints uses expires budget now);
  db1 ← issue db child;
  let record := mkDelegation parent_id (lease_id child) delegator delegatee now in
  Ok (child, with_delegations db1 (delegations db1 ++ [record])).

(** Oldest first: the table is in insertion order. *)
Definition audit_log (db : IdentityDb) : IdentityResult (list DelegationRecord) :=
  Ok (delegations db).

Lemma delegate_Ok db fresh delegator pid delegatee cs uses expires budget now child db' :
  delegate db fresh delegator pid delegatee cs uses expires budget now = Ok (child, db') ->
  exists parent,
    get_lease db pid = Ok parent /\ lease_principal parent = delegator
    /\ is_self_or_descendant db delegatee delegator = Ok true
    /\ attenuate parent fresh delegatee cs uses expires budget now = Ok child
    /\ principals db' = principals db
    /\ leases db' = <[fresh := row_of_lease child]> (leases db)
    /\ delegations db' = delegations db ++ [mkDelegation pid fresh delegator delegatee now].
Proof.
  unfold delegate. intros Hd. inv_result. bool_hyps. subst.
  match goal with Hm : map_err _ _ = Ok _ |- _ => apply map_err_Ok in Hm; rename Hm into Hatt end.
  eexists. split; [eassumption|]. split; [done|]. split; [done|]. split; [done|].
  apply attenuate_Ok in Hatt as (_ & _ & _ & _ & _ & _ & ->).
  unfold issue in *. inv_result. done.
Qed.
End delegation.

(** * Properties *)

(** A successful delegation hands down authority only inside the spawn tree and only
    authority the delegator holds: the delegatee is the delegator or reaches it over
    recorded parents, the parent lease is held by the delegator, the new lease is stored
    as a child of it and no wider in budget, expiry and uses, the audit log grew by
    exactly this delegation, and no other lease or principal changed. *)
Theorem delegation_is_audited_attenuation `{!TimeText} (db db' : IdentityDb)
    fresh delegator pid delegatee cs uses expires budget now child :
  rtc registry_step db_empty (mkDb (principals db) ∅ []) ->
  size (principals db) <= lineage_limit ->
  store_ok (leases db) ->
  delegate db fresh delegator pid delegatee cs uses expires budget now = Ok (child, db') ->
  rtc (parent_of db) delegatee delegator
  /\ (exists parent, get_lease db pid = Ok parent
        /\ lease_principal parent = delegator
        /\ fits_within (lease_budget child) (lease_budget parent) = true
        /\ (expires_at child <= expires_at parent)%Z
        /\ (remaining_uses child <= remaining_uses parent)%Z)
  /\ parent_lease child = Some pid
  /\ get_lease db' fresh = Ok child
  /\ audit_log db' = Ok (delegations db ++ [mkDelegation pid fresh delegator delegatee now])
  /\ (forall id, id <> fresh -> get_lease db' id = get_lease db id)
  /\ principals db' = principals db.
Proof.
  intros Hreach Hsize Hok Hdel.
  assert (is_Some (principals db !! delegatee)) as Hknown.
  { unfold delegate in Hdel. inv_result. bool_hyps. subst.
    unfold exists_principal, get_principal in *.
    destruct (principals db !! delegatee); [eauto|done]. }
  apply delegate_Ok in Hdel as (parent & Hget & Hheld & Hdesc & Hatt & Hp & Hl & Hlog).
  split; [|split; [|split; [|split; [|split; [|split]]]]]; [..|done].
  - destruct (is_self_or_descendant_spec (mkDb (principals db) ∅ []) delegatee delegator)
      as (b & Hb & Hiff); [by apply registry_reachable_wf|done|done|].
    rewrite (is_self_or_descendant_ext _ db) in Hb by done.
    apply Hiff. congruence.
  - exists parent. apply attenuate_Ok in Hatt as (_ & _ & ? & ? & ? & _ & ->). done.
  - apply attenuate_Ok in Hatt as (_ & _ & _ & _ & _ & _ & ->). cbn. f_equal.
    unfold get_lease in Hget. destruct (leases db !! pid) as [row|] eqn:E; [|done].
    inv_result. by destruct (Hok _ _ E) as (-> & _).
  - unfold get_lease. by rewrite Hl, lookup_insert_eq.
  - unfold audit_log. by rewrite Hlog.
  - intros id Hne. unfold get_lease. by rewrite Hl, lookup_insert_ne by done.
Qed.

Section delegation_demo.
#[local] Existing Instance ZTime.time.

Definition demo_full : IdentityDb :=
  mkDb (principals demo_db)
    (<["lease-1" := row_of_lease
         (mkLease "lease-1" "pr-1" "fs.write" [("path", Prefix "src/")] 5 0 1000 None
            step_default None [] false)]> ∅) [].

Lemma delegation_is_audited_attenuation_witness :
  match delegate demo_full "lease-2" "pr-1" "lease-1" "pr-2"
          [("path", Prefix "src/gen/")] 2 500 budget_zero 10 with
  | Ok (child, db') => get_lease db' "lease-2" = Ok child
  | Err _ => False
  end.
Proof.
  destruct (delegate demo_full _ _ _ _ _ _ _ _ _) as [[child db']|e] eqn:E;
    [|vm_compute in E; discriminate E].
  eapply (delegation_is_audited_attenuation demo_full db' "lease-2" "pr-1" "lease-1" "pr-2"
            [("path", Prefix "src/gen/")] 2 500 budget_zero 10 child).
  - exact demo_db_reachable.
  - vm_compute. lia.
  - apply map_Forall_insert_2; [by repeat split|apply map_Forall_empty].
  - exact E.
Defined.
End delegation_demo.
