(* ===== verification/Policy.v ===== *)
(** The policy engine: [kernel/policy/src] ([document.rs], [compiler.rs],
    [engine.rs], [envelope.rs], [error.rs]).

    A policy document is an ordered list of rules plus confinement and
    escalation data; its mutators bump [policy_epoch].  The compiler turns a
    matched rule into a lease and a confinement, the engine decides a request
    by the first matching rule, and an envelope compiles to a set of leases.

    YAML parsing is [serde_yaml]'s and not modelled.  [chrono]'s arithmetic
    panics outside its range: [option] with [None] stands for that panic, and
    the two bounds of [chrono] are the fields of the class [Chrono]. *)

From S2P Require Import Prelude Json Glob Budget Capability Types.

Open Scope Z_scope.

(** * Documents *)

Record PrincipalSelector := mkSelector {
  sel_ids : list string;
  sel_kinds : list PrincipalKind;
  sel_min_trust : option TrustLevel;
  sel_max_trust : option TrustLevel;
}.

Definition selector_matches (self : PrincipalSelector) (principal : Principal) : bool :=
  if negb (bool_decide (sel_ids self = []))
     && negb (bool_decide (principal_id principal ∈ sel_ids self)) then false
  else if negb (bool_decide (sel_kinds self = []))
     && negb (bool_decide (principal_kind principal ∈ sel_kinds self)) then false
  else if opt_bool (sel_min_trust self) (fun m => trust_ltb (principal_trust principal) m) then false
  else if opt_bool (sel_max_trust self) (fun m => trust_ltb m (principal_trust principal)) then false
  else true.

Inductive RuleEffect : Type := Allow | Deny | RequireApproval.

#[export] Instance RuleEffect_eq_dec : EqDecision RuleEffect.
Proof. solve_decision. Defined.

Record PolicyRule := mkRule {
  rule_id : string;
  rule_principals : PrincipalSelector;
  rule_operations : list string;
  rule_effect : RuleEffect;
  rule_constraints : list (string * Constraint);
  max_uses : Z;          (* u32 *)
  ttl_seconds : Z;       (* u64 *)
  rule_budget : option ResourceBudget;
  risk_weight : Z;       (* u32 *)
  note : option string;
}.

Definition matches_operation (self : PolicyRule) (operation : string) : bool :=
  existsb (fun g => glob_match g operation) (rule_operations self).

Record PathPolicy := mkPaths {
  readable_prefixes : list string;
  writable_prefixes : list string;
}.

Record ToolPolicy := mkTools {
  allowed_servers : list string;
  allowed_tools : list string;
}.

Record RequestableScopeSpec := mkSpec {
  spec_operation : string;
  spec_constraints : Value;
  spec_requires_human : bool;
}.

Record EscalationPolicy := mkEscalation {
  allow_requests : bool;
  requestable : list RequestableScopeSpec;
}.

Record PolicyDocument := mkDoc {
  policy_epoch : Z;      (* u64 *)
  rules : list PolicyRule;
  paths : PathPolicy;
  egress_domains : list string;
  tools : ToolPolicy;
  escalation : EscalationPolicy;
}.

(** [PolicyError]; the foreign errors are carried as text. *)
Inductive PolicyError : Type :=
| PYaml (msg : string)
| PInvalid (msg : string)
| GrantRejected (msg : string)
| EnvelopeRejected (msg : string)
| PIo (msg : string)
| PSerde (msg : string).

Abbreviation PolicyResult := (result PolicyError) (only parsing).

Definition policy_error_display (e : PolicyError) : string :=
  match e with
  | PYaml m => "invalid policy yaml: " +:+ m
  | PInvalid m => "invalid policy document: " +:+ m
  | GrantRejected m => "grant rejected: " +:+ m
  | EnvelopeRejected m => "envelope rejected: " +:+ m
  | PIo m => "io error: " +:+ m
  | PSerde m => "serialization error: " +:+ m
  end.

Definition kernel_error_of_policy (e : PolicyError) : KernelError :=
  match e with
  | PIo err => EIo err
  | PSerde err => ESerde err
  | other => EOther (policy_error_display other)
  end.

(** The loop of [PolicyDocument::validate], with the set of ids seen. *)
Fixpoint validate_rules (seen : list string) (rs : list PolicyRule) : PolicyResult () :=
  match rs with
  | [] => Ok tt
  | rule :: rest =>
      if bool_decide (rule_operations rule = []) then
        Err (PInvalid ("rule `" +:+ rule_id rule +:+ "` has no operation globs"))
      else if bool_decide (rule_id rule ∈ seen) then
        Err (PInvalid ("duplicate rule id `" +:+ rule_id rule +:+ "`"))
      else validate_rules (rule_id rule :: seen) rest
  end.

Definition validate (self : PolicyDocument) : PolicyResult () := validate_rules [] (rules self).

(** [self.policy_epoch += 1] on a [u64], in a release build. *)
Definition bump_epoch (self : PolicyDocument) : PolicyDocument :=
  mkDoc ((policy_epoch self + 1) mod 2 ^ 64) (rules self) (paths self)
    (egress_domains self) (tools self) (escalation self).

Definition with_rules (self : PolicyDocument) (rs : list PolicyRule) : PolicyDocument :=
  mkDoc (policy_epoch self) rs (paths self) (egress_domains self) (tools self) (escalation self).

Definition add_rule (self : PolicyDocument) (rule : PolicyRule) : PolicyResult PolicyDocument :=
  if existsb (fun r => bool_decide (rule_id r = rule_id rule)) (rules self) then
    Err (PInvalid ("duplicate rule id `" +:+ rule_id rule +:+ "`"))
  else Ok (bump_epoch (with_rules self (rules self ++ [rule]))).

Definition remove_rule (self : PolicyDocument) (id : string) : bool * PolicyDocument :=
  let rs := List.filter (fun r => negb (bool_decide (rule_id r = id))) (rules self) in
  let self' := with_rules self rs in
  let removed := negb (bool_decide (length rs = length (rules self))) in
  (removed, if removed then bump_epoch self' else self').

Definition set_paths (self : PolicyDocument) (p : PathPolicy) : PolicyDocument :=
  bump_epoch (mkDoc (policy_epoch self) (rules self) p (egress_domains self)
                (tools self) (escalation self)).

Definition set_egress_domains (self : PolicyDocument) (domains : list string) : PolicyDocument :=
  bump_epoch (mkDoc (policy_epoch self) (rules self) (paths self) domains
                (tools self) (escalation self)).

Definition set_escalation (self : PolicyDocument) (e : EscalationPolicy) : PolicyDocument :=
  bump_epoch (mkDoc (policy_epoch self) (rules self) (paths self) (egress_domains self)
                (tools self) e).

Definition egress_allows (self : PolicyDocument) (domain : string) : bool :=
  existsb (fun g => glob_match g domain) (egress_domains self).

(** * Time arithmetic of [chrono] *)

Definition nanos_per_second : Z := 1000000000.

Class Chrono := {
  max_duration_seconds : Z;
  max_datetime : DateTime;
}.

Section policy.
Context `{!Chrono}.

(** [now + Duration::seconds(i64::try_from(s).unwrap_or(i64::MAX))]; [None]
    is the panic of either operation. *)
Definition datetime_plus_seconds (now : DateTime) (s : Z) : option DateTime :=
  let secs := if s <=? i64_max then s else i64_max in
  if max_duration_seconds <? secs then None
  else
    let t := now + secs * nanos_per_second in
    if max_datetime <? t then None else Some t.

(** * Compiler *)

Inductive SyscallProfile : Type := SysStandard | SysRestricted | SysNetworkless.

Record CompiledConfinement := mkConfinement {
  conf_writable_prefixes : list string;
  conf_readable_prefixes : list string;
  conf_egress_domains : list string;
  env_scrub : bool;
  syscall_profile : SyscallProfile;
  conf_risk_weight : Z;  (* u32 *)
}.

Record CompiledGrant := mkGrant {
  grant_lease : CapabilityLease;
  grant_confinement : CompiledConfinement;
}.

Definition compile_confinement (doc : PolicyDocument) (principal : Principal)
    : CompiledConfinement :=
  let egress :=
    if trust_leb (principal_trust principal) Quarantined then [] else egress_domains doc in
  let profile :=
    if bool_decide (egress = []) then SysNetworkless
    else if trust_ltb (principal_trust principal) Standard then SysRestricted
    else SysStandard in
  {| conf_writable_prefixes := writable_prefixes (paths doc);
     conf_readable_prefixes := readable_prefixes (paths doc);
     conf_egress_domains := egress;
     env_scrub := trust_ltb (principal_trust principal) Elevated;
     syscall_profile := profile;
     conf_risk_weight := 0 |}.

(** The loop over [extra_constraints]: [parent] is [rule.constraints]. *)
Fixpoint merge_extra (parent acc extra : list (string * Constraint))
    : PolicyResult (list (string * Constraint)) :=
  match extra with
  | [] => Ok acc
  | (param, c) :: rest =>
      match im_get param parent with
      | Some pc =>
          if negb (narrows c pc) then
            Err (GrantRejected
                   ("extra constraint on `" +:+ param +:+ "` widens the rule constraint"))
          else merge_extra parent (im_insert param c acc) rest
      | None => merge_extra parent (im_insert param c acc) rest
      end
  end.

Definition grant_budget (rule : PolicyRule) : ResourceBudget :=
  let b := default step_default (rule_budget rule) in
  mkBudget (cpu_ms b) (memory_bytes b) (network_bytes b) (tokens b) (cost_micro_usd b)
    (Z.max (risk_units b) (risk_weight rule)).

(** [fresh] is the id [LeaseId::generate] returns. *)
Definition compile_grant (fresh : string) (doc : PolicyDocument) (principal : Principal)
    (operation : Operation) (rule : PolicyRule) (extra_constraints : list (string * Constraint))
    (branch : option string) (now : DateTime) : option (PolicyResult CompiledGrant) :=
  if bool_decide (rule_effect rule = Deny) then
    Some (Err (GrantRejected ("rule `" +:+ rule_id rule +:+
                 "` is a deny rule and cannot be compiled into a grant")))
  else if negb (matches_operation rule operation) then
    Some (Err (GrantRejected ("rule `" +:+ rule_id rule +:+ "` does not cover operation `"
                 +:+ operation +:+ "`")))
  else
    match merge_extra (rule_constraints rule) (rule_constraints rule) extra_constraints with
    | Err e => Some (Err e)
    | Ok constraints =>
        match datetime_plus_seconds now (ttl_seconds rule) with
        | None => None
        | Some expires =>
            let lease :=
              {| lease_id := fresh; lease_principal := principal_id principal;
                 lease_operation := operation; lease_constraints := constraints;
                 remaining_uses := max_uses rule; issued_at := now; expires_at := expires;
                 bound_branch := branch; lease_budget := grant_budget rule;
                 parent_lease := None; lease_preconditions := []; revoked := false |} in
            let c := compile_confinement doc principal in
            let confinement :=
              mkConfinement (conf_writable_prefixes c) (conf_readable_prefixes c)
                (conf_egress_domains c) (env_scrub c) (syscall_profile c) (risk_weight rule) in
            Some (Ok (mkGrant lease confinement))
        end
    end.

(** * Engine *)

Inductive PolicyDecision : Type :=
| DAllow (rule : string) (grant : CompiledGrant)
| DRequireApproval (rule : string) (operation : Operation) (constraints : Value) (epoch : Z)
| DDeny (denial : Denial).

(** The inner loop over one allow rule's globs. *)
Fixpoint push_alternatives (attempted : Operation) (globs : list string) (out : list Operation)
    : list Operation :=
  match globs with
  | [] => out
  | glob :: rest =>
      push_alternatives attempted rest
        (if negb (bool_decide (glob = attempted)) && negb (bool_decide (glob ∈ out))
         then out ++ [glob] else out)
  end.

Definition engine_safe_alternatives (doc : PolicyDocument) (principal : Principal)
    (attempted : Operation) : list Operation :=
  fold_left
    (fun out rule =>
       if negb (bool_decide (rule_effect rule = Allow))
          || negb (selector_matches (rule_principals rule) principal)
       then out else push_alternatives attempted (rule_operations rule) out)
    (rules doc) [].

Definition to_scope (s : RequestableScopeSpec) : RequestableScope :=
  mkScope (spec_operation s) (spec_constraints s) (spec_requires_human s).

Definition engine_requestable_scopes (doc : PolicyDocument) (attempted : Operation)
    : list RequestableScope :=
  if negb (allow_requests (escalation doc)) then []
  else
    let matching :=
      map to_scope
        (List.filter (fun s => glob_match (spec_operation s) attempted
                               || glob_match attempted (spec_operation s))
           (requestable (escalation doc))) in
    match matching with
    | [] => map to_scope (requestable (escalation doc))
    | _ => matching
    end.

Definition deny (doc : PolicyDocument) (principal : Principal) (operation : Operation)
    (code : DenialCode) (reason : string) : PolicyDecision :=
  DDeny (redact_for
    {| denial_code := code; attempted_operation := operation; denial_reason := reason;
       safe_alternatives := engine_safe_alternatives doc principal operation;
       requestable_scopes := engine_requestable_scopes doc operation;
       escalation_allowed := allow_requests (escalation doc) |}
    (principal_trust principal)).

(** The derived [Serialize] of a constraint, and of the constraint map into
    [serde_json]'s sorted map. *)
Definition constraint_to_value (c : Constraint) : Value :=
  match c with
  | Equals v => Object [("kind", Str "equals"); ("value", v)]
  | OneOf vs => Object [("kind", Str "one_of"); ("values", Array vs)]
  | CGlob p => Object [("kind", Str "glob"); ("pattern", Str p)]
  | Prefix p => Object [("kind", Str "prefix"); ("prefix", Str p)]
  | Max m =>
      Object [("kind", Str "max");
              ("max", if f64_finite m then Number (Float m) else Null)]
  | Forbidden => Object [("kind", Str "forbidden")]
  end.

Definition constraints_to_value (cs : list (string * Constraint)) : Value :=
  Object (bt_iter (list_to_map (map (fun kc => (kc.1, constraint_to_value kc.2)) cs))).

(** One rule of the scan: [None] is [continue]; the inner [option] is a
    panic. *)
Definition evaluate_rule (fresh : string) (doc : PolicyDocument) (principal : Principal)
    (operation : Operation) (params : Value) (branch : option string) (now : DateTime)
    (rule : PolicyRule) : option (option PolicyDecision) :=
  if negb (selector_matches (rule_principals rule) principal)
     || negb (matches_operation rule operation) then None
  else
    Some match rule_effect rule with
    | Deny =>
        Some (deny doc principal operation PolicyForbidden
                "this operation is explicitly forbidden for this principal")
    | RequireApproval =>
        Some (DRequireApproval (rule_id rule) operation
                (constraints_to_value (rule_constraints rule)) (policy_epoch doc))
    | Allow =>
        match first_violation (rule_constraints rule) params with
        | Some param =>
            Some (deny doc principal operation DConstraintViolated
                    ("parameter `" +:+ param +:+ "` violates the constraint on this operation"))
        | None =>
            match compile_grant fresh doc principal operation rule [] branch now with
            | None => None
            | Some (Ok grant) => Some (DAllow (rule_id rule) grant)
            | Some (Err _) =>
                Some (deny doc principal operation PolicyForbidden
                        "the matching grant could not be compiled")
            end
        end
    end.

Fixpoint evaluate_rules (fresh : string) (doc : PolicyDocument) (principal : Principal)
    (operation : Operation) (params : Value) (branch : option string) (now : DateTime)
    (rs : list PolicyRule) : option PolicyDecision :=
  match rs with
  | [] =>
      Some (deny doc principal operation CapabilityDenied
              "no policy rule grants this operation to this principal")
  | rule :: rest =>
      match evaluate_rule fresh doc principal operation params branch now rule with
      | Some d => d
      | None => evaluate_rules fresh doc principal operation params branch now rest
      end
  end.

Definition evaluate (fresh : string) (doc : PolicyDocument) (principal : Principal)
    (operation : Operation) (params : Value) (branch : option string) (now : DateTime)
    : option PolicyDecision :=
  evaluate_rules fresh doc principal operation params branch now (rules doc).

(** * Envelopes *)

Record EnvelopeGrant := mkEnvelopeGrant {
  eg_operation : string;
  eg_constraints : list (string * Constraint);
  eg_max_uses : Z;              (* u32 *)
  eg_ttl_seconds : option Z;    (* u64 *)
  eg_budget : option ResourceBudget;
}.

Record AutonomyEnvelope := mkAutonomy {
  env_name : string;
  env_allow : list EnvelopeGrant;
  env_forbid : list string;
  env_ttl_seconds : Z;          (* u64 *)
  env_budget : option ResourceBudget;
}.

Fixpoint validate_grants (forbid : list string) (grants : list EnvelopeGrant)
    : PolicyResult () :=
  match grants with
  | [] => Ok tt
  | grant :: rest =>
      if str_contains "*" (eg_operation grant) then
        Err (EnvelopeRejected ("allow entry `" +:+ eg_operation grant +:+
               "` uses a glob; envelopes grant concrete operations"))
      else
        match List.find (fun f => glob_match f (eg_operation grant)) forbid with
        | Some forbidden =>
            Err (EnvelopeRejected ("allow entry `" +:+ eg_operation grant +:+
                   "` collides with forbid pattern `" +:+ forbidden +:+ "`"))
        | None => validate_grants forbid rest
        end
  end.

Definition envelope_validate (self : AutonomyEnvelope) : PolicyResult () :=
  if bool_decide (length (env_allow self) = 0%nat) then
    Err (EnvelopeRejected "envelope allows nothing")
  else validate_grants (env_forbid self) (env_allow self).

(** [fresh i] is the id generated for the [i]-th entry. *)
Fixpoint grant_leases (fresh : nat -> string) (self : AutonomyEnvelope) (principal : string)
    (now : DateTime) (default_budget : ResourceBudget) (i : nat) (grants : list EnvelopeGrant)
    : option (list CapabilityLease) :=
  match grants with
  | [] => Some []
  | grant :: rest =>
      expires ← datetime_plus_seconds now
                  (default (env_ttl_seconds self) (eg_ttl_seconds grant));
      leases ← grant_leases fresh self principal now default_budget (S i) rest;
      Some ({| lease_id := fresh i; lease_principal := principal;
               lease_operation := eg_operation grant;
               lease_constraints := eg_constraints grant;
               remaining_uses := eg_max_uses grant; issued_at := now;
               expires_at := expires; bound_branch := None;
               lease_budget := default default_budget (eg_budget grant);
               parent_lease := None; lease_preconditions := []; revoked := false |}
            :: leases)
  end.

Definition into_leases (fresh : nat -> string) (self : AutonomyEnvelope) (principal : string)
    (now : DateTime) : option (PolicyResult (list CapabilityLease)) :=
  match envelope_validate self with
  | Err e => Some (Err e)
  | Ok _ =>
      Ok <$> grant_leases fresh self principal now
               (default step_default (env_budget self)) 0 (env_allow self)
  end.
End policy.

(** * Lemmas *)

Definition rule_applies (principal : Principal) (operation : Operation) (rule : PolicyRule)
    : bool :=
  selector_matches (rule_principals rule) principal && matches_operation rule operation.

Section engine_lemmas.
Context `{!Chrono}.
Implicit Types (doc : PolicyDocument) (p : Principal) (rule : PolicyRule).

Lemma evaluate_rule_skip fresh doc p op ps br now rule :
  rule_applies p op rule = false ->
  evaluate_rule fresh doc p op ps br now rule = None.
Proof.
  unfold rule_applies, evaluate_rule. intros Hna. by rewrite <- negb_andb, Hna.
Qed.

Lemma evaluate_rules_skip fresh doc p op ps br now pre rs :
  Forall (fun r => rule_applies p op r = false) pre ->
  evaluate_rules fresh doc p op ps br now (pre ++ rs)
  = evaluate_rules fresh doc p op ps br now rs.
Proof.
  induction 1 as [|r pre Hr _ IH]; cbn; [done|]. by rewrite evaluate_rule_skip.
Qed.

Lemma deny_code doc p op code reason :
  exists d, deny doc p op code reason = DDeny d /\ denial_code d = code
            /\ attempted_operation d = op.
Proof. eexists. split; [done|]. unfold redact_for. by case_match. Qed.

(** Without extra constraints, an applicable rule that is not a deny rule
    compiles unless the time arithmetic panics. *)
Lemma compile_grant_plain fresh doc p op rule br now :
  matches_operation rule op = true -> rule_effect rule <> Deny ->
  compile_grant fresh doc p op rule [] br now =
    (fun expires =>
       let c := compile_confinement doc p in
       Ok (mkGrant
             (mkLease fresh (principal_id p) op (rule_constraints rule) (max_uses rule) now
                expires br (grant_budget rule) None [] false)
             (mkConfinement (conf_writable_prefixes c) (conf_readable_prefixes c)
                (conf_egress_domains c) (env_scrub c) (syscall_profile c) (risk_weight rule))))
    <$> datetime_plus_seconds now (ttl_seconds rule).
Proof.
  intros Hop Heff. unfold compile_grant. rewrite bool_decide_false, Hop by done. cbn.
  by destruct (datetime_plus_seconds now (ttl_seconds rule)).
Qed.

(** The rule behind an allow decision. *)
Lemma evaluate_allow fresh doc p op ps br now rid g :
  evaluate fresh doc p op ps br now = Some (DAllow rid g) ->
  exists pre rule post,
    rules doc = pre ++ rule :: post
    /\ Forall (fun r => rule_applies p op r = false) pre
    /\ rule_applies p op rule = true /\ rule_effect rule = Allow /\ rid = rule_id rule
    /\ Forall (fun kc => allows kc.2 (value_get kc.1 ps) = true) (rule_constraints rule)
    /\ compile_grant fresh doc p op rule [] br now = Some (Ok g).
Proof.
  unfold evaluate. generalize (rules doc) as rs.
  induction rs as [|rule rs IH]; cbn; [done|].
  destruct (rule_applies p op rule) eqn:Happ.
  - unfold evaluate_rule. pose proof Happ as Ha. unfold rule_applies in Ha.
    apply andb_true_iff in Ha as [-> ->]. cbn.
    destruct (rule_effect rule) eqn:Heff; [|done..].
    destruct (first_violation _ _) eqn:Hv; [done|].
    apply first_violation_None in Hv.
    destruct (compile_grant _ _ _ _ _ _ _ _) as [[g'|]|] eqn:Hg; [|done..].
    intros [= <- <-]. exists [], rule, rs. repeat split; auto.
  - rewrite evaluate_rule_skip by done. intros Hev.
    destruct (IH Hev) as (pre & rule' & post & -> & Hpre & Hrest).
    exists (rule :: pre), rule', post. repeat split; [by constructor|apply Hrest..].
Qed.

(** What the merged constraints allow, each rule constraint allows. *)
Definition refines_constraints (cs parent : list (string * Constraint)) : Prop :=
  forall k c, (k, c) ∈ parent ->
    exists c', im_get k cs = Some c' /\ forall v, allows c' v = true -> allows c v = true.

Lemma refines_constraints_refl cs : NoDup cs.*1 -> refines_constraints cs cs.
Proof. intros Hnd k c Hin. exists c. by split; [apply im_elem_get|]. Qed.

Lemma merge_extra_refines parent extra acc cs :
  NoDup parent.*1 ->
  Forall (fun kc => kc.2 = Forbidden -> im_get kc.1 parent = None
                    \/ im_get kc.1 parent = Some Forbidden) extra ->
  refines_constraints acc parent ->
  merge_extra parent acc extra = Ok cs -> refines_constraints cs parent.
Proof.
  intros Hnd. revert acc. induction extra as [|[k c] extra IH]; cbn; intros acc.
  { by intros _ ? [= <-]. }
  intros [Hk Hextra]%Forall_cons Hacc Hm. cbn in Hk.
  assert (merge_extra parent (im_insert k c acc) extra = Ok cs
          /\ forall pc, im_get k parent = Some pc -> narrows c pc = true) as [Hm' Hn].
  { destruct (im_get k parent) as [pc|] eqn:E; [|by split].
    destruct (narrows c pc) eqn:En; [|done]. split; [done|]. by intros ? [= <-]. }
  apply (IH (im_insert k c acc)); [done| |done]. intros k' c' Hin.
  destruct (decide (k = k')) as [<-|Hne].
  - exists c. split; [apply im_get_insert_eq|]. intros v Hv.
    pose proof (im_elem_get _ _ _ Hnd Hin) as Hget.
    destruct (decide (c = Forbidden)) as [->|Hcf].
    + destruct (Hk eq_refl) as [|]; congruence.
    + eapply narrows_allows; eauto.
  - rewrite im_get_insert_ne by done. by apply Hacc.
Qed.

Lemma refines_constraints_Forall cs parent ps :
  refines_constraints cs parent ->
  Forall (fun kc => allows kc.2 (value_get kc.1 ps) = true) cs ->
  Forall (fun kc => allows kc.2 (value_get kc.1 ps) = true) parent.
Proof.
  rewrite !Forall_forall. intros Href Hcs [k c] Hin. cbn.
  destruct (Href k c Hin) as (c' & Hget & Hall).
  apply Hall. apply (Hcs _ (im_get_elem _ _ _ Hget)).
Qed.

Lemma validate_grants_Ok forbid grants :
  is_ok (validate_grants forbid grants) = true <->
  Forall (fun g => str_contains "*" (eg_operation g) = false
                   /\ Forall (fun f => glob_match f (eg_operation g) = false) forbid) grants.
Proof.
  induction grants as [|g grants IH]; cbn; [by split|].
  rewrite Forall_cons. destruct (str_contains "*" (eg_operation g)); cbn; [naive_solver|].
  destruct (List.find _ forbid) as [f|] eqn:Ef; cbn.
  - apply find_some in Ef as [Hin Hm]. apply list_elem_of_In in Hin.
    split; [done|]. intros [[_ Hf] _]. rewrite Forall_forall in Hf.
    specialize (Hf f Hin). congruence.
  - rewrite IH. split; [|tauto]. intros Hr. split; [|done]. split; [done|].
    rewrite Forall_forall. intros f Hin. apply (find_none _ _ Ef). by apply list_elem_of_In.
Qed.

Definition envelope_acceptable (env : AutonomyEnvelope) : Prop :=
  env_allow env <> []
  /\ Forall (fun g => str_contains "*" (eg_operation g) = false
                      /\ Forall (fun f => glob_match f (eg_operation g) = false) (env_forbid env))
       (env_allow env).

Lemma envelope_validate_Ok env :
  is_ok (envelope_validate env) = true <-> envelope_acceptable env.
Proof.
  unfold envelope_validate, envelope_acceptable. rewrite <- validate_grants_Ok.
  case_bool_decide as Hlen.
  - apply nil_length_inv in Hlen. split; [done|]. by intros [? _].
  - split; [|tauto]. intros Hok. split; [|done]. by intros Heq; rewrite Heq in Hlen.
Qed.

(** [Forall2] with membership of the left element at hand. *)
Lemma Forall2_impl_l' {A B} (P Q : A -> B -> Prop) l k :
  Forall2 P l k -> (forall x y, x ∈ l -> P x y -> Q x y) -> Forall2 Q l k.
Proof.
  induction 1 as [|x y l k Hxy _ IH]; intros Himp; constructor.
  - apply Himp; [set_solver|done].
  - apply IH. intros. apply Himp; [set_solver|done].
Qed.

Lemma grant_leases_Forall2 fresh self pr now db i grants ls :
  grant_leases fresh self pr now db i grants = Some ls ->
  Forall2 (fun g l =>
    lease_principal l = pr /\ lease_operation l = eg_operation g
    /\ lease_constraints l = eg_constraints g /\ remaining_uses l = eg_max_uses g
    /\ datetime_plus_seconds now (default (env_ttl_seconds self) (eg_ttl_seconds g))
       = Some (expires_at l)
    /\ lease_budget l = default db (eg_budget g) /\ revoked l = false
    /\ bound_branch l = None) grants ls.
Proof.
  revert i ls. induction grants as [|g grants IH]; cbn; intros i ls.
  { intros [= <-]. constructor. }
  intros (t & Ht & (ls' & Hls & Heq)%bind_Some)%bind_Some. simplify_eq.
  constructor; [|by eapply IH]. cbn. repeat split; done.
Qed.
End engine_lemmas.

(** * Mutations and the epoch *)

Inductive doc_op : Type :=
| OpAddRule (rule : PolicyRule)
| OpRemoveRule (id : string)
| OpSetPaths (p : PathPolicy)
| OpSetEgress (domains : list string)
| OpSetEscalation (e : EscalationPolicy).

Definition run_doc_op (doc : PolicyDocument) (op : doc_op) : PolicyDocument :=
  match op with
  | OpAddRule rule => match add_rule doc rule with Ok d => d | Err _ => doc end
  | OpRemoveRule id => (remove_rule doc id).2
  | OpSetPaths p => set_paths doc p
  | OpSetEgress d => set_egress_domains doc d
  | OpSetEscalation e => set_escalation doc e
  end.

Section epoch_lemmas.

Lemma filter_length_id {A} (f : A -> bool) l :
  length (List.filter f l) = length l -> List.filter f l = l.
Proof.
  induction l as [|x l IH]; cbn; [done|]. pose proof (filter_length_le f l).
  destruct (f x); cbn; intros Hlen; [by rewrite IH by lia|lia].
Qed.

Lemma with_rules_id doc : with_rules doc (rules doc) = doc.
Proof. by destruct doc. Qed.

(** A mutator leaves the document alone or advances its epoch. *)
Lemma run_doc_op_epoch doc op :
  run_doc_op doc op = doc
  \/ policy_epoch (run_doc_op doc op) = (policy_epoch doc + 1) mod 2 ^ 64.
Proof.
  destruct op; cbn; try (by right).
  - unfold add_rule. destruct (existsb _ _); [by left|by right].
  - case_bool_decide as Hlen; cbn; [|by right]. left.
    rewrite (filter_length_id _ _ Hlen). apply with_rules_id.
Qed.

Lemma run_doc_ops_epoch ops doc :
  0 <= policy_epoch doc < 2 ^ 64 ->
  exists k, 0 <= k <= Z.of_nat (length ops)
    /\ policy_epoch (fold_left run_doc_op ops doc) = (policy_epoch doc + k) mod 2 ^ 64
    /\ (k = 0 -> fold_left run_doc_op ops doc = doc).
Proof.
  revert doc. induction ops as [|op ops IH]; intros doc He.
  - exists 0. cbn [fold_left length]. rewrite Z.add_0_r, Z.mod_small by done.
    repeat split; try done; lia.
  - cbn [fold_left length]. destruct (run_doc_op_epoch doc op) as [Heq|Heq].
    + destruct (IH doc He) as (k & Hk & Hep & Hid). rewrite Heq.
      exists k. repeat split; [lia|lia|done|done].
    + destruct (IH (run_doc_op doc op)) as (k & Hk & Hep & Hid).
      { rewrite Heq. apply Z.mod_pos_bound. lia. }
      exists (k + 1). repeat split; [lia|lia| |intros; lia].
      rewrite Hep, Heq, Zplus_mod_idemp_l. f_equal. lia.
Qed.
End epoch_lemmas.

(** * Properties *)

(** The first applicable rule decides, and the default is to deny. When the first
    rule whose selector and globs match is a deny rule the decision is [PolicyForbidden];
    an approval rule asks for approval at the current epoch; an allow rule denies with
    [ConstraintViolated] exactly when a parameter violates one of its constraints and
    otherwise grants under that rule's id, unless the time arithmetic panics (the
    "could not be compiled" denial is never reached). Without an applicable rule the
    decision is a [CapabilityDenied] denial. *)
Theorem first_match_decides `{!Chrono} fresh doc p op ps br now :
  (forall pre rule post,
     rules doc = pre ++ rule :: post ->
     Forall (fun r => rule_applies p op r = false) pre ->
     rule_applies p op rule = true ->
     match rule_effect rule with
     | Deny => exists d, evaluate fresh doc p op ps br now = Some (DDeny d)
                         /\ denial_code d = PolicyForbidden
     | RequireApproval =>
         evaluate fresh doc p op ps br now
         = Some (DRequireApproval (rule_id rule) op (constraints_to_value (rule_constraints rule))
                   (policy_epoch doc))
     | Allow =>
         (Forall (fun kc => allows kc.2 (value_get kc.1 ps) = true) (rule_constraints rule) ->
          match datetime_plus_seconds now (ttl_seconds rule) with
          | Some _ => exists g, evaluate fresh doc p op ps br now = Some (DAllow (rule_id rule) g)
          | None => evaluate fresh doc p op ps br now = None
          end)
         /\ (~ Forall (fun kc => allows kc.2 (value_get kc.1 ps) = true) (rule_constraints rule) ->
             exists d, evaluate fresh doc p op ps br now = Some (DDeny d)
                       /\ denial_code d = DConstraintViolated)
     end)
  /\ (Forall (fun r => rule_applies p op r = false) (rules doc) ->
      exists d, evaluate fresh doc p op ps br now = Some (DDeny d)
                /\ denial_code d = CapabilityDenied).
Proof.
  unfold evaluate. split.
  - intros pre rule post -> Hpre Happ. rewrite evaluate_rules_skip by done. cbn.
    unfold evaluate_rule. unfold rule_applies in Happ.
    apply andb_true_iff in Happ as [Hsel Hop]. rewrite Hsel, Hop. cbn.
    destruct (rule_effect rule) eqn:Heff; [|eexists; split; [done|]; unfold redact_for; by case_match|done].
    rewrite <- first_violation_None.
    destruct (first_violation _ _) as [k|]; (split; [intros Hv|intros Hnv]); try done.
    + eexists. split; [done|]. unfold redact_for. by case_match.
    + rewrite compile_grant_plain by congruence.
      destruct (datetime_plus_seconds now (ttl_seconds rule)); cbn; [by eexists|done].
  - intros Hno. rewrite <- (app_nil_r (rules doc)), evaluate_rules_skip by done.
    eexists. split; [done|]. unfold redact_for. by case_match.
Qed.

(** An allow decision's lease carries exactly the authority of the deciding rule:
    it authorizes the requested parameters while it is alive, and in general it
    authorizes an invocation iff the holder, operation and branch are those requested,
    the lease is unexpired with uses left, and the parameters satisfy every constraint of
    the rule. A quarantined holder gets no egress domain and the networkless profile. *)
Theorem allow_grants_rule_authority `{!Chrono} fresh doc p op ps br now rid g :
  evaluate fresh doc p op ps br now = Some (DAllow rid g) ->
  exists rule, rule ∈ rules doc /\ rule_id rule = rid /\ rule_applies p op rule = true
    /\ (forall pr' op' ps' br' t,
          check (grant_lease g) pr' op' ps' br' t = Ok tt <->
          t < expires_at (grant_lease g) /\ max_uses rule <> 0 /\ pr' = principal_id p /\ op' = op
          /\ match br with Some b => br' = Some b | None => True end
          /\ Forall (fun kc => allows kc.2 (value_get kc.1 ps') = true) (rule_constraints rule))
    /\ (forall t, t < expires_at (grant_lease g) -> max_uses rule <> 0 ->
                  check (grant_lease g) (principal_id p) op ps br t = Ok tt)
    /\ (principal_trust p = Quarantined ->
        conf_egress_domains (grant_confinement g) = []
        /\ syscall_profile (grant_confinement g) = SysNetworkless).
Proof.
  intros (pre & rule & post & Hrules & _ & Happ & Heff & -> & Hcs & Hg)%evaluate_allow.
  exists rule. split; [rewrite Hrules; set_solver|]. split; [done|]. split; [done|].
  unfold rule_applies in Happ. apply andb_true_iff in Happ as [_ Hop].
  rewrite compile_grant_plain in Hg by congruence.
  apply fmap_Some in Hg as (expires & _ & [= ->]). cbn.
  assert (forall pr' op' ps' br' t,
    check (mkLease fresh (principal_id p) op (rule_constraints rule) (max_uses rule) now
             expires br (grant_budget rule) None [] false) pr' op' ps' br' t = Ok tt <->
    t < expires /\ max_uses rule <> 0 /\ pr' = principal_id p /\ op' = op
    /\ match br with Some b => br' = Some b | None => True end
    /\ Forall (fun kc => allows kc.2 (value_get kc.1 ps') = true) (rule_constraints rule))
    as Hcheck.
  { intros. rewrite check_Ok. unfold authorizes. cbn. intuition congruence. }
  split; [done|]. split.
  - intros t Ht Hu. apply Hcheck. repeat split; try done. by destruct br.
  - intros ->. done.
Qed.

(** Compiling a grant with an approver's extra constraints only narrows: whatever
    invocation the compiled lease authorizes satisfies every constraint of the rule,
    provided no extra constraint replaces a rule constraint by [Forbidden]. *)
Theorem extra_constraints_narrow `{!Chrono} fresh doc p op rule extra br now g pr' op' ps t :
  NoDup (rule_constraints rule).*1 ->
  Forall (fun kc => kc.2 = Forbidden ->
            im_get kc.1 (rule_constraints rule) = None
            \/ im_get kc.1 (rule_constraints rule) = Some Forbidden) extra ->
  compile_grant fresh doc p op rule extra br now = Some (Ok g) ->
  check (grant_lease g) pr' op' ps br t = Ok tt ->
  Forall (fun kc => allows kc.2 (value_get kc.1 ps) = true) (rule_constraints rule)
  /\ pr' = principal_id p /\ op' = op /\ matches_operation rule op = true
  /\ rule_effect rule <> Deny /\ remaining_uses (grant_lease g) = max_uses rule.
Proof.
  intros Hnd Hextra. unfold compile_grant.
  destruct (bool_decide (rule_effect rule = Deny)) eqn:Heff; [done|].
  destruct (matches_operation rule op) eqn:Hop; [|done]. cbn.
  destruct (merge_extra _ _ _) as [cs|] eqn:Hm; [|done].
  destruct (datetime_plus_seconds _ _) as [expires|]; [|done]. intros [= <-].
  rewrite check_Ok. intros (_ & _ & _ & Hpr & Hop' & _ & Hcs). cbn in *. bool_hyps.
  repeat split; try done.
  eapply refines_constraints_Forall; [|done].
  eapply merge_extra_refines; eauto using refines_constraints_refl.
Qed.

(** Approvals pinned to an epoch are invalidated by any policy change: after fewer
    than 2^64 mutator calls, a document that still has its old epoch is the same
    document. *)
Theorem epoch_pins_document (doc : PolicyDocument) (ops : list doc_op) :
  0 <= policy_epoch doc < 2 ^ 64 ->
  Z.of_nat (length ops) < 2 ^ 64 ->
  policy_epoch (fold_left run_doc_op ops doc) = policy_epoch doc ->
  fold_left run_doc_op ops doc = doc.
Proof.
  intros He Hlen Hep. destruct (run_doc_ops_epoch ops doc He) as (k & Hk & Hek & Hid).
  apply Hid. rewrite Hep in Hek.
  pose proof (Z.div_mod (policy_epoch doc + k) (2 ^ 64)). nia.
Qed.

(** An envelope is compiled all or nothing. It is accepted iff it allows something
    and every allow entry is a concrete operation that no forbid pattern matches; then
    (unless the time arithmetic panics) every entry becomes one lease of the principal,
    for that operation, with the entry's constraints and uses. *)
Theorem envelope_forbid_wins `{!Chrono} fresh env pr now :
  ((exists e, into_leases fresh env pr now = Some (Err e)) <-> ~ envelope_acceptable env)
  /\ (forall ls, into_leases fresh env pr now = Some (Ok ls) ->
      Forall2 (fun g l =>
        lease_principal l = pr /\ lease_operation l = eg_operation g
        /\ lease_constraints l = eg_constraints g /\ remaining_uses l = eg_max_uses g
        /\ Forall (fun f => glob_match f (lease_operation l) = false) (env_forbid env))
        (env_allow env) ls).
Proof.
  pose proof (envelope_validate_Ok env) as Hval. unfold into_leases.
  destruct (envelope_validate env) as [u|e]; cbn in Hval.
  - destruct Hval as [Hval _]. specialize (Hval eq_refl). split.
    + split; [|done]. intros [e He]. by destruct (grant_leases _ _ _ _ _ _ _).
    + intros ls (ls' & Hls & [= ->])%fmap_Some. destruct Hval as [_ Hval].
      apply grant_leases_Forall2 in Hls. rewrite Forall_forall in Hval.
      eapply Forall2_impl_l'; [exact Hls|]. intros g l Hg (Hp & Ho & Hc & Hu & _).
      rewrite Ho. repeat split; try done. by apply Hval.
  - split; [|done]. split; [|by eexists]. intros _ Hacc. by apply Hval in Hacc.
Qed.

(** * Witnesses *)

Module PolicyDemo.
#[local] Instance chrono : Chrono :=
  {| max_duration_seconds := 9223372036854775; max_datetime := 8210266876799000000000 |}.

Definition any_principal : PrincipalSelector := mkSelector [] [] None None.

Definition pr_rule : PolicyRule :=
  mkRule "prs" any_principal ["github.create_*"] Allow
    [("repository", Equals (Str "org/repo")); ("head", Prefix "sandbox/")]
    2 600 None 3 None.

Definition deny_rule : PolicyRule :=
  mkRule "no-merge" any_principal ["github.merge*"] Deny [] 1 600 None 0 None.

Definition doc : PolicyDocument :=
  mkDoc 7 [deny_rule; pr_rule] (mkPaths [EmptyString] ["src/"]) ["api.github.com"]
    (mkTools [] []) (mkEscalation false []).

Definition agent : Principal := new_agent "pr-agent" "agent".

Lemma allow_grants_rule_authority_witness :
  exists g,
    evaluate "lease-1" doc agent "github.create_pull_request" demo_params (Some "br-1") 5
    = Some (DAllow "prs" g)
    /\ check (grant_lease g) "pr-agent" "github.create_pull_request" demo_params (Some "br-1") 9
       = Ok tt.
Proof.
  eexists. split; [vm_compute; reflexivity|].
  edestruct (allow_grants_rule_authority "lease-1" doc agent "github.create_pull_request"
               demo_params (Some "br-1") 5) as (rule & Hin & Hid & _ & _ & Hchk & _);
    [vm_compute; reflexivity|].
  apply Hchk; [vm_compute; reflexivity|].
  apply elem_of_cons in Hin as [->|Hin]; [done|].
  by apply list_elem_of_singleton in Hin as ->.
Defined.

Lemma extra_constraints_narrow_witness :
  Forall (fun kc => allows kc.2 (value_get kc.1 demo_params) = true) (rule_constraints pr_rule).
Proof.
  eapply (extra_constraints_narrow "lease-1" doc agent "github.create_pull_request" pr_rule
           [("head", Equals (Str "sandbox/fix-1"))] None 5 _ "pr-agent"
           "github.create_pull_request" demo_params 9).
  - by vm_compute; repeat constructor; rewrite ?elem_of_cons, ?elem_of_nil; intros [].
  - by repeat constructor.
  - vm_compute. reflexivity.
  - vm_compute. reflexivity.
Defined.

Lemma epoch_pins_document_witness :
  fold_left run_doc_op [OpRemoveRule "absent"; OpAddRule pr_rule] doc = doc.
Proof.
  apply epoch_pins_document; [split; vm_compute; congruence|vm_compute; reflexivity|].
  vm_compute. reflexivity.
Defined.

Example change_bumps_epoch :
  policy_epoch (fold_left run_doc_op [OpRemoveRule "prs"; OpSetEgress []] doc) = 9.
Proof. reflexivity. Qed.
End PolicyDemo.
