(* ===== verification/Router.v ===== *)
(** Backend routing: [kernel/scheduler/src/router.rs], with the backend
    interface of [kernel/core/src/traits.rs].

    A backend is an implementation of a trait, so its type is a parameter with
    a [Backend] instance; only [profile] matters for routing.  [route] keeps
    the satisfying backends and takes the first minimum for the order on
    (cost, name), as [Iterator::min_by] does.  The [Debug] text of a refusal is
    a parameter. *)

From S2P Require Import Prelude Json Budget Capability Types.

Open Scope Z_scope.

(** * The backend interface *)

Record ExecutionRequest := mkRequest {
  req_branch : string;
  req_base_state : string;
  req_actor : string;
  req_action : ActionKind;
  req_budget : ResourceBudget;
  req_writable_prefixes : list string;
  req_readable_prefixes : list string;
  req_egress_domains : list string;
}.

Record SyncedFile := mkSynced {
  sf_path : string;
  sf_contents : string;
  sf_mode : Z;             (* u32 *)
}.

Record WorkspaceDelta := mkDelta {
  upserts : list SyncedFile;
  deletes : list string;
}.

Definition delta_is_empty (d : WorkspaceDelta) : bool :=
  bool_decide (length (upserts d) = 0%nat) && bool_decide (length (deletes d) = 0%nat).

Record ExecutionOutcome := mkOutcome {
  exit_code : Z;           (* i32 *)
  out_stdout : string;
  out_stderr : string;
  usage : ResourceBudget;
  paths_written : list string;
  out_replay_class : ReplayClass;
  workspace_delta : option WorkspaceDelta;
}.

Record BackendProfile := mkProfile {
  name : string;
  isolation_strength : Z;  (* u8 *)
  cold_start_ms : Z;       (* u64 *)
  replay_class : ReplayClass;
  supports_fork : bool;
  supports_gui : bool;
  full_linux : bool;
  shares_workspace : bool;
  syncs_state : bool;
}.

Class Backend (B : Type) := { profile : B -> BackendProfile }.

(** * Requirements *)

Inductive RiskTier : Type := Low | Medium | High.

Definition isolation_floor (self : RiskTier) : Z :=
  match self with Low => 20 | Medium => 60 | High => 85 end.

Record Needs := mkNeeds {
  need_full_linux : bool;
  need_gui : bool;
  need_fork : bool;
  need_workspace : bool;
  replay_at_least : option ReplayClass;
}.

(** [u64] addition, wrapping in a release build. *)
Definition cost (p : BackendProfile) : Z :=
  (cold_start_ms p + 10 * isolation_strength p) mod 2 ^ 64.

Definition satisfies (p : BackendProfile) (risk : RiskTier) (needs : Needs) : bool :=
  (isolation_floor risk <=? isolation_strength p)
  && (negb (need_full_linux needs) || full_linux p)
  && (negb (need_gui needs) || supports_gui p)
  && (negb (need_fork needs) || supports_fork p)
  && (negb (need_workspace needs) || shares_workspace p || syncs_state p)
  && match replay_at_least needs with
     | Some floor => replay_leb floor (replay_class p)
     | None => true
     end.

(** [Iterator::min_by]: the first minimum. *)
Definition min_by {A} (cmp : A -> A -> comparison) (l : list A) : option A :=
  match l with
  | [] => None
  | x :: rest =>
      Some (fold_left (fun m y => match cmp m y with Gt => y | _ => m end) rest x)
  end.

(** [a.cmp(b).then_with(|| ...)]. *)
Definition then_with (c d : comparison) : comparison := match c with Eq => d | _ => c end.

Definition route_cmp (a b : BackendProfile) : comparison :=
  then_with (cost a ?= cost b) (String.compare (name a) (name b)).

Class RouterDebug := { debug_unroutable : Z -> Needs -> list string -> string }.

Section router.
Context {B : Type} `{!Backend B, !RouterDebug}.

Definition register_backend (self : list B) (backend : B) : list B := self ++ [backend].

Definition profiles (self : list B) : list BackendProfile := map profile self.

Definition get_backend (self : list B) (n : string) : option B :=
  List.find (fun b => bool_decide (name (profile b) = n)) self.

Definition route (self : list B) (risk : RiskTier) (needs : Needs) : KernelResult B :=
  let candidates :=
    List.filter (fun pb => satisfies pb.1 risk needs) (map (fun b => (profile b, b)) self) in
  match min_by (fun x y => route_cmp x.1 y.1) candidates with
  | Some (_, b) => Ok b
  | None =>
      Err (BackendUnavailable "router"
             (debug_unroutable (isolation_floor risk) needs
                (map (fun b => name (profile b)) self)))
  end.
End router.

(** * Minimum by a comparison *)

Section min_by_lemmas.
Context {A : Type} (cmp : A -> A -> comparison).
Hypothesis cmp_sym : forall x y, cmp x y = CompOpp (cmp y x).
Hypothesis cmp_trans : forall x y z, cmp x y <> Gt -> cmp y z <> Gt -> cmp x z <> Gt.

Lemma min_fold_spec l x :
  let m := fold_left (fun m y => match cmp m y with Gt => y | _ => m end) l x in
  (m = x \/ m ∈ l) /\ cmp m x <> Gt /\ forall y, y ∈ l -> cmp m y <> Gt.
Proof.
  revert x. induction l as [|y l IH]; intros x; cbn.
  - split; [by left|]. split; [|set_solver].
    pose proof (cmp_sym x x). by destruct (cmp x x).
  - specialize (IH (match cmp x y with Gt => y | _ => x end)).
    destruct IH as (Hm & Hle & Hall). pose proof (cmp_sym x y) as Hs.
    assert (cmp (match cmp x y with Gt => y | _ => x end) x <> Gt
            /\ cmp (match cmp x y with Gt => y | _ => x end) y <> Gt) as [Hx Hy].
    { pose proof (cmp_sym x x). pose proof (cmp_sym y y).
      destruct (cmp x y) eqn:E; split; try rewrite E; try done;
        destruct (cmp x x); try done; destruct (cmp y y); try done;
        destruct (cmp y x); done. }
    split; [|split].
    + destruct Hm as [->|Hm]; [|set_solver]. destruct (cmp x y); set_solver.
    + by eapply cmp_trans.
    + intros z [->|Hz]%elem_of_cons; [by eapply cmp_trans|by apply Hall].
Qed.

Lemma min_by_Some l m :
  min_by cmp l = Some m -> m ∈ l /\ forall y, y ∈ l -> cmp m y <> Gt.
Proof.
  destruct l as [|x l]; cbn; [done|]. intros [= <-].
  destruct (min_fold_spec l x) as (Hm & Hx & Hall). split.
  - destruct Hm as [->|Hm]; set_solver.
  - intros y [->|Hy]%elem_of_cons; auto.
Qed.

Lemma min_by_None l : min_by cmp l = None <-> l = [].
Proof. by destruct l. Qed.

Lemma min_by_is_Some l x : x ∈ l -> is_Some (min_by cmp l).
Proof. destruct l; cbn; [by intros ?%elem_of_nil|by eexists]. Qed.
End min_by_lemmas.

(** * Lemmas *)

Section route_lemmas.

Lemma string_compare_le a b : String.compare a b <> Gt <-> String.leb a b = true.
Proof. unfold String.leb. by destruct (String.compare a b). Qed.

Lemma ascii_compare_trans a b c :
  Ascii.compare a b <> Gt -> Ascii.compare b c <> Gt ->
  Ascii.compare a c <> Gt
  /\ (Ascii.compare a c = Eq -> Ascii.compare a b = Eq /\ Ascii.compare b c = Eq).
Proof.
  unfold Ascii.compare. rewrite !N.compare_le_iff, !N.compare_eq_iff. lia.
Qed.

Lemma string_compare_trans a b c :
  String.compare a b <> Gt -> String.compare b c <> Gt -> String.compare a c <> Gt.
Proof.
  revert b c. induction a as [|x a IH]; intros [|y b] [|z c]; cbn; try done.
  intros H1 H2.
  assert (Ascii.compare x y <> Gt) as Hxy by by destruct (Ascii.compare x y).
  assert (Ascii.compare y z <> Gt) as Hyz by by destruct (Ascii.compare y z).
  destruct (ascii_compare_trans x y z Hxy Hyz) as [Hxz Heq].
  destruct (Ascii.compare x z) eqn:E; try done.
  destruct (Heq eq_refl) as [E1 E2]. rewrite E1 in H1. rewrite E2 in H2. eauto.
Qed.

Lemma route_cmp_sym a b : route_cmp a b = CompOpp (route_cmp b a).
Proof.
  unfold route_cmp, then_with. rewrite (Z.compare_antisym (cost b) (cost a)).
  destruct (cost b ?= cost a); cbn; [|done..]. apply String.compare_antisym.
Qed.

Lemma route_cmp_le a b :
  route_cmp a b <> Gt <->
  cost a < cost b \/ (cost a = cost b /\ String.compare (name a) (name b) <> Gt).
Proof.
  unfold route_cmp, then_with. destruct (Z.compare_spec (cost a) (cost b)).
  - split; [by right|]. intros [|[]]; [lia|done].
  - split; [by left|done].
  - split; [done|]. lia.
Qed.

Lemma route_cmp_trans a b c :
  route_cmp a b <> Gt -> route_cmp b c <> Gt -> route_cmp a c <> Gt.
Proof.
  rewrite !route_cmp_le. intros [|[]] [|[]]; try (left; lia).
  right. split; [lia|]. by eapply string_compare_trans.
Qed.

Lemma route_cmp_antisym a b :
  route_cmp a b <> Gt -> route_cmp b a <> Gt -> cost a = cost b /\ name a = name b.
Proof.
  rewrite !route_cmp_le. intros [|[? H1]] [|[? H2]]; try (exfalso; lia). split; [done|].
  rewrite String.compare_antisym in H2.
  apply String.compare_eq_iff. destruct (String.compare (name a) (name b)); cbn in *; congruence.
Qed.

Context {B : Type} `{!Backend B, !RouterDebug}.
Implicit Types (bs : list B).

Definition eligible (risk : RiskTier) (needs : Needs) (b : B) : Prop :=
  satisfies (profile b) risk needs = true.

Lemma candidates_elem bs risk needs pb :
  pb ∈ List.filter (fun pb => satisfies pb.1 risk needs) (map (fun b => (profile b, b)) bs)
  <-> pb.1 = profile pb.2 /\ pb.2 ∈ bs /\ eligible risk needs pb.2.
Proof.
  rewrite list_elem_of_In, filter_In, in_map_iff. unfold eligible. split.
  - intros [(b & <- & Hb) Hs]. cbn in *. by rewrite list_elem_of_In.
  - destruct pb as [q b]. cbn. intros (-> & Hb & Hs). split; [|done].
    exists b. by rewrite <- list_elem_of_In.
Qed.

Lemma route_Ok bs risk needs b :
  route bs risk needs = Ok b ->
  b ∈ bs /\ eligible risk needs b
  /\ forall b', b' ∈ bs -> eligible risk needs b' ->
                route_cmp (profile b) (profile b') <> Gt.
Proof.
  unfold route. destruct (min_by _ _) as [[q b']|] eqn:E; [|done]. intros [= ->].
  apply min_by_Some in E as [Hin Hall].
  - apply candidates_elem in Hin as (Hq & Hb & He). cbn in *. subst q. repeat split; try done.
    intros b' Hb' He'. apply (Hall (profile b', b')).
    by apply candidates_elem.
  - intros. apply route_cmp_sym.
  - intros. by eapply route_cmp_trans.
Qed.

Lemma route_eligible bs risk needs b :
  b ∈ bs -> eligible risk needs b -> is_ok (route bs risk needs) = true.
Proof.
  intros Hb He. unfold route.
  destruct (min_by_is_Some (fun x y : BackendProfile * B => route_cmp x.1 y.1)
    (List.filter (fun pb => satisfies pb.1 risk needs) (map (fun b => (profile b, b)) bs))
    (profile b, b)) as [[q b'] ->]; [by apply candidates_elem|done].
Qed.
End route_lemmas.

(** * Properties *)

(** Routing returns a registered backend that meets the isolation floor of the tier
    and every need, and none of the other eligible backends is cheaper, or as cheap with
    a smaller name; it refuses only when no registered backend is eligible. *)
Theorem route_cheapest_eligible `{!Backend B, !RouterDebug} (bs : list B) risk needs :
  match route bs risk needs with
  | Ok b =>
      b ∈ bs /\ eligible risk needs b
      /\ isolation_floor risk <= isolation_strength (profile b)
      /\ forall b', b' ∈ bs -> eligible risk needs b' ->
           cost (profile b) < cost (profile b')
           \/ (cost (profile b) = cost (profile b')
               /\ String.leb (name (profile b)) (name (profile b')) = true)
  | Err e => (forall b, b ∈ bs -> ~ eligible risk needs b)
             /\ error_code e = "BACKEND_UNAVAILABLE"
  end.
Proof.
  destruct (route bs risk needs) as [b|e] eqn:E.
  - apply route_Ok in E as (Hin & He & Hall). repeat split; try done.
    + unfold eligible, satisfies in He. bool_hyps. lia.
    + intros b' Hb' He'. rewrite <- string_compare_le, <- route_cmp_le. by apply Hall.
  - split.
    + intros b Hb He. pose proof (route_eligible _ _ _ _ Hb He). by rewrite E in *.
    + unfold route in E. destruct (min_by _ _) as [[]|]; by simplify_eq.
Qed.

(** Registration order does not affect routing, as long as no two registered
    backends share both cost and name: permuting the registry routes to the same
    backend. *)
Theorem route_order_independent `{!Backend B, !RouterDebug} (bs bs' : list B) risk needs b :
  bs ≡ₚ bs' ->
  (forall x y, x ∈ bs -> y ∈ bs -> cost (profile x) = cost (profile y) ->
               name (profile x) = name (profile y) -> x = y) ->
  route bs risk needs = Ok b -> route bs' risk needs = Ok b.
Proof.
  intros Hp Hinj Hr. apply route_Ok in Hr as (Hin & He & Hall).
  destruct (route bs' risk needs) as [b'|e] eqn:E.
  - apply route_Ok in E as (Hin' & He' & Hall'). rewrite <- Hp in Hin'.
    f_equal. symmetry.
    destruct (route_cmp_antisym (profile b) (profile b')) as [Hc Hn].
    + by apply Hall.
    + apply Hall'; [by rewrite <- Hp|done].
    + by apply Hinj.
  - rewrite Hp in Hin. pose proof (route_eligible _ _ _ _ Hin He). by rewrite E in *.
Qed.

Module RouterDemo.
#[local] Instance profiles_as_backends : Backend BackendProfile := {| profile p := p |}.
#[local] Instance debug : RouterDebug := {| debug_unroutable _ _ _ := EmptyString |}.

Definition local : BackendProfile :=
  mkProfile "local" 20 5 FilesystemOnly false false true true false.
Definition gvisor : BackendProfile :=
  mkProfile "gvisor" 70 120 FilesystemOnly false false true false true.
Definition forkd : BackendProfile :=
  mkProfile "forkd" 90 15 ProcessAndFilesystem true false true false true.

Definition no_needs : Needs := mkNeeds false false false false None.

Lemma route_order_independent_witness :
  route [forkd; gvisor; local] Medium no_needs = Ok gvisor.
Proof.
  apply (route_order_independent [local; gvisor; forkd]).
  - symmetry. apply (reverse_Permutation [local; gvisor; forkd]).
  - intros x y. rewrite !elem_of_cons, !elem_of_nil.
    intros [->|[->|[->|[]]]] [->|[->|[->|[]]]]; cbn; done.
  - vm_compute. reflexivity.
Defined.
End RouterDemo.
