(* ===== verification/Scheduler.v ===== *)
(** Step scheduling: [kernel/scheduler/src/step.rs].

    The scheduler's shared state is a record; every operation takes it and
    returns it.  [execute_step] is the composition of the three blocks between
    which other tasks can run: admission (pause check and reservation, one
    lock), routing (after the fan-out permit) and completion (settlement and
    the accounting record).  [sys_step] interleaves those blocks for any number
    of concurrent steps.

    The backend's answer, the permit outcome and the clock readings are
    arguments; [to_lowercase] of the hint is one too. *)

From stdpp Require Import pretty.
From S2P Require Import Prelude Json Budget Capability Types Router.

Open Scope Z_scope.

(** * State *)

Record StepRecord := mkStepRecord {
  rec_step : string;
  rec_branch : string;
  rec_backend : string;
  rec_queue_ms : Z;
  rec_exec_ms : Z;
  rec_usage : ResourceBudget;
  rec_recorded_at : DateTime;
}.

Record PrewarmPlan := mkPlan {
  warm_backend : option string;
  warm_workspaces : nat;
  plan_note : string;
}.

Record BudgetAccount := mkAccount {
  remaining : ResourceBudget;
  spent : ResourceBudget;
}.

(** [pool] is a [Vec]: [push] and [pop] work at its end. *)
Record WarmPool := mkPool {
  pool_root : string;
  pool : list string;
  pool_seq : Z;            (* u64 *)
}.

Section scheduler.
Context {B : Type} `{!Backend B, !RouterDebug}.

Record StepScheduler := mkScheduler {
  router : list B;
  accounts : gmap string BudgetAccount;
  default_episode_budget : ResourceBudget;
  records : list StepRecord;
  paused : gset string;
  warm_pool : option WarmPool;
}.

Definition with_router (s : StepScheduler) (r : list B) : StepScheduler :=
  mkScheduler r (accounts s) (default_episode_budget s) (records s) (paused s) (warm_pool s).
Definition with_accounts (s : StepScheduler) (a : gmap string BudgetAccount) : StepScheduler :=
  mkScheduler (router s) a (default_episode_budget s) (records s) (paused s) (warm_pool s).
Definition with_records (s : StepScheduler) (r : list StepRecord) : StepScheduler :=
  mkScheduler (router s) (accounts s) (default_episode_budget s) r (paused s) (warm_pool s).
Definition with_paused (s : StepScheduler) (p : gset string) : StepScheduler :=
  mkScheduler (router s) (accounts s) (default_episode_budget s) (records s) p (warm_pool s).
Definition with_pool (s : StepScheduler) (p : option WarmPool) : StepScheduler :=
  mkScheduler (router s) (accounts s) (default_episode_budget s) (records s) (paused s) p.

(** * Warm pool

    [mkdir] is [create_dir_all]: its error, if it fails. *)

Definition path_join (root file : string) : string :=
  if str_is_empty root || ends_with "/" root then root +:+ file
  else root +:+ "/" +:+ file.

Definition warm_dir (root : string) (seq : Z) : string :=
  path_join root ("warm-" +:+ pretty seq).

Fixpoint fill_loop (mkdir : string -> option KernelError) (k : nat) (p : WarmPool)
    : KernelResult () * WarmPool :=
  match k with
  | O => (Ok tt, p)
  | S k' =>
      let dir := warm_dir (pool_root p) (pool_seq p) in
      let seq := (pool_seq p + 1) mod 2 ^ 64 in
      match mkdir dir with
      | Some e => (Err e, mkPool (pool_root p) (pool p) seq)
      | None => fill_loop mkdir k' (mkPool (pool_root p) (pool p ++ [dir]) seq)
      end
  end.

(** [while pool.len() < n]: each round adds one workspace. *)
Definition fill (mkdir : string -> option KernelError) (p : WarmPool) (n : nat)
    : KernelResult () * WarmPool :=
  fill_loop mkdir (n - length (pool p)) p.

Definition pool_take (p : WarmPool) : option string * WarmPool :=
  match reverse (pool p) with
  | [] => (None, p)
  | d :: rest => (Some d, mkPool (pool_root p) (reverse rest) (pool_seq p))
  end.

(** * Episode accounts *)

Definition register_episode (s : StepScheduler) (episode : string)
    (rem sp : ResourceBudget) : StepScheduler :=
  with_accounts s (<[episode := mkAccount rem sp]> (accounts s)).

Definition register_episode_default (s : StepScheduler) (episode : string) : StepScheduler :=
  register_episode s episode (default_episode_budget s) budget_zero.

Definition remaining_budget (s : StepScheduler) (episode : string) : option ResourceBudget :=
  remaining <$> accounts s !! episode.

Definition close_episode (s : StepScheduler) (episode : string) : StepScheduler :=
  with_accounts s (delete episode (accounts s)).

Definition reserve (s : StepScheduler) (episode : string) (amount : ResourceBudget)
    : result (list string) () * StepScheduler :=
  match accounts s !! episode with
  | None => (Err ["unknown_episode"], s)
  | Some account =>
      if negb (fits_within amount (remaining account)) then
        (Err (exceeding_dimensions amount (remaining account)), s)
      else
        (Ok tt, with_accounts s
           (<[episode := mkAccount (saturating_sub (remaining account) amount) (spent account)]>
              (accounts s)))
  end.

Definition settle (s : StepScheduler) (episode : string) (reserved used : ResourceBudget)
    : list string * StepScheduler :=
  match accounts s !! episode with
  | None => ([], s)
  | Some account =>
      let refund := saturating_sub reserved used in
      let overrun_amount := saturating_sub used reserved in
      let account' :=
        mkAccount (saturating_sub (saturating_add (remaining account) refund) overrun_amount)
                  (saturating_add (spent account) used) in
      (exceeding_dimensions used reserved, with_accounts s (<[episode := account']> (accounts s)))
  end.

Definition refund (s : StepScheduler) (episode : string) (reserved : ResourceBudget)
    : StepScheduler :=
  match accounts s !! episode with
  | None => s
  | Some account =>
      with_accounts s
        (<[episode := mkAccount (saturating_add (remaining account) reserved) (spent account)]>
           (accounts s))
  end.

(** * Pausing and prewarming *)

Definition pause_branch (s : StepScheduler) (branch : string) : StepScheduler :=
  with_paused s ({[branch]} ∪ paused s).

Definition resume_branch (s : StepScheduler) (branch : string) : StepScheduler :=
  with_paused s (paused s ∖ {[branch]}).

Definition is_paused (s : StepScheduler) (branch : string) : bool :=
  bool_decide (branch ∈ paused s).

Definition hint (to_lowercase : string -> string) (s : StepScheduler) (intent : string)
    : PrewarmPlan :=
  let lower := to_lowercase intent in
  let mentions ks := existsb (fun k => str_contains k lower) ks in
  if mentions ["fork"; "fan-out"; "fanout"; "branch"; "explore"; "parallel"] then
    mkPlan
      (name <$> min_by (fun p q => cost p ?= cost q)
                  (List.filter supports_fork (profiles (router s))))
      0 "intent suggests branch fan-out; warm a fork-capable backend"
  else if mentions ["build"; "test"; "compile"; "lint"; "install"] then
    mkPlan None 2 "intent suggests local build/test steps; keep workspaces warm"
  else mkPlan None 0 "no prewarm".

Definition apply_prewarm (mkdir : string -> option KernelError) (s : StepScheduler)
    (plan : PrewarmPlan) : KernelResult () * StepScheduler :=
  if (0 <? warm_workspaces plan)%nat then
    match warm_pool s with
    | Some p =>
        let '(r, p') := fill mkdir p (warm_workspaces plan) in
        (r, with_pool s (Some p'))
    | None => (Ok tt, s)
    end
  else (Ok tt, s).

(** * Step execution *)

Definition paused_denial (op branch : string) : KernelError :=
  Denied (mkDenial PolicyForbidden op
            ("branch `" +:+ branch +:+ "` is idle-paused; resume it first") [] [] true).

Definition budget_denial (op reason : string) : KernelError :=
  Denied (mkDenial BudgetExhausted op reason [] [] true).

(** Up to and including the reservation. *)
Definition step_admit (s : StepScheduler) (episode : string) (req : ExecutionRequest)
    : KernelResult () * StepScheduler :=
  let op := required_operation (req_action req) in
  if is_paused s (req_branch req) then (Err (paused_denial op (req_branch req)), s)
  else
    match reserve s episode (req_budget req) with
    | (Err short, s') =>
        (Err (budget_denial op
                ("episode `" +:+ episode
                 +:+ "` budget cannot cover this step's requested budget (insufficient: "
                 +:+ str_join ", " short +:+ ")")), s')
    | (Ok _, s') => (Ok tt, s')
    end.

(** The permit (its error text when the semaphore is closed) and routing. *)
Definition step_route (s : StepScheduler) (episode : string) (req : ExecutionRequest)
    (permit : result string ()) (risk : RiskTier) (needs : Needs)
    : KernelResult B * StepScheduler :=
  match permit with
  | Err e => (Err (EOther ("scheduler shut down: " +:+ e)), refund s episode (req_budget req))
  | Ok _ =>
      match route (router s) risk needs with
      | Ok b => (Ok b, s)
      | Err e => (Err e, refund s episode (req_budget req))
      end
  end.

Record Clock := mkClock { clk_queue_ms : Z; clk_exec_ms : Z; clk_now : DateTime }.

(** What follows the backend's [execute]. *)
Definition step_finish (s : StepScheduler) (episode step : string) (req : ExecutionRequest)
    (backend : B) (answer : KernelResult ExecutionOutcome) (clk : Clock)
    : KernelResult (ExecutionOutcome * BackendProfile * B) * StepScheduler :=
  match answer with
  | Err e => (Err e, refund s episode (req_budget req))
  | Ok outcome =>
      let '(_, s1) := settle s episode (req_budget req) (usage outcome) in
      let record :=
        {| rec_step := step; rec_branch := req_branch req;
           rec_backend := name (profile backend);
           rec_queue_ms := clk_queue_ms clk; rec_exec_ms := clk_exec_ms clk;
           rec_usage := usage outcome; rec_recorded_at := clk_now clk |} in
      (Ok (outcome, profile backend, backend), with_records s1 (records s1 ++ [record]))
  end.

Definition execute_step (execute : B -> ExecutionRequest -> KernelResult ExecutionOutcome)
    (permit : result string ()) (clk : Clock) (s : StepScheduler) (episode step : string)
    (req : ExecutionRequest) (risk : RiskTier) (needs : Needs)
    : KernelResult (ExecutionOutcome * BackendProfile * B) * StepScheduler :=
  match step_admit s episode req with
  | (Err e, s1) => (Err e, s1)
  | (Ok _, s1) =>
      match step_route s1 episode req permit risk needs with
      | (Err e, s2) => (Err e, s2)
      | (Ok b, s2) => step_finish s2 episode step req b (execute b req) clk
      end
  end.
End scheduler.
Arguments StepScheduler B : clear implicits.

(** * Concurrent steps

    A task is a call of [execute_step] between two of its blocks: admitted
    (waiting for a permit) or running on a backend.  [watched] is the episode
    whose account the invariant follows: other episodes may be opened and
    closed at any time.  With [honest] set, backends report no more usage than
    was reserved. *)

Section system.
Context {B : Type} `{!Backend B, !RouterDebug}.

Record Task := mkTask {
  t_episode : string;
  t_step : string;
  t_req : ExecutionRequest;
  t_risk : RiskTier;
  t_needs : Needs;
  t_backend : option B;
}.

Definition start_on (t : Task) (b : B) : Task :=
  mkTask (t_episode t) (t_step t) (t_req t) (t_risk t) (t_needs t) (Some b).

Inductive sys_step (watched : string) (honest : bool)
    : StepScheduler B * list Task -> StepScheduler B * list Task -> Prop :=
| sys_admit s ts ep step req risk needs s' :
    budget_wf (req_budget req) ->
    step_admit s ep req = (Ok tt, s') ->
    sys_step watched honest (s, ts) (s', mkTask ep step req risk needs None :: ts)
| sys_refuse s ts ep req e s' :
    step_admit s ep req = (Err e, s') -> sys_step watched honest (s, ts) (s', ts)
| sys_route s l1 t l2 permit b s' :
    t_backend t = None ->
    step_route s (t_episode t) (t_req t) permit (t_risk t) (t_needs t) = (Ok b, s') ->
    sys_step watched honest (s, l1 ++ t :: l2) (s', l1 ++ start_on t b :: l2)
| sys_unroutable s l1 t l2 permit e s' :
    t_backend t = None ->
    step_route s (t_episode t) (t_req t) permit (t_risk t) (t_needs t) = (Err e, s') ->
    sys_step watched honest (s, l1 ++ t :: l2) (s', l1 ++ l2)
| sys_finish s l1 t l2 b answer clk r s' :
    t_backend t = Some b ->
    (forall o, answer = Ok o ->
       budget_wf (usage o)
       /\ (honest = true -> fits_within (usage o) (req_budget (t_req t)) = true)) ->
    step_finish s (t_episode t) (t_step t) (t_req t) b answer clk = (r, s') ->
    sys_step watched honest (s, l1 ++ t :: l2) (s', l1 ++ l2)
| sys_pause s ts br : sys_step watched honest (s, ts) (pause_branch s br, ts)
| sys_resume s ts br : sys_step watched honest (s, ts) (resume_branch s br, ts)
| sys_backend s ts b :
    sys_step watched honest (s, ts) (with_router s (register_backend (router s) b), ts)
| sys_open s ts ep rem sp :
    ep <> watched -> sys_step watched honest (s, ts) (register_episode s ep rem sp, ts)
| sys_close s ts ep :
    ep <> watched -> sys_step watched honest (s, ts) (close_episode s ep, ts).

(** What the tasks in flight have reserved against [watched]. *)
Definition task_reserved (watched : string) (t : Task) : ResourceBudget :=
  if bool_decide (t_episode t = watched) then req_budget (t_req t) else budget_zero.

Definition reserved (watched : string) (ts : list Task) : ResourceBudget :=
  foldr (fun t acc => budget_plus (task_reserved watched t) acc) budget_zero ts.

(** * Lemmas *)

Lemma reserved_middle w l1 t l2 :
  reserved w (l1 ++ t :: l2) = budget_plus (task_reserved w t) (reserved w (l1 ++ l2)).
Proof.
  induction l1 as [|u l1 IH]; [done|].
  change (budget_plus (task_reserved w u) (reserved w (l1 ++ t :: l2))
          = budget_plus (task_reserved w t)
              (budget_plus (task_reserved w u) (reserved w (l1 ++ l2)))).
  rewrite IH. generalize (task_reserved w t), (task_reserved w u), (reserved w (l1 ++ l2)).
  intros a b c. budget_crush.
Qed.

Lemma reserved_start_on w l1 t b l2 :
  reserved w (l1 ++ start_on t b :: l2) = reserved w (l1 ++ t :: l2).
Proof. by rewrite !reserved_middle. Qed.

Definition task_ok (t : Task) : Prop := budget_wf (req_budget (t_req t)).

Lemma task_reserved_wf w t : task_ok t -> budget_wf (task_reserved w t).
Proof.
  intros Hok. unfold task_reserved. case_bool_decide; [done|apply budget_zero_wf].
Qed.

Lemma reserved_nonneg w ts :
  Forall task_ok ts -> fits_within budget_zero (reserved w ts) = true.
Proof.
  induction 1 as [|t ts Ht _ IH]; [apply fits_within_refl|].
  apply (task_reserved_wf w) in Ht. cbn [reserved foldr].
  fold (reserved w ts). revert Ht IH.
  generalize (task_reserved w t), (reserved w ts). intros a b Ha Hb. budget_crush.
Qed.

Lemma step_admit_Ok (s : StepScheduler B) ep req s' :
  step_admit s ep req = (Ok tt, s') ->
  is_paused s (req_branch req) = false /\
  exists a, accounts s !! ep = Some a
    /\ fits_within (req_budget req) (remaining a) = true
    /\ s' = with_accounts s
              (<[ep := mkAccount (saturating_sub (remaining a) (req_budget req)) (spent a)]>
                 (accounts s)).
Proof.
  unfold step_admit, reserve. destruct (is_paused s _); [done|].
  destruct (accounts s !! ep) as [a|]; [|done].
  destruct (fits_within _ _) eqn:Hf; cbn; [|done]. intros [= <-]. eauto.
Qed.

Lemma step_admit_Err (s : StepScheduler B) ep req e s' :
  step_admit s ep req = (Err e, s') -> s' = s.
Proof.
  unfold step_admit, reserve. destruct (is_paused s _); [by intros [=]|].
  destruct (accounts s !! ep) as [a|]; [|by intros [=]].
  destruct (fits_within _ _); cbn; by intros [=].
Qed.

Lemma insert_alter {A} (f : A -> A) k a (m : gmap string A) :
  m !! k = Some a -> <[k := f a]> m = alter f k m.
Proof.
  intros Hk. apply map_eq. intros i. destruct (decide (k = i)) as [<-|].
  - by rewrite lookup_insert_eq, lookup_alter_eq, Hk.
  - by rewrite lookup_insert_ne, lookup_alter_ne.
Qed.

Lemma alter_absent {A} (f : A -> A) k (m : gmap string A) :
  m !! k = None -> alter f k m = m.
Proof. intros Hk. apply alter_id. congruence. Qed.

Definition refund_account (b : ResourceBudget) (a : BudgetAccount) : BudgetAccount :=
  mkAccount (saturating_add (remaining a) b) (spent a).

Definition settle_account (b u : ResourceBudget) (a : BudgetAccount) : BudgetAccount :=
  mkAccount (saturating_sub (saturating_add (remaining a) (saturating_sub b u))
               (saturating_sub u b))
    (saturating_add (spent a) u).

Lemma refund_accounts (s : StepScheduler B) ep b :
  accounts (refund s ep b) = alter (refund_account b) ep (accounts s).
Proof.
  unfold refund. destruct (accounts s !! ep) as [a|] eqn:E; cbn.
  - by apply (insert_alter (refund_account b)).
  - by rewrite alter_absent.
Qed.

Lemma step_route_accounts (s : StepScheduler B) ep req permit risk needs r s' :
  step_route s ep req permit risk needs = (r, s') ->
  accounts s' = match r with
                | Ok _ => accounts s
                | Err _ => alter (refund_account (req_budget req)) ep (accounts s)
                end.
Proof.
  unfold step_route. destruct permit as [u|e].
  - destruct (route (router s) risk needs); intros [= <- <-]; [done|apply refund_accounts].
  - intros [= <- <-]. apply refund_accounts.
Qed.

Lemma step_finish_accounts (s : StepScheduler B) ep step req b answer clk r s' :
  step_finish s ep step req b answer clk = (r, s') ->
  accounts s' = match answer with
                | Ok o => alter (settle_account (req_budget req) (usage o)) ep (accounts s)
                | Err _ => alter (refund_account (req_budget req)) ep (accounts s)
                end.
Proof.
  unfold step_finish. destruct answer as [o|e].
  - unfold settle. destruct (accounts s !! ep) as [a|] eqn:E; intros [= <- <-]; cbn.
    + by apply (insert_alter (settle_account (req_budget req) (usage o))).
    + by rewrite alter_absent.
  - intros [= <- <-]. apply refund_accounts.
Qed.

(** * The invariant *)

Definition account_inv (envelope : ResourceBudget) (honest : bool) (held : ResourceBudget)
    (a : BudgetAccount) : Prop :=
  budget_wf (remaining a) /\ budget_wf (spent a)
  /\ fits_within (budget_plus (remaining a) held) envelope = true
  /\ (honest = true -> budget_plus (budget_plus (remaining a) held) (spent a) = envelope).

Lemma account_inv_reserve E honest held b a :
  budget_wf b -> fits_within b (remaining a) = true ->
  account_inv E honest held a ->
  account_inv E honest (budget_plus b held)
    (mkAccount (saturating_sub (remaining a) b) (spent a)).
Proof.
  destruct a as [rem sp]. intros Hb Hf (Hr & Hs & Hfit & Heq). cbn in Hf.
  split; [by apply saturating_sub_wf|]. split; [done|].
  assert (budget_plus (saturating_sub rem b) (budget_plus b held) = budget_plus rem held)
    as Hsum by budget_crush.
  cbn [remaining spent] in *. by rewrite Hsum.
Qed.

Lemma account_inv_refund E honest held b a :
  budget_wf E -> budget_wf b -> fits_within budget_zero held = true ->
  account_inv E honest (budget_plus b held) a ->
  account_inv E honest held (refund_account b a).
Proof.
  destruct a as [rem sp]. intros HE Hb Hh (Hr & Hs & Hfit & Heq).
  unfold account_inv. cbn [remaining spent refund_account] in *.
  rewrite saturating_add_exact by (clear Heq; budget_crush).
  rewrite budget_plus_assoc. repeat split; try done; clear Heq; budget_crush.
Qed.

Lemma account_inv_settle E honest held b u a :
  budget_wf E -> budget_wf b -> budget_wf u -> fits_within budget_zero held = true ->
  (honest = true -> fits_within u b = true) ->
  account_inv E honest (budget_plus b held) a ->
  account_inv E honest held (settle_account b u a).
Proof.
  destruct a as [rem sp]. intros HE Hb Hu Hh Hhon (Hr & Hs & Hfit & Heq).
  unfold account_inv. cbn [remaining spent settle_account] in *.
  split; [auto with ak|]. split; [auto with ak|]. split.
  - clear Heq Hhon. budget_crush.
  - intros Ht. specialize (Heq Ht). specialize (Hhon Ht). subst E.
    clear Ht. budget_crush.
Qed.

Definition sys_inv (watched : string) (E : ResourceBudget) (honest : bool)
    (st : StepScheduler B * list Task) : Prop :=
  Forall task_ok st.2
  /\ exists a, accounts st.1 !! watched = Some a
               /\ account_inv E honest (reserved watched st.2) a.

(** Removing a task whose reservation was given back by [f]. *)
Lemma sys_inv_remove w E honest ts l1 t l2 (m m' : gmap string BudgetAccount) f :
  ts = l1 ++ t :: l2 -> Forall task_ok ts ->
  (exists a, m !! w = Some a /\ account_inv E honest (reserved w ts) a) ->
  m' = alter f (t_episode t) m ->
  (forall a held, fits_within budget_zero held = true ->
     account_inv E honest (budget_plus (req_budget (t_req t)) held) a ->
     account_inv E honest held (f a)) ->
  Forall task_ok (l1 ++ l2)
  /\ exists a, m' !! w = Some a /\ account_inv E honest (reserved w (l1 ++ l2)) a.
Proof.
  intros -> Hok (a & Ha & Hinv) -> Hf.
  assert (Forall task_ok (l1 ++ l2)) as Hok'.
  { apply Forall_app in Hok as [H1 [_ H2]%Forall_cons]. by apply Forall_app. }
  split; [done|]. rewrite reserved_middle in Hinv. unfold task_reserved in Hinv.
  case_bool_decide as Hw.
  - subst w. exists (f a). rewrite lookup_alter_eq, Ha. split; [done|].
    apply Hf; [by apply reserved_nonneg|done].
  - exists a. rewrite lookup_alter_ne, budget_plus_zero_l in * by done. done.
Qed.

Lemma sys_step_inv w E honest st st' :
  budget_wf E -> sys_inv w E honest st -> sys_step w honest st st' -> sys_inv w E honest st'.
Proof.
  intros HE [Hok Hacc] Hstep. destruct Hstep; cbn [fst snd] in *.
  - match goal with H : step_admit _ _ _ = _ |- _ =>
      apply step_admit_Ok in H as (_ & a & Ha & Hf & ->) end.
    destruct Hacc as (a' & Ha' & Hinv). split; [by constructor|]. cbn.
    unfold task_reserved at 1. cbn. case_bool_decide as Hw.
    + subst ep. rewrite lookup_insert_eq. eexists. split; [done|].
      simplify_eq. by apply account_inv_reserve.
    + rewrite lookup_insert_ne, budget_plus_zero_l by done. eauto.
  - match goal with H : step_admit _ _ _ = _ |- _ => apply step_admit_Err in H as -> end.
    by split.
  - match goal with H : step_route _ _ _ _ _ _ = _ |- _ => apply step_route_accounts in H end.
    split; cbn [fst snd].
    + rewrite Forall_app, Forall_cons in *. tauto.
    + rewrite reserved_start_on.
      by match goal with H : accounts _ = accounts _ |- _ => rewrite H end.
  - match goal with H : step_route _ _ _ _ _ _ = _ |- _ => apply step_route_accounts in H end.
    eapply sys_inv_remove; eauto. intros a held Hh. apply account_inv_refund; try done.
    rewrite Forall_app, Forall_cons in Hok. by destruct Hok as (_ & ? & _).
  - assert (task_ok t) as Ht by (rewrite Forall_app, Forall_cons in Hok; tauto).
    match goal with H : step_finish _ _ _ _ _ _ _ = _ |- _ => apply step_finish_accounts in H end.
    destruct answer as [o|e]; eapply sys_inv_remove; eauto; intros a held Hh.
    + match goal with H : forall o', Ok o = Ok o' -> _ |- _ =>
        destruct (H o eq_refl) as [Hu Hhon] end.
      by apply account_inv_settle.
    + by apply account_inv_refund.
  - by split.
  - by split.
  - by split.
  - split; [done|]. cbn. by rewrite lookup_insert_ne.
  - split; [done|]. cbn. by rewrite lookup_delete_ne.
Qed.

Lemma sys_reachable_inv w E honest st st' :
  budget_wf E -> sys_inv w E honest st -> rtc (sys_step w honest) st st' ->
  sys_inv w E honest st'.
Proof. intros HE Hinv. induction 1; eauto using sys_step_inv. Qed.
End system.

(** * Sequential steps *)

Section sequential.
Context {B : Type} `{!Backend B, !RouterDebug}.

(** A reservation that was admitted and given back leaves the accounts as
    they were. *)
Lemma admit_refund (s s1 : StepScheduler B) ep req m a :
  step_admit s ep req = (Ok tt, s1) -> accounts s !! ep = Some a ->
  budget_wf (remaining a) -> budget_wf (req_budget req) ->
  m = alter (refund_account (req_budget req)) ep (accounts s1) -> m = accounts s.
Proof.
  intros Hadm Ha Hwa Hwb ->. apply step_admit_Ok in Hadm as (_ & a' & Ha' & Hf & ->).
  assert (a' = a) as -> by congruence.
  apply map_eq. intros k. cbn. destruct (decide (ep = k)) as [<-|].
  - rewrite lookup_alter_eq, lookup_insert_eq, Ha. cbn.
    unfold refund_account. cbn. rewrite reserve_refund by done. by destruct a.
  - by rewrite lookup_alter_ne, lookup_insert_ne.
Qed.

Lemma refund_records (s : StepScheduler B) ep b : records (refund s ep b) = records s.
Proof. unfold refund. by destruct (accounts s !! ep). Qed.

Lemma step_route_Ok (s s' : StepScheduler B) ep req permit risk needs b :
  step_route s ep req permit risk needs = (Ok b, s') ->
  s' = s /\ route (router s) risk needs = Ok b.
Proof.
  unfold step_route. destruct permit; [|by intros [=]].
  destruct (route (router s) risk needs); by intros [= <- <-].
Qed.

Lemma step_route_Err (s s' : StepScheduler B) ep req permit risk needs e :
  step_route s ep req permit risk needs = (Err e, s') -> records s' = records s.
Proof.
  unfold step_route. destruct permit; [|intros [= <- <-]; apply refund_records].
  destruct (route (router s) risk needs); intros [= <- <-]. apply refund_records.
Qed.

(** Reserving and then settling usage that fits charges the usage. *)
Lemma reserve_settle b u rem sp :
  budget_wf rem -> budget_wf b -> budget_wf u ->
  fits_within b rem = true -> fits_within u b = true ->
  settle_account b u (mkAccount (saturating_sub rem b) sp)
  = mkAccount (saturating_sub rem u) (saturating_add sp u).
Proof.
  intros Hr Hb Hu Hbr Hub. unfold settle_account. cbn. f_equal. budget_crush.
Qed.

Lemma settle_records (s : StepScheduler B) ep b u :
  records (settle s ep b u).2 = records s.
Proof. unfold settle. by destruct (accounts s !! ep). Qed.
End sequential.

(** * Properties *)

(** C30: Concurrent steps never jointly overdraw an episode. However reservations,
    routings, completions, pauses and account openings interleave, the remaining budget
    plus everything reserved by steps in flight fits within the envelope the episode was
    registered with; and if no backend reports more usage than was reserved, remaining,
    reserved and spent always add up to exactly that envelope. *)
Theorem no_joint_overdraw `{!Backend B, !RouterDebug} (s s' : StepScheduler B) ts ep
    (envelope : ResourceBudget) (honest : bool) :
  budget_wf envelope ->
  rtc (sys_step ep honest) (register_episode s ep envelope budget_zero, []) (s', ts) ->
  exists a, accounts s' !! ep = Some a
    /\ fits_within (budget_plus (remaining a) (reserved ep ts)) envelope = true
    /\ (honest = true ->
        budget_plus (budget_plus (remaining a) (reserved ep ts)) (spent a) = envelope).
Proof.
  intros HE Hreach.
  assert (sys_inv ep envelope honest (s', ts)) as [_ (a & Ha & _ & _ & Hfit & Heq)]; [|eauto].
  eapply sys_reachable_inv; [done| |exact Hreach].
  split; [constructor|]. eexists. cbn. rewrite lookup_insert_eq. split; [done|].
  assert (budget_plus envelope budget_zero = envelope) as Hz by budget_crush.
  unfold account_inv. cbn [remaining spent]. rewrite !Hz.
  auto using budget_zero_wf, fits_within_refl.
Qed.

(** A step that fails costs nothing and leaves no record; a step that succeeds ran
    on the backend the router chose, was affordable, and charges exactly its usage when
    that fits its reservation: the usage leaves the remaining budget, enters the spent
    total, and one accounting record with it is appended. *)
Theorem execute_step_accounting `{!Backend B, !RouterDebug} execute permit clk
    (s s' : StepScheduler B) ep step req risk needs r a :
  accounts s !! ep = Some a -> budget_wf (remaining a) -> budget_wf (req_budget req) ->
  execute_step execute permit clk s ep step req risk needs = (r, s') ->
  match r with
  | Err _ => accounts s' = accounts s /\ records s' = records s
  | Ok (o, p, b) =>
      route (router s) risk needs = Ok b /\ execute b req = Ok o
      /\ is_paused s (req_branch req) = false
      /\ fits_within (req_budget req) (remaining a) = true
      /\ (budget_wf (usage o) -> fits_within (usage o) (req_budget req) = true ->
          accounts s' = <[ep := mkAccount (saturating_sub (remaining a) (usage o))
                                  (saturating_add (spent a) (usage o))]> (accounts s))
      /\ exists rec, records s' = records s ++ [rec] /\ rec_usage rec = usage o
                     /\ rec_step rec = step /\ rec_backend rec = name (profile b)
  end.
Proof.
  intros Ha Hwa Hwb. unfold execute_step.
  destruct (step_admit s ep req) as [[[]|e] s1] eqn:Hadm; cycle 1.
  { intros [= <- <-]. by apply step_admit_Err in Hadm as ->. }
  destruct (step_route s1 ep req permit risk needs) as [[b|e] s2] eqn:Hroute; cycle 1.
  { intros [= <- <-]. split.
    - apply step_route_accounts in Hroute. by eapply admit_refund.
    - apply step_route_Err in Hroute. rewrite Hroute.
      by apply step_admit_Ok in Hadm as (_ & a' & _ & _ & ->). }
  apply step_route_Ok in Hroute as [-> Hroute].
  intros Hfin. pose proof (step_finish_accounts _ _ _ _ _ _ _ _ _ Hfin) as Hacc.
  unfold step_finish in Hfin. destruct (execute b req) as [o|e] eqn:Hex.
  - pose proof (settle_records s1 ep (req_budget req) (usage o)) as Hrec.
    destruct (settle s1 ep _ _) as [over s2]. injection Hfin as <- <-. cbn in Hrec, Hacc.
    apply step_admit_Ok in Hadm as (Hp & a' & Ha' & Hf & ->). cbn in *.
    assert (a' = a) as -> by congruence.
    do 4 (split; [done|]). split.
    + intros Hwu Hu. rewrite Hacc. rewrite <- reserve_settle with (b := req_budget req) by done.
      rewrite alter_insert_eq. done.
    + eexists. rewrite Hrec. done.
  - injection Hfin as <- <-. split; [by eapply admit_refund|].
    rewrite refund_records. by apply step_admit_Ok in Hadm as (_ & a' & _ & _ & ->).
Qed.

(** * Witnesses *)

Module SchedulerDemo.
#[local] Instance profiles_as_backends : Backend BackendProfile := {| profile p := p |}.
#[local] Instance debug : RouterDebug := {| debug_unroutable _ _ _ := EmptyString |}.

Definition envelope : ResourceBudget := mkBudget 100 100 100 100 100 10.
Definition half : ResourceBudget := mkBudget 50 50 50 50 50 5.

Definition empty_scheduler : StepScheduler BackendProfile :=
  mkScheduler [RouterDemo.local; RouterDemo.gvisor] ∅ step_default [] ∅ None.

Definition request : ExecutionRequest :=
  mkRequest "br-1" "st-1" "pr-1" (Shell "make" None ∅) half [] [] [].

Definition opened : StepScheduler BackendProfile :=
  register_episode empty_scheduler "ep-1" envelope budget_zero.

Definition task (b : option BackendProfile) : Task :=
  mkTask "ep-1" "sp-1" request Low RouterDemo.no_needs b.

Lemma half_wf : budget_wf half.
Proof. unfold budget_wf, in_range, u64_max, u32_max. cbn. lia. Qed.
Lemma envelope_wf : budget_wf envelope.
Proof. unfold budget_wf, in_range, u64_max, u32_max. cbn. lia. Qed.

Definition admitted_once : StepScheduler BackendProfile := (step_admit opened "ep-1" request).2.
Definition admitted_twice : StepScheduler BackendProfile :=
  (step_admit admitted_once "ep-1" request).2.

(** Two steps in flight hold the whole envelope. *)
Lemma no_joint_overdraw_witness :
  exists a, accounts admitted_twice !! "ep-1" = Some a
    /\ fits_within (budget_plus (remaining a) (reserved "ep-1" [task None; task None])) envelope
       = true.
Proof.
  edestruct (no_joint_overdraw empty_scheduler admitted_twice [task None; task None] "ep-1"
           envelope true envelope_wf) as (a & Ha & Hfit & _); [|eauto].
  eapply rtc_l; [apply (sys_admit _ _ _ _ "ep-1" "sp-1" request Low RouterDemo.no_needs);
                 [apply half_wf|vm_compute; reflexivity]|].
  eapply rtc_l; [|apply rtc_refl].
  apply (sys_admit _ _ _ _ "ep-1" "sp-1" request Low RouterDemo.no_needs);
    [apply half_wf|vm_compute; reflexivity].
Defined.

Definition outcome : ExecutionOutcome :=
  mkOutcome 0 "ok" EmptyString (mkBudget 20 0 0 0 0 1) [] FilesystemOnly None.

Lemma execute_step_accounting_witness :
  is_ok (execute_step (fun _ _ => Ok outcome) (Ok tt) (mkClock 0 1 2) opened "ep-1" "sp-1"
           request Low RouterDemo.no_needs).1 = true
  /\ route (router opened) Low RouterDemo.no_needs = Ok RouterDemo.local.
Proof.
  split; [vm_compute; reflexivity|].
  eapply (execute_step_accounting (fun _ _ => Ok outcome) (Ok tt) (mkClock 0 1 2) opened _
           "ep-1" "sp-1" request Low RouterDemo.no_needs
           (Ok (outcome, RouterDemo.local, RouterDemo.local))
           (mkAccount envelope budget_zero)).
  - reflexivity.
  - apply envelope_wf.
  - apply half_wf.
  - vm_compute. reflexivity.
Defined.
End SchedulerDemo.
