(* ===== verification/Effect.v ===== *)
(** External effects and state nodes: the data of [kernel/core/src/effect.rs]
    and [kernel/core/src/state.rs], with their derived JSON encodings.

    A contract is hashed over the canonical JSON of its encoding.  Timestamps
    are encoded by [chrono]; the text is the operation of the class
    [TimeJson], injective by [TimeJsonLaws]. *)

From S2P Require Import Prelude Json Budget Capability Types Canonical.

Class TimeJson := { time_to_json : DateTime -> string }.

Class TimeJsonLaws `{!TimeJson} : Prop := {
  time_to_json_inj a b : time_to_json a = time_to_json b -> a = b;
}.

(** * Effects *)

Inductive EffectClass : Type :=
| Pure | LocalReversible | RemoteReversible | Compensatable | Irreversible | OpaqueExternal.

#[export] Instance EffectClass_eq_dec : EqDecision EffectClass.
Proof. solve_decision. Defined.

(** The derived [Serialize] with [rename_all = "snake_case"]. *)
Definition class_str (c : EffectClass) : string :=
  match c with
  | Pure => "pure"
  | LocalReversible => "local_reversible"
  | RemoteReversible => "remote_reversible"
  | Compensatable => "compensatable"
  | Irreversible => "irreversible"
  | OpaqueExternal => "opaque_external"
  end.

Inductive EffectPhase : Type :=
| Proposed
| Prepared (preview : Value)
| Approved (approver : string) (approved_at : DateTime) (epoch : Z)
| Committing (claimed_at : DateTime)
| Committed (receipt : string)
| Aborted (reason : string)
| Compensated (compensating_receipt : string).

Record EffectContract := mkContract {
  ec_operation : string;
  ec_resource : string;
  ec_arguments : Value;
  ec_preconditions : Value;
  idempotency_key : string;
  ec_class : EffectClass;
}.

Definition contract_to_value (c : EffectContract) : Value :=
  Object [("arguments", ec_arguments c); ("class", Str (class_str (ec_class c)));
          ("idempotency_key", Str (idempotency_key c)); ("operation", Str (ec_operation c));
          ("preconditions", ec_preconditions c); ("resource", Str (ec_resource c))].

Record PendingEffect := mkEffect {
  effect_id : string;
  contract : EffectContract;
  effect_contract_hash : string;
  proposer : string;
  effect_branch : string;
  effect_step : string;
  effect_lease : string;
  phase : EffectPhase;
  proposed_at : DateTime;
}.

Record ReceiptBody := mkReceiptBody {
  rb_effect : string;
  rb_who : string;
  rb_operation : string;
  rb_resource : string;
  rb_contract_hash : string;
  rb_branch : string;
  rb_step : string;
  rb_policy_epoch : Z;      (* u64 *)
  rb_authorization_witness : string;
  rb_external_response_digest : string;
  rb_committed_at : DateTime;
}.

Record Receipt := mkReceipt {
  receipt_id : string;
  receipt_body : ReceiptBody;
  receipt_signature : string;
  receipt_key_id : string;
}.

#[export] Instance ReceiptBody_eq_dec : EqDecision ReceiptBody.
Proof. solve_decision. Defined.
#[export] Instance Receipt_eq_dec : EqDecision Receipt.
Proof. solve_decision. Defined.

(** * State nodes *)

Definition DEFAULT_SNAPSHOT_IGNORES : list string :=
  ["node_modules"; "target"; ".venv"; "venv"; "__pycache__"; ".pytest_cache"; ".mypy_cache";
   ".ruff_cache"; ".cache"; ".aktmp"; ".DS_Store"].

Definition is_ignored_component (name : string) : bool :=
  bool_decide (name ∈ DEFAULT_SNAPSHOT_IGNORES).

Inductive FileChange : Type :=
| FAdded (path blob : string) (mode : Z)
| FModified (path old_blob new_blob : string)
| FDeleted (path old_blob : string).

#[export] Instance FileChange_eq_dec : EqDecision FileChange.
Proof. solve_decision. Defined.

Definition change_path (c : FileChange) : string :=
  match c with FAdded p _ _ | FModified p _ _ | FDeleted p _ => p end.

Record StateDelta := mkStateDelta {
  files : list FileChange;
  processes_started : list string;
  processes_exited : list string;
  tool_sessions : list string;
  delta_policy_epoch : Z;   (* u64 *)
  effects_proposed : list string;
  effects_committed : list string;
}.

Definition delta_default : StateDelta := mkStateDelta [] [] [] [] 0 [] [].

Definition state_delta_is_empty (d : StateDelta) : bool :=
  bool_decide (files d = []) && bool_decide (processes_started d = [])
  && bool_decide (processes_exited d = []) && bool_decide (tool_sessions d = [])
  && bool_decide (effects_proposed d = []) && bool_decide (effects_committed d = []).

Record StateNode := mkNode {
  node_id : string;
  node_episode : string;
  node_branch : string;
  node_parent : option string;
  produced_by : option string;
  merge_parent : option string;
  node_actor : string;
  node_delta : StateDelta;
  workspace_root : string;
  node_replay_class : ReplayClass;
  created_at : DateTime;
}.

(** * Hashing *)

Section effect.
Context `{!Serde, !Sha256, !TimeJson}.

Definition contract_hash (c : EffectContract) : string := hash_canonical (contract_to_value c).

(** [PendingEffect::new]; [fresh] is the generated id. *)
Definition effect_new (fresh : string) (c : EffectContract) (who branch step lease : string)
    (now : DateTime) : PendingEffect :=
  {| effect_id := fresh; contract := c; effect_contract_hash := contract_hash c;
     proposer := who; effect_branch := branch; effect_step := step; effect_lease := lease;
     phase := Proposed; proposed_at := now |}.

Definition receipt_body_to_value (b : ReceiptBody) : Value :=
  Object [("authorization_witness", Str (rb_authorization_witness b));
          ("branch", Str (rb_branch b));
          ("committed_at", Str (time_to_json (rb_committed_at b)));
          ("contract_hash", Str (rb_contract_hash b)); ("effect", Str (rb_effect b));
          ("external_response_digest", Str (rb_external_response_digest b));
          ("operation", Str (rb_operation b));
          ("policy_epoch", Number (PosInt (rb_policy_epoch b)));
          ("resource", Str (rb_resource b)); ("step", Str (rb_step b));
          ("who", Str (rb_who b))].
End effect.

(** * Lemmas *)

Section effect_lemmas.
Context `{!Serde, !SerdeLaws, !Sha256, !TimeJson, !TimeJsonLaws}.

Lemma class_str_inj c d : class_str c = class_str d -> c = d.
Proof. by destruct c, d. Qed.

Lemma contract_to_value_inj c d : contract_to_value c = contract_to_value d -> c = d.
Proof.
  destruct c, d. unfold contract_to_value. cbn. intros [= -> Hc -> -> -> ->].
  by apply class_str_inj in Hc as ->.
Qed.

Lemma receipt_body_to_value_inj b c : receipt_body_to_value b = receipt_body_to_value c -> b = c.
Proof.
  destruct b, c. unfold receipt_body_to_value. cbn.
  intros [=]. subst. f_equal; try done. by apply time_to_json_inj.
Qed.
End effect_lemmas.

Definition contract_wf (c : EffectContract) : bool :=
  value_wf (ec_arguments c) && value_wf (ec_preconditions c).

Lemma contract_to_value_wf c : contract_wf c = true -> value_wf (contract_to_value c) = true.
Proof.
  unfold contract_wf. intros Hc. bool_hyps. unfold contract_to_value. cbn [value_wf].
  apply andb_true_iff. split; [reflexivity|]. cbn. by rewrite H, H0.
Qed.

(** * Properties *)

(** Approving a contract hash means approving exactly that contract: two contracts
    with the same hash agree on operation, resource, arguments, preconditions,
    idempotency key and class, or exhibit a SHA-256 collision. *)
Theorem contract_hash_binding `{!Serde, !SerdeLaws, !Sha256} (c d : EffectContract) :
  contract_wf c = true -> contract_wf d = true ->
  contract_hash c = contract_hash d -> c = d \/ sha256_collision.
Proof.
  intros Hc Hd [Heq|?]%hash_canonical_binding; auto using contract_to_value_wf.
  left. by apply contract_to_value_inj.
Qed.

(** The canonical encoding does not depend on the order in which an object's entries
    were inserted, at any key order with distinct keys. *)
Theorem canonical_key_order `{!Serde, !Sha256} (m m' : list (string * Value)) :
  NoDup m.*1 -> m ≡ₚ m' -> hash_canonical (Object m) = hash_canonical (Object m').
Proof.
  intros Hnd Hp. unfold hash_canonical, canonical_json. f_equal.
  by apply write_canonical_perm.
Qed.

Module EffectDemo.
#[local] Existing Instance BitSerde.serde.
#[local] Existing Instance BitSerde.serde_laws.
#[local] Existing Instance BitSerde.sha256.

Definition pr_contract : EffectContract :=
  mkContract "github.create_pull_request" "org/repo"
    (Object [("base", Str "main"); ("draft", VBool true)])
    (Object [("base_head_sha", Str "abc123")]) "ep-7-step-98" Compensatable.

Lemma contract_hash_binding_witness :
  contract_wf pr_contract = true
  /\ (pr_contract = pr_contract \/ @sha256_collision BitSerde.sha256).
Proof.
  split; [reflexivity|].
  apply (contract_hash_binding pr_contract pr_contract); reflexivity.
Defined.

Lemma canonical_key_order_witness :
  hash_canonical (Object [("x", Str "1"); ("y", Str "2")])
  = hash_canonical (Object [("y", Str "2"); ("x", Str "1")]).
Proof.
  apply (canonical_key_order [("x", Str "1"); ("y", Str "2")]).
  - by repeat constructor; rewrite ?elem_of_cons, ?elem_of_nil; intros [].
  - apply Permutation_swap.
Defined.
End EffectDemo.
