(* ===== verification/B64.v ===== *)
(** Base64 of [kernel/core/src/b64.rs]: bytes are the characters of a
    [string]; [u32] arithmetic is on [Z] with the shift's wrap-around written
    out. *)

From S2P Require Import Prelude.

Open Scope Z_scope.

(** * Words *)

Definition byte_val (c : ascii) : Z := Z.of_N (N_of_ascii c).

(** [as u8]. *)
Definition as_u8 (n : Z) : ascii := ascii_of_N (Z.to_N (n mod 256)).

(** [<<] on [u32]. *)
Definition u32_shl (n k : Z) : Z := Z.shiftl n k mod 2 ^ 32.

(** * Encoding *)

Definition ALPHABET : string := "ABCDEFGHIJKLMNOPQRSTUVWXYZabcdefghijklmnopqrstuvwxyz0123456789+/".

Definition alphabet_at (i : Z) : ascii :=
  match String.get (Z.to_nat i) ALPHABET with Some c => c | None => "?"%char end.

Definition word24 (b0 b1 b2 : Z) : Z :=
  Z.lor (Z.lor (u32_shl b0 16) (u32_shl b1 8)) b2.

Definition sextet (n k : Z) : ascii := alphabet_at (Z.land (Z.shiftr n k) 63).

Fixpoint encode (input : string) : string :=
  match input with
  | EmptyString => EmptyString
  | String a rest =>
      match rest with
      | EmptyString =>
          let n := word24 (byte_val a) 0 0 in
          String (sextet n 18) (String (sextet n 12) (String "="%char (String "="%char EmptyString)))
      | String b rest =>
          match rest with
          | EmptyString =>
              let n := word24 (byte_val a) (byte_val b) 0 in
              String (sextet n 18) (String (sextet n 12) (String (sextet n 6) (String "="%char EmptyString)))
          | String c rest =>
              let n := word24 (byte_val a) (byte_val b) (byte_val c) in
              String (sextet n 18) (String (sextet n 12) (String (sextet n 6) (String (sextet n 0) (encode rest))))
          end
      end
  end.

(** * Decoding *)

Definition hex_digit (n : Z) : string :=
  match String.get (Z.to_nat n) "0123456789abcdef" with Some c => String c EmptyString | None => "" end.

Definition bad_byte (c : ascii) : string :=
  "invalid base64 byte 0x" +:+ hex_digit (byte_val c / 16) +:+ hex_digit (byte_val c mod 16).

Definition val (c : ascii) : result string Z :=
  let v := byte_val c in
  if (65 <=? v) && (v <=? 90) then Ok (v - 65)
  else if (97 <=? v) && (v <=? 122) then Ok (v - 97 + 26)
  else if (48 <=? v) && (v <=? 57) then Ok (v - 48 + 52)
  else if v =? 43 then Ok 62
  else if v =? 47 then Ok 63
  else Err (bad_byte c).

(** [u8::is_ascii_whitespace]: space, tab, line feed, form feed, carriage return. *)
Definition is_ascii_whitespace (c : ascii) : bool :=
  let v := byte_val c in (v =? 32) || (v =? 9) || (v =? 10) || (v =? 12) || (v =? 13).

Definition kept (c : ascii) : bool := negb (is_ascii_whitespace c) && negb (byte_val c =? 61).

Fixpoint cleaned (input : string) : string :=
  match input with
  | EmptyString => EmptyString
  | String c rest => if kept c then String c (cleaned rest) else cleaned rest
  end.

(** The loop over one chunk: [n = (n << 6) | val(c)?]. *)
Fixpoint chunk_value (chunk : list ascii) (n : Z) : result string Z :=
  match chunk with
  | [] => Ok n
  | c :: rest => v ← val c; chunk_value rest (Z.lor (u32_shl n 6) v)
  end.

Definition chunk_word (chunk : list ascii) : result string Z :=
  n ← chunk_value chunk 0;
  Ok (u32_shl n (6 * (4 - Z.of_nat (length chunk)))).

Fixpoint decode_chunks (s : string) : result string string :=
  match s with
  | EmptyString => Ok EmptyString
  | String a rest =>
      match rest with
      | EmptyString => Err "truncated base64 input"
      | String b rest =>
          match rest with
          | EmptyString =>
              n ← chunk_word [a; b];
              Ok (String (as_u8 (Z.shiftr n 16)) EmptyString)
          | String c rest =>
              match rest with
              | EmptyString =>
                  n ← chunk_word [a; b; c];
                  Ok (String (as_u8 (Z.shiftr n 16)) (String (as_u8 (Z.shiftr n 8)) EmptyString))
              | String d rest =>
                  n ← chunk_word [a; b; c; d];
                  out ← decode_chunks rest;
                  Ok (String (as_u8 (Z.shiftr n 16))
                        (String (as_u8 (Z.shiftr n 8)) (String (as_u8 n) out)))
              end
          end
      end
  end.

Definition decode (input : string) : result string string := decode_chunks (cleaned input).

(** * Lemmas on words *)

Lemma byte_val_range c : 0 <= byte_val c < 256.
Proof.
  unfold byte_val. pose proof (N_ascii_bounded c) as Hb. lia.
Qed.

Lemma as_u8_byte_val n c : n mod 256 = byte_val c -> as_u8 n = c.
Proof.
  intros Hn. unfold as_u8. rewrite Hn. unfold byte_val. rewrite N2Z.id. apply ascii_N_embedding.
Qed.

(** Joining a shifted word and a small one is addition. *)
Lemma lor_shift x y k : 0 <= k -> 0 <= y < 2 ^ k -> Z.lor (Z.shiftl x k) y = x * 2 ^ k + y.
Proof.
  intros Hk Hy. rewrite Z.shiftl_mul_pow2 by done.
  assert (Z.land (x * 2 ^ k) y = 0) as Hd.
  { apply Z.bits_inj'. intros i Hi. rewrite Z.land_spec, Z.bits_0.
    destruct (decide (i < k)) as [Hlt|Hge].
    - by rewrite Z.mul_pow2_bits_low.
    - destruct (decide (y = 0)) as [->|Hy0]; [by rewrite Z.bits_0, andb_false_r|].
      rewrite (Z.bits_above_log2 y i), andb_false_r; [done|lia|].
      apply Z.log2_lt_pow2; [lia|]. apply Z.lt_le_trans with (2 ^ k); [lia|].
      apply Z.pow_le_mono_r; lia. }
  rewrite Z.add_nocarry_lxor by done. by rewrite <- Z.lxor_lor.
Qed.

Lemma u32_shl_small n k : 0 <= n -> 0 <= k -> n * 2 ^ k < 2 ^ 32 -> u32_shl n k = Z.shiftl n k.
Proof.
  intros Hn Hk Hb. unfold u32_shl. rewrite Z.shiftl_mul_pow2 by done. apply Z.mod_small. nia.
Qed.

Lemma word24_value a b c :
  0 <= a < 256 -> 0 <= b < 256 -> 0 <= c < 256 -> word24 a b c = (a * 256 + b) * 256 + c.
Proof.
  intros Ha Hb Hc. unfold word24. rewrite !u32_shl_small by lia.
  replace (Z.lor (Z.shiftl a 16) (Z.shiftl b 8)) with (Z.shiftl (a * 256 + b) 8).
  - rewrite lor_shift by lia. lia.
  - rewrite (lor_shift a (Z.shiftl b 8)) by (rewrite ?Z.shiftl_mul_pow2; lia).
    rewrite !Z.shiftl_mul_pow2 by lia. lia.
Qed.

Definition sextet_val (n k : Z) : Z := (n / 2 ^ k) mod 64.

Lemma sextet_land n k : 0 <= k -> Z.land (Z.shiftr n k) 63 = sextet_val n k.
Proof.
  intros Hk. unfold sextet_val. rewrite Z.shiftr_div_pow2 by done.
  by rewrite <- (Z.land_ones _ 6).
Qed.

(** * Lemmas on characters *)

(** The checks that every index of the alphabet decodes to itself and is kept
    by the whitespace filter. *)
Lemma alphabet_checked :
  forallb (fun i => match val (alphabet_at i) with Ok v => v =? i | Err _ => false end
                    && kept (alphabet_at i)) (map Z.of_nat (seq 0 64)) = true.
Proof. by vm_compute. Qed.

Lemma alphabet_ok i : 0 <= i < 64 -> val (alphabet_at i) = Ok i /\ kept (alphabet_at i) = true.
Proof.
  intros Hi. pose proof alphabet_checked as Hall. rewrite List.forallb_forall in Hall.
  specialize (Hall i). assert (In i (map Z.of_nat (seq 0 64))) as Hin.
  { apply in_map_iff. exists (Z.to_nat i). split; [lia|]. apply in_seq. lia. }
  apply Hall, andb_true_iff in Hin as [Hv Hk]. split; [|done].
  destruct (val (alphabet_at i)) as [v|]; [|done]. apply Z.eqb_eq in Hv. by subst.
Qed.

Lemma sextet_ok n k : 0 <= k -> val (sextet n k) = Ok (sextet_val n k) /\ kept (sextet n k) = true.
Proof.
  intros Hk. unfold sextet. rewrite sextet_land by done. apply alphabet_ok.
  apply Z.mod_pos_bound. lia.
Qed.

Lemma val_range c v : val c = Ok v -> 0 <= v < 64.
Proof.
  unfold val. intros Hv. repeat case_match; bool_hyps; simplify_eq; try done; lia.
Qed.

Lemma cleaned_app s t : cleaned (s +:+ t) = cleaned s +:+ cleaned t.
Proof. induction s as [|c s IH]; cbn; [done|]. rewrite IH. by destruct (kept c). Qed.

(** * Lemmas on chunks *)

Lemma chunk_value_step c l n v :
  val c = Ok v -> 0 <= n < 2 ^ 24 -> chunk_value (c :: l) n = chunk_value l (n * 64 + v).
Proof.
  intros Hv Hn. cbn [chunk_value]. rewrite Hv. cbn [mbind result_bind].
  rewrite u32_shl_small by lia. rewrite lor_shift; [done|lia|]. by apply val_range in Hv.
Qed.

Lemma chunk_word4 a b c d x y z w :
  val a = Ok x -> val b = Ok y -> val c = Ok z -> val d = Ok w ->
  chunk_word [a; b; c; d] = Ok (((x * 64 + y) * 64 + z) * 64 + w).
Proof.
  intros Ha Hb Hc Hd. pose proof (val_range _ _ Ha). pose proof (val_range _ _ Hb).
  pose proof (val_range _ _ Hc). pose proof (val_range _ _ Hd). unfold chunk_word.
  erewrite chunk_value_step, chunk_value_step, chunk_value_step, chunk_value_step by (done || lia).
  cbn [chunk_value mbind result_bind length]. rewrite u32_shl_small by lia. rewrite Z.shiftl_mul_pow2 by lia.
  f_equal; lia.
Qed.

Lemma chunk_word3 a b c x y z :
  val a = Ok x -> val b = Ok y -> val c = Ok z ->
  chunk_word [a; b; c] = Ok (((x * 64 + y) * 64 + z) * 64).
Proof.
  intros Ha Hb Hc. pose proof (val_range _ _ Ha). pose proof (val_range _ _ Hb).
  pose proof (val_range _ _ Hc). unfold chunk_word.
  erewrite chunk_value_step, chunk_value_step, chunk_value_step by (done || lia).
  cbn [chunk_value mbind result_bind length]. rewrite u32_shl_small by lia. rewrite Z.shiftl_mul_pow2 by lia.
  f_equal; lia.
Qed.

Lemma chunk_word2 a b x y :
  val a = Ok x -> val b = Ok y -> chunk_word [a; b] = Ok ((x * 64 + y) * 4096).
Proof.
  intros Ha Hb. pose proof (val_range _ _ Ha). pose proof (val_range _ _ Hb). unfold chunk_word.
  erewrite chunk_value_step, chunk_value_step by (done || lia).
  cbn [chunk_value mbind result_bind length]. rewrite u32_shl_small by lia. rewrite Z.shiftl_mul_pow2 by lia.
  f_equal; lia.
Qed.

(** Induction over a text in blocks of [k]: here three bytes. *)
Lemma str_ind3 (P : string -> Prop) :
  P EmptyString -> (forall a, P (String a EmptyString)) ->
  (forall a b, P (String a (String b EmptyString))) ->
  (forall a b c s, P s -> P (String a (String b (String c s)))) -> forall s, P s.
Proof.
  intros H0 H1 H2 H3. fix IH 1. intros [|a [|b [|c s]]]; [done|apply H1|apply H2|apply H3, IH].
Qed.

Lemma str_ind4 (P : string -> Prop) :
  P EmptyString -> (forall a, P (String a EmptyString)) ->
  (forall a b, P (String a (String b EmptyString))) ->
  (forall a b c, P (String a (String b (String c EmptyString)))) ->
  (forall a b c d s, P s -> P (String a (String b (String c (String d s))))) -> forall s, P s.
Proof.
  intros H0 H1 H2 H3 H4. fix IH 1.
  intros [|a [|b [|c [|d s]]]]; [done|apply H1|apply H2|apply H3|apply H4, IH].
Qed.

(** The four sextets of a 24-bit word make it up. *)
Lemma sextets_join n : 0 <= n < 2 ^ 24 ->
  ((sextet_val n 18 * 64 + sextet_val n 12) * 64 + sextet_val n 6) * 64 + sextet_val n 0 = n.
Proof.
  intros Hn. unfold sextet_val.
  change (2 ^ 18) with 262144. change (2 ^ 12) with 4096. change (2 ^ 6) with 64. change (2 ^ 0) with 1.
  change (2 ^ 24) with 16777216 in Hn. Z.to_euclidean_division_equations. lia.
Qed.

Lemma decode_block3 a b c s :
  decode (encode (String a (String b (String c s)))) =
  (out ← decode (encode s); Ok (String a (String b (String c out)))).
Proof.
  pose proof (byte_val_range a). pose proof (byte_val_range b). pose proof (byte_val_range c).
  cbn [encode]. rewrite word24_value by done. set (n := (_ * 256 + _) * 256 + _).
  unfold decode. cbn [cleaned].
  rewrite (proj2 (sextet_ok n 18 ltac:(lia))), (proj2 (sextet_ok n 12 ltac:(lia))),
    (proj2 (sextet_ok n 6 ltac:(lia))), (proj2 (sextet_ok n 0 ltac:(lia))).
  cbn [decode_chunks]. erewrite chunk_word4; [|apply sextet_ok; lia..]. cbn [mbind result_bind].
  rewrite sextets_join by (unfold n; lia).
  rewrite !Z.shiftr_div_pow2 by lia. change (2 ^ 16) with 65536. change (2 ^ 8) with 256.
  rewrite (as_u8_byte_val (n / 65536) a), (as_u8_byte_val (n / 256) b), (as_u8_byte_val n c);
    [done|unfold n; Z.to_euclidean_division_equations; lia..].
Qed.

Lemma decode_block2 a b :
  decode (encode (String a (String b EmptyString))) = Ok (String a (String b EmptyString)).
Proof.
  pose proof (byte_val_range a). pose proof (byte_val_range b).
  cbn [encode]. rewrite word24_value by lia. set (n := (_ * 256 + _) * 256 + _).
  unfold decode. cbn [cleaned].
  rewrite (proj2 (sextet_ok n 18 ltac:(lia))), (proj2 (sextet_ok n 12 ltac:(lia))),
    (proj2 (sextet_ok n 6 ltac:(lia))). change (kept "=") with false.
  cbn [decode_chunks]. erewrite chunk_word3; [|apply sextet_ok; lia..]. cbn [mbind result_bind].
  assert (((sextet_val n 18 * 64 + sextet_val n 12) * 64 + sextet_val n 6) * 64 = n) as ->.
  { rewrite <- (sextets_join n) at 4 by (unfold n; lia). unfold sextet_val at 7. unfold n.
    change (2 ^ 0) with 1. Z.to_euclidean_division_equations. lia. }
  rewrite !Z.shiftr_div_pow2 by lia. change (2 ^ 16) with 65536. change (2 ^ 8) with 256.
  rewrite (as_u8_byte_val (n / 65536) a), (as_u8_byte_val (n / 256) b);
    [done|unfold n; Z.to_euclidean_division_equations; lia..].
Qed.

Lemma decode_block1 a : decode (encode (String a EmptyString)) = Ok (String a EmptyString).
Proof.
  pose proof (byte_val_range a).
  cbn [encode]. rewrite word24_value by lia. set (n := (_ * 256 + _) * 256 + _).
  unfold decode. cbn [cleaned].
  rewrite (proj2 (sextet_ok n 18 ltac:(lia))), (proj2 (sextet_ok n 12 ltac:(lia))).
  change (kept "=") with false.
  cbn [decode_chunks]. erewrite chunk_word2; [|apply sextet_ok; lia..]. cbn [mbind result_bind].
  rewrite !Z.shiftr_div_pow2 by lia. rewrite (as_u8_byte_val _ a); [done|].
  unfold sextet_val, n. change (2 ^ 18) with 262144. change (2 ^ 12) with 4096. change (2 ^ 16) with 65536.
  Z.to_euclidean_division_equations. lia.
Qed.

Definition valid_char (c : ascii) : bool := is_ok (val c).

Lemma chunk_word_valid l : is_ok (chunk_word l) = forallb valid_char l.
Proof.
  unfold chunk_word.
  assert (forall n, is_ok (chunk_value l n) = forallb valid_char l) as Hv.
  { induction l as [|c l IH]; intros n; cbn; [done|]. unfold valid_char.
    destruct (val c); cbn; [apply IH|done]. }
  rewrite <- (Hv 0). by destruct (chunk_value l 0).
Qed.

Fixpoint all_valid (s : string) : bool :=
  match s with EmptyString => true | String c rest => valid_char c && all_valid rest end.

(** What the decoder makes of a cleaned text of a given shape. *)
Definition decodes_well (s : string) : Prop :=
  match decode_chunks s with
  | Ok out => (String.length s mod 4 <> 1)%nat /\ all_valid s = true
              /\ String.length out = (String.length s * 3 / 4)%nat
  | Err _ => (String.length s mod 4 = 1)%nat \/ all_valid s = false
  end.

Lemma decodes_well_all s : decodes_well s.
Proof.
  induction s as [|a|a b|a b c|a b c d s IH] using str_ind4; unfold decodes_well in *.
  - done.
  - by left.
  - cbn [decode_chunks]. pose proof (chunk_word_valid [a; b]) as Hv. cbn [all_valid].
    destruct (chunk_word _); cbn [mbind result_bind is_ok forallb] in *; rewrite <- Hv; [by cbn|by right].
  - cbn [decode_chunks]. pose proof (chunk_word_valid [a; b; c]) as Hv. cbn [all_valid].
    destruct (chunk_word _); cbn [mbind result_bind is_ok forallb] in *; rewrite <- Hv; [by cbn|by right].
  - cbn [decode_chunks]. pose proof (chunk_word_valid [a; b; c; d]) as Hv. cbn [all_valid].
    replace (String.length (String a (String b (String c (String d s))))) with (String.length s + 1 * 4)%nat by (cbn; lia).
    rewrite Nat.Div0.mod_add. replace (valid_char a && (valid_char b && (valid_char c && (valid_char d && all_valid s))))
      with (forallb valid_char [a; b; c; d] && all_valid s) by (cbn; by rewrite <- !andb_assoc).
    rewrite <- Hv. destruct (chunk_word _); cbn [mbind result_bind is_ok andb]; [|by right].
    destruct (decode_chunks s); cbn [mbind result_bind String.length]; [|done].
    destruct IH as (Hm & Ha & ->). split_and!; try done.
    replace ((String.length s + 1 * 4) * 3)%nat with (String.length s * 3 + 3 * 4)%nat by lia.
    rewrite Nat.div_add by done. lia.
Qed.

(** * Properties *)

(** base64 round trip: every byte string decodes back from its encoding, and the encoding
    has exactly the length its buffer is reserved with, four characters for each started
    group of three bytes. *)
Theorem decode_encode s :
  decode (encode s) = Ok s /\ String.length (encode s) = ((String.length s + 2) / 3 * 4)%nat.
Proof.
  split.
  - induction s as [|a|a b|a b c s IH] using str_ind3.
    + done.
    + apply decode_block1.
    + apply decode_block2.
    + by rewrite decode_block3, IH.
  - induction s as [|a|a b|a b c s IH] using str_ind3; try done.
    cbn [encode String.length]. rewrite IH.
    replace (S (S (S (String.length s))) + 2)%nat with (String.length s + 2 + 1 * 3)%nat by lia.
    rewrite Nat.div_add by done. lia.
Qed.

(** base64 decoding is total and bounded: once whitespace and padding are dropped, it
    fails exactly when one character is left over or a character is outside the alphabet,
    and otherwise returns three bytes for every four characters, the capacity it reserved. *)
Theorem decode_exact t :
  match decode t with
  | Ok out => (String.length (cleaned t) mod 4 <> 1)%nat /\ all_valid (cleaned t) = true
              /\ String.length out = (String.length (cleaned t) * 3 / 4)%nat
  | Err _ => (String.length (cleaned t) mod 4 = 1)%nat \/ all_valid (cleaned t) = false
  end.
Proof. exact (decodes_well_all (cleaned t)). Qed.

Example encode_foobar : encode "foobar" = "Zm9vYmFy" /\ encode "fo" = "Zm8=" /\ is_ok (decode "!!!") = false.
Proof. by vm_compute. Qed.
