(* ===== verification/Utf8.v ===== *)
(** UTF-8 as the standard library decodes it: a byte string falls into
    characters and maximal ill-formed pieces; [String::from_utf8_lossy]
    replaces each of the latter by U+FFFD.  Also [str::trim], [str::lines] and
    [str::is_char_boundary], which work on characters. *)

From S2P Require Import Prelude B64.

Open Scope Z_scope.

(** * Pieces *)

Inductive Piece := Char (c : string) | Bad (c : string).

Definition piece_bytes (p : Piece) : string := match p with Char c | Bad c => c end.

Definition byte_in (lo hi : Z) (c : ascii) : bool := (lo <=? byte_val c) && (byte_val c <=? hi).

Definition cont (c : ascii) : bool := byte_in 0x80 0xBF c.

(** The second byte of a three- or four-byte character, by its first. *)
Definition second3 (a b : ascii) : bool :=
  if byte_val a =? 0xE0 then byte_in 0xA0 0xBF b
  else if byte_val a =? 0xED then byte_in 0x80 0x9F b else cont b.

Definition second4 (a b : ascii) : bool :=
  if byte_val a =? 0xF0 then byte_in 0x90 0xBF b
  else if byte_val a =? 0xF4 then byte_in 0x80 0x8F b else cont b.

(** The length a first byte announces; 0 for a byte that starts no character. *)
Definition width (a : ascii) : nat :=
  if byte_val a <? 0x80 then 1
  else if byte_in 0xC2 0xDF a then 2
  else if byte_in 0xE0 0xEF a then 3
  else if byte_in 0xF0 0xF4 a then 4 else 0.

Local Notation "a :+ s" := (String a s) (at level 60, right associativity, only parsing).

Fixpoint pieces (s : string) : list Piece :=
  match s with
  | EmptyString => []
  | String a r =>
      match width a with
      | 1%nat => Char (String a EmptyString) :: pieces r
      | 2%nat =>
          match r with
          | String b r2 =>
              if cont b then Char (a:+ b:+ EmptyString) :: pieces r2
              else Bad (a:+ EmptyString) :: pieces r
          | EmptyString => [Bad (a:+ EmptyString)]
          end
      | 3%nat =>
          match r with
          | String b r2 =>
              if second3 a b then
                match r2 with
                | String c r3 =>
                    if cont c then Char (a:+ b:+ c:+ EmptyString) :: pieces r3
                    else Bad (a:+ b:+ EmptyString) :: pieces r2
                | EmptyString => [Bad (a:+ b:+ EmptyString)]
                end
              else Bad (a:+ EmptyString) :: pieces r
          | EmptyString => [Bad (a:+ EmptyString)]
          end
      | 4%nat =>
          match r with
          | String b r2 =>
              if second4 a b then
                match r2 with
                | String c r3 =>
                    if cont c then
                      match r3 with
                      | String d r4 =>
                          if cont d then Char (a:+ b:+ c:+ d:+ EmptyString) :: pieces r4
                          else Bad (a:+ b:+ c:+ EmptyString) :: pieces r3
                      | EmptyString => [Bad (a:+ b:+ c:+ EmptyString)]
                      end
                    else Bad (a:+ b:+ EmptyString) :: pieces r2
                | EmptyString => [Bad (a:+ b:+ EmptyString)]
                end
              else Bad (a:+ EmptyString) :: pieces r
          | EmptyString => [Bad (a:+ EmptyString)]
          end
      | _ => Bad (a:+ EmptyString) :: pieces r
      end
  end.

(** U+FFFD. *)
Definition replacement : string :=
  String (ascii_of_N 0xEF) (String (ascii_of_N 0xBF) (String (ascii_of_N 0xBD) EmptyString)).

Definition piece_lossy (p : Piece) : string := match p with Char c => c | Bad _ => replacement end.

Fixpoint str_concat (l : list string) : string :=
  match l with [] => EmptyString | w :: ws => w +:+ str_concat ws end.

Definition from_utf8_lossy (raw : string) : string := str_concat (map piece_lossy (pieces raw)).

Definition is_char (p : Piece) : bool := match p with Char _ => true | Bad _ => false end.

(** Well-formed UTF-8: the invariant of a [String]. *)
Definition utf8_valid (s : string) : bool := forallb is_char (pieces s).

(** * Characters of a well-formed string *)

Definition chars (s : string) : list string := map piece_bytes (pieces s).

Definition codes (l : list Z) : string := foldr (fun n s => String (ascii_of_N (Z.to_N n)) s) EmptyString l.

(** [char::is_whitespace], by its encodings. *)
Definition white_space : list string :=
  map codes
    ([ [0x09]; [0x0A]; [0x0B]; [0x0C]; [0x0D]; [0x20]; [0xC2; 0x85]; [0xC2; 0xA0]; [0xE1; 0x9A; 0x80] ]
     ++ map (fun n => [0xE2; 0x80; n])
          [0x80; 0x81; 0x82; 0x83; 0x84; 0x85; 0x86; 0x87; 0x88; 0x89; 0x8A; 0xA8; 0xA9; 0xAF]
     ++ [ [0xE2; 0x81; 0x9F]; [0xE3; 0x80; 0x80] ]).

Definition is_whitespace (c : string) : bool := bool_decide (c ∈ white_space).

Fixpoint drop_while (f : string -> bool) (l : list string) : list string :=
  match l with [] => [] | c :: r => if f c then drop_while f r else l end.

Definition trim (s : string) : string :=
  str_concat (rev (drop_while is_whitespace (rev (drop_while is_whitespace (chars s))))).

(** [str::is_char_boundary]. *)
Definition is_char_boundary (s : string) (n : nat) : bool :=
  match n with
  | O => true
  | _ => match String.get n s with
         | Some c => negb (cont c)
         | None => Nat.eqb n (String.length s)
         end
  end.

(** [str::lines]: pieces ended by a newline, a carriage return before it
    dropped; nothing after a final newline. *)
Definition strip_cr (s : string) : string :=
  match rev (String.list_ascii_of_string s) with
  | c :: r => if Ascii.eqb c "013" then String.string_of_list_ascii (rev r) else s
  | [] => s
  end.

Fixpoint lines_of (l : list string) : list string :=
  match l with
  | [] => []
  | [last] => if str_is_empty last then [] else [last]
  | w :: ws => strip_cr w :: lines_of ws
  end.

Definition lines (s : string) : list string := lines_of (str_split "010" s).

(** * Lemmas *)

Lemma str_concat_app l1 l2 : str_concat (l1 ++ l2) = str_concat l1 +:+ str_concat l2.
Proof. induction l1 as [|c l1 IH]; cbn; [done|]. by rewrite IH, str_app_assoc. Qed.

(** One step of the splitting: the first piece, and what is left. *)
Definition splits_off (s : string) (p : Piece) (rest : string) : Prop :=
  s = piece_bytes p +:+ rest /\ piece_bytes p <> EmptyString /\ pieces s = p :: pieces rest.

Lemma pieces_step a r : exists p rest, splits_off (String a r) p rest.
Proof.
  unfold splits_off. cbn [pieces].
  repeat case_match; subst; do 2 eexists; (split_and!; [|..|first [reflexivity | exact (eq_refl (_ :: pieces EmptyString))]]); done.
Qed.

(** Induction along the pieces of a string. *)
Lemma pieces_ind (P : string -> Prop) :
  P EmptyString ->
  (forall s p rest, splits_off s p rest -> P rest -> P s) -> forall s, P s.
Proof.
  intros H0 Hs. assert (forall n s, (String.length s <= n)%nat -> P s) as Hn.
  { induction n as [|n IH]; intros [|a r] Hle; try done; [cbn in Hle; lia|].
    destruct (pieces_step a r) as (p & rest & Hp). eapply Hs; [exact Hp|]. apply IH.
    destruct Hp as (Heq & Hne & _). apply (f_equal String.length) in Heq.
    rewrite str_length_app in Heq. destruct (piece_bytes p); [done|]. cbn in *. lia. }
  intros s. by eapply Hn.
Qed.

(** Nothing is lost in splitting. *)
Lemma pieces_concat s : str_concat (map piece_bytes (pieces s)) = s.
Proof.
  induction s as [|s p rest (Heq & _ & Hp) IH] using pieces_ind; [done|].
  rewrite Hp. cbn. by rewrite IH.
Qed.

(** A character is a lead byte and continuation bytes, and is cut off any
    string that starts with it. *)
Definition char_ok (c : string) : Prop :=
  exists a r, c = String a r /\ cont a = false
    /\ Forall (fun b => cont b = true) (String.list_ascii_of_string r)
    /\ (String.length c <= 4)%nat
    /\ forall rest, pieces (c +:+ rest) = Char c :: pieces rest.

Lemma width_lead a : width a <> 0%nat -> cont a = false.
Proof.
  unfold width, cont, byte_in. intros Hw. pose proof (byte_val_range a). apply not_true_is_false. intros Hc.
  bool_hyps. repeat case_match; bool_hyps; try lia; done.
Qed.

Lemma byte_in_cont lo hi b : 0x80 <= lo -> hi <= 0xBF -> byte_in lo hi b = true -> cont b = true.
Proof. unfold cont, byte_in. intros ? ? Hb. bool_hyps. apply andb_true_iff. lia. Qed.

Lemma second3_cont a b : second3 a b = true -> cont b = true.
Proof. unfold second3. repeat case_match; try done; by apply byte_in_cont. Qed.

Lemma second4_cont a b : second4 a b = true -> cont b = true.
Proof. unfold second4. repeat case_match; try done; by apply byte_in_cont. Qed.

Lemma pieces_char_ok s c : Char c ∈ pieces s -> char_ok c.
Proof.
  induction s as [|s p rest Hp IH] using pieces_ind; [by intros []%elem_of_nil|].
  pose proof Hp as (Heq & _ & Hcs). rewrite Hcs. intros [<-|Hin]%elem_of_cons; [|by apply IH]. clear IH Hcs.
  destruct Hp as (_ & Hne & Hp). destruct s as [|a r]; [done|]. cbn [pieces] in Hp.
  unfold char_ok. repeat case_match; simplify_eq;
    repeat match goal with
    | H : second3 _ _ = true |- _ => pose proof (second3_cont _ _ H); revert H
    | H : second4 _ _ = true |- _ => pose proof (second4_cont _ _ H); revert H
    end; intros;
    do 2 eexists; (split_and!;
      [reflexivity|apply width_lead; congruence|repeat (apply Forall_cons; split; [done|]); apply Forall_nil; done
      |cbn; lia|]);
    intros rest'; cbn [String.append pieces];
    repeat match goal with
    | H : width _ = _ |- _ => rewrite H
    | H : cont _ = true |- _ => rewrite H
    | H : second3 _ _ = true |- _ => rewrite H
    | H : second4 _ _ = true |- _ => rewrite H
    end; done.
Qed.

Lemma replacement_ok : char_ok replacement.
Proof. apply (pieces_char_ok replacement). vm_compute. left. Qed.

Lemma pieces_lossy_ok s : Forall char_ok (map piece_lossy (pieces s)).
Proof.
  apply Forall_forall. intros c (p & -> & Hp)%list_elem_of_fmap. destruct p as [c|c]; cbn.
  - by eapply pieces_char_ok.
  - apply replacement_ok.
Qed.

(** Characters put together split into themselves. *)
Lemma pieces_chars l : Forall char_ok l -> pieces (str_concat l) = map Char l.
Proof.
  induction 1 as [|c l (a & r & _ & _ & _ & _ & Hc) _ IH]; cbn; [done|]. by rewrite Hc, IH.
Qed.

Lemma chars_concat l : Forall char_ok l -> chars (str_concat l) = l.
Proof. intros Hl. unfold chars. rewrite pieces_chars, map_map by done. cbn. apply map_id. Qed.

Lemma utf8_valid_concat l : Forall char_ok l -> utf8_valid (str_concat l) = true.
Proof.
  intros Hl. unfold utf8_valid. rewrite pieces_chars by done. apply List.forallb_forall.
  by intros p (c & <- & _)%in_map_iff.
Qed.

Lemma utf8_valid_chars s : utf8_valid s = true -> Forall char_ok (chars s) /\ str_concat (chars s) = s.
Proof.
  intros Hv. split; [|apply pieces_concat]. apply Forall_forall.
  intros c (p & -> & Hp)%list_elem_of_fmap. unfold utf8_valid in Hv. rewrite List.forallb_forall in Hv.
  specialize (Hv p ltac:(by apply list_elem_of_In)). destruct p as [c|]; [|done]. by eapply pieces_char_ok.
Qed.

(** Lossy decoding gives well-formed text, leaves well-formed text alone and
    at most triples the length. *)
Lemma from_utf8_lossy_valid raw : utf8_valid (from_utf8_lossy raw) = true.
Proof. apply utf8_valid_concat, pieces_lossy_ok. Qed.

Lemma from_utf8_lossy_id s : utf8_valid s = true -> from_utf8_lossy s = s.
Proof.
  intros Hv. rewrite <- (pieces_concat s) at 2. unfold from_utf8_lossy. f_equal.
  apply map_ext_in. intros p Hp. unfold utf8_valid in Hv. rewrite List.forallb_forall in Hv.
  apply Hv in Hp. by destruct p.
Qed.

Lemma from_utf8_lossy_length raw : (String.length (from_utf8_lossy raw) <= 3 * String.length raw)%nat.
Proof.
  unfold from_utf8_lossy. induction raw as [|s p rest (Heq & Hne & Hp) IH] using pieces_ind; [done|].
  rewrite Hp, Heq. cbn [map str_concat]. rewrite !str_length_app.
  assert (String.length (piece_lossy p) <= 3 * String.length (piece_bytes p))%nat; [|lia].
  destruct p as [c|[|a c]]; cbn in *; [lia|done|lia].
Qed.
