(* ===== verification/Ledger.v ===== *)
(** The causal ledger: [kernel/causal_ledger/src/event.rs] and [ledger.rs].

    The events table is the list of its rows in [seq] order, which is the order
    of every query; the raw-output and receipt tables are [gmap]s.  The columns
    [timestamp], [payload] and [caused_by] are the text that is stored: printing
    and parsing them is [JsonText], of which [JsonTextLaws] asks what [serde_json]
    promises, that text read back gives the value it was printed from
    (floating-point numbers apart).  The deserializer of a state delta, generated
    by serde's derive, is [delta_of_value]. *)

From stdpp Require Import pretty.
From S2P Require Import Prelude Json Budget Capability Types Canonical Effect.

Open Scope Z_scope.

(** * Event kinds *)

Inductive EventKind : Type :=
| KObjective | KModelResponse | KDeclaredIntent | KCapabilityRequest | KPolicyDecision
| KToolInvocation | KOsEvent | KStateDeltaRecorded | KObservationEmitted | KEffectProposed
| KEffectPrepared | KEffectApproved | KEffectCommitted | KEffectAborted | KDenialIssued.

#[export] Instance EventKind_eq_dec : EqDecision EventKind.
Proof. solve_decision. Defined.

Definition kind_str (k : EventKind) : string :=
  match k with
  | KObjective => "objective"
  | KModelResponse => "model_response"
  | KDeclaredIntent => "declared_intent"
  | KCapabilityRequest => "capability_request"
  | KPolicyDecision => "policy_decision"
  | KToolInvocation => "tool_invocation"
  | KOsEvent => "os_event"
  | KStateDeltaRecorded => "state_delta_recorded"
  | KObservationEmitted => "observation_emitted"
  | KEffectProposed => "effect_proposed"
  | KEffectPrepared => "effect_prepared"
  | KEffectApproved => "effect_approved"
  | KEffectCommitted => "effect_committed"
  | KEffectAborted => "effect_aborted"
  | KDenialIssued => "denial_issued"
  end.

Definition ALL : list EventKind :=
  [KObjective; KModelResponse; KDeclaredIntent; KCapabilityRequest; KPolicyDecision;
   KToolInvocation; KOsEvent; KStateDeltaRecorded; KObservationEmitted; KEffectProposed;
   KEffectPrepared; KEffectApproved; KEffectCommitted; KEffectAborted; KDenialIssued].

Definition kind_parse (s : string) : option EventKind :=
  List.find (fun k => String.eqb (kind_str k) s) ALL.
#[global] Arguments kind_parse _ : simpl never.

(** * Events *)

Record EventBody := mkBody {
  ev_seq : Z;               (* i64 *)
  ev_kind : EventKind;
  ev_episode : string;
  ev_branch : option string;
  ev_step : option string;
  ev_principal : string;
  ev_timestamp : DateTime;
  ev_payload : Value;
  ev_caused_by : list Z;    (* i64 *)
  ev_prev_hash : option string;
}.

Record LedgerEvent := mkEvent {
  body : EventBody;
  event_hash : string;
}.

Record NewEvent := mkNewEvent {
  ne_kind : EventKind;
  ne_episode : string;
  ne_branch : option string;
  ne_step : option string;
  ne_principal : string;
  ne_payload : Value;
  ne_caused_by : list Z;
}.

(** A row of the events table. *)
Record EventRow := mkRow {
  row_seq : Z;
  row_kind : string;
  row_episode : string;
  row_branch : option string;
  row_step : option string;
  row_principal : string;
  row_timestamp : string;   (* JSON text, like the two next *)
  row_payload : string;
  row_caused_by : string;
  row_prev_hash : option string;
  row_event_hash : string;
}.

Record TraceQuery := mkQuery {
  q_episode : option string;
  q_branch : option string;
  q_step : option string;
  q_seq_range : option (Z * Z);
  q_principal : option string;
  q_kinds : list EventKind;
  q_time_range : option (DateTime * DateTime);
  q_limit : option nat;
}.

Definition query_default : TraceQuery := mkQuery None None None None None [] None None.

Record Ledger := mkLedger {
  events : list EventRow;
  raw_outputs : gmap string string;
  receipts : gmap string (string * Receipt);   (* by id: idempotency key, receipt *)
}.

Definition ledger_empty : Ledger := mkLedger [] ∅ ∅.

(** [serde_json::to_string] and [serde_json::from_str] at the types of the three columns. *)
Class JsonText := {
  payload_text : Value -> string;
  parse_payload : string -> result string Value;
  stamp_text : DateTime -> string;
  parse_stamp : string -> result string DateTime;
  links_text : list Z -> string;
  parse_links : string -> result string (list Z);
}.

Fixpoint float_free (v : Value) : bool :=
  match v with
  | Number (Float _) => false
  | Array l => forallb float_free l
  | Object m => forallb (fun kv => float_free kv.2) m
  | _ => true
  end.

Definition i64_ok (z : Z) : bool := (- 2 ^ 63 <=? z) && (z <=? i64_max).

Class JsonTextLaws `{!JsonText} : Prop := {
  payload_read_back v : float_free v = true -> parse_payload (payload_text v) = Ok v;
  stamp_read_back t : parse_stamp (stamp_text t) = Ok t;
  links_read_back l : forallb i64_ok l = true -> parse_links (links_text l) = Ok l;
}.

Class DeltaSerde := { delta_of_value : Value -> option StateDelta }.

(** [i64] arithmetic, wrapping in a release build. *)
Definition wrap_i64 (z : Z) : Z := (z + 2 ^ 63) mod 2 ^ 64 - 2 ^ 63.

Definition int_to_value (z : Z) : Value := Number (if z <? 0 then NegInt z else PosInt z).

Section ledger.
Context `{!Serde, !Sha256, !TimeJson, !JsonText, !DeltaSerde}.

(** The derived [Serialize]: absent options and an empty link list are
    skipped. *)
Definition opt_entry (k : string) (o : option string) : list (string * Value) :=
  match o with Some s => [(k, Str s)] | None => [] end.

Definition links_entry (l : list Z) : list (string * Value) :=
  match l with [] => [] | _ => [("caused_by", Array (map int_to_value l))] end.

Definition body_to_value (b : EventBody) : Value :=
  Object (opt_entry "branch" (ev_branch b)
          ++ links_entry (ev_caused_by b)
          ++ [("episode", Str (ev_episode b)); ("kind", Str (kind_str (ev_kind b)));
              ("payload", ev_payload b)]
          ++ opt_entry "prev_event_hash" (ev_prev_hash b)
          ++ [("principal", Str (ev_principal b)); ("seq", int_to_value (ev_seq b))]
          ++ opt_entry "step" (ev_step b)
          ++ [("timestamp", Str (time_to_json (ev_timestamp b)))]).

Definition compute_hash (b : EventBody) : string := hash_canonical (body_to_value b).

Definition row_of_event (e : LedgerEvent) : EventRow :=
  let b := body e in
  mkRow (ev_seq b) (kind_str (ev_kind b)) (ev_episode b) (ev_branch b) (ev_step b)
    (ev_principal b) (stamp_text (ev_timestamp b)) (payload_text (ev_payload b))
    (links_text (ev_caused_by b)) (ev_prev_hash b) (event_hash e).

Definition row_to_event (row : EventRow) : KernelResult LedgerEvent :=
  kind ← ok_or (kind_parse (row_kind row))
           (Storage ("unknown event kind `" +:+ row_kind row +:+ "`"));
  timestamp ← map_err ESerde (parse_stamp (row_timestamp row));
  payload ← map_err ESerde (parse_payload (row_payload row));
  caused_by ← map_err ESerde (parse_links (row_caused_by row));
  Ok (mkEvent
        (mkBody (row_seq row) kind (row_episode row) (row_branch row) (row_step row)
           (row_principal row) timestamp payload caused_by (row_prev_hash row))
        (row_event_hash row)).

(** * Appending *)

(** The INSERT: [seq] is the primary key. *)
Fixpoint insert_row (row : EventRow) (rows : list EventRow) : option (list EventRow) :=
  match rows with
  | [] => Some [row]
  | r :: rest =>
      if row_seq r <? row_seq row then cons r <$> insert_row row rest
      else if row_seq r =? row_seq row then None
      else Some (row :: rows)
  end.

Definition append (self : Ledger) (now : DateTime) (event : NewEvent)
    : KernelResult LedgerEvent * Ledger :=
  let '(seq, prev) :=
    match last (events self) with
    | Some r => (wrap_i64 (row_seq r + 1), Some (row_event_hash r))
    | None => (1, None)
    end in
  let b := mkBody seq (ne_kind event) (ne_episode event) (ne_branch event) (ne_step event)
             (ne_principal event) now (ne_payload event) (ne_caused_by event) prev in
  let e := mkEvent b (compute_hash b) in
  match insert_row (row_of_event e) (events self) with
  | Some rows => (Ok e, mkLedger rows (raw_outputs self) (receipts self))
  | None => (Err (Storage "sqlite: UNIQUE constraint failed: events.seq"), self)
  end.

(** [EventWriter]: fixed attribution. *)
Record EventWriter := mkWriter {
  w_episode : string;
  w_branch : option string;
  w_step : option string;
  w_principal : string;
}.

Definition record_caused_by (w : EventWriter) (self : Ledger) (now : DateTime)
    (kind : EventKind) (payload : Value) (caused_by : list Z)
    : KernelResult LedgerEvent * Ledger :=
  append self now (mkNewEvent kind (w_episode w) (w_branch w) (w_step w) (w_principal w)
                     payload caused_by).

Definition record (w : EventWriter) (self : Ledger) (now : DateTime) (kind : EventKind)
    (payload : Value) : KernelResult LedgerEvent * Ledger :=
  record_caused_by w self now kind payload [].

(** * Verification *)

Fixpoint verify_rows (rows : list EventRow) (prev : option string) (count : Z)
    : KernelResult Z :=
  match rows with
  | [] => Ok count
  | row :: rest =>
      ev ← row_to_event row;
      if negb (bool_decide (ev_prev_hash (body ev) = prev)) then
        Err (Storage ("ledger chain broken at seq " +:+ pretty (ev_seq (body ev))
                      +:+ ": prev_event_hash mismatch"))
      else if negb (bool_decide (compute_hash (body ev) = event_hash ev)) then
        Err (Storage ("ledger tampering detected at seq " +:+ pretty (ev_seq (body ev))
                      +:+ ": content hash mismatch"))
      else verify_rows rest (Some (event_hash ev)) (count + 1)
  end.

Definition verify_chain (self : Ledger) : KernelResult Z := verify_rows (events self) None 0.

(** * Raw outputs *)

Definition store_raw (self : Ledger) (bytes : string) : string * Ledger :=
  let hash := hash_bytes bytes in
  (hash,
   match raw_outputs self !! hash with
   | Some _ => self
   | None => mkLedger (events self) (<[hash := bytes]> (raw_outputs self)) (receipts self)
   end).

Definition fetch_raw (self : Ledger) (hash : string) : KernelResult string :=
  ok_or (raw_outputs self !! hash) (NotFound "raw_output" hash).

(** * Queries *)

Definition opt_eq (o : option string) (s : string) : bool :=
  match o with Some x => bool_decide (x = s) | None => true end.

(** A nullable column: [NULL = ?] is not true. *)
Definition opt_eq_null (o : option string) (s : option string) : bool :=
  match o with Some x => bool_decide (s = Some x) | None => true end.

(** The WHERE clause. *)
Definition row_selected (q : TraceQuery) (r : EventRow) : bool :=
  opt_eq (q_episode q) (row_episode r)
  && opt_eq_null (q_branch q) (row_branch r)
  && opt_eq_null (q_step q) (row_step r)
  && opt_eq (q_principal q) (row_principal r)
  && match q_seq_range q with
     | Some (lo, hi) => (lo <=? row_seq r) && (row_seq r <=? hi)
     | None => true
     end
  && match q_kinds q with
     | [] => true
     | ks => existsb (fun k => String.eqb (kind_str k) (row_kind r)) ks
     end.

Definition in_time_range (q : TraceQuery) (e : LedgerEvent) : bool :=
  match q_time_range q with
  | Some (lo, hi) => (lo <=? ev_timestamp (body e)) && (ev_timestamp (body e) <=? hi)
  | None => true
  end.

(** [collect::<Result<Vec<_>, _>>]. *)
Fixpoint collect_results {A} (l : list (KernelResult A)) : KernelResult (list A) :=
  match l with
  | [] => Ok []
  | r :: rest => a ← r; l' ← collect_results rest; Ok (a :: l')
  end.

Definition query (self : Ledger) (q : TraceQuery) : KernelResult (list LedgerEvent) :=
  let selected := List.filter (row_selected q) (events self) in
  let limited := match q_limit q with Some n => take n selected | None => selected end in
  evs ← collect_results (map row_to_event limited);
  Ok (List.filter (in_time_range q) evs).

Definition get (self : Ledger) (seq : Z) : KernelResult LedgerEvent :=
  match List.find (fun r => row_seq r =? seq) (events self) with
  | Some row => row_to_event row
  | None => Err (NotFound "ledger_event" (pretty seq))
  end.

Definition modifies_path (path : string) (e : LedgerEvent) : bool :=
  let delta_value := default (ev_payload (body e)) (value_get "delta" (ev_payload (body e))) in
  match delta_of_value delta_value with
  | Some d => existsb (fun f => String.eqb (change_path f) path) (files d)
  | None => false
  end.

Definition kinds_query (ks : list EventKind) (range : option (Z * Z)) : TraceQuery :=
  mkQuery None None None range None ks None None.

Definition events_modifying_path (self : Ledger) (path : string)
    : KernelResult (list LedgerEvent) :=
  evs ← query self (kinds_query [KStateDeltaRecorded] None);
  Ok (List.filter (modifies_path path) evs).

Definition payload_str (key : string) (e : LedgerEvent) : option string :=
  value_get key (ev_payload (body e)) ≫= as_str.

(** One pass of the [for] loop of the closure. *)
Definition extend_wanted (all : list LedgerEvent) (wanted : gset Z) : gset Z :=
  fold_left
    (fun w e => if bool_decide (ev_seq (body e) ∈ w)
                then w ∪ list_to_set (ev_caused_by (body e)) else w)
    all wanted.

(** The [loop]: passes until one adds nothing; [None] is out of fuel. *)
Fixpoint close_wanted (fuel : nat) (all : list LedgerEvent) (wanted : gset Z)
    : option (gset Z) :=
  match fuel with
  | O => None
  | S fuel' =>
      let wanted' := extend_wanted all wanted in
      if bool_decide (size wanted' = size wanted) then Some wanted'
      else close_wanted fuel' all wanted'
  end.

Definition effect_seeds (all : list LedgerEvent) (effect : string) : gset Z :=
  list_to_set
    (map (fun e => ev_seq (body e))
       (List.filter (fun e => bool_decide (payload_str "effect_id" e = Some effect)) all)).

Definition events_leading_to_effect (fuel : nat) (self : Ledger) (effect : string)
    : option (KernelResult (list LedgerEvent)) :=
  match query self query_default with
  | Err e => Some (Err e)
  | Ok all =>
      wanted ← close_wanted fuel all (effect_seeds all effect);
      Some (Ok (List.filter (fun e => bool_decide (ev_seq (body e) ∈ wanted)) all))
  end.

Definition irreversible_effects_since (self : Ledger) (state : string)
    : KernelResult (list LedgerEvent) :=
  deltas ← query self (kinds_query [KStateDeltaRecorded] None);
  anchor ← ok_or (List.find (fun e => bool_decide (payload_str "state_id" e = Some state)) deltas)
             (NotFound "state_delta_event" state);
  committed ← query self
                (kinds_query [KEffectCommitted]
                   (Some (wrap_i64 (ev_seq (body anchor) + 1), i64_max)));
  Ok (List.filter
        (fun e => bool_decide (payload_str "class" e = Some "irreversible")
                  || bool_decide (payload_str "class" e = Some "opaque_external"))
        committed).

(** * Receipts *)

(** The key column is UNIQUE, so at most one row is found. *)
Definition receipt_by_key (self : Ledger) (key : string) : option Receipt :=
  snd <$> List.find (fun kr => bool_decide (kr.1 = key)) (map snd (bt_iter (receipts self))).

Definition store_receipt (self : Ledger) (receipt : Receipt) (key : string)
    : KernelResult () * Ledger :=
  match receipt_by_key self key with
  | Some existing =>
      if bool_decide (receipt_id existing = receipt_id receipt) then (Ok tt, self)
      else (Err (DuplicateCommit key (receipt_id existing)), self)
  | None =>
      match receipts self !! receipt_id receipt with
      | Some _ => (Err (Storage "sqlite: UNIQUE constraint failed: receipts.id"), self)
      | None =>
          (Ok tt, mkLedger (events self) (raw_outputs self)
                    (<[receipt_id receipt := (key, receipt)]> (receipts self)))
      end
  end.

Definition get_receipt (self : Ledger) (id : string) : KernelResult Receipt :=
  ok_or (snd <$> receipts self !! id) (NotFound "receipt" id).
End ledger.

(** * Encoding lemmas *)

Section event_lemmas.
Context `{!Serde, !SerdeLaws, !Sha256, !TimeJson, !TimeJsonLaws, !JsonText, !JsonTextLaws}.

Lemma kind_parse_str k : kind_parse (kind_str k) = Some k.
Proof. by destruct k. Qed.

Lemma kind_parse_Some s k : kind_parse s = Some k <-> s = kind_str k.
Proof.
  split; [|intros ->; apply kind_parse_str].
  intros [_ Heq]%find_some. by apply String.eqb_eq in Heq.
Qed.

Lemma kind_str_inj k k' : kind_str k = kind_str k' -> k = k'.
Proof. intros Heq. pose proof (kind_parse_str k). rewrite Heq, kind_parse_str in *. congruence. Qed.

#[local] Instance int_to_value_inj : Inj (=) (=) int_to_value.
Proof. intros a b. unfold int_to_value. repeat case_match; congruence. Qed.

Definition links_value (l : list Z) : option Value :=
  match l with [] => None | _ => Some (Array (map int_to_value l)) end.

Lemma links_value_inj l m : links_value l = links_value m -> l = m.
Proof.
  intros Heq. assert (map int_to_value l = map int_to_value m) as Hm
    by (destruct l, m; cbn in *; congruence).
  by apply (inj (fmap int_to_value)) in Hm.
Qed.

Ltac body_cases b :=
  destruct b as [? ? ? [?|] [?|] ? ? ? [|? ?] [?|]]; reflexivity.

Lemma body_get_branch b : value_get "branch" (body_to_value b) = Str <$> ev_branch b.
Proof. body_cases b. Qed.
Lemma body_get_links b : value_get "caused_by" (body_to_value b) = links_value (ev_caused_by b).
Proof. body_cases b. Qed.
Lemma body_get_prev b : value_get "prev_event_hash" (body_to_value b) = Str <$> ev_prev_hash b.
Proof. body_cases b. Qed.
Lemma body_get_step b : value_get "step" (body_to_value b) = Str <$> ev_step b.
Proof. body_cases b. Qed.

(** The required fields, read back together. *)
Lemma body_get_required b :
  value_get "episode" (body_to_value b) = Some (Str (ev_episode b))
  /\ value_get "kind" (body_to_value b) = Some (Str (kind_str (ev_kind b)))
  /\ value_get "payload" (body_to_value b) = Some (ev_payload b)
  /\ value_get "principal" (body_to_value b) = Some (Str (ev_principal b))
  /\ value_get "seq" (body_to_value b) = Some (int_to_value (ev_seq b))
  /\ value_get "timestamp" (body_to_value b) = Some (Str (time_to_json (ev_timestamp b))).
Proof. split_and!; body_cases b. Qed.

Lemma opt_str_inj (o o' : option string) : Str <$> o = Str <$> o' -> o = o'.
Proof. destruct o, o'; cbn; congruence. Qed.

Lemma body_to_value_inj b c : body_to_value b = body_to_value c -> b = c.
Proof.
  intros Heq.
  pose proof (body_get_branch b) as B1. pose proof (body_get_links b) as B2.
  pose proof (body_get_prev b) as B3. pose proof (body_get_step b) as B4.
  destruct (body_get_required b) as (B5 & B6 & B7 & B8 & B9 & B10).
  rewrite Heq in *. rewrite body_get_branch in B1. rewrite body_get_links in B2.
  rewrite body_get_prev in B3. rewrite body_get_step in B4.
  destruct (body_get_required c) as (C5 & C6 & C7 & C8 & C9 & C10).
  rewrite C5 in B5. rewrite C6 in B6. rewrite C7 in B7. rewrite C8 in B8.
  rewrite C9 in B9. rewrite C10 in B10. simplify_eq.
  apply opt_str_inj in B1. apply links_value_inj in B2.
  apply opt_str_inj in B3. apply opt_str_inj in B4.
  apply kind_str_inj in B6.
  match goal with H : time_to_json _ = _ |- _ => apply time_to_json_inj in H end.
  destruct b, c. cbn in *. congruence.
Qed.

Definition body_wf (b : EventBody) : bool :=
  i64_ok (ev_seq b) && forallb i64_ok (ev_caused_by b) && value_wf (ev_payload b).

Lemma int_to_value_wf z : i64_ok z = true -> value_wf (int_to_value z) = true.
Proof.
  unfold i64_ok, int_to_value, i64_max. intros Hz. bool_hyps. cbn.
  destruct (z <? 0) eqn:E; unfold number_wf, u64_max; bool_hyps;
    apply andb_true_iff; rewrite ?Z.leb_le, ?Z.ltb_lt; lia.
Qed.

Lemma body_to_value_wf b : body_wf b = true -> value_wf (body_to_value b) = true.
Proof.
  unfold body_wf. intros Hb. bool_hyps.
  assert (forallb value_wf (map int_to_value (ev_caused_by b)) = true) as Hl.
  { rewrite forallb_forall in *. intros v (z & <- & Hz)%in_map_iff.
    auto using int_to_value_wf. }
  assert (value_wf (int_to_value (ev_seq b)) = true) as Hs by auto using int_to_value_wf.
  destruct b as [? ? ? [?|] [?|] ? ? ? [|z l] [?|]];
    unfold body_to_value; cbn [value_wf ev_branch ev_caused_by ev_episode ev_kind ev_payload
      ev_prev_hash ev_principal ev_seq ev_step ev_timestamp opt_entry links_entry app map
      forallb fst snd] in *; apply andb_true_iff; (split; [reflexivity|]);
    rewrite ?Hl, ?Hs, ?H7; reflexivity.
Qed.
End event_lemmas.

(** * The hash chain *)

Section chain.
Context `{!Serde, !SerdeLaws, !Sha256, !TimeJson, !TimeJsonLaws, !JsonText, !JsonTextLaws}.
Implicit Types (evs : list LedgerEvent) (rows : list EventRow).

Fixpoint chained (prev : option string) evs : Prop :=
  match evs with
  | [] => True
  | e :: rest =>
      ev_prev_hash (body e) = prev /\ compute_hash (body e) = event_hash e
      /\ chained (Some (event_hash e)) rest
  end.

Definition last_hash (prev : option string) evs : option string :=
  match last evs with Some e => Some (event_hash e) | None => prev end.

Definition parsed rows evs : Prop := Forall2 (fun r e => row_to_event r = Ok e) rows evs.

Record row_reads (r : EventRow) (e : LedgerEvent) : Prop := {
  reads_columns : row_seq r = ev_seq (body e) /\ row_kind r = kind_str (ev_kind (body e))
    /\ row_episode r = ev_episode (body e) /\ row_branch r = ev_branch (body e)
    /\ row_step r = ev_step (body e) /\ row_principal r = ev_principal (body e)
    /\ row_prev_hash r = ev_prev_hash (body e) /\ row_event_hash r = event_hash e;
  reads_stamp : parse_stamp (row_timestamp r) = Ok (ev_timestamp (body e));
  reads_payload : parse_payload (row_payload r) = Ok (ev_payload (body e));
  reads_links : parse_links (row_caused_by r) = Ok (ev_caused_by (body e));
}.

Lemma row_to_event_Ok r e : row_to_event r = Ok e <-> row_reads r e.
Proof.
  destruct e as [[sq k ep br st pr ts pl cb pv] h].
  destruct r as [rsq rk rep rbr rst rpr rts rpl rcb rpv rh]. split.
  - unfold row_to_event, ok_or, map_err, mbind, result_bind. cbn.
    destruct (kind_parse rk) as [k'|] eqn:Ek; cbn; [|done]. apply kind_parse_Some in Ek as ->.
    destruct (parse_stamp rts) eqn:?, (parse_payload rpl) eqn:?, (parse_links rcb) eqn:?; cbn; try done.
    intros [=]. subst. by split.
  - intros [Hcols Hts Hpl Hcb]. cbn in *. destruct_and! Hcols. subst. unfold row_to_event.
    cbn [row_kind row_timestamp row_payload row_caused_by]. by rewrite kind_parse_str, Hts, Hpl, Hcb.
Qed.

(** Two rows that hold the same event: equal columns, and JSON text that parses alike. *)
Definition row_alike (r r' : EventRow) : Prop :=
  row_seq r = row_seq r' /\ row_kind r = row_kind r' /\ row_episode r = row_episode r'
  /\ row_branch r = row_branch r' /\ row_step r = row_step r' /\ row_principal r = row_principal r'
  /\ row_prev_hash r = row_prev_hash r' /\ row_event_hash r = row_event_hash r'
  /\ parse_stamp (row_timestamp r) = parse_stamp (row_timestamp r')
  /\ parse_payload (row_payload r) = parse_payload (row_payload r')
  /\ parse_links (row_caused_by r) = parse_links (row_caused_by r').

Lemma parsed_alike rows rows' evs : parsed rows evs -> parsed rows' evs -> Forall2 row_alike rows rows'.
Proof.
  intros Hp. revert rows'. induction Hp as [|r e rows evs Hr _ IH]; intros rows' Hp'.
  - inversion Hp'. constructor.
  - inversion Hp' as [|r' ? rows'' ? Hr' Hrest]; subst. constructor; [|by apply IH].
    apply row_to_event_Ok in Hr as [C1 S1 P1 L1], Hr' as [C2 S2 P2 L2]. unfold row_alike.
    destruct_and! C1. destruct_and! C2. split_and!; congruence.
Qed.

Lemma parsed_functional rows evs evs' : parsed rows evs -> parsed rows evs' -> evs = evs'.
Proof.
  intros Hp. revert evs'. induction Hp as [|r e rows evs Hr _ IH]; intros evs' Hp'.
  - by inversion Hp'.
  - inversion Hp' as [|? e' ? evs'' Hr' Hrest]; subst. f_equal; [congruence|by apply IH].
Qed.

Lemma verify_rows_Ok rows prev n m :
  verify_rows rows prev n = Ok m <->
  exists evs, parsed rows evs /\ chained prev evs /\ m = n + Z.of_nat (length rows).
Proof.
  revert prev n. induction rows as [|r rows IH]; intros prev n; cbn [verify_rows].
  - cbn. split.
    + intros [= ->]. exists []. repeat split; [constructor|lia].
    + intros (evs & Hp & _ & ->). inversion Hp. f_equal. lia.
  - rewrite bind_Ok. split.
    + intros (e & He & Hrest). do 2 case_bool_decide; cbn in Hrest; try done.
      apply IH in Hrest as (evs & Hp & Hc & ->). exists (e :: evs).
      repeat split; try done; [by constructor|]. cbn [length]. lia.
    + intros (evs & Hp & Hc & ->). inversion Hp as [|? e ? evs' He Hrest]; subst.
      destruct Hc as (Hprev & Hhash & Hc). exists e. split; [done|].
      rewrite !bool_decide_true by done. cbn. apply IH. exists evs'.
      repeat split; try done. cbn [length]. lia.
Qed.

Lemma chained_snoc prev evs e :
  chained prev (evs ++ [e]) <->
  chained prev evs /\ ev_prev_hash (body e) = last_hash prev evs
  /\ compute_hash (body e) = event_hash e.
Proof.
  revert prev. induction evs as [|d evs IH]; intros prev; cbn; [tauto|].
  rewrite IH. assert (last_hash (Some (event_hash d)) evs = last_hash prev (d :: evs)) as ->.
  { unfold last_hash. destruct evs; [done|]. rewrite last_cons_cons.
    by destruct (last (l :: evs)) eqn:E; [|apply last_None in E]. }
  tauto.
Qed.

Lemma last_hash_snoc prev evs e : last_hash prev (evs ++ [e]) = Some (event_hash e).
Proof. unfold last_hash. by rewrite last_snoc. Qed.

(** The last hash of a chain determines the whole chain. *)
Lemma chained_binding evs evs' :
  chained None evs -> chained None evs' ->
  Forall (fun e => body_wf (body e) = true) evs ->
  Forall (fun e => body_wf (body e) = true) evs' ->
  last_hash None evs = last_hash None evs' -> evs = evs' \/ sha256_collision.
Proof.
  revert evs'. induction evs as [|e evs IH] using rev_ind; intros evs' Hc Hc' Hw Hw' Hl;
    destruct evs' as [|e' evs' _] using rev_ind; rewrite ?last_hash_snoc in Hl; try done.
  { by left. }
  apply chained_snoc in Hc as (Hc & Hp & Hh). apply chained_snoc in Hc' as (Hc' & Hp' & Hh').
  apply Forall_app in Hw as [Hw [Hwe _]%Forall_cons].
  apply Forall_app in Hw' as [Hw' [Hwe' _]%Forall_cons].
  injection Hl as Hl. rewrite <- Hh, <- Hh' in Hl. unfold compute_hash in Hl.
  apply hash_canonical_binding in Hl as [Hb%body_to_value_inj|?];
    [|by right|by apply body_to_value_wf..].
  destruct (IH evs') as [->|?]; [done..|by rewrite <- Hp, <- Hp', Hb| |by right].
  left. do 2 f_equal. destruct e as [b h], e' as [b' h']. cbn in *. congruence.
Qed.

(** * Appending *)

Definition numbered rows : Prop :=
  forall i r, rows !! i = Some r -> row_seq r = Z.of_nat i + 1.

Lemma numbered_last rows r : numbered rows -> last rows = Some r ->
  row_seq r = Z.of_nat (length rows).
Proof.
  intros Hn. rewrite last_lookup. intros Hl. pose proof (Hn _ _ Hl) as ->.
  apply lookup_lt_Some in Hl. lia.
Qed.

Lemma insert_row_end rows r : numbered rows -> row_seq r = Z.of_nat (length rows) + 1 ->
  insert_row r rows = Some (rows ++ [r]).
Proof.
  intros Hn Hr. assert (Forall (fun q => row_seq q < row_seq r) rows) as Hlt.
  { apply Forall_lookup. intros i q Hq. rewrite (Hn _ _ Hq), Hr.
    apply lookup_lt_Some in Hq. lia. }
  clear Hn Hr. induction Hlt as [|q rows Hq _ IH]; cbn; [done|].
  rewrite (proj2 (Z.ltb_lt _ _) Hq), IH. done.
Qed.

Lemma wrap_i64_id z : i64_ok z = true -> wrap_i64 z = z.
Proof.
  unfold i64_ok, i64_max, wrap_i64. intros Hz. bool_hyps. rewrite Z.mod_small; lia.
Qed.

Lemma parsed_last rows evs prev : parsed rows evs ->
  match last rows with Some r => Some (row_event_hash r) | None => prev end
  = last_hash prev evs.
Proof.
  intros Hp. destruct rows as [|r rows _] using rev_ind.
  { by inversion Hp. }
  apply Forall2_app_inv_l in Hp as (e1 & e2 & _ & Hr & ->).
  inversion Hr as [|? e ? ? He Hnil]; subst. inversion Hnil; subst.
  rewrite last_snoc, last_hash_snoc. apply row_to_event_Ok in He as [Hcols _ _ _]. destruct_and! Hcols. congruence.
Qed.

(** An event whose text is read back as it was. *)
Definition reads_back (ne : NewEvent) : bool :=
  float_free (ne_payload ne) && forallb i64_ok (ne_caused_by ne).

(** Appending an event to a verified, numbered ledger. *)
Lemma append_spec l now ne evs :
  parsed (events l) evs -> chained None evs -> numbered (events l) ->
  Z.of_nat (length (events l)) < i64_max -> reads_back ne = true ->
  exists e l', append l now ne = (Ok e, l')
    /\ parsed (events l') (evs ++ [e]) /\ chained None (evs ++ [e]) /\ numbered (events l')
    /\ length (events l') = S (length (events l))
    /\ ev_payload (body e) = ne_payload ne /\ ev_kind (body e) = ne_kind ne
    /\ ev_timestamp (body e) = now /\ ev_seq (body e) = Z.of_nat (length (events l)) + 1
    /\ raw_outputs l' = raw_outputs l /\ receipts l' = receipts l.
Proof.
  intros Hp Hc Hn Hlen [Hff Hlk]%andb_true_iff. unfold append.
  pose proof (parsed_last (events l) evs None Hp) as Hlast.
  assert (match last (events l) with
          | Some r => (wrap_i64 (row_seq r + 1), Some (row_event_hash r))
          | None => (1, None) end
          = (Z.of_nat (length (events l)) + 1, last_hash None evs)) as ->.
  { destruct (last (events l)) as [r|] eqn:E; rewrite <- Hlast.
    - rewrite (numbered_last _ _ Hn E), wrap_i64_id; [done|].
      unfold i64_ok, i64_max in *. apply andb_true_iff. rewrite !Z.leb_le. lia.
    - apply last_None in E. by rewrite E. }
  set (b := mkBody _ _ _ _ _ _ _ _ _ _). set (e := mkEvent b (compute_hash b)).
  rewrite insert_row_end by done. exists e. eexists. split; [done|]. cbn [events].
  split; [|split; [|split; [|split]]].
  - apply Forall2_app; [done|]. constructor; [|constructor]. apply row_to_event_Ok.
    split; [by split_and!|apply stamp_read_back|by apply payload_read_back|by apply links_read_back].
  - apply chained_snoc. split_and!; done.
  - intros i r. rewrite lookup_app. destruct (events l !! i) eqn:Ei.
    + intros [= <-]. by apply Hn.
    + intros Hr. apply list_lookup_singleton_Some in Hr as [Hi <-]. cbn.
      apply lookup_ge_None in Ei. lia.
  - rewrite length_app. cbn. lia.
  - done.
Qed.
End chain.

(** * The causal closure *)

Section closure.
Implicit Types (all : list LedgerEvent) (w : gset Z).

(** [t] is cited as a cause by an event numbered [s]. *)
Definition cites all (s t : Z) : Prop :=
  exists e, e ∈ all /\ ev_seq (body e) = s /\ t ∈ ev_caused_by (body e).

Definition cited all : gset Z := list_to_set (concat (map (fun e => ev_caused_by (body e)) all)).

Lemma elem_of_cited all t : t ∈ cited all <-> exists s, cites all s t.
Proof.
  unfold cited, cites. rewrite elem_of_list_to_set, list_elem_of_In, in_concat. split.
  - intros (l & (e & <- & He)%in_map_iff & Ht). exists (ev_seq (body e)), e.
    by rewrite !list_elem_of_In.
  - intros (s & e & He & _ & Ht). exists (ev_caused_by (body e)).
    split; [|by apply list_elem_of_In]. apply in_map_iff. exists e.
    split; [done|by apply list_elem_of_In].
Qed.

Lemma extend_wanted_mono all w : w ⊆ extend_wanted all w.
Proof.
  unfold extend_wanted. revert w. induction all as [|e all IH]; intros w; cbn; [done|].
  etrans; [|apply IH]. case_bool_decide; set_solver.
Qed.

Lemma extend_wanted_reach all w t :
  t ∈ extend_wanted all w -> exists s, s ∈ w /\ rtc (cites all) s t.
Proof.
  unfold extend_wanted. assert (all ⊆ all) as Hsub by done. revert Hsub.
  generalize all at 1 3 as l. intros l. revert w.
  induction l as [|e l IH]; intros w Hsub Ht; cbn in Ht.
  - exists t. split; [done|apply rtc_refl].
  - apply IH in Ht as (s & Hs & Hrtc); [|set_solver]. case_bool_decide as Hin; [|eauto].
    apply elem_of_union in Hs as [Hs|Hs]; [eauto|].
    apply elem_of_list_to_set in Hs. exists (ev_seq (body e)). split; [done|].
    eapply rtc_l; [|done]. exists e. split; [set_solver|done].
Qed.

Lemma extend_wanted_step all w s t :
  s ∈ w -> cites all s t -> t ∈ extend_wanted all w.
Proof.
  intros Hs (e & He & <- & Ht). revert w Hs. unfold extend_wanted.
  induction all as [|d all IH]; intros w Hs; [by apply elem_of_nil in He|].
  cbn. apply elem_of_cons in He as [->|He].
  - rewrite bool_decide_true by done. apply (extend_wanted_mono all).
    rewrite elem_of_union, elem_of_list_to_set. by right.
  - apply IH; [done|]. case_bool_decide; set_solver.
Qed.

Lemma extend_wanted_bound all w : extend_wanted all w ⊆ w ∪ cited all.
Proof.
  intros t (s & Hs & Hrtc)%extend_wanted_reach. apply rtc_inv_r in Hrtc as [<-|(r & _ & Hr)].
  - set_solver.
  - apply elem_of_union_r, elem_of_cited. eauto.
Qed.

Lemma close_wanted_spec fuel all w :
  (size (w ∪ cited all) < size w + fuel)%nat ->
  exists w', close_wanted fuel all w = Some w'
    /\ forall t, t ∈ w' <-> exists s, s ∈ w /\ rtc (cites all) s t.
Proof.
  revert w. induction fuel as [|fuel IH]; intros w Hfuel.
  - pose proof (subseteq_size w (w ∪ cited all) ltac:(set_solver)). lia.
  - cbn [close_wanted]. pose proof (extend_wanted_mono all w) as Hmono.
    case_bool_decide as Hsz.
    + eexists. split; [done|]. intros t. split; [apply extend_wanted_reach|].
      assert (w = extend_wanted all w) as Heq.
      { apply set_subseteq_size_eq; [done|]. by rewrite Hsz. }
      rewrite <- Heq. intros (s & Hs & Hrtc). revert Hs.
      induction Hrtc as [s|s r t Hsr _ IHr]; [done|]. intros Hs. apply IHr.
      rewrite Heq. by eapply extend_wanted_step.
    + destruct (IH (extend_wanted all w)) as (w' & -> & Hw').
      * pose proof (subseteq_size _ _ Hmono).
        assert (size (extend_wanted all w ∪ cited all) <= size (w ∪ cited all))%nat.
        { apply subseteq_size. pose proof (extend_wanted_bound all w). set_solver. }
        lia.
      * exists w'. split; [done|]. intros t. rewrite Hw'. split.
        -- intros (s & (r & Hr & Hrs)%extend_wanted_reach & Hst).
           exists r. split; [done|]. by etrans.
        -- intros (s & Hs & Hst). exists s. split; [by apply Hmono|done].
Qed.

Lemma cited_size all w :
  (size (w ∪ cited all)
   <= size w + length (concat (map (fun e => ev_caused_by (body e)) all)))%nat.
Proof.
  unfold cited. rewrite size_union_alt.
  assert (forall l : list Z, size (list_to_set l : gset Z) <= length l)%nat as Hl.
  { induction l as [|x l IH]; cbn; [by rewrite size_empty|].
    rewrite size_union_alt, size_singleton.
    pose proof (subseteq_size (list_to_set l ∖ {[x]} : gset Z) (list_to_set l) ltac:(set_solver)).
    lia. }
  pose proof (subseteq_size
    ((list_to_set (concat (map (fun e => ev_caused_by (body e)) all)) : gset Z) ∖ w) _
    ltac:(apply subseteq_difference_l; reflexivity)).
  pose proof (Hl (concat (map (fun e => ev_caused_by (body e)) all))). lia.
Qed.
End closure.

(** * Receipts and queries *)

Section table_lemmas.

Lemma collect_results_Ok {A} (l : list (KernelResult A)) as' :
  collect_results l = Ok as' <-> Forall2 (fun r a => r = Ok a) l as'.
Proof.
  revert as'. induction l as [|r l IH]; intros as'; cbn.
  - split; [intros [= <-]; constructor|]. by inversion 1.
  - rewrite bind_Ok. split.
    + intros (a & -> & Hb). apply bind_Ok in Hb as (l' & Hl & [= <-]).
      constructor; [done|]. by apply IH.
    + inversion 1 as [|? a ? l' Hr Hl]; subst. exists a. split; [done|].
      apply bind_Ok. exists l'. split; [by apply IH|done].
Qed.

(** One receipt per idempotency key, stored under its own id. *)
Definition receipts_ok (l : Ledger) : Prop :=
  (forall id key r, receipts l !! id = Some (key, r) -> receipt_id r = id)
  /\ (forall id id' key r r', receipts l !! id = Some (key, r) ->
        receipts l !! id' = Some (key, r') -> id = id').

Lemma receipt_by_key_Some l key r :
  receipts_ok l ->
  receipt_by_key l key = Some r <-> receipts l !! receipt_id r = Some (key, r).
Proof.
  intros [Hid Huniq]. unfold receipt_by_key. rewrite fmap_Some. split.
  - intros ([k r'] & Hf & ->). apply find_some in Hf as [Hin Hk]. cbn in *. bool_hyps. subst k.
    apply in_map_iff in Hin as ([id kr] & Heq & Hin). cbn in Heq. subst kr.
    apply list_elem_of_In, bt_iter_elem in Hin. by rewrite (Hid _ _ _ Hin).
  - intros Hr. destruct (List.find _ _) as [[k r']|] eqn:Hf.
    + exists (k, r'). split; [done|]. apply find_some in Hf as [Hin Hk]. cbn in *. bool_hyps. subst k.
      apply in_map_iff in Hin as ([id kr] & Heq & Hin). cbn in Heq. subst kr.
      apply list_elem_of_In, bt_iter_elem in Hin.
      pose proof (Huniq _ _ _ _ _ Hr Hin) as <-. congruence.
    + exfalso. eapply find_none in Hf; [|apply in_map, list_elem_of_In, bt_iter_elem; exact Hr].
      cbn in Hf. by rewrite bool_decide_true in Hf.
Qed.

Lemma receipt_by_key_None l key id r :
  receipts_ok l -> receipt_by_key l key = None -> receipts l !! id <> Some (key, r).
Proof.
  intros Hok Hn Hr. pose proof (proj1 Hok _ _ _ Hr) as Hid. subst id.
  apply (receipt_by_key_Some l key r Hok) in Hr. congruence.
Qed.

Lemma store_receipt_ok l r key l' res :
  receipts_ok l -> store_receipt l r key = (res, l') -> receipts_ok l'.
Proof.
  intros Hok. unfold store_receipt. destruct (receipt_by_key l key) as [ex|] eqn:Ek.
  { case_bool_decide; by intros [= <- <-]. }
  destruct (receipts l !! receipt_id r) eqn:Er; intros [= <- <-]; [done|].
  pose proof Hok as [Hid Huniq]. split; cbn.
  - intros id k q. rewrite lookup_insert_Some. naive_solver.
  - intros id id' k q q'. rewrite !lookup_insert_Some.
    intros [[<- Hk]|[_ Hq]] [[<- Hk']|[_ Hq']]; simplify_eq; try done.
    + by destruct (receipt_by_key_None _ _ _ _ Hok Ek Hq').
    + by destruct (receipt_by_key_None _ _ _ _ Hok Ek Hq).
    + by eapply Huniq.
Qed.
End table_lemmas.

(** * Runs *)

Section runs.
Context `{!Serde, !SerdeLaws, !Sha256, !TimeJson, !TimeJsonLaws, !JsonText, !JsonTextLaws}.

Definition run_appends (l : Ledger) (news : list (DateTime * NewEvent)) : Ledger :=
  fold_left (fun l tn => (append l tn.1 tn.2).2) news l.

(** What an appended event keeps of its input. *)
Definition event_of (tn : DateTime * NewEvent) (e : LedgerEvent) : Prop :=
  ev_timestamp (body e) = tn.1 /\ ev_kind (body e) = ne_kind tn.2
  /\ ev_payload (body e) = ne_payload tn.2.

Lemma run_appends_spec news l evs :
  parsed (events l) evs -> chained None evs -> numbered (events l) ->
  Z.of_nat (length (events l) + length news) <= i64_max ->
  Forall (fun tn => reads_back tn.2 = true) news ->
  exists evs', parsed (events (run_appends l news)) (evs ++ evs')
    /\ chained None (evs ++ evs') /\ numbered (events (run_appends l news))
    /\ Forall2 event_of news evs'.
Proof.
  revert l evs. induction news as [|[now ne] news IH]; intros l evs Hp Hc Hn Hlen Hff.
  - exists []. rewrite app_nil_r. by repeat split.
  - apply Forall_cons in Hff as [Hff1 Hff]. cbn [length] in Hlen.
    destruct (append_spec l now ne evs) as (e & l' & Happ & Hp' & Hc' & Hn' & Hl' & Hpay & Hk & Ht & _);
      [done..|lia|done|].
    destruct (IH l' (evs ++ [e])) as (evs' & Hq1 & Hq2 & Hq3 & Hq4); [done..|lia|done|].
    exists (e :: evs'). rewrite <- (assoc_L (++)) in Hq1, Hq2. cbn in Hq1, Hq2.
    unfold run_appends in *. cbn [fold_left fst snd]. rewrite Happ. cbn [snd].
    repeat split; try done. constructor; [done|done].
Qed.

Definition event_selected (q : TraceQuery) (e : LedgerEvent) : bool :=
  row_selected q (row_of_event e).

Lemma parsed_filter q rows evs :
  parsed rows evs ->
  parsed (List.filter (row_selected q) rows) (List.filter (event_selected q) evs).
Proof.
  induction 1 as [|r e rows evs Hr _ IH]; cbn [List.filter]; [constructor|].
  pose proof Hr as Hr'. apply row_to_event_Ok in Hr' as [Hcols _ _ _]. destruct_and! Hcols.
  assert (event_selected q e = row_selected q r) as ->.
  { unfold event_selected, row_selected. cbn. by repeat (match goal with H : _ = _ |- _ => rewrite <- H; clear H end). }
  destruct (row_selected q r); [by constructor|done].
Qed.

Lemma parsed_collect rows evs : parsed rows evs ->
  collect_results (map row_to_event rows) = Ok evs.
Proof.
  intros Hp. apply collect_results_Ok. induction Hp; cbn; constructor; auto.
Qed.

Lemma query_parsed l q evs :
  parsed (events l) evs ->
  query l q =
    Ok (List.filter (in_time_range q)
          (match q_limit q with
           | Some n => take n (List.filter (event_selected q) evs)
           | None => List.filter (event_selected q) evs
           end)).
Proof.
  intros Hp. pose proof (parsed_filter q _ _ Hp) as Hf. unfold query.
  destruct (q_limit q) as [n|].
  - rewrite (parsed_collect _ (take n (List.filter (event_selected q) evs))); [done|].
    by apply Forall2_take.
  - by rewrite (parsed_collect _ _ Hf).
Qed.

Lemma filter_true {A} (f : A -> bool) l : (forall x, f x = true) -> List.filter f l = l.
Proof. intros Hf. induction l as [|x l IH]; cbn; [done|]. by rewrite Hf, IH. Qed.

Lemma query_all l evs : parsed (events l) evs -> query l query_default = Ok evs.
Proof.
  intros Hp. rewrite (query_parsed _ _ _ Hp). cbn.
  by rewrite !filter_true.
Qed.

Definition raw_ok (l : Ledger) : Prop :=
  forall h b, raw_outputs l !! h = Some b -> h = hash_bytes b.

Lemma store_raw_ok l b : raw_ok l -> raw_ok (store_raw l b).2.
Proof.
  intros Hok. unfold store_raw. cbn. destruct (raw_outputs l !! _); [done|].
  intros h c. cbn. rewrite lookup_insert_Some. intros [[<- <-]|[_ Hc]]; [done|by apply Hok].
Qed.
End runs.

(** * Properties *)

(** An untouched ledger verifies. After any sequence of appends (payloads without
    floating-point numbers, causes that are [i64], fewer than 2^63 events) every append succeeded,
    [verify_chain] accepts and counts exactly the events appended, and [trace.query]
    without filters returns them in append order with their kind, payload and time. *)
Theorem appends_verify `{!Serde, !Sha256, !TimeJson, !JsonText, !JsonTextLaws}
    (news : list (DateTime * NewEvent)) :
  Z.of_nat (length news) <= i64_max ->
  Forall (fun tn => reads_back tn.2 = true) news ->
  verify_chain (run_appends ledger_empty news) = Ok (Z.of_nat (length news))
  /\ exists evs, query (run_appends ledger_empty news) query_default = Ok evs
                 /\ Forall2 event_of news evs.
Proof.
  intros Hlen Hff.
  destruct (run_appends_spec news ledger_empty []) as (evs & Hp & Hc & _ & Hev);
    [by apply Forall2_nil|done|by intros [|i] r|done|done|].
  cbn [app] in *. split; [|exists evs; by rewrite (query_all _ _ Hp)].
  apply verify_rows_Ok. exists evs. repeat split; try done.
  by rewrite (Forall2_length _ _ _ Hp), <- (Forall2_length _ _ _ Hev).
Qed.

(** C38: The head hash pins the whole history. If two states of the events table both
    verify and end in the same event hash, they hold the same events, one row each and in
    the same order: the rows agree in every plain column, and the JSON text of the time, the
    payload and the causes parses to the same values; or a SHA-256 collision is at hand. So
    any removal, insertion, reordering or change of what an event says that keeps the chain
    valid changes the head hash. How the JSON text is written is not pinned. *)
Theorem chain_binds_history `{!Serde, !SerdeLaws, !Sha256, !TimeJson, !TimeJsonLaws, !JsonText}
    (l l' : Ledger) (n n' : Z) evs evs' :
  verify_chain l = Ok n -> verify_chain l' = Ok n' ->
  parsed (events l) evs -> parsed (events l') evs' ->
  Forall (fun e => body_wf (body e) = true) evs ->
  Forall (fun e => body_wf (body e) = true) evs' ->
  row_event_hash <$> last (events l) = row_event_hash <$> last (events l') ->
  (evs = evs' /\ Forall2 row_alike (events l) (events l')) \/ sha256_collision.
Proof.
  intros Hv Hv' Hp Hp' Hw Hw' Hlast.
  apply verify_rows_Ok in Hv as (e1 & Hp1 & Hc & _).
  apply verify_rows_Ok in Hv' as (e2 & Hp2 & Hc' & _).
  assert (e1 = evs) as -> by (eapply parsed_functional; eauto).
  assert (e2 = evs') as -> by (eapply parsed_functional; eauto).
  destruct (chained_binding evs evs' Hc Hc' Hw Hw') as [->|?]; [|left|by right].
  - rewrite <- (parsed_last _ _ None Hp), <- (parsed_last _ _ None Hp').
    destruct (last (events l)), (last (events l')); cbn in Hlast; congruence.
  - split; [done|by eapply parsed_alike].
Qed.

(** The row with another text in its payload column. *)
Definition with_payload (r : EventRow) (text : string) : EventRow :=
  mkRow (row_seq r) (row_kind r) (row_episode r) (row_branch r) (row_step r) (row_principal r)
    (row_timestamp r) text (row_caused_by r) (row_prev_hash r) (row_event_hash r).

(** What the chain does not detect: rewriting the stored text of a payload into another that
    parses to the same value leaves the verdict of [verify_chain] as it was. *)
Theorem reformat_undetected `{!Serde, !Sha256, !TimeJson, !JsonText} (l : Ledger) before r after text :
  events l = before ++ r :: after -> parse_payload text = parse_payload (row_payload r) ->
  verify_chain (mkLedger (before ++ with_payload r text :: after) (raw_outputs l) (receipts l)) = verify_chain l.
Proof.
  unfold verify_chain. cbn [events]. intros -> Ht. generalize (None : option string) 0.
  induction before as [|q before IH]; intros prev n; cbn [app verify_rows].
  - assert (row_to_event (with_payload r text) = row_to_event r) as -> by (unfold row_to_event; cbn; by rewrite Ht).
    done.
  - destruct (row_to_event q) as [ev|e]; [|done]. cbn. by rewrite IH.
Qed.

(** What the chain does not detect: whoever can write the table can replace the
    payload of its last event by any other and recompute that one hash, and
    [verify_chain] accepts the result as before. *)
Theorem tail_rewrite_undetected `{!Serde, !Sha256, !TimeJson, !JsonText} (l : Ledger) rows r n
    (payload : Value) (text : string) :
  verify_chain l = Ok n -> events l = rows ++ [r] -> parse_payload text = Ok payload ->
  exists r', row_payload r' = text /\ row_seq r' = row_seq r
    /\ verify_chain (mkLedger (rows ++ [r']) (raw_outputs l) (receipts l)) = Ok n.
Proof.
  unfold verify_chain. cbn [events]. intros Hv Hev Ht. rewrite Hev in Hv.
  apply verify_rows_Ok in Hv as (evs & Hp & Hc & ->).
  apply Forall2_app_inv_l in Hp as (e1 & e2 & Hp1 & Hp2 & ->).
  inversion Hp2 as [|? e ? ? He Hnil]; subst. inversion Hnil; subst.
  apply chained_snoc in Hc as (Hc & Hprev & _). destruct e as [b h]. cbn in Hprev.
  pose (b' := mkBody (ev_seq b) (ev_kind b) (ev_episode b) (ev_branch b) (ev_step b)
                (ev_principal b) (ev_timestamp b) payload (ev_caused_by b) (ev_prev_hash b)).
  pose (e' := mkEvent b' (compute_hash b')).
  exists (mkRow (row_seq r) (row_kind r) (row_episode r) (row_branch r) (row_step r) (row_principal r)
           (row_timestamp r) text (row_caused_by r) (row_prev_hash r) (compute_hash b')).
  apply row_to_event_Ok in He as [Hcols Hs _ Hl]. cbn in Hcols. destruct_and! Hcols.
  split; [done|]. split; [done|]. apply verify_rows_Ok. exists (e1 ++ [e']). split; [|split].
  - apply Forall2_app; [done|]. constructor; [|constructor]. apply row_to_event_Ok. by split; [split_and!|..].
  - by apply chained_snoc.
  - rewrite !length_app. done.
Qed.

(** [events_leading_to_effect] terminates, after at most one pass per cited cause and
    one more, and returns in sequence order exactly the events reached from the effect's
    own events through any number of [caused_by] links. *)
Theorem causal_closure_exact `{!JsonText} (l : Ledger) effect all fuel :
  query l query_default = Ok all ->
  (length (concat (map (fun e => ev_caused_by (body e)) all)) < fuel)%nat ->
  exists evs, events_leading_to_effect fuel l effect = Some (Ok evs)
    /\ evs `sublist_of` all
    /\ forall e, e ∈ evs <->
         e ∈ all /\ exists e0, e0 ∈ all /\ payload_str "effect_id" e0 = Some effect
                               /\ rtc (cites all) (ev_seq (body e0)) (ev_seq (body e)).
Proof.
  intros Hq Hfuel. unfold events_leading_to_effect. rewrite Hq.
  destruct (close_wanted_spec fuel all (effect_seeds all effect)) as (w & -> & Hw).
  { pose proof (cited_size all (effect_seeds all effect)). lia. }
  cbn. eexists. split; [done|]. split.
  { clear. induction all as [|e all IH]; cbn; [constructor|]. case_bool_decide; by constructor. }
  intros e. rewrite list_elem_of_In, filter_In, <- list_elem_of_In.
  apply and_iff_compat_l. rewrite bool_decide_eq_true, Hw. unfold effect_seeds.
  split.
  - intros (s & Hs & Hrtc). apply elem_of_list_to_set, list_elem_of_In, in_map_iff in Hs
      as (e0 & <- & He0). apply filter_In in He0 as [Hin Hp]. bool_hyps.
    exists e0. by rewrite list_elem_of_In.
  - intros (e0 & Hin & Hp & Hrtc). exists (ev_seq (body e0)). split; [|done].
    apply elem_of_list_to_set, list_elem_of_In, in_map_iff. exists e0. split; [done|].
    apply filter_In. rewrite <- list_elem_of_In. split; [done|by apply bool_decide_eq_true].
Qed.

(** A query without a limit returns, in order, exactly the events that satisfy every
    given filter; a query with a limit and no time range returns the first that many of
    them. *)
Theorem query_exact `{!JsonText} (l : Ledger) (q : TraceQuery) evs :
  parsed (events l) evs ->
  (q_limit q = None ->
   query l q = Ok (List.filter (fun e => event_selected q e && in_time_range q e) evs))
  /\ (forall n, q_limit q = Some n -> q_time_range q = None ->
      query l q = Ok (take n (List.filter (event_selected q) evs))).
Proof.
  intros Hp. rewrite (query_parsed _ _ _ Hp). split.
  - intros ->. f_equal. clear Hp. induction evs as [|e evs IH]; cbn [List.filter]; [done|].
    destruct (event_selected q e); cbn [List.filter andb]; [|done].
    by destruct (in_time_range q e); rewrite IH.
  - intros n -> Ht. f_equal. apply filter_true. intros e. unfold in_time_range. by rewrite Ht.
Qed.

(** A receipt is stored once per idempotency key, whatever is stored in whatever
    order: an accepted receipt is found by its key and by its id, a key that is taken
    never changes hands (the same receipt is accepted again without change, another one
    is refused naming the first), and no stored receipt is lost. *)
Theorem receipts_once_per_key (ops : list (Receipt * string)) (r : Receipt) (key : string) :
  let l := fold_left (fun l rk => (store_receipt l rk.1 rk.2).2) ops ledger_empty in
  let '(res, l') := store_receipt l r key in
  (forall ex k, receipt_by_key l k = Some ex -> receipt_by_key l' k = Some ex)
  /\ match receipt_by_key l key with
     | Some ex =>
         l' = l /\ res = if decide (receipt_id ex = receipt_id r) then Ok tt
                         else Err (DuplicateCommit key (receipt_id ex))
     | None =>
         res = Ok tt -> receipt_by_key l' key = Some r /\ get_receipt l' (receipt_id r) = Ok r
     end.
Proof.
  intros l. assert (receipts_ok l) as Hok.
  { subst l. assert (receipts_ok ledger_empty) as H0.
    { split; cbn; intros *; by rewrite ?lookup_empty. }
    revert H0. generalize ledger_empty. induction ops as [|[q k] ops IH]; intros l0 H0; cbn; [done|].
    apply IH. destruct (store_receipt l0 q k) as [res l1] eqn:E. by eapply store_receipt_ok. }
  destruct (store_receipt l r key) as [res l'] eqn:E.
  pose proof (store_receipt_ok _ _ _ _ _ Hok E) as Hok'. unfold store_receipt in E.
  destruct (receipt_by_key l key) as [ex|] eqn:Ek.
  - case_bool_decide; simplify_eq; split; try done; split; try done; by case_decide.
  - destruct (receipts l !! receipt_id r) eqn:Er; simplify_eq; [by split|]. split.
    + intros ex k. rewrite !receipt_by_key_Some by done. cbn. intros Hex.
      rewrite lookup_insert_ne; [done|]. congruence.
    + intros _. split; [apply receipt_by_key_Some; [done|]; cbn; by rewrite lookup_insert_eq|].
      unfold get_receipt. cbn. by rewrite lookup_insert_eq.
Qed.

(** Raw outputs are content-addressed: fetching by the hash [store_raw] returned gives
    back the bytes, whatever else was stored before or after, unless SHA-256 collides. *)
Theorem raw_roundtrip `{!Sha256} (before after : list string) (b : string) :
  let store := fold_left (fun l x => (store_raw l x).2) in
  let l := store after (store_raw (store before ledger_empty) b).2 in
  fetch_raw l (hash_bytes b) = Ok b \/ sha256_collision.
Proof.
  cbn zeta. set (store := fold_left _).
  assert (forall xs l, raw_ok l -> raw_ok (store xs l)) as Hrun.
  { intros xs. induction xs as [|x xs IH]; intros l Hl; [done|].
    by apply IH, (store_raw_ok l x). }
  assert (forall xs l h c, raw_outputs l !! h = Some c -> raw_outputs (store xs l) !! h = Some c)
    as Hkeep.
  { intros xs. induction xs as [|x xs IH]; intros l h c Hc; [done|].
    apply IH. unfold store_raw. cbn [snd]. destruct (raw_outputs l !! hash_bytes x) eqn:Ex; [done|].
    cbn [raw_outputs]. rewrite lookup_insert_ne; congruence. }
  set (l0 := store before ledger_empty).
  assert (raw_ok l0) as Hok by (by apply Hrun).
  assert (exists c, raw_outputs (store_raw l0 b).2 !! hash_bytes b = Some c
                    /\ (c = b \/ sha256_collision)) as (c & Hc & Hor).
  { unfold store_raw. cbn [snd]. destruct (raw_outputs l0 !! hash_bytes b) as [c|] eqn:Ec.
    - exists c. split; [done|]. by apply hash_bytes_binding, eq_sym, Hok.
    - exists b. cbn [raw_outputs]. rewrite lookup_insert_eq. auto. }
  destruct Hor as [->|?]; [|by right]. left.
  unfold fetch_raw. by rewrite (Hkeep after _ _ _ Hc).
Qed.

(** * Witnesses *)

Module LedgerDemo.
#[local] Existing Instance BitSerde.serde.
#[local] Existing Instance BitSerde.serde_laws.
#[local] Existing Instance BitSerde.sha256.
#[local] Instance time_json : TimeJson := {| time_to_json t := pretty t |}.
#[local] Instance time_json_laws : TimeJsonLaws := {| time_to_json_inj := pretty_Z_inj |}.
(** A text for values with a reader: the code of a tree, digit by digit. *)
Abbreviation tree := (gen_tree (string + Z)).

Fixpoint value_tree (v : Value) : tree :=
  match v with
  | Null => GenNode 0 []
  | VBool b => GenNode (if b then 1 else 2) []
  | Number (PosInt n) => GenNode 3 [GenLeaf (inr n)]
  | Number (NegInt n) => GenNode 4 [GenLeaf (inr n)]
  | Number (Float _) => GenNode 0 []
  | Str s => GenNode 5 [GenLeaf (inl s)]
  | Array l => GenNode 6 (map value_tree l)
  | Object m => GenNode 7 (map (fun kv => GenNode 0 [GenLeaf (inl kv.1); value_tree kv.2]) m)
  end.

Fixpoint tree_value (t : tree) : Value :=
  match t with
  | GenNode 1 [] => VBool true
  | GenNode 2 [] => VBool false
  | GenNode 3 [GenLeaf (inr n)] => Number (PosInt n)
  | GenNode 4 [GenLeaf (inr n)] => Number (NegInt n)
  | GenNode 5 [GenLeaf (inl s)] => Str s
  | GenNode 6 l => Array (map tree_value l)
  | GenNode 7 m =>
      Object (map (fun e => match e with GenNode 0 [GenLeaf (inl key); v] => (key, tree_value v) | _ => (EmptyString, Null) end) m)
  | _ => Null
  end.

Fixpoint value_tree_back (v : Value) : float_free v = true -> tree_value (value_tree v) = v.
Proof.
  destruct v as [|b|[n|n|f]|s|l|m]; cbn; intros Hf; try done.
  - by destruct b.
  - f_equal. induction l as [|v l IH]; [done|]. cbn in *. apply andb_true_iff in Hf as [Hv Hl].
    f_equal; [by apply value_tree_back|by apply IH].
  - f_equal. induction m as [|[key v] m IH]; [done|]. cbn in *. apply andb_true_iff in Hf as [Hv Hm].
    f_equal; [f_equal; by apply value_tree_back|by apply IH].
Qed.

Fixpoint unbits (s : string) : positive :=
  match s with
  | String "x" s' => xO (unbits s')
  | String "y" s' => xI (unbits s')
  | _ => xH
  end.

Lemma unbits_of_bits p : unbits (BitSerde.bits p) = p.
Proof. induction p as [p IH|p IH|]; cbn; by rewrite ?IH. Qed.

Definition parse_bits {A} `{Countable A} (s : string) : result string A :=
  ok_or (decode (unbits s)) "expected value".

#[local] Instance json_text : JsonText :=
  {| payload_text v := BitSerde.bits (encode (value_tree v));
     parse_payload s := t ← parse_bits s; Ok (tree_value t);
     stamp_text t := BitSerde.bits (encode t); parse_stamp := parse_bits;
     links_text l := BitSerde.bits (encode l); parse_links := parse_bits |}.

#[local] Instance json_text_laws : JsonTextLaws.
Proof.
  split; cbn; unfold parse_bits; intros; rewrite unbits_of_bits, decode_encode; [|done..].
  cbn. by rewrite value_tree_back.
Qed.

Definition objective : NewEvent := mkNewEvent KObjective "ep-1" None None "pr-1" (Str "fix") [].
Definition committed : NewEvent :=
  mkNewEvent KEffectCommitted "ep-1" (Some "br-1") (Some "sp-1") "pr-1"
    (Object [("class", Str "irreversible"); ("effect_id", Str "ef-1")]) [1].

Definition news : list (DateTime * NewEvent) := [(1, objective); (10, committed)].
Definition ledger : Ledger := run_appends ledger_empty news.

(** The events of [ledger]. *)
Definition demo_events : list LedgerEvent :=
  match query ledger query_default with Ok evs => evs | Err _ => [] end.

Lemma demo_parsed : parsed (events ledger) demo_events.
Proof. unfold parsed. repeat constructor; vm_compute; reflexivity. Qed.

Lemma appends_verify_witness : verify_chain ledger = Ok 2.
Proof.
  apply (appends_verify news); [vm_compute; congruence|]. by repeat constructor.
Defined.

(** The table with its payloads written anew, a blank after each. *)
Definition reformatted : Ledger :=
  mkLedger (map (fun r => with_payload r (row_payload r +:+ " ")) (events ledger)) ∅ ∅.

Lemma reformatted_parsed : parsed (events reformatted) demo_events.
Proof. unfold parsed. repeat constructor; vm_compute; reflexivity. Qed.

Lemma chain_binds_history_witness :
  (demo_events = demo_events /\ Forall2 row_alike (events ledger) (events reformatted)) \/ sha256_collision.
Proof.
  apply (chain_binds_history ledger reformatted 2 2 demo_events demo_events).
  - vm_compute. reflexivity.
  - vm_compute. reflexivity.
  - apply demo_parsed.
  - apply reformatted_parsed.
  - repeat constructor; vm_compute; reflexivity.
  - repeat constructor; vm_compute; reflexivity.
  - reflexivity.
Defined.

Lemma tail_rewrite_undetected_witness :
  exists r', row_payload r' = payload_text (Str "forged") /\
    verify_chain (mkLedger (take 1 (events ledger) ++ [r']) ∅ ∅) = Ok 2.
Proof.
  destruct (last (events ledger)) as [r|] eqn:E; [|by vm_compute in E].
  destruct (tail_rewrite_undetected ledger (take 1 (events ledger)) r 2 (Str "forged")
    (payload_text (Str "forged"))) as (r' & Hp & _ & Hv).
  - vm_compute. reflexivity.
  - vm_compute in E. injection E as <-. vm_compute. reflexivity.
  - vm_compute. reflexivity.
  - exists r'. by split.
Defined.

Lemma causal_closure_exact_witness :
  exists evs, events_leading_to_effect 5 ledger "ef-1" = Some (Ok evs).
Proof.
  destruct (causal_closure_exact ledger "ef-1" demo_events 5) as (evs & Hevs & _).
  - vm_compute. reflexivity.
  - vm_compute. lia.
  - by exists evs.
Defined.

Definition seq_query : TraceQuery :=
  mkQuery (Some "ep-1") None None (Some (2, 9)) None [] (Some (5, 20)) None.

Lemma query_exact_witness :
  query ledger seq_query
  = Ok (List.filter (fun e => event_selected seq_query e && in_time_range seq_query e) demo_events).
Proof. apply (query_exact ledger seq_query demo_events demo_parsed). reflexivity. Defined.

(** With a limit and a time range, [query] can miss events: the limit is applied
    before the time filter, so here the only event in the range is not returned
    although the result is below the limit. *)
Theorem limit_hides_events_in_range :
  let q limit := mkQuery None None None None None [] (Some (5, 20)) limit in
  (exists e, query ledger (q None) = Ok [e]) /\ query ledger (q (Some 1%nat)) = Ok [].
Proof. split; [eexists|]; vm_compute; reflexivity. Qed.
End LedgerDemo.
