(* ===== verification/Broker.v ===== *)
(** The effect broker: [kernel/effect_broker/src/broker.rs].

    The SQLite store is a record of its three tables: effects in rowid order,
    receipts, and commit claims.  A column of JSON holds the value it encodes.
    Connectors are trait objects: a [Connector] record gives the answers of one
    invocation, so different calls may see different answers.  The operations
    are first definitions of a whole call each; Module [Calls] has the same calls
    as sequences of critical sections, which run one after the other are these
    definitions ([run_commit] and the like), and interleaves them.

    [commit] also returns the contracts it handed to [Connector::commit]: the
    external calls it made.  Ids and the clock are arguments; the signer and
    the [Display] text of errors are class operations. *)

From stdpp Require Import pretty.
From S2P Require Import Prelude Json Budget Capability Types Canonical Effect.

Open Scope Z_scope.

(** * Interfaces *)

Record PreparedEffect := mkPrepared {
  preview : Value;
  observed_preconditions : Value;
}.

Record CommitResult := mkCommitResult { response : Value }.

Inductive CommitProbe : Type :=
| ProbeCommitted (result : CommitResult)
| ProbeNotCommitted
| ProbeUnknown.

Record Connector := mkConnector {
  canonicalize : string -> Value -> KernelResult Value;
  c_prepare : EffectContract -> KernelResult PreparedEffect;
  c_commit : EffectContract -> KernelResult CommitResult;
  probe_commit : EffectContract -> KernelResult CommitProbe;
  c_compensate : EffectContract -> KernelResult CommitResult;
}.

(** The default [classify_operation] over a connector's declared operations. *)
Definition classify_operation (operations : list (string * EffectClass)) (operation : string)
    : EffectClass :=
  match List.find (fun oc => bool_decide (oc.1 = operation)) operations with
  | Some (_, c) => c
  | None => OpaqueExternal
  end.

Class ReceiptSigner := { sign : string -> string * string }.
Class ErrorDisplay := { error_display : KernelError -> string }.

(** * State *)

Record ApprovalRecord := mkApproval {
  ar_approver : string;
  ar_approved_at : DateTime;
  ar_policy_epoch : Z;      (* u64 *)
  ar_contract_hash : string;
}.

Inductive InDoubtResolution : Type :=
| IDCommitted (receipt : string)
| IDAborted
| StillInDoubt.

Inductive OperatorResolution : Type :=
| ORCommitted (resp : Value)
| ORAborted (reason : string).

Record EffectRow := mkEffectRow {
  er_key : string;
  er_phase : string;
  er_json : PendingEffect;
  er_observed : option Value;
  er_approval : option ApprovalRecord;
}.

Record ReceiptRow := mkReceiptRow {
  rr_id : string;
  rr_effect : string;
  rr_key : string;
  rr_compensating : bool;
  rr_json : Receipt;
}.

Record Store := mkStore {
  effects : list (string * EffectRow);
  receipt_rows : list ReceiptRow;
  commit_claims : gmap string string;   (* idempotency key -> effect id *)
}.

Definition store_empty : Store := mkStore [] [] ∅.

Definition with_effects (st : Store) (e : list (string * EffectRow)) : Store :=
  mkStore e (receipt_rows st) (commit_claims st).

(** [UPDATE effects ... WHERE id = ?]: nothing happens without a row. *)
Definition update_row (st : Store) (id : string) (f : EffectRow -> EffectRow) : Store :=
  match im_get id (effects st) with
  | Some row => with_effects st (im_insert id (f row) (effects st))
  | None => st
  end.

Definition phase_name (p : EffectPhase) : string :=
  match p with
  | Proposed => "proposed"
  | Prepared _ => "prepared"
  | Approved _ _ _ => "approved"
  | Committing _ => "committing"
  | Committed _ => "committed"
  | Aborted _ => "aborted"
  | Compensated _ => "compensated"
  end.

Definition set_phase (e : PendingEffect) (p : EffectPhase) : PendingEffect :=
  mkEffect (effect_id e) (contract e) (effect_contract_hash e) (proposer e) (effect_branch e)
    (effect_step e) (effect_lease e) p (proposed_at e).

(** [SET phase = ?, json = json_set(json, '$.phase', ?)]. *)
Definition row_set_phase (p : EffectPhase) (row : EffectRow) : EffectRow :=
  mkEffectRow (er_key row) (phase_name p) (set_phase (er_json row) p) (er_observed row)
    (er_approval row).

Definition wrong_phase (e : PendingEffect) (expected : string) : KernelError :=
  WrongEffectPhase (effect_id e) (phase_name (phase e)) expected.

(** * Store access *)

Definition load_effect (st : Store) (id : string) : KernelResult PendingEffect :=
  ok_or (er_json <$> im_get id (effects st)) (NotFound "effect" id).

Definition save_effect (st : Store) (e : PendingEffect) : Store :=
  update_row st (effect_id e)
    (fun row => mkEffectRow (er_key row) (phase_name (phase e)) e (er_observed row)
                  (er_approval row)).

Definition load_approval (st : Store) (id : string) : KernelResult (option ApprovalRecord) :=
  ok_or (er_approval <$> im_get id (effects st)) (NotFound "effect" id).

Definition load_observed (st : Store) (id : string) : KernelResult (option Value) :=
  ok_or (er_observed <$> im_get id (effects st)) (NotFound "effect" id).

Definition set_observed (st : Store) (id : string) (v : Value) : Store :=
  update_row st id
    (fun row => mkEffectRow (er_key row) (er_phase row) (er_json row) (Some v) (er_approval row)).

Definition set_approval (st : Store) (id : string) (a : ApprovalRecord) : Store :=
  update_row st id
    (fun row => mkEffectRow (er_key row) (er_phase row) (er_json row) (er_observed row) (Some a)).

Definition committed_receipt_for_key (st : Store) (key : string) : option string :=
  rr_id <$> List.find (fun r => bool_decide (rr_key r = key) && negb (rr_compensating r))
              (receipt_rows st).

Definition receipt (st : Store) (id : string) : KernelResult Receipt :=
  ok_or (rr_json <$> List.find (fun r => bool_decide (rr_id r = id)) (receipt_rows st))
    (NotFound "receipt" id).

(** The INSERT into receipts: the primary key, and the partial unique index
    on committed receipts. *)
Definition insert_receipt (st : Store) (row : ReceiptRow) : KernelResult Store :=
  if existsb (fun r => bool_decide (rr_id r = rr_id row)) (receipt_rows st) then
    Err (Storage "UNIQUE constraint failed: receipts.id")
  else if negb (rr_compensating row)
          && existsb (fun r => bool_decide (rr_key r = rr_key row) && negb (rr_compensating r))
               (receipt_rows st) then
    Err (Storage "UNIQUE constraint failed: receipts.idempotency_key")
  else Ok (mkStore (effects st) (receipt_rows st ++ [row]) (commit_claims st)).

Definition ascii_lower (c : ascii) : ascii :=
  let n := Ascii.nat_of_ascii c in
  if ((65 <=? n) && (n <=? 90))%nat then Ascii.ascii_of_nat (n + 32) else c.

Fixpoint eq_ignore_ascii_case (a b : string) : bool :=
  match a, b with
  | EmptyString, EmptyString => true
  | String c a', String d b' =>
      bool_decide (ascii_lower c = ascii_lower d) && eq_ignore_ascii_case a' b'
  | _, _ => false
  end.

Definition list_effects (st : Store) (want : option string) : list PendingEffect :=
  List.filter
    (fun e => match want with
              | Some w => eq_ignore_ascii_case (phase_name (phase e)) w
              | None => true
              end)
    (map (fun ir => er_json ir.2) (reverse (effects st))).

Definition in_doubt_effects (st : Store) : list PendingEffect :=
  list_effects st (Some "committing").

Definition register_connector (conns : gmap string Connector) (n : string) (c : Connector)
    : gmap string Connector := <[n := c]> conns.

Definition connector_for (conns : gmap string Connector) (operation : string)
    : KernelResult Connector :=
  ok_or (conns !! namespace operation) (NotFound "connector" (namespace operation)).

Section broker.
Context `{!Serde, !Sha256, !TimeJson, !ReceiptSigner, !ErrorDisplay}.

(** The first entry of [expected] that [observed] does not match. *)
Fixpoint entries_hold (expected : list (string * Value)) (observed : Value)
    : result string () :=
  match expected with
  | [] => Ok tt
  | (k, v) :: rest =>
      match value_get k observed with
      | Some o =>
          if value_eqb o v then entries_hold rest observed
          else Err ("precondition `" +:+ k +:+ "` drifted: expected " +:+ canonical_json v
                    +:+ ", observed " +:+ canonical_json o)
      | None => Err ("precondition `" +:+ k +:+ "` is no longer observable")
      end
  end.

Definition preconditions_hold (expected observed : Value) : result string () :=
  match expected with
  | Object map => entries_hold map observed
  | _ => Ok tt
  end.

(** * Proposing, preparing, approving *)

Definition propose (conns : gmap string Connector) (st : Store) (fresh : string)
    (now : DateTime) (c : EffectContract) (who branch step lease : string)
    : KernelResult PendingEffect * Store :=
  match connector_for conns (ec_operation c) with
  | Err e => (Err e, st)
  | Ok conn =>
      match canonicalize conn (ec_operation c) (ec_arguments c) with
      | Err e => (Err e, st)
      | Ok args =>
          let c' := mkContract (ec_operation c) (ec_resource c) args (ec_preconditions c)
                      (idempotency_key c) (ec_class c) in
          match committed_receipt_for_key st (idempotency_key c') with
          | Some r => (Err (DuplicateCommit (idempotency_key c') r), st)
          | None =>
              let e := effect_new fresh c' who branch step lease now in
              match im_get fresh (effects st) with
              | Some _ => (Err (Storage "UNIQUE constraint failed: effects.id"), st)
              | None =>
                  (Ok e, with_effects st
                           (effects st ++ [(fresh, mkEffectRow (idempotency_key c')
                                                     (phase_name (phase e)) e None None)]))
              end
          end
      end
  end.

Definition prepare (conns : gmap string Connector) (st : Store) (id : string)
    : KernelResult PreparedEffect * Store :=
  match load_effect st id with
  | Err e => (Err e, st)
  | Ok e =>
      match phase e with
      | Proposed =>
          match connector_for conns (ec_operation (contract e)) with
          | Err err => (Err err, st)
          | Ok conn =>
              match c_prepare conn (contract e) with
              | Err err => (Err err, st)
              | Ok prepared =>
                  let st1 := save_effect st (set_phase e (Prepared (preview prepared))) in
                  (Ok prepared, set_observed st1 id (observed_preconditions prepared))
              end
          end
      | _ => (Err (wrong_phase e "proposed"), st)
      end
  end.

(** [approve] reads the effect under one lock and writes it under others. *)
Definition approve_load (st : Store) (id : string) : KernelResult PendingEffect :=
  e ← load_effect st id;
  match phase e with Prepared _ => Ok e | _ => Err (wrong_phase e "prepared") end.

Definition approve_save (st : Store) (e : PendingEffect) (approver : string) (epoch : Z)
    (now : DateTime) : Store :=
  let record := mkApproval approver now epoch (effect_contract_hash e) in
  let st1 := set_approval st (effect_id e) record in
  save_effect st1 (set_phase e (Approved approver now epoch)).

Definition approve (st : Store) (id approver : string) (epoch : Z) (now : DateTime)
    : KernelResult () * Store :=
  match approve_load st id with
  | Err err => (Err err, st)
  | Ok e => (Ok tt, approve_save st e approver epoch now)
  end.

Definition abort (st : Store) (id reason : string) : KernelResult () * Store :=
  match load_effect st id with
  | Err err => (Err err, st)
  | Ok e =>
      match phase e with
      | Committed _ | Compensated _ | Committing _ =>
          (Err (wrong_phase e "proposed|prepared|approved"), st)
      | _ => (Ok tt, save_effect st (set_phase e (Aborted reason)))
      end
  end.

Definition stale {A} (st : Store) (id reason : string) : KernelResult A * Store :=
  match abort st id reason with
  | (Err e, st') => (Err e, st')
  | (Ok _, st') => (Err (StaleAuthorization reason), st')
  end.

(** * Committing *)

(** What validation hands to the rest of [commit]. *)
Record Validated := mkValidated {
  v_effect : PendingEffect;
  v_approval : option ApprovalRecord;
  v_connector : Connector;
}.

Inductive ValidateResult : Type :=
| VDone (r : KernelResult Receipt)    (* an early return *)
| VOk (v : Validated).

(** The phase gate: the approval a commit relies on. *)
Definition commit_approval (st : Store) (e : PendingEffect)
    : KernelResult (option ApprovalRecord) :=
  match phase e with
  | Approved _ _ _ =>
      raw ← load_approval st (effect_id e);
      a ← ok_or raw (Storage "approved effect missing approval record");
      Ok (Some a)
  | Prepared _ =>
      match ec_class (contract e) with
      | Irreversible | OpaqueExternal => Err (wrong_phase e "approved")
      | _ => Ok None
      end
  | _ => Err (wrong_phase e "approved")
  end.

(** The checks on the approval: same contract, same policy epoch. *)
Definition approval_stale (a : option ApprovalRecord) (live_hash : string) (epoch : Z)
    : option string :=
  match a with
  | None => None
  | Some a =>
      if negb (bool_decide (ar_contract_hash a = live_hash)) then
        Some "contract hash changed since approval"
      else if negb (ar_policy_epoch a =? epoch) then
        Some ("policy epoch advanced from " +:+ pretty (ar_policy_epoch a) +:+ " to "
              +:+ pretty epoch +:+ " since approval")
      else None
  end.

Definition stale_done (st : Store) (id reason : string) : ValidateResult * Store :=
  let '(r, st') := stale st id reason in (VDone r, st').

(** Everything [commit] does before claiming the key. *)
Definition commit_validate (conns : gmap string Connector) (lease_check : string -> bool)
    (st : Store) (id : string) (epoch : Z) : ValidateResult * Store :=
  match load_effect st id with
  | Err err => (VDone (Err err), st)
  | Ok e =>
      match phase e with
      | Committed r => (VDone (receipt st r), st)
      | Committing _ =>
          (VDone (Err (CommitInDoubt (effect_id e)
                         "a previous commit attempt is in flight or unresolved")), st)
      | _ =>
          match commit_approval st e with
          | Err err => (VDone (Err err), st)
          | Ok approval =>
              let live_hash := contract_hash (contract e) in
              if negb (bool_decide (live_hash = effect_contract_hash e)) then
                stale_done st id "contract content no longer matches its recorded hash"
              else
                match approval_stale approval live_hash epoch with
                | Some reason => stale_done st id reason
                | None =>
                    if negb (lease_check (effect_lease e)) then
                      stale_done st id ("lease `" +:+ effect_lease e +:+ "` is no longer valid")
                    else
                      match connector_for conns (ec_operation (contract e)) with
                      | Err err => (VDone (Err err), st)
                      | Ok conn =>
                          match c_prepare conn (contract e) with
                          | Err err => (VDone (Err err), st)
                          | Ok reprepared =>
                              let obs := observed_preconditions reprepared in
                              match preconditions_hold (ec_preconditions (contract e)) obs with
                              | Err reason => stale_done st id reason
                              | Ok _ =>
                                  match load_observed st id with
                                  | Err err => (VDone (Err err), st)
                                  | Ok None => (VOk (mkValidated e approval conn), st)
                                  | Ok (Some prepared_obs) =>
                                      match preconditions_hold prepared_obs obs with
                                      | Err reason => stale_done st id reason
                                      | Ok _ => (VOk (mkValidated e approval conn), st)
                                      end
                                  end
                              end
                          end
                      end
                end
          end
      end
  end.

(** The claiming transaction; an error rolls it back. *)
Definition claim_commit (st : Store) (e : PendingEffect) (now : DateTime)
    : KernelResult () * Store :=
  let key := idempotency_key (contract e) in
  let claims :=
    match commit_claims st !! key with
    | Some _ => commit_claims st
    | None => <[key := effect_id e]> (commit_claims st)
    end in
  match claims !! key with
  | None => (Err (Storage "Query returned no rows"), st)
  | Some owner =>
      if negb (bool_decide (owner = effect_id e)) then
        (Err match committed_receipt_for_key st key with
             | Some r => DuplicateCommit key r
             | None =>
                 WrongEffectPhase (effect_id e)
                   ("blocked: effect `" +:+ owner +:+ "` holds the commit claim") "approved"
             end, st)
      else
        match im_get (effect_id e) (effects st) with
        | None => (Err (Storage "Query returned no rows"), st)
        | Some row =>
            if bool_decide (er_phase row = "approved") || bool_decide (er_phase row = "prepared")
            then
              (Ok tt,
               mkStore (im_insert (effect_id e) (row_set_phase (Committing now) row) (effects st))
                 (receipt_rows st) claims)
            else (Err (WrongEffectPhase (effect_id e) (er_phase row) "approved"), st)
        end
  end.

Definition approval_to_value (a : ApprovalRecord) : Value :=
  Object [("approved_at", Str (time_to_json (ar_approved_at a)));
          ("approver", Str (ar_approver a)); ("contract_hash", Str (ar_contract_hash a));
          ("policy_epoch", Number (PosInt (ar_policy_epoch a)))].

Definition witness_source (e : PendingEffect) (approval : option ApprovalRecord) : Value :=
  match approval with
  | Some a => approval_to_value a
  | None => Object [("auto_commit", VBool true); ("contract_hash", Str (effect_contract_hash e))]
  end.

Definition sign_receipt (fresh : string) (b : ReceiptBody) : Receipt :=
  let '(signature, key_id) := sign (canonical_json (receipt_body_to_value b)) in
  mkReceipt fresh b signature key_id.

Definition finalize_commit (st : Store) (fresh : string) (now : DateTime) (e : PendingEffect)
    (approval : option ApprovalRecord) (epoch : Z) (result : CommitResult)
    : KernelResult Receipt * Store :=
  let b := mkReceiptBody (effect_id e) (proposer e) (ec_operation (contract e))
             (ec_resource (contract e)) (effect_contract_hash e) (effect_branch e)
             (effect_step e) epoch (hash_canonical (witness_source e approval))
             (hash_canonical (response result)) now in
  let r := sign_receipt fresh b in
  let key := idempotency_key (contract e) in
  match insert_receipt st (mkReceiptRow fresh (effect_id e) key false r) with
  | Err err => (Err err, st)
  | Ok st1 =>
      let st2 := update_row st1 (effect_id e) (row_set_phase (Committed fresh)) in
      (Ok r, mkStore (effects st2) (receipt_rows st2) (delete key (commit_claims st2)))
  end.

Definition release_claim (st : Store) (e : PendingEffect) (restore : EffectPhase) : Store :=
  let st1 :=
    match im_get (effect_id e) (effects st) with
    | Some row =>
        if bool_decide (er_phase row = "committing") then
          with_effects st (im_insert (effect_id e) (row_set_phase restore row) (effects st))
        else st
    | None => st
    end in
  let key := idempotency_key (contract e) in
  if bool_decide (commit_claims st1 !! key = Some (effect_id e)) then
    mkStore (effects st1) (receipt_rows st1) (delete key (commit_claims st1))
  else st1.

Definition resolve_failed_commit (st : Store) (fresh : string) (now : DateTime)
    (v : Validated) (epoch : Z) (prior_phase : EffectPhase) (err : KernelError)
    : KernelResult Receipt * Store :=
  let e := v_effect v in
  match probe_commit (v_connector v) (contract e) with
  | Ok (ProbeCommitted result) => finalize_commit st fresh now e (v_approval v) epoch result
  | Ok ProbeNotCommitted => (Err err, release_claim st e prior_phase)
  | Ok ProbeUnknown | Err _ => (Err (CommitInDoubt (effect_id e) (error_display err)), st)
  end.

(** What follows the external call. *)
Definition commit_settle (st : Store) (fresh : string) (now : DateTime) (v : Validated)
    (epoch : Z) (answer : KernelResult CommitResult) : KernelResult Receipt * Store :=
  match answer with
  | Ok result => finalize_commit st fresh now (v_effect v) (v_approval v) epoch result
  | Err err => resolve_failed_commit st fresh now v epoch (phase (v_effect v)) err
  end.

Definition commit (conns : gmap string Connector) (lease_check : string -> bool) (st : Store)
    (id : string) (epoch : Z) (fresh : string) (now : DateTime)
    : KernelResult Receipt * Store * list EffectContract :=
  match commit_validate conns lease_check st id epoch with
  | (VDone r, st1) => (r, st1, [])
  | (VOk v, st1) =>
      match claim_commit st1 (v_effect v) now with
      | (Err err, st2) => (Err err, st2, [])
      | (Ok _, st2) =>
          let answer := c_commit (v_connector v) (contract (v_effect v)) in
          (commit_settle st2 fresh now v epoch answer, [contract (v_effect v)])
      end
  end.

(** * Recovery *)

Definition approval_epoch (a : option ApprovalRecord) : Z :=
  match a with Some a => ar_policy_epoch a | None => 0 end.

Definition recover_one (conns : gmap string Connector) (st : Store) (fresh : string)
    (now : DateTime) (e : PendingEffect) : InDoubtResolution * Store :=
  match connector_for conns (ec_operation (contract e)) with
  | Err _ => (StillInDoubt, st)
  | Ok conn =>
      let approval :=
        match load_approval st (effect_id e) with Ok a => a | Err _ => None end in
      match probe_commit conn (contract e) with
      | Ok (ProbeCommitted result) =>
          match finalize_commit st fresh now e approval (approval_epoch approval) result with
          | (Ok r, st') => (IDCommitted (receipt_id r), st')
          | (Err _, st') => (StillInDoubt, st')
          end
      | Ok ProbeNotCommitted =>
          (IDAborted,
           release_claim st e
             (Aborted "crash recovery: connector confirmed the external effect never executed"))
      | Ok ProbeUnknown | Err _ => (StillInDoubt, st)
      end
  end.

(** [fresh i] is the receipt id generated for the [i]-th effect. *)
Fixpoint recover_loop (conns : gmap string Connector) (fresh : nat -> string) (now : DateTime)
    (i : nat) (st : Store) (es : list PendingEffect)
    : list (string * InDoubtResolution) * Store :=
  match es with
  | [] => ([], st)
  | e :: rest =>
      let '(r, st1) := recover_one conns st (fresh i) now e in
      let '(out, st2) := recover_loop conns fresh now (S i) st1 rest in
      ((effect_id e, r) :: out, st2)
  end.

Definition recover_in_doubt (conns : gmap string Connector) (st : Store)
    (fresh : nat -> string) (now : DateTime) : list (string * InDoubtResolution) * Store :=
  recover_loop conns fresh now 0 st (in_doubt_effects st).

Definition resolve_in_doubt (st : Store) (id fresh : string) (now : DateTime)
    (outcome : OperatorResolution) : KernelResult (option Receipt) * Store :=
  match load_effect st id with
  | Err err => (Err err, st)
  | Ok e =>
      match phase e with
      | Committing _ =>
          match load_approval st id with
          | Err err => (Err err, st)
          | Ok approval =>
              match outcome with
              | ORCommitted resp =>
                  match finalize_commit st fresh now e approval (approval_epoch approval)
                          (mkCommitResult resp) with
                  | (Ok r, st') => (Ok (Some r), st')
                  | (Err err, st') => (Err err, st')
                  end
              | ORAborted reason => (Ok None, release_claim st e (Aborted reason))
              end
          end
      | _ => (Err (wrong_phase e "committing"), st)
      end
  end.

(** * Compensation *)

Definition sign_and_store (st : Store) (fresh : string) (e : PendingEffect) (b : ReceiptBody)
    (compensating : bool) : KernelResult (Receipt * Store) :=
  let r := sign_receipt fresh b in
  st' ← insert_receipt st
          (mkReceiptRow fresh (effect_id e) (idempotency_key (contract e)) compensating r);
  Ok (r, st').

Definition compensate (conns : gmap string Connector) (st : Store) (id fresh : string)
    (now : DateTime) : KernelResult Receipt * Store :=
  match load_effect st id with
  | Err err => (Err err, st)
  | Ok e =>
      match phase e with
      | Committed _ =>
          match connector_for conns (ec_operation (contract e)) with
          | Err err => (Err err, st)
          | Ok conn =>
              match c_compensate conn (contract e) with
              | Err err => (Err err, st)
              | Ok result =>
                  let b := mkReceiptBody (effect_id e) (proposer e)
                             (ec_operation (contract e) +:+ ".compensate")
                             (ec_resource (contract e)) (effect_contract_hash e)
                             (effect_branch e) (effect_step e) 0
                             (hash_canonical
                                (Object [("compensation_for", Str (effect_id e))]))
                             (hash_canonical (response result)) now in
                  match sign_and_store st fresh e b true with
                  | Err err => (Err err, st)
                  | Ok (r, st1) =>
                      (Ok r, save_effect st1 (set_phase e (Compensated (receipt_id r))))
                  end
              end
          end
      | _ => (Err (wrong_phase e "committed"), st)
      end
  end.
End broker.

(** * Lemmas on the store *)

Definition phase_of (st : Store) (id : string) : option string :=
  er_phase <$> im_get id (effects st).

Section store_lemmas.
Context `{!Serde, !Sha256}.

Definition row_ok (id : string) (row : EffectRow) : Prop :=
  effect_id (er_json row) = id
  /\ er_key row = idempotency_key (contract (er_json row))
  /\ er_phase row = phase_name (phase (er_json row))
  /\ effect_contract_hash (er_json row) = contract_hash (contract (er_json row)).

Definition store_ok (st : Store) : Prop :=
  forall id row, im_get id (effects st) = Some row -> row_ok id row.

Lemma im_get_snoc_fresh {V} (m : list (string * V)) k v k' :
  im_get k m = None ->
  im_get k' (m ++ [(k, v)]) = if decide (k' = k) then Some v else im_get k' m.
Proof.
  intros Hk. induction m as [|[q w] m IH]; cbn in *; [done|].
  destruct (decide (k = q)) as [->|Hkq]; [done|].
  destruct (decide (k' = q)) as [->|]; [by rewrite decide_False|by apply IH].
Qed.

Lemma update_row_get st id f id' :
  im_get id' (effects (update_row st id f))
  = if decide (id' = id) then f <$> im_get id (effects st) else im_get id' (effects st).
Proof.
  unfold update_row. destruct (im_get id (effects st)) as [row|] eqn:E; cbn.
  - destruct (decide (id' = id)) as [->|]; [apply im_get_insert_eq|].
    by apply im_get_insert_ne.
  - by destruct (decide (id' = id)) as [->|].
Qed.

Lemma update_row_receipts st id f : receipt_rows (update_row st id f) = receipt_rows st.
Proof. unfold update_row. by destruct (im_get id (effects st)). Qed.

Lemma update_row_claims st id f : commit_claims (update_row st id f) = commit_claims st.
Proof. unfold update_row. by destruct (im_get id (effects st)). Qed.

Lemma update_row_ok st id f :
  store_ok st -> (forall row, row_ok id row -> row_ok id (f row)) ->
  store_ok (update_row st id f).
Proof.
  intros Hok Hf id' row. rewrite update_row_get. case_decide; [|by apply Hok]. subst id'.
  intros (row' & Hrow & ->)%fmap_Some. by apply Hf, Hok.
Qed.

Lemma row_set_phase_ok id p row : row_ok id row -> row_ok id (row_set_phase p row).
Proof. by intros (? & ? & ? & ?). Qed.

Lemma load_effect_Ok st id e :
  load_effect st id = Ok e <-> exists row, im_get id (effects st) = Some row /\ er_json row = e.
Proof. unfold load_effect. rewrite ok_or_Ok, fmap_Some. naive_solver. Qed.

(** The loaded effect, with the invariant at hand. *)
Lemma load_effect_phase st id e :
  store_ok st -> load_effect st id = Ok e ->
  effect_id e = id /\ phase_of st id = Some (phase_name (phase e))
  /\ effect_contract_hash e = contract_hash (contract e).
Proof.
  intros Hok (row & Hrow & <-)%load_effect_Ok. destruct (Hok _ _ Hrow) as (Hi & _ & Hp & Hh).
  unfold phase_of. rewrite Hrow. cbn. by rewrite Hp.
Qed.

(** [save_effect] of a loaded effect with another phase. *)
Lemma save_effect_ok st id e p :
  store_ok st -> load_effect st id = Ok e -> store_ok (save_effect st (set_phase e p)).
Proof.
  intros Hok Hl. pose proof (load_effect_phase _ _ _ Hok Hl) as (Hi & _ & Hh).
  apply load_effect_Ok in Hl as (row & Hrow & <-).
  intros id' row'. unfold save_effect. rewrite update_row_get. cbn.
  case_decide as Hd; [|by apply Hok]. subst id'.
  intros (row0 & Hrow0 & ->)%fmap_Some.
  rewrite Hi in Hrow0. simplify_eq. destruct (Hok _ _ Hrow) as (_ & Hk & _ & _).
  by repeat split.
Qed.

Lemma save_effect_phase st e p id' :
  phase_of (save_effect st (set_phase e p)) id'
  = if decide (id' = effect_id e)
    then (fun _ => phase_name p) <$> phase_of st (effect_id e) else phase_of st id'.
Proof.
  unfold save_effect, phase_of. rewrite update_row_get. cbn. case_decide; [|done].
  by destruct (im_get (effect_id e) (effects st)).
Qed.

Lemma set_observed_ok st id v : store_ok st -> store_ok (set_observed st id v).
Proof. intros Hok. apply update_row_ok; [done|]. by intros row (? & ? & ? & ?). Qed.

Lemma set_approval_ok st id a : store_ok st -> store_ok (set_approval st id a).
Proof. intros Hok. apply update_row_ok; [done|]. by intros row (? & ? & ? & ?). Qed.

Lemma update_row_phase_same st id f id' :
  (forall row, er_phase (f row) = er_phase row) ->
  phase_of (update_row st id f) id' = phase_of st id'.
Proof.
  intros Hf. unfold phase_of. rewrite update_row_get. case_decide as Hd; [|done]. subst id'.
  destruct (im_get id (effects st)); cbn; by rewrite ?Hf.
Qed.

Lemma set_approval_load st id a id' :
  load_effect (set_approval st id a) id' = load_effect st id'.
Proof.
  unfold load_effect, set_approval. rewrite update_row_get. case_decide as Hd; [|done].
  subst id'. by destruct (im_get id (effects st)).
Qed.

(** ** Receipts *)

Definition committed_keys (st : Store) : list string :=
  map rr_key (List.filter (fun r => negb (rr_compensating r)) (receipt_rows st)).

Definition receipts_ok (st : Store) : Prop :=
  NoDup (map rr_id (receipt_rows st)) /\ NoDup (committed_keys st).

Lemma existsb_false {A} (f : A -> bool) l :
  existsb f l = false <-> forall x, x ∈ l -> f x = false.
Proof.
  induction l as [|y l IH]; cbn.
  - split; [by intros _ x ?%elem_of_nil|done].
  - rewrite orb_false_iff, IH. split.
    + intros [Hy Hl] x [->|Hx]%elem_of_cons; auto.
    + intros Hall. split; [apply Hall; left|]. intros x Hx. apply Hall. by right.
Qed.

Lemma insert_receipt_Ok st row st' :
  insert_receipt st row = Ok st' ->
  st' = mkStore (effects st) (receipt_rows st ++ [row]) (commit_claims st)
  /\ (forall r, r ∈ receipt_rows st -> rr_id r <> rr_id row)
  /\ (rr_compensating row = false -> rr_key row ∉ committed_keys st).
Proof.
  unfold insert_receipt. destruct (existsb _ _) eqn:Eid; [done|].
  destruct (negb (rr_compensating row) && _) eqn:Ekey; [done|]. intros [= <-].
  split; [done|]. rewrite existsb_false in Eid. split.
  - intros r Hr. specialize (Eid r Hr). by bool_hyps.
  - intros Hc. rewrite Hc in Ekey. cbn in Ekey. rewrite existsb_false in Ekey.
    intros Hin. apply list_elem_of_In, in_map_iff in Hin as (r & Hk & Hr).
    apply filter_In in Hr as [Hr Hnc]. rewrite <- list_elem_of_In in Hr.
    specialize (Ekey r Hr). rewrite Hnc, bool_decide_true in Ekey; done.
Qed.

Lemma insert_receipt_ok st row st' :
  receipts_ok st -> insert_receipt st row = Ok st' -> receipts_ok st'.
Proof.
  intros [Hids Hkeys] (-> & Hid & Hkey)%insert_receipt_Ok. unfold receipts_ok, committed_keys.
  cbn [receipt_rows]. rewrite map_app, List.filter_app, map_app. split.
  - apply NoDup_app. split; [done|]. split; [|repeat constructor; by apply not_elem_of_nil].
    intros x Hx. apply list_elem_of_In, in_map_iff in Hx as (r & <- & Hr).
    rewrite <- list_elem_of_In in Hr. cbn. rewrite list_elem_of_singleton. by apply Hid.
  - apply NoDup_app. split; [done|]. cbn. destruct (rr_compensating row) eqn:Hc; cbn.
    + split; [|constructor]. intros x _. apply not_elem_of_nil.
    + split; [|repeat constructor; by apply not_elem_of_nil].
      intros x Hx. rewrite list_elem_of_singleton. intros ->. by apply Hkey.
Qed.

Lemma receipt_snoc st row :
  (forall r, r ∈ receipt_rows st -> rr_id r <> rr_id row) ->
  receipt (mkStore (effects st) (receipt_rows st ++ [row]) (commit_claims st)) (rr_id row)
  = Ok (rr_json row).
Proof.
  intros Hid. unfold receipt. cbn. apply ok_or_Ok, fmap_Some. exists row. split; [|done].
  revert Hid. generalize (receipt_rows st) as l. induction l as [|r l IH]; intros Hid; cbn.
  - by rewrite bool_decide_true.
  - rewrite bool_decide_false by (apply Hid; left). apply IH. intros q Hq. apply Hid. by right.
Qed.
End store_lemmas.

(** * Operations preserve the store *)

(** A phase in which the external call was or may have been made. *)
Definition busy (p : option string) : Prop :=
  p = Some "committing" \/ p = Some "committed" \/ p = Some "compensated".

(** Busy effects stay as they are, except that a committed one may be
    compensated. *)
Definition keeps (st st' : Store) : Prop :=
  forall id, busy (phase_of st id) ->
    phase_of st' id = phase_of st id
    \/ (phase_of st id = Some "committed" /\ phase_of st' id = Some "compensated").

Section operation_lemmas.
Context `{!Serde, !Sha256, !TimeJson, !ReceiptSigner, !ErrorDisplay}.

Definition st_inv (st : Store) : Prop := store_ok st /\ receipts_ok st.

Definition good (st st' : Store) : Prop := st_inv st' /\ keeps st st'.

Lemma keeps_refl st : keeps st st.
Proof. intros id _. by left. Qed.

Lemma good_refl st : st_inv st -> good st st.
Proof. split; [done|apply keeps_refl]. Qed.

Lemma st_inv_effects st st' :
  st_inv st -> store_ok st' -> receipt_rows st' = receipt_rows st -> st_inv st'.
Proof.
  intros [_ Hr] Hok Heq. split; [done|]. unfold receipts_ok, committed_keys. by rewrite Heq.
Qed.

Lemma save_effect_receipts st e : receipt_rows (save_effect st e) = receipt_rows st.
Proof. apply update_row_receipts. Qed.

(** Saving a new phase over a phase that is not busy. *)
Lemma save_good st id e p :
  st_inv st -> load_effect st id = Ok e -> ~ busy (Some (phase_name (phase e))) ->
  good st (save_effect st (set_phase e p)).
Proof.
  intros Hinv Hl Hnb. pose proof Hinv as [Hok _].
  destruct (load_effect_phase _ _ _ Hok Hl) as (Hi & Hph & _). split.
  - eapply st_inv_effects; [done|by eapply save_effect_ok|apply save_effect_receipts].
  - intros id' Hb. rewrite save_effect_phase. case_decide as Hd; [|by left].
    subst id'. rewrite Hi, Hph in Hb. done.
Qed.

Lemma update_same_good st0 st id f :
  good st0 st -> (forall row, er_phase (f row) = er_phase row) ->
  store_ok (update_row st id f) -> good st0 (update_row st id f).
Proof.
  intros [Hinv Hk] Hf Hok. split.
  - eapply st_inv_effects; [done|done|apply update_row_receipts].
  - intros id' Hb. rewrite update_row_phase_same by done. by apply Hk.
Qed.

Lemma propose_good conns st fresh now c who br sp ls r st' :
  st_inv st -> propose conns st fresh now c who br sp ls = (r, st') -> good st st'.
Proof.
  intros Hinv. unfold propose. pose proof (good_refl _ Hinv) as Hsame.
  destruct (connector_for _ _) as [conn|e]; [|by intros [= <- <-]].
  destruct (canonicalize _ _ _) as [args|e]; [|by intros [= <- <-]].
  destruct (committed_receipt_for_key _ _); [by intros [= <- <-]|].
  destruct (im_get fresh (effects st)) eqn:Ef; [by intros [= <- <-]|].
  intros [= <- <-]. split.
  - eapply st_inv_effects; [done| |done]. destruct Hinv as [Hok _].
    intros id row. cbn. rewrite im_get_snoc_fresh by done. case_decide; [|by apply Hok].
    intros [= <-]. subst id. by repeat split.
  - intros id Hb. left. unfold phase_of. cbn. rewrite im_get_snoc_fresh by done.
    case_decide as Hd; [|done]. subst id. unfold phase_of in Hb. rewrite Ef in Hb.
    by destruct Hb as [|[|]].
Qed.

Lemma prepare_good conns st id r st' :
  st_inv st -> prepare conns st id = (r, st') -> good st st'.
Proof.
  intros Hinv. unfold prepare. pose proof (good_refl _ Hinv) as Hsame.
  destruct (load_effect st id) as [e|] eqn:Hl; [|by intros [= <- <-]].
  destruct (phase e) eqn:Hp; try by intros [= <- <-].
  destruct (connector_for _ _) as [conn|err]; [|by intros [= <- <-]].
  destruct (c_prepare _ _) as [pr|err]; [|by intros [= <- <-]]. intros [= <- <-].
  assert (good st (save_effect st (set_phase e (Prepared (preview pr))))) as Hg.
  { eapply save_good; try done. rewrite Hp. by intros [|[|]]. }
  apply update_same_good; [done|done|]. apply set_observed_ok, Hg.
Qed.

Lemma approve_good st id who epoch now r st' :
  st_inv st -> approve st id who epoch now = (r, st') -> good st st'.
Proof.
  intros Hinv. unfold approve, approve_load. pose proof (good_refl _ Hinv) as Hsame.
  destruct (load_effect st id) as [e|] eqn:Hl; cbn; [|by intros [= <- <-]].
  destruct (phase e) eqn:Hp; try by intros [= <- <-]. intros [= <- <-].
  unfold approve_save. destruct (load_effect_phase _ _ _ (proj1 Hinv) Hl) as (Hi & _).
  set (st1 := set_approval _ _ _).
  assert (good st st1) as Hg1.
  { apply update_same_good; [done|done|]. apply set_approval_ok, Hinv. }
  assert (good st1 (save_effect st1 (set_phase e (Approved who now epoch)))) as [Hinv2 Hk2].
  { apply (save_good _ id); [apply Hg1| |rewrite Hp; by intros [|[|]]].
    unfold st1. by rewrite set_approval_load. }
  split; [done|]. intros id' Hb.
  assert (phase_of st1 id' = phase_of st id') as Heq by by apply update_row_phase_same.
  rewrite <- Heq in *. by apply Hk2.
Qed.

Lemma abort_good st id reason r st' :
  st_inv st -> abort st id reason = (r, st') -> good st st'.
Proof.
  intros Hinv. unfold abort. pose proof (good_refl _ Hinv) as Hsame.
  destruct (load_effect st id) as [e|] eqn:Hl; [|by intros [= <- <-]].
  destruct (phase e) eqn:Hp; intros [= <- <-]; try done;
    eapply save_good; try done; rewrite Hp; by intros [|[|]].
Qed.

Lemma stale_good {A} st id reason (r : KernelResult A) st' :
  st_inv st -> stale st id reason = (r, st') -> good st st'.
Proof.
  intros Hinv. unfold stale. destruct (abort st id reason) as [[u|e] st1] eqn:Ha;
    intros [= <- <-]; by eapply abort_good.
Qed.

Lemma stale_done_good st id reason r st' :
  st_inv st -> stale_done st id reason = (r, st') -> good st st'.
Proof.
  intros Hinv. unfold stale_done. destruct (stale st id reason) as [q st1] eqn:Hs.
  intros [= <- <-]. by eapply stale_good.
Qed.

(** What a validated commit was checked against. *)
Definition validated_ok (lease_check : string -> bool) (st : Store) (id : string) (epoch : Z)
    (v : Validated) : Prop :=
  let e := v_effect v in
  load_effect st id = Ok e
  /\ contract_hash (contract e) = effect_contract_hash e
  /\ lease_check (effect_lease e) = true
  /\ match phase e with
     | Approved _ _ _ =>
         exists a, v_approval v = Some a /\ load_approval st (effect_id e) = Ok (Some a)
                   /\ ar_contract_hash a = contract_hash (contract e) /\ ar_policy_epoch a = epoch
     | Prepared _ => ec_class (contract e) <> Irreversible /\ ec_class (contract e) <> OpaqueExternal
     | _ => False
     end
  /\ exists obs, c_prepare (v_connector v) (contract e) = Ok obs
       /\ preconditions_hold (ec_preconditions (contract e)) (observed_preconditions obs) = Ok tt
       /\ forall prev, load_observed st id = Ok (Some prev) ->
            preconditions_hold prev (observed_preconditions obs) = Ok tt.

Lemma commit_approval_Ok st e a :
  commit_approval st e = Ok a ->
  match phase e with
  | Approved _ _ _ => exists x, a = Some x /\ load_approval st (effect_id e) = Ok (Some x)
  | Prepared _ =>
      a = None /\ ec_class (contract e) <> Irreversible /\ ec_class (contract e) <> OpaqueExternal
  | _ => False
  end.
Proof.
  unfold commit_approval. destruct (phase e); try done.
  - destruct (ec_class (contract e)); intros [= <-]; done.
  - intros Ha. inv_result. eauto.
Qed.

Lemma approval_stale_None a hash epoch :
  approval_stale a hash epoch = None ->
  match a with
  | Some x => ar_contract_hash x = hash /\ ar_policy_epoch x = epoch
  | None => True
  end.
Proof.
  unfold approval_stale. destruct a as [x|]; [|done]. case_bool_decide; cbn; [|done].
  destruct (ar_policy_epoch x =? epoch) eqn:E; cbn; [|done]. by bool_hyps.
Qed.

(** What validation established, whatever the store holds. *)
Lemma commit_validate_VOk conns lc st id epoch v st' :
  commit_validate conns lc st id epoch = (VOk v, st') -> st' = st /\ validated_ok lc st id epoch v.
Proof.
  unfold commit_validate. assert (forall reason, stale_done st id reason <> (VOk v, st')) as Hstale.
  { intros reason. unfold stale_done. by destruct (stale st id reason). }
  destruct (load_effect st id) as [e|] eqn:Hl; [|done].
  destruct (commit_approval st e) as [a|err] eqn:Hap; [|by destruct (phase e)].
  apply commit_approval_Ok in Hap. destruct (phase e) eqn:Hp; try done.
  all: case_bool_decide as Hh; cbn [negb]; [|by intros ?%Hstale].
  all: destruct (approval_stale a _ epoch) eqn:Hst; [by intros ?%Hstale|]; apply approval_stale_None in Hst.
  all: destruct (lc (effect_lease e)) eqn:Hlc; cbn [negb]; [|by intros ?%Hstale].
  all: destruct (connector_for _ _) as [conn|err]; [|done].
  all: destruct (c_prepare conn (contract e)) as [obs|err] eqn:Hprep; [|done].
  all: destruct (preconditions_hold (ec_preconditions (contract e)) _) as [[]|reason] eqn:Hpre; [|by intros ?%Hstale].
  all: destruct (load_observed st id) as [[prev|]|err] eqn:Hobs; [| |done].
  all: try (destruct (preconditions_hold prev _) as [[]|reason] eqn:Hpre2; [|by intros ?%Hstale]).
  all: intros [= <- <-]; split; [done|]; unfold validated_ok; cbn [v_effect v_approval v_connector]; rewrite Hp;
    do 3 (split; [done|]); split.
  all: try (exists obs; do 2 (split; [done|]); intros ? Hprev; rewrite Hobs in Hprev; by simplify_eq).
  all: try (destruct Hap as (x & -> & Hx); exists x; by destruct Hst).
  all: by destruct Hap as (_ & ?).
Qed.

Lemma commit_validate_store conns lc st id epoch r st' :
  commit_validate conns lc st id epoch = (r, st') -> st' = st \/ exists reason, stale_done st id reason = (r, st').
Proof. unfold commit_validate. intros Hv. repeat (case_match; simplify_eq; eauto). Qed.

Lemma commit_validate_spec conns lc st id epoch r st' :
  st_inv st -> commit_validate conns lc st id epoch = (r, st') ->
  good st st'
  /\ match r with
     | VOk v => st' = st /\ validated_ok lc st id epoch v
     | VDone _ => True
     end.
Proof.
  intros Hinv Hv. split; [|destruct r; [done|by eapply commit_validate_VOk]].
  destruct (commit_validate_store _ _ _ _ _ _ _ Hv) as [->|[reason Hs]]; [by apply good_refl|].
  by eapply stale_done_good.
Qed.
End operation_lemmas.

(** * The committing blocks *)

Section commit_lemmas.
Context `{!Serde, !Sha256, !TimeJson, !ReceiptSigner, !ErrorDisplay}.

Lemma claim_commit_Ok st e now st' :
  claim_commit st e now = (Ok tt, st') ->
  exists row, im_get (effect_id e) (effects st) = Some row
    /\ (er_phase row = "approved" \/ er_phase row = "prepared")
    /\ effects st' = im_insert (effect_id e) (row_set_phase (Committing now) row) (effects st)
    /\ receipt_rows st' = receipt_rows st
    /\ commit_claims st' !! idempotency_key (contract e) = Some (effect_id e)
    /\ (commit_claims st !! idempotency_key (contract e) = None
        \/ commit_claims st !! idempotency_key (contract e) = Some (effect_id e)).
Proof.
  unfold claim_commit. set (key := idempotency_key (contract e)).
  destruct (commit_claims st !! key) as [o|] eqn:Ek.
  - rewrite Ek. case_bool_decide as Ho; cbn [negb]; [subst o|done].
    destruct (im_get (effect_id e) (effects st)) as [row|]; [|done].
    do 2 case_bool_decide; cbn [orb]; intros [= <-]; exists row; cbn; rewrite Ek; eauto 10.
  - rewrite lookup_insert_eq, bool_decide_true by done. cbn [negb].
    destruct (im_get (effect_id e) (effects st)) as [row|]; [|done].
    do 2 case_bool_decide; cbn [orb]; intros [= <-]; exists row; cbn;
      rewrite lookup_insert_eq; eauto 10.
Qed.

Lemma claim_commit_Err st e now err st' : claim_commit st e now = (Err err, st') -> st' = st.
Proof.
  unfold claim_commit. destruct (commit_claims st !! _) as [o|] eqn:Ek.
  - rewrite Ek. case_bool_decide; cbn [negb]; [|by intros [= _ <-]].
    destruct (im_get _ _) as [row|]; [|by intros [= _ <-]].
    do 2 case_bool_decide; cbn [orb]; by intros [=].
  - rewrite lookup_insert_eq, bool_decide_true by done. cbn [negb].
    destruct (im_get _ _) as [row|]; [|by intros [= _ <-]].
    do 2 case_bool_decide; cbn [orb]; by intros [=].
Qed.

Lemma claim_commit_inv st e now st' :
  st_inv st -> claim_commit st e now = (Ok tt, st') ->
  st_inv st' /\ ~ busy (phase_of st (effect_id e))
  /\ forall id', phase_of st' id' =
       if decide (id' = effect_id e) then Some "committing" else phase_of st id'.
Proof.
  intros Hinv (row & Hrow & Hph & Heff & Hrec & _)%claim_commit_Ok. split; [|split].
  - eapply st_inv_effects; [done| |done]. intros id' row'. rewrite Heff.
    destruct (decide (effect_id e = id')) as [<-|Hne].
    + rewrite im_get_insert_eq. intros [= <-]. apply row_set_phase_ok. by apply Hinv.
    + rewrite im_get_insert_ne by done. apply Hinv.
  - unfold busy, phase_of. rewrite Hrow. cbn. destruct Hph as [-> | ->]; by intros [|[|]].
  - intros id'. unfold phase_of. rewrite Heff. destruct (decide (id' = effect_id e)) as [->|].
    + by rewrite im_get_insert_eq.
    + by rewrite im_get_insert_ne.
Qed.

Lemma finalize_commit_spec st fresh now e a epoch result r st' :
  st_inv st -> finalize_commit st fresh now e a epoch result = (r, st') ->
  match r with
  | Err _ => st' = st
  | Ok rc =>
      st_inv st' /\ receipt_id rc = fresh /\ rb_effect (receipt_body rc) = effect_id e
      /\ rb_contract_hash (receipt_body rc) = effect_contract_hash e
      /\ rb_policy_epoch (receipt_body rc) = epoch
      /\ rb_authorization_witness (receipt_body rc) = hash_canonical (witness_source e a)
      /\ rb_external_response_digest (receipt_body rc) = hash_canonical (response result)
      /\ receipt st' fresh = Ok rc
      /\ (forall id', im_get id' (effects st') =
            if decide (id' = effect_id e)
            then row_set_phase (Committed fresh) <$> im_get (effect_id e) (effects st)
            else im_get id' (effects st))
      /\ commit_claims st' = delete (idempotency_key (contract e)) (commit_claims st)
      /\ idempotency_key (contract e) ∉ committed_keys st
  end.
Proof.
  intros Hinv. unfold finalize_commit. set (rc := sign_receipt fresh _).
  destruct (insert_receipt st _) as [st1|err] eqn:Hins; intros [= <- <-]; [|done].
  pose proof (insert_receipt_ok _ _ _ (proj2 Hinv) Hins) as Hrok.
  apply insert_receipt_Ok in Hins as (-> & Hid & Hkey).
  assert (receipt_id rc = fresh) as Hrid.
  { unfold rc, sign_receipt. by destruct (sign _). }
  assert (receipt_body rc = mkReceiptBody (effect_id e) (proposer e) (ec_operation (contract e))
             (ec_resource (contract e)) (effect_contract_hash e) (effect_branch e)
             (effect_step e) epoch (hash_canonical (witness_source e a))
             (hash_canonical (response result)) now) as Hb.
  { unfold rc, sign_receipt. by destruct (sign _). }
  rewrite Hb. split; [split|].
  - intros id' row. cbn [effects]. rewrite update_row_get. case_decide as Hd; [|apply Hinv].
    subst id'. intros (row0 & Hrow & ->)%fmap_Some. cbn in Hrow.
    apply row_set_phase_ok. by apply Hinv.
  - unfold receipts_ok, committed_keys in *. cbn [receipt_rows] in *.
    by rewrite update_row_receipts.
  - cbn [rb_effect rb_contract_hash rb_policy_epoch rb_authorization_witness
         rb_external_response_digest commit_claims effects]. split; [done|].
    do 5 (split; [done|]). split; [|split; [|split]].
    + pose proof (receipt_snoc st (mkReceiptRow fresh (effect_id e)
        (idempotency_key (contract e)) false rc) Hid) as Hr. unfold receipt in *.
      cbn [receipt_rows rr_id rr_json] in *. by rewrite update_row_receipts.
    + intros id'. rewrite update_row_get. done.
    + by rewrite update_row_claims.
    + by apply Hkey.
Qed.

Lemma finalize_commit_phase st fresh now e a epoch result rc st' id' :
  st_inv st -> finalize_commit st fresh now e a epoch result = (Ok rc, st') ->
  phase_of st' id' = if decide (id' = effect_id e)
                     then (fun _ => "committed") <$> phase_of st (effect_id e)
                     else phase_of st id'.
Proof.
  intros Hinv (_ & _ & _ & _ & _ & _ & _ & _ & Heff & _)%(finalize_commit_spec); [|done].
  unfold phase_of. rewrite Heff. case_decide; [|done]. by destruct (im_get _ _).
Qed.

Lemma release_claim_spec st e restore :
  st_inv st ->
  st_inv (release_claim st e restore)
  /\ forall id', phase_of (release_claim st e restore) id' =
       if decide (id' = effect_id e /\ phase_of st id' = Some "committing")
       then Some (phase_name restore) else phase_of st id'.
Proof.
  intros Hinv. unfold release_claim.
  set (st1 := match im_get (effect_id e) (effects st) with Some _ => _ | None => _ end).
  assert (st_inv st1 /\ forall id', phase_of st1 id' =
       if decide (id' = effect_id e /\ phase_of st id' = Some "committing")
       then Some (phase_name restore) else phase_of st id') as [Hinv1 Hph].
  { unfold st1. destruct (im_get (effect_id e) (effects st)) as [row|] eqn:Erow.
    - case_bool_decide as Hc.
      + split.
        * eapply st_inv_effects; [done| |done]. intros id' row'. cbn.
          destruct (decide (effect_id e = id')) as [<-|Hne].
          -- rewrite im_get_insert_eq. intros [= <-]. apply row_set_phase_ok. by apply Hinv.
          -- rewrite im_get_insert_ne by done. apply Hinv.
        * intros id'. unfold phase_of. cbn. destruct (decide (id' = effect_id e)) as [->|Hne].
          -- rewrite im_get_insert_eq, Erow. cbn. rewrite Hc. by rewrite decide_True.
          -- rewrite im_get_insert_ne by done. rewrite decide_False; [done|tauto].
      + split; [done|]. intros id'. rewrite decide_False; [done|].
        intros [-> Hp]. unfold phase_of in Hp. rewrite Erow in Hp. cbn in Hp. congruence.
    - split; [done|]. intros id'. rewrite decide_False; [done|].
      intros [-> Hp]. unfold phase_of in Hp. by rewrite Erow in Hp. }
  case_bool_decide; [|done]. split; [|done].
  eapply st_inv_effects; [exact Hinv1|apply Hinv1|done].
Qed.

Lemma stale_done_receipts st id reason r st' :
  stale_done st id reason = (r, st') -> receipt_rows st' = receipt_rows st.
Proof.
  unfold stale_done, stale, abort. destruct (load_effect st id) as [e|]; [|by intros [= <- <-]].
  destruct (phase e); intros [= <- <-]; try done; apply save_effect_receipts.
Qed.

Lemma commit_validate_receipts conns lc st id epoch r st' :
  commit_validate conns lc st id epoch = (r, st') -> receipt_rows st' = receipt_rows st.
Proof.
  intros [->|[reason Hs]]%commit_validate_store; [done|by eapply stale_done_receipts].
Qed.

Lemma compensate_good conns st id fresh now r st' :
  st_inv st -> compensate conns st id fresh now = (r, st') -> good st st'.
Proof.
  intros Hinv. unfold compensate. pose proof (good_refl _ Hinv) as Hsame.
  destruct (load_effect st id) as [e|] eqn:Hl; [|by intros [= <- <-]].
  destruct (phase e) eqn:Hp; try by intros [= <- <-].
  destruct (connector_for _ _) as [conn|err]; [|by intros [= <- <-]].
  destruct (c_compensate _ _) as [res|err]; [|by intros [= <- <-]].
  unfold sign_and_store. destruct (insert_receipt st _) as [st1|err] eqn:Hins; cbn;
    [|by intros [= <- <-]]. intros [= <- <-].
  pose proof (insert_receipt_ok _ _ _ (proj2 Hinv) Hins) as Hrok.
  apply insert_receipt_Ok in Hins as (-> & _ & _).
  destruct (load_effect_phase _ _ _ (proj1 Hinv) Hl) as (Hi & Hph & _).
  split; [split|].
  - eapply save_effect_ok; [|exact Hl]. apply Hinv.
  - unfold receipts_ok, committed_keys. by rewrite save_effect_receipts.
  - intros id' Hb. rewrite save_effect_phase. case_decide as Hd; [|by left].
    subst id'. right. rewrite Hi. change (phase_of (mkStore _ _ _) id) with (phase_of st id).
    by rewrite Hph, Hp.
Qed.
End commit_lemmas.

(** * Whole calls *)

Section whole_calls.
Context `{!Serde, !Sha256, !TimeJson, !ReceiptSigner, !ErrorDisplay}.

(** The connector answered an error, and its probe that nothing executed. *)
Definition not_executed (answer : KernelResult CommitResult) (probe : KernelResult CommitProbe)
    : bool :=
  match answer, probe with Err _, Ok ProbeNotCommitted => true | _, _ => false end.

(** After the external call the task's own effect is committed, still
    committing, or (confirmed not executed) back in its former phase. *)
Lemma commit_settle_spec st fresh now v epoch answer r st' :
  st_inv st -> phase_of st (effect_id (v_effect v)) = Some "committing" ->
  commit_settle st fresh now v epoch answer = (r, st') ->
  st_inv st' /\ (forall id, id <> effect_id (v_effect v) -> phase_of st' id = phase_of st id)
  /\ (not_executed answer (probe_commit (v_connector v) (contract (v_effect v))) = false ->
      busy (phase_of st' (effect_id (v_effect v)))).
Proof.
  intros Hst Hp. unfold commit_settle, resolve_failed_commit.
  assert (forall a e res r st', finalize_commit st fresh now (v_effect v) a e res = (r, st') ->
    st_inv st' /\ (forall id, id <> effect_id (v_effect v) -> phase_of st' id = phase_of st id)
    /\ busy (phase_of st' (effect_id (v_effect v)))) as Hfin.
  { intros a e0 res [rc|err] st0 Hf; pose proof (finalize_commit_spec _ _ _ _ _ _ _ _ _ Hst Hf) as Hs.
    - split; [apply Hs|]. split.
      + intros id Hne. rewrite (finalize_commit_phase _ _ _ _ _ _ _ _ _ id Hst Hf).
        by rewrite decide_False.
      + rewrite (finalize_commit_phase _ _ _ _ _ _ _ _ _ _ Hst Hf).
        rewrite decide_True, Hp by done. by right; left.
    - cbn in Hs. subst st0. split; [done|]. split; [done|]. rewrite Hp. by left. }
  destruct answer as [res|err]; cbn [not_executed].
  { intros Hf. destruct (Hfin _ _ _ _ _ Hf) as (? & ? & ?). done. }
  destruct (probe_commit _ _) as [[res| |]|]; cbn [not_executed].
  - intros Hf. destruct (Hfin _ _ _ _ _ Hf) as (? & ? & ?). done.
  - intros [= <- <-]. destruct (release_claim_spec st (v_effect v) (phase (v_effect v)) Hst)
      as [Hst' Hph]. split; [done|]. split; [|done].
    intros id Hne. rewrite Hph, decide_False; [done|]. by intros [? _].
  - intros [= <- <-]. split; [done|]. split; [done|]. intros _. rewrite Hp. by left.
  - intros [= <- <-]. split; [done|]. split; [done|]. intros _. rewrite Hp. by left.
Qed.

(** ** The whole calls keep the store well formed *)

Lemma finalize_commit_inv st fresh now e a epoch result :
  st_inv st -> st_inv (finalize_commit st fresh now e a epoch result).2.
Proof.
  intros Hst. destruct (finalize_commit _ _ _ _ _ _ _) as [[rc|err] st'] eqn:Hf;
    apply finalize_commit_spec in Hf; [apply Hf|done|by subst|done].
Qed.

Lemma commit_inv conns lc st id epoch fresh now :
  st_inv st -> st_inv (commit conns lc st id epoch fresh now).1.2.
Proof.
  intros Hst. unfold commit. destruct (commit_validate _ _ _ _ _) as [[r|v] st1] eqn:Hv;
    apply commit_validate_spec in Hv as [Hg Hv]; try done; [by apply Hg|]. destruct Hv as [-> _].
  destruct (claim_commit _ _ _) as [[[]|err] st2] eqn:Hc; [|by apply claim_commit_Err in Hc as ->].
  destruct (claim_commit_inv _ _ _ _ Hst Hc) as (Hst2 & _ & Hph).
  destruct (commit_settle _ _ _ _ _ _) as [r st3] eqn:Hs. eapply commit_settle_spec; [done| |exact Hs].
  by rewrite Hph, decide_True.
Qed.

Lemma recover_inv conns st fresh now : st_inv st -> st_inv (recover_in_doubt conns st fresh now).2.
Proof.
  unfold recover_in_doubt. generalize 0%nat, (in_doubt_effects st). intros i es. revert i st.
  induction es as [|e es IH]; intros i st Hst; [done|]. cbn.
  assert (st_inv (recover_one conns st (fresh i) now e).2) as Hst1.
  { unfold recover_one. destruct (connector_for _ _); [|done].
    destruct (probe_commit _ _) as [[res| |]|]; [|by apply release_claim_spec|done..].
    match goal with |- context [finalize_commit ?st ?f ?n ?e ?a ?ep ?r] =>
      pose proof (finalize_commit_inv st f n e a ep r Hst) as Hf; by destruct (finalize_commit st f n e a ep r) as [[]] end. }
  destruct (recover_one _ _ _ _ _) as [r st1]. specialize (IH (S i) st1 Hst1).
  by destruct (recover_loop _ _ _ _ _ _) as [out st2].
Qed.

Lemma resolve_inv st id fresh now outcome : st_inv st -> st_inv (resolve_in_doubt st id fresh now outcome).2.
Proof.
  intros Hst. unfold resolve_in_doubt. destruct (load_effect _ _) as [e|]; [|done]. destruct (phase e); try done.
  destruct (load_approval _ _) as [a|]; [|done]. destruct outcome; [|by apply release_claim_spec].
  match goal with |- context [finalize_commit ?st ?f ?n ?e ?a ?ep ?r] =>
    pose proof (finalize_commit_inv st f n e a ep r Hst) as Hf; by destruct (finalize_commit st f n e a ep r) as [[]] end.
Qed.
End whole_calls.

Module Calls.
(** * Concurrent calls

    A call of the broker is a [Proc]: the critical sections it runs under the store
    lock, one by one, and between them what it waits for: the lease check, the
    connector, the external system.  Calls interleave at these points, and each
    answer from outside is free.  [Save] is the unguarded [UPDATE] by which
    [prepare], [approve], [abort] and [compensate] write back the effect they read
    in an earlier section; [Claim] is the claiming transaction with the external call
    that follows it; [Release] is [release_claim], [confirmed] when the connector has
    just told this very call that nothing was executed. *)

Inductive Reply : Type :=
| RProposed (r : KernelResult PendingEffect)
| RPrepared (r : KernelResult PreparedEffect)
| RUnit (r : KernelResult ())
| RReceipt (r : KernelResult Receipt)
| RResolved (r : KernelResult (option Receipt))
| RRecovered (l : list (string * InDoubtResolution)).

Inductive Proc : Type :=
| Done (r : Reply)
| Sec (f : Store -> Store) (k : Store -> Proc)
| Save (e : PendingEffect) (k : Proc)
| Lease (lease : string) (k : bool -> Proc)
| Observe (conn : Connector) (c : EffectContract) (k : KernelResult PreparedEffect -> Proc)
| Claim (conn : Connector) (e : PendingEffect) (now : DateTime) (lost : KernelError -> Proc)
    (k : KernelResult CommitResult -> KernelResult CommitProbe -> Proc)
| Call (conn : Connector) (e : PendingEffect)
    (k : KernelResult CommitResult -> KernelResult CommitProbe -> Proc)
| Release (e : PendingEffect) (restore : EffectPhase) (confirmed : bool) (k : Proc)
| Probe (conn : Connector) (c : EffectContract) (k : KernelResult CommitProbe -> Proc)
| Undo (conn : Connector) (c : EffectContract) (k : KernelResult CommitResult -> Proc).

Section procs.
Context `{!Serde, !Sha256, !TimeJson, !ReceiptSigner, !ErrorDisplay}.

(** A section that only reads, and one that ends the call with its own result. *)
Definition reads (k : Store -> Proc) : Proc := Sec (fun st => st) k.
Definition ends {A} (wrap : KernelResult A -> Reply) (f : Store -> KernelResult A * Store) : Proc :=
  Sec (fun st => (f st).2) (fun st => Done (wrap (f st).1)).

Definition insert_effect (fresh : string) (c : EffectContract) (e : PendingEffect) (st : Store)
    : KernelResult PendingEffect * Store :=
  match im_get fresh (effects st) with
  | Some _ => (Err (Storage "UNIQUE constraint failed: effects.id"), st)
  | None =>
      (Ok e, with_effects st (effects st ++ [(fresh, mkEffectRow (idempotency_key c) (phase_name (phase e)) e None None)]))
  end.

Definition propose_proc (conns : gmap string Connector) (fresh : string) (now : DateTime)
    (c : EffectContract) (who branch step lease : string) : Proc :=
  match connector_for conns (ec_operation c) with
  | Err e => Done (RProposed (Err e))
  | Ok conn =>
      match canonicalize conn (ec_operation c) (ec_arguments c) with
      | Err e => Done (RProposed (Err e))
      | Ok args =>
          let c' := mkContract (ec_operation c) (ec_resource c) args (ec_preconditions c)
                      (idempotency_key c) (ec_class c) in
          reads (fun st =>
            match committed_receipt_for_key st (idempotency_key c') with
            | Some r => Done (RProposed (Err (DuplicateCommit (idempotency_key c') r)))
            | None => ends RProposed (insert_effect fresh c' (effect_new fresh c' who branch step lease now))
            end)
      end
  end.

Definition prepare_proc (conns : gmap string Connector) (id : string) : Proc :=
  reads (fun st =>
    match load_effect st id with
    | Err err => Done (RPrepared (Err err))
    | Ok e =>
        match phase e with
        | Proposed =>
            match connector_for conns (ec_operation (contract e)) with
            | Err err => Done (RPrepared (Err err))
            | Ok conn =>
                Observe conn (contract e) (fun r =>
                  match r with
                  | Err err => Done (RPrepared (Err err))
                  | Ok prepared =>
                      Save (set_phase e (Prepared (preview prepared)))
                        (Sec (fun st => set_observed st id (observed_preconditions prepared))
                           (fun _ => Done (RPrepared (Ok prepared))))
                  end)
            end
        | _ => Done (RPrepared (Err (wrong_phase e "proposed")))
        end
    end).

Definition approve_proc (id approver : string) (epoch : Z) (now : DateTime) : Proc :=
  reads (fun st =>
    match approve_load st id with
    | Err err => Done (RUnit (Err err))
    | Ok e =>
        Sec (fun st => set_approval st (effect_id e) (mkApproval approver now epoch (effect_contract_hash e)))
          (fun _ => Save (set_phase e (Approved approver now epoch)) (Done (RUnit (Ok tt))))
    end).

(** [abort], whose result the caller goes on with. *)
Definition aborting (id reason : string) (k : KernelResult () -> Reply) : Proc :=
  reads (fun st =>
    match load_effect st id with
    | Err err => Done (k (Err err))
    | Ok e =>
        match phase e with
        | Committed _ | Compensated _ | Committing _ => Done (k (Err (wrong_phase e "proposed|prepared|approved")))
        | _ => Save (set_phase e (Aborted reason)) (Done (k (Ok tt)))
        end
    end).

Definition abort_proc (id reason : string) : Proc := aborting id reason RUnit.

Definition stale_proc (id reason : string) : Proc :=
  aborting id reason (fun r =>
    RReceipt match r with Err e => Err e | Ok _ => Err (StaleAuthorization reason) end).

(** The approval a commit relies on, read in a section of its own. *)
Definition approval_proc (e : PendingEffect) (k : option ApprovalRecord -> Proc) : Proc :=
  let refuse err := Done (RReceipt (Err err)) in
  match phase e with
  | Approved _ _ _ =>
      reads (fun st =>
        match load_approval st (effect_id e) with
        | Err err => refuse err
        | Ok None => refuse (Storage "approved effect missing approval record")
        | Ok (Some a) => k (Some a)
        end)
  | Prepared _ =>
      match ec_class (contract e) with
      | Irreversible | OpaqueExternal => refuse (wrong_phase e "approved")
      | _ => k None
      end
  | _ => refuse (wrong_phase e "approved")
  end.

(** What follows the claim: the external call and how it is settled. *)
Definition settle_proc (fresh : string) (now : DateTime) (e : PendingEffect) (approval : option ApprovalRecord)
    (epoch : Z) (answer : KernelResult CommitResult) (probe : KernelResult CommitProbe) : Proc :=
  match answer with
  | Ok result => ends RReceipt (fun st => finalize_commit st fresh now e approval epoch result)
  | Err err =>
      match probe with
      | Ok (ProbeCommitted result) => ends RReceipt (fun st => finalize_commit st fresh now e approval epoch result)
      | Ok ProbeNotCommitted => Release e (phase e) true (Done (RReceipt (Err err)))
      | Ok ProbeUnknown | Err _ => Done (RReceipt (Err (CommitInDoubt (effect_id e) (error_display err))))
      end
  end.

Definition observed_proc (conn : Connector) (id : string) (e : PendingEffect) (k : Proc)
    (r : KernelResult PreparedEffect) : Proc :=
  match r with
  | Err err => Done (RReceipt (Err err))
  | Ok reprepared =>
      let obs := observed_preconditions reprepared in
      match preconditions_hold (ec_preconditions (contract e)) obs with
      | Err reason => stale_proc id reason
      | Ok _ =>
          reads (fun st =>
            match load_observed st id with
            | Err err => Done (RReceipt (Err err))
            | Ok None => k
            | Ok (Some prepared_obs) =>
                match preconditions_hold prepared_obs obs with
                | Err reason => stale_proc id reason
                | Ok _ => k
                end
            end)
      end
  end.

Definition commit_proc (conns : gmap string Connector) (id : string) (epoch : Z) (fresh : string)
    (now : DateTime) : Proc :=
  let refuse err := Done (RReceipt (Err err)) in
  reads (fun st =>
    match load_effect st id with
    | Err err => refuse err
    | Ok e =>
        match phase e with
        | Committed r => reads (fun st => Done (RReceipt (receipt st r)))
        | Committing _ =>
            refuse (CommitInDoubt (effect_id e) "a previous commit attempt is in flight or unresolved")
        | _ =>
            approval_proc e (fun approval =>
              let live_hash := contract_hash (contract e) in
              if negb (bool_decide (live_hash = effect_contract_hash e)) then
                stale_proc id "contract content no longer matches its recorded hash"
              else
                match approval_stale approval live_hash epoch with
                | Some reason => stale_proc id reason
                | None =>
                    Lease (effect_lease e) (fun valid =>
                      if negb valid then stale_proc id ("lease `" +:+ effect_lease e +:+ "` is no longer valid")
                      else
                        match connector_for conns (ec_operation (contract e)) with
                        | Err err => refuse err
                        | Ok conn =>
                            Observe conn (contract e)
                              (observed_proc conn id e
                                 (Claim conn e now refuse (settle_proc fresh now e approval epoch)))
                        end)
                end)
        end
    end).

Definition recover_one_proc (conns : gmap string Connector) (fresh : string) (now : DateTime)
    (e : PendingEffect) (k : InDoubtResolution -> Proc) : Proc :=
  match connector_for conns (ec_operation (contract e)) with
  | Err _ => k StillInDoubt
  | Ok conn =>
      reads (fun st =>
        let approval := match load_approval st (effect_id e) with Ok a => a | Err _ => None end in
        Probe conn (contract e) (fun r =>
          match r with
          | Ok (ProbeCommitted result) =>
              Sec (fun st => (finalize_commit st fresh now e approval (approval_epoch approval) result).2)
                (fun st =>
                   match (finalize_commit st fresh now e approval (approval_epoch approval) result).1 with
                   | Ok r => k (IDCommitted (receipt_id r))
                   | Err _ => k StillInDoubt
                   end)
          | Ok ProbeNotCommitted =>
              Release e (Aborted "crash recovery: connector confirmed the external effect never executed") false
                (k IDAborted)
          | Ok ProbeUnknown | Err _ => k StillInDoubt
          end))
  end.

Fixpoint recover_loop_proc (conns : gmap string Connector) (fresh : nat -> string) (now : DateTime)
    (i : nat) (es : list PendingEffect) (out : list (string * InDoubtResolution)) : Proc :=
  match es with
  | [] => Done (RRecovered out)
  | e :: rest =>
      recover_one_proc conns (fresh i) now e
        (fun r => recover_loop_proc conns fresh now (S i) rest (out ++ [(effect_id e, r)]))
  end.

Definition recover_proc (conns : gmap string Connector) (fresh : nat -> string) (now : DateTime) : Proc :=
  reads (fun st => recover_loop_proc conns fresh now 0 (in_doubt_effects st) []).

Definition resolve_proc (id fresh : string) (now : DateTime) (outcome : OperatorResolution) : Proc :=
  let refuse err := Done (RResolved (Err err)) in
  reads (fun st =>
    match load_effect st id with
    | Err err => refuse err
    | Ok e =>
        match phase e with
        | Committing _ =>
            reads (fun st =>
              match load_approval st id with
              | Err err => refuse err
              | Ok approval =>
                  match outcome with
                  | ORCommitted resp =>
                      Sec (fun st => (finalize_commit st fresh now e approval (approval_epoch approval) (mkCommitResult resp)).2)
                        (fun st => Done (RResolved
                          match (finalize_commit st fresh now e approval (approval_epoch approval) (mkCommitResult resp)).1 with
                          | Ok r => Ok (Some r)
                          | Err err => Err err
                          end))
                  | ORAborted reason => Release e (Aborted reason) false (Done (RResolved (Ok None)))
                  end
              end)
        | _ => refuse (wrong_phase e "committing")
        end
    end).

Definition compensate_proc (conns : gmap string Connector) (id fresh : string) (now : DateTime) : Proc :=
  let refuse err := Done (RReceipt (Err err)) in
  reads (fun st =>
    match load_effect st id with
    | Err err => refuse err
    | Ok e =>
        match phase e with
        | Committed _ =>
            match connector_for conns (ec_operation (contract e)) with
            | Err err => refuse err
            | Ok conn =>
                Undo conn (contract e) (fun r =>
                  match r with
                  | Err err => refuse err
                  | Ok result =>
                      let b := mkReceiptBody (effect_id e) (proposer e) (ec_operation (contract e) +:+ ".compensate")
                                 (ec_resource (contract e)) (effect_contract_hash e) (effect_branch e) (effect_step e) 0
                                 (hash_canonical (Object [("compensation_for", Str (effect_id e))]))
                                 (hash_canonical (response result)) now in
                      Sec (fun st => match sign_and_store st fresh e b true with Ok (_, st1) => st1 | Err _ => st end)
                        (fun st =>
                           match sign_and_store st fresh e b true with
                           | Err err => refuse err
                           | Ok (r, _) => Save (set_phase e (Compensated (receipt_id r))) (Done (RReceipt (Ok r)))
                           end)
                  end)
            end
        | _ => refuse (wrong_phase e "committed")
        end
    end).

(** ** One call, uninterrupted *)

Fixpoint run (lease_check : string -> bool) (p : Proc) (st : Store) : Reply * Store * list EffectContract :=
  match p with
  | Done r => (r, st, [])
  | Sec f k => run lease_check (k st) (f st)
  | Save e k => run lease_check k (save_effect st e)
  | Lease l k => run lease_check (k (lease_check l)) st
  | Observe conn c k => run lease_check (k (c_prepare conn c)) st
  | Claim conn e now lost k =>
      match claim_commit st e now with
      | (Err err, st') => run lease_check (lost err) st'
      | (Ok _, st') =>
          let '(out, calls) := run lease_check (k (c_commit conn (contract e)) (probe_commit conn (contract e))) st' in
          (out, contract e :: calls)
      end
  | Call conn e k =>
      let '(out, calls) := run lease_check (k (c_commit conn (contract e)) (probe_commit conn (contract e))) st in
      (out, contract e :: calls)
  | Release e restore _ k => run lease_check k (release_claim st e restore)
  | Probe conn c k => run lease_check (k (probe_commit conn c)) st
  | Undo conn c k => run lease_check (k (c_compensate conn c)) st
  end.

Ltac run_cases :=
  repeat first [done
               | progress cbn -[finalize_commit release_claim claim_commit save_effect set_observed set_approval insert_receipt
                  sign_and_store preconditions_hold approval_stale approval_epoch load_effect load_approval load_observed connector_for]
               | case_match; simplify_eq].

Lemma run_propose lc conns st fresh now c who br sp ls :
  run lc (propose_proc conns fresh now c who br sp ls) st =
  let '(r, st') := propose conns st fresh now c who br sp ls in (RProposed r, st', []).
Proof. unfold propose_proc, propose, reads, ends, insert_effect. run_cases. Qed.

Lemma run_prepare lc conns st id :
  run lc (prepare_proc conns id) st = let '(r, st') := prepare conns st id in (RPrepared r, st', []).
Proof. unfold prepare_proc, prepare, reads. run_cases. Qed.

Lemma run_approve lc st id who epoch now :
  run lc (approve_proc id who epoch now) st = let '(r, st') := approve st id who epoch now in (RUnit r, st', []).
Proof. unfold approve_proc, approve, approve_save, reads. run_cases. Qed.

Lemma run_abort lc st id reason :
  run lc (abort_proc id reason) st = let '(r, st') := abort st id reason in (RUnit r, st', []).
Proof. unfold abort_proc, aborting, abort, reads. run_cases. Qed.

Lemma run_stale lc st id reason :
  run lc (stale_proc id reason) st = let '(r, st') := stale st id reason in (RReceipt r, st', []).
Proof. unfold stale_proc, aborting, stale, abort, reads. run_cases. Qed.

Lemma run_compensate lc conns st id fresh now :
  run lc (compensate_proc conns id fresh now) st =
  let '(r, st') := compensate conns st id fresh now in (RReceipt r, st', []).
Proof. unfold compensate_proc, compensate, reads. run_cases. Qed.

Lemma run_resolve lc st id fresh now outcome :
  run lc (resolve_proc id fresh now outcome) st =
  let '(r, st') := resolve_in_doubt st id fresh now outcome in (RResolved r, st', []).
Proof.
  unfold resolve_proc, resolve_in_doubt, reads. cbn [run]. destruct (load_effect st id) as [e|]; [|done].
  destruct (phase e); try done. cbn [run]. destruct (load_approval st id) as [a|]; [|done].
  destruct outcome; [|done]. cbn [run]. by destruct (finalize_commit _ _ _ _ _ _ _) as [[r|err] st'].
Qed.

Lemma run_settle lc st fresh now v epoch answer :
  run lc (settle_proc fresh now (v_effect v) (v_approval v) epoch answer
            (probe_commit (v_connector v) (contract (v_effect v)))) st =
  let '(r, st') := commit_settle st fresh now v epoch answer in (RReceipt r, st', []).
Proof.
  unfold settle_proc, commit_settle, resolve_failed_commit, ends.
  destruct answer as [res|err]; [|destruct (probe_commit _ _) as [[res| |]|]]; try done; cbn [run];
    by destruct (finalize_commit _ _ _ _ _ _ _) as [r st'].
Qed.

Lemma run_observed lc conn id e p r st :
  run lc (observed_proc conn id e p r) st =
  match r with
  | Err err => (RReceipt (Err err), st, [])
  | Ok obs =>
      match preconditions_hold (ec_preconditions (contract e)) (observed_preconditions obs) with
      | Err reason => let '(q, st') := stale st id reason in (RReceipt q, st', [])
      | Ok _ =>
          match load_observed st id with
          | Err err => (RReceipt (Err err), st, [])
          | Ok None => run lc p st
          | Ok (Some prev) =>
              match preconditions_hold prev (observed_preconditions obs) with
              | Err reason => let '(q, st') := stale st id reason in (RReceipt q, st', [])
              | Ok _ => run lc p st
              end
          end
      end
  end.
Proof.
  unfold observed_proc, reads. destruct r as [obs|]; [|done].
  destruct (preconditions_hold _ _); [|apply run_stale]. cbn [run].
  destruct (load_observed st id) as [[prev|]|]; try done. destruct (preconditions_hold prev _); [done|apply run_stale].
Qed.

Lemma run_approval lc e k st :
  run lc (approval_proc e k) st =
  match commit_approval st e with Err err => (RReceipt (Err err), st, []) | Ok a => run lc (k a) st end.
Proof.
  unfold approval_proc, commit_approval, reads. destruct (phase e); try done; cbn [run].
  - by destruct (ec_class _).
  - by destruct (load_approval _ _) as [[a|]|].
Qed.

(** The sections of [commit], run one after the other, are [commit]. *)
Lemma run_commit lc conns st id epoch fresh now :
  run lc (commit_proc conns id epoch fresh now) st =
  let '(r, st', calls) := commit conns lc st id epoch fresh now in (RReceipt r, st', calls).
Proof.
  unfold commit_proc, commit, commit_validate, stale_done. unfold reads at 1. cbn [run].
  destruct (load_effect st id) as [e|]; [|done].
  assert (forall reason, run lc (stale_proc id reason) st =
    let '(r, st', calls) := match (let '(q, st') := stale st id reason in (VDone q, st')) with
      | (VDone r, st1) => (r, st1, []) | (VOk v, st1) => match claim_commit st1 (v_effect v) now with
        | (Ok _, st2) => (commit_settle st2 fresh now v epoch (c_commit (v_connector v) (contract (v_effect v))), [contract (v_effect v)])
        | (Err err, st2) => (Err err, st2, []) end end in (RReceipt r, st', calls)) as Hstale.
  { intros reason. rewrite run_stale. by destruct (stale st id reason). }
  destruct (phase e) eqn:Hp; try done; cbn [run].
  all: rewrite run_approval; destruct (commit_approval st e) as [a|] eqn:Ha; [|done]; cbn zeta.
  all: case_bool_decide; cbn [negb]; [|apply Hstale].
  all: destruct (approval_stale a _ epoch); [apply Hstale|]; cbn [run].
  all: destruct (lc (effect_lease e)); cbn [negb]; [|apply Hstale].
  all: destruct (connector_for _ _) as [conn|]; [|done]; cbn [run]; rewrite run_observed.
  all: destruct (c_prepare conn (contract e)) as [obs|]; [|done].
  all: destruct (preconditions_hold (ec_preconditions _) _); [|rewrite <- run_stale with (lc := lc); apply Hstale].
  all: assert (run lc (Claim conn e now (fun err => Done (RReceipt (Err err))) (settle_proc fresh now e a epoch)) st
    = let '(r, st', calls) := match claim_commit st e now with
        | (Ok _, st2) => (commit_settle st2 fresh now (mkValidated e a conn) epoch (c_commit conn (contract e)), [contract e])
        | (Err err, st2) => (Err err, st2, []) end in (RReceipt r, st', calls)) as Hclaim.
  all: try (cbn [run]; destruct (claim_commit st e now) as [[u|err] st2]; [|done];
    pose proof (run_settle lc st2 fresh now (mkValidated e a conn) epoch (c_commit conn (contract e))) as Hs;
    cbn [v_effect v_approval v_connector] in Hs; rewrite Hs; by destruct (commit_settle _ _ _ _ _ _)).
  all: destruct (load_observed st id) as [[prev|]|]; [|exact Hclaim|done].
  all: destruct (preconditions_hold prev _); [exact Hclaim|rewrite <- run_stale with (lc := lc); apply Hstale].
Qed.

Lemma run_recover_one lc conns fresh now e k st :
  run lc (recover_one_proc conns fresh now e k) st =
  let '(r, st') := recover_one conns st fresh now e in run lc (k r) st'.
Proof.
  unfold recover_one_proc, recover_one, reads. destruct (connector_for _ _) as [conn|]; [|done]. cbn [run].
  destruct (probe_commit _ _) as [[res| |]|]; try done. cbn [run].
  by destruct (finalize_commit _ _ _ _ _ _ _) as [[r|err] st'].
Qed.

Lemma run_recover lc conns st fresh now :
  run lc (recover_proc conns fresh now) st =
  let '(r, st') := recover_in_doubt conns st fresh now in (RRecovered r, st', []).
Proof.
  unfold recover_proc, recover_in_doubt, reads. cbn [run].
  assert (forall es i out st0, run lc (recover_loop_proc conns fresh now i es out) st0 =
    let '(r, st') := recover_loop conns fresh now i st0 es in (RRecovered (out ++ r), st', [])) as Hloop.
  { induction es as [|e es IH]; intros i out st0; cbn [recover_loop_proc recover_loop run]; [by rewrite app_nil_r|].
    rewrite run_recover_one. destruct (recover_one _ _ _ _ _) as [r st1]. rewrite IH.
    destruct (recover_loop _ _ _ _ _ _) as [out' st2]. by rewrite <- app_assoc. }
  apply Hloop.
Qed.

End procs.

(** ** Interleaved calls *)

(** A phase out of which no call is allowed to take an effect back to where it can be
    claimed: its external call was or may have been made, or it was aborted. *)
Definition spent (p : option string) : bool :=
  existsb (fun s => bool_decide (p = Some s)) ["committing"; "committed"; "compensated"; "aborted"].

(** The calls of the interface. *)
Inductive BrokerCall : Type :=
| BPropose (conns : gmap string Connector) (fresh : string) (now : DateTime) (c : EffectContract)
    (who branch step lease : string)
| BPrepare (conns : gmap string Connector) (id : string)
| BApprove (id approver : string) (epoch : Z) (now : DateTime)
| BAbort (id reason : string)
| BCommit (conns : gmap string Connector) (id : string) (epoch : Z) (fresh : string) (now : DateTime)
| BRecover (conns : gmap string Connector) (fresh : nat -> string) (now : DateTime)
| BResolve (id fresh : string) (now : DateTime) (outcome : OperatorResolution)
| BCompensate (conns : gmap string Connector) (id fresh : string) (now : DateTime).

(** What a waiting call is told. *)
Inductive Answer : Type :=
| Go
| ALease (valid : bool)
| AObserve (r : KernelResult PreparedEffect)
| ACall (r : KernelResult CommitResult) (probe : KernelResult CommitProbe)
| AProbe (r : KernelResult CommitProbe)
| AUndo (r : KernelResult CommitResult).

(** A call under way, with the effect it has claimed, if any. *)
Record Thread := mkThread { th_own : option string; th_proc : Proc }.

(** The store and the calls under way, with what happened so far, by effect: external
    calls, calls confirmed as never executed, and saves that came too late. *)
Record BSys := mkBSys {
  bs_store : Store;
  bs_threads : list Thread;
  bs_calls : list string;
  bs_refuted : list string;
  bs_late : list string;
}.

Definition bsys_init : BSys := mkBSys store_empty [] [] [] [].

Section interleaved.
Context `{!Serde, !Sha256, !TimeJson, !ReceiptSigner, !ErrorDisplay}.

Definition proc_of (c : BrokerCall) : Proc :=
  match c with
  | BPropose conns fresh now c who branch step lease => propose_proc conns fresh now c who branch step lease
  | BPrepare conns id => prepare_proc conns id
  | BApprove id approver epoch now => approve_proc id approver epoch now
  | BAbort id reason => abort_proc id reason
  | BCommit conns id epoch fresh now => commit_proc conns id epoch fresh now
  | BRecover conns fresh now => recover_proc conns fresh now
  | BResolve id fresh now outcome => resolve_proc id fresh now outcome
  | BCompensate conns id fresh now => compensate_proc conns id fresh now
  end.

(** A save that takes a spent effect back: it writes what was read before. *)
Definition late_save (st : Store) (e : PendingEffect) : bool :=
  spent (phase_of st (effect_id e)) && negb (spent (Some (phase_name (phase e)))).

(** One move of one call: the new store, the call, and the effects to be added to the
    three records. *)
Definition advance (a : Answer) (st : Store) (t : Thread)
    : option (Store * Thread * (list string * list string * list string)) :=
  let go st' p := Some (st', mkThread (th_own t) p, ([], [], [])) in
  match th_proc t, a with
  | Sec f k, Go => go (f st) (k st)
  | Save e k, Go =>
      Some (save_effect st e, mkThread (th_own t) k, ([], [], if late_save st e then [effect_id e] else []))
  | Lease _ k, ALease b => go st (k b)
  | Observe _ _ k, AObserve r => go st (k r)
  | Claim conn e now lost k, Go =>
      match claim_commit st e now with
      | (Err err, st') => go st' (lost err)
      | (Ok _, st') => Some (st', mkThread (Some (effect_id e)) (Call conn e k), ([effect_id e], [], []))
      end
  | Call _ _ k, ACall r probe => go st (k r probe)
  | Release e restore true k, Go =>
      Some (release_claim st e restore, mkThread None k, ([], [effect_id e], []))
  | Release e restore false k, Go => go (release_claim st e restore) k
  | Probe _ _ k, AProbe r => go st (k r)
  | Undo _ _ k, AUndo r => go st (k r)
  | _, _ => None
  end.

(** A call arrives, moves, or is dropped at one of its awaits. *)
Definition spawn (c : BrokerCall) (s : BSys) : BSys :=
  mkBSys (bs_store s) (bs_threads s ++ [mkThread None (proc_of c)]) (bs_calls s) (bs_refuted s) (bs_late s).

Definition move (i : nat) (a : Answer) (s : BSys) : option BSys :=
  t ← bs_threads s !! i;
  '(st, t', (calls, refuted, late)) ← advance a (bs_store s) t;
  Some (mkBSys st (<[i := t']> (bs_threads s)) (calls ++ bs_calls s) (refuted ++ bs_refuted s) (late ++ bs_late s)).

Inductive bstep : BSys -> BSys -> Prop :=
| b_spawn s c : bstep s (spawn c s)
| b_move s i a s' : move i a s = Some s' -> bstep s s'
| b_drop s i : bstep s (mkBSys (bs_store s) (delete i (bs_threads s)) (bs_calls s) (bs_refuted s) (bs_late s)).

(** ** What the sections do to phases *)

Definition mild (st st' : Store) : Prop :=
  (forall id, spent (phase_of st id) = true -> spent (phase_of st' id) = true)
  /\ (receipts_ok st -> receipts_ok st').

Lemma mild_refl st : mild st st.
Proof. by split. Qed.

Lemma mild_update st id f :
  (forall row, spent (Some (er_phase row)) = true -> spent (Some (er_phase (f row))) = true) ->
  mild st (update_row st id f).
Proof.
  intros Hf. split.
  - intros id'. unfold phase_of. rewrite update_row_get. case_decide as Hd; [|done]. subst id'.
    destruct (im_get id (effects st)) as [row|]; [apply Hf|done].
  - unfold receipts_ok, committed_keys. by rewrite update_row_receipts.
Qed.

Lemma mild_insert fresh c e st : mild st (insert_effect fresh c e st).2.
Proof.
  unfold insert_effect. destruct (im_get fresh (effects st)) eqn:Ef; [apply mild_refl|]. split; [|done].
  intros id. unfold phase_of. cbn. rewrite im_get_snoc_fresh by done. case_decide as Hd; [|done].
  subst id. by rewrite Ef.
Qed.

Lemma mild_finalize st fresh now e a epoch result : mild st (finalize_commit st fresh now e a epoch result).2.
Proof.
  unfold finalize_commit. destruct (insert_receipt st _) as [st1|err] eqn:Hins; [|apply mild_refl].
  pose proof (fun H => insert_receipt_ok _ _ _ H Hins) as Hrok. apply insert_receipt_Ok in Hins as (-> & _).
  match goal with |- context [update_row ?s ?i ?f] => destruct (mild_update s i f) as [Hp Hr] end; [done|].
  split.
  - intros id Hs. exact (Hp id Hs).
  - intros Hok. specialize (Hr (Hrok Hok)). exact Hr.
Qed.

Lemma mild_compensating st fresh e b :
  mild st (match sign_and_store st fresh e b true with Ok (_, st1) => st1 | Err _ => st end).
Proof.
  unfold sign_and_store. destruct (insert_receipt st _) as [st1|err] eqn:Hins; [|apply mild_refl].
  pose proof (fun H => insert_receipt_ok _ _ _ H Hins) as Hrok.
  apply insert_receipt_Ok in Hins as (-> & _). split; [done|exact Hrok].
Qed.

Lemma release_claim_phase st e restore id :
  phase_of (release_claim st e restore) id =
  if decide (id = effect_id e /\ phase_of st id = Some "committing") then Some (phase_name restore) else phase_of st id.
Proof.
  unfold release_claim. set (st1 := match im_get _ _ with Some _ => _ | None => _ end).
  assert (phase_of st1 id = if decide (id = effect_id e /\ phase_of st id = Some "committing")
    then Some (phase_name restore) else phase_of st id) as Hp; [|by case_bool_decide].
  unfold st1. destruct (im_get (effect_id e) (effects st)) as [row|] eqn:Erow.
  - case_bool_decide as Hc; unfold phase_of; cbn.
    + destruct (decide (id = effect_id e)) as [->|Hne].
      * rewrite im_get_insert_eq, Erow. cbn. by rewrite Hc, decide_True.
      * rewrite im_get_insert_ne by done. rewrite decide_False; [done|tauto].
    + rewrite decide_False; [done|]. intros [-> Hp]. rewrite Erow in Hp. cbn in Hp. congruence.
  - rewrite decide_False; [done|]. intros [-> Hp]. unfold phase_of in Hp. by rewrite Erow in Hp.
Qed.

Lemma release_claim_receipts st e restore : receipt_rows (release_claim st e restore) = receipt_rows st.
Proof. unfold release_claim. by repeat case_match. Qed.

Lemma mild_release st e restore : spent (Some (phase_name restore)) = true -> mild st (release_claim st e restore).
Proof.
  intros Hs. split.
  - intros id. rewrite release_claim_phase. by case_decide.
  - unfold receipts_ok, committed_keys. by rewrite release_claim_receipts.
Qed.

Lemma save_phase st e id :
  phase_of (save_effect st e) id
  = if decide (id = effect_id e) then (fun _ => phase_name (phase e)) <$> phase_of st id else phase_of st id.
Proof.
  unfold save_effect, phase_of. rewrite update_row_get. case_decide as Hd; [|done]. subst id.
  by destruct (im_get _ _).
Qed.

(** ** Calls that behave

    Only a save may take a spent effect back; a call releases with confirmation only what
    it has claimed. *)
Fixpoint behaves (own : option string) (p : Proc) : Prop :=
  match p with
  | Done _ => True
  | Sec f k => (forall st, mild st (f st)) /\ forall st, behaves own (k st)
  | Save _ k => behaves own k
  | Lease _ k => forall b, behaves own (k b)
  | Observe _ _ k => forall r, behaves own (k r)
  | Claim _ e _ lost k =>
      own = None /\ (forall err, behaves None (lost err)) /\ forall r pr, behaves (Some (effect_id e)) (k r pr)
  | Call _ e k => own = Some (effect_id e) /\ forall r pr, behaves own (k r pr)
  | Release e restore confirmed k =>
      if confirmed then own = Some (effect_id e) /\ behaves None k
      else spent (Some (phase_name restore)) = true /\ behaves own k
  | Probe _ _ k => forall r, behaves own (k r)
  | Undo _ _ k => forall r, behaves own (k r)
  end.

Lemma reads_behaves own k : (forall st, behaves own (k st)) -> behaves own (reads k).
Proof. intros Hk. split; [apply mild_refl|done]. Qed.

Lemma ends_behaves {A} own (wrap : KernelResult A -> Reply) f : (forall st, mild st (f st).2) -> behaves own (ends wrap f).
Proof. by split. Qed.

Lemma aborting_behaves own id reason k : behaves own (aborting id reason k).
Proof. apply reads_behaves. intros st. destruct (load_effect st id) as [e|]; [|done]. by destruct (phase e). Qed.

Lemma settle_behaves fresh now e a epoch r pr : behaves (Some (effect_id e)) (settle_proc fresh now e a epoch r pr).
Proof.
  unfold settle_proc. destruct r as [res|err]; [apply ends_behaves; intros st; apply mild_finalize|].
  destruct pr as [[res| |]|]; try done. apply ends_behaves. intros st. apply mild_finalize.
Qed.

Lemma observed_behaves conn id e k r : behaves None k -> behaves None (observed_proc conn id e k r).
Proof.
  intros Hk. unfold observed_proc. destruct r as [obs|]; [|done].
  destruct (preconditions_hold _ _); [|apply aborting_behaves]. apply reads_behaves. intros st.
  destruct (load_observed st id) as [[prev|]|]; [|done|done].
  destruct (preconditions_hold prev _); [done|apply aborting_behaves].
Qed.

Lemma approval_behaves e k : (forall a, behaves None (k a)) -> behaves None (approval_proc e k).
Proof.
  intros Hk. unfold approval_proc. destruct (phase e); try done; [by destruct (ec_class _)|].
  apply reads_behaves. intros st'. by destruct (load_approval _ _) as [[a|]|].
Qed.

Lemma commit_behaves conns id epoch fresh now : behaves None (commit_proc conns id epoch fresh now).
Proof.
  apply reads_behaves. intros st. destruct (load_effect st id) as [e|]; [|done].
  destruct (phase e); try done; (apply approval_behaves; intros a;
    cbv zeta; destruct (negb _); [apply aborting_behaves|];
    destruct (approval_stale _ _ _); [apply aborting_behaves|]; intros [|]; cbn [negb]; [|apply aborting_behaves]; destruct (connector_for _ _) as [conn|]; [|done];
    intros r; apply observed_behaves; split_and!; [done..|]; intros; apply settle_behaves).
Qed.

Lemma recover_loop_behaves conns fresh now es i out : behaves None (recover_loop_proc conns fresh now i es out).
Proof.
  revert i out. induction es as [|e es IH]; intros i out; [done|]. cbn [recover_loop_proc]. unfold recover_one_proc.
  destruct (connector_for _ _) as [conn|]; [|apply IH]. apply reads_behaves. intros st r.
  destruct r as [[res| |]|]; try apply IH.
  - split; [intros st'; apply mild_finalize|]. intros st'. destruct (finalize_commit _ _ _ _ _ _ _) as [[r|err] st2]; apply IH.
  - split; [done|apply IH].
Qed.

Lemma resolve_behaves id fresh now outcome : behaves None (resolve_proc id fresh now outcome).
Proof.
  apply reads_behaves. intros st. destruct (load_effect st id) as [e|]; [|done]. destruct (phase e); try done.
  apply reads_behaves. intros st'. destruct (load_approval st' id) as [a|]; [|done]. destruct outcome; [|done].
  split; [|done]. intros st2. apply mild_finalize.
Qed.

Lemma proc_of_behaves c : behaves None (proc_of c).
Proof.
  destruct c; cbn [proc_of].
  - unfold propose_proc. destruct (connector_for _ _); [|done]. destruct (canonicalize _ _ _); [|done].
    apply reads_behaves. intros st. destruct (committed_receipt_for_key _ _); [done|].
    apply ends_behaves. intros st'. apply mild_insert.
  - apply reads_behaves. intros st. destruct (load_effect st id) as [e|]; [|done]. destruct (phase e); try done.
    destruct (connector_for _ _); [|done]. intros [pr|]; [|done]. split; [|done]. intros st'. by apply mild_update.
  - apply reads_behaves. intros st. destruct (approve_load st id); [|done]. split; [|done].
    intros st'. by apply mild_update.
  - apply aborting_behaves.
  - apply commit_behaves.
  - apply reads_behaves. intros st. apply recover_loop_behaves.
  - apply resolve_behaves.
  - apply reads_behaves. intros st. destruct (load_effect st id) as [e|]; [|done]. destruct (phase e); try done.
    destruct (connector_for _ _); [|done]. intros [res|]; [|done].
    split; [intros st'; apply mild_compensating|]. intros st'. by destruct (sign_and_store _ _ _ _ _) as [[r st2]|].
Qed.

(** ** The invariant *)

Definition times (id : string) (l : list string) : nat := count_occ String.string_dec l id.
Definition owners (ts : list Thread) : list string := omap th_own ts.

Lemma times_app id l l' : times id (l ++ l') = (times id l + times id l')%nat.
Proof. apply count_occ_app. Qed.

Lemma times_one id x : times id [x] = if decide (id = x) then 1%nat else 0%nat.
Proof.
  unfold times. cbn. destruct (String.string_dec x id) as [->|Hne]; [by rewrite decide_True|by rewrite decide_False].
Qed.

Lemma owners_split id ts i t :
  ts !! i = Some t ->
  times id (owners ts) = (times id (owners (take i ts)) + times id (owners [t]) + times id (owners (drop (S i) ts)))%nat.
Proof.
  intros Ht. rewrite <- (take_drop_middle ts i t Ht) at 1. unfold owners.
  change (t :: drop (S i) ts) with ([t] ++ drop (S i) ts). rewrite !omap_app, !times_app. lia.
Qed.

Lemma owners_insert id ts i t t' :
  ts !! i = Some t ->
  (times id (owners (<[i := t']> ts)) + times id (owners [t]) = times id (owners ts) + times id (owners [t']))%nat.
Proof.
  intros Ht. pose proof (lookup_lt_Some _ _ _ Ht) as Hlt.
  rewrite (owners_split id ts i t Ht), (owners_split id (<[i := t']> ts) i t') by by apply list_lookup_insert_eq.
  rewrite take_insert_ge, drop_insert_lt by lia. lia.
Qed.

Lemma owners_delete id ts i : (times id (owners (delete i ts)) <= times id (owners ts))%nat.
Proof.
  destruct (ts !! i) as [t|] eqn:Ht.
  - rewrite (owners_split id ts i t Ht), delete_take_drop. unfold owners. rewrite omap_app, times_app. lia.
  - rewrite delete_take_drop. apply lookup_ge_None in Ht. by rewrite take_ge, drop_ge, app_nil_r by lia.
Qed.

(** The calls of an effect neither refuted nor late: none, or one on a spent effect. *)
Record one_call (s : BSys) (id : string) : Prop := {
  oc_bound : (times id (bs_calls s) <= times id (bs_refuted s) + 1)%nat;
  oc_owner : (times id (owners (bs_threads s)) + times id (bs_refuted s) <= times id (bs_calls s))%nat;
  oc_spent : (times id (bs_refuted s) < times id (bs_calls s))%nat -> spent (phase_of (bs_store s) id) = true;
}.

Definition bsys_inv (s : BSys) : Prop :=
  receipts_ok (bs_store s) /\ Forall (fun t => behaves (th_own t) (th_proc t)) (bs_threads s)
  /\ forall id, id ∉ bs_late s -> one_call s id.

(** A move that claims and releases nothing. *)
Lemma one_call_quiet s i t st p late id :
  bs_threads s !! i = Some t ->
  (spent (phase_of (bs_store s) id) = true -> spent (phase_of st id) = true) -> one_call s id ->
  one_call (mkBSys st (<[i := mkThread (th_own t) p]> (bs_threads s)) (bs_calls s) (bs_refuted s) late) id.
Proof.
  intros Ht Hsp [Hb Ho Hs]. pose proof (owners_insert id _ _ _ (mkThread (th_own t) p) Ht) as Hw.
  split; cbn [bs_calls bs_refuted bs_threads bs_store]; [done| |auto].
  unfold owners in *. cbn in *. lia.
Qed.

Lemma one_call_claim s i t st conn e k id now late :
  bs_threads s !! i = Some t -> th_own t = None -> claim_commit (bs_store s) e now = (Ok tt, st) -> one_call s id ->
  one_call (mkBSys st (<[i := mkThread (Some (effect_id e)) (Call conn e k)]> (bs_threads s))
              (effect_id e :: bs_calls s) (bs_refuted s) late) id.
Proof.
  intros Ht Hown (row & Hrow & Hph & Heff & _)%claim_commit_Ok [Hb Ho Hs].
  pose proof (owners_insert id _ _ _ (mkThread (Some (effect_id e)) (Call conn e k)) Ht) as Hw.
  unfold owners in Hw. cbn [omap list_omap th_own] in Hw. rewrite Hown in Hw. cbn [omap list_omap] in Hw.
  change (effect_id e :: bs_calls s) with ([effect_id e] ++ bs_calls s).
  assert (phase_of st id = if decide (id = effect_id e) then Some "committing" else phase_of (bs_store s) id) as Hp.
  { unfold phase_of. rewrite Heff. destruct (decide (id = effect_id e)) as [->|Hne];
      [by rewrite im_get_insert_eq|by rewrite im_get_insert_ne]. }
  split; cbn [bs_calls bs_refuted bs_threads bs_store]; rewrite ?Hp, ?times_app, times_one in *; unfold owners in *;
    change (times id []) with 0%nat in *; case_decide as Hd; subst; try lia; try done; try (by auto).
  destruct (decide (times (effect_id e) (bs_refuted s) < times (effect_id e) (bs_calls s))%nat) as [Hlt|]; [|lia].
  specialize (Hs Hlt). unfold phase_of in Hs. rewrite Hrow in Hs. cbn in Hs. by destruct Hph as [Hph|Hph]; rewrite Hph in Hs.
Qed.

Lemma one_call_release s i t e restore p id late :
  bs_threads s !! i = Some t -> th_own t = Some (effect_id e) -> one_call s id ->
  one_call (mkBSys (release_claim (bs_store s) e restore) (<[i := mkThread None p]> (bs_threads s))
              (bs_calls s) (effect_id e :: bs_refuted s) late) id.
Proof.
  intros Ht Hown [Hb Ho Hs]. pose proof (owners_insert id _ _ _ (mkThread None p) Ht) as Hw.
  unfold owners in Hw. cbn [omap list_omap th_own] in Hw. rewrite Hown in Hw. cbn [omap list_omap] in Hw.
  change (effect_id e :: bs_refuted s) with ([effect_id e] ++ bs_refuted s).
  split; cbn [bs_calls bs_refuted bs_threads bs_store]; rewrite ?release_claim_phase, ?times_app, times_one in *;
    unfold owners in *; change (times id []) with 0%nat in *; case_decide as Hd; subst; try lia.
  rewrite decide_False by tauto. auto.
Qed.

Lemma claim_receipts st e now r st' : claim_commit st e now = (r, st') -> receipt_rows st' = receipt_rows st.
Proof. destruct r as [[]|err]; [by intros (? & _ & _ & _ & ? & _)%claim_commit_Ok|by intros ->%claim_commit_Err]. Qed.

Lemma receipts_ok_same st st' : receipt_rows st' = receipt_rows st -> receipts_ok st -> receipts_ok st'.
Proof. unfold receipts_ok, committed_keys. by intros ->. Qed.

Lemma behaving_insert ts i t :
  Forall (fun t => behaves (th_own t) (th_proc t)) ts -> behaves (th_own t) (th_proc t) ->
  Forall (fun t => behaves (th_own t) (th_proc t)) (<[i := t]> ts).
Proof. intros Hts Ht. by apply Forall_insert. Qed.

(** A move that claims, releases and saves nothing. *)
Lemma bsys_inv_quiet s i t st p :
  bsys_inv s -> bs_threads s !! i = Some t -> mild (bs_store s) st -> behaves (th_own t) p ->
  bsys_inv (mkBSys st (<[i := mkThread (th_own t) p]> (bs_threads s)) (bs_calls s) (bs_refuted s) (bs_late s)).
Proof.
  intros (Hr & Hts & Hone) Ht [Hsp Hr'] Hp. split_and!; [by apply Hr'|by apply behaving_insert|].
  intros id Hid. apply one_call_quiet; [done|apply Hsp|by apply Hone].
Qed.

Lemma move_inv s i a s' : bsys_inv s -> move i a s = Some s' -> bsys_inv s'.
Proof.
  intros Hinv. pose proof Hinv as (Hr & Hts & Hone). unfold move.
  destruct (bs_threads s !! i) as [t|] eqn:Ht; [|done]. cbn.
  assert (behaves (th_own t) (th_proc t)) as Hb by by apply (Forall_lookup_1 _ _ _ _ Hts Ht).
  unfold advance. destruct (th_proc t) as [r|f k|e k|l k|cn c k|cn e now lost k|cn e k|e restore confirmed k|cn c k|cn c k],
    a; try done; try (by destruct confirmed); cbn in Hb |- *; try (intros [= <-]; by apply bsys_inv_quiet).
  - intros [= <-]. destruct Hb. by apply bsys_inv_quiet.
  - intros [= <-]. split_and!.
    + eapply receipts_ok_same; [apply save_effect_receipts|done].
    + by apply behaving_insert.
    + intros id Hid. apply not_elem_of_app in Hid as [Hl Hid]. apply one_call_quiet; [done| |by apply Hone].
      rewrite save_phase. case_decide as Hd; [|done]. subst id. intros Hsp. unfold late_save in Hl. rewrite Hsp in Hl.
      destruct (phase_of (bs_store s) (effect_id e)); [|done]. change (spent ((fun _ => ?x) <$> Some _)) with (spent (Some x)).
      destruct (spent (Some (phase_name (phase e)))) ; [done|]. cbn in Hl. set_solver.
  - destruct Hb as (Hown & Hlost & Hk). destruct (claim_commit _ e now) as [[[]|err] st'] eqn:Hc.
    + intros [= <-]. split_and!.
      * eapply receipts_ok_same; [by eapply claim_receipts|done].
      * apply behaving_insert; [done|]. by split.
      * intros id Hid. by apply (one_call_claim s i t st' cn e k id now); [..|apply Hone].
    + apply claim_commit_Err in Hc as ->. intros [= <-]. rewrite Hown in *. rewrite <- Hown.
      apply bsys_inv_quiet; [done..|rewrite Hown; apply Hlost].
  - intros [= <-]. destruct Hb. by apply bsys_inv_quiet.
  - destruct confirmed; intros [= <-]; destruct Hb as [Hown Hk].
    + split_and!.
      * eapply receipts_ok_same; [apply release_claim_receipts|done].
      * by apply behaving_insert.
      * intros id Hid. by apply (one_call_release s i t e restore k id); [..|apply Hone].
    + apply bsys_inv_quiet; [done..|by apply mild_release|done].
Qed.

Lemma bstep_inv s s' : bsys_inv s -> bstep s s' -> bsys_inv s'.
Proof.
  intros Hinv Hstep. pose proof Hinv as (Hr & Hts & Hone). destruct Hstep as [s c|s i a s' Hm|s i].
  - split_and!; [done| |].
    + apply Forall_app. split; [done|]. apply Forall_singleton, proc_of_behaves.
    + intros id Hid. destruct (Hone id Hid) as [Hb Ho Hs].
      split; cbn [spawn bs_calls bs_refuted bs_threads bs_store]; [done| |done].
      unfold owners. by rewrite omap_app, times_app, Nat.add_0_r.
  - by eapply move_inv.
  - split_and!; [done| |].
    + cbn. rewrite delete_take_drop. apply Forall_app. split; [by apply Forall_take|by apply Forall_drop].
    + intros id Hid. destruct (Hone id Hid) as [Hb Ho Hs].
      split; cbn [bs_calls bs_refuted bs_threads bs_store]; [done| |done].
      pose proof (owners_delete id (bs_threads s) i). lia.
Qed.

Lemma bsys_reachable_inv s : rtc bstep bsys_init s -> bsys_inv s.
Proof.
  intros Hr. assert (bsys_inv bsys_init) as Hinv.
  { split_and!; [split; constructor|constructor|]. intros id _. by split; cbn; try lia. }
  revert Hinv Hr. generalize bsys_init. intros s0 Hinv Hr. induction Hr; eauto using bstep_inv.
Qed.
End interleaved.
End Calls.


(** * Properties *)



(** A successful commit is durable and idempotent. The receipt it returns is stored
    under its id, names the effect, its contract hash and the policy epoch; the effect is
    committed; and committing the effect again, with any connectors, lease check and
    epoch, returns the same receipt without an external call or a change of the store. *)
Theorem commit_idempotent `{!Serde, !Sha256, !TimeJson, !ReceiptSigner, !ErrorDisplay}
    conns lease_check st id epoch fresh now rc st' c :
  st_inv st ->
  commit conns lease_check st id epoch fresh now = (Ok rc, st', [c]) ->
  receipt_id rc = fresh /\ receipt st' fresh = Ok rc
  /\ rb_effect (receipt_body rc) = id /\ rb_contract_hash (receipt_body rc) = contract_hash c
  /\ rb_policy_epoch (receipt_body rc) = epoch
  /\ phase_of st' id = Some "committed"
  /\ forall conns' lease_check' epoch' fresh' now',
       commit conns' lease_check' st' id epoch' fresh' now' = (Ok rc, st', []).
Proof.
  intros Hinv. unfold commit at 1.
  destruct (commit_validate _ _ _ _ _) as [[q|v] st1] eqn:Hv; [done|].
  apply commit_validate_spec in Hv as (_ & -> & Hok); [|done].
  destruct Hok as (Hl & Hh & _). destruct (load_effect_phase _ _ _ (proj1 Hinv) Hl) as (Hi & _).
  destruct (claim_commit st (v_effect v) now) as [[[]|err] st2] eqn:Hc; [|done].
  destruct (commit_settle _ _ _ _ _ _) as [q st3] eqn:Hs. intros [= -> <- <-].
  destruct (claim_commit_inv _ _ _ _ Hinv Hc) as (Hinv2 & _ & Hph).
  assert (exists a res, finalize_commit st2 fresh now (v_effect v) a epoch res = (Ok rc, st3))
    as (a & res & Hf).
  { unfold commit_settle, resolve_failed_commit in Hs.
    destruct (c_commit _ _); [eauto|]. destruct (probe_commit _ _) as [[| |]|]; simplify_eq. eauto. }
  pose proof (finalize_commit_phase _ _ _ _ _ _ _ _ _ id Hinv2 Hf) as Hp3.
  rewrite Hi, decide_True, Hph, decide_True in Hp3 by congruence.
  apply (finalize_commit_spec _ _ _ _ _ _ _ _ _ Hinv2) in Hf
    as (_ & Hid & He & Hch & Hep & _ & _ & Hrec & Heff & _).
  rewrite Hi in He, Heff. split_and!; try done; [congruence|].
  intros conns' lc' epoch' fresh' now'. unfold commit, commit_validate.
  specialize (Heff id). rewrite decide_True in Heff by done.
  apply claim_commit_Ok in Hc as (row & _ & _ & Heff2 & _).
  rewrite Heff2, Hi, im_get_insert_eq in Heff. cbn in Heff.
  unfold load_effect. rewrite Heff. cbn. by rewrite Hrec.
Qed.

(** Crash recovery resolves an in-doubt effect by the connector's probe alone, and
    never calls the external system again: confirmed executed, the effect gets a receipt
    and is committed (unless its key already has one); confirmed not executed, it is
    aborted and its claim on the key released; otherwise nothing changes. *)
Theorem recovery_follows_probe `{!Serde, !Sha256, !TimeJson, !ReceiptSigner, !ErrorDisplay}
    conns st fresh now id e conn t :
  st_inv st -> load_effect st id = Ok e -> phase e = Committing t ->
  connector_for conns (ec_operation (contract e)) = Ok conn ->
  let '(res, st') := recover_one conns st fresh now e in
  match probe_commit conn (contract e) with
  | Ok (ProbeCommitted _) =>
      (res = IDCommitted fresh /\ phase_of st' id = Some "committed"
       /\ is_ok (receipt st' fresh) = true)
      \/ (res = StillInDoubt /\ st' = st)
  | Ok ProbeNotCommitted =>
      res = IDAborted /\ phase_of st' id = Some "aborted"
      /\ commit_claims st' !! idempotency_key (contract e) <> Some id
      /\ receipt_rows st' = receipt_rows st
  | _ => res = StillInDoubt /\ st' = st
  end.
Proof.
  intros Hinv Hl Hp Hconn. destruct (load_effect_phase _ _ _ (proj1 Hinv) Hl) as (Hi & Hph & _).
  rewrite Hp in Hph. unfold recover_one. rewrite Hconn.
  destruct (probe_commit conn (contract e)) as [[result| |]|err]; [| |done..].
  - destruct (finalize_commit _ _ _ _ _ _ _) as [[rc|err] st'] eqn:Hf.
    + left. pose proof (finalize_commit_phase _ _ _ _ _ _ _ _ _ id Hinv Hf) as Hp'.
      apply (finalize_commit_spec _ _ _ _ _ _ _ _ _ Hinv) in Hf
        as (_ & -> & _ & _ & _ & _ & _ & Hrec & _).
      rewrite Hi, decide_True, Hph in Hp' by done. by rewrite Hrec.
    + right. by apply (finalize_commit_spec _ _ _ _ _ _ _ _ _ Hinv) in Hf.
  - match goal with |- context [release_claim st e ?p] =>
      destruct (release_claim_spec st e p Hinv) as [_ Hph'] end.
    split; [done|]. split; [rewrite Hph', decide_True; [done|by rewrite Hi]|].
    unfold release_claim. split.
    + case_bool_decide as Hd; cbn; [by rewrite lookup_delete_eq|]. by rewrite <- Hi.
    + by repeat case_match.
Qed.

(** * Witnesses and counterexamples *)

Module BrokerDemo.
#[local] Existing Instance BitSerde.serde.
#[local] Existing Instance BitSerde.sha256.
#[local] Instance time_json : TimeJson := {| time_to_json t := pretty t |}.
#[local] Instance signer : ReceiptSigner := {| sign m := ("sig", "key-1") |}.
#[local] Instance display : ErrorDisplay := {| error_display e := error_code e |}.

Definition head_obs : Value := Object [("base_head_sha", Str "abc123")].
Definition github (answer : KernelResult CommitResult) (probe : CommitProbe) : Connector :=
  mkConnector (fun _ a => Ok a) (fun _ => Ok (mkPrepared Null head_obs)) (fun _ => answer)
    (fun _ => Ok probe) (fun _ => answer).
Definition conns : gmap string Connector :=
  {[ "github" := github (Ok (mkCommitResult (Str "pr #1"))) ProbeUnknown ]}.

Definition c : EffectContract := EffectDemo.pr_contract.

Definition proposed (id : string) (st : Store) : Store :=
  (propose conns st id 1 c "pr-agent" "br-1" "sp-1" "lease-1").2.
Definition prepared (id : string) (st : Store) : Store := (prepare conns st id).2.
Definition ready : Store := prepared "ef-1" (proposed "ef-1" store_empty).

Definition validated : Validated :=
  match commit_validate conns (fun _ => true) ready "ef-1" 7 with
  | (VOk v, _) => v
  | _ => mkValidated (effect_new "ef-1" c EmptyString EmptyString EmptyString EmptyString 0) None
           (github (Err (EOther EmptyString)) ProbeUnknown)
  end.

Definition claimed : Store := (claim_commit ready (v_effect validated) 5).2.

Lemma ready_inv : st_inv ready.
Proof.
  assert (st_inv store_empty) as H0 by (split; [by intros id row|split; constructor]).
  assert (st_inv (proposed "ef-1" store_empty)) as H1.
  { eapply (propose_good conns store_empty "ef-1" 1 c "pr-agent" "br-1" "sp-1" "lease-1"); [done|].
    apply surjective_pairing. }
  eapply (prepare_good conns (proposed "ef-1" store_empty) "ef-1"); [done|].
  apply surjective_pairing.
Qed.

(** Playing out a schedule: calls that arrive, and moves with their answers. *)
Inductive Event := Arrive (c : Calls.BrokerCall) | Play (i : nat) (a : Calls.Answer).

Fixpoint play (l : list Event) (s : Calls.BSys) : option Calls.BSys :=
  match l with
  | [] => Some s
  | Arrive c :: l => play l (Calls.spawn c s)
  | Play i a :: l => s' ← Calls.move i a s; play l s'
  end.

Lemma play_bsteps l s s' : play l s = Some s' -> rtc Calls.bstep s s'.
Proof.
  revert s. induction l as [|[c|i a] l IH]; intros s; cbn; [by intros [= ->]| |].
  - intros Hp. eapply rtc_l; [apply Calls.b_spawn|by apply IH].
  - destruct (Calls.move i a s) as [s1|] eqn:Hm; [|done]. intros Hp.
    eapply rtc_l; [by apply (Calls.b_move _ i a)|by apply IH].
Qed.

Definition observed : KernelResult PreparedEffect := Ok (mkPrepared Null head_obs).
Definition timeout : KernelResult CommitResult := Err (EOther "timeout").

(** The effect is proposed and prepared; then calls 2 and 3 commit it at the same time. *)
Definition racing : list Event :=
  [Arrive (Calls.BPropose conns "ef-1" 1 c "pr-agent" "br-1" "sp-1" "lease-1"); Play 0 Calls.Go; Play 0 Calls.Go;
   Arrive (Calls.BPrepare conns "ef-1"); Play 1 Calls.Go; Play 1 (Calls.AObserve observed); Play 1 Calls.Go; Play 1 Calls.Go;
   Arrive (Calls.BCommit conns "ef-1" 7 "rc-1" 5); Arrive (Calls.BCommit conns "ef-1" 7 "rc-2" 5);
   Play 2 Calls.Go; Play 3 Calls.Go; Play 2 (Calls.ALease true); Play 3 (Calls.ALease true);
   Play 2 (Calls.AObserve observed); Play 3 (Calls.AObserve observed); Play 2 Calls.Go; Play 3 Calls.Go;
   Play 3 Calls.Go; Play 2 Calls.Go].

(** The winner's call times out, and its probe finds that nothing was executed; a third
    commit claims the effect. *)
Definition retried : list Event :=
  racing ++ [Play 3 (Calls.ACall timeout (Ok ProbeNotCommitted)); Play 3 Calls.Go;
             Arrive (Calls.BCommit conns "ef-1" 7 "rc-3" 8); Play 4 Calls.Go; Play 4 (Calls.ALease true);
             Play 4 (Calls.AObserve observed); Play 4 Calls.Go; Play 4 Calls.Go].

Definition ended (l : list Event) : Calls.BSys := default Calls.bsys_init (play l Calls.bsys_init).

Lemma ended_reaches l : bool_decide (is_Some (play l Calls.bsys_init)) = true -> rtc Calls.bstep Calls.bsys_init (ended l).
Proof. intros [s Hs]%bool_decide_eq_true. unfold ended. rewrite Hs. by eapply play_bsteps. Qed.


Definition demo_commit := commit conns (fun _ => true) ready "ef-1" 7 "rc-1" 5.


Lemma commit_idempotent_witness :
  exists rc st', commit conns (fun _ => true) ready "ef-1" 7 "rc-1" 5 = (Ok rc, st', [c])
    /\ commit conns (fun _ => false) st' "ef-1" 8 "rc-2" 6 = (Ok rc, st', []).
Proof.
  eexists _, _. split; [vm_compute; reflexivity|].
  eapply (commit_idempotent conns (fun _ => true) ready "ef-1" 7 "rc-1" 5 _ _ c ready_inv).
  vm_compute. reflexivity.
Defined.

Lemma claimed_inv : st_inv claimed.
Proof.
  apply (claim_commit_inv ready (v_effect validated) 5 claimed ready_inv).
  vm_compute. reflexivity.
Qed.

Definition in_doubt : PendingEffect := set_phase (v_effect validated) (Committing 5).

Lemma recovery_follows_probe_witness :
  let '(res, st') := recover_one conns claimed "rc-1" 9 in_doubt in
  res = StillInDoubt /\ st' = claimed.
Proof.
  apply (recovery_follows_probe conns claimed "rc-1" 9 "ef-1" in_doubt
           (github (Ok (mkCommitResult (Str "pr #1"))) ProbeUnknown) 5 claimed_inv);
    vm_compute; reflexivity.
Defined.

(** One idempotency key can execute twice. Two effects proposed with the same key
    before either commits can both be committed one after the other: the second commit
    passes every check, since the first released the claim, and calls the external
    system a second time; only then the receipt insertion fails, and the effect stays
    in doubt. *)
Theorem shared_key_executes_twice :
  let st0 := prepared "ef-2" (prepared "ef-1" (proposed "ef-2" (proposed "ef-1" store_empty))) in
  let '(r1, st1, calls1) := commit conns (fun _ => true) st0 "ef-1" 7 "rc-1" 5 in
  let '(r2, st2, calls2) := commit conns (fun _ => true) st1 "ef-2" 7 "rc-2" 6 in
  is_ok r1 = true /\ calls1 = [c]
  /\ calls2 = [c] /\ is_ok r2 = false /\ phase_of st2 "ef-2" = Some "committing".
Proof. vm_compute. repeat split. Qed.

(** A late save makes one effect execute twice: an approval (call 4) reads the prepared
    effect; a commit (call 5) claims it and calls out; the approval then overwrites the
    committing phase with its copy, and the next commit, which owns the claim already, calls
    the external system again. *)
Definition late_approval : list Event :=
  take 8 racing
  ++ [Arrive (Calls.BApprove "ef-1" "pr-human" 7 6); Play 2 Calls.Go; Arrive (Calls.BCommit conns "ef-1" 7 "rc-1" 5);
      Play 3 Calls.Go; Play 3 (Calls.ALease true); Play 3 (Calls.AObserve observed); Play 3 Calls.Go; Play 3 Calls.Go;
      Play 2 Calls.Go; Play 2 Calls.Go; Arrive (Calls.BCommit conns "ef-1" 7 "rc-2" 8); Play 4 Calls.Go; Play 4 Calls.Go;
      Play 4 (Calls.ALease true); Play 4 (Calls.AObserve observed); Play 4 Calls.Go; Play 4 Calls.Go].

Theorem approve_race_calls_twice :
  exists s, rtc Calls.bstep Calls.bsys_init s /\ Calls.bs_calls s = ["ef-1"; "ef-1"] /\ Calls.bs_refuted s = []
    /\ Calls.bs_late s = ["ef-1"].
Proof.
  exists (ended late_approval). split; [apply ended_reaches; vm_compute; reflexivity|].
  split; [|split]; vm_compute; reflexivity.
Qed.
End BrokerDemo.
