(* ===== verification/BrokerRecord.v ===== *)
(** What the broker never changes: once proposed, an effect stays on record
    with its contract, proposer, branch, step and lease; only its phase moves. *)

From S2P Require Import Prelude Json Budget Capability Types Canonical Effect Broker.

Open Scope Z_scope.

(** Every effect on record is still there, in some phase. *)
Definition refiled (st st' : Store) : Prop :=
  forall id e, load_effect st id = Ok e -> exists p, load_effect st' id = Ok (set_phase e p).

Section record.
Context `{!Serde, !Sha256, !TimeJson, !ReceiptSigner, !ErrorDisplay}.

Lemma set_phase_same e : set_phase e (phase e) = e.
Proof. by destruct e. Qed.

Lemma refiled_same st st' : effects st' = effects st -> refiled st st'.
Proof. intros Heq id e Hl. exists (phase e). unfold load_effect. by rewrite Heq, set_phase_same. Qed.

Lemma refiled_trans st1 st2 st3 : refiled st1 st2 -> refiled st2 st3 -> refiled st1 st3.
Proof. intros Ha Hb id e Hl. destruct (Ha _ _ Hl) as [p Hp]. destruct (Hb _ _ Hp) as [q Hq]. by exists q. Qed.

Lemma refiled_at st st' id row row' p :
  im_get id (effects st) = Some row ->
  (forall id', im_get id' (effects st') = if decide (id' = id) then Some row' else im_get id' (effects st)) ->
  er_json row' = set_phase (er_json row) p -> refiled st st'.
Proof.
  intros Hrow Hget Hj id' e (r & Hr & <-)%load_effect_Ok. destruct (decide (id' = id)) as [->|Hne].
  - exists p. apply load_effect_Ok. exists row'. rewrite Hget, decide_True by done. split; [done|]. by simplify_eq.
  - exists (phase (er_json r)). apply load_effect_Ok. exists r. rewrite Hget, decide_False, set_phase_same by done. done.
Qed.

Lemma refiled_update st id f :
  (forall row, im_get id (effects st) = Some row -> exists p, er_json (f row) = set_phase (er_json row) p) ->
  refiled st (update_row st id f).
Proof.
  intros Hf. destruct (im_get id (effects st)) as [row|] eqn:Hrow.
  - destruct (Hf row eq_refl) as [p Hp]. eapply refiled_at; [exact Hrow| |exact Hp].
    intros id'. rewrite update_row_get. case_decide; [by rewrite Hrow|done].
  - apply refiled_same. unfold update_row. by rewrite Hrow.
Qed.

Lemma refiled_save st id e p :
  store_ok st -> load_effect st id = Ok e -> refiled st (save_effect st (set_phase e p)).
Proof.
  intros Hok Hl. pose proof (load_effect_phase _ _ _ Hok Hl) as (Hid & _).
  apply load_effect_Ok in Hl as (row & Hrow & <-). apply refiled_update. intros row' Hrow'. cbn in *.
  rewrite Hid, Hrow in Hrow'. simplify_eq. by exists p.
Qed.

(** ** The operations *)

Lemma propose_refiled conns st fresh t c who br sp ls : refiled st (propose conns st fresh t c who br sp ls).2.
Proof.
  unfold propose. destruct (connector_for _ _); [|by apply refiled_same]. destruct (canonicalize _ _ _); [|by apply refiled_same].
  cbv zeta. destruct (committed_receipt_for_key _ _); [by apply refiled_same|].
  destruct (im_get fresh (effects st)) eqn:Ef; [by apply refiled_same|].
  intros id e (row & Hrow & <-)%load_effect_Ok. exists (phase (er_json row)). apply load_effect_Ok. exists row.
  cbn. rewrite im_get_snoc_fresh, set_phase_same by done. case_decide; [congruence|done].
Qed.

Lemma prepare_refiled conns st id : store_ok st -> refiled st (prepare conns st id).2.
Proof.
  intros Hok. unfold prepare. destruct (load_effect st id) as [e|] eqn:El; [|by apply refiled_same].
  destruct (phase e); try by apply refiled_same. destruct (connector_for _ _); [|by apply refiled_same].
  destruct (c_prepare _ _) as [p|]; [|by apply refiled_same]. cbv zeta.
  eapply refiled_trans; [by eapply refiled_save|]. apply refiled_update. intros row _.
  exists (phase (er_json row)). by rewrite set_phase_same.
Qed.

Lemma approve_refiled st id who epoch t : store_ok st -> refiled st (approve st id who epoch t).2.
Proof.
  intros Hok. unfold approve. destruct (approve_load st id) as [e|] eqn:El; [|by apply refiled_same].
  apply bind_Ok in El as (e' & Hl & Hp). destruct (phase e'); try done. simplify_eq.
  unfold approve_save. cbv zeta. set (a := mkApproval _ _ _ _).
  eapply (refiled_trans _ (set_approval st (effect_id e) a)).
  - apply refiled_update. intros row _. exists (phase (er_json row)). by rewrite set_phase_same.
  - eapply refiled_save; [by apply set_approval_ok|]. rewrite set_approval_load. exact Hl.
Qed.

Lemma abort_refiled st id reason : store_ok st -> refiled st (abort st id reason).2.
Proof.
  intros Hok. unfold abort. destruct (load_effect st id) as [e|] eqn:El; [|by apply refiled_same].
  destruct (phase e); try (by apply refiled_same); by eapply refiled_save.
Qed.

Lemma stale_done_refiled st id reason : store_ok st -> refiled st (stale_done st id reason).2.
Proof.
  intros Hok. pose proof (abort_refiled st id reason Hok) as Ha. unfold stale_done, stale.
  by destruct (abort st id reason) as [[]].
Qed.

Lemma commit_validate_refiled conns lc st id epoch : store_ok st -> refiled st (commit_validate conns lc st id epoch).2.
Proof.
  intros Hok. unfold commit_validate. destruct (load_effect st id) as [e|]; [|by apply refiled_same].
  destruct (phase e); try (by apply refiled_same);
    (destruct (commit_approval st e); [|by apply refiled_same]; cbv zeta);
    repeat match goal with
    | |- refiled _ (stale_done _ _ _).2 => by apply stale_done_refiled
    | |- refiled _ (_, _).2 => by apply refiled_same
    | |- refiled _ (match ?x with _ => _ end).2 => destruct x
    end.
Qed.

Lemma claim_commit_refiled st e t : refiled st (claim_commit st e t).2.
Proof.
  unfold claim_commit. cbv zeta. destruct (_ !! idempotency_key (contract e)); [|by apply refiled_same].
  destruct (negb _); [by apply refiled_same|]. destruct (im_get (effect_id e) (effects st)) as [row|] eqn:Hrow; [|by apply refiled_same].
  destruct (_ || _); [|by apply refiled_same].
  eapply (refiled_at _ _ _ row (row_set_phase (Committing t) row) (Committing t)); [exact Hrow| |done].
  intros id'. cbn. case_decide as Hd; [subst; apply im_get_insert_eq|by apply im_get_insert_ne].
Qed.

Lemma finalize_refiled st fresh t e a epoch r : refiled st (finalize_commit st fresh t e a epoch r).2.
Proof.
  unfold finalize_commit. cbv zeta. destruct (insert_receipt _ _) as [st1|] eqn:Hi; [|by apply refiled_same].
  apply insert_receipt_Ok in Hi as (-> & _). eapply refiled_trans; [|by apply refiled_same].
  eapply refiled_trans; [|apply refiled_update; intros row _; by eexists]. by apply refiled_same.
Qed.

Lemma release_refiled st e restore : refiled st (release_claim st e restore).
Proof.
  unfold release_claim. cbv zeta.
  assert (refiled st match im_get (effect_id e) (effects st) with
    | Some row => if bool_decide (er_phase row = "committing")
        then with_effects st (im_insert (effect_id e) (row_set_phase restore row) (effects st)) else st
    | None => st end) as Hr.
  { destruct (im_get (effect_id e) (effects st)) as [row|] eqn:Hrow; [|by apply refiled_same].
    case_bool_decide; [|by apply refiled_same].
    eapply (refiled_at _ _ _ row (row_set_phase restore row) restore); [exact Hrow| |done].
    intros id'. cbn. case_decide as Hd; [subst; apply im_get_insert_eq|by apply im_get_insert_ne]. }
  case_bool_decide; [|done]. eapply refiled_trans; [exact Hr|]. by apply refiled_same.
Qed.

Lemma commit_refiled conns lc st id epoch fresh t : store_ok st -> refiled st (commit conns lc st id epoch fresh t).1.2.
Proof.
  intros Hok. unfold commit. pose proof (commit_validate_refiled conns lc st id epoch Hok) as Hv.
  destruct (commit_validate _ _ _ _ _) as [[r|v] st1]; [done|].
  pose proof (claim_commit_refiled st1 (v_effect v) t) as Hc.
  destruct (claim_commit _ _ _) as [[u|err] st2]; [|by eapply refiled_trans]. cbv zeta. cbn [fst].
  eapply refiled_trans; [exact Hv|]. eapply refiled_trans; [exact Hc|]. unfold commit_settle.
  destruct (c_commit _ _); [apply finalize_refiled|]. unfold resolve_failed_commit. cbv zeta.
  destruct (probe_commit _ _) as [[res| |]|]; [apply finalize_refiled|apply release_refiled|by apply refiled_same..].
Qed.

Lemma recover_one_refiled conns st fresh t e : refiled st (recover_one conns st fresh t e).2.
Proof.
  unfold recover_one. destruct (connector_for _ _); [|by apply refiled_same]. cbv zeta.
  destruct (probe_commit _ _) as [[res| |]|]; [|apply release_refiled|by apply refiled_same..].
  match goal with |- context [finalize_commit ?st ?f ?n ?e ?a ?ep ?r] =>
    pose proof (finalize_refiled st f n e a ep r) as Hf; by destruct (finalize_commit st f n e a ep r) as [[]] end.
Qed.

Lemma recover_refiled conns st fresh t : refiled st (recover_in_doubt conns st fresh t).2.
Proof.
  unfold recover_in_doubt. generalize 0%nat, (in_doubt_effects st). intros i es. revert i st.
  induction es as [|e es IH]; intros i st; [by apply refiled_same|]. cbn.
  pose proof (recover_one_refiled conns st (fresh i) t e) as Hr.
  destruct (recover_one _ _ _ _ _) as [r st1]. specialize (IH (S i) st1).
  destruct (recover_loop _ _ _ _ _ _) as [out st2]. by eapply refiled_trans.
Qed.

Lemma resolve_refiled st id fresh t outcome : refiled st (resolve_in_doubt st id fresh t outcome).2.
Proof.
  unfold resolve_in_doubt. destruct (load_effect _ _) as [e|]; [|by apply refiled_same].
  destruct (phase e); try (by apply refiled_same). destruct (load_approval _ _) as [a|]; [|by apply refiled_same].
  destruct outcome; [|apply release_refiled].
  match goal with |- context [finalize_commit ?st ?f ?n ?e ?a ?ep ?r] =>
    pose proof (finalize_refiled st f n e a ep r) as Hf; by destruct (finalize_commit st f n e a ep r) as [[]] end.
Qed.

Lemma compensate_refiled conns st id fresh t : store_ok st -> refiled st (compensate conns st id fresh t).2.
Proof.
  intros Hok. unfold compensate. destruct (load_effect st id) as [e|] eqn:El; [|by apply refiled_same].
  destruct (phase e); try (by apply refiled_same). destruct (connector_for _ _); [|by apply refiled_same].
  destruct (c_compensate _ _); [|by apply refiled_same]. cbv zeta. unfold sign_and_store.
  destruct (insert_receipt _ _) as [st1|] eqn:Hi; [|by apply refiled_same]. cbn [mbind result_bind].
  apply insert_receipt_Ok in Hi as (-> & _). cbn [snd].
  eapply refiled_trans; [|eapply refiled_save; [|exact El]]; [by apply refiled_same|exact Hok].
Qed.
End record.
