(* ===== verification/BrokerOpen.v ===== *)
(** Opening the effect store, [kernel/effect_broker/src/broker.rs]: the schema, the
    migration of stores without a [phase] column, and the index that allows one
    committed receipt per idempotency key. *)

From S2P Require Import Prelude Json Budget Capability Types Canonical Effect Broker.

Open Scope Z_scope.

(** The tables of the file.  Without the column, what rows say about their phase means
    nothing. *)
Record EffectFile := mkEffectFile { has_phase : bool; file_store : Store }.

(** [json_extract(json, '$.phase.phase')]: the tag of the phase. *)
Definition json_phase (e : PendingEffect) : option string := Some (phase_name (phase e)).

Definition backfill (row : EffectRow) : EffectRow :=
  mkEffectRow (er_key row) (default "proposed" (json_phase (er_json row))) (er_json row) (er_observed row) (er_approval row).

Definition migrate (f : EffectFile) : EffectFile :=
  if has_phase f then f
  else mkEffectFile true (with_effects (file_store f) (map (fun ir => (ir.1, backfill ir.2)) (effects (file_store f)))).

Definition integrity_violation (reason : string) : KernelError :=
  Storage ("effect store integrity violation: cannot enforce one committed receipt per idempotency key (" +:+ reason
           +:+ "). The store contains duplicate committed receipts from a pre-0.7 kernel; reconcile them manually before reopening.").

(** [with_connection]: creating the unique index fails on duplicates. *)
Definition with_connection (f : EffectFile) : KernelResult Store :=
  let st := file_store (migrate f) in
  if decide (NoDup (committed_keys st)) then Ok st
  else Err (integrity_violation "UNIQUE constraint failed: receipts.idempotency_key").

Section open.
Context `{!Serde, !Sha256, !TimeJson}.

(** What an earlier kernel kept of a row, its phase column apart. *)
Definition row_kept (f : EffectFile) (id : string) (row : EffectRow) : Prop :=
  effect_id (er_json row) = id
  /\ er_key row = idempotency_key (contract (er_json row))
  /\ effect_contract_hash (er_json row) = contract_hash (contract (er_json row))
  /\ (has_phase f = true -> er_phase row = phase_name (phase (er_json row))).

Definition file_kept (f : EffectFile) : Prop :=
  (forall id row, im_get id (effects (file_store f)) = Some row -> row_kept f id row)
  /\ NoDup (map rr_id (receipt_rows (file_store f))).

Lemma im_get_map {V W} (g : V -> W) k (m : list (string * V)) : im_get k (map (fun kv => (kv.1, g kv.2)) m) = g <$> im_get k m.
Proof. induction m as [|[q v] m IH]; cbn; [done|]. by destruct (decide (k = q)). Qed.

Lemma migrate_kept f : file_kept f -> file_kept (migrate f) /\ has_phase (migrate f) = true.
Proof.
  unfold migrate. destruct (has_phase f) eqn:Hf; [done|]. intros [Hr Hid]. split; [|done]. split; [|done].
  cbn. intros id row. rewrite im_get_map. destruct (im_get id (effects (file_store f))) as [row0|] eqn:E; [|done].
  intros [= <-]. destruct (Hr _ _ E) as (? & ? & ? & _). by repeat split.
Qed.

(** Opening a store of this or an earlier version gives a well-formed store or fails; it fails
    exactly when a key has two committed receipts, and opening what was opened changes
    nothing. *)
Theorem open_wf f :
  file_kept f ->
  match with_connection f with
  | Ok st => st_inv st /\ receipt_rows st = receipt_rows (file_store f) /\ with_connection (mkEffectFile true st) = Ok st
  | Err e => e = integrity_violation "UNIQUE constraint failed: receipts.idempotency_key"
             /\ ~ NoDup (committed_keys (file_store f))
  end.
Proof.
  intros Hk. destruct (migrate_kept f Hk) as [[Hr Hid] Hp].
  assert (receipt_rows (file_store (migrate f)) = receipt_rows (file_store f)) as Hrr by (unfold migrate; by destruct (has_phase f)).
  unfold with_connection at 1. destruct (decide (NoDup (committed_keys (file_store (migrate f))))) as [Hn|Hn]; cbv zeta.
  - split; [|split; [done|]].
    + split; [|by split]. intros id row Hrow. destruct (Hr _ _ Hrow) as (? & ? & ? & Hph). by repeat split; auto.
    + unfold with_connection, migrate. cbn [has_phase file_store]. by rewrite decide_True.
  - split; [done|]. unfold committed_keys in *. by rewrite Hrr in Hn.
Qed.
End open.
