(* ===== verification/Snapshot.v ===== *)
(** Content-addressed storage and workspace snapshots:
    [kernel/state_dag/src/cas.rs] and [snapshot.rs].

    The CAS directory is a [gmap] from blob paths ([ab/ab34...]) to bytes; I/O
    failures and temporary files are not modelled.  A workspace is a [gmap] from
    paths (lists of components) to files and symbolic links; directories are
    the prefixes of its paths, so [read_dir] order plays no role and an empty
    directory does not show.  Components are the bytes of file names; a manifest
    path has them converted by [to_string_lossy].  A link points at a name outside
    the workspace, and [fs::write] follows it.  Parsing a stored manifest is serde's:
    [manifest_of_slice]. *)

From S2P Require Import Prelude Json Budget Capability Types Canonical Effect B64 Utf8.

Open Scope Z_scope.

(** * The content-addressed store *)

Abbreviation Cas := (gmap string string) (only parsing).

Definition is_ascii_hexdigit (c : ascii) : bool :=
  let n := Ascii.N_of_ascii c in
  ((48 <=? n) && (n <=? 57) || (65 <=? n) && (n <=? 70) || (97 <=? n) && (n <=? 102))%N.

Fixpoint str_all (f : ascii -> bool) (s : string) : bool :=
  match s with EmptyString => true | String c s' => f c && str_all f s' end.

Fixpoint str_take (n : nat) (s : string) : string :=
  match n, s with
  | S n', String c s' => String c (str_take n' s')
  | _, _ => EmptyString
  end.

Definition is_hex_digest (h : string) : bool :=
  bool_decide (String.length h = 64%nat) && str_all is_ascii_hexdigit h.

Definition hex_of (hash : string) : KernelResult string :=
  match strip_prefix "sha256:" hash with
  | Some h =>
      if is_hex_digest h then Ok h
      else Err (Storage ("malformed content hash `" +:+ hash +:+ "`"))
  | None => Err (Storage ("malformed content hash `" +:+ hash +:+ "`"))
  end.

Definition blob_path (hash : string) : KernelResult string :=
  hex ← hex_of hash; Ok (str_take 2 hex +:+ "/" +:+ hex).

(** The file name of a blob path, after its shard directory. *)
Definition blob_name (path : string) : string := default EmptyString (last (str_split "/"%char path)).

(** * Manifests *)

Record ManifestEntry := mkEntry {
  entry_blob : string;
  entry_mode : Z;          (* u32 *)
}.

#[export] Instance ManifestEntry_eq_dec : EqDecision ManifestEntry.
Proof. solve_decision. Defined.

Abbreviation Manifest := (gmap string ManifestEntry) (only parsing).

Definition entry_to_value (e : ManifestEntry) : Value :=
  Object [("blob", Str (entry_blob e)); ("mode", Number (PosInt (entry_mode e)))].

Definition manifest_to_value (m : Manifest) : Value :=
  Object (map (fun pe => (pe.1, entry_to_value pe.2)) (bt_iter m)).

Class ManifestSerde := { manifest_of_slice : string -> result string (gmap string ManifestEntry) }.

Section cas.
Context `{!Serde, !Sha256}.

Definition put (cas : Cas) (bytes : string) : KernelResult (string * Cas) :=
  let hash := hash_bytes bytes in
  path ← blob_path hash;
  Ok (hash, match cas !! path with Some _ => cas | None => <[path := bytes]> cas end).

Definition cas_get (cas : Cas) (hash : string) : KernelResult string :=
  path ← blob_path hash;
  bytes ← ok_or (cas !! path) (NotFound "blob" hash);
  let actual := hash_bytes bytes in
  if negb (bool_decide (actual = hash)) then
    Err (Storage ("corrupt CAS blob: expected " +:+ hash +:+ ", content hashes to " +:+ actual))
  else Ok bytes.

Definition contains (cas : Cas) (hash : string) : KernelResult bool :=
  path ← blob_path hash; Ok (bool_decide (is_Some (cas !! path))).

Definition remove (cas : Cas) (hash : string) : KernelResult Cas :=
  path ← blob_path hash; Ok (delete path cas).

Definition cas_list (cas : Cas) : list string :=
  map (fun n => "sha256:" +:+ n)
    (List.filter is_hex_digest (map blob_name (bt_keys cas))).

Definition manifest_store (cas : Cas) (m : Manifest) : KernelResult (string * Cas) :=
  put cas (canonical_json (manifest_to_value m)).

Definition manifest_load `{!ManifestSerde} (cas : Cas) (root : string) : KernelResult Manifest :=
  bytes ← cas_get cas root; map_err ESerde (manifest_of_slice bytes).
End cas.

(** * Deltas between manifests *)

Definition added_or_modified (old : Manifest) (path : string) (e : ManifestEntry)
    : option FileChange :=
  match old !! path with
  | None => Some (FAdded path (entry_blob e) (entry_mode e))
  | Some o =>
      if negb (bool_decide (o = e)) then Some (FModified path (entry_blob o) (entry_blob e))
      else None
  end.

Definition diff_manifests (old new : Manifest) : list FileChange :=
  omap (fun pe => added_or_modified old pe.1 pe.2) (bt_iter new)
  ++ omap (fun po => match new !! po.1 with
                     | Some _ => None
                     | None => Some (FDeleted po.1 (entry_blob po.2))
                     end) (bt_iter old).

(** * Workspaces *)

Abbreviation path := (list string) (only parsing).

Inductive FNode : Type :=
| FFile (bytes : string) (mode : Z) (mtime : Z)
| FLink (target : string).

Record Fs := mkFs {
  ws : gmap (list string) FNode;
  outside : gmap string (string * Z);   (* bytes and mtime *)
}.

(** The manifest path: every component through [to_string_lossy]. *)
Definition rel_of (p : path) : string := str_join "/" (map from_utf8_lossy p).

Definition ignored (p : path) : bool := existsb is_ignored_component (map from_utf8_lossy p).

#[global] Arguments rel_of _ : simpl never.
#[global] Arguments ignored _ : simpl never.
#[global] Arguments hash_bytes {_} _ : simpl never.

Definition file_mode (mode : Z) : Z := Z.land mode 4095.

(** Nanoseconds; a [Duration] of two seconds. *)
Definition RACY_WINDOW : Z := 2000000000.

Record StatEntry := mkStat {
  st_mtime : Z;
  st_len : Z;
  st_blob : string;
}.

Record StatCache := mkCache {
  cache_entries : gmap string StatEntry;
  recorded_at : option Z;
}.

Definition cache_default : StatCache := mkCache ∅ None.

Definition trusted (self : StatCache) (e : StatEntry) (mtime len : Z) : bool :=
  match recorded_at self with
  | None => false
  | Some at_ =>
      (st_len e =? len) && (st_mtime e =? mtime)
      && ((mtime <=? at_) && (RACY_WINDOW <=? at_ - mtime))
  end.

Section snapshot.
Context `{!Serde, !Sha256, !ManifestSerde}.

Definition len_of (bytes : string) : Z := Z.of_nat (String.length bytes).

(** The state the walk threads: the store, the manifest, the next cache and
    the number of reused entries. *)
Record WalkState := mkWalk {
  wk_cas : Cas;
  wk_manifest : Manifest;
  wk_next : gmap string StatEntry;
  wk_reused : nat;
}.

(** One file the walk reaches. *)
Definition walk_file (cache : StatCache) (s : WalkState) (p : path) (bytes : string)
    (mode mtime : Z) : KernelResult WalkState :=
  let rel := rel_of p in
  let len := len_of bytes in
  let reuse :=
    match cache_entries cache !! rel with
    | Some e => if trusted cache e mtime len then Some (st_blob e) else None
    | None => None
    end in
  r ← match reuse with
      | Some b => Ok (b, wk_cas s, S (wk_reused s))
      | None => bc ← put (wk_cas s) bytes; Ok (bc.1, bc.2, wk_reused s)
      end;
  let '(blob, cas, reused) := r in
  Ok (mkWalk cas (<[rel := mkEntry blob (file_mode mode)]> (wk_manifest s))
        (<[rel := mkStat mtime len blob]> (wk_next s)) reused).

Fixpoint walk (cache : StatCache) (s : WalkState) (entries : list (list string * FNode))
    : KernelResult WalkState :=
  match entries with
  | [] => Ok s
  | (p, n) :: rest =>
      if ignored p then walk cache s rest
      else
        match n with
        | FFile bytes mode mtime =>
            s' ← walk_file cache s p bytes mode mtime; walk cache s' rest
        | FLink _ => walk cache s rest
        end
  end.

(** The entries of a workspace, in some order. *)
Definition snapshot_dir_with_cache (cas : Cas) (fs : Fs) (cache : StatCache) (started : Z)
    : KernelResult (string * Manifest * Cas * StatCache) :=
  s ← walk cache (mkWalk cas ∅ ∅ 0) (map_to_list (ws fs));
  rc ← manifest_store (wk_cas s) (wk_manifest s);
  Ok (rc.1, wk_manifest s, rc.2, mkCache (wk_next s) (Some started)).

Definition snapshot_dir (cas : Cas) (fs : Fs) (started : Z)
    : KernelResult (string * Manifest * Cas) :=
  r ← snapshot_dir_with_cache cas fs cache_default started;
  let '(root, m, cas', _) := r in Ok (root, m, cas').

(** * Materializing *)

(** Everything that is not ignored and not a manifest path goes. *)
Definition remove_stale (m : Manifest) (w : gmap (list string) FNode) : gmap (list string) FNode :=
  filter (fun pn => ignored pn.1 = true \/ is_Some (m !! rel_of pn.1)) w.

Definition strict_prefix (p q : path) : bool :=
  bool_decide (take (length p) q = p) && (length p <? length q)%nat.

(** A directory cannot be created over a file, nor a file written over a
    directory. *)
Definition blocked (w : gmap (list string) FNode) (p : path) : bool :=
  existsb (fun qn => strict_prefix qn.1 p || strict_prefix p qn.1) (map_to_list w).

(** [fs::write] then [set_permissions], at time [now]. *)
Definition write_file (fs : Fs) (p : path) (bytes : string) (mode now : Z) : KernelResult Fs :=
  if blocked (ws fs) p then Err (EIo "Not a directory")
  else
    match ws fs !! p with
    | Some (FLink t) => Ok (mkFs (ws fs) (<[t := (bytes, now)]> (outside fs)))
    | _ => Ok (mkFs (<[p := FFile bytes mode now]> (ws fs)) (outside fs))
    end.

(** [fs::metadata], which follows links: mtime and length. *)
Definition stat_file (fs : Fs) (p : path) : option (Z * Z) :=
  match ws fs !! p with
  | Some (FFile bytes _ mtime) => Some (mtime, len_of bytes)
  | Some (FLink t) => (fun bm => (bm.2, len_of bm.1)) <$> outside fs !! t
  | None => None
  end.

Definition comps_of (rel : string) : path := str_split "/"%char rel.

(** The cached stat of the file already maps to this blob. *)
Definition unchanged (cache : StatCache) (fs : Fs) (rel : string) (e : ManifestEntry) : bool :=
  match cache_entries cache !! rel with
  | Some c =>
      if bool_decide (st_blob c = entry_blob e) then
        match stat_file fs (comps_of rel) with
        | Some (mtime, len) => trusted cache c mtime len
        | None => false
        end
      else false
  | None => false
  end.

Definition materialize_entry (cas : Cas) (cache : StatCache) (now : Z) (rel : string)
    (e : ManifestEntry) (fs : Fs) : KernelResult (Fs * StatEntry) :=
  let dest := comps_of rel in
  fs' ← (if negb (unchanged cache fs rel e) then
           bytes ← cas_get cas (entry_blob e); write_file fs dest bytes (entry_mode e) now
         else Ok fs);
  st ← ok_or (stat_file fs' dest) (EIo "No such file or directory");
  Ok (fs', mkStat st.1 st.2 (entry_blob e)).

Fixpoint materialize_entries (cas : Cas) (cache : StatCache) (now : Z)
    (entries : list (string * ManifestEntry)) (fs : Fs) (next : gmap string StatEntry)
    : KernelResult (Fs * gmap string StatEntry) :=
  match entries with
  | [] => Ok (fs, next)
  | (rel, e) :: rest =>
      r ← materialize_entry cas cache now rel e fs;
      materialize_entries cas cache now rest r.1 (<[rel := r.2]> next)
  end.

Definition materialize_with_cache (cas : Cas) (root : string) (fs : Fs) (cache : StatCache)
    (started now : Z) : KernelResult (Fs * StatCache) :=
  m ← manifest_load cas root;
  r ← materialize_entries cas cache now (bt_iter m)
        (mkFs (remove_stale m (ws fs)) (outside fs)) ∅;
  Ok (r.1, mkCache r.2 (Some started)).

Definition materialize (cas : Cas) (root : string) (fs : Fs) (started now : Z)
    : KernelResult Fs :=
  r ← materialize_with_cache cas root fs cache_default started now; Ok r.1.
End snapshot.

(** * Lemmas on the store *)

Section cas_lemmas.
Context `{!Serde, !Sha256}.

Lemma hex_of_Ok hash h : hex_of hash = Ok h <-> hash = "sha256:" +:+ h /\ is_hex_digest h = true.
Proof.
  unfold hex_of. destruct (strip_prefix "sha256:" hash) as [h'|] eqn:E.
  - apply strip_prefix_Some in E. subst hash. destruct (is_hex_digest h') eqn:Eh; split.
    + intros [= <-]. done.
    + intros [Heq _]. by apply String.app_inj in Heq as ->.
    + done.
    + intros [Heq Hh]. apply String.app_inj in Heq as ->. congruence.
  - split; [done|]. intros [-> _]. rewrite strip_prefix_None in E. by destruct (E h).
Qed.

Lemma str_split_last c a b :
  str_all (fun d => negb (Ascii.eqb c d)) b = true ->
  last (str_split c (a +:+ String c b)) = Some b.
Proof.
  intros Hb. assert (str_split c b = [b]) as Hsb.
  { induction b as [|d b IH]; cbn; [done|]. cbn in Hb. apply andb_true_iff in Hb as [Hd Hb].
    destruct (decide (c = d)) as [->|]; [by rewrite Ascii.eqb_refl in Hd|].
    by rewrite IH. }
  induction a as [|d a IH]; cbn.
  - rewrite decide_True by done. by rewrite Hsb.
  - pose proof (str_split_nonempty c (a +:+ String c b)) as Hne. case_decide.
    + destruct (str_split c (a +:+ String c b)); [done|]. by rewrite last_cons_cons.
    + destruct (str_split c (a +:+ String c b)) as [|w ws'] eqn:E; [done|].
      destruct ws' as [|w' ws']; [|exact IH].
      cbn in IH. injection IH as ->. exfalso. clear -E.
      assert (forall a, length (str_split c (a +:+ String c b)) <> 1%nat) as Hl.
      { clear. induction a as [|d a IH]; cbn.
        - rewrite decide_True by done. pose proof (str_split_nonempty c b).
          destruct (str_split c b); [done|]. cbn. lia.
        - pose proof (str_split_nonempty c (a +:+ String c b)).
          destruct (str_split c (a +:+ String c b)); [done|].
          case_decide; cbn in *; lia. }
      apply (Hl a). by rewrite E.
Qed.

Lemma hex_no_slash h : str_all is_ascii_hexdigit h = true ->
  str_all (fun d => negb (Ascii.eqb "/"%char d)) h = true.
Proof.
  induction h as [|c h IH]; cbn [str_all]; [done|]. intros [Hc Hh]%andb_true_iff.
  rewrite (IH Hh), andb_true_r. destruct (Ascii.eqb_spec "/"%char c) as [<-|]; [|done].
  by vm_compute in Hc.
Qed.

Lemma blob_path_Ok hash p :
  blob_path hash = Ok p <->
  exists h, hash = "sha256:" +:+ h /\ is_hex_digest h = true
            /\ p = str_take 2 h +:+ "/" +:+ h.
Proof.
  unfold blob_path. rewrite bind_Ok. split.
  - intros (h & Hh & [= <-]). apply hex_of_Ok in Hh as [-> Hd]. eauto.
  - intros (h & -> & Hd & ->). exists h. by rewrite hex_of_Ok.
Qed.

Lemma blob_name_path h : is_hex_digest h = true ->
  blob_name (str_take 2 h +:+ "/" +:+ h) = h.
Proof.
  unfold is_hex_digest. intros [_ Hh]%andb_true_iff. unfold blob_name.
  change ("/" +:+ h) with (String "/"%char h).
  by rewrite (str_split_last "/"%char (str_take 2 h) h (hex_no_slash _ Hh)).
Qed.

Lemma blob_path_inj h h' p : blob_path h = Ok p -> blob_path h' = Ok p -> h = h'.
Proof.
  intros (x & -> & Hx & ->)%blob_path_Ok (y & -> & Hy & Heq)%blob_path_Ok.
  apply (f_equal blob_name) in Heq. by rewrite !blob_name_path in Heq by done; subst.
Qed.

(** Every blob is stored at the path of its hash. *)
Definition cas_ok (cas : gmap string string) : Prop :=
  forall p b, cas !! p = Some b -> blob_path (hash_bytes b) = Ok p.

Lemma cas_get_Ok cas hash b :
  cas_get cas hash = Ok b <->
  hash = hash_bytes b /\ exists p, blob_path hash = Ok p /\ cas !! p = Some b.
Proof.
  unfold cas_get. split.
  - intros Hg. apply bind_Ok in Hg as (p & Hp & Hg). apply bind_Ok in Hg as (b' & Hb & Hg).
    apply ok_or_Ok in Hb. case_bool_decide as Hh; cbn in Hg; [|done]. injection Hg as ->. eauto.
  - intros (Hh & p & Hp & Hb). rewrite Hp. cbn [mbind result_bind]. rewrite Hb.
    cbn [ok_or mbind result_bind]. by rewrite bool_decide_true.
Qed.

Lemma put_spec cas b h cas' :
  put cas b = Ok (h, cas') ->
  h = hash_bytes b /\ exists p, blob_path h = Ok p
    /\ cas' = match cas !! p with Some _ => cas | None => <[p := b]> cas end.
Proof. unfold put. intros Hp. apply bind_Ok in Hp as (p & Hp & [= <- <-]). eauto. Qed.

Lemma put_ok cas b h cas' : cas_ok cas -> put cas b = Ok (h, cas') -> cas_ok cas'.
Proof.
  intros Hok (-> & p & Hp & ->)%put_spec. destruct (cas !! p); [done|].
  intros q c. rewrite lookup_insert_Some. intros [[<- <-]|[_ Hc]]; [done|by apply Hok].
Qed.

Lemma put_mono cas b h cas' hash x :
  put cas b = Ok (h, cas') -> cas_get cas hash = Ok x -> cas_get cas' hash = Ok x.
Proof.
  intros (-> & p & Hp & ->)%put_spec. rewrite !cas_get_Ok. intros (-> & q & Hq & Hx).
  split; [done|]. exists q. split; [done|]. destruct (cas !! p) eqn:E; [done|].
  rewrite lookup_insert_ne; [done|]. congruence.
Qed.

Lemma put_get cas b h cas' :
  cas_ok cas -> put cas b = Ok (h, cas') -> cas_get cas' h = Ok b \/ sha256_collision.
Proof.
  intros Hok (-> & p & Hp & ->)%put_spec. destruct (cas !! p) as [c|] eqn:E.
  - pose proof (blob_path_inj _ _ _ (Hok _ _ E) Hp) as [->|?]%hash_bytes_binding; [left|by right].
    apply cas_get_Ok. eauto.
  - left. apply cas_get_Ok. split; [done|]. exists p. by rewrite lookup_insert_eq.
Qed.
End cas_lemmas.

(** * Lemmas on snapshots *)

Section walk_lemmas.
Context `{!Serde, !Sha256}.

(** What a complete, cold snapshot records of one entry, and of a tree. *)
Definition file_entry (pn : list string * FNode) : option (string * ManifestEntry) :=
  if ignored pn.1 then None
  else match pn.2 with
       | FFile bytes mode _ => Some (rel_of pn.1, mkEntry (hash_bytes bytes) (file_mode mode))
       | FLink _ => None
       end.

Definition tree_manifest (w : gmap (list string) FNode) : gmap string ManifestEntry :=
  list_to_map (omap file_entry (map_to_list w)).

(** Components are names: UTF-8 without separators. *)
Definition clean_name (c : string) : bool :=
  str_all (fun d => negb (Ascii.eqb "/"%char d)) c && utf8_valid c.

Definition clean_path (p : list string) : Prop :=
  p <> [] /\ Forall (fun c => clean_name c = true) p.

Lemma clean_lossy p : Forall (fun c => clean_name c = true) p -> map from_utf8_lossy p = p.
Proof.
  induction 1 as [|c p Hc _ IH]; cbn; [done|]. apply andb_true_iff in Hc as [_ Hv].
  by rewrite IH, from_utf8_lossy_id.
Qed.

Definition clean_ws (w : gmap (list string) FNode) : Prop :=
  forall p, is_Some (w !! p) -> clean_path p.

Lemma str_split_app c a b :
  str_all (fun d => negb (Ascii.eqb c d)) a = true ->
  str_split c (a +:+ String c b) = a :: str_split c b.
Proof.
  induction a as [|d a IH]; cbn; [by rewrite decide_True|]. intros [Hd Ha]%andb_true_iff.
  destruct (decide (c = d)) as [->|]; [by rewrite Ascii.eqb_refl in Hd|]. by rewrite IH.
Qed.

Lemma str_split_plain c a :
  str_all (fun d => negb (Ascii.eqb c d)) a = true -> str_split c a = [a].
Proof.
  induction a as [|d a IH]; cbn; [done|]. intros [Hd Ha]%andb_true_iff.
  destruct (decide (c = d)) as [->|]; [by rewrite Ascii.eqb_refl in Hd|]. by rewrite IH.
Qed.

Lemma comps_of_rel p : clean_path p -> comps_of (rel_of p) = p.
Proof.
  intros [Hne Hall]. unfold comps_of, rel_of. rewrite clean_lossy by done.
  induction Hall as [|c p Hc Hp IH]; [done|]. apply andb_true_iff in Hc as [Hc _].
  destruct p as [|d p].
  - cbn. by apply str_split_plain.
  - change (str_join "/" (c :: d :: p)) with (c +:+ String "/"%char (str_join "/" (d :: p))).
    rewrite str_split_app by done. by rewrite IH.
Qed.

Lemma rel_of_inj p q : clean_path p -> clean_path q -> rel_of p = rel_of q -> p = q.
Proof. intros Hp Hq Heq. rewrite <- (comps_of_rel p Hp), <- (comps_of_rel q Hq). by rewrite Heq. Qed.

Lemma str_all_concat f l : str_all f (str_concat l) = forallb (str_all f) l.
Proof.
  induction l as [|s l IH]; [done|]. cbn [str_concat forallb]. rewrite <- IH. generalize (str_concat l) as r.
  induction s as [|c s IHs]; intros r; cbn; [done|]. by rewrite IHs, andb_assoc.
Qed.

(** Nothing is replaced in a name that comes out as ASCII. *)
Lemma lossy_ascii c :
  str_all (fun a => (Ascii.nat_of_ascii a <? 128)%nat) (from_utf8_lossy c) = true -> from_utf8_lossy c = c.
Proof.
  intros Ha. apply from_utf8_lossy_id. unfold utf8_valid, from_utf8_lossy in *. rewrite str_all_concat in Ha.
  apply forallb_forall. intros p Hp. rewrite forallb_forall in Ha.
  destruct p as [x|x]; [done|]. by specialize (Ha _ (in_map piece_lossy _ _ Hp)).
Qed.

(** So the ignored names are the same before and after the conversion. *)
Lemma lossy_ignored c : is_ignored_component (from_utf8_lossy c) = is_ignored_component c.
Proof.
  unfold is_ignored_component. apply bool_decide_ext.
  assert (Forall (fun x => from_utf8_lossy x = x /\ str_all (fun a => (Ascii.nat_of_ascii a <? 128)%nat) x = true)
            DEFAULT_SNAPSHOT_IGNORES) as Hall by (repeat constructor).
  rewrite Forall_forall in Hall. split; intros Hin.
  - rewrite <- (lossy_ascii c); [done|]. by apply Hall.
  - by rewrite (proj1 (Hall c Hin)).
Qed.

Lemma ignored_raw p : ignored p = existsb is_ignored_component p.
Proof. unfold ignored. induction p as [|c p IH]; cbn; [done|]. by rewrite lossy_ignored, IH. Qed.

(** A cache entry that would be trusted names the file's real content. *)
Definition coherent (cache : StatCache) (entries : list (list string * FNode)) : Prop :=
  forall p bytes mode mtime e,
    (p, FFile bytes mode mtime) ∈ entries -> ignored p = false ->
    cache_entries cache !! rel_of p = Some e ->
    trusted cache e mtime (len_of bytes) = true -> st_blob e = hash_bytes bytes.

Lemma coherent_default entries : coherent cache_default entries.
Proof. intros p b m t e _ _ He. cbn in He. by rewrite lookup_empty in He. Qed.

Definition stat_entry (pn : list string * FNode) : option (string * StatEntry) :=
  if ignored pn.1 then None
  else match pn.2 with
       | FFile bytes _ mtime => Some (rel_of pn.1, mkStat mtime (len_of bytes) (hash_bytes bytes))
       | FLink _ => None
       end.

Lemma walk_file_spec cache s p bytes mode mtime s' :
  (forall e, cache_entries cache !! rel_of p = Some e ->
     trusted cache e mtime (len_of bytes) = true -> st_blob e = hash_bytes bytes) ->
  walk_file cache s p bytes mode mtime = Ok s' ->
  wk_manifest s' = <[rel_of p := mkEntry (hash_bytes bytes) (file_mode mode)]> (wk_manifest s)
  /\ wk_next s' = <[rel_of p := mkStat mtime (len_of bytes) (hash_bytes bytes)]> (wk_next s).
Proof.
  intros Hco Hw. unfold walk_file in Hw. apply bind_Ok in Hw as ([[blob cas] n] & Hr & [= <-]).
  cbn. assert (blob = hash_bytes bytes) as ->; [|done].
  assert (forall bc, put (wk_cas s) bytes = Ok bc -> bc.1 = hash_bytes bytes) as Hput.
  { intros [h c] Hp. by apply put_spec in Hp as [-> _]. }
  destruct (cache_entries cache !! rel_of p) as [e|] eqn:Ee.
  - destruct (trusted cache e mtime (len_of bytes)) eqn:Et.
    + injection Hr as <- _ _. by apply Hco.
    + apply bind_Ok in Hr as (bc & Hbc & [= <- _ _]). by apply Hput.
  - apply bind_Ok in Hr as (bc & Hbc & [= <- _ _]). by apply Hput.
Qed.

Lemma omap_cons_eq {A B} (f : A -> option B) x l :
  omap f (x :: l) = match f x with Some y => y :: omap f l | None => omap f l end.
Proof. done. Qed.

Lemma walk_spec cache entries s s' :
  coherent cache entries -> NoDup (omap file_entry entries).*1 ->
  walk cache s entries = Ok s' ->
  wk_manifest s' = list_to_map (omap file_entry entries) ∪ wk_manifest s
  /\ wk_next s' = list_to_map (omap stat_entry entries) ∪ wk_next s.
Proof.
  revert s. induction entries as [|[p n] entries IH]; intros s Hco Hnd Hw; cbn in Hw.
  { injection Hw as <-. cbn. by rewrite !(left_id_L ∅ (∪)). }
  assert (coherent cache entries) as Hco'.
  { intros q b m t e Hin. apply (Hco q b m t e). by right. }
  rewrite (omap_cons_eq file_entry), (omap_cons_eq stat_entry).
  rewrite (omap_cons_eq file_entry) in Hnd.
  change (file_entry (p, n)) with
    (if ignored p then None else
       match n with
       | FFile b m _ => Some (rel_of p, mkEntry (hash_bytes b) (file_mode m))
       | FLink _ => None end) in *.
  change (stat_entry (p, n)) with
    (if ignored p then None else
       match n with
       | FFile b _ t => Some (rel_of p, mkStat t (len_of b) (hash_bytes b))
       | FLink _ => None end).
  destruct (ignored p) eqn:Hig; [by apply IH|].
  destruct n as [bytes mode mtime|t]; [|by apply IH].
  apply bind_Ok in Hw as (s1 & Hs1 & Hw). cbn in Hnd. apply NoDup_cons in Hnd as [Hni Hnd].
  apply walk_file_spec in Hs1 as [Hm Hn].
  2:{ intros e He Ht. eapply Hco; [by left|done|done|done]. }
  destruct (IH s1 Hco' Hnd Hw) as [-> ->]. rewrite Hm, Hn. cbn. split.
  - rewrite <- insert_union_l. symmetry. apply insert_union_r.
    by apply not_elem_of_list_to_map_1.
  - rewrite <- insert_union_l. symmetry. apply insert_union_r.
    apply not_elem_of_list_to_map_1. intros Hin. apply Hni.
    apply list_elem_of_fmap in Hin as ([r e] & Hr & Hin). cbn in Hr.
    apply list_elem_of_omap in Hin as ([q nq] & Hq & Hse).
    apply list_elem_of_fmap. unfold stat_entry in Hse. cbn in Hse.
    destruct (ignored q) eqn:Hqi; [done|]. destruct nq as [b m t|]; [|done].
    injection Hse as <- <-. eexists (rel_of q, _). split; [done|].
    apply list_elem_of_omap. exists (q, FFile b m t). split; [done|].
    unfold file_entry. cbn. by rewrite Hqi.
Qed.

Lemma map_to_list_rels w : clean_ws w -> NoDup (omap file_entry (map_to_list w)).*1.
Proof.
  intros Hcl. pose proof (NoDup_fst_map_to_list w) as Hnd.
  assert (forall p n, (p, n) ∈ map_to_list w -> clean_path p) as Hc.
  { intros p n Hin. apply Hcl. apply elem_of_map_to_list in Hin. by eexists. }
  revert Hnd Hc. generalize (map_to_list w) as l. induction l as [|[p n] l IH]; intros Hnd Hc.
  { constructor. }
  cbn in Hnd. apply NoDup_cons in Hnd as [Hni Hnd].
  assert (NoDup (omap file_entry l).*1) as Hrest.
  { apply IH; [done|]. intros q m Hin. apply (Hc q m). by right. }
  rewrite omap_cons_eq.
  change (file_entry (p, n)) with
    (if ignored p then None else
       match n with
       | FFile b m _ => Some (rel_of p, mkEntry (hash_bytes b) (file_mode m))
       | FLink _ => None end).
  destruct (ignored p); [done|].
  destruct n as [b m t|]; [|done]. cbn. constructor; [|done]. intros Hin. apply Hni.
  apply list_elem_of_fmap in Hin as ([r e] & Hr & Hin). cbn in Hr. subst r.
  apply list_elem_of_omap in Hin as ([q nq] & Hq & Hfe). unfold file_entry in Hfe. cbn in Hfe.
  destruct (ignored q); [done|]. destruct nq as [b' m' t'|]; [|done]. injection Hfe as Hrel _.
  apply rel_of_inj in Hrel; [|by eapply Hc; right|by eapply Hc; left]. subst q.
  apply list_elem_of_fmap. by eexists (p, _).
Qed.

Lemma tree_manifest_lookup w rel e : clean_ws w ->
  tree_manifest w !! rel = Some e <->
  exists p bytes mode mtime, w !! p = Some (FFile bytes mode mtime) /\ ignored p = false
    /\ rel = rel_of p /\ e = mkEntry (hash_bytes bytes) (file_mode mode).
Proof.
  intros Hcl. unfold tree_manifest.
  rewrite <- elem_of_list_to_map by by apply map_to_list_rels.
  rewrite list_elem_of_omap. split.
  - intros ([p n] & Hin & Hfe). apply elem_of_map_to_list in Hin. unfold file_entry in Hfe.
    cbn in Hfe. destruct (ignored p) eqn:Hi; [done|]. destruct n as [b m t|]; [|done].
    injection Hfe as <- <-. eauto 10.
  - intros (p & b & m & t & Hp & Hi & -> & ->). exists (p, FFile b m t).
    split; [by apply elem_of_map_to_list|]. unfold file_entry. cbn. by rewrite Hi.
Qed.
End walk_lemmas.

(** * Lemmas on deltas *)

Section diff_lemmas.
Implicit Types (old new : gmap string ManifestEntry).

(** The change of one path, if any. *)
Definition change_at old new (p : string) : option FileChange :=
  match old !! p, new !! p with
  | None, None => None
  | None, Some e => Some (FAdded p (entry_blob e) (entry_mode e))
  | Some o, Some e =>
      if decide (o = e) then None else Some (FModified p (entry_blob o) (entry_blob e))
  | Some o, None => Some (FDeleted p (entry_blob o))
  end.

Lemma elem_of_diff old new c :
  c ∈ diff_manifests old new <-> change_at old new (change_path c) = Some c.
Proof.
  unfold diff_manifests, change_at. rewrite elem_of_app, !list_elem_of_omap. split.
  - intros [([p e] & He & Hc)|([p o] & Ho & Hc)].
    + apply bt_iter_elem in He. unfold added_or_modified in Hc. cbn in Hc.
      destruct (old !! p) as [o|] eqn:Eo.
      * case_bool_decide as Hoe; [done|]. cbn in Hc. injection Hc as <-. cbn.
        rewrite Eo, He. by rewrite decide_False.
      * injection Hc as <-. cbn. by rewrite Eo, He.
    + apply bt_iter_elem in Ho. cbn in Hc. destruct (new !! p) eqn:En; [done|].
      injection Hc as <-. cbn. by rewrite Ho, En.
  - destruct (old !! change_path c) as [o|] eqn:Eo, (new !! change_path c) as [e|] eqn:En.
    + case_decide as Hoe; [done|]. intros [= Hc]. left. exists (change_path c, e).
      rewrite bt_iter_elem. split; [done|]. unfold added_or_modified. cbn.
      rewrite Eo, bool_decide_false by done. cbn. by rewrite Hc.
    + intros [= Hc]. right. exists (change_path c, o). rewrite bt_iter_elem.
      split; [done|]. cbn. rewrite En. by rewrite Hc.
    + intros [= Hc]. left. exists (change_path c, e). rewrite bt_iter_elem.
      split; [done|]. unfold added_or_modified. cbn. rewrite Eo. by rewrite Hc.
    + done.
Qed.

Lemma change_at_path old new p c : change_at old new p = Some c -> change_path c = p.
Proof.
  unfold change_at. destruct (old !! p), (new !! p); try case_decide; intros [= <-]; done.
Qed.
End diff_lemmas.

(** * Lemmas on materializing *)

Section materialize_lemmas.
Context `{!Serde, !Sha256}.

Lemma write_file_spec fs p bytes mode now fs' :
  (forall t, ws fs !! p <> Some (FLink t)) ->
  write_file fs p bytes mode now = Ok fs' ->
  fs' = mkFs (<[p := FFile bytes mode now]> (ws fs)) (outside fs).
Proof.
  unfold write_file. intros Hl. destruct (blocked _ _); [done|].
  destruct (ws fs !! p) as [[b m t|t]|] eqn:E; [by intros [= <-]| |by intros [= <-]].
  by destruct (Hl t).
Qed.

(** A path without a link stats its own file. *)
Lemma stat_file_Some fs p st :
  (forall t, ws fs !! p <> Some (FLink t)) -> stat_file fs p = Some st ->
  exists b m t, ws fs !! p = Some (FFile b m t) /\ st = (t, len_of b).
Proof.
  unfold stat_file. intros Hl. destruct (ws fs !! p) as [[b m t|t]|]; [|by destruct (Hl t)|done].
  intros [= <-]. eauto.
Qed.

(** Whether an entry is let stand depends on its own path alone. *)
Lemma unchanged_local cache fs fs1 rel e :
  ws fs1 !! comps_of rel = ws fs !! comps_of rel -> (forall t, ws fs !! comps_of rel <> Some (FLink t)) ->
  unchanged cache fs1 rel e = unchanged cache fs rel e.
Proof.
  intros Heq Hl. unfold unchanged, stat_file. rewrite Heq.
  by destruct (ws fs !! comps_of rel) as [[b m t|t]|]; [|destruct (Hl t)|].
Qed.

(** What an entry left: the file that stood there, or one with the recorded blob and mode. *)
Definition entry_done (cache : StatCache) (fs : Fs) (rel : string) (e : ManifestEntry) (n : option FNode)
    (st : option StatEntry) : Prop :=
  exists b md t, n = Some (FFile b md t) /\ st = Some (mkStat t (len_of b) (entry_blob e))
    /\ if unchanged cache fs rel e then ws fs !! comps_of rel = Some (FFile b md t)
       else entry_blob e = hash_bytes b /\ md = entry_mode e.

Lemma materialize_entry_spec cas cache now rel e fs fs' st :
  (forall t, ws fs !! comps_of rel <> Some (FLink t)) ->
  materialize_entry cas cache now rel e fs = Ok (fs', st) ->
  outside fs' = outside fs /\ (forall p, p <> comps_of rel -> ws fs' !! p = ws fs !! p)
  /\ entry_done cache fs rel e (ws fs' !! comps_of rel) (Some st).
Proof.
  intros Hl. unfold materialize_entry. intros Hm. apply bind_Ok in Hm as (fs1 & Hf & Hm).
  apply bind_Ok in Hm as (s & Hs%ok_or_Ok & [= <- <-]). unfold entry_done.
  destruct (unchanged cache fs rel e); cbn [negb] in Hf.
  - injection Hf as <-. apply stat_file_Some in Hs as (b & m & t & Hb & ->); [|done].
    split_and!; try done. by exists b, m, t.
  - apply bind_Ok in Hf as (bytes & Hg & Hw). apply write_file_spec in Hw; [|done]. subst fs1.
    apply cas_get_Ok in Hg as [Hh _].
    apply stat_file_Some in Hs as (b & m & t & Hb & ->); [|intros u; cbn; by rewrite lookup_insert_eq].
    cbn in Hb. rewrite lookup_insert_eq in Hb. injection Hb as <- <- <-. split_and!; [done| |].
    + intros p Hp. cbn. by rewrite lookup_insert_ne.
    + exists bytes, (entry_mode e), now. cbn. by rewrite lookup_insert_eq.
Qed.

Lemma materialize_entries_spec cas cache now l fs next fs' next' :
  NoDup (map (fun re => comps_of re.1) l) ->
  (forall rel e t, (rel, e) ∈ l -> ws fs !! comps_of rel <> Some (FLink t)) ->
  materialize_entries cas cache now l fs next = Ok (fs', next') ->
  outside fs' = outside fs
  /\ (forall p, p ∉ map (fun re => comps_of re.1) l -> ws fs' !! p = ws fs !! p)
  /\ (forall rel e, (rel, e) ∈ l -> entry_done cache fs rel e (ws fs' !! comps_of rel) (next' !! rel))
  /\ (forall rel, rel ∉ l.*1 -> next' !! rel = next !! rel).
Proof.
  revert fs next. induction l as [|[rel e] l IH]; intros fs next Hnd Hl Hm.
  { cbn in Hm. injection Hm as <- <-. split_and!; try done. by intros rel e ?%elem_of_nil. }
  cbn in Hm, Hnd. apply NoDup_cons in Hnd as [Hni Hnd].
  apply bind_Ok in Hm as ([fs1 st] & H1 & Hm). cbn in Hm.
  apply materialize_entry_spec in H1 as (Ho1 & Hoth1 & Hd1); [|intros t; by eapply Hl; left].
  assert (forall r e', (r, e') ∈ l -> comps_of r <> comps_of rel) as Hne.
  { intros r e' Hr Heq. apply Hni. apply list_elem_of_In, in_map_iff. exists (r, e').
    by rewrite <- list_elem_of_In. }
  assert (rel ∉ l.*1) as Hrel.
  { intros ([r e'] & Hr & Hin)%list_elem_of_fmap. cbn in Hr. subst r. by apply (Hne rel e'). }
  apply IH in Hm as (Ho & Hoth & Hin & Hnext); [|done|].
  2:{ intros r e' t Hr. rewrite Hoth1 by by eapply Hne. by eapply Hl; right. }
  split_and!; [congruence| | |].
  - intros p Hp. cbn in Hp. rewrite elem_of_cons in Hp. rewrite Hoth, Hoth1 by tauto. done.
  - intros r e' [[= -> ->]|Hr]%elem_of_cons.
    + rewrite Hoth by done. rewrite Hnext by done. by rewrite lookup_insert_eq.
    + destruct (Hin r e' Hr) as (b & md & t & Hb & Hs & Hu). exists b, md, t. split; [done|]. split; [done|].
      rewrite (unchanged_local cache fs fs1) in Hu; [|by rewrite Hoth1 by by eapply Hne|intros u; by eapply Hl; right].
      by rewrite Hoth1 in Hu by by eapply Hne.
  - intros r Hr. cbn in Hr. rewrite elem_of_cons in Hr. rewrite Hnext by tauto. rewrite lookup_insert_ne; [done|].
    intros ->. tauto.
Qed.

(** Manifest paths are the joined names of clean, non-ignored paths. *)
Definition manifest_ok (m : gmap string ManifestEntry) : Prop :=
  forall rel e, m !! rel = Some e ->
    clean_path (comps_of rel) /\ rel_of (comps_of rel) = rel /\ ignored (comps_of rel) = false
    /\ file_mode (entry_mode e) = entry_mode e.

Lemma bt_iter_fst {V} (m : gmap string V) : NoDup (bt_iter m).*1.
Proof.
  unfold bt_iter. pose proof (bt_keys_nodup m) as Hnd.
  induction (bt_keys m) as [|k ks IH]; cbn; [constructor|].
  apply NoDup_cons in Hnd as [Hni Hnd]. destruct (m !! k) as [v|]; cbn; [|by apply IH].
  constructor; [|by apply IH]. intros Hin. apply Hni.
  apply list_elem_of_fmap in Hin as ([k' v'] & Hk & Hin). cbn in Hk. subst k'.
  apply list_elem_of_omap in Hin as (k' & Hk' & He). destruct (m !! k'); cbn in He; by simplify_eq.
Qed.

Lemma manifest_paths_nodup m : manifest_ok m ->
  NoDup (map (fun re : string * ManifestEntry => comps_of re.1) (bt_iter m)).
Proof.
  intros Hok. pose proof (bt_iter_fst m) as Hnd.
  assert (forall re, re ∈ bt_iter m -> rel_of (comps_of re.1) = re.1) as Hrel.
  { intros [rel e] Hin. apply bt_iter_elem in Hin. by apply (Hok rel e Hin). }
  induction (bt_iter m) as [|[rel e] l IH]; cbn in *; [constructor|].
  apply NoDup_cons in Hnd as [Hni Hnd].
  constructor; [|apply IH; [done|]; intros re Hre; apply Hrel; by right].
  intros Hin. apply Hni. apply list_elem_of_In, in_map_iff in Hin as ([r e'] & Heq & Hr).
  cbn in Heq. rewrite <- list_elem_of_In in Hr.
  pose proof (Hrel (r, e') ltac:(by right)) as H1. pose proof (Hrel (rel, e) ltac:(by left)) as H2.
  cbn in H1, H2. rewrite Heq, H2 in H1. subst r. apply list_elem_of_fmap. by exists (rel, e').
Qed.

Lemma manifest_path_elem m p :
  p ∈ map (fun re : string * ManifestEntry => comps_of re.1) (bt_iter m) <->
  exists rel e, m !! rel = Some e /\ comps_of rel = p.
Proof.
  rewrite list_elem_of_In, in_map_iff. split.
  - intros ([rel e] & <- & Hin). exists rel, e. split; [|done].
    by apply bt_iter_elem, list_elem_of_In.
  - intros (rel & e & Hre & <-). exists (rel, e). split; [done|].
    by apply list_elem_of_In, bt_iter_elem.
Qed.

(** The result [w] of materializing over [fs] with a coherent cache. *)
Section materialized.
Context (fs : Fs) (cache : StatCache) (m : gmap string ManifestEntry) (w : gmap (list string) FNode)
  (next : gmap string StatEntry).
Hypothesis Hok : manifest_ok m.
Hypothesis Hcl : clean_ws (ws fs).
Hypothesis Hco : coherent cache (map_to_list (ws fs)).
Hypothesis Hlinks : forall p t, is_Some (m !! rel_of p) -> ws fs !! p <> Some (FLink t).
Hypothesis Hoth : forall p,
  p ∉ map (fun re : string * ManifestEntry => comps_of re.1) (bt_iter m) ->
  w !! p = remove_stale m (ws fs) !! p.
Hypothesis Hin : forall rel e, (rel, e) ∈ bt_iter m ->
  entry_done cache fs rel e (w !! comps_of rel) (next !! rel).
Hypothesis Hnext : forall rel, rel ∉ (bt_iter m).*1 -> next !! rel = None.

Lemma materialized_clean : clean_ws w.
Proof.
  intros p [n Hp].
  destruct (decide (p ∈ map (fun re : string * ManifestEntry => comps_of re.1) (bt_iter m)))
    as [(rel & e & Hre & <-)%manifest_path_elem|Hnin].
  - by apply (Hok rel e).
  - rewrite Hoth in Hp by done. apply map_lookup_filter_Some in Hp as [Hp _].
    apply Hcl. by eexists.
Qed.

(** Every manifest path holds a file with the recorded content, and with the recorded mode
    unless it was let stand. *)
Lemma materialized_file rel e :
  m !! rel = Some e -> exists b md t, w !! comps_of rel = Some (FFile b md t) /\ entry_blob e = hash_bytes b
    /\ next !! rel = Some (mkStat t (len_of b) (entry_blob e))
    /\ if unchanged cache fs rel e then ws fs !! comps_of rel = Some (FFile b md t) else md = entry_mode e.
Proof.
  intros Hre. destruct (Hok _ _ Hre) as (Hc & Hrel & Hi & _).
  destruct (Hin rel e) as (b & md & t & Hw & Hn & Hu); [by apply bt_iter_elem|]. exists b, md, t.
  destruct (unchanged cache fs rel e) eqn:Eu; [|by destruct Hu].
  split_and!; try done. unfold unchanged in Eu. destruct (cache_entries cache !! rel) as [c|] eqn:Ec; [|done].
  case_bool_decide as Hblob; [|done]. unfold stat_file in Eu. rewrite Hu in Eu. rewrite <- Hblob.
  apply (Hco (comps_of rel) b md t c); [by apply elem_of_map_to_list|done|by rewrite Hrel|done].
Qed.

Lemma materialized_entry rel e :
  m !! rel = Some e -> exists b md t, w !! comps_of rel = Some (FFile b md t)
    /\ tree_manifest w !! rel = Some (mkEntry (entry_blob e) (file_mode md))
    /\ if unchanged cache fs rel e then ws fs !! comps_of rel = Some (FFile b md t) else md = entry_mode e.
Proof.
  intros Hre. destruct (Hok _ _ Hre) as (_ & Hrel & Hi & _).
  destruct (materialized_file rel e Hre) as (b & md & t & Hw & Hb & _ & Hu). exists b, md, t.
  split_and!; [done| |done]. apply tree_manifest_lookup; [apply materialized_clean|].
  exists (comps_of rel), b, md, t. rewrite Hrel. split_and!; try done. by rewrite Hb.
Qed.

Lemma materialized_only rel e' : tree_manifest w !! rel = Some e' -> is_Some (m !! rel).
Proof.
  intros (p & b & md & t & Hp & Hi & -> & _)%tree_manifest_lookup; [|apply materialized_clean].
  destruct (decide (p ∈ map (fun re : string * ManifestEntry => comps_of re.1) (bt_iter m)))
    as [(rel & e & Hre & <-)%manifest_path_elem|Hnin].
  - destruct (Hok _ _ Hre) as (_ & -> & _). by eexists.
  - rewrite Hoth in Hp by done. apply map_lookup_filter_Some in Hp as [_ [Hig|He]]; [cbn in Hig; congruence|done].
Qed.

Lemma materialized_coherent started : coherent (mkCache next (Some started)) (map_to_list w).
Proof.
  intros p b md t c Hp%elem_of_map_to_list Hi Hc _. cbn in Hc.
  destruct (m !! rel_of p) as [e|] eqn:Hre.
  - destruct (materialized_file _ _ Hre) as (b' & md' & t' & Hw & Hb & Hn & _).
    rewrite comps_of_rel in Hw by (apply materialized_clean; by eexists).
    rewrite Hn in Hc. injection Hc as <-. rewrite Hw in Hp. injection Hp as -> _ _. done.
  - rewrite Hnext in Hc; [done|]. intros ([r e] & Hr & Hbt)%list_elem_of_fmap. cbn in Hr. subst r.
    apply bt_iter_elem in Hbt. congruence.
Qed.
End materialized.

(** The tree after materializing: the manifest's paths and contents, the ignored tier and
    the outside untouched, and a cache that tells the truth. *)
Lemma materialize_tree `{!ManifestSerde} cas root m fs cache started now fs' cache' :
  manifest_load cas root = Ok m -> manifest_ok m -> clean_ws (ws fs) -> coherent cache (map_to_list (ws fs)) ->
  (forall p t, is_Some (m !! rel_of p) -> ws fs !! p <> Some (FLink t)) ->
  materialize_with_cache cas root fs cache started now = Ok (fs', cache') ->
  clean_ws (ws fs') /\ coherent cache' (map_to_list (ws fs')) /\ outside fs' = outside fs
  /\ (forall p, ignored p = true -> ws fs' !! p = ws fs !! p)
  /\ (forall rel e', tree_manifest (ws fs') !! rel = Some e' -> is_Some (m !! rel))
  /\ (forall rel e, m !! rel = Some e -> exists b md t, ws fs' !! comps_of rel = Some (FFile b md t)
        /\ tree_manifest (ws fs') !! rel = Some (mkEntry (entry_blob e) (file_mode md))
        /\ if unchanged cache fs rel e then ws fs !! comps_of rel = Some (FFile b md t) else md = entry_mode e).
Proof.
  intros Hload Hok Hcl Hco Hlinks Hmat. unfold materialize_with_cache in Hmat.
  rewrite Hload in Hmat. cbn [mbind result_bind] in Hmat.
  apply bind_Ok in Hmat as ([fs1 next] & Hm & [= <- <-]). cbn [fst snd].
  pose proof (manifest_paths_nodup m Hok) as Hnd.
  assert (forall rel e, m !! rel = Some e -> remove_stale m (ws fs) !! comps_of rel = ws fs !! comps_of rel) as Hst.
  { intros rel e Hre. destruct (Hok _ _ Hre) as (_ & Hrel & _). unfold remove_stale.
    destruct (ws fs !! comps_of rel) as [n|] eqn:E; [|apply map_lookup_filter_None; by left].
    apply map_lookup_filter_Some. split; [done|]. right. cbn. rewrite Hrel. by eexists. }
  assert (forall rel e t, m !! rel = Some e -> ws fs !! comps_of rel <> Some (FLink t)) as Hnl.
  { intros rel e t Hre. destruct (Hok _ _ Hre) as (_ & Hrel & _). apply Hlinks. rewrite Hrel. by eexists. }
  apply materialize_entries_spec in Hm as (Ho & Hoth & Hin & Hnext); [|done|].
  2:{ intros rel e t Hre%bt_iter_elem. cbn. rewrite (Hst rel e Hre). by eapply Hnl. }
  cbn in Ho, Hoth.
  assert (forall rel e, (rel, e) ∈ bt_iter m -> entry_done cache fs rel e (ws fs1 !! comps_of rel) (next !! rel)) as Hin'.
  { intros rel e Hbt. pose proof (proj1 (bt_iter_elem _ _ _) Hbt) as Hre.
    destruct (Hin rel e Hbt) as (b & md & t & Hb & Hs & Hu). exists b, md, t. split; [done|]. split; [done|].
    rewrite (unchanged_local cache fs) in Hu; [|by apply (Hst rel e)|intros u; by eapply Hnl].
    cbn in Hu. by rewrite (Hst rel e Hre) in Hu. }
  assert (forall rel, rel ∉ (bt_iter m).*1 -> next !! rel = None) as Hnext'.
  { intros rel Hr. rewrite Hnext by done. apply lookup_empty. }
  split_and!; [by apply (materialized_clean fs m)|by apply (materialized_coherent fs cache m)|done| | |].
  - intros p Hp. rewrite Hoth.
    + unfold remove_stale. destruct (ws fs !! p) as [n|] eqn:E.
      * apply map_lookup_filter_Some. split; [done|by left].
      * apply map_lookup_filter_None. by left.
    + intros Hinp. apply manifest_path_elem in Hinp as (rel & e & Hre & <-).
      destruct (Hok _ _ Hre) as (_ & _ & Hi & _). congruence.
  - intros rel e'. by apply (materialized_only fs m).
  - intros rel e. by apply (materialized_entry fs cache m _ next).
Qed.
End materialize_lemmas.

(** * Snapshots and the stat cache *)

Section cache_lemmas.
Context `{!Serde, !Sha256}.

(** A snapshot through a coherent cache records the tree, and leaves a cache
    of its stats. *)
Lemma snapshot_spec cas fs cache started root m cas' cache' :
  clean_ws (ws fs) -> coherent cache (map_to_list (ws fs)) ->
  snapshot_dir_with_cache cas fs cache started = Ok (root, m, cas', cache') ->
  m = tree_manifest (ws fs) /\ root = hash_bytes (canonical_json (manifest_to_value m))
  /\ cache' = mkCache (list_to_map (omap stat_entry (map_to_list (ws fs)))) (Some started).
Proof.
  intros Hcl Hco Hs. unfold snapshot_dir_with_cache in Hs.
  apply bind_Ok in Hs as (s & Hw & Hs). apply bind_Ok in Hs as ([h c] & Hst & [= <- <- <- <-]).
  apply walk_spec in Hw as [Hm Hn]; [|done|by apply map_to_list_rels]. cbn in Hm, Hn.
  rewrite (right_id_L ∅ (∪)) in Hm. rewrite (right_id_L ∅ (∪)) in Hn. apply put_spec in Hst as [-> _].
  by rewrite Hm, Hn.
Qed.

(** After a snapshot started at [started], a file's content only changes
    together with an mtime inside the racy window or later. *)
Definition honest_clock (started : Z) (before after : Fs) : Prop :=
  forall p b m t b' m' t',
    ws before !! p = Some (FFile b m t) -> ws after !! p = Some (FFile b' m' t') ->
    b <> b' -> started - RACY_WINDOW < t'.

Lemma cache_coherent_later before after started :
  clean_ws (ws before) -> clean_ws (ws after) -> honest_clock started before after ->
  coherent (mkCache (list_to_map (omap stat_entry (map_to_list (ws before)))) (Some started))
    (map_to_list (ws after)).
Proof.
  intros Hcb Hca Hhon p b' m' t' e Hin Hig He Ht. apply elem_of_map_to_list in Hin.
  cbn in He. apply elem_of_list_to_map_2, list_elem_of_omap in He as ([q n] & Hq & Hse).
  apply elem_of_map_to_list in Hq. unfold stat_entry in Hse. cbn in Hse.
  destruct (ignored q); [done|]. destruct n as [b m t|]; [|done].
  injection Hse as Hrel <-. apply rel_of_inj in Hrel; [|apply Hcb; by eexists|apply Hca; by eexists].
  subst q. cbn. destruct (decide (b = b')) as [->|Hne]; [done|].
  pose proof (Hhon _ _ _ _ _ _ _ Hq Hin Hne). unfold trusted in Ht. cbn in Ht. bool_hyps.
  unfold RACY_WINDOW in *. lia.
Qed.
End cache_lemmas.

(** * Properties *)

(** The store is content-addressed and tamper-evident. What [get] returns for a hash
    has that hash, so two stores that both answer agree or SHA-256 collides, whatever was
    done to the files; and on an intact store, [put] makes its bytes retrievable under
    the returned hash and changes no other answer. *)
Theorem cas_roundtrip `{!Serde, !Sha256} (cas cas1 cas2 : gmap string string) hash x y b h :
  (cas_get cas1 hash = Ok x -> cas_get cas2 hash = Ok y -> x = y \/ sha256_collision)
  /\ (cas_ok cas -> put cas b = Ok (h, cas1) ->
      cas_ok cas1
      /\ (cas_get cas1 h = Ok b \/ sha256_collision)
      /\ (cas_get cas hash = Ok x -> cas_get cas1 hash = Ok x)).
Proof.
  split.
  - intros [Hx _]%cas_get_Ok [Hy _]%cas_get_Ok. apply hash_bytes_binding. congruence.
  - intros Hok Hp. split; [by eapply put_ok|]. split; [by eapply put_get|by apply (put_mono _ _ _ _ _ _ Hp)].
Qed.

(** [diff_manifests] is exact: it lists one change for every path whose entry differs
    (added, deleted, or modified in content or mode) and nothing else, so it is empty
    exactly for equal manifests. *)
Theorem diff_manifests_exact (old new : gmap string ManifestEntry) :
  (forall p, (exists c, c ∈ diff_manifests old new /\ change_path c = p) <-> old !! p <> new !! p)
  /\ (forall c d, c ∈ diff_manifests old new -> d ∈ diff_manifests old new ->
        change_path c = change_path d -> c = d)
  /\ (diff_manifests old new = [] <-> old = new).
Proof.
  assert (forall p, (exists c, c ∈ diff_manifests old new /\ change_path c = p)
                    <-> old !! p <> new !! p) as Hpaths.
  { intros p. split.
    - intros (c & Hc & <-). apply elem_of_diff in Hc. unfold change_at in Hc.
      destruct (old !! _), (new !! _); try case_decide; congruence.
    - intros Hne. destruct (change_at old new p) as [c|] eqn:Hc.
      + exists c. pose proof (change_at_path _ _ _ _ Hc) as Hp. rewrite elem_of_diff, Hp. done.
      + unfold change_at in Hc. destruct (old !! p), (new !! p); try case_decide; congruence. }
  split; [done|]. split.
  - intros c d Hc Hd Heq. apply elem_of_diff in Hc, Hd. congruence.
  - split; [|intros ->].
    + intros Hnil. apply map_eq. intros p. destruct (decide (old !! p = new !! p)) as [|Hne]; [done|].
      apply Hpaths in Hne as (c & Hc & _). rewrite Hnil in Hc. by apply elem_of_nil in Hc.
    + destruct (diff_manifests new new) as [|c l] eqn:E; [done|]. exfalso.
      assert (new !! change_path c <> new !! change_path c); [|done].
      apply Hpaths. exists c. split; [left|done].
Qed.

(** Incremental snapshots are exact. A snapshot that reuses the stat cache of an
    earlier snapshot of the directory records the same manifest and root as one that reads
    every file, provided the clock is honest: a file whose content changed since the
    earlier snapshot started has an mtime later than two seconds before that start. *)
Theorem incremental_snapshot_exact `{!Serde, !Sha256} cas1 before started1 root1 m1 cas1' cache
    cas2 after started2 root2 m2 cas2' cache2 cas3 root3 m3 cas3' :
  clean_ws (ws before) -> clean_ws (ws after) -> honest_clock started1 before after ->
  snapshot_dir_with_cache cas1 before cache_default started1 = Ok (root1, m1, cas1', cache) ->
  snapshot_dir_with_cache cas2 after cache started2 = Ok (root2, m2, cas2', cache2) ->
  snapshot_dir cas3 after started2 = Ok (root3, m3, cas3') ->
  m2 = m3 /\ root2 = root3 /\ m2 = tree_manifest (ws after).
Proof.
  intros Hcb Hca Hhon H1 H2 H3.
  apply snapshot_spec in H1 as (_ & _ & ->); [|done|apply coherent_default].
  apply snapshot_spec in H2 as (-> & -> & _); [|done|by apply cache_coherent_later].
  unfold snapshot_dir in H3. apply bind_Ok in H3 as ([[[r m] c] ch] & H3 & [= <- <- <-]).
  apply snapshot_spec in H3 as (-> & -> & _); [done|done|apply coherent_default].
Qed.

(** C37: Materializing a snapshot into a workspace, with whatever stat cache the branch has,
    and snapshotting again through the cache this leaves, records the same paths with the
    same contents: stale files are gone, the ignored cache tier is left as it was, and nothing
    outside the workspace is written. A file the cache did not let stand has its recorded
    mode too; and when the files it let stand have theirs, as with an empty cache, the new
    root is the old one. Materializing has to succeed, the cache to be coherent with the
    workspace, file names to be UTF-8, and no manifest path to hold a symbolic link. *)
Theorem materialize_roundtrip `{!Serde, !Sha256, !ManifestSerde} cas root m fs cache started now fs' cache'
    cas2 started2 root2 m2 cas2' cache2 :
  manifest_load cas root = Ok m -> root = hash_bytes (canonical_json (manifest_to_value m)) ->
  manifest_ok m -> clean_ws (ws fs) -> coherent cache (map_to_list (ws fs)) ->
  (forall p t, is_Some (m !! rel_of p) -> ws fs !! p <> Some (FLink t)) ->
  materialize_with_cache cas root fs cache started now = Ok (fs', cache') ->
  snapshot_dir_with_cache cas2 fs' cache' started2 = Ok (root2, m2, cas2', cache2) ->
  (forall rel, entry_blob <$> m2 !! rel = entry_blob <$> m !! rel)
  /\ (forall rel e, m !! rel = Some e -> unchanged cache fs rel e = false -> m2 !! rel = Some e)
  /\ ((forall rel e b md t, m !! rel = Some e -> unchanged cache fs rel e = true ->
         ws fs !! comps_of rel = Some (FFile b md t) -> file_mode md = entry_mode e) -> m2 = m /\ root2 = root)
  /\ outside fs' = outside fs /\ forall p, ignored p = true -> ws fs' !! p = ws fs !! p.
Proof.
  intros Hload Hroot Hok Hcl Hco Hlinks Hmat Hsnap.
  destruct (materialize_tree _ _ _ _ _ _ _ _ _ Hload Hok Hcl Hco Hlinks Hmat)
    as (Hcl' & Hco' & Hout & Hig & Honly & Hentry).
  apply snapshot_spec in Hsnap as (-> & Hr2 & _); [|done|done].
  assert (forall rel e, m !! rel = Some e -> unchanged cache fs rel e = false ->
            tree_manifest (ws fs') !! rel = Some e) as Hwritten.
  { intros rel e Hre Hu. destruct (Hentry rel e Hre) as (b & md & t & _ & Ht & Hmd). rewrite Hu in Hmd. subst md.
    destruct (Hok _ _ Hre) as (_ & _ & _ & Hmode). rewrite Ht, Hmode. by destruct e. }
  split_and!; [|done| |done|done].
  - intros rel. destruct (m !! rel) as [e|] eqn:Hre.
    + destruct (Hentry rel e Hre) as (b & md & t & _ & -> & _). done.
    + destruct (tree_manifest (ws fs') !! rel) as [e'|] eqn:Ht; [|done].
      destruct (Honly _ _ Ht) as [e He]. congruence.
  - intros Hmodes. assert (tree_manifest (ws fs') = m) as Heq; [|by rewrite Hr2, Heq].
    apply map_eq. intros rel. destruct (m !! rel) as [e|] eqn:Hre.
    + destruct (unchanged cache fs rel e) eqn:Hu; [|by apply Hwritten].
      destruct (Hentry rel e Hre) as (b & md & t & _ & Ht & Hfs). rewrite Hu in Hfs.
      rewrite Ht, (Hmodes rel e b md t Hre Hu Hfs). by destruct e.
    + destruct (tree_manifest (ws fs') !! rel) as [e'|] eqn:Ht; [|done].
      destruct (Honly _ _ Ht) as [e He]. congruence.
Qed.

(** * Witnesses and counterexamples *)

Module SnapshotDemo.
#[local] Existing Instance ToySha.serde.
#[local] Existing Instance ToySha.sha256.

Definition second : Z := 1000000000.

Definition script (mode : Z) : Fs :=
  mkFs (<[["bin"; "run.sh"] := FFile "echo hi" mode second]>
          (<[["target"; "cache.o"] := FFile "obj" 420 second]> ∅)) ∅.

Definition edited : Fs :=
  mkFs (<[["bin"; "run.sh"] := FFile "echo ho" 493 (9 * second)]> (ws (script 493))) ∅.

Lemma demo_clean fs : Forall clean_path (map_to_list (ws fs)).*1 -> clean_ws (ws fs).
Proof.
  intros Hall p [n Hp]. rewrite Forall_forall in Hall. apply Hall.
  apply list_elem_of_fmap. exists (p, n). by rewrite elem_of_map_to_list.
Qed.

Lemma script_clean mode : clean_ws (ws (script mode)).
Proof.
  apply demo_clean. apply Forall_forall. intros p Hp.
  apply list_elem_of_fmap in Hp as ([q n] & -> & Hq%elem_of_map_to_list).
  cbn in Hq. rewrite !lookup_insert_Some, lookup_empty in Hq.
  destruct Hq as [[<- _]|[_ [[<- _]|[_ ?]]]]; try done; split; try done; by repeat constructor.
Qed.

Lemma edited_clean : clean_ws (ws edited).
Proof.
  intros p [n Hp]. cbn in Hp. apply lookup_insert_Some in Hp as [[<- _]|[_ Hp]].
  - split; [done|]. by repeat constructor.
  - apply (script_clean 493). by eexists.
Qed.

Definition first_snapshot := snapshot_dir_with_cache ∅ (script 493) cache_default (10 * second).

Definition snap_dflt : string * gmap string ManifestEntry * gmap string string * StatCache :=
  (EmptyString, ∅, ∅, cache_default).
Definition first_root := (value_of snap_dflt first_snapshot).1.1.1.
Definition first_manifest := (value_of snap_dflt first_snapshot).1.1.2.
Definition first_cas := (value_of snap_dflt first_snapshot).1.2.
Definition first_cache := (value_of snap_dflt first_snapshot).2.

Lemma first_snapshot_ok :
  snapshot_dir_with_cache ∅ (script 493) cache_default (10 * second)
  = Ok (first_root, first_manifest, first_cas, first_cache).
Proof. apply (value_of_ok_quad snap_dflt first_snapshot). vm_compute. reflexivity. Qed.

Definition second_snapshot := snapshot_dir_with_cache first_cas edited first_cache (20 * second).
Definition second_root := (value_of snap_dflt second_snapshot).1.1.1.
Definition second_manifest := (value_of snap_dflt second_snapshot).1.1.2.
Definition second_cas := (value_of snap_dflt second_snapshot).1.2.
Definition second_cache := (value_of snap_dflt second_snapshot).2.

Lemma second_snapshot_ok :
  snapshot_dir_with_cache first_cas edited first_cache (20 * second)
  = Ok (second_root, second_manifest, second_cas, second_cache).
Proof. apply (value_of_ok_quad snap_dflt second_snapshot). vm_compute. reflexivity. Qed.

Definition full_snapshot := snapshot_dir ∅ edited (20 * second).
Definition full_root := (value_of (fst snap_dflt) full_snapshot).1.1.
Definition full_manifest := (value_of (fst snap_dflt) full_snapshot).1.2.
Definition full_cas := (value_of (fst snap_dflt) full_snapshot).2.

Lemma full_snapshot_ok : snapshot_dir ∅ edited (20 * second) = Ok (full_root, full_manifest, full_cas).
Proof. apply (value_of_ok_triple (fst snap_dflt) full_snapshot). vm_compute. reflexivity. Qed.

Lemma edit_honest : honest_clock (10 * second) (script 493) edited.
Proof.
  intros p b m t b' m' t' Hb Ha Hne. cbn in Ha.
  apply lookup_insert_Some in Ha as [[<- [= <- <- <-]]|[Hp Ha]].
  - vm_compute. reflexivity.
  - cbn in Hb. rewrite Ha in Hb. congruence.
Qed.

Lemma incremental_snapshot_exact_witness :
  second_manifest = full_manifest /\ second_root = full_root
  /\ second_manifest = tree_manifest (ws edited).
Proof.
  exact (incremental_snapshot_exact ∅ (script 493) (10 * second) first_root first_manifest first_cas
           first_cache first_cas edited (20 * second) second_root second_manifest second_cas
           second_cache ∅ full_root full_manifest full_cas (script_clean 493) edited_clean
           edit_honest first_snapshot_ok second_snapshot_ok full_snapshot_ok).
Defined.

Definition manifest (mode : Z) : gmap string ManifestEntry :=
  {[ "bin/run.sh" := mkEntry (hash_bytes "echo hi") mode ]}.

(** A parser that knows the two demo manifests. *)
#[local] Instance manifest_serde : ManifestSerde :=
  {| manifest_of_slice s :=
       if bool_decide (s = canonical_json (manifest_to_value (manifest 493))) then Ok (manifest 493)
       else if bool_decide (s = canonical_json (manifest_to_value (manifest 420)))
       then Ok (manifest 420) else Err "unknown" |}.

Definition both_cas : gmap string string :=
  match manifest_store first_cas (manifest 420) with Ok (_, c) => c | Err _ => ∅ end.
Definition root_644 : string := hash_bytes (canonical_json (manifest_to_value (manifest 420))).

Definition dirty : Fs :=
  mkFs (<[["junk"] := FFile "x" 420 second]> (ws (script 493))) ∅.

(** Over the edited workspace, with the cache of the first snapshot: [run.sh] is written anew. *)
Definition restored := materialize_with_cache both_cas root_644 edited first_cache (11 * second) (12 * second).
Definition restored_fs : Fs := (value_of (dirty, cache_default) restored).1.
Definition restored_cache : StatCache := (value_of (dirty, cache_default) restored).2.
Definition resnapshot := snapshot_dir_with_cache ∅ restored_fs restored_cache (20 * second).

Lemma restored_ok :
  materialize_with_cache both_cas root_644 edited first_cache (11 * second) (12 * second)
  = Ok (restored_fs, restored_cache).
Proof. apply (value_of_ok_pair (dirty, cache_default) restored). vm_compute. reflexivity. Qed.

Definition new_root := (value_of snap_dflt resnapshot).1.1.1.
Definition new_manifest := (value_of snap_dflt resnapshot).1.1.2.
Definition new_cas := (value_of snap_dflt resnapshot).1.2.
Definition new_cache := (value_of snap_dflt resnapshot).2.

Lemma resnapshot_ok :
  snapshot_dir_with_cache ∅ restored_fs restored_cache (20 * second) = Ok (new_root, new_manifest, new_cas, new_cache).
Proof. apply (value_of_ok_quad snap_dflt resnapshot). vm_compute. reflexivity. Qed.

Lemma manifest_644_loads : manifest_load both_cas root_644 = Ok (manifest 420).
Proof. vm_compute. reflexivity. Qed.

Lemma manifest_644_ok : manifest_ok (manifest 420).
Proof.
  intros rel e He. unfold manifest in He. apply lookup_singleton_Some in He as [<- <-].
  split_and!; try (vm_compute; reflexivity). split; [vm_compute; congruence|].
  vm_compute. by repeat constructor.
Qed.

Lemma edited_no_links p t : ws edited !! p <> Some (FLink t).
Proof.
  intros Hp. cbn in Hp. rewrite !lookup_insert_Some, lookup_empty in Hp.
  destruct Hp as [[_ ?]|[_ [[_ ?]|[_ [[_ ?]|[_ ?]]]]]]; done.
Qed.

Lemma first_cache_coherent : coherent first_cache (map_to_list (ws edited)).
Proof.
  destruct (snapshot_spec _ _ _ _ _ _ _ _ (script_clean 493) (coherent_default _) first_snapshot_ok) as (_ & _ & ->).
  apply cache_coherent_later; [apply script_clean|apply edited_clean|apply edit_honest].
Qed.

Lemma materialize_roundtrip_witness : new_manifest = manifest 420 /\ new_root = root_644.
Proof.
  destruct (materialize_roundtrip both_cas root_644 (manifest 420) edited first_cache (11 * second)
              (12 * second) restored_fs restored_cache ∅ (20 * second) new_root new_manifest new_cas new_cache
              manifest_644_loads eq_refl manifest_644_ok edited_clean first_cache_coherent
              (fun p t _ => edited_no_links p t) restored_ok resnapshot_ok) as (_ & _ & Hroot & _).
  apply Hroot. intros rel e b md t He Hu. exfalso. unfold manifest in He.
  apply lookup_singleton_Some in He as [<- <-].
  vm_compute in Hu. done.
Defined.

Definition one_put := put ∅ "echo hi".
Definition put_hash := (value_of (EmptyString, ∅) one_put).1.
Definition put_cas := (value_of (EmptyString, ∅) one_put).2.

Lemma one_put_ok : put ∅ "echo hi" = Ok (put_hash, put_cas).
Proof. apply (value_of_ok_pair (EmptyString, ∅) one_put). vm_compute. reflexivity. Qed.

Lemma empty_cas_ok : cas_ok ∅.
Proof. intros p b Hp. by rewrite lookup_empty in Hp. Qed.

Lemma cas_roundtrip_witness :
  cas_ok put_cas /\ (cas_get put_cas put_hash = Ok "echo hi" \/ sha256_collision).
Proof.
  destruct (cas_roundtrip ∅ put_cas ∅ EmptyString EmptyString EmptyString "echo hi" put_hash)
    as [_ Hput].
  exact (conj (proj1 (Hput empty_cas_ok one_put_ok))
              (proj1 (proj2 (Hput empty_cas_ok one_put_ok)))).
Defined.

(** Re-materializing over a warm cache does not restore modes: the workspace holds
    [run.sh] with mode 755 and a trusted cache entry for its content; materializing a
    state with the same content and mode 644 succeeds and leaves mode 755 in place. *)
Theorem warm_materialize_keeps_mode :
  match materialize_with_cache both_cas root_644 (script 493) first_cache
          (11 * second) (12 * second) with
  | Ok (fs', _) =>
      tree_manifest (ws fs') !! "bin/run.sh" = Some (mkEntry (hash_bytes "echo hi") 493)
      /\ manifest 420 !! "bin/run.sh" = Some (mkEntry (hash_bytes "echo hi") 420)
  | Err _ => False
  end.
Proof. vm_compute. done. Qed.

(** Materializing writes through a symbolic link left at a manifest path:
    [remove_stale] keeps the link, since its path is in the manifest, and the write
    follows it to a file outside the workspace. *)
Theorem materialize_follows_link :
  match materialize both_cas root_644
          (mkFs {[ ["bin"; "run.sh"] := FLink "/etc/victim" ]}
             {[ "/etc/victim" := ("secret", 0) ]}) (11 * second) (12 * second) with
  | Ok fs' => fst <$> outside fs' !! "/etc/victim" = Some "echo hi"
  | Err _ => False
  end.
Proof. vm_compute. done. Qed.
End SnapshotDemo.
