(* ===== verification/Dag.v ===== *)
(** The world-state DAG store: [kernel/state_dag/src/dag.rs].

    The SQLite tables are [gmap]s keyed by their primary keys; the [node_json]
    column holds the [StateNode] it decodes to.  Generated ids and the clock
    readings are arguments, an [INSERT] of a taken primary key is SQLite's
    error, and a transaction that fails leaves the tables as they were.  Every
    operation that writes returns its result with the new store.  A workspace
    directory is passed as its contents ([Fs]) with its path, which keys the
    stat caches.  The breadth-first loops carry fuel; one unit per queue entry
    is enough, and the fuel given is never used up on a well-formed store. *)

From S2P Require Import Prelude Json Budget Capability Types Canonical Effect Snapshot.

Open Scope Z_scope.

(** * Data *)

Inductive BranchStatus : Type := Active | Discarded | Merged.

#[export] Instance BranchStatus_eq_dec : EqDecision BranchStatus.
Proof. solve_decision. Defined.

Definition status_str (s : BranchStatus) : string :=
  match s with Active => "active" | Discarded => "discarded" | Merged => "merged" end.

Definition status_parse (s : string) : KernelResult BranchStatus :=
  if String.eqb s "active" then Ok Active
  else if String.eqb s "discarded" then Ok Discarded
  else if String.eqb s "merged" then Ok Merged
  else Err (Storage ("unknown branch status `" +:+ s +:+ "`")).

Record Branch := mkBranch {
  b_id : string;
  b_episode : string;
  base_state : string;
  head : string;
  b_status : BranchStatus;
}.

Record BranchRow := mkBranchRow {
  br_id : string;
  br_episode : string;
  br_base_state : string;
  br_head : string;
  br_status : string;
  br_created_at : DateTime;
}.

Record EpisodeRecord := mkEpisode {
  ep_id : string;
  root_state : string;
  root_branch : string;
  created_by : string;
  objective : string;
  ep_created_at : DateTime;
}.

Record BranchComparison := mkComparison {
  cmp_base : string;
  changed_in_a : list FileChange;
  changed_in_b : list FileChange;
}.

Record EpisodeHandle := mkHandle {
  h_episode : string;
  h_branch : string;
  h_root : StateNode;
}.

Record GcReport := mkGcReport {
  blobs_removed : nat;
  states_removed : nat;
}.

Record StateDag := mkDag {
  episodes : gmap string EpisodeRecord;
  states : gmap string StateNode;
  branches : gmap string BranchRow;
  dag_cas : gmap string string;
  stat_caches : gmap string StatCache;
}.

Definition dag_init (cas : gmap string string) : StateDag := mkDag ∅ ∅ ∅ cas ∅.

Definition set_cas (d : StateDag) (cas : gmap string string) : StateDag :=
  mkDag (episodes d) (states d) (branches d) cas (stat_caches d).

(** The fresh values one operation draws: ids and the wall clock. *)
Record Fresh := mkFresh {
  fresh_episode : string;
  fresh_branch : string;
  fresh_state : string;
  fresh_now : DateTime;
}.

(** * Rows *)

Definition sql_unique (column : string) : KernelError :=
  Storage ("sqlite: UNIQUE constraint failed: " +:+ column).

Definition insert_row_once {A} (table : gmap string A) (key : string) (row : A) (column : string)
    : KernelResult (gmap string A) :=
  match table !! key with
  | Some _ => Err (sql_unique column)
  | None => Ok (<[key := row]> table)
  end.

Definition ensure_active (b : Branch) : KernelResult () :=
  match b_status b with
  | Active => Ok tt
  | Discarded | Merged => Err (BranchDiscarded (b_id b))
  end.

Definition insert_state (sts : gmap string StateNode) (node : StateNode)
    : KernelResult (gmap string StateNode) :=
  insert_row_once sts (node_id node) node "states.id".

Definition load_state (sts : gmap string StateNode) (id : string) : KernelResult StateNode :=
  ok_or (sts !! id) (NotFound "state" id).

Definition branch_of_row (r : BranchRow) : KernelResult Branch :=
  status ← status_parse (br_status r);
  Ok (mkBranch (br_id r) (br_episode r) (br_base_state r) (br_head r) status).

Definition load_branch (brs : gmap string BranchRow) (id : string) : KernelResult Branch :=
  row ← ok_or (brs !! id) (NotFound "branch" id); branch_of_row row.

(** [UPDATE ... WHERE id]: no effect without a row. *)
Definition set_head (brs : gmap string BranchRow) (branch h : string) : gmap string BranchRow :=
  alter (fun r => mkBranchRow (br_id r) (br_episode r) (br_base_state r) h (br_status r)
                    (br_created_at r)) branch brs.

Definition set_status (brs : gmap string BranchRow) (branch : string) (s : BranchStatus)
    : gmap string BranchRow :=
  alter (fun r => mkBranchRow (br_id r) (br_episode r) (br_base_state r) (br_head r)
                    (status_str s) (br_created_at r)) branch brs.

(** * Reads *)

Definition get_state (d : StateDag) (id : string) : KernelResult StateNode := load_state (states d) id.

Definition get_branch (d : StateDag) (id : string) : KernelResult Branch := load_branch (branches d) id.

(** [ORDER BY created_at, id]. *)
Definition created_order {A} (t : A -> DateTime) (i : A -> string) (x y : A) : Prop :=
  t x < t y \/ t x = t y /\ String.le (i x) (i y).

#[export] Instance created_order_dec {A} (t : A -> DateTime) (i : A -> string) :
  RelDecision (created_order t i).
Proof. unfold created_order. intros x y. apply _. Defined.

Definition list_episodes (d : StateDag) : list EpisodeRecord :=
  merge_sort (created_order ep_created_at ep_id) (map_to_list (episodes d)).*2.

Fixpoint traverse {A B} (f : A -> KernelResult B) (l : list A) : KernelResult (list B) :=
  match l with
  | [] => Ok []
  | a :: l' => b ← f a; bs ← traverse f l'; Ok (b :: bs)
  end.

Definition branches_of (d : StateDag) (episode : string) : KernelResult (list Branch) :=
  traverse branch_of_row
    (merge_sort (created_order br_created_at br_id)
       (filter (fun r => br_episode r = episode) (map_to_list (branches d)).*2)).

Definition branch_head (d : StateDag) (branch : string) : KernelResult StateNode :=
  b ← get_branch d branch; get_state d (head b).

(** * Ancestors *)

Definition parents_of (n : StateNode) : list string :=
  option_list (node_parent n) ++ option_list (merge_parent n).

(** The breadth-first walk [lca] and [gc] share: [visit] is what is done with
    each node reached for the first time. *)
Fixpoint mark_loop {A} (visit : StateNode -> A -> KernelResult A) (fuel : nat)
    (sts : gmap string StateNode) (seen : gset string) (acc : A) (queue : list string)
    : KernelResult (gset string * A) :=
  match fuel with
  | O => Err (Storage "out of fuel")
  | S fuel' =>
      match queue with
      | [] => Ok (seen, acc)
      | id :: q =>
          if decide (id ∈ seen) then mark_loop visit fuel' sts seen acc q
          else
            n ← load_state sts id;
            acc' ← visit n acc;
            mark_loop visit fuel' sts ({[id]} ∪ seen) acc' (q ++ parents_of n)
      end
  end.

Definition mark_fuel (sts : gmap string StateNode) (queue : list string) : nat :=
  S (length queue + 2 * size sts).

(** The second walk of [lca]: the first node met that is in [targets]. *)
Fixpoint search_loop (fuel : nat) (sts : gmap string StateNode) (targets seen : gset string)
    (queue : list string) : KernelResult (option string) :=
  match fuel with
  | O => Err (Storage "out of fuel")
  | S fuel' =>
      match queue with
      | [] => Ok None
      | id :: q =>
          if decide (id ∈ targets) then Ok (Some id)
          else if decide (id ∈ seen) then search_loop fuel' sts targets seen q
          else
            n ← load_state sts id;
            search_loop fuel' sts targets ({[id]} ∪ seen) (q ++ parents_of n)
      end
  end.

Definition ancestors (sts : gmap string StateNode) (a : string) : KernelResult (gset string) :=
  r ← mark_loop (fun _ u => Ok u) (mark_fuel sts [a]) sts ∅ tt [a]; Ok r.1.

Definition lca (d : StateDag) (a b : string) : KernelResult string :=
  ancestors_a ← ancestors (states d) a;
  found ← search_loop (mark_fuel (states d) [b]) (states d) ancestors_a ∅ [b];
  ok_or found (Storage ("states " +:+ a +:+ " and " +:+ b +:+ " share no common ancestor")).

(** * Three-way merge of manifests *)

(** [None] is a conflict; [Some None] leaves the path out. *)
Definition choose_entry (b t s : option ManifestEntry) : option (option ManifestEntry) :=
  if decide (t = s) then Some t
  else if decide (s = b) then Some t
  else if decide (t = b) then Some s
  else None.

Definition all_paths (base_m tgt_m src_m : gmap string ManifestEntry) : list string :=
  merge_sort String.le (elements (dom base_m ∪ dom tgt_m ∪ dom src_m)).

Fixpoint merge_paths (base_m tgt_m src_m : gmap string ManifestEntry) (paths : list string)
    (merged : gmap string ManifestEntry) (conflicts : list string)
    : gmap string ManifestEntry * list string :=
  match paths with
  | [] => (merged, conflicts)
  | p :: rest =>
      match choose_entry (base_m !! p) (tgt_m !! p) (src_m !! p) with
      | None => merge_paths base_m tgt_m src_m rest merged (conflicts ++ [p])
      | Some None => merge_paths base_m tgt_m src_m rest merged conflicts
      | Some (Some entry) => merge_paths base_m tgt_m src_m rest (<[p := entry]> merged) conflicts
      end
  end.

Definition merge_manifests (base_m tgt_m src_m : gmap string ManifestEntry)
    : gmap string ManifestEntry * list string :=
  merge_paths base_m tgt_m src_m (all_paths base_m tgt_m src_m) ∅ [].

(** * Operations *)

Section dag.
Context `{!Serde, !Sha256, !ManifestSerde}.

Definition take_stat_cache (d : StateDag) (dir : string) : StatCache :=
  default cache_default (stat_caches d !! dir).

Definition put_stat_cache (d : StateDag) (dir : string) (cache : StatCache) : StateDag :=
  mkDag (episodes d) (states d) (branches d) (dag_cas d) (<[dir := cache]> (stat_caches d)).

Definition root_node (f : Fresh) (actor root : string) (rc : ReplayClass) : StateNode :=
  {| node_id := fresh_state f; node_episode := fresh_episode f; node_branch := fresh_branch f;
     node_parent := None; produced_by := None; merge_parent := None; node_actor := actor;
     node_delta := delta_default; workspace_root := root; node_replay_class := rc;
     created_at := fresh_now f |}.

Definition create_rows (d : StateDag) (f : Fresh) (root : StateNode) (objective : string)
    : KernelResult StateDag :=
  eps ← insert_row_once (episodes d) (fresh_episode f)
          (mkEpisode (fresh_episode f) (node_id root) (fresh_branch f) (node_actor root) objective
             (fresh_now f)) "episodes.id";
  sts ← insert_state (states d) root;
  brs ← insert_row_once (branches d) (fresh_branch f)
          (mkBranchRow (fresh_branch f) (fresh_episode f) (node_id root) (node_id root)
             (status_str Active) (fresh_now f)) "branches.id";
  Ok (mkDag eps sts brs (dag_cas d) (stat_caches d)).

Definition create_episode (d : StateDag) (f : Fresh) (actor : string) (workspace : option Fs)
    (started : Z) (rc : ReplayClass) (objective : string) : KernelResult EpisodeHandle * StateDag :=
  match match workspace with
        | Some dir => r ← snapshot_dir (dag_cas d) dir started; Ok (r.1.1, r.2)
        | None => manifest_store (dag_cas d) ∅
        end with
  | Err e => (Err e, d)
  | Ok (root_hash, cas') =>
      let d' := set_cas d cas' in
      let root := root_node f actor root_hash rc in
      match create_rows d' f root objective with
      | Err e => (Err e, d')
      | Ok d'' => (Ok (mkHandle (fresh_episode f) (fresh_branch f) root), d'')
      end
  end.

(** The transaction of [append_step] and [merge]: insert the node, move the head. *)
Definition append_node (d : StateDag) (branch : string) (node : StateNode) : KernelResult StateDag :=
  sts ← insert_state (states d) node;
  Ok (mkDag (episodes d) sts (set_head (branches d) branch (node_id node)) (dag_cas d)
        (stat_caches d)).

Definition append_step (d : StateDag) (f : Fresh) (branch step actor : string) (delta : StateDelta)
    (root : string) (rc : ReplayClass) : KernelResult (StateNode * StateDag) :=
  present ← contains (dag_cas d) root;
  _ ← fail_if (negb present) (Storage ("workspace root " +:+ root +:+ " is not in the CAS"));
  b ← load_branch (branches d) branch;
  _ ← ensure_active b;
  let node :=
    {| node_id := fresh_state f; node_episode := b_episode b; node_branch := branch;
       node_parent := Some (head b); produced_by := Some step; merge_parent := None;
       node_actor := actor; node_delta := delta; workspace_root := root;
       node_replay_class := rc; created_at := fresh_now f |} in
  d' ← append_node d branch node;
  Ok (node, d').

(** The delta a state records: the files changed and the epoch carried over. *)
Definition file_delta (old new : gmap string ManifestEntry) (epoch : Z) : StateDelta :=
  mkStateDelta (diff_manifests old new) [] [] [] epoch [] [].

Definition snapshot_and_append (d : StateDag) (f : Fresh) (branch step actor dir : string) (fs : Fs)
    (started : Z) (rc : ReplayClass) : KernelResult StateNode * StateDag :=
  match branch_head d branch with
  | Err e => (Err e, d)
  | Ok h =>
      let cache := take_stat_cache d dir in
      match snapshot_dir_with_cache (dag_cas d) fs cache started with
      | Err e => (Err e, put_stat_cache d dir cache)
      | Ok (new_root, new_manifest, cas', cache') =>
          let d' := set_cas (put_stat_cache d dir cache') cas' in
          match (old_manifest ← manifest_load cas' (workspace_root h);
                 append_step d' f branch step actor
                   (file_delta old_manifest new_manifest (delta_policy_epoch (node_delta h)))
                   new_root rc) with
          | Err e => (Err e, d')
          | Ok (node, d'') => (Ok node, d'')
          end
      end
  end.

Definition dag_materialize (d : StateDag) (state target : string) (fs : Fs) (started now : Z)
    : KernelResult Fs * StateDag :=
  match get_state d state with
  | Err e => (Err e, d)
  | Ok node =>
      let cache := take_stat_cache d target in
      match materialize_with_cache (dag_cas d) (workspace_root node) fs cache started now with
      | Err e => (Err e, put_stat_cache d target cache)
      | Ok (fs', cache') => (Ok fs', put_stat_cache d target cache')
      end
  end.

Definition fork (d : StateDag) (f : Fresh) (from : string) : KernelResult (Branch * StateDag) :=
  base ← load_state (states d) from;
  let branch := mkBranch (fresh_branch f) (node_episode base) from from Active in
  brs ← insert_row_once (branches d) (b_id branch)
          (mkBranchRow (b_id branch) (b_episode branch) (base_state branch) (head branch)
             (status_str (b_status branch)) (fresh_now f)) "branches.id";
  Ok (branch, mkDag (episodes d) (states d) brs (dag_cas d) (stat_caches d)).

Definition discard_branch (d : StateDag) (branch : string) : KernelResult StateDag :=
  b ← load_branch (branches d) branch;
  if decide (b_status b = Discarded) then Err (BranchDiscarded branch)
  else Ok (mkDag (episodes d) (states d) (set_status (branches d) branch Discarded) (dag_cas d)
             (stat_caches d)).

Definition manifest_of (d : StateDag) (state : string) : KernelResult (gmap string ManifestEntry) :=
  n ← get_state d state; manifest_load (dag_cas d) (workspace_root n).

Definition diff (d : StateDag) (a b : string) : KernelResult (list FileChange) :=
  na ← get_state d a;
  nb ← get_state d b;
  ma ← manifest_load (dag_cas d) (workspace_root na);
  mb ← manifest_load (dag_cas d) (workspace_root nb);
  Ok (diff_manifests ma mb).

Definition branch_compare (d : StateDag) (a b : string) : KernelResult BranchComparison :=
  ba ← get_branch d a;
  bb ← get_branch d b;
  base ← lca d (head ba) (head bb);
  ca ← diff d base (head ba);
  cb ← diff d base (head bb);
  Ok (mkComparison base ca cb).

(** What [merge] reads before it writes anything: the two branches, the nodes
    at their heads, and the target's and merged manifests. *)
Definition merge_plan (d : StateDag) (target source : string)
    : KernelResult (Branch * Branch * StateNode * StateNode * gmap string ManifestEntry
                    * gmap string ManifestEntry) :=
  _ ← fail_if (String.eqb target source)
        (Storage ("cannot merge branch `" +:+ target +:+ "` into itself"));
  tb ← get_branch d target;
  sb ← get_branch d source;
  _ ← ensure_active tb;
  _ ← ensure_active sb;
  base ← lca d (head tb) (head sb);
  base_n ← get_state d base;
  base_m ← manifest_load (dag_cas d) (workspace_root base_n);
  tgt_node ← get_state d (head tb);
  src_node ← get_state d (head sb);
  tgt_m ← manifest_load (dag_cas d) (workspace_root tgt_node);
  src_m ← manifest_load (dag_cas d) (workspace_root src_node);
  let '(merged, conflicts) := merge_manifests base_m tgt_m src_m in
  _ ← fail_if (negb (bool_decide (conflicts = []))) (MergeConflict conflicts);
  Ok (tb, sb, tgt_node, src_node, tgt_m, merged).

Definition merge_node (f : Fresh) (actor : string) (tb sb : Branch) (tgt_node src_node : StateNode)
    (tgt_m merged : gmap string ManifestEntry) (target root : string) : StateNode :=
  {| node_id := fresh_state f; node_episode := b_episode tb; node_branch := target;
     node_parent := Some (head tb); produced_by := None; merge_parent := Some (head sb);
     node_actor := actor;
     node_delta := file_delta tgt_m merged (delta_policy_epoch (node_delta tgt_node));
     workspace_root := root;
     node_replay_class := replay_min (node_replay_class tgt_node) (node_replay_class src_node);
     created_at := fresh_now f |}.

Definition merge (d : StateDag) (f : Fresh) (target source actor : string)
    : KernelResult StateNode * StateDag :=
  match merge_plan d target source with
  | Err e => (Err e, d)
  | Ok (tb, sb, tgt_node, src_node, tgt_m, merged) =>
      match manifest_store (dag_cas d) merged with
      | Err e => (Err e, d)
      | Ok (root, cas') =>
          let d' := set_cas d cas' in
          let node := merge_node f actor tb sb tgt_node src_node tgt_m merged target root in
          match append_node d' target node with
          | Err e => (Err e, d')
          | Ok d'' =>
              (Ok node, mkDag (episodes d'') (states d'') (set_status (branches d'') source Merged)
                          (dag_cas d'') (stat_caches d''))
          end
      end
  end.

(** * Garbage collection *)

Definition gc_heads (d : StateDag) : list string :=
  map br_head (filter (fun r => br_status r <> "discarded") (map_to_list (branches d)).*2).

Definition gc_visit (cas : gmap string string) (n : StateNode) (live : gset string)
    : KernelResult (gset string) :=
  m ← manifest_load cas (workspace_root n);
  Ok (live ∪ {[workspace_root n]} ∪ list_to_set (map entry_blob (map_to_list m).*2)).

(** The sweep of blobs: [self.cas.remove] for each listed blob that is not live. *)
Fixpoint sweep_blobs (live : gset string) (blobs : list string) (cas : gmap string string)
    (removed : nat) : KernelResult (gmap string string * nat) :=
  match blobs with
  | [] => Ok (cas, removed)
  | h :: rest =>
      if decide (h ∈ live) then sweep_blobs live rest cas removed
      else cas' ← remove cas h; sweep_blobs live rest cas' (S removed)
  end.

Fixpoint sweep_states (live : gset string) (ids : list string) (sts : gmap string StateNode)
    (removed : nat) : gmap string StateNode * nat :=
  match ids with
  | [] => (sts, removed)
  | id :: rest =>
      if decide (id ∈ live) then sweep_states live rest sts removed
      else sweep_states live rest (delete id sts) (S removed)
  end.

Definition gc (d : StateDag) : KernelResult (GcReport * StateDag) :=
  let heads := gc_heads d in
  marked ← mark_loop (gc_visit (dag_cas d)) (mark_fuel (states d) heads) (states d) ∅ ∅ heads;
  let '(live_states, live_blobs) := marked in
  let '(sts, n) := sweep_states live_states (map_to_list (states d)).*1 (states d) 0 in
  swept ← sweep_blobs live_blobs (cas_list (dag_cas d)) (dag_cas d) 0;
  Ok (mkGcReport swept.2 n, mkDag (episodes d) sts (branches d) swept.1 (stat_caches d)).
End dag.

(** * The parent relation *)

(** [p] is a parent of the stored state [c]. *)
Definition edge (sts : gmap string StateNode) (c p : string) : Prop :=
  exists n, sts !! c = Some n /\ p ∈ parents_of n.

(** [y] is [x] or one of its ancestors. *)
Abbreviation ancestor sts x y := (rtc (edge sts) x y) (only parsing).

Definition parent_closed (sts : gmap string StateNode) : Prop :=
  forall c p, edge sts c p -> is_Some (sts !! p).

Definition acyclic (sts : gmap string StateNode) : Prop :=
  exists rank : string -> nat, forall c p, edge sts c p -> (rank p < rank c)%nat.

Lemma parents_of_length n : (length (parents_of n) <= 2)%nat.
Proof. unfold parents_of. by destruct (node_parent n), (merge_parent n); cbn; lia. Qed.

Lemma ancestor_stored sts x y : parent_closed sts -> is_Some (sts !! x) -> ancestor sts x y ->
  is_Some (sts !! y).
Proof. intros Hcl Hx [->|(z & _ & Hz)]%rtc_inv_r; [done|]. by eapply Hcl. Qed.

Section loop_lemmas.
Context (sts : gmap string StateNode).
Implicit Types (seen targets : gset string) (queue : list string).

(** Every parent of a seen state is seen or still queued. *)
Definition frontier seen queue : Prop :=
  forall c p, c ∈ seen -> edge sts c p -> p ∈ seen \/ p ∈ queue.

Lemma frontier_skip seen id q : id ∈ seen -> frontier seen (id :: q) -> frontier seen q.
Proof. intros Hid Hf c p Hc He. destruct (Hf c p Hc He) as [|[->|]%elem_of_cons]; auto. Qed.

Lemma frontier_visit seen id q n :
  sts !! id = Some n -> frontier seen (id :: q) -> frontier ({[id]} ∪ seen) (q ++ parents_of n).
Proof.
  intros Hn Hf c p Hc He. destruct (decide (c = id)) as [->|Hne].
  - destruct He as (n' & Hn' & Hp). right. apply elem_of_app. right. congruence.
  - destruct (Hf c p ltac:(set_solver) He); set_solver.
Qed.

Lemma frontier_closed seen x y : frontier seen [] -> x ∈ seen -> ancestor sts x y -> y ∈ seen.
Proof.
  intros Hf Hx Hr. induction Hr as [|x z y Hxz _ IH]; [done|]. apply IH.
  destruct (Hf x z Hx Hxz) as [|[]%elem_of_nil]; done.
Qed.

(** Queued states come from the sources. *)
Definition sourced (src : list string) queue : Prop :=
  forall x, x ∈ queue -> exists s, s ∈ src /\ ancestor sts s x.

Lemma sourced_visit src id q n :
  sts !! id = Some n -> sourced src (id :: q) -> sourced src (q ++ parents_of n).
Proof.
  intros Hn Hs x [Hx|Hx]%elem_of_app; [apply Hs; by right|].
  destruct (Hs id) as (s & Hs' & Hr); [left|]. exists s. split; [done|].
  eapply rtc_r; [done|]. by exists n.
Qed.

Lemma unvisited_shrinks seen id : is_Some (sts !! id) -> id ∉ seen ->
  (size (dom sts ∖ ({[id]} ∪ seen)) < size (dom sts ∖ seen))%nat.
Proof.
  intros Hid Hn. apply subset_size. split; [set_solver|]. intros Hsub.
  apply elem_of_dom in Hid. set_solver.
Qed.

Section mark.
Context {A : Type} (visit : StateNode -> A -> KernelResult A).

(** A successful walk marks exactly the ancestors of the queue; [I] is an
    invariant of the accumulator. *)
Lemma mark_loop_spec (I : gset string -> A -> Prop) src fuel seen acc queue seen' acc' :
  (forall id n s a a', sts !! id = Some n -> id ∉ s -> I s a -> visit n a = Ok a' -> I ({[id]} ∪ s) a') ->
  frontier seen queue -> sourced src queue -> sourced src (elements seen) -> I seen acc ->
  mark_loop visit fuel sts seen acc queue = Ok (seen', acc') ->
  frontier seen' [] /\ (forall x, x ∈ seen \/ x ∈ queue -> x ∈ seen')
  /\ sourced src (elements seen') /\ I seen' acc'.
Proof.
  intros HI. revert seen acc queue. induction fuel as [|fuel IH]; intros seen acc queue Hf Hq Hs Ha;
    cbn [mark_loop]; [done|].
  destruct queue as [|id q].
  { intros [= <- <-]. split_and!; try done. intros x [|[]%elem_of_nil]; done. }
  destruct (decide (id ∈ seen)) as [Hid|Hid].
  - intros Hm. apply IH in Hm as (? & Hin & ? & ?); try done.
    + split_and!; try done. intros x Hx. apply Hin. set_solver.
    + by eapply frontier_skip.
    + intros x Hx. apply Hq. by right.
  - intros Hm. apply bind_Ok in Hm as (n & Hn%ok_or_Ok & Hm).
    apply bind_Ok in Hm as (a' & Hv & Hm). apply IH in Hm as (? & Hin & ? & ?).
    + split_and!; try done. intros x Hx. apply Hin. set_solver.
    + by apply frontier_visit.
    + by eapply sourced_visit.
    + intros x Hx. rewrite elem_of_elements in Hx. apply elem_of_union in Hx as [->%elem_of_singleton|Hx].
      * apply Hq. left.
      * apply Hs. by apply elem_of_elements.
    + by eapply HI.
Qed.

(** The walk finishes within its fuel. *)
Lemma mark_loop_total src fuel seen acc queue :
  parent_closed sts -> (forall x, x ∈ src -> is_Some (sts !! x)) -> sourced src queue ->
  (forall id n a, sts !! id = Some n -> (exists s, s ∈ src /\ ancestor sts s id) ->
     exists a', visit n a = Ok a') ->
  (length queue + 2 * size (dom sts ∖ seen) < fuel)%nat ->
  exists r, mark_loop visit fuel sts seen acc queue = Ok r.
Proof.
  intros Hcl Hsrc Hq Hv. revert seen acc queue Hq.
  induction fuel as [|fuel IH]; intros seen acc queue Hq Hfuel; [lia|]. cbn [mark_loop].
  destruct queue as [|id q]; [by eexists|]. cbn [length] in Hfuel.
  assert (sourced src q) as Hq' by (intros x Hx; apply Hq; by right).
  destruct (decide (id ∈ seen)) as [Hid|Hid]; [apply IH; [done|lia]|].
  destruct (Hq id) as (s & Hs & Hr); [left|].
  destruct (ancestor_stored _ _ _ Hcl (Hsrc s Hs) Hr) as [n Hn].
  unfold load_state. rewrite Hn. cbn [ok_or mbind result_bind].
  destruct (Hv id n acc Hn ltac:(eauto)) as [a' ->]. cbn [mbind result_bind].
  apply IH; [by eapply sourced_visit|].
  pose proof (unvisited_shrinks seen id ltac:(by eexists) Hid).
  pose proof (parents_of_length n). rewrite length_app. lia.
Qed.
End mark.

(** ** The search *)

Lemma search_loop_spec src targets fuel seen queue r :
  frontier seen queue -> sourced src queue ->
  (forall x, x ∈ seen -> x ∉ targets) ->
  search_loop fuel sts targets seen queue = Ok r ->
  match r with
  | Some c => c ∈ targets /\ exists s, s ∈ src /\ ancestor sts s c
  | None => forall x y, x ∈ seen \/ x ∈ queue -> ancestor sts x y -> y ∉ targets
  end.
Proof.
  revert seen queue. induction fuel as [|fuel IH]; intros seen queue Hf Hq Hs; cbn [search_loop]; [done|].
  destruct queue as [|id q].
  { intros [= <-] x y [Hx|[]%elem_of_nil] Hr. apply Hs. by eapply frontier_closed. }
  destruct (decide (id ∈ targets)) as [Ht|Ht].
  { intros [= <-]. split; [done|]. apply Hq. left. }
  destruct (decide (id ∈ seen)) as [Hid|Hid].
  - intros Hm. apply IH in Hm; [|by eapply frontier_skip|intros x Hx; apply Hq; by right|done].
    destruct r; [done|]. intros x y Hx. apply Hm. set_solver.
  - intros Hm. apply bind_Ok in Hm as (n & Hn%ok_or_Ok & Hm).
    apply IH in Hm; [|by apply frontier_visit|by eapply sourced_visit|set_solver].
    destruct r; [done|]. intros x y Hx. apply Hm. set_solver.
Qed.

Lemma search_loop_total src targets fuel seen queue :
  parent_closed sts -> (forall x, x ∈ src -> is_Some (sts !! x)) -> sourced src queue ->
  (length queue + 2 * size (dom sts ∖ seen) < fuel)%nat ->
  exists r, search_loop fuel sts targets seen queue = Ok r.
Proof.
  intros Hcl Hsrc. revert seen queue.
  induction fuel as [|fuel IH]; intros seen queue Hq Hfuel; [lia|]. cbn [search_loop].
  destruct queue as [|id q]; [by eexists|]. cbn [length] in Hfuel.
  destruct (decide (id ∈ targets)) as [|Ht]; [by eexists|].
  assert (sourced src q) as Hq' by (intros x Hx; apply Hq; by right).
  destruct (decide (id ∈ seen)) as [Hid|Hid]; [apply IH; [done|lia]|].
  destruct (Hq id) as (s & Hs & Hr); [left|].
  destruct (ancestor_stored _ _ _ Hcl (Hsrc s Hs) Hr) as [n Hn].
  unfold load_state. rewrite Hn. cbn [ok_or mbind result_bind].
  apply IH; [by eapply sourced_visit|].
  pose proof (unvisited_shrinks seen id ltac:(by eexists) Hid).
  pose proof (parents_of_length n). rewrite length_app. lia.
Qed.

(** On a history without merges the search meets the lowest target. *)
Lemma search_loop_linear targets fuel seen q c x :
  (forall y n, ancestor sts q y -> sts !! y = Some n -> merge_parent n = None) ->
  search_loop fuel sts targets seen [q] = Ok (Some c) ->
  x ∈ targets -> ancestor sts q x -> ancestor sts c x.
Proof.
  revert seen q. induction fuel as [|fuel IH]; intros seen q Hlin; cbn [search_loop]; [done|].
  destruct (decide (q ∈ targets)) as [|Ht]; [by intros [= ->]|].
  destruct (decide (q ∈ seen)) as [|Hs]; [by destruct fuel|].
  intros Hm Hx Hr. apply bind_Ok in Hm as (n & Hn%ok_or_Ok & Hm).
  assert (exists p, parents_of n = [p] /\ ancestor sts p x) as (p & Hp & Hpx).
  { destruct (rtc_inv _ _ Hr) as [->|(p & (n' & Hn' & Hp) & Hpx)]; [done|].
    rewrite Hn in Hn'. injection Hn' as <-. exists p. split; [|done].
    pose proof (Hlin q n (rtc_refl _ _) Hn) as Hmp. unfold parents_of in *. rewrite Hmp in *.
    rewrite app_nil_r in *. destruct (node_parent n); cbn in *; set_solver. }
  rewrite Hp in Hm. cbn [app] in Hm. eapply IH; [|exact Hm|done|done].
  intros y m Hy. apply Hlin. eapply rtc_l; [|done]. exists n. rewrite Hp. set_solver.
Qed.
End loop_lemmas.

(** A state's ancestor walk succeeds and marks exactly its ancestors. *)
Lemma ancestors_spec sts a : parent_closed sts -> is_Some (sts !! a) ->
  exists anc, ancestors sts a = Ok anc /\ forall x, x ∈ anc <-> ancestor sts a x.
Proof.
  intros Hcl Ha.
  assert (sourced sts [a] [a]) as Hsrc by (intros x ->%list_elem_of_singleton; exists a; split; [left|done]).
  destruct (mark_loop_total sts (fun _ u => Ok u) [a] (mark_fuel sts [a]) ∅ tt [a] Hcl) as [[anc u] Hm].
  - by intros x ->%list_elem_of_singleton.
  - done.
  - intros id n [] _ _. by eexists.
  - unfold mark_fuel. cbn. rewrite difference_empty_L, size_dom. lia.
  - unfold ancestors. rewrite Hm. exists anc. split; [done|].
    destruct (mark_loop_spec sts (fun _ u => Ok u) (fun _ _ => True) [a] (mark_fuel sts [a]) ∅ tt [a]
                anc u) as (Hf & Hin & Hs & _).
    + done.
    + intros c p Hc. set_solver.
    + exact Hsrc.
    + intros x Hx. rewrite elements_empty in Hx. by apply elem_of_nil in Hx.
    + done.
    + exact Hm.
    + intros x. split.
      * intros Hx. destruct (Hs x) as (s & ->%list_elem_of_singleton & Hr); [by apply elem_of_elements|done].
      * apply frontier_closed; [done|]. apply Hin. right. left.
Qed.

(** * Three-way merge *)

Definition conflicting (b t s : option ManifestEntry) : Prop := t <> s /\ s <> b /\ t <> b.

#[export] Instance conflicting_dec b t s : Decision (conflicting b t s).
Proof. unfold conflicting. apply _. Defined.

Lemma choose_entry_conflict b t s : choose_entry b t s = None <-> conflicting b t s.
Proof. unfold choose_entry, conflicting. repeat case_decide; split; intros; try done; tauto. Qed.

Lemma choose_entry_Some b t s o : choose_entry b t s = Some o ->
  (s <> b -> o = s) /\ (t <> b -> o = t) /\ (s = b -> t = b -> o = b).
Proof.
  unfold choose_entry. repeat case_decide; intros [= <-]; subst; split_and!; intros; congruence.
Qed.

Section merge_lemmas.
Context (base_m tgt_m src_m : gmap string ManifestEntry).

Lemma merge_paths_spec paths merged conflicts merged' conflicts' :
  NoDup paths -> (forall p, p ∈ paths -> merged !! p = None) ->
  merge_paths base_m tgt_m src_m paths merged conflicts = (merged', conflicts') ->
  conflicts' = conflicts ++ filter (fun p => conflicting (base_m !! p) (tgt_m !! p) (src_m !! p)) paths
  /\ forall p, merged' !! p =
       if decide (p ∈ paths)
       then default None (choose_entry (base_m !! p) (tgt_m !! p) (src_m !! p))
       else merged !! p.
Proof.
  revert merged conflicts. induction paths as [|q paths IH]; intros merged conflicts Hnd Hfresh;
    cbn [merge_paths].
  { intros [= <- <-]. rewrite app_nil_r. done. }
  apply NoDup_cons in Hnd as [Hq Hnd]. rewrite filter_cons.
  destruct (choose_entry (base_m !! q) (tgt_m !! q) (src_m !! q)) as [[e|]|] eqn:Ec; intros Hm.
  - apply IH in Hm as [-> Hl]; [|done|].
    + rewrite decide_False by (rewrite <- choose_entry_conflict; congruence). split; [done|].
      intros p. rewrite Hl. destruct (decide (p = q)) as [->|Hne].
      * rewrite decide_False, decide_True, lookup_insert_eq, Ec by (done || left). done.
      * rewrite lookup_insert_ne by done. by repeat case_decide; set_solver.
    + intros p Hp. rewrite lookup_insert_ne by congruence. apply Hfresh. by right.
  - apply IH in Hm as [-> Hl]; [|done|intros p Hp; apply Hfresh; by right].
    rewrite decide_False by (rewrite <- choose_entry_conflict; congruence). split; [done|].
    intros p. rewrite Hl. destruct (decide (p = q)) as [->|Hne].
    + rewrite decide_False, decide_True, Ec by (done || left). apply Hfresh. left.
    + by repeat case_decide; set_solver.
  - apply IH in Hm as [-> Hl]; [|done|intros p Hp; apply Hfresh; by right].
    rewrite decide_True by by apply choose_entry_conflict.
    split; [by rewrite <- app_assoc|].
    intros p. rewrite Hl. destruct (decide (p = q)) as [->|Hne].
    + rewrite decide_False, decide_True, Ec by (done || left). apply Hfresh. left.
    + by repeat case_decide; set_solver.
Qed.

Lemma all_paths_elem p :
  p ∈ all_paths base_m tgt_m src_m <-> is_Some (base_m !! p) \/ is_Some (tgt_m !! p) \/ is_Some (src_m !! p).
Proof.
  unfold all_paths. rewrite merge_sort_Permutation, elem_of_elements, !elem_of_union, !elem_of_dom. tauto.
Qed.

Lemma all_paths_nodup : NoDup (all_paths base_m tgt_m src_m).
Proof. unfold all_paths. rewrite merge_sort_Permutation. apply NoDup_elements. Qed.

Lemma merge_manifests_spec merged conflicts :
  merge_manifests base_m tgt_m src_m = (merged, conflicts) ->
  (forall p, p ∈ conflicts <-> conflicting (base_m !! p) (tgt_m !! p) (src_m !! p))
  /\ (forall p, merged !! p = default None (choose_entry (base_m !! p) (tgt_m !! p) (src_m !! p))).
Proof.
  unfold merge_manifests. intros Hm.
  apply merge_paths_spec in Hm as [-> Hl]; [|apply all_paths_nodup|intros; apply lookup_empty].
  split.
  - intros p. cbn. rewrite list_elem_of_filter, all_paths_elem. split; [tauto|]. intros Hc.
    split; [done|]. destruct (base_m !! p), (tgt_m !! p), (src_m !! p); eauto. by destruct Hc.
  - intros p. rewrite Hl. case_decide as Hp; [done|]. rewrite all_paths_elem in Hp.
    rewrite lookup_empty. destruct (base_m !! p) eqn:?, (tgt_m !! p) eqn:?, (src_m !! p) eqn:?;
      try done; exfalso; eauto.
Qed.
End merge_lemmas.

(** * Garbage collection *)

Section gc_lemmas.
Context `{!Serde, !Sha256, !ManifestSerde}.

(** A state some branch that is not discarded can still reach. *)
Definition live_state (d : StateDag) (x : string) : Prop :=
  exists h, h ∈ gc_heads d /\ ancestor (states d) h x.

(** The blobs one state needs: its manifest and the files in it. *)
Definition blob_of_state (cas : gmap string string) (n : StateNode) (h : string) : Prop :=
  exists m, manifest_load cas (workspace_root n) = Ok m
    /\ (h = workspace_root n \/ exists rel e, m !! rel = Some e /\ h = entry_blob e).

Definition live_blob (d : StateDag) (h : string) : Prop :=
  exists x n, live_state d x /\ states d !! x = Some n /\ blob_of_state (dag_cas d) n h.

Lemma gc_heads_elem d h :
  h ∈ gc_heads d <->
  exists k r, branches d !! k = Some r /\ br_status r <> "discarded" /\ br_head r = h.
Proof.
  unfold gc_heads. rewrite list_elem_of_fmap. split.
  - intros (r & -> & [Hr Hin]%list_elem_of_filter).
    apply list_elem_of_fmap in Hin as ([k r'] & -> & Hk%elem_of_map_to_list). eauto.
  - intros (k & r & Hk & Hs & <-). exists r. split; [done|]. apply list_elem_of_filter. split; [done|].
    apply list_elem_of_fmap. exists (k, r). by rewrite elem_of_map_to_list.
Qed.

Lemma gc_visit_spec cas n live live' h :
  gc_visit cas n live = Ok live' -> h ∈ live' <-> h ∈ live \/ blob_of_state cas n h.
Proof.
  unfold gc_visit, blob_of_state. intros Hv. apply bind_Ok in Hv as (m & -> & [= <-]).
  rewrite !elem_of_union, elem_of_singleton, elem_of_list_to_set, list_elem_of_fmap. split.
  - intros [[? | -> ]|(e & -> & ([rel e'] & -> & Hr%elem_of_map_to_list)%list_elem_of_fmap)]; [by left|right..].
    + exists m. by split; [|left].
    + exists m. split; [done|]. right. by exists rel, e'.
  - intros [?|(m' & [= <-] & [->|(rel & e & Hr & ->)])]; [by left; left|by left; right|].
    right. exists e. split; [done|]. apply list_elem_of_fmap. exists (rel, e). by rewrite elem_of_map_to_list.
Qed.

Lemma sweep_states_spec live ids sts k x :
  (sweep_states live ids sts k).1 !! x =
  if decide (x ∈ ids /\ x ∉ live) then None else sts !! x.
Proof.
  revert sts k. induction ids as [|id ids IH]; intros sts k; cbn.
  { rewrite decide_False; [done|]. by intros [[]%elem_of_nil _]. }
  destruct (decide (id ∈ live)) as [Hl|Hl]; rewrite IH.
  - repeat case_decide; set_solver.
  - destruct (decide (x = id)) as [->|Hne].
    + rewrite (decide_True (P := id ∈ id :: ids /\ _)) by (split; [left|done]).
      rewrite lookup_delete_eq. by case_decide.
    + rewrite lookup_delete_ne by done. repeat case_decide; set_solver.
Qed.

Lemma cas_list_elem cas h : cas_ok cas ->
  h ∈ cas_list cas <-> exists p b, cas !! p = Some b /\ h = hash_bytes b.
Proof.
  intros Hok. unfold cas_list. rewrite list_elem_of_fmap. split.
  - intros (n & -> & Hn). apply list_elem_of_In, List.filter_In in Hn as [Hn _].
    apply list_elem_of_In, list_elem_of_fmap in Hn as (p & -> & [b Hp]%bt_keys_elem).
    exists p, b. split; [done|]. apply Hok in Hp as (x & -> & Hx & ->)%blob_path_Ok.
    by rewrite blob_name_path.
  - intros (p & b & Hp & ->). pose proof (Hok _ _ Hp) as (x & Hb & Hx & Heq)%blob_path_Ok.
    exists x. split; [done|]. apply list_elem_of_In, List.filter_In. split; [|done].
    apply list_elem_of_In, list_elem_of_fmap. exists p. split; [by rewrite Heq, blob_name_path|].
    by apply bt_keys_elem; eexists.
Qed.

Lemma cas_list_paths cas h : h ∈ cas_list cas -> exists p, blob_path h = Ok p.
Proof.
  unfold cas_list. rewrite list_elem_of_fmap. intros (n & -> & Hn).
  apply list_elem_of_In, List.filter_In in Hn as [_ Hn]. eexists. apply blob_path_Ok. by exists n.
Qed.

Lemma sweep_blobs_spec live blobs cas k :
  (forall h, h ∈ blobs -> exists p, blob_path h = Ok p) ->
  exists cas' k', sweep_blobs live blobs cas k = Ok (cas', k')
    /\ forall p b, cas' !! p = Some b <->
         cas !! p = Some b /\ forall h, h ∈ blobs -> blob_path h = Ok p -> h ∈ live.
Proof.
  revert cas k. induction blobs as [|h blobs IH]; intros cas k Hp; cbn [sweep_blobs].
  { exists cas, k. split; [done|]. intros p b. split; [|by intros []]. intros. split; [done|].
    by intros h []%elem_of_nil. }
  assert (forall h, h ∈ blobs -> exists p, blob_path h = Ok p) as Hp' by (intros; apply Hp; by right).
  destruct (decide (h ∈ live)) as [Hl|Hl].
  - destruct (IH cas k Hp') as (cas' & k' & Hs & Hc). exists cas', k'. split; [done|].
    intros p b. rewrite Hc. split; intros [? Hall]; (split; [done|]); intros h' Hin; [|set_solver].
    apply elem_of_cons in Hin as [->|]; auto.
  - destruct (Hp h) as [q Hq]; [left|]. unfold remove. rewrite Hq. cbn [mbind result_bind].
    destruct (IH (delete q cas) (S k) Hp') as (cas' & k' & Hs & Hc). exists cas', k'. split; [done|].
    intros p b. rewrite Hc, lookup_delete_Some. split.
    + intros [[Hne Hb] Hall]. split; [done|]. intros h' [->|]%elem_of_cons Hh'; [congruence|auto].
    + intros [Hb Hall]. split; [split; [|done]|].
      * intros ->. apply Hl, Hall; [left|done].
      * intros h' Hin. apply Hall. by right.
Qed.
End gc_lemmas.

(** * The invariant *)

Section dag_invariant.
Context `{!Serde, !Sha256, !ManifestSerde}.

(** Rows sit under their keys, history is closed and acyclic, the head of
    every branch that is not discarded is stored, and so are the blobs under
    their hashes. *)
Record dag_ok (d : StateDag) : Prop := {
  ok_ids : forall x n, states d !! x = Some n -> node_id n = x;
  ok_branch_ids : forall k r, branches d !! k = Some r -> br_id r = k;
  ok_closed : parent_closed (states d);
  ok_acyclic : acyclic (states d);
  ok_status : forall k r, branches d !! k = Some r -> exists s, br_status r = status_str s;
  ok_heads : forall h, h ∈ gc_heads d -> is_Some (states d !! h);
  ok_cas : cas_ok (dag_cas d);
}.

(** Every state a live branch can reach has a manifest that loads. *)
Definition live_manifests (d : StateDag) : Prop :=
  forall x n, live_state d x -> states d !! x = Some n ->
    exists m, manifest_load (dag_cas d) (workspace_root n) = Ok m.

Lemma live_state_stored d x : dag_ok d -> live_state d x -> is_Some (states d !! x).
Proof.
  intros Hok (h & Hh & Hr). eapply ancestor_stored; [apply ok_closed, Hok| |done].
  by apply (ok_heads d Hok).
Qed.

(** The mark phase succeeds and finds exactly the live states and blobs. *)
Lemma gc_mark_spec d : dag_ok d -> live_manifests d ->
  exists lives liveb,
    mark_loop (gc_visit (dag_cas d)) (mark_fuel (states d) (gc_heads d)) (states d) ∅ ∅ (gc_heads d)
    = Ok (lives, liveb)
    /\ (forall x, x ∈ lives <-> live_state d x) /\ (forall h, h ∈ liveb <-> live_blob d h).
Proof.
  intros Hok Hman. set (heads := gc_heads d).
  assert (sourced (states d) heads heads) as Hsrc by (intros x Hx; by exists x).
  destruct (mark_loop_total (states d) (gc_visit (dag_cas d)) heads
              (mark_fuel (states d) heads) ∅ ∅ heads) as [[lives liveb] Hm].
  - apply Hok.
  - apply Hok.
  - done.
  - intros id n a Hn Hl. destruct (Hman id n Hl Hn) as [m Hm]. unfold gc_visit. rewrite Hm. by eexists.
  - unfold mark_fuel. cbn. rewrite difference_empty_L, size_dom. lia.
  - exists lives, liveb. split; [done|].
    destruct (mark_loop_spec (states d) (gc_visit (dag_cas d))
      (fun seen live => forall h, h ∈ live <-> exists x n, x ∈ seen /\ states d !! x = Some n
                                               /\ blob_of_state (dag_cas d) n h)
      heads (mark_fuel (states d) heads) ∅ ∅ heads lives liveb) as (Hf & Hin & Hs & HI).
    + intros id n s a a' Hn _ HI Hv h. rewrite (gc_visit_spec _ _ _ _ _ Hv), HI. split.
      * intros [(x & n' & ? & ? & ?)|Hb]; [exists x, n'|exists id, n]; set_solver.
      * intros (x & n' & [->%elem_of_singleton|Hx]%elem_of_union & Hn' & Hb); [right|left; eauto].
        congruence.
    + intros c p Hc. set_solver.
    + exact Hsrc.
    + intros x Hx. rewrite elements_empty in Hx. by apply elem_of_nil in Hx.
    + intros h. split; [set_solver|]. intros (x & n & Hx & _). set_solver.
    + exact Hm.
    + assert (forall x, x ∈ lives <-> live_state d x) as Hlives.
      { intros x. split.
        - intros Hx. apply Hs. by apply elem_of_elements.
        - intros (h & Hh & Hr). eapply frontier_closed; [exact Hf|apply Hin; right; exact Hh|done]. }
      split; [done|]. intros h. rewrite HI. unfold live_blob. by setoid_rewrite Hlives.
Qed.

Lemma edge_sub (sts sts' : gmap string StateNode) c p : sts' ⊆ sts -> edge sts' c p -> edge sts c p.
Proof. intros Hsub (n & Hn & Hp). exists n. split; [|done]. by eapply lookup_weaken. Qed.

(** What a collection leaves. *)
Lemma gc_spec d : dag_ok d -> live_manifests d ->
  exists rep d', gc d = Ok (rep, d')
    /\ branches d' = branches d /\ episodes d' = episodes d /\ stat_caches d' = stat_caches d
    /\ (forall x n, states d' !! x = Some n <-> states d !! x = Some n /\ live_state d x)
    /\ (forall p b, dag_cas d' !! p = Some b <->
          dag_cas d !! p = Some b /\ live_blob d (hash_bytes b)).
Proof.
  intros Hok Hman. destruct (gc_mark_spec d Hok Hman) as (lives & liveb & Hm & Hls & Hlb).
  unfold gc. cbv zeta. rewrite Hm. cbn [mbind result_bind].
  destruct (sweep_states lives (map_to_list (states d)).*1 (states d) 0) as [sts k] eqn:Ess.
  destruct (sweep_blobs_spec liveb (cas_list (dag_cas d)) (dag_cas d) 0) as (cas' & k' & -> & Hc);
    [intros h; apply cas_list_paths|].
  cbn [mbind result_bind fst snd]. do 2 eexists. split; [reflexivity|]. cbn.
  split_and!; try done.
  - intros x n. change sts with (sts, k).1. rewrite <- Ess, sweep_states_spec, <- Hls.
    case_decide as Hd.
    + split; [done|]. intros [_ Hx]. tauto.
    + split; [|tauto]. intros Hx. split; [done|].
      destruct (decide (x ∈ lives)); [done|]. exfalso. apply Hd. split; [|done].
      apply list_elem_of_fmap. exists (x, n). by rewrite elem_of_map_to_list.
  - intros p b. rewrite Hc. split; intros [Hb Hl]; (split; [done|]).
    + apply Hlb, Hl; [|by apply (ok_cas d Hok)]. apply cas_list_elem; [apply Hok|]. eauto.
    + intros h Hh Hp. apply Hlb. apply (ok_cas d Hok) in Hb.
      by rewrite (blob_path_inj _ _ _ Hp Hb).
Qed.

Lemma gc_heads_branches d d' : branches d' = branches d -> gc_heads d' = gc_heads d.
Proof. unfold gc_heads. by intros ->. Qed.

Lemma live_self d h : h ∈ gc_heads d -> live_state d h.
Proof. intros Hh. by exists h. Qed.

Lemma live_parent d x y : live_state d x -> edge (states d) x y -> live_state d y.
Proof. intros (h & Hh & Hr) He. exists h. split; [done|]. by eapply rtc_r. Qed.

(** Reading a live blob is not affected. *)
Lemma gc_keeps_blob d cas' h b : cas_ok (dag_cas d) ->
  (forall p b, cas' !! p = Some b <-> dag_cas d !! p = Some b /\ live_blob d (hash_bytes b)) ->
  live_blob d h -> cas_get (dag_cas d) h = Ok b -> cas_get cas' h = Ok b.
Proof.
  intros Hok Hc Hl (-> & p & Hp & Hb)%cas_get_Ok. apply cas_get_Ok. split; [done|].
  exists p. split; [done|]. by apply Hc.
Qed.

Lemma gc_ok d rep d' : dag_ok d -> live_manifests d -> gc d = Ok (rep, d') -> dag_ok d'.
Proof.
  intros Hok Hman Hg. destruct (gc_spec d Hok Hman) as (rep0 & d0 & Hg0 & Hbr & _ & _ & Hst & Hca).
  rewrite Hg in Hg0. injection Hg0 as <- <-.
  assert (states d' ⊆ states d) as Hsub.
  { apply map_subseteq_spec. intros x n Hn. by apply Hst. }
  split.
  - intros x n Hn. by apply (ok_ids d Hok), Hst.
  - rewrite Hbr. apply Hok.
  - intros c p (n & Hn & Hp). apply Hst in Hn as [Hn Hl].
    assert (live_state d p) as Hlp by (eapply live_parent; [done|by exists n]).
    destruct (live_state_stored d p Hok Hlp) as [n' Hn']. exists n'. by apply Hst.
  - destruct (ok_acyclic d Hok) as [rank Hr]. exists rank. intros c p He. apply Hr. by eapply edge_sub.
  - rewrite Hbr. apply Hok.
  - intros h. rewrite (gc_heads_branches _ _ Hbr). intros Hh.
    destruct (ok_heads d Hok h Hh) as [n Hn]. exists n. apply Hst. split; [done|]. by apply live_self.
  - intros p b Hb. apply (ok_cas d Hok). by apply Hca.
Qed.
End dag_invariant.

(** * Preservation *)

Section preservation.
Context `{!Serde, !Sha256, !ManifestSerde}.

(** [cas'] holds every blob of [cas] and stays well formed. *)
Definition cas_grows (cas cas' : gmap string string) : Prop :=
  (cas_ok cas -> cas_ok cas')
  /\ forall h x, cas_get cas h = Ok x -> cas_get cas' h = Ok x.

Lemma cas_grows_refl cas : cas_grows cas cas.
Proof. by split. Qed.

Lemma cas_grows_trans c1 c2 c3 : cas_grows c1 c2 -> cas_grows c2 c3 -> cas_grows c1 c3.
Proof. intros [Ha Ma] [Hb Mb]. split; auto. Qed.

Lemma put_grows cas b h cas' : put cas b = Ok (h, cas') -> cas_grows cas cas'.
Proof. intros Hp. split; [intros; by eapply put_ok|]. intros. by eapply put_mono. Qed.

Lemma walk_grows cache entries s s' : walk cache s entries = Ok s' -> cas_grows (wk_cas s) (wk_cas s').
Proof.
  revert s. induction entries as [|[p n] entries IH]; intros s; cbn [walk].
  { intros [= <-]. apply cas_grows_refl. }
  destruct (ignored p); [apply IH|]. destruct n as [bytes mode mtime|t]; [|apply IH].
  intros Hw. apply bind_Ok in Hw as (s1 & Hf & Hw). apply IH in Hw.
  eapply cas_grows_trans; [|exact Hw]. unfold walk_file in Hf. cbv zeta in Hf.
  apply bind_Ok in Hf as ([[blob cas1] k] & Hr & [= <-]). cbn [wk_cas].
  destruct (match cache_entries cache !! rel_of p with Some e => _ | None => _ end) as [b|].
  - injection Hr as _ <- _. apply cas_grows_refl.
  - apply bind_Ok in Hr as ([h c] & Hp & [= _ <- _]). by eapply put_grows.
Qed.

Lemma snapshot_cache_grows cas fs cache started root m cas' cache' :
  snapshot_dir_with_cache cas fs cache started = Ok (root, m, cas', cache') -> cas_grows cas cas'.
Proof.
  unfold snapshot_dir_with_cache. intros Hs. apply bind_Ok in Hs as (s & Hw & Hs).
  apply bind_Ok in Hs as ([r c] & Hp & [= <- <- <- <-]).
  eapply cas_grows_trans; [by eapply (walk_grows _ _ _ _ Hw)|by eapply put_grows].
Qed.

Lemma snapshot_grows cas fs started r :
  snapshot_dir cas fs started = Ok r -> cas_grows cas r.2.
Proof.
  unfold snapshot_dir. intros Hs. apply bind_Ok in Hs as ([[[root m] c] ch] & Hs & [= <-]).
  by eapply snapshot_cache_grows.
Qed.

(** The branch table of a store whose states are [sts]. *)
Definition branches_ok (sts : gmap string StateNode) (brs : gmap string BranchRow) : Prop :=
  forall k r, brs !! k = Some r ->
    br_id r = k /\ (exists s, br_status r = status_str s)
    /\ (br_status r <> "discarded" -> is_Some (sts !! br_head r)).

Lemma dag_ok_branches d : dag_ok d -> branches_ok (states d) (branches d).
Proof.
  intros Hok k r Hk. split_and!; [by apply (ok_branch_ids d Hok)|by apply (ok_status d Hok _ _ Hk)|].
  intros Hs. apply (ok_heads d Hok), gc_heads_elem. eauto.
Qed.

Lemma dag_ok_intro d eps sts brs cas caches :
  (forall x n, sts !! x = Some n -> node_id n = x) -> parent_closed sts -> acyclic sts ->
  branches_ok sts brs -> cas_ok cas -> d = mkDag eps sts brs cas caches -> dag_ok d.
Proof.
  intros Hid Hcl Hac Hbr Hcas ->. split; cbn; try done.
  - intros k r Hk. by apply Hbr.
  - intros k r Hk. by eapply Hbr.
  - intros h (k & r & Hk & Hs & <-)%gc_heads_elem. by eapply Hbr.
Qed.

(** Same states, other branches. *)
Lemma dag_ok_same_states d eps brs cas caches :
  dag_ok d -> branches_ok (states d) brs -> cas_ok cas ->
  dag_ok (mkDag eps (states d) brs cas caches).
Proof. intros Hok Hbr Hcas. eapply dag_ok_intro; try done; apply Hok. Qed.

Lemma set_cas_ok d cas' : dag_ok d -> cas_grows (dag_cas d) cas' -> dag_ok (set_cas d cas').
Proof.
  intros Hok [Hg _]. apply dag_ok_same_states; [done|by apply dag_ok_branches|].
  by apply Hg, Hok.
Qed.

Lemma put_stat_cache_ok d dir cache : dag_ok d -> dag_ok (put_stat_cache d dir cache).
Proof. intros Hok. apply dag_ok_same_states; [done|by apply dag_ok_branches|apply Hok]. Qed.

(** Adding a node under a fresh id whose parents are stored. *)
Lemma insert_node_closed sts node :
  parent_closed sts -> (forall p, p ∈ parents_of node -> is_Some (sts !! p)) ->
  parent_closed (<[node_id node := node]> sts).
Proof.
  intros Hcl Hp c p (n & [[<- <-]|[Hne Hn]]%lookup_insert_Some & Hin); apply lookup_insert_is_Some;
    destruct (decide (node_id node = p)); (try by left); right; (split; [done|]).
  - by apply Hp.
  - eapply Hcl. by exists n.
Qed.

Lemma insert_node_acyclic sts node :
  parent_closed sts -> sts !! node_id node = None ->
  (forall p, p ∈ parents_of node -> is_Some (sts !! p)) -> acyclic sts ->
  acyclic (<[node_id node := node]> sts).
Proof.
  intros Hcl Hfresh Hp [rank Hr].
  assert (forall p, is_Some (sts !! p) -> p <> node_id node) as Hne by (intros p [? ?] ->; congruence).
  exists (fun x => if decide (x = node_id node) then S (list_max (map rank (parents_of node))) else rank x).
  intros c p (n & [[<- <-]|[Hc Hn]]%lookup_insert_Some & Hin).
  - rewrite (decide_False (P := p = node_id node)) by by apply Hne, Hp. rewrite decide_True by done.
    assert (rank p <= list_max (map rank (parents_of node)))%nat; [|lia].
    pose proof (proj1 (List.list_max_le _ _) (Nat.le_refl (list_max (map rank (parents_of node))))) as Hall.
    rewrite List.Forall_forall in Hall. apply Hall, List.in_map. by apply list_elem_of_In.
  - assert (edge sts c p) as He by by exists n.
    rewrite !decide_False; [by apply Hr|by intros ->|by apply Hne, (Hcl c)].
Qed.

Lemma dag_ok_insert d eps node brs cas caches :
  dag_ok d -> states d !! node_id node = None ->
  (forall p, p ∈ parents_of node -> is_Some (states d !! p)) ->
  branches_ok (<[node_id node := node]> (states d)) brs -> cas_ok cas ->
  dag_ok (mkDag eps (<[node_id node := node]> (states d)) brs cas caches).
Proof.
  intros Hok Hfresh Hp Hbr Hcas. eapply dag_ok_intro; try done.
  - intros x n [[<- <-]|[_ Hn]]%lookup_insert_Some; [done|by apply (ok_ids d Hok)].
  - apply insert_node_closed; [apply Hok|done].
  - apply insert_node_acyclic; [apply Hok|done|done|apply Hok].
Qed.

Lemma branches_ok_mono sts sts' brs : sts ⊆ sts' -> branches_ok sts brs -> branches_ok sts' brs.
Proof.
  intros Hsub Hb k r Hk. destruct (Hb k r Hk) as (? & ? & Hh). split_and!; try done.
  intros Hs. destruct (Hh Hs) as [n Hn]. exists n. by eapply lookup_weaken.
Qed.
End preservation.

(** * Operations preserve the invariant and never lose live history *)

Section steps.
Context `{!Serde, !Sha256, !ManifestSerde}.

Lemma status_parse_Ok str s : status_parse str = Ok s <-> str = status_str s.
Proof.
  unfold status_parse. split.
  - repeat (case_match; [intros [= <-]; by apply String.eqb_eq|]). done.
  - intros ->. by destruct s.
Qed.

Lemma load_branch_Ok brs id b :
  load_branch brs id = Ok b <->
  exists r, brs !! id = Some r /\ br_status r = status_str (b_status b)
    /\ b = mkBranch (br_id r) (br_episode r) (br_base_state r) (br_head r) (b_status b).
Proof.
  unfold load_branch, branch_of_row. rewrite bind_Ok. split.
  - intros (r & Hr%ok_or_Ok & Hb). apply bind_Ok in Hb as (s & Hs%status_parse_Ok & [= <-]). eauto.
  - intros (r & Hr & Hs & ->). exists r. cbn in *. apply status_parse_Ok in Hs. by rewrite Hr, Hs.
Qed.

Lemma ensure_active_Ok b u : ensure_active b = Ok u <-> b_status b = Active.
Proof. unfold ensure_active. destruct u. by destruct (b_status b). Qed.

Lemma active_head d k b : dag_ok d -> load_branch (branches d) k = Ok b -> b_status b <> Discarded ->
  is_Some (states d !! head b).
Proof.
  intros Hok (r & Hr & Hs & ->)%load_branch_Ok Hb. cbn in *.
  apply (dag_ok_branches d Hok k r Hr). rewrite Hs. by destruct (b_status b).
Qed.

Lemma branches_ok_set_head sts brs k h :
  branches_ok sts brs -> is_Some (sts !! h) -> branches_ok sts (set_head brs k h).
Proof.
  intros Hb Hh j r. unfold set_head. rewrite lookup_alter_Some.
  intros [(<- & r0 & Hr0 & ->)|[_ Hr]]; [|by apply Hb]. destruct (Hb _ _ Hr0) as (? & ? & ?). done.
Qed.

Lemma branches_ok_set_status sts brs k s :
  branches_ok sts brs ->
  (s <> Discarded -> forall r, brs !! k = Some r -> is_Some (sts !! br_head r)) ->
  branches_ok sts (set_status brs k s).
Proof.
  intros Hb Hs j r. unfold set_status. rewrite lookup_alter_Some.
  intros [(<- & r0 & Hr0 & ->)|[_ Hr]]; [|by apply Hb]. destruct (Hb _ _ Hr0) as (? & ? & ?).
  cbn. split_and!; [done|by exists s|]. intros Hd. apply Hs; [|done]. by intros ->.
Qed.

Lemma branches_ok_insert sts brs k ep h now :
  branches_ok sts brs -> is_Some (sts !! h) ->
  branches_ok sts (<[k := mkBranchRow k ep h h (status_str Active) now]> brs).
Proof.
  intros Hb Hh j r [[<- <-]|[_ Hr]]%lookup_insert_Some; [|by apply Hb].
  cbn. split_and!; [done|by exists Active|done].
Qed.

Lemma insert_row_once_Ok {A} (t : gmap string A) k row col t' :
  insert_row_once t k row col = Ok t' <-> t !! k = None /\ t' = <[k := row]> t.
Proof. unfold insert_row_once. destruct (t !! k); naive_solver. Qed.

(** Nothing stored is lost. *)
Definition extends (d d' : StateDag) : Prop :=
  states d ⊆ states d' /\ cas_grows (dag_cas d) (dag_cas d').

Definition preserves (d d' : StateDag) : Prop := dag_ok d -> dag_ok d' /\ extends d d'.

Lemma extends_refl d : extends d d.
Proof. split; [done|apply cas_grows_refl]. Qed.

Lemma preserves_refl d : preserves d d.
Proof. intros Hok. split; [done|apply extends_refl]. Qed.

Lemma preserves_trans d1 d2 d3 : preserves d1 d2 -> preserves d2 d3 -> preserves d1 d3.
Proof.
  intros Ha Hb Hok. destruct (Ha Hok) as [Hok2 [Hs Hc]]. destruct (Hb Hok2) as [Hok3 [Hs' Hc']].
  split; [done|]. split; [by etrans|by eapply cas_grows_trans].
Qed.

Lemma set_cas_preserves d cas' : cas_grows (dag_cas d) cas' -> preserves d (set_cas d cas').
Proof. intros Hg Hok. split; [by apply set_cas_ok|]. by split. Qed.

Lemma put_stat_cache_preserves d dir cache : preserves d (put_stat_cache d dir cache).
Proof. intros Hok. split; [by apply put_stat_cache_ok|]. split; [done|apply cas_grows_refl]. Qed.

(** The node is added under its id and nothing else changes among the states. *)
Lemma append_node_preserves d branch node d' :
  (forall p, p ∈ parents_of node -> is_Some (states d !! p)) ->
  append_node d branch node = Ok d' -> preserves d d'.
Proof.
  intros Hp Ha Hok. unfold append_node in Ha. apply bind_Ok in Ha as (sts & Hi & [= <-]).
  apply insert_row_once_Ok in Hi as [Hfresh ->].
  assert (states d ⊆ <[node_id node := node]> (states d)) as Hsub by by apply insert_subseteq.
  split; [|split; [done|apply cas_grows_refl]].
  apply dag_ok_insert; [done|done|done| |apply Hok].
  apply branches_ok_set_head; [|by rewrite lookup_insert_eq].
  eapply branches_ok_mono; [done|by apply dag_ok_branches].
Qed.

Lemma create_rows_preserves d f root objective d' :
  parents_of root = [] -> create_rows d f root objective = Ok d' -> preserves d d'.
Proof.
  intros Hp Hc Hok. unfold create_rows in Hc. apply bind_Ok in Hc as (eps & _ & Hc).
  apply bind_Ok in Hc as (sts & Hs & Hc). apply bind_Ok in Hc as (brs & Hb & [= <-]).
  apply insert_row_once_Ok in Hs as [Hfresh ->]. apply insert_row_once_Ok in Hb as [_ ->].
  assert (states d ⊆ <[node_id root := root]> (states d)) as Hsub by by apply insert_subseteq.
  split; [|split; [done|apply cas_grows_refl]].
  apply dag_ok_insert; [done|done| | |apply Hok].
  - rewrite Hp. by intros p []%elem_of_nil.
  - apply branches_ok_insert; [|by rewrite lookup_insert_eq].
    eapply branches_ok_mono; [done|by apply dag_ok_branches].
Qed.

Lemma create_episode_preserves d f actor w started rc objective :
  preserves d (create_episode d f actor w started rc objective).2.
Proof.
  unfold create_episode. destruct (match w with Some dir => _ | None => _ end) as [[root cas']|e] eqn:Ew;
    [|apply preserves_refl].
  assert (cas_grows (dag_cas d) cas') as Hg.
  { destruct w as [fs|]; [|by eapply put_grows].
    apply bind_Ok in Ew as (r & Hs & [= _ <-]). by eapply snapshot_grows. }
  cbv zeta. destruct (create_rows (set_cas d cas') f (root_node f actor root rc) objective) as [d''|e] eqn:Ec.
  - eapply preserves_trans; [by apply set_cas_preserves|]. eapply create_rows_preserves; [|exact Ec]. done.
  - by apply set_cas_preserves.
Qed.

Lemma append_step_preserves d f branch step actor delta root rc n d' :
  append_step d f branch step actor delta root rc = Ok (n, d') -> preserves d d'.
Proof.
  unfold append_step. intros Ha. apply bind_Ok in Ha as (pr & _ & Ha).
  apply bind_Ok in Ha as ([] & _ & Ha). apply bind_Ok in Ha as (b & Hb & Ha).
  apply bind_Ok in Ha as (u & Hact%ensure_active_Ok & Ha). apply bind_Ok in Ha as (d1 & Hn & [= _ <-]).
  intros Hok. eapply append_node_preserves; [|exact Hn|done].
  cbn. intros p [->|[]%elem_of_nil]%elem_of_cons. by eapply active_head; [| |rewrite Hact].
Qed.

Lemma snapshot_and_append_preserves d f branch step actor dir fs started rc :
  preserves d (snapshot_and_append d f branch step actor dir fs started rc).2.
Proof.
  unfold snapshot_and_append. destruct (branch_head d branch) as [h|e]; [|apply preserves_refl].
  cbv zeta. destruct (snapshot_dir_with_cache (dag_cas d) fs (take_stat_cache d dir) started)
    as [[[[root m] cas'] cache']|e] eqn:Es; [|apply put_stat_cache_preserves].
  assert (preserves d (set_cas (put_stat_cache d dir cache') cas')) as Hp.
  { eapply preserves_trans; [apply put_stat_cache_preserves|]. apply set_cas_preserves.
    by eapply snapshot_cache_grows. }
  destruct (manifest_load cas' (workspace_root h) ≫= _) as [[n d'']|e] eqn:Ea; [|done].
  apply bind_Ok in Ea as (old & _ & Ha). eapply preserves_trans; [exact Hp|].
  by eapply append_step_preserves.
Qed.

Lemma dag_materialize_preserves d state target fs started now :
  preserves d (dag_materialize d state target fs started now).2.
Proof.
  unfold dag_materialize. destruct (get_state d state); [|apply preserves_refl]. cbv zeta.
  destruct (materialize_with_cache _ _ _ _ _ _) as [[fs' cache']|e]; apply put_stat_cache_preserves.
Qed.

Lemma fork_preserves d f from b d' : fork d f from = Ok (b, d') -> preserves d d'.
Proof.
  unfold fork. intros Hf Hok. apply bind_Ok in Hf as (base & Hbase%ok_or_Ok & Hf).
  apply bind_Ok in Hf as (brs & Hi & [= _ <-]). apply insert_row_once_Ok in Hi as [_ ->].
  split; [|split; [done|apply cas_grows_refl]]. cbn [b_id b_episode base_state head b_status].
  apply dag_ok_same_states; [done| |apply Hok].
  apply branches_ok_insert; [by apply dag_ok_branches|by eexists].
Qed.

Lemma discard_preserves d branch d' : discard_branch d branch = Ok d' -> preserves d d'.
Proof.
  unfold discard_branch. intros Hd Hok. apply bind_Ok in Hd as (b & Hb & Hd).
  case_decide; [done|]. injection Hd as <-. split; [|split; [done|apply cas_grows_refl]].
  apply dag_ok_same_states; [done| |apply Hok].
  by apply branches_ok_set_status; [apply dag_ok_branches|].
Qed.

Lemma merge_plan_Ok d target source tb sb tn sn tgt_m merged :
  merge_plan d target source = Ok (tb, sb, tn, sn, tgt_m, merged) ->
  target <> source
  /\ load_branch (branches d) target = Ok tb /\ b_status tb = Active
  /\ load_branch (branches d) source = Ok sb /\ b_status sb = Active
  /\ states d !! head tb = Some tn /\ states d !! head sb = Some sn
  /\ exists base base_m src_m,
       lca d (head tb) (head sb) = Ok base /\ manifest_of d base = Ok base_m
       /\ manifest_load (dag_cas d) (workspace_root tn) = Ok tgt_m
       /\ manifest_load (dag_cas d) (workspace_root sn) = Ok src_m
       /\ merge_manifests base_m tgt_m src_m = (merged, []).
Proof.
  unfold merge_plan. intros Hm. apply bind_Ok in Hm as (u & Hne%fail_if_Ok & Hm).
  apply String.eqb_neq in Hne.
  apply bind_Ok in Hm as (tb0 & Htb & Hm). apply bind_Ok in Hm as (sb0 & Hsb & Hm).
  apply bind_Ok in Hm as (u1 & Hta%ensure_active_Ok & Hm). apply bind_Ok in Hm as (u2 & Hsa%ensure_active_Ok & Hm).
  apply bind_Ok in Hm as (base & Hl & Hm). apply bind_Ok in Hm as (bn & Hbn & Hm).
  apply bind_Ok in Hm as (base_m & Hbm & Hm). apply bind_Ok in Hm as (tn0 & Htn%ok_or_Ok & Hm).
  apply bind_Ok in Hm as (sn0 & Hsn%ok_or_Ok & Hm). apply bind_Ok in Hm as (tm & Htm & Hm).
  apply bind_Ok in Hm as (sm & Hsm & Hm).
  destruct (merge_manifests base_m tm sm) as [mg cs] eqn:Emm.
  apply bind_Ok in Hm as (u3 & Hc%fail_if_Ok & [= <- <- <- <- <- <-]).
  case_bool_decide; [|done]. subst cs. split_and!; try done.
  exists base, base_m, sm. split_and!; try done. unfold manifest_of. by rewrite Hbn.
Qed.

Lemma merge_preserves d f target source actor : preserves d (merge d f target source actor).2.
Proof.
  unfold merge. destruct (merge_plan d target source) as [[[[[[tb sb] tn] sn] tm] mg]|e] eqn:Ep;
    [|apply preserves_refl].
  apply merge_plan_Ok in Ep as (Hne & Htb & Hta & Hsb & Hsa & Htn & Hsn & _).
  destruct (manifest_store (dag_cas d) mg) as [[root cas']|e] eqn:Es; [|apply preserves_refl].
  assert (cas_grows (dag_cas d) cas') as Hg by by eapply put_grows.
  cbv zeta. set (node := merge_node f actor tb sb tn sn tm mg target root).
  destruct (append_node (set_cas d cas') target node) as [d''|e] eqn:Ea; [|by apply set_cas_preserves].
  eapply preserves_trans; [by apply set_cas_preserves|].
  assert (preserves (set_cas d cas') d'') as Hp.
  { eapply append_node_preserves; [|exact Ea]. cbn.
    intros p [->|[->|[]%elem_of_nil]%elem_of_cons]%elem_of_cons; by eexists. }
  intros Hok. destruct (Hp Hok) as [Hok' [Hsub Hgr]]. split; [|by split].
  apply dag_ok_same_states; [done| |apply Hok']. cbn [snd].
  apply branches_ok_set_status; [by apply dag_ok_branches|]. intros _ r Hr.
  unfold append_node in Ea. apply bind_Ok in Ea as (sts & Hi & [= <-]). cbn in Hr |- *.
  apply insert_row_once_Ok in Hi as [_ ->]. unfold set_head in Hr.
  rewrite lookup_alter_ne in Hr by done. apply load_branch_Ok in Hsb as (r' & Hr' & _ & Heq).
  rewrite Hr in Hr'. injection Hr' as <-. rewrite Heq in Hsn. cbn in Hsn.
  apply lookup_insert_is_Some'. right. by eexists.
Qed.
End steps.

Section history.
Context `{!Serde, !Sha256, !ManifestSerde}.

(** One call of the store's interface, successful or not. *)
Inductive dag_call (d : StateDag) : StateDag -> Prop :=
| step_create f actor w started rc objective :
    dag_call d (create_episode d f actor w started rc objective).2
| step_append f branch step actor delta root rc n d' :
    append_step d f branch step actor delta root rc = Ok (n, d') -> dag_call d d'
| step_snapshot f branch step actor dir fs started rc :
    dag_call d (snapshot_and_append d f branch step actor dir fs started rc).2
| step_materialize state target fs started now :
    dag_call d (dag_materialize d state target fs started now).2
| step_fork f from b d' : fork d f from = Ok (b, d') -> dag_call d d'
| step_discard branch d' : discard_branch d branch = Ok d' -> dag_call d d'
| step_merge f target source actor : dag_call d (merge d f target source actor).2
| step_scratch fs started root m cas' :   (* [snapshot_dir(dag.cas(), ...)] *)
    snapshot_dir (dag_cas d) fs started = Ok (root, m, cas') -> dag_call d (set_cas d cas').

(** The collector runs on its own, outside the facade. *)
Inductive dag_step (d : StateDag) : StateDag -> Prop :=
| step_call d' : dag_call d d' -> dag_step d d'
| step_gc rep d' : gc d = Ok (rep, d') -> dag_step d d'.

(** A collection that succeeds has loaded every live manifest. *)
Lemma gc_live_manifests d rep d' : gc d = Ok (rep, d') -> live_manifests d.
Proof.
  unfold gc. cbv zeta. intros Hg. apply bind_Ok in Hg as ([lives liveb] & Hm & _).
  destruct (mark_loop_spec (states d) (gc_visit (dag_cas d))
    (fun seen _ => forall x n, x ∈ seen -> states d !! x = Some n ->
                     exists m, manifest_load (dag_cas d) (workspace_root n) = Ok m)
    (gc_heads d) (mark_fuel (states d) (gc_heads d)) ∅ ∅ (gc_heads d) lives liveb)
    as (Hf & Hin & _ & HI).
  - intros id n s a a' Hn _ HI Hv x n' Hx Hn'.
    apply elem_of_union in Hx as [->%elem_of_singleton|Hx]; [|by eapply HI].
    unfold gc_visit in Hv. apply bind_Ok in Hv as (m & Hload & _). exists m. congruence.
  - intros c p Hc. set_solver.
  - intros x Hx. by exists x.
  - intros x Hx. rewrite elements_empty in Hx. by apply elem_of_nil in Hx.
  - intros x n Hx. set_solver.
  - exact Hm.
  - intros x n (h & Hh & Hr) Hn. apply (HI x n); [|done].
    eapply frontier_closed; [exact Hf|apply Hin; right; exact Hh|done].
Qed.

(** Live states and live blobs survive. *)
Definition keeps_live (d d' : StateDag) : Prop :=
  (forall x n, live_state d x -> states d !! x = Some n -> states d' !! x = Some n)
  /\ (forall h b, live_blob d h -> cas_get (dag_cas d) h = Ok b -> cas_get (dag_cas d') h = Ok b).

Lemma extends_keeps d d' : extends d d' -> keeps_live d d'.
Proof.
  intros [Hs [_ Hc]]. split; [|auto]. intros x n _ Hn. by eapply lookup_weaken.
Qed.

Lemma gc_keeps d rep d' : dag_ok d -> gc d = Ok (rep, d') -> keeps_live d d'.
Proof.
  intros Hok Hg. pose proof (gc_live_manifests _ _ _ Hg) as Hman.
  destruct (gc_spec d Hok Hman) as (rep0 & d0 & Hg0 & _ & _ & _ & Hst & Hca).
  rewrite Hg in Hg0. injection Hg0 as <- <-. split.
  - intros x n Hl Hn. by apply Hst.
  - intros h b Hl. apply gc_keeps_blob; [apply Hok|exact Hca|done].
Qed.

Lemma dag_call_preserves d d' : dag_call d d' -> preserves d d'.
Proof.
  intros Hs. destruct Hs as [| | | | | | |fs started root m cas' Hg].
  - apply create_episode_preserves.
  - by eapply append_step_preserves.
  - apply snapshot_and_append_preserves.
  - apply dag_materialize_preserves.
  - by eapply fork_preserves.
  - by eapply discard_preserves.
  - apply merge_preserves.
  - apply set_cas_preserves. apply (snapshot_grows _ _ _ _ Hg).
Qed.

Lemma dag_step_ok d d' : dag_ok d -> dag_step d d' -> dag_ok d' /\ keeps_live d d'.
Proof.
  intros Hok [d1 Hc|rep d1 Hg].
  - destruct (dag_call_preserves _ _ Hc Hok). split; [done|by apply extends_keeps].
  - split; [|by eapply gc_keeps]. eapply gc_ok; [done| |done]. by eapply gc_live_manifests.
Qed.

(** Episodes are never changed once created, and a branch never leaves its
    episode. *)
Definition rows_kept (d d' : StateDag) : Prop :=
  episodes d ⊆ episodes d'
  /\ forall b r, branches d !! b = Some r -> exists r', branches d' !! b = Some r' /\ br_episode r' = br_episode r.

Lemma rows_kept_refl d : rows_kept d d.
Proof. split; [done|]. eauto. Qed.

Lemma rows_kept_same d d' : episodes d' = episodes d -> branches d' = branches d -> rows_kept d d'.
Proof. unfold rows_kept. intros -> ->. split; [done|]. eauto. Qed.

Lemma rows_kept_trans d1 d2 d3 : rows_kept d1 d2 -> rows_kept d2 d3 -> rows_kept d1 d3.
Proof.
  intros [He Hb] [He' Hb']. split; [by etrans|]. intros b r Hr. apply Hb in Hr as (r' & Hr' & Heq).
  apply Hb' in Hr' as (r'' & Hr'' & Heq'). exists r''. split; [done|congruence].
Qed.

(** Updating columns of a branch other than its episode. *)
Lemma rows_kept_alter d eps sts cas caches f branch :
  (forall r, br_episode (f r) = br_episode r) -> episodes d = eps ->
  rows_kept d (mkDag eps sts (alter f branch (branches d)) cas caches).
Proof.
  intros Hf <-. split; [done|]. cbn. intros b r Hr. destruct (decide (branch = b)) as [->|Hne].
  - rewrite lookup_alter_eq, Hr. eauto.
  - rewrite lookup_alter_ne by done. eauto.
Qed.

Lemma rows_kept_insert d k row col brs eps sts cas caches :
  insert_row_once (branches d) k row col = Ok brs -> episodes d ⊆ eps ->
  rows_kept d (mkDag eps sts brs cas caches).
Proof.
  intros [Hn ->]%insert_row_once_Ok He. split; [done|]. cbn. intros b r Hr.
  exists r. split; [|done]. rewrite lookup_insert_ne; [done|]. intros ->. congruence.
Qed.

Lemma append_node_rows d branch node d' : append_node d branch node = Ok d' -> rows_kept d d'.
Proof. unfold append_node. intros (sts & _ & [= <-])%bind_Ok. by apply rows_kept_alter. Qed.

Lemma append_step_rows d f branch step actor delta root rc n d' :
  append_step d f branch step actor delta root rc = Ok (n, d') -> rows_kept d d'.
Proof.
  unfold append_step. intros Ha. repeat (apply bind_Ok in Ha as (? & ? & Ha)). simplify_eq.
  by eapply append_node_rows.
Qed.

Lemma dag_call_rows d d' : dag_call d d' -> rows_kept d d'.
Proof.
  intros Hs. destruct Hs as [f actor w started rc obj|f br step actor delta root rc n d' Ha|f br step actor dir fs t rc
    |state target fs t now|f from b d' Hf|br d' Hd|f target source actor|fs t root m cas' Hg].
  - unfold create_episode. destruct (match w with Some _ => _ | None => _ end) as [[root cas']|]; [|apply rows_kept_refl].
    cbv zeta. destruct (create_rows _ _ _ _) as [d''|] eqn:Ec; [|by apply rows_kept_same].
    unfold create_rows in Ec. apply bind_Ok in Ec as (eps & He & Ec). apply bind_Ok in Ec as (sts & _ & Ec).
    apply bind_Ok in Ec as (brs & Hb & [= <-]). apply insert_row_once_Ok in He as [Hn ->].
    eapply rows_kept_trans; [apply (rows_kept_same d (set_cas d cas')); done|].
    eapply rows_kept_insert; [exact Hb|]. by apply insert_subseteq.
  - by eapply append_step_rows.
  - unfold snapshot_and_append. repeat case_match; simplify_eq; try apply rows_kept_refl; try by apply rows_kept_same.
    match goal with Hb : mbind _ _ = Ok _ |- _ => apply bind_Ok in Hb as (old & _ & Ha) end.
    eapply rows_kept_trans; [|by eapply append_step_rows]. by apply rows_kept_same.
  - unfold dag_materialize. destruct (get_state d state); [|apply rows_kept_refl]. cbv zeta.
    destruct (materialize_with_cache _ _ _ _ _ _) as [[fs' c]|]; by apply rows_kept_same.
  - unfold fork in Hf. apply bind_Ok in Hf as (base & _ & Hf). apply bind_Ok in Hf as (brs & Hb & [= _ <-]).
    by eapply rows_kept_insert.
  - unfold discard_branch in Hd. apply bind_Ok in Hd as (b & _ & Hd). case_decide; [done|]. injection Hd as <-.
    by apply rows_kept_alter.
  - unfold merge. destruct (merge_plan _ _ _) as [[[[[[tb sb] tn] sn] tm] mm]|]; [|apply rows_kept_refl].
    destruct (manifest_store _ _) as [[root cas']|]; [|apply rows_kept_refl]. cbv zeta.
    destruct (append_node _ _ _) as [d''|] eqn:Ea; [|by apply rows_kept_same]. apply append_node_rows in Ea.
    eapply rows_kept_trans; [apply (rows_kept_same d (set_cas d cas')); done|].
    eapply rows_kept_trans; [exact Ea|]. by apply rows_kept_alter.
  - by apply rows_kept_same.
Qed.

(** Episode rows sit under their keys. *)
Definition episodes_keyed (d : StateDag) : Prop := map_Forall (fun id r => ep_id r = id) (episodes d).

Lemma append_step_episodes d f branch step actor delta root rc n d' :
  append_step d f branch step actor delta root rc = Ok (n, d') -> episodes d' = episodes d.
Proof.
  unfold append_step, append_node. intros Ha.
  repeat (apply bind_Ok in Ha as (? & ? & Ha)). simplify_eq.
  match goal with Hb : mbind _ _ = Ok _ |- _ => by apply bind_Ok in Hb as (? & _ & [= <-]) end.
Qed.

Lemma dag_call_keyed d d' : dag_call d d' -> episodes_keyed d -> episodes_keyed d'.
Proof.
  unfold episodes_keyed. intros Hs Hk. destruct Hs as [f actor w started rc obj|f br step actor delta root rc n d' Ha
    |f br step actor dir fs t rc|state target fs t now|f from b d' Hf|br d' Hd|f target source actor|fs t root m cas' Hg].
  - unfold create_episode. destruct (match w with Some _ => _ | None => _ end) as [[root cas']|]; [|done]. cbv zeta.
    destruct (create_rows _ _ _ _) as [d''|] eqn:Ec; [|done].
    unfold create_rows in Ec. apply bind_Ok in Ec as (eps & He & Ec). apply bind_Ok in Ec as (sts & _ & Ec).
    apply bind_Ok in Ec as (brs & Hb & [= <-]). apply insert_row_once_Ok in He as [Hn ->].
    by apply map_Forall_insert_2.
  - by erewrite append_step_episodes.
  - unfold snapshot_and_append. repeat case_match; simplify_eq; try done.
    match goal with Hb : mbind _ _ = Ok _ |- _ => apply bind_Ok in Hb as (old & _ & Ha) end.
    apply append_step_episodes in Ha. cbn. by rewrite Ha.
  - unfold dag_materialize. destruct (get_state d state); [|done]. cbv zeta.
    by destruct (materialize_with_cache _ _ _ _ _ _) as [[fs' c]|].
  - unfold fork in Hf. apply bind_Ok in Hf as (base & _ & Hf). by apply bind_Ok in Hf as (brs & Hb & [= _ <-]).
  - unfold discard_branch in Hd. apply bind_Ok in Hd as (b & _ & Hd). case_decide; [done|]. by injection Hd as <-.
  - unfold merge. destruct (merge_plan _ _ _) as [[[[[[tb sb] tn] sn] tm] mm]|]; [|done].
    destruct (manifest_store _ _) as [[root cas']|]; [|done]. cbv zeta.
    destruct (append_node _ _ _) as [d''|] eqn:Ea; [|done].
    unfold append_node in Ea. by apply bind_Ok in Ea as (sts & _ & [= <-]).
  - done.
Qed.

Lemma dag_init_ok cas : cas_ok cas -> dag_ok (dag_init cas).
Proof.
  intros Hc. split; cbn.
  - intros x n Hn. by rewrite lookup_empty in Hn.
  - intros k r Hk. by rewrite lookup_empty in Hk.
  - intros c p (n & Hn & _). by rewrite lookup_empty in Hn.
  - exists (fun _ => O). intros c p (n & Hn & _). by rewrite lookup_empty in Hn.
  - intros k r Hk. by rewrite lookup_empty in Hk.
  - intros h (k & r & Hk & _)%gc_heads_elem. cbn in Hk. by rewrite lookup_empty in Hk.
  - done.
Qed.

Lemma dag_reachable_ok cas d : cas_ok cas -> rtc dag_step (dag_init cas) d -> dag_ok d.
Proof.
  intros Hc Hr. pose proof (dag_init_ok cas Hc) as Hok. induction Hr as [|x y z Hs _ IH]; [done|].
  apply IH. by eapply dag_step_ok.
Qed.
End history.

(** C34: The state DAG keeps its history. From any store the interface can reach, the parent
    relation is closed and acyclic, the head of every branch that is not discarded is
    stored, and no further call (forks, appends, snapshots, merges, discards, collections,
    failed calls included) drops or changes a state or a blob that a branch that is not
    discarded can reach. *)
Theorem dag_keeps_history `{!Serde, !Sha256, !ManifestSerde} cas d d' :
  cas_ok cas -> rtc dag_step (dag_init cas) d -> dag_step d d' ->
  dag_ok d' /\ keeps_live d d'.
Proof. intros Hc Hr Hs. apply dag_step_ok; [by eapply dag_reachable_ok|done]. Qed.

(** C33: Garbage collection is exact: on a well-formed store whose live manifests load it
    succeeds, keeps precisely the states that branches which are not discarded reach, and
    precisely the blobs (manifests and file contents) those states need, and leaves
    episodes and branch rows alone. *)
Theorem gc_exact `{!Serde, !Sha256, !ManifestSerde} d :
  dag_ok d -> live_manifests d ->
  exists rep d', gc d = Ok (rep, d')
    /\ branches d' = branches d /\ episodes d' = episodes d
    /\ (forall x n, states d' !! x = Some n <-> states d !! x = Some n /\ live_state d x)
    /\ (forall p b, dag_cas d' !! p = Some b <->
          dag_cas d !! p = Some b /\ live_blob d (hash_bytes b))
    /\ (forall x, live_state d x -> manifest_of d' x = manifest_of d x).
Proof.
  intros Hok Hman. destruct (gc_spec d Hok Hman) as (rep & d' & Hg & Hbr & Hep & _ & Hst & Hca).
  exists rep, d'. split_and!; try done. intros x Hl.
  destruct (live_state_stored d x Hok Hl) as [n Hn]. destruct (Hman x n Hl Hn) as [m Hm].
  unfold manifest_of, get_state, load_state. rewrite Hn, (proj2 (Hst x n) (conj Hn Hl)).
  cbn [ok_or mbind result_bind]. unfold manifest_load in *.
  apply bind_Ok in Hm as (b & Hb & Hm'). rewrite Hb.
  rewrite (gc_keeps_blob d (dag_cas d') (workspace_root n) b (ok_cas d Hok) Hca); [done| |done].
  exists x, n. split; [done|]. split; [done|]. exists m. split; [|by left].
  unfold manifest_load. by rewrite Hb.
Qed.

(** [lca] is total on stored states: it returns a state that is an ancestor of both
    whenever they share one and reports that they share none otherwise; where the history
    of the second state has no merge it is the lowest one, every other common ancestor
    being an ancestor of it. *)
Theorem lca_common_ancestor d a b :
  parent_closed (states d) -> is_Some (states d !! a) -> is_Some (states d !! b) ->
  match lca d a b with
  | Ok c =>
      ancestor (states d) a c /\ ancestor (states d) b c
      /\ ((forall y n, ancestor (states d) b y -> states d !! y = Some n -> merge_parent n = None) ->
          forall x, ancestor (states d) a x -> ancestor (states d) b x -> ancestor (states d) c x)
  | Err e =>
      e = Storage ("states " +:+ a +:+ " and " +:+ b +:+ " share no common ancestor")
      /\ forall x, ~ (ancestor (states d) a x /\ ancestor (states d) b x)
  end.
Proof.
  intros Hcl Ha Hb. unfold lca.
  destruct (ancestors_spec (states d) a Hcl Ha) as (anc & -> & Hanc). cbn [mbind result_bind].
  assert (sourced (states d) [b] [b]) as Hsrc
    by (intros x ->%list_elem_of_singleton; exists b; split; [left|done]).
  destruct (search_loop_total (states d) [b] anc (mark_fuel (states d) [b]) ∅ [b] Hcl) as [r Hr].
  - by intros x ->%list_elem_of_singleton.
  - done.
  - unfold mark_fuel. cbn. rewrite difference_empty_L, size_dom. lia.
  - rewrite Hr. cbn [mbind result_bind].
    pose proof (search_loop_spec (states d) [b] anc (mark_fuel (states d) [b]) ∅ [b] r) as Hspec.
    specialize (Hspec ltac:(intros c p Hc; set_solver) Hsrc ltac:(set_solver) Hr).
    destruct r as [c|]; cbn [ok_or].
    + destruct Hspec as [Hc (s & ->%list_elem_of_singleton & Hbc)]. split_and!; [by apply Hanc|done|].
      intros Hlin x Hax Hbx. eapply search_loop_linear; [exact Hlin|exact Hr| |done]. by apply Hanc.
    + split; [done|]. intros x [Hax Hbx]. apply (Hspec b x); [right; left|done|]. by apply Hanc.
Qed.

(** C31: Merging is an exact three-way merge. A successful merge takes every change of either
    branch since a base that is an ancestor of both heads and, when nothing was ever merged
    into the source, the lowest one (every common ancestor is an ancestor of it); and it takes
    nothing else: a path the source changed has the source's entry, a path the target changed
    the target's, other paths the base's. The merge node
    has both heads as parents and records the delta against the target, the target's head
    moves to it, the source becomes merged, and the node's manifest loads as the merged one
    (given that serde reads back what it wrote, and up to a SHA-256 collision). *)
Theorem merge_three_way `{!Serde, !Sha256, !ManifestSerde} d f target source actor node d' :
  dag_ok d -> merge d f target source actor = (Ok node, d') ->
  exists tb sb base base_m tgt_m src_m merged,
    get_branch d target = Ok tb /\ get_branch d source = Ok sb
    /\ ancestor (states d) (head tb) base /\ ancestor (states d) (head sb) base
    /\ ((forall y n, ancestor (states d) (head sb) y -> states d !! y = Some n -> merge_parent n = None) ->
        forall x, ancestor (states d) (head tb) x -> ancestor (states d) (head sb) x -> ancestor (states d) base x)
    /\ manifest_of d base = Ok base_m /\ manifest_of d (head tb) = Ok tgt_m
    /\ manifest_of d (head sb) = Ok src_m
    /\ (forall p, (src_m !! p <> base_m !! p -> merged !! p = src_m !! p)
                /\ (tgt_m !! p <> base_m !! p -> merged !! p = tgt_m !! p)
                /\ (src_m !! p = base_m !! p -> tgt_m !! p = base_m !! p -> merged !! p = base_m !! p))
    /\ parents_of node = [head tb; head sb] /\ files (node_delta node) = diff_manifests tgt_m merged
    /\ get_branch d' target = Ok (mkBranch target (b_episode tb) (base_state tb) (node_id node) Active)
    /\ get_branch d' source = Ok (mkBranch source (b_episode sb) (base_state sb) (head sb) Merged)
    /\ (manifest_of_slice (canonical_json (manifest_to_value merged)) = Ok merged ->
        manifest_of d' (node_id node) = Ok merged \/ sha256_collision).
Proof.
  intros Hok. unfold merge.
  destruct (merge_plan d target source) as [[[[[[tb sb] tn] sn] tm] mg]|e] eqn:Ep; [|done].
  apply merge_plan_Ok in Ep as (Hne & Htb & Hta & Hsb & Hsa & Htn & Hsn & base & bm & sm & Hl & Hbm & Htm & Hsm & Hmm).
  destruct (manifest_store (dag_cas d) mg) as [[root cas']|e] eqn:Es; [|done]. cbv zeta.
  destruct (append_node (set_cas d cas') target _) as [d''|e] eqn:Ea; [|done]. intros [= <- <-].
  unfold append_node in Ea. apply bind_Ok in Ea as (sts & Hi & [= <-]).
  apply insert_row_once_Ok in Hi as [Hfresh ->]. cbn [states set_cas episodes branches dag_cas stat_caches] in *.
  apply merge_manifests_spec in Hmm as [Hcf Hmg].
  pose proof (lca_common_ancestor d (head tb) (head sb) (ok_closed d Hok)
    (mk_is_Some _ _ Htn) (mk_is_Some _ _ Hsn)) as Hlca. rewrite Hl in Hlca.
  destruct Hlca as (Hat & Has & Hlow).
  exists tb, sb, base, bm, tm, sm, mg. split_and!; try done.
  - unfold manifest_of, get_state, load_state. by rewrite Htn.
  - unfold manifest_of, get_state, load_state. by rewrite Hsn.
  - intros p. rewrite Hmg.
    destruct (choose_entry (bm !! p) (tm !! p) (sm !! p)) as [o|] eqn:Ec.
    + by apply choose_entry_Some.
    + apply choose_entry_conflict, Hcf in Ec. by apply elem_of_nil in Ec.
  - apply load_branch_Ok in Htb as (r & Hr & Hs & Heq). apply load_branch_Ok. cbn.
    unfold set_status, set_head. rewrite lookup_alter_ne by done. rewrite lookup_alter_eq, Hr.
    eexists. split; [reflexivity|]. cbn. rewrite Hta in Hs. split; [done|].
    rewrite Heq. cbn. by rewrite (ok_branch_ids d Hok _ _ Hr).
  - apply load_branch_Ok in Hsb as (r & Hr & Hs & Heq). apply load_branch_Ok. cbn.
    unfold set_status, set_head. rewrite lookup_alter_eq, lookup_alter_ne, Hr by done.
    eexists. split; [reflexivity|]. cbn. split; [done|].
    rewrite Heq. cbn. by rewrite (ok_branch_ids d Hok _ _ Hr).
  - intros Hserde. unfold manifest_of, get_state, load_state. cbn. rewrite lookup_insert_eq.
    cbn [ok_or mbind result_bind]. unfold manifest_load. cbn.
    destruct (put_get _ _ _ _ (ok_cas d Hok) Es) as [->|?]; [left|by right].
    cbn [mbind result_bind]. by rewrite Hserde.
Qed.

(** * Conflicts come from the merge alone *)

Section no_conflict.
Context `{!Serde, !Sha256, !ManifestSerde}.

Definition no_conflict {A} (r : KernelResult A) : Prop := forall ps, r <> Err (MergeConflict ps).

Lemma no_conflict_bind {A B} (r : KernelResult A) (k : A -> KernelResult B) :
  no_conflict r -> (forall a, no_conflict (k a)) -> no_conflict (r ≫= k).
Proof. intros Hr Hk ps [?|(a & _ & ?)]%bind_Err; [by eapply Hr|by eapply Hk]. Qed.

Lemma no_conflict_Ok {A} (a : A) : no_conflict (Ok a).
Proof. done. Qed.

Lemma no_conflict_not_found {A} (o : option A) kind id : no_conflict (ok_or o (NotFound kind id)).
Proof. by destruct o. Qed.

Lemma no_conflict_storage {A} (o : option A) msg : no_conflict (ok_or o (Storage msg)).
Proof. by destruct o. Qed.

Lemma load_branch_no_conflict brs id : no_conflict (load_branch brs id).
Proof.
  apply no_conflict_bind; [apply no_conflict_not_found|]. intros r. apply no_conflict_bind; [|done].
  unfold status_parse. by repeat case_match.
Qed.

Lemma ensure_active_no_conflict b : no_conflict (ensure_active b).
Proof. unfold ensure_active. by destruct (b_status b). Qed.

Lemma mark_loop_no_conflict {A} (visit : StateNode -> A -> KernelResult A) fuel sts seen acc queue :
  (forall n a, no_conflict (visit n a)) -> no_conflict (mark_loop visit fuel sts seen acc queue).
Proof.
  intros Hv. revert seen acc queue. induction fuel as [|fuel IH]; intros seen acc [|id q]; try done.
  cbn [mark_loop]. case_decide; [apply IH|]. apply no_conflict_bind; [apply no_conflict_not_found|].
  intros n. apply no_conflict_bind; [apply Hv|]. intros a. apply IH.
Qed.

Lemma search_loop_no_conflict fuel sts targets seen queue :
  no_conflict (search_loop fuel sts targets seen queue).
Proof.
  revert seen queue. induction fuel as [|fuel IH]; intros seen [|id q]; try done.
  cbn [search_loop]. case_decide; [done|]. case_decide; [apply IH|].
  apply no_conflict_bind; [apply no_conflict_not_found|]. intros n. apply IH.
Qed.

Lemma lca_no_conflict d a b : no_conflict (lca d a b).
Proof.
  apply no_conflict_bind; [|intros anc; apply no_conflict_bind].
  - apply no_conflict_bind; [|done]. by apply mark_loop_no_conflict.
  - apply search_loop_no_conflict.
  - intros o. apply no_conflict_storage.
Qed.

Lemma blob_path_no_conflict h : no_conflict (blob_path h).
Proof. apply no_conflict_bind; [|done]. unfold hex_of. by repeat case_match. Qed.

Lemma manifest_load_no_conflict cas root : no_conflict (manifest_load cas root).
Proof.
  apply no_conflict_bind.
  - apply no_conflict_bind; [apply blob_path_no_conflict|]. intros p.
    apply no_conflict_bind; [apply no_conflict_not_found|]. intros b. cbv zeta. by case_match.
  - intros b. by destruct (manifest_of_slice b).
Qed.

Lemma put_no_conflict cas b : no_conflict (put cas b).
Proof. apply no_conflict_bind; [apply blob_path_no_conflict|done]. Qed.

Lemma append_node_no_conflict d branch node : no_conflict (append_node d branch node).
Proof.
  apply no_conflict_bind; [|done]. unfold insert_state, insert_row_once. by case_match.
Qed.

(** A merge that reports a conflict stopped in its plan, before any write. *)
Lemma merge_conflict_plan d f target source actor ps d' :
  merge d f target source actor = (Err (MergeConflict ps), d') ->
  merge_plan d target source = Err (MergeConflict ps) /\ d' = d.
Proof.
  unfold merge. destruct (merge_plan d target source) as [[[[[[tb sb] tn] sn] tm] mg]|e].
  - destruct (manifest_store (dag_cas d) mg) as [[root cas']|e] eqn:Es.
    + cbv zeta. destruct (append_node _ _ _) as [d''|e] eqn:Ea; intros [= -> _].
      by apply append_node_no_conflict in Ea.
    + intros [= -> _]. by apply put_no_conflict in Es.
  - by intros [= -> <-].
Qed.
End no_conflict.

(** Step over a computation that never reports a conflict. *)
Ltac conflict_from Hplan x :=
  let Hx := fresh "H" x in
  apply bind_Err in Hplan as [Hplan|(x & Hx & Hplan)];
  [exfalso; revert Hplan;
   first [apply load_branch_no_conflict | apply ensure_active_no_conflict | apply lca_no_conflict
         | apply manifest_load_no_conflict | apply no_conflict_not_found | by unfold fail_if; case_match] |].

(** A merge fails with a conflict exactly on the paths both branches changed differently
    since the base, whichever branch is the target, and writes nothing. *)
Theorem merge_conflicts_exact `{!Serde, !Sha256, !ManifestSerde} d f target source actor paths d' :
  merge d f target source actor = (Err (MergeConflict paths), d') ->
  d' = d /\ paths <> []
  /\ exists tb sb base base_m tgt_m src_m,
       get_branch d target = Ok tb /\ get_branch d source = Ok sb
       /\ lca d (head tb) (head sb) = Ok base
       /\ manifest_of d base = Ok base_m /\ manifest_of d (head tb) = Ok tgt_m
       /\ manifest_of d (head sb) = Ok src_m
       /\ forall p, p ∈ paths <->
            src_m !! p <> base_m !! p /\ tgt_m !! p <> base_m !! p /\ tgt_m !! p <> src_m !! p.
Proof.
  intros Hm. apply merge_conflict_plan in Hm as [Hplan ->]. split; [done|].
  unfold merge_plan in Hplan. conflict_from Hplan u. conflict_from Hplan tb. conflict_from Hplan sb.
  conflict_from Hplan u1. conflict_from Hplan u2. conflict_from Hplan base. conflict_from Hplan bn.
  conflict_from Hplan bm. conflict_from Hplan tn. conflict_from Hplan srcn. conflict_from Hplan tm.
  conflict_from Hplan sm. destruct (merge_manifests bm tm sm) as [mg cs] eqn:Emm.
  apply bind_Err in Hplan as [Hf|([] & _ & [=])]. unfold fail_if in Hf.
  case_bool_decide as Hcs; cbn in Hf; [done|]. injection Hf as <-. split; [done|].
  exists tb, sb, base, bm, tm, sm. split_and!; try done.
  - unfold manifest_of. by rewrite Hbn.
  - unfold manifest_of. by rewrite Htn.
  - unfold manifest_of. by rewrite Hsrcn.
  - intros p. rewrite (proj1 (merge_manifests_spec _ _ _ _ _ Emm) p). unfold conflicting. tauto.
Qed.

(** * Witnesses and counterexamples *)

Module DagDemo.
#[local] Existing Instance ToySha.serde.
#[local] Existing Instance ToySha.sha256.

Definition second : Z := 1000000000.

(** One file with the given content, written long before any snapshot. *)
Definition tree (content : string) : Fs := mkFs {[ ["f"] := FFile content 420 second ]} ∅.

Definition manifest (content : string) : gmap string ManifestEntry :=
  {[ "f" := mkEntry (hash_bytes content) 420 ]}.

(** A parser that knows the manifests of the demo. *)
Definition known : list (gmap string ManifestEntry) :=
  [∅; manifest "v0"; manifest "v1"; manifest "v2"].

#[local] Instance manifest_serde : ManifestSerde :=
  {| manifest_of_slice s :=
       match List.find (fun m => bool_decide (s = canonical_json (manifest_to_value m))) known with
       | Some m => Ok m
       | None => Err "unknown"
       end |}.

Definition ids (ep br st : string) : Fresh := mkFresh ep br st 0.

Definition no_branch : Branch := mkBranch "" "" "" "" Active.

(** Main records [v0] then [v1]. *)
Definition d1 := (create_episode (dag_init ∅) (ids "ep" "main" "R") "agent" (Some (tree "v0"))
                    (9 * second) FilesystemOnly "demo").2.
Definition d2 := (snapshot_and_append d1 (ids "" "" "S") "main" "sp" "agent" "/main" (tree "v1")
                    (9 * second) FilesystemOnly).2.
(** A feature branch from the root, into which main is merged. *)
Definition d3 := (value_of (no_branch, d2) (fork d2 (ids "" "feature" "") "R")).2.
Definition d4 := (merge d3 (ids "" "" "M") "feature" "main" "agent").2.
(** A second branch from [S] that puts [v0] back, or edits to [v2]. *)
Definition d5 := (value_of (no_branch, d4) (fork d4 (ids "" "g" "") "S")).2.
Definition d6 (content : string) :=
  (snapshot_and_append d5 (ids "" "" "G") "g" "sp" "agent" "/g" (tree content) (9 * second)
     FilesystemOnly).2.
Definition d7 := (merge (d6 "v0") (ids "" "" "N") "g" "feature" "agent").2.


(** The base [lca] picks need not be the lowest common ancestor once a history has
    merges, and a merge then drops an edit. [feature] (head [M]) merged [main] (head [S],
    which set [f] to [v1]); [g] forks from [S] and puts [v0] back. [S] is an ancestor of
    both heads and a descendant of the base [R] that [lca] returns; merging [feature]
    into [g] succeeds and sets [f] to [v1] again, although since [S] only [g] changed it. *)
Theorem lca_not_lowest_drops_edit :
  lca (d6 "v0") "G" "M" = Ok "R"
  /\ node_parent <$> states (d6 "v0") !! "G" = Some (Some "S")
  /\ merge_parent <$> states (d6 "v0") !! "M" = Some (Some "S")
  /\ node_parent <$> states (d6 "v0") !! "S" = Some (Some "R")
  /\ manifest_of (d6 "v0") "S" = Ok (manifest "v1")
  /\ manifest_of (d6 "v0") "M" = Ok (manifest "v1")
  /\ manifest_of (d6 "v0") "G" = Ok (manifest "v0")
  /\ br_head <$> branches d7 !! "g" = Some "N"
  /\ manifest_of d7 "N" = Ok (manifest "v1").
Proof. vm_compute. repeat split. Qed.

(** ** A collection behind a warm stat cache *)

Definition e1 := (create_episode (dag_init ∅) (ids "ep" "main" "R") "agent" None 0 FilesystemOnly "demo").2.
Definition e2 := (value_of (no_branch, e1) (fork e1 (ids "" "tmp" "") "R")).2.
Definition e3 := (snapshot_and_append e2 (ids "" "" "T") "tmp" "sp" "agent" "/ws" (tree "v1")
                    (9 * second) FilesystemOnly).2.
Definition e4 := value_of e3 (discard_branch e3 "tmp").
Definition e5 := (value_of (mkGcReport 0 0, e4) (gc e4)).2.
Definition e6 := snapshot_and_append e5 (ids "" "" "S") "main" "sp" "agent" "/ws" (tree "v1")
                   (19 * second) FilesystemOnly.

(** [gc] does not invalidate the stat caches: after a discarded branch's blobs are
    collected, a snapshot of the same directory trusts the cache, stores no content, and
    the state it appends names a blob that is gone, so it cannot be materialized. *)
Theorem gc_leaves_stale_cache :
  is_ok e6.1 = true /\ manifest_of e6.2 "S" = Ok (manifest "v1")
  /\ (dag_materialize e6.2 "S" "/restore" (mkFs ∅ ∅) (29 * second) (29 * second)).1
     = Err (NotFound "blob" (hash_bytes "v1")).
Proof. vm_compute. repeat split. Qed.

(** ** Witnesses *)

Lemma empty_store_ok : cas_ok ∅.
Proof. intros p b Hp. by rewrite lookup_empty in Hp. Qed.

Lemma d1_reached : rtc dag_step (dag_init ∅) d1.
Proof. apply rtc_once. unfold d1. apply step_call, step_create. Qed.

Lemma e1_ok : dag_ok e1.
Proof. eapply dag_reachable_ok; [apply empty_store_ok|]. apply rtc_once. unfold e1. apply step_call, step_create. Qed.

Definition feature := (value_of (no_branch, d2) (fork d2 (ids "" "feature" "") "R")).1.
Definition tmp := (value_of (no_branch, e1) (fork e1 (ids "" "tmp" "") "R")).1.

Lemma d3_forked : fork d2 (ids "" "feature" "") "R" = Ok (feature, d3).
Proof. unfold feature, d3. apply value_of_ok_pair. vm_compute. reflexivity. Qed.

Lemma e2_forked : fork e1 (ids "" "tmp" "") "R" = Ok (tmp, e2).
Proof. unfold tmp, e2. apply value_of_ok_pair. vm_compute. reflexivity. Qed.

Lemma e4_discarded : discard_branch e3 "tmp" = Ok e4.
Proof. unfold e4. apply value_of_ok. vm_compute. reflexivity. Qed.

Lemma d2_step : dag_step d1 d2.
Proof. unfold d2. apply step_call, step_snapshot. Qed.

Lemma e3_step : dag_step e2 e3.
Proof. unfold e3. apply step_call, step_snapshot. Qed.

Lemma d3_ok : dag_ok d3.
Proof.
  pose proof (dag_reachable_ok ∅ d1 empty_store_ok d1_reached) as Hd1.
  pose proof (proj1 (dag_step_ok d1 d2 Hd1 d2_step)) as Hd2.
  exact (proj1 (dag_step_ok d2 d3 Hd2 (step_call _ _ (step_fork d2 _ _ feature d3 d3_forked)))).
Qed.

Lemma e4_ok : dag_ok e4.
Proof.
  pose proof (proj1 (dag_step_ok e1 e2 e1_ok (step_call _ _ (step_fork e1 _ _ tmp e2 e2_forked)))) as He2.
  pose proof (proj1 (dag_step_ok e2 e3 He2 e3_step)) as He3.
  exact (proj1 (dag_step_ok e3 e4 He3 (step_call _ _ (step_discard e3 _ e4 e4_discarded)))).
Qed.

Lemma e5_collected : gc e4 = Ok ((value_of (mkGcReport 0 0, e4) (gc e4)).1, e5).
Proof. unfold e5. apply value_of_ok_pair. vm_compute. reflexivity. Qed.

Lemma e4_manifests : live_manifests e4.
Proof.
  exact (gc_live_manifests e4 (value_of (mkGcReport 0 0, e4) (gc e4)).1 e5 e5_collected).
Qed.

Lemma dag_keeps_history_witness : dag_ok d2 /\ keeps_live d1 d2.
Proof. exact (dag_keeps_history ∅ d1 d2 empty_store_ok d1_reached d2_step). Defined.

Lemma gc_exact_witness : exists rep d', gc e4 = Ok (rep, d') /\ branches d' = branches e4.
Proof.
  destruct (gc_exact e4 e4_ok e4_manifests) as (rep & d' & Hg & Hb & _).
  exact (ex_intro _ rep (ex_intro _ d' (conj Hg Hb))).
Defined.

Lemma d3_lca : lca d3 "R" "S" = Ok "R".
Proof. vm_compute. reflexivity. Qed.

Lemma d3_stored : bool_decide (is_Some (states d3 !! "R") /\ is_Some (states d3 !! "S")) = true.
Proof. vm_compute. reflexivity. Qed.

Lemma lca_common_ancestor_witness :
  ancestor (states d3) "R" "R" /\ ancestor (states d3) "S" "R".
Proof.
  pose proof (lca_common_ancestor d3 "R" "S" (ok_closed d3 d3_ok)
                (proj1 (proj1 (bool_decide_eq_true _) d3_stored))
                (proj2 (proj1 (bool_decide_eq_true _) d3_stored))) as Hl.
  rewrite d3_lca in Hl. exact (conj (proj1 Hl) (proj1 (proj2 Hl))).
Defined.

Definition dflt_node : StateNode := root_node (ids "" "" "") "" "" AuditOnly.
Definition merge_outcome := merge d3 (ids "" "" "M") "feature" "main" "agent".
Definition merged_node : StateNode := value_of dflt_node merge_outcome.1.

Lemma merge_outcome_ok : merge d3 (ids "" "" "M") "feature" "main" "agent" = (Ok merged_node, d4).
Proof. unfold merged_node, d4. fold merge_outcome. apply outcome_ok. vm_compute. reflexivity. Qed.

Lemma merge_three_way_witness :
  exists t s base, parents_of merged_node = [t; s] /\ ancestor (states d3) t base /\ ancestor (states d3) s base.
Proof.
  destruct (merge_three_way d3 (ids "" "" "M") "feature" "main" "agent" merged_node d4 d3_ok
              merge_outcome_ok) as (tb & sb & base & ? & ? & ? & ? & _ & _ & Ht & Hs & _ & _ & _ & _ & _ & Hp & _).
  exact (ex_intro _ (head tb) (ex_intro _ (head sb) (ex_intro _ base (conj Hp (conj Ht Hs))))).
Defined.

Lemma g_conflicts :
  (merge (d6 "v2") (ids "" "" "N") "g" "feature" "agent").1 = Err (MergeConflict ["f"]).
Proof. vm_compute. reflexivity. Qed.

Lemma merge_conflicts_exact_witness :
  (merge (d6 "v2") (ids "" "" "N") "g" "feature" "agent").2 = d6 "v2".
Proof.
  refine (proj1 (merge_conflicts_exact (d6 "v2") (ids "" "" "N") "g" "feature" "agent" ["f"] _ _)).
  exact (eq_trans (surjective_pairing _) (f_equal (fun r => (r, _)) g_conflicts)).
Defined.
End DagDemo.
