(* ===== verification/DagScope.v ===== *)
(** What one call of the world-state DAG may reach.

    [touches T] bounds the branch rows a call writes; [apart] is the invariant
    that keeps episodes apart: history never crosses an episode, so branches
    of different episodes have no common ancestor and cannot be merged. *)

From S2P Require Import Prelude Json Budget Capability Types Canonical Effect Snapshot Dag.

Open Scope Z_scope.

(** * Reach *)

(** Rows outside [T] are kept as they are. *)
Definition touches (T : string -> Prop) (d d' : StateDag) : Prop :=
  forall br row, branches d !! br = Some row -> ~ T br -> branches d' !! br = Some row.

Section reach.
Context `{!Serde, !Sha256, !ManifestSerde} (T : string -> Prop).

Lemma touches_same d d' : branches d' = branches d -> touches T d d'.
Proof. intros Heq br row Hr _. by rewrite Heq. Qed.

Lemma touches_trans d1 d2 d3 : touches T d1 d2 -> touches T d2 d3 -> touches T d1 d3.
Proof. intros Ha Hb br row Hr Hn. by apply Hb, Hn; apply Ha. Qed.

Lemma touches_alter d eps sts cas caches f branch :
  T branch -> touches T d (mkDag eps sts (alter f branch (branches d)) cas caches).
Proof. intros HT br row Hr Hn. cbn. rewrite lookup_alter_ne; [done|]. by intros ->. Qed.

Lemma touches_insert d key row col brs eps sts cas caches :
  insert_row_once (branches d) key row col = Ok brs -> touches T d (mkDag eps sts brs cas caches).
Proof.
  intros [Hn ->]%insert_row_once_Ok br r Hr _. cbn. rewrite lookup_insert_ne; [done|]. intros ->. congruence.
Qed.

Lemma create_touches d f actor w started rc objective :
  touches T d (create_episode d f actor w started rc objective).2.
Proof.
  unfold create_episode. destruct (match w with Some _ => _ | None => _ end) as [[root cas']|]; [|by apply touches_same].
  cbv zeta. destruct (create_rows _ _ _ _) as [d''|] eqn:Ec; [|by apply touches_same].
  unfold create_rows in Ec. apply bind_Ok in Ec as (eps & _ & Ec). apply bind_Ok in Ec as (sts & _ & Ec).
  apply bind_Ok in Ec as (brs & Hb & [= <-]).
  eapply touches_trans; [by apply (touches_same d (set_cas d cas'))|]. by eapply touches_insert.
Qed.

Lemma append_node_touches d branch node d' : T branch -> append_node d branch node = Ok d' -> touches T d d'.
Proof. intros HT. unfold append_node. intros (sts & _ & [= <-])%bind_Ok. by apply touches_alter. Qed.

Lemma append_touches d f branch step actor delta root rc n d' :
  T branch -> append_step d f branch step actor delta root rc = Ok (n, d') -> touches T d d'.
Proof.
  intros HT. unfold append_step. intros Ha. repeat (apply bind_Ok in Ha as (? & ? & Ha)). simplify_eq.
  by eapply append_node_touches.
Qed.

Lemma snapshot_touches d f branch step actor dir fs started rc :
  T branch -> touches T d (snapshot_and_append d f branch step actor dir fs started rc).2.
Proof.
  intros HT. unfold snapshot_and_append. repeat case_match; simplify_eq; try by apply touches_same.
  match goal with Hb : mbind _ _ = Ok _ |- _ => apply bind_Ok in Hb as (old & _ & Ha) end.
  eapply touches_trans; [|by eapply append_touches]. by apply touches_same.
Qed.

Lemma materialize_touches d state target fs started now :
  touches T d (dag_materialize d state target fs started now).2.
Proof.
  unfold dag_materialize. destruct (get_state d state); [|by apply touches_same]. cbv zeta.
  destruct (materialize_with_cache _ _ _ _ _ _) as [[fs' c]|]; by apply touches_same.
Qed.

Lemma fork_touches d f from b d' : fork d f from = Ok (b, d') -> touches T d d'.
Proof.
  unfold fork. intros (base & _ & Hf)%bind_Ok. apply bind_Ok in Hf as (brs & Hb & [= _ <-]).
  by eapply touches_insert.
Qed.

Lemma discard_touches d branch d' : T branch -> discard_branch d branch = Ok d' -> touches T d d'.
Proof.
  intros HT. unfold discard_branch. intros (b & _ & Hd)%bind_Ok. case_decide; [done|]. injection Hd as <-.
  by apply touches_alter.
Qed.

(** A merge that fails moves no branch; one that succeeds moves both. *)
Lemma merge_touches d f target source actor :
  T target -> (forall n, (merge d f target source actor).1 = Ok n -> T source) ->
  touches T d (merge d f target source actor).2.
Proof.
  intros HT HS. unfold merge in *. destruct (merge_plan _ _ _) as [[[[[[tb sb] tn] sn] tm] mm]|]; [|by apply touches_same].
  destruct (manifest_store _ _) as [[root cas']|]; [|by apply touches_same]. cbv zeta in *.
  destruct (append_node _ _ _) as [d''|] eqn:Ea; [|by apply touches_same].
  eapply touches_trans; [by apply (touches_same d (set_cas d cas'))|].
  eapply touches_trans; [by eapply append_node_touches|]. apply touches_alter. by eapply HS.
Qed.
End reach.

(** * Episodes are apart *)

Record apart (d : StateDag) : Prop := {
  ap_edges c n p m : states d !! c = Some n -> p ∈ parents_of n -> states d !! p = Some m ->
    node_episode m = node_episode n;
  ap_heads br row n : branches d !! br = Some row -> br_status row <> "discarded" ->
    states d !! br_head row = Some n -> node_episode n = br_episode row;
}.

Section apart.
Context `{!Serde, !Sha256, !ManifestSerde}.

Lemma apart_init cas : apart (dag_init cas).
Proof. split; cbn; intros *; by rewrite lookup_empty. Qed.

Lemma ancestor_episode d x y n m :
  dag_ok d -> apart d -> ancestor (states d) x y -> states d !! x = Some n -> states d !! y = Some m ->
  node_episode m = node_episode n.
Proof.
  intros Hok Hap Ha. revert n. induction Ha as [x|x z y (nx & Hx & Hz) _ IH]; intros n Hn Hm; [by simplify_eq|].
  simplify_eq. destruct (ok_closed d Hok x z) as [nz Hnz]; [by eexists|].
  rewrite (IH nz Hnz Hm). by eapply ap_edges.
Qed.

Lemma merge_plan_episode d target source tb sb tn sn tm mm :
  dag_ok d -> apart d -> merge_plan d target source = Ok (tb, sb, tn, sn, tm, mm) ->
  b_episode tb = b_episode sb /\ node_episode tn = b_episode tb /\ node_episode sn = b_episode tb.
Proof.
  intros Hok Hap (Hne & Htb & Hta & Hsb & Hsa & Htn & Hsn & base & _ & _ & Hl & _)%merge_plan_Ok.
  assert (forall br b n, load_branch (branches d) br = Ok b -> b_status b = Active -> states d !! head b = Some n ->
    node_episode n = b_episode b) as Hhead.
  { intros br b n (r & Hr & Hs & Heq)%load_branch_Ok Hact Hn. rewrite Heq in Hn |- *. cbn in *.
    eapply (ap_heads d Hap); [exact Hr| |done]. rewrite Hs, Hact. done. }
  pose proof (lca_common_ancestor d (head tb) (head sb) (ok_closed d Hok)) as Hlca. rewrite Hl in Hlca.
  destruct Hlca as (Ht & Hs & _); [by eexists..|].
  destruct (ancestor_stored (states d) (head tb) base (ok_closed d Hok)) as [nb Hnb]; [by eexists|done|].
  pose proof (ancestor_episode _ _ _ _ _ Hok Hap Ht Htn Hnb). pose proof (ancestor_episode _ _ _ _ _ Hok Hap Hs Hsn Hnb).
  pose proof (Hhead _ _ _ Htb Hta Htn). pose proof (Hhead _ _ _ Hsb Hsa Hsn). split_and!; congruence.
Qed.

(** ** Preservation *)

Lemma apart_branches d eps brs cas caches :
  apart d ->
  (forall br row n, brs !! br = Some row -> br_status row <> "discarded" -> states d !! br_head row = Some n ->
     node_episode n = br_episode row) ->
  apart (mkDag eps (states d) brs cas caches).
Proof. intros [He _] Hb. by split. Qed.

Lemma apart_node d eps node brs cas caches :
  dag_ok d -> apart d -> states d !! node_id node = None ->
  (forall p m, p ∈ parents_of node -> states d !! p = Some m -> node_episode m = node_episode node) ->
  (forall p, p ∈ parents_of node -> is_Some (states d !! p)) ->
  (forall br row n, brs !! br = Some row -> br_status row <> "discarded" ->
     <[node_id node := node]> (states d) !! br_head row = Some n -> node_episode n = br_episode row) ->
  apart (mkDag eps (<[node_id node := node]> (states d)) brs cas caches).
Proof.
  intros Hok [He _] Hfresh Hp Hst Hb. split; [|done]. cbn. intros c n p m Hc Hin Hpm.
  assert (is_Some (states d !! p)) as [m' Hm'].
  { apply lookup_insert_Some in Hc as [[_ <-]|[_ Hc]]; [by apply Hst|]. apply (ok_closed d Hok c p). by exists n. }
  rewrite lookup_insert_ne in Hpm by (intros <-; congruence).
  apply lookup_insert_Some in Hc as [[_ <-]|[_ Hc]]; [by eapply Hp|by eapply He].
Qed.

(** Heads that were stored do not move to the fresh node. *)
Lemma apart_old_heads d node br row n :
  dag_ok d -> apart d -> states d !! node_id node = None -> branches d !! br = Some row ->
  br_status row <> "discarded" -> <[node_id node := node]> (states d) !! br_head row = Some n ->
  node_episode n = br_episode row.
Proof.
  intros Hok Hap Hfresh Hr Hs Hn. destruct (dag_ok_branches d Hok br row Hr) as (_ & _ & Hh).
  destruct (Hh Hs) as [n' Hn']. rewrite lookup_insert_ne in Hn by (intros Heq; rewrite Heq in Hfresh; congruence).
  by eapply (ap_heads d Hap).
Qed.

Lemma append_node_apart d branch node d' row :
  dag_ok d -> apart d -> branches d !! branch = Some row -> br_episode row = node_episode node ->
  (forall p, p ∈ parents_of node -> exists m, states d !! p = Some m /\ node_episode m = node_episode node) ->
  append_node d branch node = Ok d' -> apart d'.
Proof.
  intros Hok Hap Hrow Hep Hp (sts & Hi & [= <-])%bind_Ok. apply insert_row_once_Ok in Hi as [Hfresh ->].
  apply apart_node; [done|done|done| | |].
  - intros p m (m' & Hm' & <-)%Hp Hm. by simplify_eq.
  - intros p (m' & Hm' & _)%Hp. by exists m'.
  - intros br r n Hr Hs Hn. unfold set_head in Hr. apply lookup_alter_Some in Hr as [(<- & r0 & Hr0 & ->)|[_ Hr]].
    + cbn in *. rewrite lookup_insert_eq in Hn. by simplify_eq.
    + by eapply apart_old_heads.
Qed.

Lemma append_apart d f branch step actor delta root rc n d' :
  dag_ok d -> apart d -> append_step d f branch step actor delta root rc = Ok (n, d') -> apart d'.
Proof.
  intros Hok Hap. unfold append_step. intros (pr & _ & Ha)%bind_Ok.
  apply bind_Ok in Ha as ([] & _ & Ha). apply bind_Ok in Ha as (b & Hb & Ha).
  apply bind_Ok in Ha as (u & Hact%ensure_active_Ok & Ha). apply bind_Ok in Ha as (d1 & Hn & [= _ <-]).
  pose proof (active_head d branch b Hok Hb ltac:(by rewrite Hact)) as [h Hh].
  pose proof Hb as (r & Hr & Hs & Heq)%load_branch_Ok. rewrite Heq in Hh.
  eapply append_node_apart; [done|done|exact Hr| | |exact Hn]; cbn; rewrite Heq; [done|].
  intros p ->%list_elem_of_singleton. exists h. split; [exact Hh|]. cbn in *.
  eapply (ap_heads d Hap); [exact Hr|by rewrite Hs, Hact|done].
Qed.

Lemma set_cas_apart d cas' : apart d -> apart (set_cas d cas').
Proof. by intros [He Hh]. Qed.

Lemma put_cache_apart d dir cache : apart d -> apart (put_stat_cache d dir cache).
Proof. by intros [He Hh]. Qed.

Lemma create_apart d f actor w started rc objective :
  dag_ok d -> apart d -> apart (create_episode d f actor w started rc objective).2.
Proof.
  intros Hok Hap. unfold create_episode.
  destruct (match w with Some _ => _ | None => _ end) as [[root cas']|] eqn:Ew; [|done].
  cbv zeta. destruct (create_rows _ _ _ _) as [d''|] eqn:Ec; [|by apply set_cas_apart].
  unfold create_rows in Ec. apply bind_Ok in Ec as (eps & _ & Ec). apply bind_Ok in Ec as (sts & Hs & Ec).
  apply bind_Ok in Ec as (brs & Hb & [= <-]). apply insert_row_once_Ok in Hs as [Hfresh ->].
  apply insert_row_once_Ok in Hb as [Hnew ->]. cbn [snd].
  apply (apart_node d _ (root_node f actor root rc)); [done|done|done| | |].
  - by intros p m []%elem_of_nil.
  - by intros p []%elem_of_nil.
  - intros br row n [[<- <-]|[_ Hr]]%lookup_insert_Some Hst Hn; cbn in *.
    + rewrite lookup_insert_eq in Hn. by simplify_eq.
    + by eapply (apart_old_heads d (root_node f actor root rc)).
Qed.

Lemma snapshot_apart d f branch step actor dir fs started rc :
  dag_ok d -> apart d -> apart (snapshot_and_append d f branch step actor dir fs started rc).2.
Proof.
  intros Hok Hap. unfold snapshot_and_append. destruct (branch_head d branch) as [h|]; [|done]. cbv zeta.
  destruct (snapshot_dir_with_cache _ _ _ _) as [[[[root m] cas'] cache']|] eqn:Es; [|by apply put_cache_apart].
  destruct (manifest_load _ _ ≫= _) as [[n d'']|] eqn:Ea; [|by apply set_cas_apart, put_cache_apart].
  apply bind_Ok in Ea as (old & _ & Ha). eapply append_apart; [|by apply set_cas_apart, put_cache_apart|exact Ha].
  apply set_cas_ok; [by apply put_stat_cache_ok|]. by eapply snapshot_cache_grows.
Qed.

Lemma materialize_apart d state target fs started now :
  apart d -> apart (dag_materialize d state target fs started now).2.
Proof.
  intros Hap. unfold dag_materialize. destruct (get_state d state); [|done]. cbv zeta.
  destruct (materialize_with_cache _ _ _ _ _ _) as [[fs' c]|]; by apply put_cache_apart.
Qed.

Lemma fork_apart d f from b d' : apart d -> fork d f from = Ok (b, d') -> apart d'.
Proof.
  intros Hap. unfold fork. intros (base & Hbase%ok_or_Ok & Hf)%bind_Ok.
  apply bind_Ok in Hf as (brs & Hi & [= _ <-]). apply insert_row_once_Ok in Hi as [_ ->].
  apply apart_branches; [done|]. cbn [b_id b_episode base_state head b_status].
  intros br row n [[<- <-]|[_ Hr]]%lookup_insert_Some Hst Hn; cbn in *; [by simplify_eq|].
  by eapply (ap_heads d Hap).
Qed.

Lemma discard_apart d branch d' : apart d -> discard_branch d branch = Ok d' -> apart d'.
Proof.
  intros Hap. unfold discard_branch. intros (b & _ & Hd)%bind_Ok. case_decide; [done|]. injection Hd as <-.
  apply apart_branches; [done|]. intros br row n Hr Hst Hn. unfold set_status in Hr.
  apply lookup_alter_Some in Hr as [(<- & r0 & Hr0 & ->)|[_ Hr]]; [done|]. by eapply (ap_heads d Hap).
Qed.

Lemma merge_apart d f target source actor :
  dag_ok d -> apart d -> apart (merge d f target source actor).2.
Proof.
  intros Hok Hap. unfold merge. destruct (merge_plan _ _ _) as [[[[[[tb sb] tn] sn] tm] mm]|] eqn:Ep; [|done].
  pose proof (merge_plan_episode _ _ _ _ _ _ _ _ _ Hok Hap Ep) as (Heq & Ht & Hs).
  apply merge_plan_Ok in Ep as (Hne & Htb & Hta & Hsb & Hsa & Htn & Hsn & _).
  destruct (manifest_store _ _) as [[root cas']|] eqn:Es; [|done]. cbv zeta.
  destruct (append_node _ _ _) as [d''|] eqn:Ea; [|by apply set_cas_apart].
  apply load_branch_Ok in Htb as (r & Hr & _ & Hb).
  assert (apart d'') as Hap'.
  { refine (append_node_apart (set_cas d cas') target _ d'' r _ _ _ _ _ Ea).
    - apply set_cas_ok; [done|]. by eapply put_grows.
    - by apply set_cas_apart.
    - done.
    - rewrite Hb. done.
    - cbn. intros p [->|[->|[]%elem_of_nil]%elem_of_cons]%elem_of_cons; eauto. }
  apply apart_branches; [done|]. intros br row n Hrow Hst Hn. unfold set_status in Hrow.
  apply lookup_alter_Some in Hrow as [(<- & r0 & Hr0 & ->)|[_ Hrow]]; [|by eapply (ap_heads d'' Hap')].
  cbn in *. destruct (decide (br_status r0 = "discarded")) as [Hd|Hd]; [|by eapply (ap_heads d'' Hap')].
  unfold append_node in Ea. apply bind_Ok in Ea as (sts & _ & [= <-]). cbn in Hr0. unfold set_head in Hr0.
  rewrite lookup_alter_ne in Hr0 by done. apply load_branch_Ok in Hsb as (r1 & Hr1 & Hst1 & _).
  cbn in Hr0. rewrite Hr0 in Hr1. injection Hr1 as <-. rewrite Hd, Hsa in Hst1. done.
Qed.

Lemma dag_call_apart d d' : dag_call d d' -> dag_ok d -> apart d -> apart d'.
Proof.
  intros Hs Hok Hap. destruct Hs; [by apply create_apart|by eapply append_apart|by apply snapshot_apart
    |by apply materialize_apart|by eapply fork_apart|by eapply discard_apart|by apply merge_apart|by apply set_cas_apart].
Qed.

(** A merge that succeeds stays in one episode. *)
Lemma merge_one_episode d f target source actor n :
  dag_ok d -> apart d -> (merge d f target source actor).1 = Ok n ->
  exists tr sr, branches d !! target = Some tr /\ branches d !! source = Some sr /\ br_episode tr = br_episode sr.
Proof.
  intros Hok Hap Hm. unfold merge in Hm.
  destruct (merge_plan _ _ _) as [[[[[[tb sb] tn] sn] tm] mm]|] eqn:Ep; [|done].
  pose proof (merge_plan_episode _ _ _ _ _ _ _ _ _ Hok Hap Ep) as (Heq & _).
  apply merge_plan_Ok in Ep as (_ & Htb & _ & Hsb & _).
  apply load_branch_Ok in Htb as (tr & Htr & _ & Hb). apply load_branch_Ok in Hsb as (sr & Hsr & _ & Hb').
  exists tr, sr. split_and!; [done|done|]. rewrite Hb, Hb' in Heq. done.
Qed.
End apart.
