(* ===== verification/Gates.v ===== *)
(** Branch gates, [kernel/api/src/kernel.rs]: one transition at a time per branch.

    [branch_gate] gives the current gate of a branch, making one on first use;
    [lock_branch] waits for it; [forget_branch_gate] drops it from the table once
    a branch has ended, while tasks that looked it up before still wait for it.
    Tasks run the operations that take gates, split at each lookup, wait, check,
    durable transition and release, and interleave freely; a task may also be
    dropped at any await, as when its client disconnects, and then only releases
    what it holds.

    A gate is the branch it was made for and a serial number: the identity of
    its allocation.  A branch without an entry in [ended] is active. *)

From S2P Require Import Prelude Json Budget Capability Types Canonical Effect Snapshot Dag.

Open Scope nat_scope.

Inductive Op : Type :=
| OStep (branch : string)
| OFork (branch : string)
| OMerge (target source : string)
| ODiscard (branch : string).

(** The branches an operation locks, in order. *)
Definition needs (op : Op) : list string :=
  match op with
  | OStep b | OFork b | ODiscard b => [b]
  | OMerge target source => if decide (String.le target source) then [target; source] else [source; target]
  end.

Abbreviation Gate := (string * nat)%type (only parsing).

Inductive Phase : Type :=
| Asking (todo : list string)              (* to look up the gate of the first *)
| Waiting (gate : Gate) (todo : list string)
| Inside                                   (* all guards held *)
| Working                                  (* about its transition; a step, fork or discard found its branch active *)
| Ending (victim : string)                 (* to forget the gate of a branch that has ended *)
| Leaving.                                 (* to drop its guards *)

Record Task := mkTask { t_op : Op; t_held : list Gate; t_phase : Phase }.

Record Sys := mkSys {
  gates : gmap string nat;
  next_gate : nat;
  owners : gmap Gate nat;                  (* which task holds a gate *)
  ended : gmap string BranchStatus;
  tasks : list Task;
}.

Definition sys_init : Sys := mkSys ∅ 0 ∅ ∅ [].

(** Merging a branch into itself is refused before any gate is taken. *)
Definition start (op : Op) : Task :=
  match op with
  | OMerge target source => mkTask op [] (if decide (target = source) then Leaving else Asking (needs op))
  | _ => mkTask op [] (Asking (needs op))
  end.

Definition set_task (i : nat) (t : Task) (s : Sys) : Sys :=
  mkSys (gates s) (next_gate s) (owners s) (ended s) (<[i := t]> (tasks s)).
Definition set_owners (o : gmap Gate nat) (s : Sys) : Sys := mkSys (gates s) (next_gate s) o (ended s) (tasks s).
Definition set_ended (e : gmap string BranchStatus) (s : Sys) : Sys := mkSys (gates s) (next_gate s) (owners s) e (tasks s).

(** [branch_gate]. *)
Definition branch_gate (b : string) (s : Sys) : Gate * Sys :=
  match gates s !! b with
  | Some n => ((b, n), s)
  | None => ((b, next_gate s), mkSys (<[b := next_gate s]> (gates s)) (S (next_gate s)) (owners s) (ended s) (tasks s))
  end.

(** [forget_branch_gate]. *)
Definition forget_branch_gate (b : string) (s : Sys) : Sys :=
  mkSys (delete b (gates s)) (next_gate s) (owners s) (ended s) (tasks s).

Definition active (s : Sys) (b : string) : Prop := ended s !! b = None.
#[export] Instance active_dec s b : Decision (active s b).
Proof. unfold active. apply _. Defined.

(** What the task does on its own: goes on, fails at what it is doing, or is dropped. *)
Inductive Choice : Type := Go | Fail | Drop.

Definition phase_of (t : Task) (p : Phase) : Task := mkTask (t_op t) (t_held t) p.

(** Entering the critical section. *)
Definition enter (t : Task) (s : Sys) : Phase :=
  match t_op t with
  | OStep b | OFork b => if decide (active s b) then Working else Leaving
  | ODiscard b =>
      match ended s !! b with
      | None => Working
      | Some Merged => Ending b
      | Some _ => Leaving
      end
  | OMerge _ _ => Working
  end.

(** The durable transition. *)
Definition transit (t : Task) (s : Sys) : Phase * Sys :=
  match t_op t with
  | OStep _ | OFork _ => (Leaving, s)
  | ODiscard b => (Ending b, set_ended (<[b := Discarded]> (ended s)) s)
  | OMerge target source =>
      if decide (active s target /\ active s source)
      then (Ending source, set_ended (<[source := Merged]> (ended s)) s)
      else (Leaving, s)
  end.

(** One move of task [i]; [None] when it cannot move that way. *)
Definition task_step (c : Choice) (i : nat) (s : Sys) : option Sys :=
  t ← tasks s !! i;
  match t_phase t, c with
  | Leaving, Go =>
      match last (t_held t) with
      | Some g => Some (set_task i (mkTask (t_op t) (removelast (t_held t)) Leaving) (set_owners (delete g (owners s)) s))
      | None => None
      end
  | Leaving, _ => None
  | _, Drop => Some (set_task i (phase_of t Leaving) s)
  | Asking [], Go => Some (set_task i (phase_of t Inside) s)
  | Asking (b :: todo), Go =>
      let '(g, s') := branch_gate b s in Some (set_task i (phase_of t (Waiting g todo)) s')
  | Waiting g todo, Go =>
      match owners s !! g with
      | Some _ => None
      | None => Some (set_task i (mkTask (t_op t) (t_held t ++ [g]) (Asking todo)) (set_owners (<[g := i]> (owners s)) s))
      end
  | Inside, Go => Some (set_task i (phase_of t (enter t s)) s)
  | Working, Go => let '(p, s') := transit t s in Some (set_task i (phase_of t p) s')
  | Ending b, Go => Some (set_task i (phase_of t Leaving) (forget_branch_gate b s))
  | Working, Fail | Ending _, Fail => Some (set_task i (phase_of t Leaving) s)
  | _, Fail => None
  end.

Inductive gate_step (s : Sys) : Sys -> Prop :=
| gs_start op : gate_step s (mkSys (gates s) (next_gate s) (owners s) (ended s) (tasks s ++ [start op]))
| gs_task c i s' : task_step c i s = Some s' -> gate_step s s'.

Definition finished (t : Task) : Prop := t_phase t = Leaving /\ t_held t = [].

#[export] Instance finished_dec t : Decision (finished t).
Proof. destruct t as [op [|g held] []]; try (left; done); right; intros [? ?]; done. Defined.

(** * The invariant *)

Definition is_merge (op : Op) : bool := match op with OMerge _ _ => true | _ => false end.

(** The guards held and the gates still to take are the branches of the operation, in
    order. *)
Definition shape (t : Task) : Prop :=
  match t_phase t with
  | Asking todo => (t_held t).*1 ++ todo = needs (t_op t)
  | Waiting g todo => (t_held t).*1 ++ g.1 :: todo = needs (t_op t)
  | Inside | Working | Ending _ => (t_held t).*1 = needs (t_op t)
  | Leaving => True
  end.

Definition concerns (t : Task) (g : Gate) : Prop := g ∈ t_held t \/ exists todo, t_phase t = Waiting g todo.

Record task_ok (s : Sys) (i : nat) (t : Task) : Prop := {
  ok_owner g : g ∈ t_held t -> owners s !! g = Some i;
  ok_nodup : NoDup (t_held t);
  ok_sorted : t_phase t <> Leaving -> StronglySorted str_lt (needs (t_op t));
  ok_shape : shape t;
  ok_current g : concerns t g -> active s g.1 -> gates s !! g.1 = Some g.2;
  ok_work : t_phase t = Working -> is_merge (t_op t) = false -> Forall (active s) (needs (t_op t));
  ok_end v : t_phase t = Ending v -> ~ active s v;
}.

Record inv (s : Sys) : Prop := {
  inv_tasks i t : tasks s !! i = Some t -> task_ok s i t;
  inv_owners g i : owners s !! g = Some i -> exists t, tasks s !! i = Some t /\ g ∈ t_held t;
}.

(** Tasks that do not move keep what they have. *)
Record frames (s s' : Sys) (i : nat) : Prop := {
  fr_tasks : tasks s' = tasks s;
  fr_owner g j : j <> i -> owners s !! g = Some j -> owners s' !! g = Some j;
  fr_active b : active s' b -> active s b;
  fr_gates b n : active s' b -> gates s !! b = Some n -> gates s' !! b = Some n;
  fr_work j t b : j <> i -> tasks s !! j = Some t -> t_phase t = Working -> is_merge (t_op t) = false ->
    b ∈ needs (t_op t) -> active s b -> active s' b;
}.

Lemma frame_task s s' i j t : frames s s' i -> j <> i -> tasks s !! j = Some t -> task_ok s j t -> task_ok s' j t.
Proof.
  intros Hf Hj Ht [Ho Hn Hs Hsh Hc Hw He]. split; auto.
  - intros g Hg. eapply fr_owner; eauto.
  - intros g Hg Ha. eapply fr_gates; eauto. apply Hc; [done|]. by eapply fr_active.
  - intros Hp Hm. specialize (Hw Hp Hm). rewrite Forall_forall in *. intros b Hb. eapply fr_work; eauto.
  - intros v Hv Ha. apply (He v Hv). by eapply fr_active.
Qed.

Lemma inv_move s s' i t t' :
  inv s -> tasks s !! i = Some t -> frames s s' i -> task_ok s' i t' ->
  (forall g j, owners s' !! g = Some j -> (j = i /\ g ∈ t_held t') \/ (j <> i /\ owners s !! g = Some j)) ->
  inv (set_task i t' s').
Proof.
  intros [Ht Ho] Hi Hf Hok Hown. assert (i < length (tasks s')) as Hlt.
  { rewrite (fr_tasks _ _ _ Hf). by eapply lookup_lt_Some. }
  split.
  - intros j tj Hj. cbn [set_task tasks] in Hj. destruct (decide (j = i)) as [->|Hne].
    + rewrite list_lookup_insert_eq in Hj by done. injection Hj as <-. by destruct Hok.
    + rewrite list_lookup_insert_ne in Hj by done. rewrite (fr_tasks _ _ _ Hf) in Hj.
      pose proof (frame_task _ _ _ _ _ Hf Hne Hj (Ht _ _ Hj)) as Hk. by destruct Hk.
  - intros g j Hg. cbn [set_task owners tasks] in *. destruct (Hown g j Hg) as [[-> Hin]|[Hne Hg']].
    + exists t'. by rewrite list_lookup_insert_eq.
    + destruct (Ho _ _ Hg') as (tj & Hj & Hin). exists tj. by rewrite list_lookup_insert_ne, (fr_tasks _ _ _ Hf).
Qed.

(** Only the task itself moves. *)
Lemma frames_same s i : frames s s i.
Proof. by split. Qed.

Lemma owners_same s i t g j :
  inv s -> tasks s !! i = Some t -> owners s !! g = Some j -> (j = i /\ g ∈ t_held t) \/ (j <> i /\ owners s !! g = Some j).
Proof.
  intros [_ Ho] Hi Hg. destruct (decide (j = i)) as [->|]; [left|by right].
  destruct (Ho _ _ Hg) as (t' & Ht' & ?). rewrite Hi in Ht'. by injection Ht' as <-.
Qed.

Lemma inv_phase s i t p :
  inv s -> tasks s !! i = Some t -> task_ok s i (phase_of t p) -> inv (set_task i (phase_of t p) s).
Proof.
  intros Hinv Hi Hok. eapply inv_move; [done|done|apply frames_same|done|].
  intros g j Hg. exact (owners_same s i t g j Hinv Hi Hg).
Qed.

(** Leaving asks nothing. *)
Lemma ok_leaving s i t : task_ok s i t -> task_ok s i (phase_of t Leaving).
Proof.
  intros [Ho Hn Hs Hsh Hc Hw He]. split; cbn; auto; try done.
  intros g [Hg|[todo Hg]]; [|done]. apply Hc. by left.
Qed.

(** * Exclusion *)

Lemma holders_agree s i j t t' g g' :
  inv s -> tasks s !! i = Some t -> tasks s !! j = Some t' -> g ∈ t_held t -> g' ∈ t_held t' -> g.1 = g'.1 ->
  active s g.1 -> i = j.
Proof.
  intros Hinv Hi Hj Hg Hg' Heq Ha. pose proof (inv_tasks _ Hinv _ _ Hi) as Hti. pose proof (inv_tasks _ Hinv _ _ Hj) as Htj.
  pose proof (ok_current _ _ _ Hti g (or_introl Hg) Ha) as Hc.
  pose proof (ok_current _ _ _ Htj g' (or_introl Hg')) as Hc'. rewrite <- Heq in Hc'. specialize (Hc' Ha).
  assert (g = g') as <-. { destruct g, g'; cbn in *. congruence. }
  pose proof (ok_owner _ _ _ Hti _ Hg). pose proof (ok_owner _ _ _ Htj _ Hg'). congruence.
Qed.

(** A task in its critical section holds a guard of each of its branches. *)
Lemma inside_holds s i t b :
  task_ok s i t -> (t_phase t = Working \/ exists v, t_phase t = Ending v) -> b ∈ needs (t_op t) -> exists g, g ∈ t_held t /\ g.1 = b.
Proof.
  intros Hok Hp Hb. pose proof (ok_shape _ _ _ Hok) as Hs. unfold shape in Hs.
  assert ((t_held t).*1 = needs (t_op t)) as He by by destruct Hp as [Hp|[v Hp]]; rewrite Hp in Hs.
  rewrite <- He in Hb. apply list_elem_of_fmap in Hb as (g & -> & Hg). eauto.
Qed.

(** * The moves *)

Lemma inv_start s op : inv s -> inv (mkSys (gates s) (next_gate s) (owners s) (ended s) (tasks s ++ [start op])).
Proof.
  intros [Ht Ho]. split.
  - intros i t Hi. cbn in Hi. apply lookup_app_Some in Hi as [Hi|[_ Hi]].
    + by destruct (Ht _ _ Hi).
    + apply list_lookup_singleton_Some in Hi as [_ <-].
      assert (t_held (start op) = []) as Hh by by destruct op.
      assert (t_phase (start op) = Leaving \/ (t_phase (start op) = Asking (needs op) /\ StronglySorted str_lt (needs op))) as Hp.
      { destruct op as [b|b|x y|b]; cbn; try (right; split; [done|by repeat constructor]).
        destruct (decide (x = y)) as [|Hxy]; [by left|]. right. split; [done|].
        case_decide as Hle; (constructor; [by repeat constructor|constructor; [|done]]); split; [done|done| |congruence].
        by destruct (total String.le x y). }
      assert (t_op (start op) = op) as Hop by by destruct op.
      split; rewrite ?Hh, ?Hop; try (intros g Hg; by apply not_elem_of_nil in Hg); try done.
      * constructor.
      * intros Hl. by destruct Hp as [?|[_ ?]].
      * unfold shape. rewrite Hh, Hop. by destruct Hp as [->|[-> _]].
      * intros g [Hg|[todo Hg]]; [rewrite Hh in Hg; by apply not_elem_of_nil in Hg|]. destruct Hp as [Hp|[Hp _]]; congruence.
      * intros Hw. destruct Hp as [Hp|[Hp _]]; congruence.
      * intros v Hv. destruct Hp as [Hp|[Hp _]]; congruence.
  - intros g i Hg. cbn in *. destruct (Ho _ _ Hg) as (t & Hi & Hin). exists t. split; [|done].
    by apply lookup_app_l_Some.
Qed.

Lemma inv_release s i t g :
  inv s -> tasks s !! i = Some t -> t_phase t = Leaving -> last (t_held t) = Some g ->
  inv (set_task i (mkTask (t_op t) (removelast (t_held t)) Leaving) (set_owners (delete g (owners s)) s)).
Proof.
  intros Hinv Hi Hp Hl. pose proof (inv_tasks _ Hinv _ _ Hi) as Hok. apply last_Some in Hl as [held Hheld].
  rewrite Hheld, removelast_last. pose proof (ok_nodup _ _ _ Hok) as Hnd. rewrite Hheld in Hnd.
  apply NoDup_app in Hnd as (Hnd & Hdis & _).
  assert (forall g', g' ∈ held -> g' <> g) as Hne. { intros g' Hg' ->. apply (Hdis _ Hg'). by left. }
  assert (owners s !! g = Some i) as Hg. { apply (ok_owner _ _ _ Hok). rewrite Hheld. apply elem_of_app. right. by left. }
  eapply inv_move; [done|done| | |].
  - split; cbn; try done. intros g' j Hj Hg'. rewrite lookup_delete_ne; [done|]. intros ->. congruence.
  - split; cbn; try done.
    + intros g' Hg'. rewrite lookup_delete_ne by (intros ->; by apply (Hne g')). apply (ok_owner _ _ _ Hok).
      rewrite Hheld. apply elem_of_app. by left.
    + intros g' [Hg'|[todo Hg']]; [|done]. apply (ok_current _ _ _ Hok). left. rewrite Hheld. apply elem_of_app. by left.
  - cbn. intros g' j [Hgg Hg']%lookup_delete_Some. destruct (owners_same s i t g' j Hinv Hi Hg') as [[-> Hin]|]; [left|by right].
    split; [done|]. rewrite Hheld in Hin. apply elem_of_app in Hin as [?|Hin]; [done|]. apply list_elem_of_singleton in Hin. congruence.
Qed.

Lemma inv_ask s i t b todo g s' :
  inv s -> tasks s !! i = Some t -> t_phase t = Asking (b :: todo) -> branch_gate b s = (g, s') ->
  inv (set_task i (phase_of t (Waiting g todo)) s').
Proof.
  intros Hinv Hi Hp Hb. pose proof (inv_tasks _ Hinv _ _ Hi) as Hok.
  assert (g.1 = b /\ gates s' !! b = Some g.2 /\ owners s' = owners s /\ ended s' = ended s /\ tasks s' = tasks s
    /\ forall b' n, gates s !! b' = Some n -> gates s' !! b' = Some n) as (Hg1 & Hg2 & Ho & He & Ht & Hmono).
  { unfold branch_gate in Hb. destruct (gates s !! b) as [n|] eqn:En; injection Hb as <- <-; [done|].
    cbn. split_and!; try done; [apply lookup_insert_eq|]. intros b' n Hn. rewrite lookup_insert_ne; [done|congruence]. }
  assert (forall b', active s' b' <-> active s b') as Hact by (intros b'; unfold active; by rewrite He).
  eapply inv_move; [done|done| | |].
  - split; [done|by rewrite Ho|by intros ? ?%Hact|intros ? ? _; apply Hmono|]. intros j t' b' _ _ _ _ _ ?. by apply Hact.
  - destruct Hok as [Hown Hn Hs Hsh Hc Hw Hend]. split; cbn; try done.
    + intros g' Hg'. rewrite Ho. auto.
    + intros _. apply Hs. by rewrite Hp.
    + unfold shape in *. cbn. rewrite Hp in Hsh. by rewrite Hg1.
    + intros g' [Hg'|[todo' [= <- <-]]] Ha.
      * apply Hmono, Hc; [by left|by apply Hact].
      * by rewrite Hg1.
  - rewrite Ho. cbn. intros g' j Hg'. exact (owners_same s i t g' j Hinv Hi Hg').
Qed.

Lemma inv_lock s i t g todo :
  inv s -> tasks s !! i = Some t -> t_phase t = Waiting g todo -> owners s !! g = None ->
  inv (set_task i (mkTask (t_op t) (t_held t ++ [g]) (Asking todo)) (set_owners (<[g := i]> (owners s)) s)).
Proof.
  intros Hinv Hi Hp Hg. pose proof (inv_tasks _ Hinv _ _ Hi) as Hok.
  assert (forall g', g' ∈ t_held t -> g' <> g) as Hne. { intros g' Hg' ->. rewrite (ok_owner _ _ _ Hok _ Hg') in Hg. done. }
  eapply inv_move; [done|done| | |].
  - split; cbn; try done. intros g' j Hj Hg'. rewrite lookup_insert_ne; [done|congruence].
  - pose proof (ok_current _ _ _ Hok) as Hc. destruct Hok as [Hown Hn Hs Hsh _ Hw Hend]. split; cbn; try done.
    + intros g' [Hg'|Hg']%elem_of_app.
      * rewrite lookup_insert_ne by (intros ->; by apply (Hne g')). auto.
      * apply list_elem_of_singleton in Hg' as ->. apply lookup_insert_eq.
    + apply NoDup_app. split_and!; [done| |by apply NoDup_singleton]. intros g' Hg' Hin. apply list_elem_of_singleton in Hin as ->.
      by apply (Hne g).
    + intros _. apply Hs. by rewrite Hp.
    + unfold shape in *. cbn. rewrite Hp in Hsh. rewrite fmap_app. cbn. by rewrite <- app_assoc.
    + intros g' [Hg'|[todo' Hg']] Ha; [|done]. apply elem_of_app in Hg' as [Hg'|Hg']; [apply Hc; [by left|done]|].
      apply list_elem_of_singleton in Hg' as ->. apply Hc; [|done]. right. by exists todo.
  - cbn. intros g' j Hg'. apply lookup_insert_Some in Hg' as [[<- <-]|[Hgg Hg']].
    + left. split; [done|]. apply elem_of_app. right. by left.
    + destruct (owners_same s i t g' j Hinv Hi Hg') as [[-> Hin]|]; [left|by right]. split; [done|]. apply elem_of_app. by left.
Qed.

(** A new phase for a task whose guards stay. *)
Lemma ok_phase s i t p :
  task_ok s i t -> t_phase t <> Leaving -> (forall g todo, p <> Waiting g todo) -> shape (phase_of t p) ->
  (p = Working -> is_merge (t_op t) = false -> Forall (active s) (needs (t_op t))) ->
  (forall v, p = Ending v -> ~ active s v) -> task_ok s i (phase_of t p).
Proof.
  intros [Ho Hn Hs Hsh Hc Hw He] Hl Hnw Hshape Hwork Hend. split; cbn; auto.
  intros g [Hg|[todo Hg]] Ha; [apply Hc; [by left|done]|]. by destruct (Hnw _ _ Hg).
Qed.

Lemma inv_enter s i t : inv s -> tasks s !! i = Some t -> t_phase t = Inside -> inv (set_task i (phase_of t (enter t s)) s).
Proof.
  intros Hinv Hi Hp. pose proof (inv_tasks _ Hinv _ _ Hi) as Hok. apply inv_phase; [done|done|].
  pose proof (ok_shape _ _ _ Hok) as Hsh. unfold shape in Hsh. rewrite Hp in Hsh.
  assert (enter t s = Leaving \/ (enter t s = Working /\ (is_merge (t_op t) = false -> Forall (active s) (needs (t_op t))))
    \/ exists v, enter t s = Ending v /\ ~ active s v) as He.
  { unfold enter. destruct (t_op t) as [b|b|x y|b]; cbn.
    1,2: case_decide; [right; left; split; [done|by repeat constructor]|by left].
    - right. by left.
    - destruct (ended s !! b) as [[]|] eqn:Eb; [by left|by left| |].
      + right. right. exists b. unfold active. by rewrite Eb.
      + right. left. split; [done|]. by repeat constructor. }
  destruct He as [->|[[-> Hf]|(v & -> & Hv)]].
  - by apply ok_leaving.
  - apply ok_phase; try done. by rewrite Hp.
  - apply ok_phase; try done; [by rewrite Hp|]. by intros v' [= <-].
Qed.

(** Marking a branch that this task guards. *)
Lemma inv_mark s i t v st :
  inv s -> tasks s !! i = Some t -> t_phase t = Working -> v ∈ needs (t_op t) -> active s v ->
  inv (set_task i (phase_of t (Ending v)) (set_ended (<[v := st]> (ended s)) s)).
Proof.
  intros Hinv Hi Hp Hv Ha. pose proof (inv_tasks _ Hinv _ _ Hi) as Hok.
  assert (forall b, active (set_ended (<[v := st]> (ended s)) s) b -> active s b /\ b <> v) as Hact.
  { intros b Hb. unfold active in *. cbn in Hb. apply lookup_insert_None in Hb as [? ?]. split; [done|congruence]. }
  eapply inv_move; [done|done| | |].
  - split; cbn; try done.
    + intros b Hb. by apply Hact.
    + intros j t' b Hj Ht' Hw Hm Hb Hab. unfold active. cbn. rewrite lookup_insert_ne; [done|]. intros <-.
      destruct (inside_holds s i t v Hok (or_introl Hp) Hv) as (g & Hg & Hgv).
      destruct (inside_holds s j t' v (inv_tasks _ Hinv _ _ Ht') (or_introl Hw) Hb) as (g' & Hg' & Hgv').
      apply Hj. symmetry. eapply (holders_agree s i j); eauto; [by rewrite Hgv|by rewrite Hgv].
  - destruct Hok as [Ho Hn Hs Hsh Hc Hw He]. split; cbn; try done.
    + intros _. apply Hs. by rewrite Hp.
    + unfold shape in *. cbn. by rewrite Hp in Hsh.
    + intros g [Hg|[todo Hg]] Hb; [|done]. apply Hc; [by left|]. by apply Hact.
    + intros v' [= <-] Hb. by apply Hact in Hb as [_ ?].
  - cbn. intros g j Hg. exact (owners_same s i t g j Hinv Hi Hg).
Qed.

Lemma inv_transit s i t p s' :
  inv s -> tasks s !! i = Some t -> t_phase t = Working -> transit t s = (p, s') -> inv (set_task i (phase_of t p) s').
Proof.
  intros Hinv Hi Hp Ht. pose proof (inv_tasks _ Hinv _ _ Hi) as Hok. unfold transit in Ht.
  destruct (t_op t) as [b|b|x y|b] eqn:Eop.
  1,2: injection Ht as <- <-; apply inv_phase; [done|done|by apply ok_leaving].
  - case_decide as Ha; injection Ht as <- <-; [|apply inv_phase; [done|done|by apply ok_leaving]].
    destruct Ha as [_ Hy]. apply inv_mark; [done|done|done| |exact Hy]. rewrite Eop. cbn. case_decide; set_solver.
  - injection Ht as <- <-. apply inv_mark; [done|done|done|rewrite Eop; by left|].
    pose proof (ok_work _ _ _ Hok Hp) as Hw. rewrite Eop in Hw. specialize (Hw eq_refl). by apply Forall_cons in Hw as [? _].
Qed.

Lemma inv_forget s i t v :
  inv s -> tasks s !! i = Some t -> t_phase t = Ending v -> inv (set_task i (phase_of t Leaving) (forget_branch_gate v s)).
Proof.
  intros Hinv Hi Hp. pose proof (inv_tasks _ Hinv _ _ Hi) as Hok. pose proof (ok_end _ _ _ Hok v Hp) as Hv.
  assert (forall b n, active s b -> gates s !! b = Some n -> gates (forget_branch_gate v s) !! b = Some n) as Hg.
  { intros b n Hb Hn. cbn. rewrite lookup_delete_ne; [done|]. by intros ->. }
  eapply inv_move; [done|done| | |].
  - split; cbn; try done.
  - destruct Hok as [Ho Hn Hs Hsh Hc Hw He]. split; cbn; try done.
    intros g [Hgh|[todo Hgt]] Ha; [|done]. apply Hg; [done|]. apply Hc; [by left|done].
  - cbn. intros g j Hgo. exact (owners_same s i t g j Hinv Hi Hgo).
Qed.

Lemma inv_step s s' : gate_step s s' -> inv s -> inv s'.
Proof.
  intros Hstep Hinv. destruct Hstep as [op|c i s' Hs]; [by apply inv_start|].
  unfold task_step in Hs. destruct (tasks s !! i) as [t|] eqn:Hi; [|done]. cbn [mbind option_bind] in Hs.
  pose proof (inv_tasks _ Hinv _ _ Hi) as Hok.
  assert (inv (set_task i (phase_of t Leaving) s)) as Hleave by (apply inv_phase; [done|done|by apply ok_leaving]).
  destruct (t_phase t) as [[|b todo]|g todo| | |v|] eqn:Hp, c; try done; try (by injection Hs as <-).
  - injection Hs as <-. apply inv_phase; [done|done|]. apply ok_phase; try done; [by rewrite Hp|].
    pose proof (ok_shape _ _ _ Hok) as Hsh. unfold shape in *. rewrite Hp, app_nil_r in Hsh. done.
  - destruct (branch_gate b s) as [g s1] eqn:Eb. injection Hs as <-. exact (inv_ask s i t b todo g s1 Hinv Hi Hp Eb).
  - destruct (owners s !! g) eqn:Eo; [done|]. injection Hs as <-. by apply inv_lock.
  - injection Hs as <-. by apply inv_enter.
  - destruct (transit t s) as [p s1] eqn:Et. injection Hs as <-. exact (inv_transit s i t p s1 Hinv Hi Hp Et).
  - injection Hs as <-. by apply inv_forget.
  - destruct (last (t_held t)) as [g|] eqn:El; [|done]. injection Hs as <-. by apply inv_release.
Qed.

Lemma inv_reach s : rtc gate_step sys_init s -> inv s.
Proof.
  assert (inv sys_init) as H0.
  { split; cbn; [by intros i t Hi|]. intros g i Hg. by rewrite lookup_empty in Hg. }
  intros Hr. revert H0. induction Hr as [|s1 s2 s3 Hs _ IH]; [done|]. intros H1. apply IH. by eapply inv_step.
Qed.

(** * Waiting ends *)

(** A task that cannot go on waits for a gate that is taken. *)
Lemma stuck_waits s i t :
  tasks s !! i = Some t -> ~ finished t -> task_step Go i s = None ->
  exists g todo j, t_phase t = Waiting g todo /\ owners s !! g = Some j.
Proof.
  intros Hi Hf. unfold task_step. rewrite Hi. cbn [mbind option_bind].
  destruct (t_phase t) as [[|b todo]|g todo| | |v|] eqn:Hp; try done.
  - by destruct (branch_gate b s).
  - destruct (owners s !! g) as [j|] eqn:Eo; [|done]. intros _. by exists g, todo, j.
  - by destruct (transit t s).
  - destruct (last (t_held t)) as [g|] eqn:El; [done|]. intros _. destruct Hf. split; [done|]. by apply last_None.
Qed.

(** Guards are taken in the order of names: a task waits above all it holds. *)
Lemma waits_above s i t g todo g' :
  task_ok s i t -> t_phase t = Waiting g todo -> g' ∈ t_held t -> str_lt g'.1 g.1.
Proof.
  intros Hok Hp Hg'. pose proof (ok_shape _ _ _ Hok) as Hsh. unfold shape in Hsh. rewrite Hp in Hsh.
  assert (StronglySorted str_lt ((t_held t).*1 ++ g.1 :: todo)) as Hs.
  { rewrite Hsh. apply (ok_sorted _ _ _ Hok). by rewrite Hp. }
  apply (StronglySorted_app_1_elem_of str_lt (t_held t).*1 (g.1 :: todo)); [done| |by left].
  apply list_elem_of_fmap. by exists g'.
Qed.

(** The names tasks wait for, above a given one. *)
Definition wait_name (t : Task) : option string := match t_phase t with Waiting g _ => Some g.1 | _ => None end.

Definition above (b : string) (t : Task) : bool :=
  match wait_name t with Some w => bool_decide (String.le b w /\ b <> w) | None => false end.

Lemma above_lt b t : above b t = true <-> exists w, wait_name t = Some w /\ str_lt b w.
Proof. unfold above, str_lt. destruct (wait_name t); [rewrite bool_decide_eq_true|]; naive_solver. Qed.

Lemma lt_trans a b c : str_lt a b -> str_lt b c -> str_lt a c.
Proof.
  intros [Hab Hne] [Hbc Hne']. split; [by etrans|]. intros ->. apply Hne. by apply (anti_symm String.le).
Qed.

Lemma filter_shrinks {A} (P Q : A -> bool) (l : list A) i x :
  (forall y, P y = true -> Q y = true) -> l !! i = Some x -> Q x = true -> P x = false ->
  length (List.filter P l) < length (List.filter Q l).
Proof.
  intros HPQ. assert (forall l, length (List.filter P l) <= length (List.filter Q l)) as Hle.
  { clear -HPQ. induction l as [|y l IH]; cbn; [lia|]. destruct (P y) eqn:EP; [rewrite (HPQ _ EP); cbn; lia|].
    destruct (Q y); cbn; lia. }
  revert i. induction l as [|y l IH]; intros [|i] Hi HQ HP; cbn in Hi; [done|done| |].
  - injection Hi as ->. cbn. rewrite HP, HQ. cbn. pose proof (Hle l). lia.
  - cbn. specialize (IH i Hi HQ HP). destruct (P y) eqn:EP; [rewrite (HPQ _ EP); cbn; lia|]. destruct (Q y); cbn; lia.
Qed.

Lemma some_task_moves s n i t :
  inv s -> tasks s !! i = Some t -> ~ finished t ->
  (forall b, wait_name t = Some b -> length (List.filter (above b) (tasks s)) < n) -> 0 < n ->
  exists j s', task_step Go j s = Some s'.
Proof.
  intros Hinv. revert i t. induction n as [|n IH]; intros i t Hi Hf Hn Hpos; [lia|].
  destruct (task_step Go i s) as [s'|] eqn:Es; [eauto|].
  destruct (stuck_waits s i t Hi Hf Es) as (g & todo & j & Hp & Hj).
  destruct (inv_owners _ Hinv _ _ Hj) as (tj & Htj & Hg).
  assert (~ finished tj) as Hfj by (intros [_ He]; rewrite He in Hg; by apply not_elem_of_nil in Hg).
  destruct (task_step Go j s) as [s'|] eqn:Ej; [eauto|].
  destruct (stuck_waits s j tj Htj Hfj Ej) as (g' & todo' & j' & Hp' & _).
  pose proof (waits_above s j tj g' todo' g (inv_tasks _ Hinv _ _ Htj) Hp' Hg) as Hlt.
  assert (length (List.filter (above g'.1) (tasks s)) < length (List.filter (above g.1) (tasks s))) as Hless.
  { apply (filter_shrinks _ _ _ j tj); [|done| |].
    - intros y. rewrite !above_lt. intros (w & Hw & Hlt'). exists w. split; [done|]. by eapply lt_trans.
    - apply above_lt. exists g'.1. unfold wait_name. by rewrite Hp'.
    - apply not_true_iff_false. rewrite above_lt. unfold wait_name. rewrite Hp'. intros (w & [= <-] & [_ ?]). done. }
  assert (length (List.filter (above g.1) (tasks s)) < S n) as Hb by (apply Hn; unfold wait_name; by rewrite Hp).
  apply (IH j tj Htj Hfj); [|lia]. intros b Hwb. unfold wait_name in Hwb. rewrite Hp' in Hwb. injection Hwb as <-. lia.
Qed.

(** What a task can still do, in moves. *)
Definition work (t : Task) : nat :=
  length (t_held t)
  + match t_phase t with
    | Asking todo => 4 + 3 * length todo
    | Waiting _ todo => 6 + 3 * length todo
    | Inside => 3
    | Working => 2
    | Ending _ => 1
    | Leaving => 0
    end.

Definition total_work (s : Sys) : nat := sum_list_with work (tasks s).

Lemma work_insert l i t t' :
  l !! i = Some t -> work t' < work t -> sum_list_with work (<[i := t']> l) < sum_list_with work l.
Proof.
  revert i. induction l as [|x l IH]; intros [|i] Hi Hw; cbn in Hi; [done|done| |].
  - injection Hi as ->. cbn -[work]. lia.
  - specialize (IH i Hi Hw). change (work x + sum_list_with work (<[i := t']> l) < work x + sum_list_with work l). lia.
Qed.

Lemma set_task_work s s' i t t' :
  tasks s !! i = Some t -> tasks s' = tasks s -> work t' < work t -> total_work (set_task i t' s') < total_work s.
Proof. intros Hi Ht Hw. unfold total_work. cbn. rewrite Ht. by eapply work_insert. Qed.

Lemma move_spends c i s s' : task_step c i s = Some s' -> total_work s' < total_work s.
Proof.
  unfold task_step. destruct (tasks s !! i) as [t|] eqn:Hi; [|done]. cbn [mbind option_bind].
  assert (t_phase t <> Leaving -> total_work (set_task i (phase_of t Leaving) s) < total_work s) as Hleave.
  { intros Hp. eapply set_task_work; [done|done|]. unfold work. cbn. destruct (t_phase t) eqn:Ep; try lia; congruence. }
  destruct (t_phase t) as [[|b todo]|g todo| | |v|] eqn:Hp, c; try done; try (intros [= <-]; by apply Hleave).
  - intros [= <-]. eapply set_task_work; [done|done|]. unfold work. cbn. rewrite Hp. cbn. lia.
  - destruct (branch_gate b s) as [g s1] eqn:Eb. intros [= <-].
    assert (tasks s1 = tasks s) as Ht by (unfold branch_gate in Eb; destruct (gates s !! b); by injection Eb as <- <-).
    eapply set_task_work; [done|done|]. unfold work. cbn. rewrite Hp. cbn. lia.
  - destruct (owners s !! g); [done|]. intros [= <-]. eapply set_task_work; [done|done|].
    unfold work. cbn. rewrite Hp, length_app. cbn. lia.
  - intros [= <-]. eapply set_task_work; [done|done|]. unfold work. cbn. rewrite Hp. cbn. unfold enter.
    destruct (t_op t) as [b|b|x y|b]; try (case_decide; lia); try lia. destruct (ended s !! b) as [[]|]; lia.
  - destruct (transit t s) as [p s1] eqn:Et. intros [= <-].
    assert (tasks s1 = tasks s /\ (p = Leaving \/ exists v, p = Ending v)) as [Ht Hpp].
    { unfold transit in Et. destruct (t_op t); [| |case_decide|]; injection Et as <- <-; eauto. }
    eapply set_task_work; [done|done|]. unfold work. cbn. rewrite Hp. destruct Hpp as [->|[v ->]]; cbn; lia.
  - destruct (last (t_held t)) as [g|] eqn:El; [|done]. intros [= <-]. apply last_Some in El as [held Hh].
    eapply set_task_work; [done|done|]. unfold work. cbn. rewrite Hp, Hh, removelast_last, length_app. cbn. lia.
Qed.

(** * Properties *)

(** C8: One transition at a time per branch.  However operations interleave, wait, fail, are
    dropped half-way or retried, and although the gate of a branch is forgotten when it ends
    while others still wait for it: as long as a branch is active at most one operation holds
    a guard of it; and a step, fork or discard that found its branch active when it entered
    still finds it active until its own durable transition. *)
Theorem gates_exclude s :
  rtc gate_step sys_init s ->
  (forall i j t t' g g', tasks s !! i = Some t -> tasks s !! j = Some t' -> g ∈ t_held t -> g' ∈ t_held t' ->
     g.1 = g'.1 -> active s g.1 -> i = j)
  /\ (forall i t, tasks s !! i = Some t -> t_phase t = Working -> is_merge (t_op t) = false -> Forall (active s) (needs (t_op t))).
Proof.
  intros Hinv%inv_reach. split.
  - intros i j t t' g g' Hi Hj Hg Hg' He Ha. by eapply (holders_agree s i j t t' g g').
  - intros i t Hi. apply (ok_work s i t), inv_tasks; done.
Qed.

(** C23: Gates never deadlock.  Merges hold two guards, and taking them in the order of the
    branches' names is enough: in every reachable state in which some operation has not ended,
    some operation can go on, no operation can make more moves than its remaining work, and so
    without new operations all of them end. *)
Theorem gates_never_deadlock s :
  rtc gate_step sys_init s ->
  (forall c i s', task_step c i s = Some s' -> total_work s' < total_work s)
  /\ exists s', rtc (fun a b => exists i, task_step Go i a = Some b) s s' /\ Forall finished (tasks s').
Proof.
  intros Hinv%inv_reach. split; [intros c i s'; apply move_spends|].
  remember (total_work s) as n eqn:Hn. assert (total_work s <= n) as Hle by lia. clear Hn. revert s Hinv Hle.
  induction n as [|n IH]; intros s Hinv Hle.
  all: destruct (decide (Forall finished (tasks s))) as [Hall|Hnot]; [by exists s; split; [apply rtc_refl|]|].
  all: apply not_Forall_Exists in Hnot as (t & [i Hi]%list_elem_of_lookup & Hf)%Exists_exists; [|intros x; apply _].
  all: destruct (some_task_moves s (S (length (tasks s))) i t Hinv Hi Hf) as (j & s' & Hs); [|lia|].
  all: try (intros b _; pose proof (List.filter_length_le (above b) (tasks s)); lia).
  all: pose proof (move_spends _ _ _ _ Hs) as Hw.
  { lia. }
  destruct (IH s') as (s2 & Hr & Hd); [by eapply inv_step; [econstructor|]|lia|].
  exists s2. split; [|done]. eapply rtc_l; [|exact Hr]. by exists j.
Qed.

(** * Concrete runs *)

Module GatesDemo.

Inductive Move : Type := New (op : Op) | Do (c : Choice) (i : nat).

Fixpoint play (ms : list Move) (s : Sys) : option Sys :=
  match ms with
  | [] => Some s
  | New op :: rest => play rest (mkSys (gates s) (next_gate s) (owners s) (ended s) (tasks s ++ [start op]))
  | Do c i :: rest => s' ← task_step c i s; play rest s'
  end.

Lemma play_reaches ms s s' : play ms s = Some s' -> rtc gate_step s s'.
Proof.
  revert s. induction ms as [|[op|c i] ms IH]; intros s; cbn [play].
  - intros [= ->]. apply rtc_refl.
  - intros H%IH. eapply rtc_l; [apply gs_start|exact H].
  - destruct (task_step c i s) as [s1|] eqn:Es; [|done]. cbn [mbind option_bind]. intros H%IH.
    eapply rtc_l; [by eapply gs_task|exact H].
Qed.

(** Two merges across each other and a step on one of the branches; the first merge is inside,
    the others wait. *)
Definition crossing : list Move :=
  [New (OMerge "b" "a"); New (OMerge "a" "b"); New (OStep "b"); Do Go 0; Do Go 0; Do Go 1; Do Go 0; Do Go 2; Do Go 0; Do Go 0; Do Go 0].

Definition crossed : Sys := default sys_init (play crossing sys_init).

Lemma crossed_reached : rtc gate_step sys_init crossed.
Proof. apply (play_reaches crossing). vm_compute. reflexivity. Qed.

(** The first merge has both guards and is about its transition. *)
Example crossed_phases : map t_phase (tasks crossed) = [Working; Waiting ("a", 0) ["b"]; Waiting ("b", 1) []].
Proof. vm_compute. reflexivity. Qed.

Lemma gates_exclude_witness :
  (exists t, tasks crossed !! 0 = Some t /\ ("a", 0) ∈ t_held t)
  /\ Forall (fun j => forall t', tasks crossed !! j = Some t' -> ("a", 0) ∈ t_held t' -> 0 = j) (seq 0 (length (tasks crossed))).
Proof.
  assert (exists t, tasks crossed !! 0 = Some t /\ ("a", 0) ∈ t_held t) as Hex.
  { eexists. split; [vm_compute; reflexivity|]. cbn. left. }
  split; [exact Hex|]. destruct Hex as (t & Hi & Hin). apply Forall_forall. intros j _ t' Hj Hg.
  refine (proj1 (gates_exclude crossed crossed_reached) 0 j t t' ("a", 0) ("a", 0) Hi Hj Hin Hg eq_refl _).
  vm_compute. reflexivity.
Defined.

Lemma gates_never_deadlock_witness :
  exists s', rtc (fun a b => exists i, task_step Go i a = Some b) crossed s' /\ Forall finished (tasks s').
Proof. exact (proj2 (gates_never_deadlock crossed crossed_reached)). Defined.

(** Once a branch has ended, a task that looked its gate up before and one that came after hold
    two gates of it at once: that the branch is active is needed. *)
Definition stale : list Move :=
  [New (ODiscard "x"); New (OStep "x"); Do Go 0; Do Go 1; Do Go 0; Do Go 0; Do Go 0; Do Go 0; Do Go 0; Do Go 0;
   New (OStep "x"); Do Go 2; Do Go 1; Do Go 2].

Example two_gates_of_an_ended_branch :
  t_held <$> (tasks (default sys_init (play stale sys_init))) = [[]; [("x", 0)]; [("x", 1)]]
  /\ ended (default sys_init (play stale sys_init)) !! "x" = Some Discarded.
Proof. vm_compute. split; reflexivity. Qed.
End GatesDemo.
