(* ===== verification/Path.v ===== *)
(** Workspace-relative paths and sync plans: [kernel/core/src/path.rs] and
    [sync.rs].

    [std::path::Path] is modelled by the components it iterates over on Unix:
    separators may repeat, [.] counts only at the start of a relative path.  A
    [PathBuf] built from normal components is the list of their names.  A
    [BTreeMap] manifest is a [gmap] iterated in key order. *)

From S2P Require Import Prelude Json Budget Capability Types Canonical Effect Snapshot.

(** * Components of a path *)

Inductive Component : Type :=
| RootDir
| CurDir
| ParentDir
| Normal (name : string).

#[export] Instance Component_eq_dec : EqDecision Component.
Proof. solve_decision. Defined.

(** A piece between separators that is not the first one of the path. *)
Definition later_piece (piece : string) : list Component :=
  if str_is_empty piece || String.eqb piece "." then []
  else if String.eqb piece ".." then [ParentDir]
  else [Normal piece].

Definition first_piece (piece : string) : list Component :=
  if String.eqb piece "." then [CurDir] else later_piece piece.

Definition components (raw : string) : list Component :=
  match raw with
  | EmptyString => []
  | String c rest =>
      if Ascii.eqb c "/" then RootDir :: flat_map later_piece (str_split "/" rest)
      else match str_split "/" raw with
           | [] => []
           | p :: ps => first_piece p ++ flat_map later_piece ps
           end
  end.

(** * [path.rs] *)

Fixpoint normalize_loop (raw : string) (comps : list Component) (out : list string)
    : result string (list string) :=
  match comps with
  | [] => Ok out
  | Normal c :: rest => normalize_loop raw rest (out ++ [c])
  | CurDir :: rest => normalize_loop raw rest out
  | ParentDir :: _ => Err ("path `" +:+ raw +:+ "` contains `..`")
  | RootDir :: _ =>
      Err ("path `" +:+ raw +:+ "` is absolute; only workspace-relative paths are allowed")
  end.

Definition normalize_relative (raw : string) : result string (list string) :=
  if str_is_empty raw then Err "empty path" else normalize_loop raw (components raw) [].

(** [trim_start_matches("./")] and [trim_end_matches('/')]. *)
Fixpoint trim_dot_slash (s : string) : string :=
  match s with
  | String "." (String "/" r) => trim_dot_slash r
  | _ => s
  end.

Fixpoint trim_end_slash (s : string) : string :=
  match s with
  | EmptyString => EmptyString
  | String c r =>
      match trim_end_slash r with
      | EmptyString => if Ascii.eqb c "/" then EmptyString else String c EmptyString
      | r' => String c r'
      end
  end.

Definition trimmed_prefix (p : string) : string := trim_end_slash (trim_dot_slash p).

Fixpoint is_prefix (p l : list Component) : bool :=
  match p, l with
  | [], _ => true
  | a :: p', b :: l' => bool_decide (a = b) && is_prefix p' l'
  | _ :: _, [] => false
  end.

(** [Path::starts_with], on a path of normal components. *)
Definition path_starts_with (rel : list string) (p : string) : bool :=
  is_prefix (components p) (map Normal rel).

Definition matches_prefixes (rel : list string) (prefixes : list string) : bool :=
  match prefixes with
  | [] => true
  | _ => existsb (fun p => str_is_empty (trimmed_prefix p)
                           || path_starts_with rel (trimmed_prefix p)) prefixes
  end.

(** * [sync.rs] *)

Record SyncEntry := mkSyncEntry {
  sync_blob : string;
  sync_mode : Z;           (* u32 *)
}.

#[export] Instance SyncEntry_eq_dec : EqDecision SyncEntry.
Proof. solve_decision. Defined.

Abbreviation SyncManifest := (gmap string SyncEntry) (only parsing).

Record PushPlan := mkPlan {
  plan_upserts : list (string * SyncEntry);
  plan_deletes : list string;
}.

Definition plan_is_empty (p : PushPlan) : bool :=
  bool_decide (length (plan_upserts p) = 0%nat) && bool_decide (length (plan_deletes p) = 0%nat).

Definition push_plan (current target : SyncManifest) : PushPlan :=
  {| plan_upserts := filter (fun pe => current !! pe.1 <> Some pe.2) (bt_iter target);
     plan_deletes := filter (fun p => target !! p = None) (bt_keys current) |}.

(** The texts before each separator of a path. *)
Fixpoint file_ancestors (path : string) : list string :=
  match path with
  | EmptyString => []
  | String c r =>
      (if Ascii.eqb c "/" then [EmptyString] else []) ++ map (String c) (file_ancestors r)
  end.

Fixpoint shape_ancestors (manifest : SyncManifest) (path : string) (l : list string)
    : result string () :=
  match l with
  | [] => Ok tt
  | a :: rest =>
      if bool_decide (is_Some (manifest !! a))
      then Err ("manifest contains both file `" +:+ a +:+ "` and descendant `" +:+ path +:+ "`")
      else shape_ancestors manifest path rest
  end.

Fixpoint shape_loop (manifest : SyncManifest) (paths : list string) : result string () :=
  match paths with
  | [] => Ok tt
  | p :: rest => _ ← shape_ancestors manifest p (file_ancestors p); shape_loop manifest rest
  end.

Definition validate_manifest_shape (manifest : SyncManifest) : result string () :=
  shape_loop manifest (bt_keys manifest).

Definition syncable_path (path : string) : result string string :=
  rel ← normalize_relative path;
  match rel with
  | [] => Err ("path `" +:+ path +:+ "` names the workspace root, not a file")
  | _ =>
      match List.find is_ignored_component rel with
      | Some part =>
          Err ("path `" +:+ path +:+ "` is in the cache/scratch tier (`" +:+ part
               +:+ "`), which never syncs")
      | None => Ok (str_join "/" rel)
      end
  end.

(** * Names *)

(** The name of a file or directory: what [Component::Normal] can carry. *)
Definition no_slash (s : string) : bool := str_all (fun d => negb (Ascii.eqb "/"%char d)) s.

Definition good_name (c : string) : bool :=
  negb (str_is_empty c) && negb (String.eqb c ".") && negb (String.eqb c "..") && no_slash c.

Lemma str_split_no_slash s : Forall (fun p => no_slash p = true) (str_split "/" s).
Proof.
  induction s as [|c s IH]; cbn; [by repeat constructor|].
  destruct (decide ("/"%char = c)) as [<-|Hc]; [by constructor|].
  destruct (str_split "/" s) as [|w ws]; [repeat constructor|].
  - unfold no_slash. cbn [str_all]. by destruct (Ascii.eqb_spec "/"%char c).
  - apply Forall_cons in IH as [Hw Hws]. constructor; [|done].
    unfold no_slash in *. cbn [str_all]. rewrite Hw. by destruct (Ascii.eqb_spec "/"%char c).
Qed.

Lemma later_piece_good p c : no_slash p = true -> Normal c ∈ later_piece p -> c = p /\ good_name c = true.
Proof.
  unfold later_piece, good_name. intros Hp.
  destruct (str_is_empty p) eqn:E1; cbn; [by intros []%elem_of_nil|].
  destruct (String.eqb p ".") eqn:E2; cbn; [by intros []%elem_of_nil|].
  destruct (String.eqb p "..") eqn:E3; cbn.
  - by intros [[=]|[]%elem_of_nil]%elem_of_cons.
  - intros [[= ->]|[]%elem_of_nil]%elem_of_cons. by rewrite E1, E2, E3, Hp.
Qed.

Lemma first_piece_good p c : no_slash p = true -> Normal c ∈ first_piece p -> good_name c = true.
Proof.
  unfold first_piece. intros Hp. destruct (String.eqb p ".").
  - by intros [[=]|[]%elem_of_nil]%elem_of_cons.
  - intros Hc. by apply (later_piece_good _ _ Hp) in Hc as [_ ?].
Qed.

Lemma later_pieces_good ps c :
  Forall (fun p => no_slash p = true) ps -> Normal c ∈ flat_map later_piece ps -> good_name c = true.
Proof.
  induction 1 as [|p ps Hp _ IH]; cbn; [by intros []%elem_of_nil|].
  intros [Hc|Hc]%elem_of_app; [by apply (later_piece_good _ _ Hp) in Hc as [_ ?]|auto].
Qed.

Lemma components_good raw c : Normal c ∈ components raw -> good_name c = true.
Proof.
  destruct raw as [|a rest]; cbn [components]; [by intros []%elem_of_nil|].
  destruct (Ascii.eqb a "/").
  - intros [[=]|Hc]%elem_of_cons. eapply later_pieces_good; [|done]. apply str_split_no_slash.
  - pose proof (str_split_no_slash (String a rest)) as Hall.
    destruct (str_split "/" (String a rest)) as [|p ps]; [by intros []%elem_of_nil|].
    apply Forall_cons in Hall as [Hp Hps].
    intros [Hc|Hc]%elem_of_app; [by eapply first_piece_good|by eapply later_pieces_good].
Qed.

Lemma good_name_pieces c : good_name c = true -> first_piece c = [Normal c] /\ later_piece c = [Normal c].
Proof.
  unfold good_name, first_piece, later_piece. intros Hc. bool_hyps.
  by rewrite H, H1, H2.
Qed.

Lemma good_pieces l : Forall (fun c => good_name c = true) l -> flat_map later_piece l = map Normal l.
Proof.
  induction 1 as [|c l Hc _ IH]; cbn; [done|]. rewrite IH. by rewrite (proj2 (good_name_pieces c Hc)).
Qed.

Lemma str_split_join l : l <> [] -> Forall (fun c => no_slash c = true) l ->
  str_split "/" (str_join "/" l) = l.
Proof.
  intros Hne. induction 1 as [|c l Hc Hl IH]; [done|]. destruct l as [|d l].
  - cbn. by apply str_split_plain.
  - change (str_join "/" (c :: d :: l)) with (c +:+ String "/"%char (str_join "/" (d :: l))).
    rewrite str_split_app by done. by rewrite IH.
Qed.

Lemma good_name_no_slash c : good_name c = true -> no_slash c = true.
Proof. unfold good_name. intros Hc. by bool_hyps. Qed.

(** The text of a path of names has those names as its components. *)
Lemma components_join l : l <> [] -> Forall (fun c => good_name c = true) l ->
  components (str_join "/" l) = map Normal l.
Proof.
  intros Hne Hl. pose proof (str_split_join l Hne ltac:(eapply Forall_impl; [exact Hl|apply good_name_no_slash])) as Hs.
  destruct l as [|c l]; [done|]. apply Forall_cons in Hl as [Hc Hl].
  assert (exists a r, str_join "/" (c :: l) = String a r /\ Ascii.eqb a "/" = false) as (a & r & Heq & Ha).
  { pose proof (good_name_no_slash c Hc) as Hns. destruct c as [|a c'].
    - by cbn in Hc.
    - unfold no_slash in Hns. cbn in Hns. apply andb_true_iff in Hns as [Ha _].
      exists a. destruct l; cbn; eexists; (split; [reflexivity|]); rewrite Ascii.eqb_sym; by apply negb_true_iff. }
  rewrite Heq in *. cbn [components]. rewrite Ha, Hs.
  rewrite (proj1 (good_name_pieces c Hc)), (good_pieces l Hl). done.
Qed.

(** * Normalisation *)

Lemma normalize_loop_Ok raw comps out rel :
  normalize_loop raw comps out = Ok rel ->
  rel = out ++ omap (fun c => match c with Normal n => Some n | _ => None end) comps
  /\ Forall (fun c => c <> ParentDir /\ c <> RootDir) comps.
Proof.
  revert out. induction comps as [|[| | |n] comps IH]; intros out; cbn [normalize_loop]; try done.
  - intros [= <-]. by rewrite app_nil_r.
  - intros [-> Hf]%IH. split; [done|]. by constructor.
  - intros [-> Hf]%IH. split; [by rewrite <- app_assoc|]. by constructor.
Qed.

Lemma normalize_loop_normal raw l out : normalize_loop raw (map Normal l) out = Ok (out ++ l).
Proof.
  revert out. induction l as [|n l IH]; intros out; cbn; [by rewrite app_nil_r|].
  by rewrite IH, <- app_assoc.
Qed.

(** The names a path normalises to are names, and normalising their text again
    changes nothing. *)
Lemma normalize_relative_Ok raw rel :
  normalize_relative raw = Ok rel ->
  Forall (fun c => good_name c = true) rel
  /\ (rel <> [] -> normalize_relative (str_join "/" rel) = Ok rel).
Proof.
  unfold normalize_relative. destruct (str_is_empty raw); [done|]. intros [-> _]%normalize_loop_Ok.
  cbn [app].
  assert (Forall (fun c => good_name c = true)
            (omap (fun c => match c with Normal n => Some n | _ => None end) (components raw))) as Hall.
  { apply Forall_forall. intros n Hn. apply list_elem_of_omap in Hn as ([| | |m] & Hin & [= ->]).
    by eapply components_good. }
  split; [done|]. intros Hne. rewrite (components_join _ Hne Hall), normalize_loop_normal.
  destruct (str_is_empty _) eqn:E; [|done]. exfalso.
  destruct (omap _ (components raw)) as [|c l] eqn:El; [done|]. rewrite <- El in *.
  pose proof (components_join _ Hne Hall) as Hc. rewrite El in Hc.
  rewrite El in E. destruct (str_join "/" (c :: l)); [|done]. by cbn in Hc.
Qed.

Lemma syncable_path_Ok raw s :
  syncable_path raw = Ok s <->
  exists rel, normalize_relative raw = Ok rel /\ rel <> []
    /\ Forall (fun c => is_ignored_component c = false) rel /\ s = str_join "/" rel.
Proof.
  unfold syncable_path. rewrite bind_Ok. split.
  - intros (rel & Hn & Hs). exists rel. destruct rel as [|c l]; [done|].
    destruct (List.find is_ignored_component (c :: l)) eqn:Ef; [done|]. injection Hs as <-.
    split_and!; try done. apply Forall_forall. intros x Hx.
    by apply (List.find_none _ _ Ef), list_elem_of_In.
  - intros (rel & Hn & Hne & Hig & ->). exists rel. split; [done|]. destruct rel as [|c l]; [done|].
    destruct (List.find is_ignored_component (c :: l)) as [x|] eqn:Ef; [|done].
    apply List.find_some in Ef as [Hx Hi]. rewrite Forall_forall in Hig.
    apply list_elem_of_In, Hig in Hx. congruence.
Qed.

(** * Sync plans *)

(** What a plan leaves of a remote tree: upserts overwrite, deletes remove. *)
Definition run_plan (plan : PushPlan) (m : gmap string SyncEntry) : gmap string SyncEntry :=
  foldr (fun p m => delete p m) (foldr (fun pe m => <[pe.1 := pe.2]> m) m (plan_upserts plan))
    (plan_deletes plan).

Lemma foldr_delete_lookup {V} (l : list string) (m : gmap string V) p :
  foldr (fun p m => delete p m) m l !! p = if decide (p ∈ l) then None else m !! p.
Proof.
  induction l as [|q l IH]; cbn; [done|]. destruct (decide (p = q)) as [->|Hne].
  - rewrite lookup_delete_eq, decide_True by left. done.
  - rewrite lookup_delete_ne by done. rewrite IH. repeat case_decide; set_solver.
Qed.

Lemma foldr_insert_lookup {V} (l : list (string * V)) (m : gmap string V) p :
  (forall v w, (p, v) ∈ l -> (p, w) ∈ l -> v = w) ->
  foldr (fun pe m => <[pe.1 := pe.2]> m) m l !! p =
  match list_to_map (M := gmap string V) l !! p with Some v => Some v | None => m !! p end.
Proof.
  induction l as [|[q v] l IH]; cbn; intros Hu; [by rewrite lookup_empty|].
  destruct (decide (p = q)) as [->|Hne]; [by rewrite !lookup_insert_eq|].
  rewrite !lookup_insert_ne by done. apply IH. intros. apply Hu; by right.
Qed.

Lemma push_plan_upserts current target p e :
  (p, e) ∈ plan_upserts (push_plan current target) <-> target !! p = Some e /\ current !! p <> Some e.
Proof. cbn. rewrite list_elem_of_filter, bt_iter_elem. cbn. tauto. Qed.

Lemma push_plan_deletes current target p :
  p ∈ plan_deletes (push_plan current target) <-> is_Some (current !! p) /\ target !! p = None.
Proof. cbn. rewrite list_elem_of_filter, bt_keys_elem. tauto. Qed.

Lemma run_push_plan current target : run_plan (push_plan current target) current = target.
Proof.
  apply map_eq. intros p. unfold run_plan. rewrite foldr_delete_lookup, foldr_insert_lookup.
  2:{ intros v w [Hv _]%push_plan_upserts [Hw _]%push_plan_upserts. congruence. }
  case_decide as Hd; [by apply push_plan_deletes in Hd as [_ ->]|].
  rewrite push_plan_deletes in Hd.
  destruct (list_to_map (plan_upserts (push_plan current target)) !! p) as [v|] eqn:El.
  - apply elem_of_list_to_map_2, push_plan_upserts in El as [-> _]. done.
  - destruct (target !! p) as [e|] eqn:Et.
    + destruct (decide (current !! p = Some e)) as [->|Hne]; [done|]. exfalso.
      apply not_elem_of_list_to_map_2 in El. apply El, list_elem_of_fmap. exists (p, e).
      split; [done|]. by apply push_plan_upserts.
    + destruct (current !! p) eqn:Ec; [|done]. exfalso. eauto.
Qed.

(** * Shapes *)

(** No file of the manifest lies below another one. *)
Definition tree_shaped {V} (m : gmap string V) : Prop :=
  forall p a, is_Some (m !! p) -> a ∈ file_ancestors p -> m !! a = None.

Lemma file_ancestors_elem path a : a ∈ file_ancestors path <-> exists r, path = a +:+ String "/"%char r.
Proof.
  revert a. induction path as [|c path IH]; intros a; cbn [file_ancestors].
  - split; [by intros []%elem_of_nil|]. intros [r Hr]. by destruct a.
  - rewrite elem_of_app, list_elem_of_fmap. split.
    + intros [Ha|(b & -> & (r & ->)%IH)]; [|by exists r].
      destruct (Ascii.eqb_spec c "/") as [->|]; [|by apply elem_of_nil in Ha].
      apply list_elem_of_singleton in Ha as ->. by exists path.
    + intros [r Hr]. destruct a as [|d a]; cbn in Hr; injection Hr as -> Hr.
      * left. cbn. left.
      * right. exists a. split; [done|]. apply IH. by exists r.
Qed.

Lemma shape_ancestors_Ok m p l u : shape_ancestors m p l = Ok u <-> Forall (fun a => m !! a = None) l.
Proof.
  destruct u. induction l as [|a l IH]; cbn; [done|]. case_bool_decide as Hs.
  - split; [done|]. intros [Ha _]%Forall_cons. rewrite Ha in Hs. by destruct Hs.
  - rewrite IH, Forall_cons. rewrite <- eq_None_not_Some in Hs. tauto.
Qed.

Lemma validate_manifest_shape_Ok m u : validate_manifest_shape m = Ok u <-> tree_shaped m.
Proof.
  destruct u. unfold validate_manifest_shape, tree_shaped.
  assert (forall l, shape_loop m l = Ok tt <-> forall p a, p ∈ l -> a ∈ file_ancestors p -> m !! a = None) as Hl.
  { induction l as [|p l IH]; cbn [shape_loop].
    - split; [|done]. intros _ p a []%elem_of_nil.
    - rewrite bind_Ok. split.
      + intros ([] & Ha%shape_ancestors_Ok & Hrest). rewrite IH in Hrest. rewrite Forall_forall in Ha.
        intros q a [->|Hq]%elem_of_cons Hin; [by apply Ha|by eapply Hrest].
      + intros Hall. exists tt. rewrite shape_ancestors_Ok, IH, Forall_forall. split.
        * intros a. apply Hall. left.
        * intros q a Hq. apply Hall. by right. }
  rewrite Hl. setoid_rewrite bt_keys_elem. done.
Qed.

(** * Prefixes *)

Lemma is_prefix_spec p l : is_prefix p l = true <-> exists r, l = p ++ r.
Proof.
  revert l. induction p as [|a p IH]; intros l; cbn.
  - split; [by exists l|done].
  - destruct l as [|b l]; [split; [done|by intros [r Hr]]|].
    rewrite andb_true_iff, bool_decide_eq_true, IH. split.
    + intros [-> [r ->]]. by exists r.
    + intros [r [= -> ->]]. split; [done|by exists r].
Qed.

(** A prefix given by names covers the paths below it, and nothing else. *)
Lemma path_starts_with_names rel l : l <> [] -> Forall (fun c => good_name c = true) l ->
  path_starts_with rel (str_join "/" l) = true <-> exists r, rel = l ++ r.
Proof.
  intros Hne Hl. unfold path_starts_with. rewrite (components_join _ Hne Hl), is_prefix_spec. split.
  - intros [r Hr]. revert rel r Hr. clear. induction l as [|c l IH]; intros rel r Hr; [by exists rel|].
    destruct rel as [|d rel]; [done|]. cbn in Hr. injection Hr as -> Hr.
    destruct (IH _ _ Hr) as [r' ->]. by exists r'.
  - intros [r ->]. exists (map Normal r). by rewrite map_app.
Qed.

(** The names of an accepted path. *)
Lemma syncable_path_comps raw s :
  syncable_path raw = Ok s ->
  exists rel, normalize_relative raw = Ok rel /\ rel <> []
    /\ Forall (fun c => is_ignored_component c = false) rel /\ s = str_join "/" rel
    /\ Forall (fun c => good_name c = true) rel /\ comps_of s = rel.
Proof.
  intros (rel & Hn & Hne & Hig & ->)%syncable_path_Ok. exists rel.
  pose proof (normalize_relative_Ok _ _ Hn) as [Hgood _]. split_and!; try done.
  apply str_split_join; [done|]. eapply Forall_impl; [exact Hgood|apply good_name_no_slash].
Qed.

Lemma syncable_path_not_ignored raw s : syncable_path raw = Ok s -> ignored (comps_of s) = false.
Proof.
  intros (rel & _ & _ & Hig & _ & _ & ->)%syncable_path_comps.
  rewrite ignored_raw. apply not_true_is_false. intros Hex. apply List.existsb_exists in Hex as (c & Hin & Hi).
  rewrite Forall_forall in Hig. apply list_elem_of_In, Hig in Hin. congruence.
Qed.

(** * Properties *)

(** A path accepted for state sync stays inside the workspace's artifact tier: its
    canonical text is made of plain names (no empty, [.] or [..] component, no separator),
    none of them in the cache tier, it splits back into exactly those names, and the check
    maps it to itself. *)
Theorem syncable_path_canonical raw s :
  syncable_path raw = Ok s ->
  Forall (fun c => good_name c = true /\ is_ignored_component c = false) (comps_of s)
  /\ str_join "/" (comps_of s) = s
  /\ ignored (comps_of s) = false
  /\ syncable_path s = Ok s.
Proof.
  intros Hs. pose proof (syncable_path_comps _ _ Hs) as (rel & Hn & Hne & Hig & -> & Hgood & Hc).
  rewrite Hc. split_and!.
  - by apply Forall_and.
  - done.
  - rewrite <- Hc. by apply (syncable_path_not_ignored raw).
  - apply syncable_path_Ok. exists rel. split_and!; try done. by apply (normalize_relative_Ok _ _ Hn).
Qed.

(** [push_plan] is exact and minimal: running it on the current tree gives the target
    tree, every upsert changes an entry and every delete removes one, so the plan is empty
    only for equal trees. *)
Theorem push_plan_exact (current target : gmap string SyncEntry) :
  run_plan (push_plan current target) current = target
  /\ (forall p e, (p, e) ∈ plan_upserts (push_plan current target) <->
        target !! p = Some e /\ current !! p <> Some e)
  /\ (forall p, p ∈ plan_deletes (push_plan current target) <->
        is_Some (current !! p) /\ target !! p = None)
  /\ (plan_is_empty (push_plan current target) = true <-> current = target).
Proof.
  split; [apply run_push_plan|]. split; [apply push_plan_upserts|]. split; [apply push_plan_deletes|].
  unfold plan_is_empty. rewrite andb_true_iff, !bool_decide_eq_true, !length_zero_iff_nil. split.
  - intros [Hu Hd]. pose proof (run_push_plan current target) as Hr. unfold run_plan in Hr.
    rewrite Hu, Hd in Hr. done.
  - intros <-. split.
    + destruct (plan_upserts (push_plan current current)) as [|[p e] l] eqn:E; [done|]. exfalso.
      assert ((p, e) ∈ plan_upserts (push_plan current current)) as Hin by (rewrite E; left).
      by apply push_plan_upserts in Hin as [? ?].
    + destruct (plan_deletes (push_plan current current)) as [|p l] eqn:E; [done|]. exfalso.
      assert (p ∈ plan_deletes (push_plan current current)) as Hin by (rewrite E; left).
      apply push_plan_deletes in Hin as [[x Hx] Hn]. congruence.
Qed.

Module PathDemo.

Lemma syncable_path_canonical_witness :
  syncable_path "./src//main.rs" = Ok "src/main.rs" /\ syncable_path "src/main.rs" = Ok "src/main.rs".
Proof.
  split; [vm_compute; reflexivity|].
  exact (proj2 (proj2 (proj2 (syncable_path_canonical "./src//main.rs" "src/main.rs" eq_refl)))).
Defined.

End PathDemo.
