(* ===== verification/Workspace.v ===== *)
(** Deltas returned by remote backends: [validate_workspace_delta] and
    [apply_workspace_delta] of [kernel/api/src/kernel.rs].

    The branch mirror is the workspace model of [Snapshot]: files and links by
    path, directories being the strict prefixes of their paths, so an empty
    directory does not exist and [prune_empty_parents] has nothing left to do.
    A validated path is canonical, so joining it to the workspace root is
    splitting it at its separators.  The [Debug] text of a prefix list is an
    operation of the class [PathsDebug]. *)

From S2P Require Import Prelude Json Budget Capability Types Canonical Effect Snapshot Router Path.

Open Scope Z_scope.

Class PathsDebug := { debug_paths : list string -> string }.

(** * Validation *)

Section validate.
Context `{!PathsDebug}.

Definition refuse (backend verb raw why : string) : Denial :=
  {| denial_code := DConstraintViolated;
     attempted_operation := "backend.state_sync";
     denial_reason :=
       "backend `" +:+ backend +:+ "` returned a workspace delta that " +:+ verb +:+ " `" +:+ raw
       +:+ "`, which " +:+ why
       +:+ "; the delta was rejected and the remote sandbox discarded — the branch head is unchanged";
     safe_alternatives := []; requestable_scopes := []; escalation_allowed := false |}.

Definition check_path (writable_prefixes : list string) (backend raw verb : string)
    : result Denial string :=
  path ← map_err (refuse backend verb raw) (syncable_path raw);
  _ ← fail_if (negb (String.eqb path raw))
        (refuse backend verb raw ("is not canonical (the canonical path is `" +:+ path +:+ "`)"));
  _ ← fail_if (negb (matches_prefixes (comps_of path) writable_prefixes))
        (refuse backend verb raw
           ("is outside the step's writable prefixes " +:+ debug_paths writable_prefixes));
  Ok path.

Fixpoint check_upserts (wp : list string) (backend : string) (l : list SyncedFile)
    (touched ups : gset string) : result Denial (gset string * gset string) :=
  match l with
  | [] => Ok (touched, ups)
  | f :: rest =>
      path ← check_path wp backend (sf_path f) "writes";
      if decide (path ∈ touched)
      then Err (refuse backend "mentions more than once" (sf_path f) "makes the delta order-dependent")
      else check_upserts wp backend rest ({[path]} ∪ touched) ({[path]} ∪ ups)
  end.

Fixpoint check_deletes (wp : list string) (backend : string) (l : list string) (touched : gset string)
    : result Denial (gset string) :=
  match l with
  | [] => Ok touched
  | p :: rest =>
      path ← check_path wp backend p "deletes";
      if decide (path ∈ touched)
      then Err (refuse backend "both writes and/or deletes" p "makes the delta order-dependent")
      else check_deletes wp backend rest ({[path]} ∪ touched)
  end.

(** [Path::parent], repeated until the root: nearest directory first. *)
Definition parent_dirs (path : string) : list string :=
  map (fun k => str_join "/" (take k (comps_of path))) (rev (seq 1 (length (comps_of path) - 1))).

Fixpoint check_parents (backend : string) (ups : gset string) (paths : list string)
    : result Denial () :=
  match paths with
  | [] => Ok tt
  | path :: rest =>
      match List.find (fun d => bool_decide (d ∈ ups)) (parent_dirs path) with
      | Some d => Err (refuse backend "writes" path ("also writes its file ancestor `" +:+ d +:+ "`"))
      | None => check_parents backend ups rest
      end
  end.

Definition validate_workspace_delta (delta : WorkspaceDelta) (writable_prefixes : list string)
    (backend : string) : result Denial () :=
  tu ← check_upserts writable_prefixes backend (upserts delta) ∅ ∅;
  _ ← check_deletes writable_prefixes backend (deletes delta) tu.1;
  check_parents backend tu.2 (merge_sort String.le (elements tu.2)).
End validate.

(** * Application *)

Definition is_dir (w : gmap (list string) FNode) (p : list string) : bool :=
  existsb (fun qn => strict_prefix p qn.1) (map_to_list w).

Definition below_file (w : gmap (list string) FNode) (p : list string) : bool :=
  existsb (fun qn => strict_prefix qn.1 p) (map_to_list w).

Definition delete_one (w : gmap (list string) FNode) (p : string)
    : KernelResult (gmap (list string) FNode) :=
  let dest := comps_of p in
  if is_dir w dest then Ok w
  else if below_file w dest then Err (EIo "Not a directory")
  else Ok (delete dest w).

Fixpoint delete_all (w : gmap (list string) FNode) (l : list string)
    : KernelResult (gmap (list string) FNode) :=
  match l with
  | [] => Ok w
  | p :: rest => w' ← delete_one w p; delete_all w' rest
  end.

Fixpoint upsert_all (fs : Fs) (l : list SyncedFile) (now : Z) : KernelResult Fs :=
  match l with
  | [] => Ok fs
  | f :: rest =>
      fs' ← write_file fs (comps_of (sf_path f)) (sf_contents f) (Z.land (sf_mode f) 511) now;
      upsert_all fs' rest now
  end.

(** Deeper paths first. *)
Definition depth_order (p q : string) : Prop := (length (components q) <= length (components p))%nat.

#[export] Instance depth_order_dec : RelDecision depth_order.
Proof. intros p q. unfold depth_order. apply _. Defined.

Definition apply_workspace_delta (fs : Fs) (delta : WorkspaceDelta) (now : Z) : KernelResult Fs :=
  w ← delete_all (ws fs) (merge_sort depth_order (deletes delta));
  upsert_all (mkFs w (outside fs)) (upserts delta) now.

(** * Lemmas on validation *)

Section validate_lemmas.
Context `{!PathsDebug}.

(** What is known of a path that passed [check_path]. *)
Definition allowed_path (wp : list string) (p : string) : Prop :=
  syncable_path p = Ok p /\ matches_prefixes (comps_of p) wp = true.

Lemma check_path_Ok wp backend raw verb path :
  check_path wp backend raw verb = Ok path -> path = raw /\ allowed_path wp raw.
Proof.
  unfold check_path. intros Hc. apply bind_Ok in Hc as (p & Hs & Hc).
  apply bind_Ok in Hc as ([] & He%fail_if_Ok & Hc). apply bind_Ok in Hc as ([] & Hm%fail_if_Ok & [= <-]).
  bool_hyps. apply String.eqb_eq in He as ->.
  destruct (syncable_path raw) as [q|] eqn:E; [|done]. injection Hs as ->. split; [done|]. by split.
Qed.

Lemma check_upserts_Ok wp backend l touched ups touched' ups' :
  check_upserts wp backend l touched ups = Ok (touched', ups') ->
  Forall (fun f => allowed_path wp (sf_path f)) l
  /\ NoDup (map sf_path l) /\ (forall f, f ∈ l -> sf_path f ∉ touched)
  /\ touched' = list_to_set (map sf_path l) ∪ touched /\ ups' = list_to_set (map sf_path l) ∪ ups.
Proof.
  revert touched ups. induction l as [|f l IH]; intros touched ups; cbn [check_upserts].
  { intros [= <- <-]. split_and!; try done; try set_solver. constructor. }
  intros Hc. apply bind_Ok in Hc as (p & [-> Hp]%check_path_Ok & Hc). case_decide as Hn; [done|].
  apply IH in Hc as (Hall & Hnd & Hfresh & -> & ->). cbn. split_and!.
  - by constructor.
  - constructor; [|done]. intros (g & Hg & Hin)%list_elem_of_fmap. apply (Hfresh g Hin). set_solver.
  - intros g [->|Hg]%elem_of_cons; [done|]. intros Hin. apply (Hfresh g Hg). set_solver.
  - set_solver.
  - set_solver.
Qed.

Lemma check_deletes_Ok wp backend l touched touched' :
  check_deletes wp backend l touched = Ok touched' ->
  Forall (allowed_path wp) l /\ NoDup l /\ (forall p, p ∈ l -> p ∉ touched).
Proof.
  revert touched. induction l as [|p l IH]; intros touched; cbn [check_deletes].
  { intros _. split_and!; [done|constructor|]. by intros p []%elem_of_nil. }
  intros Hc. apply bind_Ok in Hc as (q & [-> Hp]%check_path_Ok & Hc). case_decide as Hn; [done|].
  apply IH in Hc as (Hall & Hnd & Hfresh). split_and!.
  - by constructor.
  - constructor; [|done]. intros Hin. apply (Hfresh p Hin). set_solver.
  - intros q [->|Hq]%elem_of_cons; [done|]. intros Hin. apply (Hfresh q Hq). set_solver.
Qed.

Lemma check_parents_Ok backend ups paths :
  check_parents backend ups paths = Ok tt ->
  forall p d, p ∈ paths -> d ∈ parent_dirs p -> d ∉ ups.
Proof.
  induction paths as [|q paths IH]; cbn [check_parents]; [by intros _ p d []%elem_of_nil|].
  destruct (List.find _ _) eqn:Ef; [done|]. intros Hc p d [->|Hp]%elem_of_cons Hd.
  - apply list_elem_of_In in Hd. by apply (List.find_none _ _ Ef), bool_decide_eq_false in Hd.
  - by eapply IH.
Qed.

(** A validated delta is a set of allowed paths, none mentioned twice, no
    written file being the directory of another. *)
Record delta_ok (wp : list string) (delta : WorkspaceDelta) : Prop := {
  ok_upserts : Forall (fun f => allowed_path wp (sf_path f)) (upserts delta);
  ok_deletes : Forall (allowed_path wp) (deletes delta);
  ok_nodup : NoDup (map sf_path (upserts delta) ++ deletes delta);
  ok_shape : forall f g, f ∈ upserts delta -> g ∈ upserts delta -> sf_path g ∉ parent_dirs (sf_path f);
}.

Lemma validate_workspace_delta_Ok delta wp backend u :
  validate_workspace_delta delta wp backend = Ok u -> delta_ok wp delta.
Proof.
  unfold validate_workspace_delta. intros Hv. apply bind_Ok in Hv as ([touched ups] & Hu & Hv).
  apply bind_Ok in Hv as (t' & Hd & Hp). cbn [fst snd] in *.
  apply check_upserts_Ok in Hu as (Hall & Hnd & _ & -> & ->).
  apply check_deletes_Ok in Hd as (Hdall & Hdnd & Hdis). destruct u.
  pose proof (check_parents_Ok _ _ _ Hp) as Hshape. split; try done.
  - apply NoDup_app. split_and!; [done| |done]. intros p Hp1 Hp2. apply (Hdis p Hp2). set_solver.
  - intros f g Hf Hg Hin. eapply Hshape; [|exact Hin|].
    + rewrite merge_sort_Permutation, elem_of_elements. apply elem_of_union. left.
      apply elem_of_list_to_set, list_elem_of_fmap. by exists f.
    + apply elem_of_union. left. apply elem_of_list_to_set, list_elem_of_fmap. by exists g.
Qed.
End validate_lemmas.

(** * Lemmas on application *)

(** No entry of the tree lies below a file or link. *)
Definition fs_tree (w : gmap (list string) FNode) : Prop :=
  forall p q, is_Some (w !! p) -> is_Some (w !! q) -> strict_prefix p q = false.

Lemma existsb_entries (f : list string -> bool) (w : gmap (list string) FNode) :
  existsb (fun qn => f qn.1) (map_to_list w) = true <-> exists q, is_Some (w !! q) /\ f q = true.
Proof.
  rewrite List.existsb_exists. split.
  - intros ([q n] & Hin & Hf). apply list_elem_of_In, elem_of_map_to_list in Hin. exists q. eauto.
  - intros (q & [n Hn] & Hf). exists (q, n). split; [|done].
    by apply list_elem_of_In, elem_of_map_to_list.
Qed.

Lemma is_dir_spec w p : is_dir w p = true <-> exists q, is_Some (w !! q) /\ strict_prefix p q = true.
Proof. apply existsb_entries. Qed.

Lemma below_file_spec w p : below_file w p = true <-> exists q, is_Some (w !! q) /\ strict_prefix q p = true.
Proof. apply (existsb_entries (fun q => strict_prefix q p)). Qed.

Lemma delete_one_lookup w p w' : fs_tree w -> delete_one w p = Ok w' -> w' = delete (comps_of p) w.
Proof.
  unfold delete_one. intros Ht. destruct (is_dir w (comps_of p)) eqn:Ed.
  - intros [= <-]. symmetry. apply delete_id. apply is_dir_spec in Ed as (q & Hq & Hpre).
    destruct (w !! comps_of p) eqn:E; [|done]. rewrite Ht in Hpre; [done|by eexists|done].
  - destruct (below_file w (comps_of p)); [done|]. by intros [= <-].
Qed.

Lemma fs_tree_sub w w' : w' ⊆ w -> fs_tree w -> fs_tree w'.
Proof.
  intros Hsub Ht p q [m Hm] [n Hn]. apply Ht; eexists; by eapply lookup_weaken.
Qed.

Lemma delete_all_lookup w l w' q : fs_tree w -> delete_all w l = Ok w' ->
  w' !! q = if decide (q ∈ map comps_of l) then None else w !! q.
Proof.
  revert w. induction l as [|p l IH]; intros w Ht; cbn [delete_all].
  { by intros [= <-]. }
  intros Hd. apply bind_Ok in Hd as (w1 & H1%delete_one_lookup & Hd); [|done]. subst w1.
  apply IH in Hd; [|eapply fs_tree_sub; [apply delete_subseteq|done]]. rewrite Hd. cbn [map].
  destruct (decide (q = comps_of p)) as [->|Hne].
  - rewrite lookup_delete_eq, (decide_True (P := _ ∈ comps_of p :: _)) by left. by case_decide.
  - rewrite lookup_delete_ne by done. repeat case_decide; set_solver.
Qed.

Lemma delete_all_total w l :
  fs_tree w -> (forall p, p ∈ l -> below_file w (comps_of p) = false) -> exists w', delete_all w l = Ok w'.
Proof.
  revert w. induction l as [|p l IH]; intros w Ht Hb; cbn [delete_all]; [by eexists|].
  assert (delete_one w p = Ok (delete (comps_of p) w)) as ->.
  { destruct (delete_one w p) as [w'|e] eqn:E; [by apply delete_one_lookup in E as ->|].
    unfold delete_one in E. destruct (is_dir w (comps_of p)); [done|]. by rewrite Hb in E by left. }
  cbn [mbind result_bind]. apply IH; [eapply fs_tree_sub; [apply delete_subseteq|done]|].
  intros q Hq. apply not_true_is_false. intros (r & [n Hr] & Hpre)%below_file_spec.
  apply lookup_delete_Some in Hr as [_ Hr].
  assert (below_file w (comps_of q) = true) as Hf by (apply below_file_spec; eauto).
  rewrite Hb in Hf; [done|by right].
Qed.

Lemma comps_of_inj p q : comps_of p = comps_of q -> p = q.
Proof. intros H. rewrite <- (str_join_split "/" p), <- (str_join_split "/" q). unfold comps_of in H. by rewrite H. Qed.

(** The tree a delta describes: its deletes removed, its upserts written. *)
Definition upserts_target (w : gmap (list string) FNode) (l : list SyncedFile) (now : Z)
    : gmap (list string) FNode :=
  foldl (fun w f => <[comps_of (sf_path f) := FFile (sf_contents f) (Z.land (sf_mode f) 511) now]> w) w l.

Definition deletes_target (w : gmap (list string) FNode) (l : list string)
    : gmap (list string) FNode :=
  foldl (fun w p => delete (comps_of p) w) w l.

Definition delta_target (w : gmap (list string) FNode) (delta : WorkspaceDelta) (now : Z)
    : gmap (list string) FNode :=
  upserts_target (deletes_target w (deletes delta)) (upserts delta) now.

Lemma upserts_target_dom w l now q : is_Some (w !! q) -> is_Some (upserts_target w l now !! q).
Proof.
  revert w. induction l as [|f l IH]; intros w Hq; [done|]. apply IH.
  destruct (decide (comps_of (sf_path f) = q)) as [<-|Hne].
  - rewrite lookup_insert_eq. by eexists.
  - by rewrite lookup_insert_ne.
Qed.

Lemma upserts_target_other w l now q :
  q ∉ map (fun f => comps_of (sf_path f)) l -> upserts_target w l now !! q = w !! q.
Proof.
  revert w. induction l as [|f l IH]; intros w Hq; [done|]. cbn in Hq.
  change (upserts_target (<[comps_of (sf_path f) := FFile (sf_contents f) (Z.land (sf_mode f) 511) now]> w) l now !! q = w !! q).
  rewrite IH by set_solver. apply lookup_insert_ne. set_solver.
Qed.

Lemma deletes_target_lookup w l q :
  deletes_target w l !! q = if decide (q ∈ map comps_of l) then None else w !! q.
Proof.
  revert w. induction l as [|p l IH]; intros w; [done|].
  change (deletes_target (delete (comps_of p) w) l !! q = if decide (q ∈ map comps_of (p :: l)) then None else w !! q).
  rewrite IH. cbn [map]. destruct (decide (q = comps_of p)) as [->|Hne].
  - rewrite lookup_delete_eq, (decide_True (P := _ ∈ comps_of p :: _)) by left. by case_decide.
  - rewrite lookup_delete_ne by done. repeat case_decide; set_solver.
Qed.

Lemma write_file_free fs p bytes mode now :
  blocked (ws fs) p = false -> (forall t, ws fs !! p <> Some (FLink t)) ->
  write_file fs p bytes mode now = Ok (mkFs (<[p := FFile bytes mode now]> (ws fs)) (outside fs)).
Proof.
  intros Hb Hl. destruct (write_file fs p bytes mode now) as [fs'|e] eqn:E.
  - by rewrite (write_file_spec _ _ _ _ _ _ Hl E).
  - unfold write_file in E. rewrite Hb in E. destruct (ws fs !! p) as [[]|]; done.
Qed.

(** Nothing stands in the way of a write into a map that ends up a tree. *)
Lemma tree_not_blocked w w' p :
  fs_tree w' -> (forall q, is_Some (w !! q) -> is_Some (w' !! q)) -> is_Some (w' !! p) ->
  blocked w p = false.
Proof.
  intros Ht Hsub Hp. apply not_true_is_false. unfold blocked.
  intros (q & Hq & Hpre)%(existsb_entries (fun q => strict_prefix q p || strict_prefix p q)).
  apply orb_true_iff in Hpre as [Hpre|Hpre]; rewrite Ht in Hpre; auto; done.
Qed.

Lemma upsert_all_target fs l now :
  fs_tree (upserts_target (ws fs) l now) ->
  (forall f t, f ∈ l -> ws fs !! comps_of (sf_path f) <> Some (FLink t)) ->
  upsert_all fs l now = Ok (mkFs (upserts_target (ws fs) l now) (outside fs)).
Proof.
  revert fs. induction l as [|f l IH]; intros fs Ht Hl; cbn [upsert_all]; [by destruct fs|].
  rewrite write_file_free.
  - cbn [mbind result_bind]. rewrite IH; cbn [ws outside]; [done|exact Ht|].
    intros g t Hg. destruct (decide (comps_of (sf_path f) = comps_of (sf_path g))) as [->|Hne].
    + by rewrite lookup_insert_eq.
    + rewrite lookup_insert_ne by done. apply Hl. by right.
  - eapply tree_not_blocked; [exact Ht| |].
    + intros q. apply upserts_target_dom.
    + apply (upserts_target_dom (<[comps_of (sf_path f) := _]> (ws fs))). rewrite lookup_insert_eq. by eexists.
  - intros t. apply Hl. by left.
Qed.

Lemma delete_all_target w l :
  fs_tree w -> (forall p, p ∈ l -> below_file w (comps_of p) = false) ->
  delete_all w (merge_sort depth_order l) = Ok (deletes_target w l).
Proof.
  intros Ht Hb. destruct (delete_all_total w (merge_sort depth_order l) Ht) as [w' Hd].
  { intros p. rewrite merge_sort_Permutation. apply Hb. }
  rewrite Hd. f_equal. apply map_eq. intros q. rewrite (delete_all_lookup _ _ _ q Ht Hd).
  rewrite deletes_target_lookup.
  assert (q ∈ map comps_of (merge_sort depth_order l) <-> q ∈ map comps_of l) as Hiff.
  { rewrite !list_elem_of_fmap. by setoid_rewrite merge_sort_Permutation. }
  by apply decide_ext.
Qed.

Lemma upserts_target_in w l now f :
  NoDup (map sf_path l) -> f ∈ l ->
  upserts_target w l now !! comps_of (sf_path f) = Some (FFile (sf_contents f) (Z.land (sf_mode f) 511) now).
Proof.
  revert w. induction l as [|g l IH]; intros w Hnd Hf; [by apply elem_of_nil in Hf|].
  cbn in Hnd. apply NoDup_cons in Hnd as [Hg Hnd].
  apply elem_of_cons in Hf as [->|Hf]; [|by apply (IH (<[comps_of (sf_path g) := _]> w))].
  change (upserts_target (<[comps_of (sf_path g) := FFile (sf_contents g) (Z.land (sf_mode g) 511) now]> w) l now
            !! comps_of (sf_path g) = Some (FFile (sf_contents g) (Z.land (sf_mode g) 511) now)).
  rewrite upserts_target_other; [apply lookup_insert_eq|].
  intros (h & Heq & Hh)%list_elem_of_fmap. apply Hg, list_elem_of_fmap. exists h. by split; [apply comps_of_inj|].
Qed.

Lemma upserts_target_Some w l now q :
  is_Some (upserts_target w l now !! q) -> is_Some (w !! q) \/ exists f, f ∈ l /\ q = comps_of (sf_path f).
Proof.
  destruct (decide (q ∈ map (fun f => comps_of (sf_path f)) l)) as [(f & -> & Hf)%list_elem_of_fmap|Hq]; [eauto|].
  rewrite upserts_target_other by done. by left.
Qed.

(** Validation keeps one written file from being the directory of another. *)
Lemma shape_prefix wp delta f g :
  delta_ok wp delta -> f ∈ upserts delta -> g ∈ upserts delta ->
  strict_prefix (comps_of (sf_path f)) (comps_of (sf_path g)) = false.
Proof.
  intros Hok Hf Hg. apply not_true_is_false. intros (Htake%bool_decide_eq_true & Hlt%Nat.ltb_lt)%andb_true_iff.
  apply (ok_shape _ _ Hok g f Hg Hf). unfold parent_dirs. apply list_elem_of_fmap.
  exists (length (comps_of (sf_path f))). split.
  - rewrite Htake. symmetry. apply str_join_split.
  - apply list_elem_of_In. rewrite <- List.in_rev. apply List.in_seq.
    enough (comps_of (sf_path f) <> []) by (destruct (comps_of (sf_path f)); cbn in *; [done|lia]).
    apply str_split_nonempty.
Qed.

(** A validated delta whose writes clash with no file it leaves in place ends in a tree. *)
Definition clash_free (w : gmap (list string) FNode) (delta : WorkspaceDelta) : Prop :=
  forall f q, f ∈ upserts delta -> is_Some (w !! q) -> q ∉ map comps_of (deletes delta) ->
    strict_prefix q (comps_of (sf_path f)) = false /\ strict_prefix (comps_of (sf_path f)) q = false.

Lemma delta_target_tree w delta wp now :
  delta_ok wp delta -> fs_tree w -> clash_free w delta -> fs_tree (delta_target w delta now).
Proof.
  intros Hok Ht Hc p q Hp Hq.
  assert (forall r, is_Some (delta_target w delta now !! r) ->
            (is_Some (w !! r) /\ r ∉ map comps_of (deletes delta))
            \/ exists f, f ∈ upserts delta /\ r = comps_of (sf_path f)) as Hcase.
  { intros r [Hr|Hr]%upserts_target_Some; [left|by right].
    rewrite deletes_target_lookup in Hr. case_decide; [by destruct Hr|done]. }
  destruct (Hcase p Hp) as [[Hp' Hpd]|(f & Hf & ->)], (Hcase q Hq) as [[Hq' Hqd]|(g & Hg & ->)].
  - by apply Ht.
  - by apply Hc.
  - by apply Hc.
  - by eapply shape_prefix.
Qed.

(** * Properties *)

Section properties.
Context `{!PathsDebug}.

(** C35: a delta that passed validation is applied exactly, to a workspace in which it names
    no link, deletes nothing below a file, and writes no path above or below a file it leaves in
    place: the application succeeds (so no written file is the directory of another), every
    written path then holds its contents with its permission bits only, every deleted path holds
    nothing (so no path is both written and deleted), every other path and everything outside
    the workspace is as it was, and no entry lies below a file; and every path the delta names is
    canonical, carries no ignored component and lies under the step's writable prefixes. *)
Theorem validated_delta_exact fs delta wp backend now u :
  validate_workspace_delta delta wp backend = Ok u ->
  fs_tree (ws fs) ->
  (forall p, p ∈ deletes delta -> below_file (ws fs) (comps_of p) = false) ->
  (forall f t, f ∈ upserts delta -> ws fs !! comps_of (sf_path f) <> Some (FLink t)) ->
  clash_free (ws fs) delta ->
  exists w, apply_workspace_delta fs delta now = Ok (mkFs w (outside fs))
  /\ (forall f, f ∈ upserts delta ->
        w !! comps_of (sf_path f) = Some (FFile (sf_contents f) (Z.land (sf_mode f) 511) now))
  /\ (forall p, p ∈ deletes delta -> w !! comps_of p = None)
  /\ (forall q, (forall s, s ∈ map sf_path (upserts delta) ++ deletes delta -> q <> comps_of s) ->
        w !! q = ws fs !! q)
  /\ fs_tree w
  /\ (forall s, s ∈ map sf_path (upserts delta) ++ deletes delta ->
        syncable_path s = Ok s /\ matches_prefixes (comps_of s) wp = true /\ ignored (comps_of s) = false).
Proof.
  intros Hv Ht Hb Hl Hc. apply validate_workspace_delta_Ok in Hv as Hok.
  pose proof (delta_target_tree _ _ _ now Hok Ht Hc) as Htt.
  destruct Hok as [Hups Hdels Hnd _]. apply NoDup_app in Hnd as (Hund & Hdis & _).
  exists (delta_target (ws fs) delta now). split_and!.
  - unfold apply_workspace_delta. rewrite delete_all_target by done. cbn [mbind result_bind].
    rewrite upsert_all_target; [done|done|]. intros f t Hf. cbn [ws]. rewrite deletes_target_lookup.
    case_decide; [done|by apply Hl].
  - intros f Hf. by apply upserts_target_in.
  - intros p Hp. unfold delta_target. rewrite upserts_target_other, deletes_target_lookup.
    + by rewrite decide_True by (apply list_elem_of_fmap; eauto).
    + intros (f & Heq%comps_of_inj & Hf)%list_elem_of_fmap. subst p.
      apply (Hdis (sf_path f)); [apply list_elem_of_fmap; eauto|done].
  - intros q Hq. unfold delta_target. rewrite upserts_target_other, deletes_target_lookup.
    + case_decide as Hd; [|done]. apply list_elem_of_fmap in Hd as (p & -> & Hp).
      destruct (Hq p); [by apply elem_of_app; right|done].
    + intros (f & -> & Hf)%list_elem_of_fmap. apply (Hq (sf_path f)); [|done].
      apply elem_of_app. left. apply list_elem_of_fmap. eauto.
  - done.
  - intros s Hs. assert (allowed_path wp s) as [Hs1 Hs2].
    { apply elem_of_app in Hs as [(f & -> & Hf)%list_elem_of_fmap|Hs];
        [by apply (proj1 (Forall_forall _ _) Hups)|by apply (proj1 (Forall_forall _ _) Hdels)]. }
    split_and!; try done. by apply syncable_path_not_ignored in Hs1.
Qed.
End properties.

Module WorkspaceDemo.

#[export] Instance debug : PathsDebug := {| debug_paths := fun l => "[" +:+ str_join ", " l +:+ "]" |}.

Definition file (p c : string) (mode : Z) : SyncedFile := {| sf_path := p; sf_contents := c; sf_mode := mode |}.

Definition fs0 : Fs :=
  mkFs {[ ["src"; "old.rs"] := FFile "old" 420 0; ["README"] := FFile "hi" 420 0 ]} ∅.

Definition delta : WorkspaceDelta :=
  {| upserts := [file "src/main.rs" "main" 2541]; deletes := ["src/old.rs"] |}.

Definition after : gmap (list string) FNode :=
  {[ ["src"; "main.rs"] := FFile "main" 493 7; ["README"] := FFile "hi" 420 0 ]}.

(** A delta leaving the writable prefixes is refused. *)
Example escape_refused :
  is_ok (validate_workspace_delta delta ["docs"] "cube") = false
  /\ is_ok (validate_workspace_delta {| upserts := []; deletes := ["src/../README"] |} ["src"] "cube") = false.
Proof. by vm_compute. Qed.

(** A tree, decided on its entries. *)
Definition fs_treeb (w : gmap (list string) FNode) : bool :=
  forallb (fun p => forallb (fun q => negb (strict_prefix p.1 q.1)) (map_to_list w)) (map_to_list w).

Lemma fs_treeb_ok w : fs_treeb w = true -> fs_tree w.
Proof.
  intros Hf p q [m Hm] [n Hn]. unfold fs_treeb in Hf. rewrite List.forallb_forall in Hf.
  apply negb_true_iff. specialize (Hf (p, m)). rewrite List.forallb_forall in Hf.
  apply (Hf ltac:(by apply list_elem_of_In, elem_of_map_to_list) (q, n)).
  by apply list_elem_of_In, elem_of_map_to_list.
Qed.

Lemma validated_delta_exact_witness : exists w,
  apply_workspace_delta fs0 delta 7 = Ok (mkFs w ∅)
  /\ w !! ["src"; "main.rs"] = Some (FFile "main" 493 7) /\ w !! ["src"; "old.rs"] = None
  /\ w !! ["README"] = Some (FFile "hi" 420 0).
Proof.
  destruct (validated_delta_exact fs0 delta ["src"] "cube" 7 tt) as (w & Hw & Hu & Hd & Ho & _).
  - vm_compute. reflexivity.
  - apply fs_treeb_ok. by vm_compute.
  - intros p Hp. assert (p = "src/old.rs") as -> by set_solver. by vm_compute.
  - intros f t Hf. assert (f = file "src/main.rs" "main" 2541) as -> by set_solver. by vm_compute.
  - intros f q Hf Hq Hnd. assert (f = file "src/main.rs" "main" 2541) as -> by set_solver.
    assert (q = ["README"]) as ->; [|by vm_compute].
    destruct Hq as [n Hq]. cbn in Hq. apply lookup_insert_Some in Hq as [[<- _]|[_ Hq]].
    + destruct Hnd. vm_compute. left.
    + by apply lookup_singleton_Some in Hq as [<- _].
  - exists w. split_and!.
    + exact Hw.
    + apply (Hu (file "src/main.rs" "main" 2541)). left.
    + apply (Hd "src/old.rs"). left.
    + rewrite Ho; [by vm_compute|]. intros s Hs Heq.
      change (s ∈ ["src/main.rs"; "src/old.rs"]) in Hs. rewrite !elem_of_cons, elem_of_nil in Hs.
      destruct Hs as [-> | [-> | []]]; vm_compute in Heq; discriminate Heq.
Defined.

End WorkspaceDemo.
