(* ===== verification/Net.v ===== *)
(** The address guard of [kernel/core/src/net.rs].

    An IPv4 address is its four octets, an IPv6 address its eight segments, as
    [std::net] presents them; the classification functions of [std::net] the
    guard calls are written out on them.  The reference is a list of CIDR
    blocks over the numeric addresses. *)

From S2P Require Import Prelude.

Open Scope Z_scope.

(** * Addresses *)

Record Ipv4Addr := mkV4 { o0 : Z; o1 : Z; o2 : Z; o3 : Z }.

Record Ipv6Addr := mkV6 {
  s0 : Z; s1 : Z; s2 : Z; s3 : Z; s4 : Z; s5 : Z; s6 : Z; s7 : Z;
}.

Inductive IpAddr := V4 (v4 : Ipv4Addr) | V6 (v6 : Ipv6Addr).

Definition v4_eqb (a b : Ipv4Addr) : bool :=
  (o0 a =? o0 b) && (o1 a =? o1 b) && (o2 a =? o2 b) && (o3 a =? o3 b).

Definition v6_eqb (a b : Ipv6Addr) : bool :=
  (s0 a =? s0 b) && (s1 a =? s1 b) && (s2 a =? s2 b) && (s3 a =? s3 b)
  && (s4 a =? s4 b) && (s5 a =? s5 b) && (s6 a =? s6 b) && (s7 a =? s7 b).

Definition METADATA_V4 : Ipv4Addr := mkV4 169 254 169 254.
Definition METADATA_V6 : Ipv6Addr := mkV6 0xfd00 0x0ec2 0 0 0 0 0 0x254.

(** [std::net::Ipv4Addr]. *)
Definition v4_is_loopback (a : Ipv4Addr) : bool := o0 a =? 127.
Definition v4_is_private (a : Ipv4Addr) : bool :=
  (o0 a =? 10) || ((o0 a =? 172) && (16 <=? o1 a) && (o1 a <=? 31)) || ((o0 a =? 192) && (o1 a =? 168)).
Definition v4_is_link_local (a : Ipv4Addr) : bool := (o0 a =? 169) && (o1 a =? 254).
Definition v4_is_unspecified (a : Ipv4Addr) : bool := v4_eqb a (mkV4 0 0 0 0).
Definition v4_is_broadcast (a : Ipv4Addr) : bool := v4_eqb a (mkV4 255 255 255 255).

(** [std::net::Ipv6Addr]. *)
Definition v6_is_loopback (a : Ipv6Addr) : bool := v6_eqb a (mkV6 0 0 0 0 0 0 0 1).
Definition v6_is_unspecified (a : Ipv6Addr) : bool := v6_eqb a (mkV6 0 0 0 0 0 0 0 0).
Definition to_ipv4_mapped (a : Ipv6Addr) : option Ipv4Addr :=
  if (s0 a =? 0) && (s1 a =? 0) && (s2 a =? 0) && (s3 a =? 0) && (s4 a =? 0) && (s5 a =? 0xffff)
  then Some (mkV4 (s6 a / 256) (s6 a mod 256) (s7 a / 256) (s7 a mod 256))
  else None.

(** * The guard *)

Definition is_forbidden_v4 (v4 : Ipv4Addr) : bool :=
  v4_is_loopback v4 || v4_is_private v4 || v4_is_link_local v4 || v4_is_unspecified v4
  || v4_is_broadcast v4 || v4_eqb v4 METADATA_V4
  || ((o0 v4 =? 100) && (Z.land (o1 v4) 0xc0 =? 64)).

Definition is_forbidden_ip (ip : IpAddr) : bool :=
  match ip with
  | V4 v4 => is_forbidden_v4 v4
  | V6 v6 =>
      v6_is_loopback v6 || v6_is_unspecified v6
      || (Z.land (s0 v6) 0xfe00 =? 0xfc00)
      || (Z.land (s0 v6) 0xffc0 =? 0xfe80)
      || v6_eqb v6 METADATA_V6
      || match to_ipv4_mapped v6 with Some v4 => is_forbidden_v4 v4 | None => false end
  end.

(** * CIDR blocks *)

Definition v4_wf (a : Ipv4Addr) : Prop :=
  in_range 255 (o0 a) /\ in_range 255 (o1 a) /\ in_range 255 (o2 a) /\ in_range 255 (o3 a).

Definition v6_wf (a : Ipv6Addr) : Prop :=
  in_range 65535 (s0 a) /\ in_range 65535 (s1 a) /\ in_range 65535 (s2 a) /\ in_range 65535 (s3 a)
  /\ in_range 65535 (s4 a) /\ in_range 65535 (s5 a) /\ in_range 65535 (s6 a) /\ in_range 65535 (s7 a).

Definition ip_wf (ip : IpAddr) : Prop :=
  match ip with V4 a => v4_wf a | V6 a => v6_wf a end.

Definition v4_num (a : Ipv4Addr) : Z := ((o0 a * 256 + o1 a) * 256 + o2 a) * 256 + o3 a.

Definition v6_num (a : Ipv6Addr) : Z :=
  ((((((s0 a * 65536 + s1 a) * 65536 + s2 a) * 65536 + s3 a) * 65536 + s4 a) * 65536 + s5 a) * 65536
   + s6 a) * 65536 + s7 a.

(** A block of numeric addresses: a base and the number of host bits. *)
Definition in_block (x : Z) (blk : Z * Z) : bool := x / 2 ^ blk.2 =? blk.1 / 2 ^ blk.2.

Definition forbidden_v4_blocks : list (Z * Z) :=
  [ (v4_num (mkV4 127 0 0 0), 24);
    (v4_num (mkV4 10 0 0 0), 24);
    (v4_num (mkV4 172 16 0 0), 20);
    (v4_num (mkV4 192 168 0 0), 16);
    (v4_num (mkV4 169 254 0 0), 16);
    (v4_num (mkV4 0 0 0 0), 0);
    (v4_num (mkV4 255 255 255 255), 0);
    (v4_num (mkV4 100 64 0 0), 22) ].

Definition forbidden_v6_blocks : list (Z * Z) :=
  [ (v6_num (mkV6 0 0 0 0 0 0 0 1), 0);
    (v6_num (mkV6 0 0 0 0 0 0 0 0), 0);
    (v6_num (mkV6 0xfc00 0 0 0 0 0 0 0), 121);
    (v6_num (mkV6 0xfe80 0 0 0 0 0 0 0), 118) ].

(** The IPv4 blocks, embedded at [::ffff:0:0/96]. *)
Definition mapped_blocks : list (Z * Z) :=
  map (fun blk => (0xffff * 2 ^ 32 + blk.1, blk.2)) forbidden_v4_blocks.

Definition in_forbidden_block (ip : IpAddr) : bool :=
  match ip with
  | V4 a => existsb (in_block (v4_num a)) forbidden_v4_blocks
  | V6 a => existsb (in_block (v6_num a)) (forbidden_v6_blocks ++ mapped_blocks)
  end.

(** * Lemmas *)

(** Masking the high bits of a [w]-bit word rounds it down. *)
Lemma land_high_mask x k w :
  0 <= k <= w -> 0 <= x < 2 ^ w -> Z.land x (2 ^ w - 2 ^ k) = x / 2 ^ k * 2 ^ k.
Proof.
  intros Hk Hx. replace (2 ^ w - 2 ^ k) with (Z.shiftl (Z.ones (w - k)) k).
  - rewrite <- Z.shiftr_div_pow2, <- Z.shiftl_mul_pow2 by lia. apply Z.bits_inj'. intros i Hi.
    rewrite Z.land_spec, !Z.shiftl_spec by lia. destruct (decide (i < k)) as [Hlt|Hge].
    + rewrite !(Z.testbit_neg_r _ (i - k)) by lia. by rewrite andb_false_r.
    + rewrite Z.shiftr_spec by lia. replace (i - k + k) with i by lia.
      rewrite Z.testbit_ones_nonneg by lia. destruct (decide (i < w)) as [Hw|Hw].
      * rewrite (proj2 (Z.ltb_lt _ _)) by lia. by rewrite andb_true_r.
      * rewrite (proj2 (Z.ltb_ge _ _)) by lia. rewrite andb_false_r.
        rewrite <- (Z.mod_small x (2 ^ w)) by done. symmetry. apply Z.mod_pow2_bits_high. lia.
  - rewrite Z.shiftl_mul_pow2, Z.ones_equiv by lia.
    rewrite Z.mul_pred_l, <- Z.pow_add_r by lia. f_equal. f_equal. lia.
Qed.

Lemma bool_iff (b c : bool) : (b = true <-> c = true) -> b = c.
Proof. destruct b, c; intuition congruence. Qed.

Lemma in_block_true x base k : in_block x (base, k) = true <-> x / 2 ^ k = base / 2 ^ k.
Proof. unfold in_block. apply Z.eqb_eq. Qed.

(** Tests on numbers, as propositions for [lia]. *)
Ltac tests_to_props :=
  rewrite ?orb_true_iff, ?andb_true_iff, ?Z.eqb_eq, ?Z.leb_le.

Lemma v4_high_half a : v4_wf a -> v4_num a / 2 ^ 16 = o0 a * 256 + o1 a.
Proof.
  unfold v4_wf, in_range, v4_num. intros Hwf. symmetry.
  apply Z.div_unique with (r := o2 a * 256 + o3 a); change (2 ^ 16) with 65536; lia.
Qed.

(** A block of at least 16 host bits is a block of the first two octets. *)
Lemma v4_prefix_block a x y k : v4_wf a -> 16 <= k ->
  in_block (v4_num a) (v4_num (mkV4 x y 0 0), k)
  = ((o0 a * 256 + o1 a) / 2 ^ (k - 16) =? (x * 256 + y) / 2 ^ (k - 16)).
Proof.
  intros Hwf Hk. unfold in_block. cbn [fst snd].
  replace (2 ^ k) with (2 ^ 16 * 2 ^ (k - 16)) by (rewrite <- Z.pow_add_r by lia; f_equal; lia).
  rewrite <- !Z.div_div, v4_high_half by (done || lia).
  replace (v4_num (mkV4 x y 0 0)) with ((x * 256 + y) * 2 ^ 16) by (unfold v4_num; cbn; lia).
  by rewrite Z.div_mul.
Qed.

(** A block of no host bits is one address. *)
Lemma v4_host_block a b : v4_wf a -> v4_wf b -> in_block (v4_num a) (v4_num b, 0) = v4_eqb a b.
Proof.
  intros Ha Hb. apply bool_iff. rewrite in_block_true. change (2 ^ 0) with 1. rewrite !Z.div_1_r.
  unfold v4_eqb. tests_to_props. unfold v4_wf, in_range, v4_num in *. lia.
Qed.

Lemma v4_wf_const x y z w :
  forallb (fun o => (0 <=? o) && (o <=? 255)) [x; y; z; w] = true -> v4_wf (mkV4 x y z w).
Proof. cbn. unfold v4_wf, in_range. intros Hf. bool_hyps. cbn. lia. Qed.

Section v4_blocks.
Context (a : Ipv4Addr) (Hwf : v4_wf a).

(** A block whose base is the first two octets, tested on them. *)
Ltac octet_block :=
  rewrite v4_prefix_block by (done || lia);
  match goal with |- context [2 ^ ?k] => let p := eval vm_compute in (2 ^ k) in change (2 ^ k) with p end;
  apply bool_iff; tests_to_props; unfold v4_wf, in_range in Hwf; Z.to_euclidean_division_equations; lia.

Lemma block_slash8 x : in_block (v4_num a) (v4_num (mkV4 x 0 0 0), 24) = (o0 a =? x).
Proof. octet_block. Qed.

Lemma block_slash16 x y : in_range 255 y ->
  in_block (v4_num a) (v4_num (mkV4 x y 0 0), 16) = (o0 a =? x) && (o1 a =? y).
Proof. unfold in_range. intros Hy. octet_block. Qed.

Lemma block_172 :
  in_block (v4_num a) (v4_num (mkV4 172 16 0 0), 20) = (o0 a =? 172) && (16 <=? o1 a) && (o1 a <=? 31).
Proof. octet_block. Qed.

Lemma block_cgnat :
  in_block (v4_num a) (v4_num (mkV4 100 64 0 0), 22) = (o0 a =? 100) && (Z.land (o1 a) 0xc0 =? 64).
Proof.
  change 0xc0 with (2 ^ 8 - 2 ^ 6). rewrite land_high_mask by (unfold v4_wf, in_range in Hwf; lia).
  change (2 ^ 6) with 64. octet_block.
Qed.

Lemma metadata_link_local : v4_eqb a METADATA_V4 = true -> v4_is_link_local a = true.
Proof. unfold v4_eqb, v4_is_link_local, METADATA_V4. cbn. intros Hm. bool_hyps. by rewrite H, H2. Qed.

Lemma forbidden_v4_blocks_exact :
  is_forbidden_v4 a = existsb (in_block (v4_num a)) forbidden_v4_blocks.
Proof.
  unfold forbidden_v4_blocks. cbn [existsb].
  rewrite !block_slash8, !block_slash16, block_172, block_cgnat, !v4_host_block
    by (done || by apply v4_wf_const).
  unfold is_forbidden_v4, v4_is_private. fold (v4_is_loopback a) (v4_is_link_local a) (v4_is_unspecified a) (v4_is_broadcast a).
  pose proof metadata_link_local as Hm. destruct (v4_eqb a METADATA_V4).
  - rewrite (Hm eq_refl). by rewrite !orb_true_r.
  - rewrite !orb_false_r, <- !orb_assoc. done.
Qed.
End v4_blocks.

(** A block of at most 32 host bits below a fixed high part. *)
Lemma block_embed hi h lo base k :
  0 <= k <= 32 -> 0 <= lo < 2 ^ 32 -> 0 <= base < 2 ^ 32 ->
  in_block (hi * 2 ^ 32 + lo) (h * 2 ^ 32 + base, k) = (hi =? h) && in_block lo (base, k).
Proof.
  intros Hk Hlo Hbase. unfold in_block. cbn [fst snd].
  replace (2 ^ 32) with (2 ^ (32 - k) * 2 ^ k) in * by (rewrite <- Z.pow_add_r by lia; f_equal; lia).
  assert (0 < 2 ^ k) by lia. rewrite !Z.mul_assoc, !Z.div_add_l by lia.
  assert (0 <= lo / 2 ^ k < 2 ^ (32 - k)) by (split; [apply Z.div_pos; lia|apply Z.div_lt_upper_bound; lia]).
  assert (0 <= base / 2 ^ k < 2 ^ (32 - k)) by (split; [apply Z.div_pos; lia|apply Z.div_lt_upper_bound; lia]).
  apply bool_iff. rewrite andb_true_iff, !Z.eqb_eq. split; [|by intros [-> ->]].
  intros Heq. assert (hi = h) as -> by nia. split; [done|lia].
Qed.

Lemma mapped_blocks_embed hi lo :
  0 <= lo < 2 ^ 32 ->
  existsb (in_block (hi * 2 ^ 32 + lo)) mapped_blocks
  = (hi =? 0xffff) && existsb (in_block lo) forbidden_v4_blocks.
Proof.
  intros Hlo. unfold mapped_blocks.
  assert (Forall (fun blk => 0 <= blk.2 <= 32 /\ 0 <= blk.1 < 2 ^ 32) forbidden_v4_blocks) as Hall
    by (repeat constructor; by vm_compute).
  induction Hall as [|[base k] l [Hk Hb] _ IH]; cbn [map existsb fst snd]; [by rewrite andb_false_r|].
  rewrite block_embed, IH by done. by destruct (hi =? 0xffff).
Qed.

(** The high part of an IPv6 address and the IPv4 address in its low part. *)
Definition v6_high (a : Ipv6Addr) : Z :=
  ((((s0 a * 65536 + s1 a) * 65536 + s2 a) * 65536 + s3 a) * 65536 + s4 a) * 65536 + s5 a.

Definition v6_low (a : Ipv6Addr) : Ipv4Addr :=
  mkV4 (s6 a / 256) (s6 a mod 256) (s7 a / 256) (s7 a mod 256).

Lemma v6_low_wf a : v6_wf a -> v4_wf (v6_low a).
Proof.
  unfold v6_wf, v4_wf, in_range, v6_low. cbn. intros (_ & _ & _ & _ & _ & _ & H6 & H7).
  Z.to_euclidean_division_equations. lia.
Qed.

Lemma v4_num_range a : v4_wf a -> 0 <= v4_num a < 2 ^ 32.
Proof. unfold v4_wf, in_range, v4_num. lia. Qed.

Lemma v6_num_split a : v6_num a = v6_high a * 2 ^ 32 + v4_num (v6_low a).
Proof.
  unfold v6_num, v6_high, v4_num, v6_low. cbn [o0 o1 o2 o3].
  rewrite (Z.div_mod (s6 a) 256) at 1 by lia. rewrite (Z.div_mod (s7 a) 256) at 1 by lia. lia.
Qed.

Lemma mapped_exact a : v6_wf a ->
  match to_ipv4_mapped a with Some v4 => is_forbidden_v4 v4 | None => false end
  = existsb (in_block (v6_num a)) mapped_blocks.
Proof.
  intros Hwf. rewrite v6_num_split, mapped_blocks_embed by apply v4_num_range, v6_low_wf, Hwf.
  rewrite <- forbidden_v4_blocks_exact by apply v6_low_wf, Hwf.
  unfold to_ipv4_mapped. fold (v6_low a).
  assert ((s0 a =? 0) && (s1 a =? 0) && (s2 a =? 0) && (s3 a =? 0) && (s4 a =? 0) && (s5 a =? 0xffff)
          = (v6_high a =? 0xffff)) as ->.
  { apply bool_iff. tests_to_props. unfold v6_wf, in_range, v6_high in *. lia. }
  by destruct (v6_high a =? 0xffff).
Qed.

Lemma v6_first_segment a : v6_wf a -> v6_num a / 2 ^ 112 = s0 a.
Proof.
  unfold v6_wf, in_range, v6_num. intros Hwf. symmetry. apply Z.div_unique with
    (r := (((((s1 a * 65536 + s2 a) * 65536 + s3 a) * 65536 + s4 a) * 65536 + s5 a) * 65536 + s6 a) * 65536 + s7 a);
  change (2 ^ 112) with 5192296858534827628530496329220096; lia.
Qed.

Lemma v6_prefix_block a base k : v6_wf a -> 112 <= k -> 0 <= base ->
  in_block (v6_num a) (base * 2 ^ 112, k) = (s0 a / 2 ^ (k - 112) =? base / 2 ^ (k - 112)).
Proof.
  intros Hwf Hk Hb. unfold in_block. cbn [fst snd].
  replace (2 ^ k) with (2 ^ 112 * 2 ^ (k - 112)) by (rewrite <- Z.pow_add_r by lia; f_equal; lia).
  rewrite <- !Z.div_div by lia. by rewrite v6_first_segment, Z.div_mul by done.
Qed.

(** The last digit to base 65536. *)
Lemma last_segment x d y e :
  0 <= d <= 65535 -> 0 <= e <= 65535 -> x * 65536 + d = y * 65536 + e <-> x = y /\ d = e.
Proof. lia. Qed.

Lemma v6_num_inj a b : v6_wf a -> v6_wf b -> v6_num a = v6_num b -> v6_eqb a b = true.
Proof.
  intros (? & ? & ? & ? & ? & ? & ? & ?) (? & ? & ? & ? & ? & ? & ? & ?). unfold v6_num.
  rewrite !last_segment by done. intros Heq. unfold v6_eqb. destruct_and! Heq.
  rewrite !(proj2 (Z.eqb_eq _ _)) by done. done.
Qed.

Lemma v6_host_block a b : v6_wf a -> v6_wf b -> in_block (v6_num a) (v6_num b, 0) = v6_eqb a b.
Proof.
  intros Ha Hb. apply bool_iff. rewrite in_block_true. change (2 ^ 0) with 1. rewrite !Z.div_1_r.
  split; [by apply v6_num_inj|]. unfold v6_eqb. intros Heq. bool_hyps. unfold v6_num. congruence.
Qed.

Lemma v6_wf_const x0 x1 x2 x3 x4 x5 x6 x7 :
  forallb (fun o => (0 <=? o) && (o <=? 65535)) [x0; x1; x2; x3; x4; x5; x6; x7] = true ->
  v6_wf (mkV6 x0 x1 x2 x3 x4 x5 x6 x7).
Proof. cbn. unfold v6_wf, in_range. intros Hf. bool_hyps. cbn. lia. Qed.

(** A mask test on the first segment is a prefix block. *)
Lemma v6_mask_block a base k : v6_wf a -> 0 <= k <= 16 -> 0 <= base -> base mod 2 ^ k = 0 ->
  (Z.land (s0 a) (2 ^ 16 - 2 ^ k) =? base) = in_block (v6_num a) (base * 2 ^ 112, 112 + k).
Proof.
  intros Hwf Hk Hb Hm. rewrite v6_prefix_block by (done || lia).
  replace (112 + k - 112) with k by lia. rewrite land_high_mask; [|lia|apply proj1 in Hwf; unfold in_range in Hwf; lia].
  assert (0 < 2 ^ k) by lia. apply bool_iff. rewrite !Z.eqb_eq.
  rewrite (Z.div_mod base (2 ^ k)) at 1 by lia. rewrite Hm. split; [nia|]. intros ->. lia.
Qed.

Lemma metadata_unique_local a : v6_eqb a METADATA_V6 = true -> (Z.land (s0 a) 0xfe00 =? 0xfc00) = true.
Proof. unfold v6_eqb, METADATA_V6. cbn [s0]. intros Hm. bool_hyps. by rewrite H. Qed.

Lemma forbidden_v6_blocks_exact a : v6_wf a ->
  v6_is_loopback a || v6_is_unspecified a || (Z.land (s0 a) 0xfe00 =? 0xfc00)
  || (Z.land (s0 a) 0xffc0 =? 0xfe80) || v6_eqb a METADATA_V6
  = existsb (in_block (v6_num a)) forbidden_v6_blocks.
Proof.
  intros Hwf. pose proof (metadata_unique_local a) as Hm. unfold forbidden_v6_blocks. cbn [existsb].
  change (v6_num (mkV6 0xfc00 0 0 0 0 0 0 0)) with (0xfc00 * 2 ^ 112).
  change (v6_num (mkV6 0xfe80 0 0 0 0 0 0 0)) with (0xfe80 * 2 ^ 112).
  change (Z.land (s0 a) 0xfe00) with (Z.land (s0 a) (2 ^ 16 - 2 ^ 9)) in *.
  change (Z.land (s0 a) 0xffc0) with (Z.land (s0 a) (2 ^ 16 - 2 ^ 6)).
  rewrite !v6_host_block by (done || by apply v6_wf_const).
  rewrite (v6_mask_block a 0xfc00 9), (v6_mask_block a 0xfe80 6) in * by (done || lia).
  change (112 + 9) with 121 in *. change (112 + 6) with 118.
  fold (v6_is_loopback a) (v6_is_unspecified a). rewrite orb_false_r, <- !orb_assoc.
  destruct (v6_eqb a METADATA_V6); [|by rewrite orb_false_r].
  rewrite (Hm eq_refl). by destruct (v6_is_loopback a), (v6_is_unspecified a).
Qed.

(** * Properties *)

(** the guard is exactly a CIDR filter: an address is refused if and only if its number
    lies in one of the listed blocks (loopback, RFC 1918, link-local, CGNAT, the unspecified
    and broadcast addresses; for IPv6 the loopback, unique-local and link-local blocks and
    every refused IPv4 block mapped below [::ffff:0:0/96]); the metadata endpoints are in
    them. *)
Theorem is_forbidden_ip_exact ip :
  ip_wf ip ->
  is_forbidden_ip ip = in_forbidden_block ip
  /\ is_forbidden_ip (V4 METADATA_V4) = true /\ is_forbidden_ip (V6 METADATA_V6) = true.
Proof.
  intros Hwf. split; [|by vm_compute]. destruct ip as [a|a]; cbn [ip_wf is_forbidden_ip in_forbidden_block] in *.
  - by apply forbidden_v4_blocks_exact.
  - rewrite existsb_app, <- mapped_exact, <- forbidden_v6_blocks_exact by done. done.
Qed.

Lemma is_forbidden_ip_exact_witness :
  is_forbidden_ip (V6 (mkV6 0 0 0 0 0 0xffff 0x0a00 1)) = in_forbidden_block (V6 (mkV6 0 0 0 0 0 0xffff 0x0a00 1))
  /\ is_forbidden_ip (V6 (mkV6 0 0 0 0 0 0xffff 0x0a00 1)) = true.
Proof.
  split; [|by vm_compute].
  apply (is_forbidden_ip_exact (V6 (mkV6 0 0 0 0 0 0xffff 0x0a00 1))). cbn. unfold v6_wf, in_range. cbn. lia.
Defined.
