(* ===== verification/Observation.v ===== *)
(** Observations and output distillation, [kernel/core/src/observation.rs]. *)

From S2P Require Import Prelude Json Canonical Types Effect B64 Utf8.

Open Scope Z_scope.

(** * Observations *)

Inductive Observation : Type :=
| Success (summary : string) (data : option Value) (stdout_head stdout_tail : option string)
    (exit_code : Z) (full_output : string) (truncated : bool)
| Failure (summary : string) (exit_code : Z) (first_causal_failure output_tail : option string)
    (full_output : string)
| ODenied (denial : Denial)
| EffectPending (effect contract_hash : string) (class : EffectClass)
| EffectCommitted (receipt : string).

Definition is_denial (o : Observation) : bool :=
  match o with ODenied _ => true | _ => false end.

Definition obs_exit_code (o : Observation) : option Z :=
  match o with
  | Success _ _ _ _ code _ _ | Failure _ code _ _ _ => Some code
  | _ => None
  end.

(** * Distillation *)

Record DistilledOutput := mkDistilled {
  d_head : option string;
  d_tail : option string;
  d_hash : string;
  d_truncated : bool;
}.

Section distill.
Context `{!Sha256}.

Definition distill_output (raw : string) (head_limit tail_limit : nat) : DistilledOutput :=
  let hash := hash_bytes raw in
  let len := String.length raw in
  if str_is_empty raw then mkDistilled None None hash false
  else
    let truncated := Nat.ltb head_limit len in
    let head := from_utf8_lossy (String.substring 0 (Nat.min len head_limit) raw) in
    let tail :=
      if truncated && Nat.ltb 0 tail_limit then
        let start := Nat.max (len - tail_limit) head_limit in
        if Nat.ltb start len then Some (from_utf8_lossy (str_drop start raw)) else None
      else None in
    mkDistilled (Some head) tail hash truncated.
End distill.

(** * Causal failures *)

Definition CAUSAL_MARKERS : list string :=
  [ "panicked at"; "error["; "error:"; "Error:"; "ERROR"; "fatal:"; "FAILED"; "Traceback"; "Exception";
    "assertion failed"; "Segmentation fault"; "command not found"; "No such file or directory";
    "permission denied"; "Permission denied" ].

(** [while end > 0 && !t.is_char_boundary(end) { end -= 1 }]. *)
Fixpoint boundary_before (t : string) (e : nat) : nat :=
  match e with
  | O => O
  | S e' => if is_char_boundary t e then e else boundary_before t e'
  end.

Definition cap (s : string) : string :=
  let t := trim s in
  String.substring 0 (boundary_before t (Nat.min (String.length t) 400)) t.

Fixpoint marked_line (markers text : list string) : option string :=
  match markers with
  | [] => None
  | marker :: rest =>
      match List.find (str_contains marker) text with
      | Some line => Some line
      | None => marked_line rest text
      end
  end.

Definition extract_causal_failure (stream : string) : option string :=
  let text := lines (from_utf8_lossy stream) in
  match marked_line CAUSAL_MARKERS text with
  | Some line => Some (cap line)
  | None => cap <$> List.find (fun l => negb (str_is_empty (trim l))) text
  end.

(** * Lemmas *)

(** The largest boundary at or before a position. *)
Lemma boundary_before_spec t e :
  is_char_boundary t (boundary_before t e) = true /\ (boundary_before t e <= e)%nat
  /\ forall k, (boundary_before t e < k <= e)%nat -> is_char_boundary t k = false.
Proof.
  induction e as [|e IH]; cbn [boundary_before]; [split_and!; [done|lia|lia]|].
  destruct (is_char_boundary t (S e)) eqn:E; [split_and!; [done|lia|lia]|].
  destruct IH as (Hb & Hle & Hk). split_and!; [done|lia|]. intros k Hlt.
  destruct (decide (k = S e)) as [->|Hne]; [done|]. apply Hk. lia.
Qed.

Lemma find_split {A} (f : A -> bool) (l : list A) x :
  List.find f l = Some x ->
  exists l1 l2, l = l1 ++ x :: l2 /\ f x = true /\ forall y, y ∈ l1 -> f y = false.
Proof.
  induction l as [|a l IH]; cbn; [done|]. destruct (f a) eqn:E.
  - intros [= ->]. exists [], l. split_and!; try done. by intros y []%elem_of_nil.
  - intros (l1 & l2 & -> & Hf & Hl)%IH. exists (a :: l1), l2. split_and!; try done.
    by intros y [->|Hy]%elem_of_cons; [|apply Hl].
Qed.

Lemma find_none_all {A} (f : A -> bool) (l : list A) x : List.find f l = None -> x ∈ l -> f x = false.
Proof. intros Hf Hx. apply list_elem_of_In in Hx. exact (List.find_none _ _ Hf x Hx). Qed.

Lemma marked_line_Some markers text line :
  marked_line markers text = Some line ->
  exists m before after l1 l2, markers = before ++ m :: after /\ text = l1 ++ line :: l2
    /\ str_contains m line = true /\ (forall l, l ∈ l1 -> str_contains m l = false)
    /\ forall m' l, m' ∈ before -> l ∈ text -> str_contains m' l = false.
Proof.
  induction markers as [|m markers IH]; cbn; [done|]. destruct (List.find _ text) as [l|] eqn:Ef.
  - intros [= ->]. apply find_split in Ef as (l1 & l2 & -> & Hm & Hbefore).
    exists m, [], markers, l1, l2. split_and!; try done; by intros m' l []%elem_of_nil.
  - intros (m1 & before & after & l1 & l2 & -> & -> & Hm & Hl1 & Hbefore)%IH.
    exists m1, (m :: before), after, l1, l2. split_and!; try done.
    intros m' l [->|Hin]%elem_of_cons Hl; [|by eapply Hbefore].
    by apply (find_none_all _ _ _ Ef).
Qed.

Lemma marked_line_None markers text :
  marked_line markers text = None -> forall m l, m ∈ markers -> l ∈ text -> str_contains m l = false.
Proof.
  induction markers as [|m markers IH]; cbn; [by intros _ m l []%elem_of_nil|].
  destruct (List.find _ text) as [l|] eqn:Ef; [done|].
  intros Hn m' l [->|Hin]%elem_of_cons Hl; [by apply (find_none_all _ _ _ Ef)|by eapply IH].
Qed.

(** What [cap] keeps of a line. *)
Lemma cap_spec line :
  exists e, cap line = String.substring 0 e (trim line)
    /\ (e <= Nat.min (String.length (trim line)) 400)%nat
    /\ is_char_boundary (trim line) e = true
    /\ forall k, (e < k <= Nat.min (String.length (trim line)) 400)%nat -> is_char_boundary (trim line) k = false.
Proof.
  unfold cap. eexists. split; [reflexivity|].
  destruct (boundary_before_spec (trim line) (Nat.min (String.length (trim line)) 400)) as (Hb & Hle & Hk).
  done.
Qed.

(** * Properties *)

(** The line a failure is attributed to: the first one carrying the most
    specific marker found anywhere, or else the first that is not blank. *)
Definition causal_line (text : list string) (line : string) : Prop :=
  exists l1 l2, text = l1 ++ line :: l2 /\
  ((exists m before after, CAUSAL_MARKERS = before ++ m :: after /\ str_contains m line = true
      /\ (forall l, l ∈ l1 -> str_contains m l = false)
      /\ forall m' l, m' ∈ before -> l ∈ text -> str_contains m' l = false)
   \/ ((forall m l, m ∈ CAUSAL_MARKERS -> l ∈ text -> str_contains m l = false)
       /\ trim line <> EmptyString /\ forall l, l ∈ l1 -> trim l = EmptyString)).

Section properties.
Context `{!Sha256}.

(** Output distillation keeps a bounded head and tail that never overlap: the raw bytes
    split into the head's, a middle and the tail's, within the two limits, the middle empty
    when the output fits both; each is shown as lossy text of at most three times its bytes,
    the tail only when there is one, [truncated] says whether the output exceeds the head
    limit, and the hash is that of the whole output. *)
Theorem distill_output_bounded raw head_limit tail_limit :
  exists h m t,
    raw = h +:+ m +:+ t
    /\ String.length h = Nat.min (String.length raw) head_limit /\ (String.length t <= tail_limit)%nat
    /\ ((String.length raw <= head_limit + tail_limit)%nat -> m = EmptyString)
    /\ distill_output raw head_limit tail_limit =
         {| d_head := if str_is_empty raw then None else Some (from_utf8_lossy h);
            d_tail := if str_is_empty t then None else Some (from_utf8_lossy t);
            d_hash := hash_bytes raw;
            d_truncated := Nat.ltb head_limit (String.length raw) |}
    /\ (String.length (from_utf8_lossy h) <= 3 * head_limit)%nat
    /\ (String.length (from_utf8_lossy t) <= 3 * tail_limit)%nat.
Proof.
  pose (len := String.length raw).
  pose (start := if Nat.ltb head_limit len then Nat.max (len - tail_limit) head_limit else len).
  exists (String.substring 0 (Nat.min len head_limit) raw).
  exists (String.substring 0 (start - Nat.min len head_limit) (str_drop (Nat.min len head_limit) raw)).
  exists (str_drop start raw).
  assert (Nat.min len head_limit <= start)%nat as Hstart by (unfold start; destruct (Nat.ltb_spec head_limit len); lia).
  pose proof (from_utf8_lossy_length (String.substring 0 (Nat.min len head_limit) raw)) as Hh.
  pose proof (from_utf8_lossy_length (str_drop start raw)) as Ht.
  rewrite substring_0_length in Hh. rewrite str_drop_length in Ht. fold len in Hh, Ht.
  assert (len - start <= tail_limit)%nat as Htl by (unfold start; destruct (Nat.ltb_spec head_limit len); lia).
  split_and!; [| | | | |lia|lia].
  - rewrite <- (substring_0_app (Nat.min len head_limit) raw) at 1. f_equal.
    rewrite <- (substring_0_app (start - Nat.min len head_limit) (str_drop _ raw)) at 1. f_equal.
    rewrite str_drop_drop. f_equal. lia.
  - rewrite substring_0_length. fold len. lia.
  - rewrite str_drop_length. fold len. lia.
  - intros Hfit. apply str_length_zero. rewrite substring_0_length, str_drop_length. fold len.
    unfold start. destruct (Nat.ltb_spec head_limit len); lia.
  - unfold distill_output. fold len. destruct (str_is_empty raw) eqn:Ee.
    { destruct raw; [|done]. unfold start, len. cbn. by destruct head_limit. }
    f_equal. unfold start. destruct (Nat.ltb_spec head_limit len) as [Hlt|Hge]; cbn [andb].
    + destruct (Nat.ltb_spec 0 tail_limit).
      * rewrite (proj2 (Nat.ltb_lt _ _)) by lia. pose proof (str_drop_length (Nat.max (len - tail_limit) head_limit) raw) as Hl.
        fold len in Hl. destruct (str_drop _ raw); [cbn in Hl; lia|done].
      * rewrite str_drop_all; [done|]. fold len. lia.
    + rewrite str_drop_all; [done|]. fold len. lia.
Qed.

(** The causal failure reported for a stream is the causal line of its text (the first
    line with the most specific marker present, or else the first line that is not blank),
    trimmed and cut at the last character boundary within 400 bytes; nothing is reported
    exactly when every line is blank and carries no marker. *)
Theorem extract_causal_failure_exact stream :
  match extract_causal_failure stream with
  | Some s => exists line e, causal_line (lines (from_utf8_lossy stream)) line
      /\ s = String.substring 0 e (trim line) /\ (String.length s <= 400)%nat
      /\ is_char_boundary (trim line) e = true
      /\ forall k, (e < k <= Nat.min (String.length (trim line)) 400)%nat -> is_char_boundary (trim line) k = false
  | None => forall l, l ∈ lines (from_utf8_lossy stream) ->
      trim l = EmptyString /\ forall m, m ∈ CAUSAL_MARKERS -> str_contains m l = false
  end.
Proof.
  unfold extract_causal_failure. set (text := lines _).
  assert (forall line, causal_line text line -> exists line' e, causal_line text line'
      /\ cap line = String.substring 0 e (trim line') /\ (String.length (cap line) <= 400)%nat
      /\ is_char_boundary (trim line') e = true
      /\ forall k, (e < k <= Nat.min (String.length (trim line')) 400)%nat -> is_char_boundary (trim line') k = false)
    as Hcap.
  { intros line Hline. destruct (cap_spec line) as (e & He & Hle & Hb & Hk). exists line, e.
    split_and!; try done. rewrite He, substring_0_length. lia. }
  destruct (marked_line CAUSAL_MARKERS text) as [line|] eqn:Em.
  - apply Hcap. apply marked_line_Some in Em as (m & before & after & l1 & l2 & H1 & H2 & H3 & H4 & H5).
    exists l1, l2. split; [done|]. left. by exists m, before, after.
  - pose proof (marked_line_None _ _ Em) as Hnone. destruct (List.find _ text) as [line|] eqn:Ef; cbn.
    + apply Hcap. apply find_split in Ef as (l1 & l2 & Ht & Hne & Hl1). exists l1, l2. split; [done|]. right.
      split_and!; [done|by destruct (trim line)|]. intros l Hl. apply Hl1 in Hl. by destruct (trim l).
    + intros l Hl. split; [|intros m Hm; by apply Hnone].
      pose proof (find_none_all _ _ _ Ef Hl) as Hb. cbn in Hb. by destruct (trim l).
Qed.

Example causal_mid_stream :
  extract_causal_failure
    (String.concat (String "010" EmptyString) ["Compiling foo"; "warning: unused"; " error[E0308]: mismatched"; "noise"])
  = Some "error[E0308]: mismatched".
Proof. by vm_compute. Qed.
End properties.
