(* ===== verification/Secrets.v ===== *)
(** Sealing at rest ([kernel/identity/src/sealing.rs]), the kernel's signing
    key file ([kernel/identity/src/keys.rs]) and the secret vault
    ([kernel/effect_broker/src/secrets.rs]).

    The AEAD, hex and signature crates and the [serde_json] text of the secret
    map are class operations; random bytes (nonces, keys, seeds, tokens) and
    the clock are arguments.  A file is [None] when it does not exist, and
    carries its permission bits. *)

From S2P Require Import Prelude Json Budget Capability Types Canonical IdentityDb B64 Utf8.

Open Scope Z_scope.

Abbreviation IdentityResult := (result IdentityError) (only parsing).

(** * Code outside the repository *)

Class Aead := {
  encrypt : string -> string -> string -> option string;   (* key, nonce, plaintext *)
  decrypt : string -> string -> string -> option string;   (* key, nonce, ciphertext *)
}.

(** Decryption inverts encryption, and accepts nothing else. *)
Class AeadLaws `{!Aead} : Prop := {
  decrypt_encrypt k n p c : encrypt k n p = Some c -> decrypt k n c = Some p;
  decrypt_genuine k n p c : decrypt k n c = Some p -> encrypt k n p = Some c;
}.

Class Hex := { hex_encode : string -> string; hex_decode : string -> result string string }.

(** Hex text is lower-case digits, and decodes back. *)
Class HexLaws `{!Hex} : Prop := {
  hex_decode_encode b : hex_decode (hex_encode b) = Ok b;
  hex_encode_text b : utf8_valid (hex_encode b) = true /\ trim (hex_encode b) = hex_encode b;
}.

Class SecretsSerde := {
  secrets_to_string : gmap string string -> string;
  secrets_from_slice : string -> result string (gmap string string);
}.

(** The text of the map is a JSON object, and reads back. *)
Class SecretsSerdeLaws `{!SecretsSerde} : Prop := {
  secrets_read_back m : secrets_from_slice (secrets_to_string m) = Ok m;
}.

(** * Sealing *)

Definition File : Type := option (string * Z).

Definition MAGIC : string := "AKSEAL1" +:+ String "010" EmptyString.
Definition NONCE_LEN : nat := 12.

Definition is_sealed (bytes : string) : bool := starts_with MAGIC bytes.

Section sealing.
Context `{!Aead}.

Definition seal (key nonce plaintext : string) : IdentityResult string :=
  ciphertext ← ok_or (encrypt key nonce plaintext) (IKey "sealing failed");
  Ok (MAGIC +:+ nonce +:+ ciphertext).

Definition unseal (key bytes : string) : IdentityResult string :=
  body ← ok_or (strip_prefix MAGIC bytes) (IKey "not a sealed file (missing header)");
  _ ← fail_if (Nat.ltb (String.length body) NONCE_LEN) (IKey "sealed file is truncated");
  ok_or (decrypt key (String.substring 0 NONCE_LEN body) (str_drop NONCE_LEN body))
    (IKey "unsealing failed: wrong key or corrupted file").

Definition KEY_ENV_VAR : string := "AK_VAULT_KEY".

Definition key_bytes (why bytes : string) : IdentityResult string :=
  if Nat.eqb (String.length bytes) 32 then Ok bytes else Err (IKey why).

(** The key, and the key file afterwards; [fresh] are the random bytes of a
    first run, [decode64] the base64 crate. *)
Definition resolve_with_env (decode64 : string -> result string string) (env_value : option string)
    (path : string) (key_file : File) (fresh : string) : IdentityResult (string * File) :=
  match env_value with
  | Some b64 =>
      bytes ← map_err (fun e => IKey (KEY_ENV_VAR +:+ " is not valid base64: " +:+ e)) (decode64 (trim b64));
      key ← key_bytes (KEY_ENV_VAR +:+ " must decode to exactly 32 bytes") bytes;
      Ok (key, key_file)
  | None =>
      match key_file with
      | Some (bytes, _) =>
          key ← key_bytes ("key file " +:+ path +:+ " must contain exactly 32 bytes") bytes;
          Ok (key, key_file)
      | None => Ok (fresh, Some (fresh, 384))
      end
  end.
End sealing.

(** * The signing key file *)

Section keys.
Context `{!Aead, !Hex}.

Definition keypair_save (seed key nonce : string) : IdentityResult File :=
  sealed ← seal key nonce (hex_encode seed);
  Ok (Some (sealed, 384)).

(** [String::from_utf8]. *)
Definition from_utf8 (why : string) (bytes : string) : IdentityResult string :=
  if utf8_valid bytes then Ok bytes else Err (IKey why).

Definition keypair_load (file : File) (key nonce : string) : IdentityResult (string * File) :=
  raw ← ok_or (fst <$> file) (IIo "No such file or directory");
  let was_sealed := is_sealed raw in
  hex_text ← (if was_sealed
              then text ← unseal key raw; from_utf8 "sealed key file is not valid UTF-8" text
              else from_utf8 "key file is not valid UTF-8" raw);
  bytes ← map_err (fun e => IKey ("key file is not valid hex: " +:+ e)) (hex_decode (trim hex_text));
  seed ← key_bytes "key file must contain exactly 32 bytes" bytes;
  if was_sealed then Ok (seed, file)
  else file' ← keypair_save seed key nonce; Ok (seed, file').

Definition load_or_generate (file : File) (key nonce fresh : string) : IdentityResult (string * File) :=
  match file with
  | Some _ => keypair_load file key nonce
  | None => file' ← keypair_save fresh key nonce; Ok (fresh, file')
  end.
End keys.

(** Ed25519: the public key of a seed, signing and verification. *)
Class Ed25519 := {
  ed_public : string -> string;
  ed_sign : string -> string -> string;             (* seed, message *)
  ed_verify : string -> string -> string -> bool;   (* public key, message, signature *)
}.

Class Ed25519Laws `{!Ed25519} : Prop := {
  ed_sign_length s m : String.length (ed_sign s m) = 64%nat;
  ed_sign_verifies s m : ed_verify (ed_public s) m (ed_sign s m) = true;
}.

Section signing.
Context `{!Serde, !Sha256, !Hex, !Ed25519}.

Definition key_id (seed : string) : string := "ed25519:" +:+ sha256_hex (ed_public seed).

Definition sign_canonical (seed : string) (value : Value) : string :=
  hex_encode (ed_sign seed (canonical_json value)).

Definition verify_canonical (public_key : string) (value : Value) (signature_hex : string)
    : IdentityResult bool :=
  sig_bytes ← map_err (fun e => IKey ("signature is not valid hex: " +:+ e)) (hex_decode signature_hex);
  _ ← fail_if (negb (Nat.eqb (String.length sig_bytes) 64)) (IKey "signature must be 64 bytes");
  Ok (ed_verify public_key (canonical_json value) sig_bytes).
End signing.

(** * The vault *)

Record ScopedToken := mkToken { tok_token : string; tok_expires_at : DateTime }.
Record TokenState := mkTokenState { ts_secret_name : string; ts_expires_at : DateTime }.

(** [path] and [seal_key] are set together, by [open]; the vault's file is in
    the record. *)
Record SecretVault := mkVault {
  secrets : gmap string string;
  tokens : gmap string TokenState;
  vault_file : option File;
  seal_key : option string;
}.

Section vault.
Context `{!Aead, !Hex, !SecretsSerde}.
Context (identity_display : IdentityError -> string).

Definition in_memory : SecretVault := mkVault ∅ ∅ None None.

Definition persist (v : SecretVault) (nonce : string) : KernelResult SecretVault :=
  match vault_file v, seal_key v with
  | Some _, Some key =>
      sealed ← map_err (kernel_error_of_identity identity_display)
                 (seal key nonce (secrets_to_string (secrets v)));
      Ok (mkVault (secrets v) (tokens v) (Some (Some (sealed, 384))) (seal_key v))
  | _, _ => Ok v
  end.

Definition vault_open (file : File) (key nonce : string) : KernelResult SecretVault :=
  m ← (match file with
       | Some (raw, _) =>
           if is_sealed raw then
             plain ← map_err (kernel_error_of_identity identity_display) (unseal key raw);
             map_err ESerde (secrets_from_slice plain)
           else map_err ESerde (secrets_from_slice raw)
       | None => Ok ∅
       end);
  persist (mkVault m ∅ (Some file) (Some key)) nonce.

(** The memory is changed also when writing the file fails. *)
Definition after_persist (v : SecretVault) (nonce : string) : KernelResult () * SecretVault :=
  match persist v nonce with Ok v' => (Ok tt, v') | Err e => (Err e, v) end.

Definition vault_insert (v : SecretVault) (name value nonce : string) : KernelResult () * SecretVault :=
  after_persist (mkVault (<[name := value]> (secrets v)) (tokens v) (vault_file v) (seal_key v)) nonce.

Definition vault_remove (v : SecretVault) (name nonce : string) : KernelResult () * SecretVault :=
  after_persist (mkVault (delete name (secrets v)) (tokens v) (vault_file v) (seal_key v)) nonce.

Definition with_secret {R} (v : SecretVault) (name : string) (f : string -> R) : KernelResult R :=
  value ← ok_or (secrets v !! name) (NotFound "secret" name);
  Ok (f value).

Definition with_tokens (v : SecretVault) (t : gmap string TokenState) : SecretVault :=
  mkVault (secrets v) t (vault_file v) (seal_key v).

Definition mint_scoped_token (v : SecretVault) (secret_name : string) (ttl : Z) (bytes : string)
    (now : DateTime) : KernelResult ScopedToken * SecretVault :=
  match with_secret v secret_name (fun _ => tt) with
  | Err e => (Err e, v)
  | Ok _ =>
      let token := "akst-" +:+ hex_encode bytes in
      let expires_at := now + ttl in
      (Ok (mkToken token expires_at),
       with_tokens v (<[token := mkTokenState secret_name expires_at]> (tokens v)))
  end.

Definition redeem_scoped_token {R} (v : SecretVault) (token : string) (f : string -> R) (now : DateTime)
    : KernelResult R * SecretVault :=
  match tokens v !! token with
  | None => (Err (NotFound "scoped_token" "<redacted>"), v)
  | Some state =>
      let v' := with_tokens v (delete token (tokens v)) in
      if ts_expires_at state <? now
      then (Err (StaleAuthorization "scoped token expired before redemption"), v')
      else (with_secret v' (ts_secret_name state) f, v')
  end.
End vault.

(** * Lemmas on sealing *)

Section sealing_lemmas.
Context `{!Aead, !AeadLaws}.

Lemma seal_is_sealed key nonce p b : seal key nonce p = Ok b -> is_sealed b = true.
Proof.
  unfold seal. intros (c & _ & [= <-])%bind_Ok. apply starts_with_true. by eexists.
Qed.

Lemma unseal_seal key nonce p b :
  String.length nonce = NONCE_LEN -> seal key nonce p = Ok b -> unseal key b = Ok p.
Proof.
  unfold seal, unseal. intros Hn (c & Hc%ok_or_Ok & [= <-])%bind_Ok.
  change (strip_prefix MAGIC _) with (Some (nonce +:+ c)). cbn [ok_or mbind result_bind].
  rewrite str_length_app. rewrite (proj2 (Nat.ltb_ge _ _)) by lia. cbn [fail_if mbind result_bind].
  rewrite <- Hn, substring_app, str_drop_app. by rewrite (decrypt_encrypt _ _ _ _ Hc).
Qed.

Lemma unseal_genuine key b p :
  unseal key b = Ok p -> exists nonce, String.length nonce = NONCE_LEN /\ seal key nonce p = Ok b.
Proof.
  unfold unseal. intros (body & Hb%ok_or_Ok & Hu)%bind_Ok. apply strip_prefix_Some in Hb as ->.
  apply bind_Ok in Hu as ([] & Hlen%fail_if_Ok & Hd%ok_or_Ok). apply Nat.ltb_ge in Hlen.
  exists (String.substring 0 NONCE_LEN body). split; [rewrite substring_0_length; lia|].
  unfold seal. rewrite (decrypt_genuine _ _ _ _ Hd). cbn [ok_or mbind result_bind].
  by rewrite substring_0_app.
Qed.
End sealing_lemmas.

(** * The vault as a transition system *)

Inductive VaultOp : Type :=
| OpInsert (name value nonce : string)
| OpRemove (name nonce : string)
| OpMint (name : string) (ttl : Z) (bytes : string) (now : DateTime)
| OpRedeem (token : string) (now : DateTime).

Section transitions.
Context `{!Aead, !Hex, !SecretsSerde}.
Context (identity_display : IdentityError -> string).

Definition vault_step (v : SecretVault) (op : VaultOp) : SecretVault :=
  match op with
  | OpInsert name value nonce => (vault_insert identity_display v name value nonce).2
  | OpRemove name nonce => (vault_remove identity_display v name nonce).2
  | OpMint name ttl bytes now => (mint_scoped_token v name ttl bytes now).2
  | OpRedeem token now => (redeem_scoped_token v token id now).2
  end.

(** Did the operation succeed? *)
Definition vault_ok (v : SecretVault) (op : VaultOp) : bool :=
  match op with
  | OpInsert name value nonce => is_ok (vault_insert identity_display v name value nonce).1
  | OpRemove name nonce => is_ok (vault_remove identity_display v name nonce).1
  | OpMint name ttl bytes now => is_ok (mint_scoped_token v name ttl bytes now).1
  | OpRedeem token now => is_ok (redeem_scoped_token v token id now).1
  end.

Definition vault_run (v : SecretVault) (ops : list VaultOp) : SecretVault := foldl vault_step v ops.

(** The successful redemptions of a token in a run: when, from which vault,
    and the credential lent. *)
Fixpoint redemptions (tok : string) (v : SecretVault) (ops : list VaultOp)
    : list (DateTime * SecretVault * string) :=
  match ops with
  | [] => []
  | op :: rest =>
      match op with
      | OpRedeem t now =>
          if String.eqb t tok then
            match (redeem_scoped_token v t id now).1 with
            | Ok s => [(now, v, s)]
            | Err _ => []
            end
          else []
      | _ => []
      end ++ redemptions tok (vault_step v op) rest
  end.

Definition mints (tok : string) (op : VaultOp) : bool :=
  match op with OpMint _ _ bytes _ => String.eqb ("akst-" +:+ hex_encode bytes) tok | _ => false end.

(** ** Lemmas *)

Lemma after_persist_tokens v nonce : tokens (after_persist identity_display v nonce).2 = tokens v.
Proof.
  unfold after_persist, persist. destruct (vault_file v), (seal_key v); try done.
  by destruct (map_err _ _).
Qed.

Lemma after_persist_secrets v nonce : secrets (after_persist identity_display v nonce).2 = secrets v.
Proof.
  unfold after_persist, persist. destruct (vault_file v), (seal_key v); try done.
  by destruct (map_err _ _).
Qed.

(** An operation that does not mint a token leaves it or removes it. *)
Lemma vault_step_token v op tok st :
  mints tok op = false -> tokens (vault_step v op) !! tok = Some st -> tokens v !! tok = Some st.
Proof.
  destruct op as [name value nonce|name nonce|name ttl bytes now|t now]; cbn [vault_step mints].
  - intros _. unfold vault_insert. by rewrite after_persist_tokens.
  - intros _. unfold vault_remove. by rewrite after_persist_tokens.
  - intros Hm. apply String.eqb_neq in Hm. unfold mint_scoped_token.
    destruct (with_secret v name _); [|done]. cbn. by rewrite lookup_insert_ne.
  - intros _. unfold redeem_scoped_token. destruct (tokens v !! t) eqn:Et; [|done].
    destruct (_ <? _); cbn; by intros [_ Hl]%lookup_delete_Some.
Qed.

Lemma mint_Ok v name ttl bytes now t v' :
  mint_scoped_token v name ttl bytes now = (Ok t, v') ->
  tokens v' !! tok_token t = Some (mkTokenState name (now + ttl)).
Proof.
  unfold mint_scoped_token. destruct (with_secret v name _); [|done]. intros [= <- <-]. apply lookup_insert_eq.
Qed.

Lemma redeem_removes v tok now : tokens (redeem_scoped_token v tok id now).2 !! tok = None.
Proof.
  unfold redeem_scoped_token. destruct (tokens v !! tok) eqn:Et; [|done].
  destruct (_ <? _); cbn; apply lookup_delete_eq.
Qed.

Lemma redeem_Ok v tok now s :
  (redeem_scoped_token v tok id now).1 = Ok s ->
  exists st, tokens v !! tok = Some st /\ now <= ts_expires_at st /\ secrets v !! ts_secret_name st = Some s.
Proof.
  unfold redeem_scoped_token. destruct (tokens v !! tok) as [st|]; [|done].
  destruct (Z.ltb_spec (ts_expires_at st) now) as [Hlt|Hge]; [done|]. cbn.
  unfold with_secret. intros (value & Hv%ok_or_Ok & [= <-])%bind_Ok. by exists st.
Qed.

Lemma redemptions_absent tok v ops :
  tokens v !! tok = None -> forallb (fun op => negb (mints tok op)) ops = true -> redemptions tok v ops = [].
Proof.
  revert v. induction ops as [|op ops IH]; intros v Hn Hm; [done|]. cbn [redemptions forallb] in *.
  apply andb_true_iff in Hm as [Hop Hm]. apply negb_true_iff in Hop.
  assert (tokens (vault_step v op) !! tok = None) as Hn'.
  { destruct (tokens (vault_step v op) !! tok) eqn:E; [|done].
    apply vault_step_token in E; [congruence|done]. }
  rewrite IH by done. rewrite app_nil_r. destruct op as [| | |t now]; try done.
  destruct (String.eqb_spec t tok) as [->|Hne]; [|done].
  unfold redeem_scoped_token. by rewrite Hn.
Qed.

Lemma redemptions_once tok v ops :
  forallb (fun op => negb (mints tok op)) ops = true ->
  redemptions tok v ops = []
  \/ exists st now v' s, tokens v !! tok = Some st /\ redemptions tok v ops = [(now, v', s)]
       /\ now <= ts_expires_at st /\ secrets v' !! ts_secret_name st = Some s.
Proof.
  revert v. induction ops as [|op ops IH]; intros v Hm; [by left|]. cbn [redemptions forallb] in *.
  apply andb_true_iff in Hm as [Hop Hm]. apply negb_true_iff in Hop.
  assert ((exists now, op = OpRedeem tok now) \/
          (match op with OpRedeem t now => if String.eqb t tok then
             match (redeem_scoped_token v t id now).1 with Ok s => [(now, v, s)] | Err _ => [] end else []
           | _ => [] end) = []) as [[now ->]| -> ].
  { destruct op as [| | |t now]; try by right. destruct (String.eqb_spec t tok) as [->|Hne]; eauto. }
  - rewrite String.eqb_refl. rewrite redemptions_absent; [|apply redeem_removes|done].
    destruct (redeem_scoped_token v tok id now).1 as [s|] eqn:Er; [|by left].
    apply redeem_Ok in Er as (st & Hst & Hnow & Hs). right. by exists st, now, v, s.
  - destruct (IH (vault_step v op) Hm) as [->|(st & now & v' & s & Hst & -> & Hnow & Hs)]; [by left|].
    right. exists st, now, v', s. split_and!; try done. by eapply vault_step_token.
Qed.
End transitions.

(** * The file of a vault *)

Section backed.
Context `{!Aead, !AeadLaws, !Hex, !SecretsSerde, !SecretsSerdeLaws}.
Context (identity_display : IdentityError -> string).

(** The file holds the secrets in memory, sealed, readable by its owner only. *)
Definition backed (key : string) (v : SecretVault) : Prop :=
  seal_key v = Some key
  /\ exists bytes nonce, vault_file v = Some (Some (bytes, 384)) /\ String.length nonce = NONCE_LEN
       /\ seal key nonce (secrets_to_string (secrets v)) = Ok bytes.

(** Every write of the run used a proper nonce and reached the file. *)
Fixpoint writes_ok (v : SecretVault) (ops : list VaultOp) : bool :=
  match ops with
  | [] => true
  | op :: rest =>
      match op with
      | OpInsert _ _ nonce | OpRemove _ nonce =>
          Nat.eqb (String.length nonce) NONCE_LEN && vault_ok identity_display v op
      | _ => true
      end && writes_ok (vault_step identity_display v op) rest
  end.

Lemma persist_backed v key nonce v' :
  seal_key v = Some key -> is_Some (vault_file v) -> String.length nonce = NONCE_LEN ->
  persist identity_display v nonce = Ok v' ->
  backed key v' /\ secrets v' = secrets v /\ tokens v' = tokens v.
Proof.
  unfold persist. intros Hk [f Hf] Hn. rewrite Hk, Hf. intros (sealed & Hs%map_err_Ok & [= <-])%bind_Ok.
  split_and!; try done. split; [done|]. by exists sealed, nonce.
Qed.

Lemma after_persist_backed v key nonce :
  seal_key v = Some key -> is_Some (vault_file v) -> Nat.eqb (String.length nonce) NONCE_LEN = true ->
  is_ok (after_persist identity_display v nonce).1 = true ->
  backed key (after_persist identity_display v nonce).2.
Proof.
  intros Hk Hf Hn%Nat.eqb_eq. unfold after_persist.
  destruct (persist identity_display v nonce) as [v'|] eqn:Ep; [|done]. intros _. cbn.
  by eapply persist_backed.
Qed.

Lemma vault_run_backed key v ops :
  backed key v -> writes_ok v ops = true -> backed key (vault_run identity_display v ops).
Proof.
  revert v. induction ops as [|op ops IH]; intros v Hb Hw; [done|]. cbn [writes_ok] in Hw.
  apply andb_true_iff in Hw as [Hop Hw]. cbn. apply IH; [|done]. clear IH Hw.
  pose proof Hb as (Hk & bytes & n0 & Hf & _ & _).
  destruct op as [name value nonce|name nonce|name ttl bs now|t now]; cbn [vault_step].
  - apply andb_true_iff in Hop as [Hn Hok]. by apply after_persist_backed; [| rewrite Hf | |].
  - apply andb_true_iff in Hop as [Hn Hok]. by apply after_persist_backed; [| rewrite Hf | |].
  - unfold mint_scoped_token. by destruct (with_secret v name _).
  - unfold redeem_scoped_token. destruct (tokens v !! t); [|done]. by destruct (_ <? _).
Qed.

Lemma vault_open_backed file key nonce v :
  String.length nonce = NONCE_LEN -> vault_open identity_display file key nonce = Ok v -> backed key v.
Proof.
  unfold vault_open. intros Hn (m & _ & Hp)%bind_Ok. by eapply persist_backed in Hp as [Hb _].
Qed.

(** Reading the file of a backed vault gives its secrets. *)
Lemma backed_reopens key v nonce v' f :
  backed key v -> vault_file v = Some f -> String.length nonce = NONCE_LEN ->
  vault_open identity_display f key nonce = Ok v' -> secrets v' = secrets v /\ tokens v' = ∅.
Proof.
  intros (Hk & bytes & n0 & Hf & Hn0 & Hs) Hvf Hn. rewrite Hf in Hvf. injection Hvf as <-.
  unfold vault_open. rewrite (seal_is_sealed _ _ _ _ Hs), (unseal_seal _ _ _ _ Hn0 Hs).
  cbn [map_err mbind result_bind]. rewrite secrets_read_back. cbn [map_err mbind result_bind].
  intros Hp. by eapply persist_backed in Hp as (_ & -> & ->).
Qed.

(** * Properties *)

(** A scoped token is redeemed at most once: in any run after the mint in which the random
    bytes do not repeat, whatever is inserted, removed, minted or redeemed in between, at most
    one redemption of the token succeeds, it happens no later than its expiry, and it lends
    the credential the named secret has at that moment. *)
Theorem scoped_token_single_use v name ttl bytes now t v' ops :
  mint_scoped_token v name ttl bytes now = (Ok t, v') ->
  forallb (fun op => negb (mints (tok_token t) op)) ops = true ->
  redemptions identity_display (tok_token t) v' ops = []
  \/ exists later v1 s, redemptions identity_display (tok_token t) v' ops = [(later, v1, s)]
       /\ later <= now + ttl /\ secrets v1 !! name = Some s.
Proof.
  intros Hmint Hm. apply mint_Ok in Hmint.
  destruct (redemptions_once identity_display _ v' _ Hm) as [->|(st & later & v1 & s & Hst & -> & Hl & Hs)]; [by left|].
  rewrite Hmint in Hst. injection Hst as <-. right. by exists later, v1, s.
Qed.

(** A file-backed vault survives a restart: after any run whose writes reached the file,
    the file holds the sealed secrets with owner-only permissions, and opening it again with
    the same key gives exactly the secrets in memory and no live tokens. *)
Theorem vault_reopens file key nonce v ops nonce' f v' :
  String.length nonce = NONCE_LEN -> String.length nonce' = NONCE_LEN ->
  vault_open identity_display file key nonce = Ok v ->
  writes_ok v ops = true ->
  vault_file (vault_run identity_display v ops) = Some f ->
  vault_open identity_display f key nonce' = Ok v' ->
  (exists bytes, f = Some (bytes, 384) /\ is_sealed bytes = true)
  /\ secrets v' = secrets (vault_run identity_display v ops) /\ tokens v' = ∅.
Proof.
  intros Hn Hn' Ho Hw Hf Hr. apply vault_open_backed in Ho; [|done].
  pose proof (vault_run_backed _ _ _ Ho Hw) as Hb. split; [|by eapply backed_reopens].
  destruct Hb as (_ & bytes & n0 & Hf' & _ & Hs). rewrite Hf' in Hf. injection Hf as <-.
  exists bytes. split; [done|]. by eapply seal_is_sealed.
Qed.

(** Sealing is authenticated: exactly the files sealed under the key unseal. *)
Theorem sealing_exact key bytes p :
  unseal key bytes = Ok p <->
  exists nonce, String.length nonce = NONCE_LEN /\ seal key nonce p = Ok bytes.
Proof.
  split; [apply unseal_genuine|]. intros (nonce & Hn & Hs). by eapply unseal_seal.
Qed.
End backed.

(** The signing seed survives its key file. *)
Theorem keypair_roundtrip `{!Aead, !AeadLaws, !Hex, !HexLaws} seed key nonce nonce' file :
  String.length seed = 32%nat -> String.length nonce = NONCE_LEN ->
  keypair_save seed key nonce = Ok file -> keypair_load file key nonce' = Ok (seed, file).
Proof.
  intros Hlen Hn. unfold keypair_save. intros (sealed & Hs & [= <-])%bind_Ok.
  unfold keypair_load. cbn [fmap option_fmap option_map fst ok_or mbind result_bind].
  rewrite (seal_is_sealed _ _ _ _ Hs), (unseal_seal _ _ _ _ Hn Hs). cbn [mbind result_bind].
  destruct (hex_encode_text seed) as [Hv Ht]. unfold from_utf8. rewrite Hv. cbn [mbind result_bind].
  rewrite Ht, hex_decode_encode. cbn [map_err mbind result_bind]. unfold key_bytes. by rewrite Hlen.
Qed.

(** A signature verifies under its public key, on any value with the same
    canonical text. *)
Theorem signature_verifies `{!Serde, !Sha256, !Hex, !HexLaws, !Ed25519, !Ed25519Laws} seed v w :
  canonical_json v = canonical_json w ->
  verify_canonical (ed_public seed) w (sign_canonical seed v) = Ok true.
Proof.
  intros Heq. unfold verify_canonical, sign_canonical. rewrite hex_decode_encode. cbn [map_err mbind result_bind].
  rewrite ed_sign_length. cbn [Nat.eqb negb fail_if mbind result_bind]. by rewrite <- Heq, ed_sign_verifies.
Qed.

Module SecretsDemo.

(** A keyed prefix in place of the cipher. *)
#[export] Instance aead : Aead :=
  {| encrypt := fun k n p => Some (k +:+ p); decrypt := fun k n c => strip_prefix k c |}.

#[export] Instance aead_laws : AeadLaws.
Proof.
  split; cbn.
  - intros k n p c [= <-]. by apply strip_prefix_Some.
  - intros k n p c ->%strip_prefix_Some. done.
Qed.

#[export] Instance hex : Hex := {| hex_encode := fun b => b; hex_decode := fun s => Ok s |}.

(** The binary digits of the map's number stand in for the JSON object. *)
Fixpoint bits (p : positive) : string :=
  match p with
  | xH => EmptyString
  | xO p => String "0" (bits p)
  | xI p => String "1" (bits p)
  end.

Fixpoint unbits (s : string) : positive :=
  match s with
  | EmptyString => xH
  | String c r => if Ascii.eqb c "1" then xI (unbits r) else xO (unbits r)
  end.

Lemma unbits_bits p : unbits (bits p) = p.
Proof. induction p as [p IH|p IH|]; cbn; by rewrite ?IH. Qed.

#[export] Instance serde : SecretsSerde :=
  {| secrets_to_string := fun m => bits (countable.encode m);
     secrets_from_slice := fun s => ok_or (countable.decode (unbits s)) "not a map" |}.

#[export] Instance serde_laws : SecretsSerdeLaws.
Proof. split. intros m. cbn. by rewrite unbits_bits, countable.decode_encode. Qed.

Definition display (e : IdentityError) : string := "identity".
Definition nonce : string := "0123456789ab".
Definition gh : SecretVault := mkVault {[ "gh" := "tok-123" ]} ∅ None None.

Definition minted := mint_scoped_token gh "gh" 60 "r" 100.

Definition token : ScopedToken := mkToken "akst-r" 160.

Lemma minted_ok : minted = (Ok token, minted.2).
Proof. reflexivity. Qed.

Definition tries : list VaultOp := [OpInsert "gh" "tok-456" nonce; OpRedeem "akst-r" 150; OpRedeem "akst-r" 151].

Lemma scoped_token_single_use_witness :
  (exists v, redemptions display "akst-r" minted.2 tries = [(150, v, "tok-456")])
  /\ (redemptions display "akst-r" minted.2 tries = []
      \/ exists later v1 s, redemptions display "akst-r" minted.2 tries = [(later, v1, s)]
           /\ later <= 100 + 60 /\ secrets v1 !! "gh" = Some s).
Proof.
  split; [by eexists|].
  apply (scoped_token_single_use display gh "gh" 60 "r" 100 token minted.2 tries minted_ok eq_refl).
Defined.

Definition opened : KernelResult SecretVault := vault_open display None "k" nonce.
Definition vault0 : SecretVault := value_of gh opened.

Lemma opened_ok : opened = Ok vault0.
Proof. apply value_of_ok. reflexivity. Qed.

Definition edits : list VaultOp := [OpInsert "gh" "s1" nonce; OpInsert "np" "s2" nonce; OpRemove "gh" nonce].
Definition edited : SecretVault := vault_run display vault0 edits.
Definition edited_file : File := match vault_file edited with Some f => f | None => None end.
Definition reopened : KernelResult SecretVault := vault_open display edited_file "k" nonce.

Lemma reopened_ok : reopened = Ok (value_of gh reopened).
Proof. apply value_of_ok. by vm_compute. Qed.

Lemma vault_reopens_witness :
  secrets edited = {[ "np" := "s2" ]} /\ secrets (value_of gh reopened) = secrets edited.
Proof.
  split; [by vm_compute|].
  apply (vault_reopens display None "k" nonce vault0 edits nonce edited_file (value_of gh reopened)
           eq_refl eq_refl opened_ok).
  - by vm_compute.
  - by vm_compute.
  - exact reopened_ok.
Defined.

End SecretsDemo.
