(* ===== verification/Auth.v ===== *)
(** Bearer authentication and per-resource authorization,
    [kernel/api/src/auth.rs].

    A request is its path and its [Authorization] header.  The digest map is a
    [HashMap]: the loop over it runs in an order the standard library does not
    fix, so [scan_tokens] takes the entries in any order.  Reading the
    configuration file is not modelled. *)

From S2P Require Import Prelude Json Types Canonical B64 Utf8.

Open Scope Z_scope.

(** * Data *)

Inductive Role := Admin | Approver | Agent.

#[export] Instance Role_eq_dec : EqDecision Role.
Proof. solve_decision. Defined.

Record TokenEntry := mkEntry {
  token_sha256 : string;
  entry_principal : string;
  entry_roles : list Role;
}.

Record AuthConfig := mkAuth { auth_enabled : bool; auth_tokens : list TokenEntry }.

Definition auth_disabled : AuthConfig := mkAuth false [].
Definition with_tokens (tokens : list TokenEntry) : AuthConfig := mkAuth true tokens.

Record AuthContext := mkContext {
  ctx_principal : option string;
  ctx_roles : list Role;
  ctx_disabled : bool;
}.

Inductive AuthError := Unauthenticated | PrincipalMismatch | NotOwner | MissingRole (role : Role).

#[export] Instance AuthError_eq_dec : EqDecision AuthError.
Proof. solve_decision. Defined.

(** Status, code and message of the response an [AuthError] becomes. *)
Definition auth_error_response (role_debug : Role -> string) (e : AuthError) : Z * string * string :=
  match e with
  | Unauthenticated => (401, "UNAUTHENTICATED", "missing or invalid bearer token")
  | PrincipalMismatch =>
      (403, "PRINCIPAL_MISMATCH", "request principal does not match the authenticated principal")
  | NotOwner => (403, "NOT_OWNER", "caller does not own the target resource")
  | MissingRole role => (403, "MISSING_ROLE", "caller lacks required role " +:+ role_debug role)
  end.

(** * Authorization *)

Definition anonymous : AuthContext := mkContext None [] true.

Definition has_role (c : AuthContext) (role : Role) : bool :=
  ctx_disabled c || bool_decide (role ∈ ctx_roles c) || bool_decide (Admin ∈ ctx_roles c).

Definition act_as (c : AuthContext) (body_principal : string) : result AuthError string :=
  match ctx_principal c with
  | None => Ok body_principal
  | Some p =>
      if String.eqb p body_principal || has_role c Admin then Ok body_principal else Err PrincipalMismatch
  end.

Definition require_owner (c : AuthContext) (owner : string) : result AuthError () :=
  match ctx_principal c with
  | None => Ok tt
  | Some p => if String.eqb p owner || has_role c Admin then Ok tt else Err NotOwner
  end.

Definition require_role (c : AuthContext) (role : Role) : result AuthError () :=
  if has_role c role then Ok tt else Err (MissingRole role).

(** * Authentication *)

Definition to_ascii_lower (c : ascii) : ascii :=
  if (65 <=? byte_val c) && (byte_val c <=? 90) then as_u8 (byte_val c + 32) else c.

Fixpoint to_ascii_lowercase (s : string) : string :=
  match s with EmptyString => EmptyString | String c r => String (to_ascii_lower c) (to_ascii_lowercase r) end.

(** [collect] into a map: a later entry with the same digest wins. *)
Definition digest_map (cfg : AuthConfig) : gmap string (string * list Role) :=
  foldl (fun m t => <[to_ascii_lowercase (token_sha256 t) := (entry_principal t, entry_roles t)]> m)
    ∅ (auth_tokens cfg).

(** The fold over the zipped bytes: [acc | (x ^ y)]. *)
Fixpoint diff_bits (a b : string) (acc : Z) : Z :=
  match a, b with
  | String x a', String y b' => diff_bits a' b' (Z.lor acc (Z.lxor (byte_val x) (byte_val y)))
  | _, _ => acc
  end.

Definition digest_eq (a b : string) : bool :=
  if negb (Nat.eqb (String.length a) (String.length b)) then false else diff_bits a b 0 =? 0.

Definition scan_tokens (digest : string) (entries : list (string * (string * list Role)))
    : option (string * list Role) :=
  foldl (fun matched e => if digest_eq digest e.1 then Some e.2 else matched) None entries.

(** [HeaderValue::to_str]: visible ASCII and tabs. *)
Definition header_to_str (v : string) : option string :=
  if forallb (fun c => ((32 <=? byte_val c) && (byte_val c <=? 126)) || (byte_val c =? 9))
       (String.list_ascii_of_string v)
  then Some v else None.

Definition bearer_token (authorization : option string) : option string :=
  v ← authorization; v ← header_to_str v; trim <$> strip_prefix "Bearer " v.

Section authenticate.
Context `{!Sha256}.

Definition token_digest (token : string) : string := sha256_hex token.

Definition require_auth (cfg : AuthConfig) (entries : list (string * (string * list Role)))
    (path : string) (authorization : option string) : result AuthError AuthContext :=
  if negb (auth_enabled cfg) then Ok anonymous
  else if String.eqb path "/healthz" then Ok anonymous
  else
    token ← ok_or (bearer_token authorization) Unauthenticated;
    identity ← ok_or (scan_tokens (token_digest token) entries) Unauthenticated;
    Ok (mkContext (Some identity.1) identity.2 false).
End authenticate.

(** * Lemmas *)

Lemma byte_val_inj c d : byte_val c = byte_val d -> c = d.
Proof.
  unfold byte_val. intros Heq%N2Z.inj. rewrite <- (ascii_N_embedding c), <- (ascii_N_embedding d). congruence.
Qed.

Lemma diff_bits_zero a b acc :
  String.length a = String.length b -> diff_bits a b acc = 0 <-> acc = 0 /\ a = b.
Proof.
  revert b acc. induction a as [|x a IH]; intros [|y b] acc Hlen; cbn in *; try done; [naive_solver|].
  injection Hlen as Hlen. rewrite IH by done. rewrite Z.lor_eq_0_iff, Z.lxor_eq_0_iff.
  split.
  - intros [[-> Hx%byte_val_inj] ->]. by subst.
  - intros [-> [= -> ->]]. done.
Qed.

(** The constant-time comparison is equality. *)
Lemma digest_eq_true a b : digest_eq a b = true <-> a = b.
Proof.
  unfold digest_eq. destruct (Nat.eqb_spec (String.length a) (String.length b)) as [Hl|Hl]; cbn [negb].
  - rewrite Z.eqb_eq, diff_bits_zero by done. naive_solver.
  - split; [done|]. by intros ->.
Qed.

Lemma scan_tokens_from digest (entries : list (string * (string * list Role))) init :
  NoDup entries.*1 ->
  foldl (fun matched e => if digest_eq digest e.1 then Some e.2 else matched) init entries
  = match im_get digest entries with Some v => Some v | None => init end.
Proof.
  revert init. induction entries as [|[k v] entries IH]; intros init Hnd; cbn; [done|].
  apply NoDup_cons in Hnd as [Hk Hnd]. rewrite IH by done.
  destruct (decide (digest = k)) as [->|Hne].
  - rewrite (proj2 (digest_eq_true k k)) by done.
    destruct (im_get k entries) as [w|] eqn:E; [|done].
    apply im_get_elem in E. destruct Hk. apply list_elem_of_fmap. by exists (k, w).
  - destruct (digest_eq digest k) eqn:E; [by apply digest_eq_true in E|done].
Qed.

(** Whatever order the map is visited in, the scan is a lookup. *)
Lemma scan_tokens_lookup digest entries (m : gmap string (string * list Role)) :
  entries ≡ₚ map_to_list m -> scan_tokens digest entries = m !! digest.
Proof.
  intros Hp. unfold scan_tokens.
  assert (NoDup entries.*1) as Hnd by (rewrite Hp; apply NoDup_fst_map_to_list).
  rewrite scan_tokens_from by done. destruct (im_get digest entries) as [v|] eqn:E.
  - apply im_get_elem in E. rewrite Hp in E. by apply elem_of_map_to_list in E.
  - destruct (m !! digest) as [v|] eqn:Em; [|done].
    apply elem_of_map_to_list in Em. rewrite <- Hp in Em. apply im_elem_get in Em; [congruence|done].
Qed.

(** The entry a digest is resolved to: the last one registered for it. *)
Fixpoint last_entry (digest : string) (l : list TokenEntry) : option TokenEntry :=
  match l with
  | [] => None
  | t :: rest =>
      match last_entry digest rest with
      | Some t' => Some t'
      | None => if String.eqb (to_ascii_lowercase (token_sha256 t)) digest then Some t else None
      end
  end.

Lemma digest_map_lookup cfg digest :
  digest_map cfg !! digest
  = (fun t => (entry_principal t, entry_roles t)) <$> last_entry digest (auth_tokens cfg).
Proof.
  unfold digest_map. set (f := fun m t => <[to_ascii_lowercase (token_sha256 t) := _]> m).
  assert (forall l m, foldl f m l !! digest =
    match last_entry digest l with Some t => Some (entry_principal t, entry_roles t) | None => m !! digest end) as Hl.
  { induction l as [|t l IH]; intros m; cbn [foldl last_entry]; [done|]. rewrite IH.
    destruct (last_entry digest l); [done|]. unfold f. destruct (String.eqb_spec (to_ascii_lowercase (token_sha256 t)) digest) as [->|Hne].
    - apply lookup_insert_eq.
    - by apply lookup_insert_ne. }
  rewrite Hl. by destruct (last_entry digest (auth_tokens cfg)).
Qed.

(** * Properties *)

Section properties.
Context `{!Sha256}.

(** With authentication enabled, a request other than the liveness probe is let through
    exactly when its header is a readable [Bearer] value whose trimmed token hashes to a
    configured digest, in whatever order the token table is visited and with the byte-wise
    constant-time comparison; the caller is then the principal, with the roles, of the last
    entry configured for that digest, and never the anonymous all-powerful context. *)
Theorem require_auth_exact cfg entries path authorization ctx :
  auth_enabled cfg = true -> path <> "/healthz" -> entries ≡ₚ map_to_list (digest_map cfg) ->
  require_auth cfg entries path authorization = Ok ctx <->
  exists token t, bearer_token authorization = Some token
    /\ last_entry (sha256_hex token) (auth_tokens cfg) = Some t
    /\ ctx = mkContext (Some (entry_principal t)) (entry_roles t) false.
Proof.
  intros He Hp Hperm. unfold require_auth. rewrite He. cbn [negb].
  destruct (String.eqb_spec path "/healthz") as [->|_]; [done|].
  split.
  - intros (token & Ht%ok_or_Ok & Hi)%bind_Ok. apply bind_Ok in Hi as (i & Hi%ok_or_Ok & [= <-]).
    rewrite (scan_tokens_lookup _ _ _ Hperm), digest_map_lookup in Hi.
    apply fmap_Some in Hi as (t & Ht' & ->). by exists token, t.
  - intros (token & t & -> & Ht & ->). cbn [ok_or mbind result_bind].
    rewrite (scan_tokens_lookup _ _ _ Hperm), digest_map_lookup. unfold token_digest. by rewrite Ht.
Qed.

(** An authenticated caller without the admin role can only act as itself, only touch
    resources it owns and only use roles its token carries; an admin may do all of it. *)
Theorem authorization_confined p roles body owner role :
  let c := mkContext (Some p) roles false in
  (act_as c body = if decide (body = p \/ Admin ∈ roles) then Ok body else Err PrincipalMismatch)
  /\ (require_owner c owner = if decide (owner = p \/ Admin ∈ roles) then Ok tt else Err NotOwner)
  /\ (require_role c role = if decide (role ∈ roles \/ Admin ∈ roles) then Ok tt else Err (MissingRole role)).
Proof.
  intros c. unfold act_as, require_owner, require_role, has_role. cbn [c ctx_principal ctx_roles ctx_disabled].
  split_and!.
  - destruct (String.eqb_spec p body) as [->|Hne]; repeat case_bool_decide; repeat case_decide; cbn; naive_solver.
  - destruct (String.eqb_spec p owner) as [->|Hne]; repeat case_bool_decide; repeat case_decide; cbn; naive_solver.
  - repeat case_bool_decide; repeat case_decide; cbn; naive_solver.
Qed.
End properties.

Module AuthDemo.

#[export] Instance sha : Sha256 := {| sha256_hex := fun s => s +:+ "0a" |}.

Definition cfg : AuthConfig :=
  with_tokens [mkEntry "T0A" "pr-1" [Agent]; mkEntry "U0a" "pr-2" [Approver]].

Definition visited : list (string * (string * list Role)) := rev (map_to_list (digest_map cfg)).

Lemma require_auth_exact_witness :
  require_auth cfg visited "/v1/episodes" (Some "Bearer  t ") = Ok (mkContext (Some "pr-1") [Agent] false)
  /\ require_auth cfg visited "/v1/episodes" (Some "Bearer u0a") = Err Unauthenticated.
Proof.
  split; [|by vm_compute].
  apply (require_auth_exact cfg visited "/v1/episodes" (Some "Bearer  t ")).
  - reflexivity.
  - done.
  - unfold visited. by rewrite <- Permutation_rev.
  - exists "t", (mkEntry "T0A" "pr-1" [Agent]). by vm_compute.
Defined.

End AuthDemo.
