(* ===== verification/RawView.v ===== *)
(** Reading recorded output: the handler [fetch_raw] of
    [kernel/api/src/http.rs], once the blob is loaded. *)

From S2P Require Import Prelude B64 Utf8.

Open Scope Z_scope.

(** * Paging *)

Definition MAX_SLICE : Z := 2 ^ 20.
Definition MAX_GREP_MATCHES : nat := 200.

(** A page: the slice is the byte range, [page_data] the text returned for it. *)
Record RawPage := mkPage {
  page_total : Z;
  page_offset : Z;
  page_returned : Z;
  page_next : option Z;
  page_slice : string;
  page_data : string;
}.

Definition zlen (s : string) : Z := Z.of_nat (String.length s).

Definition raw_page (bytes : string) (offset_param limit_param : option Z) : RawPage :=
  let total := zlen bytes in
  let offset := Z.min (default 0 offset_param) total in
  let limit := Z.min (default 65536 limit_param) MAX_SLICE in
  let e := Z.min (saturating_add_int u64_max offset limit) total in
  let slice := String.substring 0 (Z.to_nat (e - offset)) (str_drop (Z.to_nat offset) bytes) in
  {| page_total := total; page_offset := offset; page_returned := zlen slice;
     page_next := if e <? total then Some e else None;
     page_slice := slice; page_data := from_utf8_lossy slice |}.

(** * Searching *)

(** [str::split_inclusive] at newlines: each line with its newline. *)
Fixpoint split_inclusive (s : string) : list string :=
  match s with
  | EmptyString => []
  | String c r =>
      if Ascii.eqb c "010" then String c EmptyString :: split_inclusive r
      else match split_inclusive r with
           | [] => [String c EmptyString]
           | w :: ws => String c w :: ws
           end
  end.

(** [trim_end_matches('\n')]. *)
Fixpoint trim_newlines (s : string) : string :=
  match s with
  | EmptyString => EmptyString
  | String c r =>
      let t := trim_newlines r in
      if Ascii.eqb c "010" && str_is_empty t then EmptyString else String c t
  end.

Fixpoint grep_loop (pattern : string) (lines : list string) (offset : Z) (matches : list (Z * string))
    : list (Z * string) * bool :=
  match lines with
  | [] => (matches, false)
  | line :: rest =>
      if str_contains pattern line then
        if Nat.leb MAX_GREP_MATCHES (length matches) then (matches, true)
        else grep_loop pattern rest (offset + zlen line) (matches ++ [(offset, trim_newlines line)])
      else grep_loop pattern rest (offset + zlen line) matches
  end.

Definition raw_grep (bytes pattern : string) : list (Z * string) * bool :=
  grep_loop pattern (split_inclusive (from_utf8_lossy bytes)) 0 [].

(** * Following the pages of a blob *)

Fixpoint read_pages (fuel : nat) (bytes : string) (offset : Z) (limit : Z) : option (list RawPage) :=
  match fuel with
  | O => None
  | S fuel =>
      let page := raw_page bytes (Some offset) (Some limit) in
      match page_next page with
      | None => Some [page]
      | Some next => cons page <$> read_pages fuel bytes next limit
      end
  end.

(** * Lemmas *)

Lemma raw_page_slice bytes offset limit :
  0 <= offset <= zlen bytes -> 1 <= limit -> zlen bytes <= u64_max ->
  let page := raw_page bytes (Some offset) (Some limit) in
  let e := Z.min (offset + Z.min limit MAX_SLICE) (zlen bytes) in
  page_slice page = String.substring 0 (Z.to_nat (e - offset)) (str_drop (Z.to_nat offset) bytes)
  /\ page_offset page = offset
  /\ page_returned page = e - offset
  /\ page_next page = if e <? zlen bytes then Some e else None.
Proof.
  intros Ho Hl Hmax page e. unfold page, raw_page, saturating_add_int. cbn [default]. unfold id.
  rewrite (Z.min_l offset) by lia.
  replace (Z.min (Z.min u64_max (offset + Z.min limit MAX_SLICE)) (zlen bytes)) with e by (unfold e; lia).
  cbn [page_slice page_offset page_returned page_next]. split_and!; try done.
  unfold zlen in *. rewrite substring_0_length, str_drop_length.
  unfold e, MAX_SLICE in *. lia.
Qed.

(** The bytes from an offset on are those up to a later one, and the rest. *)
Lemma str_drop_split bytes a b :
  (a <= b)%nat -> String.substring 0 (b - a) (str_drop a bytes) +:+ str_drop b bytes = str_drop a bytes.
Proof.
  intros Hab. rewrite <- (substring_0_app (b - a) (str_drop a bytes)) at 2. f_equal.
  rewrite str_drop_drop. f_equal. lia.
Qed.

Lemma read_pages_from bytes limit fuel offset :
  1 <= limit -> zlen bytes <= u64_max -> 0 <= offset <= zlen bytes ->
  zlen bytes - offset < Z.of_nat fuel ->
  exists pages, read_pages fuel bytes offset limit = Some pages
    /\ str_concat (map page_slice pages) = str_drop (Z.to_nat offset) bytes
    /\ Forall (fun page => page_returned page <= Z.min limit MAX_SLICE
                           /\ page_data page = from_utf8_lossy (page_slice page)) pages.
Proof.
  intros Hl Hmax. revert offset. induction fuel as [|fuel IH]; intros offset Ho Hf; [lia|]. cbn [read_pages].
  destruct (raw_page_slice bytes offset limit Ho Hl Hmax) as (Hs & _ & Hr & Hn). rewrite Hn.
  set (e := Z.min (offset + Z.min limit MAX_SLICE) (zlen bytes)) in *.
  assert (page_returned (raw_page bytes (Some offset) (Some limit)) <= Z.min limit MAX_SLICE) as Hret
    by (unfold e in *; lia).
  assert (offset <= e <= zlen bytes) as He by (unfold e, MAX_SLICE; lia).
  destruct (Z.ltb_spec e (zlen bytes)) as [Hlt|Hge].
  - destruct (IH e) as (pages & -> & Hc & Hall); [lia|unfold e, MAX_SLICE in *; lia|].
    eexists. split; [reflexivity|]. split; [|by constructor].
    cbn [map str_concat]. rewrite Hc, Hs. replace (Z.to_nat (e - offset)) with (Z.to_nat e - Z.to_nat offset)%nat by lia.
    apply str_drop_split. lia.
  - eexists. split; [reflexivity|]. split; [|by repeat constructor]. cbn [map str_concat].
    rewrite str_app_nil_r, Hs. apply substring_0_all. rewrite str_drop_length. unfold zlen in *. lia.
Qed.

Lemma split_inclusive_concat s : str_concat (split_inclusive s) = s.
Proof.
  induction s as [|c s IH]; cbn; [done|]. destruct (Ascii.eqb c "010"); cbn; [by rewrite IH|].
  destruct (split_inclusive s) as [|w ws]; cbn in *; by rewrite <- IH.
Qed.

(** Where each line starts. *)
Fixpoint line_offsets (lines : list string) (offset : Z) : list (Z * string) :=
  match lines with
  | [] => []
  | line :: rest => (offset, line) :: line_offsets rest (offset + zlen line)
  end.

Lemma grep_loop_spec pattern lines offset matches :
  let hits := filter (fun ol => str_contains pattern ol.2 = true) (line_offsets lines offset) in
  let found := map (fun ol => (ol.1, trim_newlines ol.2)) hits in
  (length matches <= MAX_GREP_MATCHES)%nat ->
  grep_loop pattern lines offset matches
  = (matches ++ take (MAX_GREP_MATCHES - length matches) found,
     Nat.ltb (MAX_GREP_MATCHES - length matches) (length found)).
Proof.
  cbn zeta. revert offset matches. induction lines as [|line rest IH]; intros offset matches Hm;
    cbn [grep_loop line_offsets].
  { rewrite filter_nil. cbn. by rewrite take_nil, app_nil_r. }
  rewrite filter_cons. destruct (str_contains pattern line) eqn:Ec.
  - rewrite decide_True by done. cbn [map length].
    destruct (Nat.leb_spec MAX_GREP_MATCHES (length matches)) as [Hge|Hlt].
    + replace (MAX_GREP_MATCHES - length matches)%nat with 0%nat by lia. by rewrite app_nil_r.
    + rewrite IH by (rewrite length_app; cbn; lia). rewrite length_app. cbn [length].
      replace (MAX_GREP_MATCHES - length matches)%nat
        with (S (MAX_GREP_MATCHES - (length matches + 1)))%nat by lia.
      cbn [take]. by rewrite <- app_assoc.
  - rewrite decide_False by (cbn; congruence). by apply IH.
Qed.

(** A line stands in the text at its offset. *)
Lemma line_offsets_at lines offset o line :
  0 <= offset -> (o, line) ∈ line_offsets lines offset ->
  offset <= o /\ exists rest, str_drop (Z.to_nat (o - offset)) (str_concat lines) = line +:+ rest.
Proof.
  revert offset. induction lines as [|l lines IH]; intros offset Ho; cbn [line_offsets]; [by intros []%elem_of_nil|].
  intros [[= -> ->]|Hin]%elem_of_cons.
  - split; [lia|]. rewrite Z.sub_diag. cbn. by eexists.
  - assert (0 <= zlen l) by (unfold zlen; lia).
    apply IH in Hin as [Hle [rest Hr]]; [|lia]. split; [lia|]. exists rest. cbn [str_concat].
    replace (Z.to_nat (o - offset)) with (String.length l + Z.to_nat (o - (offset + zlen l)))%nat
      by (unfold zlen in *; lia).
    by rewrite <- str_drop_drop, str_drop_app.
Qed.

(** * Properties *)

(** Following [next_offset] from the start reads a recorded blob completely: for every
    page size of at least one byte the walk ends, the byte ranges of its pages are within
    the size and the 1 MiB cap, and put together they are exactly the blob. *)
Theorem raw_pages_tile bytes limit :
  1 <= limit -> zlen bytes <= u64_max ->
  exists pages, read_pages (S (String.length bytes)) bytes 0 limit = Some pages
    /\ str_concat (map page_slice pages) = bytes
    /\ Forall (fun page => page_returned page <= Z.min limit MAX_SLICE
                           /\ page_data page = from_utf8_lossy (page_slice page)) pages.
Proof.
  intros Hl Hmax. apply (read_pages_from bytes limit (S (String.length bytes)) 0); unfold zlen in *; lia.
Qed.

(** Searching a well-formed recorded blob returns the first 200 lines that contain the
    pattern, in order, each with the byte offset at which that line stands in the blob, and
    reports truncation exactly when there are more. *)
Theorem raw_grep_exact bytes pattern :
  utf8_valid bytes = true ->
  let hits := filter (fun ol => str_contains pattern ol.2 = true) (line_offsets (split_inclusive bytes) 0) in
  raw_grep bytes pattern
  = (take MAX_GREP_MATCHES (map (fun ol => (ol.1, trim_newlines ol.2)) hits),
     Nat.ltb MAX_GREP_MATCHES (length hits))
  /\ forall o line, (o, line) ∈ hits -> 0 <= o /\ exists rest, str_drop (Z.to_nat o) bytes = line +:+ rest.
Proof.
  intros Hv hits. unfold raw_grep. rewrite from_utf8_lossy_id by done. split.
  - rewrite grep_loop_spec by (cbn; lia). cbn [app length]. by rewrite Nat.sub_0_r, length_map.
  - intros o line [_ Hin]%list_elem_of_filter. apply line_offsets_at in Hin as [Ho [rest Hr]]; [|lia].
    split; [done|]. exists rest. rewrite split_inclusive_concat, Z.sub_0_r in Hr. done.
Qed.

Module RawViewDemo.

Definition nl : string := String "010" EmptyString.
Definition log : string := "ok" +:+ nl +:+ "error: x" +:+ nl +:+ "done".

Lemma raw_pages_tile_witness :
  exists pages, read_pages (S (String.length log)) log 0 7 = Some pages
    /\ length pages = 3%nat /\ str_concat (map page_slice pages) = log.
Proof.
  destruct (raw_pages_tile log 7 ltac:(lia) ltac:(by vm_compute)) as (pages & Hp & Hc & _).
  exists pages. split_and!; [done| |done].
  assert (length <$> read_pages (S (String.length log)) log 0 7 = Some 3%nat) as Hl by by vm_compute.
  rewrite Hp in Hl. by injection Hl.
Defined.

Lemma raw_grep_exact_witness :
  raw_grep log "error" = ([(3, "error: x")], false)
  /\ forall o line, (o, line) ∈ filter (fun ol => str_contains "error" ol.2 = true) (line_offsets (split_inclusive log) 0) ->
       0 <= o /\ exists rest, str_drop (Z.to_nat o) log = line +:+ rest.
Proof. split; [by vm_compute|]. exact (proj2 (raw_grep_exact log "error" eq_refl)). Defined.

(** One byte that is not UTF-8 counts three in the offsets of later lines, so
    the offset reported for the match is not where the line stands. *)
Definition binary_log : string := String (ascii_of_N 0xFF) nl +:+ "error".

Theorem grep_offset_drifts :
  raw_grep binary_log "error" = ([(4, "error")], false)
  /\ (exists rest, str_drop 2 binary_log = "error" +:+ rest)
  /\ str_drop 4 binary_log = "ror".
Proof. split_and!; [by vm_compute|by exists EmptyString|done]. Qed.

End RawViewDemo.
