(* ===== verification/KernelText.v ===== *)
(** The pure helpers of the facade, [kernel/api/src/kernel.rs]: risk tiers and
    backend needs, denial texts, URL hosts, read responses and trace queries.

    [Display] of a time and of an identity error, and [serde_json]'s pretty
    printer, are class operations. *)

From S2P Require Import Prelude Json Budget Capability Types IdentityDb Router B64 Utf8 Auth.
From S2P Require Import Canonical Effect Ledger.

Open Scope Z_scope.

Class KernelDisplay := {
  time_display : DateTime -> string;
  identity_display : IdentityError -> string;
  value_pretty : Value -> string;
}.

(** * Risk and needs *)

Definition risk_tier_of (weight : Z) : RiskTier :=
  if weight <=? 2 then Low else if weight <=? 6 then Medium else High.

Definition needs_of (kind : ActionKind) : Needs :=
  mkNeeds false false false (match kind with Shell _ _ _ => false | _ => true end) None.

(** * Denials *)

Definition scope_sketch (operation : Operation) (params : Value) (requires_human : bool)
    : RequestableScope :=
  mkScope operation (Object [("params", params)]) requires_human.

Section denials.
Context `{!KernelDisplay}.

Definition consume_failure_reason (err : IdentityError) : DenialCode * string :=
  match err with
  | LeaseUnusable _ reason =>
      if String.eqb reason "expired"
      then (CapabilityExpired, "the presented lease expired before the use could be consumed")
      else if String.eqb reason "revoked"
      then (CapabilityDenied, "the presented lease was revoked before the use could be consumed")
      else (CapabilityExhausted,
            "the presented lease has no remaining uses (a concurrent step may have consumed the last one)")
  | other => (CapabilityDenied, "lease could not be consumed: " +:+ identity_display other)
  end.

Definition denial_from_consume_failure (operation : Operation) (params : Value) (err : IdentityError)
    : Denial :=
  let '(code, reason) := consume_failure_reason err in
  {| denial_code := code; attempted_operation := operation;
     denial_reason := reason +:+ ". Recover by requesting a fresh lease for this operation";
     safe_alternatives := []; requestable_scopes := [scope_sketch operation params false];
     escalation_allowed := true |}.

Definition lease_failure_reason (failure : LeaseCheckFailure) : DenialCode * string :=
  match failure with
  | Revoked => (CapabilityDenied, "the presented lease has been revoked")
  | Expired expired_at =>
      (CapabilityExpired, "the presented lease expired at " +:+ time_display expired_at)
  | Exhausted => (CapabilityExhausted, "the presented lease has no remaining uses")
  | WrongPrincipal => (CapabilityDenied, "the presented lease belongs to a different principal")
  | WrongOperation granted =>
      (CapabilityDenied, "the presented lease grants `" +:+ granted +:+ "`, not this operation")
  | WrongBranch bound =>
      (BranchMismatch, "the presented lease is bound to branch `" +:+ bound
         +:+ "`; authority does not follow the agent across branches — request a lease bound to the current branch")
  | ConstraintViolated parameter =>
      (DConstraintViolated, "parameter `" +:+ parameter +:+ "` violates the lease constraints")
  end.

Definition denial_from_lease_failure (operation : Operation) (params : Value)
    (failure : LeaseCheckFailure) : Denial :=
  let '(code, reason) := lease_failure_reason failure in
  {| denial_code := code; attempted_operation := operation;
     denial_reason := reason +:+
       ". Recover by requesting the scope below (capability.request), or use steps/execute_auto to have the kernel resolve leases automatically";
     safe_alternatives := []; requestable_scopes := [scope_sketch operation params false];
     escalation_allowed := true |}.

(** * Read responses *)

Definition shape_read_response (response : Value) : string * option Value :=
  match response with
  | Object obj =>
      match value_get "body" response with
      | Some (Str body) =>
          (body, Some (Object (List.filter (fun kv => negb (String.eqb kv.1 "body")) obj)))
      | _ => (value_pretty response, None)
      end
  | _ => (value_pretty response, None)
  end.
End denials.

(** * URL hosts *)

(** The text up to the first character of a class. *)
Fixpoint str_until (stop : ascii -> bool) (s : string) : string :=
  match s with
  | EmptyString => EmptyString
  | String c r => if stop c then EmptyString else String c (str_until stop r)
  end.

(** [rsplit(c).next()]: what follows the last [c]. *)
Fixpoint after_last (c : ascii) (s : string) : string :=
  match s with
  | EmptyString => EmptyString
  | String d r =>
      if existsb (Ascii.eqb c) (String.list_ascii_of_string r) then after_last c r
      else if Ascii.eqb c d then r else s
  end.

(** [split(p).nth(1)] for a non-empty [p]: between its first two occurrences. *)
Definition split_nth1 (p s : string) : option string :=
  n ← str_find p s;
  let rest := str_drop (n + String.length p) s in
  Some match str_find p rest with
       | Some m => String.substring 0 m rest
       | None => rest
       end.

Definition is_char_of (cs : list ascii) (c : ascii) : bool := existsb (Ascii.eqb c) cs.

Definition host_of (url : string) : option string :=
  rest ← split_nth1 "://" url;
  let authority := str_until (is_char_of ["/"; "?"; "#"]%char) rest in
  let host := after_last "@" authority in
  let host :=
    match strip_prefix "[" host with
    | Some stripped => "[" +:+ str_until (is_char_of ["]"%char]) stripped
    | None => str_until (is_char_of [":"%char]) host
    end in
  if str_is_empty host then None else Some (to_ascii_lowercase host).

(** * Trace queries *)

(** [split_whitespace]: maximal runs of characters that are no white space. *)
Fixpoint words_of (cs : list string) (cur : string) : list string :=
  match cs with
  | [] => if str_is_empty cur then [] else [cur]
  | c :: rest =>
      if is_whitespace c
      then (if str_is_empty cur then [] else [cur]) ++ words_of rest EmptyString
      else words_of rest (cur +:+ c)
  end.

Definition split_whitespace (s : string) : list string := words_of (chars s) EmptyString.

(** [split_once('=')]. *)
Definition split_once_eq (s : string) : option (string * string) :=
  match str_find "=" s with
  | Some n => Some (String.substring 0 n s, str_drop (S n) s)
  | None => None
  end.

(** [str::parse::<usize>]: an optional plus sign and digits, within 64 bits. *)
Fixpoint digits_value (s : string) (acc : Z) : option Z :=
  match s with
  | EmptyString => Some acc
  | String c r =>
      let d := byte_val c - 48 in
      if (0 <=? d) && (d <=? 9)
      then let acc' := acc * 10 + d in if acc' <=? u64_max then digits_value r acc' else None
      else None
  end.

Definition parse_usize (s : string) : option Z :=
  let digits := match s with String "+" r => r | _ => s end in
  if str_is_empty digits then None else digits_value digits 0.

Definition clamp (lo hi n : Z) : Z := if n <? lo then lo else if hi <? n then hi else n.

Definition result_ok {E A} (r : result E A) : option A := match r with Ok a => Some a | Err _ => None end.

Definition query_token (q : TraceQuery) (token : string) : TraceQuery :=
  match split_once_eq token with
  | None => q
  | Some (key, value) =>
      if String.eqb key "kind" then
        match kind_parse value with
        | Some kind => mkQuery (q_episode q) (q_branch q) (q_step q) (q_seq_range q) (q_principal q)
                         (q_kinds q ++ [kind]) (q_time_range q) (q_limit q)
        | None => q
        end
      else if String.eqb key "limit" then
        match parse_usize value with
        | Some n => mkQuery (q_episode q) (q_branch q) (q_step q) (q_seq_range q) (q_principal q)
                      (q_kinds q) (q_time_range q) (Some (Z.to_nat (clamp 1 1000 n)))
        | None => q
        end
      else if String.eqb key "step" then
        mkQuery (q_episode q) (q_branch q) (result_ok (id_parse "step" value)) (q_seq_range q)
          (q_principal q) (q_kinds q) (q_time_range q) (q_limit q)
      else if String.eqb key "branch" then
        mkQuery (q_episode q) (result_ok (id_parse "br" value)) (q_step q) (q_seq_range q)
          (q_principal q) (q_kinds q) (q_time_range q) (q_limit q)
      else if String.eqb key "principal" then
        mkQuery (q_episode q) (q_branch q) (q_step q) (q_seq_range q)
          (result_ok (id_parse "pr" value)) (q_kinds q) (q_time_range q) (q_limit q)
      else q
  end.

Definition parse_trace_query (episode query : string) : TraceQuery :=
  foldl query_token (mkQuery (Some episode) None None None None [] None (Some 200%nat))
    (split_whitespace query).

(** * Lemmas *)

Lemma str_until_all stop s r :
  forallb (fun c => negb (stop c)) (String.list_ascii_of_string s) = true ->
  str_until stop (s +:+ r) = s +:+ str_until stop r.
Proof.
  induction s as [|c s IH]; cbn; [done|]. intros Hs. apply andb_true_iff in Hs as [Hc Hs].
  apply negb_true_iff in Hc. by rewrite Hc, IH.
Qed.

Lemma list_ascii_app s r :
  String.list_ascii_of_string (s +:+ r) = String.list_ascii_of_string s ++ String.list_ascii_of_string r.
Proof. induction s as [|c s IH]; cbn; [done|]. by rewrite IH. Qed.

Lemma after_last_app c u h :
  existsb (Ascii.eqb c) (String.list_ascii_of_string h) = false ->
  after_last c (u +:+ String c h) = h.
Proof.
  intros Hh. induction u as [|d u IH]; cbn.
  - by rewrite Hh, Ascii.eqb_refl.
  - rewrite list_ascii_app, existsb_app. cbn. rewrite Ascii.eqb_refl, orb_true_r. apply IH.
Qed.

Lemma after_last_none c h :
  existsb (Ascii.eqb c) (String.list_ascii_of_string h) = false -> after_last c h = h.
Proof.
  destruct h as [|d h]; cbn; [done|]. intros Hh. apply orb_false_iff in Hh as [Hd Hh]. by rewrite Hh, Hd.
Qed.

(** What every token of a query keeps. *)
Definition query_scoped (episode : string) (q : TraceQuery) : Prop :=
  q_episode q = Some episode
  /\ (exists n, q_limit q = Some n /\ (1 <= n <= 1000)%nat)
  /\ q_seq_range q = None /\ q_time_range q = None
  /\ (forall s, q_step q = Some s -> id_parse "step" s = Ok s)
  /\ (forall b, q_branch q = Some b -> id_parse "br" b = Ok b)
  /\ (forall p, q_principal q = Some p -> id_parse "pr" p = Ok p).

Lemma clamp_range n : (1 <= Z.to_nat (clamp 1 1000 n) <= 1000)%nat.
Proof. unfold clamp. destruct (Z.ltb_spec n 1), (Z.ltb_spec 1000 n); lia. Qed.

Lemma id_parse_self prefix s x : result_ok (id_parse prefix s) = Some x -> id_parse prefix x = Ok x.
Proof.
  destruct (id_parse prefix s) as [y|] eqn:E; [|done]. intros [= ->].
  unfold id_parse in *. destruct (starts_with _ s) eqn:Es; [|done]. injection E as <-. by rewrite Es.
Qed.

Lemma query_token_scoped episode q token : query_scoped episode q -> query_scoped episode (query_token q token).
Proof.
  intros (He & Hl & Hr & Ht & Hs & Hb & Hp). unfold query_token.
  destruct (split_once_eq token) as [[key value]|]; [|by repeat split].
  repeat case_match; unfold query_scoped; cbn; split_and!; try done;
    try (by intros x Hx; apply id_parse_self in Hx).
  eexists. split; [reflexivity|]. apply clamp_range.
Qed.

(** * Properties *)

(** However a trace query is written, it stays scoped to the step's episode, asks for
    between 1 and 1000 events and filters only by well-formed identifiers. *)
Theorem trace_query_scoped episode query : query_scoped episode (parse_trace_query episode query).
Proof.
  unfold parse_trace_query. generalize (split_whitespace query). intros tokens.
  assert (forall l q, query_scoped episode q -> query_scoped episode (foldl query_token q l)) as Hl.
  { induction l as [|t l IH]; intros q Hq; [done|]. by apply IH, query_token_scoped. }
  apply Hl. unfold query_scoped. cbn. split_and!; try done. exists 200%nat. split; [done|lia].
Qed.

(** A malformed identifier later in the query drops the filter an earlier one set. *)
Theorem malformed_filter_clears episode :
  q_step (parse_trace_query episode "step=step-1") = Some "step-1"
  /\ q_step (parse_trace_query episode "step=step-1 step=x") = None.
Proof. by vm_compute. Qed.

(** A bracketed host keeps its opening bracket only. *)
Theorem host_of_brackets : host_of "http://[::1]:8080/x" = Some "[::1".
Proof. by vm_compute. Qed.

Example host_of_userinfo :
  host_of "https://allowed.com@Evil.com:443/p?u=http://x" = Some "evil.com"
  /\ host_of "ftp:evil.com" = None.
Proof. by vm_compute. Qed.
