(* ===== verification/IpText.v ===== *)
(** Addresses as text: the [FromStr] and [Display] of [std::net::IpAddr],
    which the egress proxy uses to recognise literal addresses and to name the
    addresses of a SOCKS request.

    The parser reads from the front of the text and returns what it read with
    the rest, or nothing; a failed alternative restarts where it began. *)

From stdpp Require Import pretty.
From S2P Require Import Prelude B64 Net.

Open Scope Z_scope.

(** * Parsing *)

(** [char::to_digit]. *)
Definition to_digit (radix : Z) (c : ascii) : option Z :=
  let b := byte_val c in
  let d := if (48 <=? b) && (b <=? 57) then b - 48
           else if (97 <=? b) && (b <=? 122) then b - 87
           else if (65 <=? b) && (b <=? 90) then b - 55 else radix in
  if d <? radix then Some d else None.

Fixpoint read_digits (radix limit : Z) (max_digits : nat) (s : string) (acc : Z) (count : nat)
    : option (Z * nat * string) :=
  match s with
  | EmptyString => Some (acc, count, s)
  | String c r =>
      match to_digit radix c with
      | None => Some (acc, count, s)
      | Some d =>
          let acc' := acc * radix + d in
          if limit <? acc' then None
          else if Nat.ltb max_digits (S count) then None
          else read_digits radix limit max_digits r acc' (S count)
      end
  end.

Definition read_number (radix limit : Z) (max_digits : nat) (allow_zero_prefix : bool) (s : string)
    : option (Z * string) :=
  let leading_zero := match s with String "0" _ => true | _ => false end in
  '(n, count, rest) ← read_digits radix limit max_digits s 0 0;
  if Nat.eqb count 0 then None
  else if negb allow_zero_prefix && leading_zero && Nat.ltb 1 count then None
  else Some (n, rest).

Definition read_given_char (c : ascii) (s : string) : option string :=
  match s with String d r => if Ascii.eqb c d then Some r else None | EmptyString => None end.

(** [read_separator]: the separator precedes every item but the first. *)
Definition read_separator {A} (sep : ascii) (index : nat) (inner : string -> option (A * string)) (s : string)
    : option (A * string) :=
  match index with
  | O => inner s
  | S _ => rest ← read_given_char sep s; inner rest
  end.

Definition read_octet (s : string) : option (Z * string) := read_number 10 255 3 false s.

Definition read_ipv4_addr (s : string) : option (Ipv4Addr * string) :=
  '(a, s) ← read_separator "." 0 read_octet s;
  '(b, s) ← read_separator "." 1 read_octet s;
  '(c, s) ← read_separator "." 2 read_octet s;
  '(d, s) ← read_separator "." 3 read_octet s;
  Some (mkV4 a b c d, s).

Definition read_segment (s : string) : option (Z * string) := read_number 16 65535 4 true s.

(** [read_groups]: up to [limit] groups; [i] of them are read. *)
Fixpoint read_groups (todo i : nat) (s : string) : list Z * bool * string :=
  match todo with
  | O => ([], false, s)
  | S todo' =>
      match (if Nat.ltb 0 todo' then read_separator ":" i read_ipv4_addr s else None) with
      | Some (v4, rest) => ([o0 v4 * 256 + o1 v4; o2 v4 * 256 + o3 v4], true, rest)
      | None =>
          match read_separator ":" i read_segment s with
          | None => ([], false, s)
          | Some (g, rest) => let '(gs, v4, rest) := read_groups todo' (S i) rest in (g :: gs, v4, rest)
          end
      end
  end.

Definition v6_of (gs : list Z) : option Ipv6Addr :=
  match gs with [a; b; c; d; e; f; g; h] => Some (mkV6 a b c d e f g h) | _ => None end.

Definition read_ipv6_addr (s : string) : option (Ipv6Addr * string) :=
  let '(head, head_ipv4, rest) := read_groups 8 0 s in
  if Nat.eqb (length head) 8 then a ← v6_of head; Some (a, rest)
  else if head_ipv4 then None
  else
    rest ← read_given_char ":" rest;
    rest ← read_given_char ":" rest;
    let '(tail, _, rest) := read_groups (8 - (length head + 1)) 0 rest in
    a ← v6_of (head ++ replicate (8 - length head - length tail) 0 ++ tail);
    Some (a, rest).

(** [s.parse::<IpAddr>().ok()]: the whole text is one address. *)
Definition parse_ip (s : string) : option IpAddr :=
  '(ip, rest) ← match read_ipv4_addr s with
               | Some (a, rest) => Some (V4 a, rest)
               | None => '(a, rest) ← read_ipv6_addr s; Some (V6 a, rest)
               end;
  if str_is_empty rest then Some ip else None.

(** * Printing *)

Definition show_v4 (a : Ipv4Addr) : string :=
  pretty (o0 a) +:+ "." +:+ pretty (o1 a) +:+ "." +:+ pretty (o2 a) +:+ "." +:+ pretty (o3 a).

Definition hex_char (n : Z) : ascii := as_u8 (if n <? 10 then n + 48 else n + 87).

(** [{:x}] of a [u16]. *)
Definition show_hex (n : Z) : string :=
  let digits := [n / 4096; (n / 256) mod 16; (n / 16) mod 16; n mod 16] in
  let fix show (ds : list Z) : string :=
    match ds with
    | [] => EmptyString
    | [d] => String (hex_char d) EmptyString
    | d :: ds' => if d =? 0 then show ds' else foldr (fun d s => String (hex_char d) s) EmptyString ds
    end in
  show digits.

Definition v6_segments (a : Ipv6Addr) : list Z := [s0 a; s1 a; s2 a; s3 a; s4 a; s5 a; s6 a; s7 a].

(** The first of the longest runs of zero segments: its start and length. *)
Fixpoint longest_zeroes (segs : list Z) (i : nat) (cur best : nat * nat) : nat * nat :=
  match segs with
  | [] => best
  | g :: gs =>
      if g =? 0 then
        let cur := (if Nat.eqb cur.2 0 then i else cur.1, S cur.2) in
        longest_zeroes gs (S i) cur (if Nat.ltb best.2 cur.2 then cur else best)
      else longest_zeroes gs (S i) (O, O) best
  end.

Definition show_segments (segs : list Z) : string := str_join ":" (map show_hex segs).

Definition show_v6 (a : Ipv6Addr) : string :=
  match to_ipv4_mapped a with
  | Some v4 => "::ffff:" +:+ show_v4 v4
  | None =>
      let segs := v6_segments a in
      let '(start, len) := longest_zeroes segs 0 (O, O) (O, O) in
      if Nat.ltb 1 len
      then show_segments (take start segs) +:+ "::" +:+ show_segments (drop (start + len) segs)
      else show_segments segs
  end.

Definition show_ip (ip : IpAddr) : string :=
  match ip with V4 a => show_v4 a | V6 a => show_v6 a end.
