(* ===== verification/Egress.v ===== *)
(** The egress proxy of [backends/local/src/egress.rs]: how a connection is
    parsed, authenticated and given a destination.

    A connection handler is a tree of its interactions ([prog]): reads and
    writes on the client, the session table, the shared flag and byte counter
    of a session, name resolution and dialling, each with a continuation for
    every answer.  Reads fail alike on errors, on the end of the stream and on
    the deadline of the code, which all close the connection.  [EgressProxy]
    runs the handlers, interleaved, over the shared state. *)

From stdpp Require Import pretty.
From S2P Require Import Prelude B64 Utf8 Glob Net Auth IpText KernelText.

Open Scope Z_scope.

(** * Data *)

Record EgressConfig := mkEgressConfig {
  eg_enabled : bool;
  allowed_ports : list Z;             (* u16 *)
  danger_allow_loopback : bool;
}.

Definition egress_default : EgressConfig := mkEgressConfig true [80; 443] false.

(** A session; its counter and flag are shared cells, found by its token. *)
Record Session := mkSession {
  ses_token : string;
  ses_domains : list string;
  ses_cap : Z;                        (* u64 *)
}.

Record SocketAddr := mkAddr { addr_ip : IpAddr; addr_port : Z }.

#[export] Instance v4_eq_dec : EqDecision Ipv4Addr.
Proof. solve_decision. Defined.
#[export] Instance v6_eq_dec : EqDecision Ipv6Addr.
Proof. solve_decision. Defined.
#[export] Instance ip_eq_dec : EqDecision IpAddr.
Proof. solve_decision. Defined.
#[export] Instance addr_eq_dec : EqDecision SocketAddr.
Proof. solve_decision. Defined.
#[export] Instance session_eq_dec : EqDecision Session.
Proof. solve_decision. Defined.

Definition is_loopback (ip : IpAddr) : bool :=
  match ip with V4 a => v4_is_loopback a | V6 a => v6_is_loopback a end.

(** * Interactions *)

Inductive prog (A : Type) : Type :=
| Ret (a : A)
| ReadExact (n : nat) (k : option string -> prog A)
| Write (bytes : string) (k : bool -> prog A)
| GetSession (token : string) (k : option Session -> prog A)
| LoadRevoked (s : Session) (k : bool -> prog A)
| LoadUsed (s : Session) (k : Z -> prog A)
| LookupHost (host : string) (port : Z) (k : option (list IpAddr) -> prog A)
| Connect (s : Session) (addr : SocketAddr) (k : bool -> prog A).
Arguments Ret {A} _.
Arguments ReadExact {A} _ _.
Arguments Write {A} _ _.
Arguments GetSession {A} _ _.
Arguments LoadRevoked {A} _ _.
Arguments LoadUsed {A} _ _.
Arguments LookupHost {A} _ _ _.
Arguments Connect {A} _ _ _.

#[export] Instance prog_ret : MRet prog := fun A => Ret.
#[export] Instance prog_bind : MBind prog := fun A A' f =>
  fix bind (m : prog A) : prog A' :=
    match m with
    | Ret a => f a
    | ReadExact n k => ReadExact n (fun x => bind (k x))
    | Write b k => Write b (fun x => bind (k x))
    | GetSession t k => GetSession t (fun x => bind (k x))
    | LoadRevoked s k => LoadRevoked s (fun x => bind (k x))
    | LoadUsed s k => LoadUsed s (fun x => bind (k x))
    | LookupHost h p k => LookupHost h p (fun x => bind (k x))
    | Connect s a k => Connect s a (fun x => bind (k x))
    end.

(** * Requests over HTTP *)

Definition MAX_HEAD_BYTES : nat := 16 * 1024.

Definition crlf : string := codes [13; 10].

(** [respond]: a write whose failure is ignored. *)
Definition respond (status extra : string) : prog () :=
  Write ("HTTP/1.1 " +:+ status +:+ crlf +:+ extra +:+ "content-length: 0" +:+ crlf
         +:+ "connection: close" +:+ crlf +:+ crlf) (fun _ => Ret tt).

(** One byte at a time until the blank line; [todo] bytes may still be read. *)
Fixpoint read_head_from (todo : nat) (head : string) : prog (option string) :=
  match todo with
  | O => Ret None
  | S todo' =>
      ReadExact 1 (fun o =>
        match o with
        | None => Ret None
        | Some byte =>
            let head := head +:+ byte in
            if ends_with (crlf +:+ crlf) head then Ret (Some head) else read_head_from todo' head
        end)
  end.

Definition read_http_head (first : string) : prog (option string) :=
  read_head_from (MAX_HEAD_BYTES - String.length first) first.

Record RequestHead := mkHead {
  method : string;
  target : string;
  version : string;
  headers : list (string * string);
}.

(** [split("\r\n")]. *)
Fixpoint split_crlf (s : string) : list string :=
  match s with
  | EmptyString => [EmptyString]
  | String c r =>
      match Ascii.eqb c "013", r with
      | true, String d r' =>
          if Ascii.eqb d "010" then EmptyString :: split_crlf r'
          else match split_crlf r with [] => [String c EmptyString] | w :: ws => String c w :: ws end
      | _, _ => match split_crlf r with [] => [String c EmptyString] | w :: ws => String c w :: ws end
      end
  end.

(** [split_once(c)] and [rsplit_once(c)]. *)
Fixpoint split_once (c : ascii) (s : string) : option (string * string) :=
  match s with
  | EmptyString => None
  | String d r =>
      if Ascii.eqb c d then Some (EmptyString, r)
      else match split_once c r with Some (a, b) => Some (String d a, b) | None => None end
  end.

Fixpoint rsplit_once (c : ascii) (s : string) : option (string * string) :=
  match s with
  | EmptyString => None
  | String d r =>
      match rsplit_once c r with
      | Some (a, b) => Some (String d a, b)
      | None => if Ascii.eqb c d then Some (EmptyString, r) else None
      end
  end.

Fixpoint parse_headers (lines : list string) : option (list (string * string)) :=
  match lines with
  | [] => Some []
  | line :: rest =>
      if str_is_empty line then Some []
      else
        '(name, value) ← split_once ":" line;
        hs ← parse_headers rest;
        Some ((to_ascii_lowercase (trim name), trim value) :: hs)
  end.

Definition parse_head (head : string) : option RequestHead :=
  if negb (utf8_valid head) then None
  else
    match split_crlf head with
    | [] => None
    | request_line :: lines =>
        match split_whitespace request_line with
        | m :: t :: v :: _ => hs ← parse_headers lines; Some (mkHead m t v hs)
        | _ => None
        end
    end.

(** [ALPHABET.iter().position(..)]. *)
Definition position (c : ascii) : option Z := Z.of_nat <$> str_find (String c EmptyString) ALPHABET.

Fixpoint base64_loop (input : string) (buf bits : Z) : option string :=
  match input with
  | EmptyString => Some EmptyString
  | String c r =>
      if Ascii.eqb c "=" then Some EmptyString
      else
        value ← position c;
        let buf := Z.lor (u32_shl buf 6) value in
        let bits := bits + 6 in
        if 8 <=? bits
        then let bits := bits - 8 in String (as_u8 (Z.shiftr buf bits)) <$> base64_loop r buf bits
        else base64_loop r buf bits
  end.

Definition base64_decode (input : string) : option string := base64_loop input 0 0.

Definition bearer_token (req : RequestHead) : option string :=
  value ← snd <$> List.find (fun h => String.eqb h.1 "proxy-authorization") (headers req);
  b64 ← match strip_prefix "Basic " value with Some v => Some v | None => strip_prefix "basic " value end;
  creds ← base64_decode (trim b64);
  if negb (utf8_valid creds) then None
  else
    '(username, token) ← split_once ":" creds;
    if String.eqb username "ak" && negb (str_is_empty token) then Some token else None.

(** [str::parse::<u16>]. *)
Definition parse_u16 (s : string) : option Z :=
  n ← parse_usize s; if n <=? 65535 then Some n else None.

Definition split_authority (t : string) (default_port : Z) : option (string * Z) :=
  match strip_prefix "[" t with
  | Some rest =>
      '(host, tail) ← split_once "]" rest;
      port ← match strip_prefix ":" tail with Some p => parse_u16 p | None => Some default_port end;
      Some (host, port)
  | None =>
      match rsplit_once ":" t with
      | Some (host, port) => port ← parse_u16 port; Some (host, port)
      | None => Some (t, default_port)
      end
  end.

(** * Destinations *)

Inductive TargetError := Denied (reason : string) | Unresolvable.

(** [trim_end_matches('.')]. *)
Fixpoint trim_dots (s : string) : string :=
  match s with
  | EmptyString => EmptyString
  | String c r =>
      let t := trim_dots r in
      if Ascii.eqb c "." && str_is_empty t then EmptyString else String c t
  end.

Definition normal_host (host : string) : string := trim_dots (to_ascii_lowercase host).

Definition port_allowed (cfg : EgressConfig) (port : Z) : bool :=
  bool_decide (allowed_ports cfg = []) || bool_decide (port ∈ allowed_ports cfg).

(** The loop over the resolved addresses: the first that is refused. *)
Definition addr_refused (cfg : EgressConfig) (ip : IpAddr) : bool :=
  negb (danger_allow_loopback cfg && is_loopback ip) && is_forbidden_ip ip.

Definition validate_target (host : string) (port : Z) (session : Session) (cfg : EgressConfig)
    : prog (result TargetError SocketAddr) :=
  let host := normal_host host in
  if str_is_empty host || (port =? 0) then Ret (Err (Denied "empty host or zero destination port"))
  else
    let allowed := port_allowed cfg port in
    if negb allowed && negb (danger_allow_loopback cfg) then Ret (Err (Denied "destination port not allowed"))
    else if negb (existsb (fun g => glob_match g host) (ses_domains session)) then
      Ret (Err (Denied "destination host is not covered by this step's egress domains"))
    else
      match parse_ip host with
      | Some ip =>
          Ret (if danger_allow_loopback cfg && is_loopback ip then Ok (mkAddr ip port)
               else if negb allowed then Err (Denied "destination port not allowed")
               else Err (Denied "literal ip targets are refused"))
      | None =>
          LookupHost host port (fun o => Ret
            match o with
            | None | Some [] => Err Unresolvable
            | Some (ip :: ips) =>
                if existsb (addr_refused cfg) (ip :: ips)
                then Err (Denied "destination resolves into a private/loopback/metadata range")
                else if negb (allowed || danger_allow_loopback cfg && is_loopback ip)
                then Err (Denied "destination port not allowed")
                else Ok (mkAddr ip port)
            end)
      end.

(** * Handlers *)

(** How the handling of a request ends: closed, a tunnel over a connection
    that is open, or a request to forward to a vetted address. *)
Inductive Outcome :=
| Closed
| Tunnel (s : Session) (addr : SocketAddr)
| Forward (s : Session) (addr : SocketAddr) (out : string).

Definition close_with (status extra : string) : prog Outcome := respond status extra;; Ret Closed.

Definition auth_required : string :=
  "proxy-authenticate: Basic realm=" +:+ codes [34] +:+ "agent-kernel egress" +:+ codes [34] +:+ crlf.

Definition keep_header (name : string) : bool :=
  negb (starts_with "proxy-" name || String.eqb name "connection").

(** The request in origin form, the proxy's own headers stripped. *)
Definition origin_request (req : RequestHead) (path : string) : string :=
  method req +:+ " " +:+ path +:+ " " +:+ version req +:+ crlf
  +:+ str_concat (map (fun h => h.1 +:+ ": " +:+ h.2 +:+ crlf) (List.filter (fun h => keep_header h.1) (headers req)))
  +:+ "connection: close" +:+ crlf +:+ crlf.

(** [rest.find('/')]: the authority and the path of an absolute target. *)
Definition split_path (rest : string) : string * string :=
  match str_find "/" rest with
  | Some i => (String.substring 0 i rest, str_drop i rest)
  | None => (rest, "/")
  end.

Definition eq_ignore_ascii_case (a b : string) : bool :=
  String.eqb (to_ascii_lowercase a) (to_ascii_lowercase b).

Definition target_refused (e : TargetError) : prog Outcome :=
  match e with
  | Denied _ => close_with "403 Forbidden" ""
  | Unresolvable => close_with "502 Bad Gateway" ""
  end.

Definition handle_connect (cfg : EgressConfig) (req : RequestHead) (s : Session) : prog Outcome :=
  match split_authority (target req) 443 with
  | None => close_with "400 Bad Request" ""
  | Some (host, port) =>
      r ← validate_target host port s cfg;
      match r with
      | Err e => target_refused e
      | Ok addr =>
          LoadRevoked s (fun revoked => if (revoked : bool) then Ret Closed else
          Connect s addr (fun up => if negb up then close_with "502 Bad Gateway" "" else
          LoadRevoked s (fun revoked => if (revoked : bool) then Ret Closed else
          Write ("HTTP/1.1 200 Connection Established" +:+ crlf +:+ crlf) (fun ok =>
          Ret (if (ok : bool) then Tunnel s addr else Closed)))))
      end
  end.

Definition handle_absolute (cfg : EgressConfig) (req : RequestHead) (s : Session) : prog Outcome :=
  match strip_prefix "http://" (target req) with
  | None => close_with "400 Bad Request" ""
  | Some rest =>
      let '(authority, path) := split_path rest in
      match split_authority authority 80 with
      | None => close_with "400 Bad Request" ""
      | Some (host, port) =>
          r ← validate_target host port s cfg;
          match r with
          | Err e => target_refused e
          | Ok addr => Ret (Forward s addr (origin_request req path))
          end
      end
  end.

(** After the first byte: the rest of an HTTP request. *)
Definition handle_http (cfg : EgressConfig) (first : string) : prog Outcome :=
  head ← read_http_head first;
  match head with
  | None => Ret Closed
  | Some head =>
      match parse_head head with
      | None => close_with "400 Bad Request" ""
      | Some req =>
          session ← match bearer_token req with
                    | None => Ret None
                    | Some token => GetSession token Ret
                    end;
          match session with
          | None => close_with "407 Proxy Authentication Required" auth_required
          | Some s =>
              LoadRevoked s (fun revoked =>
                if (revoked : bool) then close_with "407 Proxy Authentication Required" "" else
              LoadUsed s (fun used =>
                if ses_cap s <=? used then close_with "403 Forbidden" "" else
              if eq_ignore_ascii_case (method req) "CONNECT" then handle_connect cfg req s
              else handle_absolute cfg req s))
          end
      end
  end.

(** ** SOCKS5 *)

Definition bytes_of (s : string) : list Z := map byte_val (String.list_ascii_of_string s).

(** [read_exact] and [write_all] with [?]. *)
Definition need {A} (n : nat) (k : list Z -> prog (option A)) : prog (option A) :=
  ReadExact n (fun o => match o with None => Ret None | Some s => k (bytes_of s) end).

Definition need_str {A} (n : nat) (k : string -> prog (option A)) : prog (option A) :=
  ReadExact n (fun o => match o with None => Ret None | Some s => k s end).

Definition send {A} (bytes : list Z) (k : prog (option A)) : prog (option A) :=
  Write (codes bytes) (fun ok => if (ok : bool) then k else Ret None).

Definition socks5_reply (reply : Z) : list Z := [5; reply; 0; 1; 0; 0; 0; 0; 0; 0].

(** Replies and gives up. *)
Definition refuse {A} (bytes : list Z) : prog (option A) := send bytes (Ret None).

Definition v6_of_octets (b : list Z) : Ipv6Addr :=
  let seg i := nth (2 * i) b 0 * 256 + nth (2 * i + 1) b 0 in
  mkV6 (seg 0%nat) (seg 1%nat) (seg 2%nat) (seg 3%nat) (seg 4%nat) (seg 5%nat) (seg 6%nat) (seg 7%nat).

(** The destination host of the request, by its address type. *)
Definition socks5_host (atyp : Z) : prog (option string) :=
  if atyp =? 1 then
    need 4 (fun b => Ret (Some (show_ip (V4 (mkV4 (nth 0 b 0) (nth 1 b 0) (nth 2 b 0) (nth 3 b 0))))))
  else if atyp =? 3 then
    need 1 (fun len =>
    if nth 0 len 0 =? 0 then refuse (socks5_reply 8) else
    need_str (Z.to_nat (nth 0 len 0)) (fun domain =>
    if utf8_valid domain then Ret (Some domain) else refuse (socks5_reply 8)))
  else if atyp =? 4 then need 16 (fun b => Ret (Some (show_ip (V6 (v6_of_octets b)))))
  else refuse (socks5_reply 8).

(** The command, after authentication. *)
Definition socks5_request (s : Session) : prog (option (Session * string * Z)) :=
  need 4 (fun request =>
  if negb (nth 0 request 0 =? 5) || negb (nth 1 request 0 =? 1) || negb (nth 2 request 0 =? 0)
  then refuse (socks5_reply 7) else
  host ← socks5_host (nth 3 request 0);
  match host with
  | None => Ret None
  | Some host => need 2 (fun port => Ret (Some (s, host, nth 0 port 0 * 256 + nth 1 port 0)))
  end).

(** The session named by the credentials, if it is still valid. *)
Definition socks5_session (username password : string) : prog (option Session) :=
  session ← (if String.eqb username "ak" && utf8_valid password then GetSession password Ret else Ret None);
  match session with
  | None => Ret None
  | Some s => LoadRevoked s (fun revoked => Ret (if (revoked : bool) then None else Some s))
  end.

Definition socks5_handshake : prog (option (Session * string * Z)) :=
  need 1 (fun nmethods =>
  if nth 0 nmethods 0 =? 0 then refuse [5; 0xff] else
  need (Z.to_nat (nth 0 nmethods 0)) (fun methods =>
  if negb (bool_decide (2 ∈ methods)) then refuse [5; 0xff] else
  send [5; 2] (
  need 2 (fun auth_head =>
  if negb (nth 0 auth_head 0 =? 1) || (nth 1 auth_head 0 =? 0) then refuse [1; 1] else
  need_str (Z.to_nat (nth 1 auth_head 0)) (fun username =>
  need 1 (fun password_len =>
  if nth 0 password_len 0 =? 0 then refuse [1; 1] else
  need_str (Z.to_nat (nth 0 password_len 0)) (fun password =>
  session ← socks5_session username password;
  match session with
  | None => refuse [1; 1]
  | Some s => send [1; 0] (socks5_request s)
  end))))))).

Definition socks5_close (reply : Z) : prog Outcome := Write (codes (socks5_reply reply)) (fun _ => Ret Closed).

Definition handle_socks5 (cfg : EgressConfig) : prog Outcome :=
  handshake ← socks5_handshake;
  match handshake with
  | None => Ret Closed
  | Some (s, host, port) =>
      LoadUsed s (fun used => if ses_cap s <=? used then socks5_close 2 else
      r ← validate_target host port s cfg;
      match r with
      | Err (Denied _) => socks5_close 2
      | Err Unresolvable => socks5_close 4
      | Ok addr =>
          LoadRevoked s (fun revoked => if (revoked : bool) then Ret Closed else
          Connect s addr (fun up => if negb up then socks5_close 5 else
          LoadRevoked s (fun revoked => if (revoked : bool) then Ret Closed else
          Write (codes (socks5_reply 0)) (fun ok => Ret (if (ok : bool) then Tunnel s addr else Closed)))))
      end)
  end.

Definition handle_connection (cfg : EgressConfig) : prog Outcome :=
  ReadExact 1 (fun o =>
    match o with
    | None => Ret Closed
    | Some first =>
        if bool_decide (bytes_of first = [5]) then handle_socks5 cfg else handle_http cfg first
    end).
