(* ===== verification/EgressText.v ===== *)
(** The credentials of the egress proxy: the token a grant hands to a workload
    in its proxy URL is the one the proxy reads back from its requests. *)

From S2P Require Import Prelude B64 Utf8 Auth IpText KernelText Egress.

Open Scope Z_scope.

(** * The proxy's base64 decoder *)

Lemma position_checked :
  forallb (fun i => match position (alphabet_at i) with Some v => v =? i | None => false end
                    && negb (Ascii.eqb (alphabet_at i) "=")
                    && (byte_val (alphabet_at i) <? 128)
                    && negb (is_whitespace (String (alphabet_at i) EmptyString)))
    (map Z.of_nat (seq 0 64)) = true.
Proof. by vm_compute. Qed.

Lemma position_ok i : 0 <= i < 64 ->
  position (alphabet_at i) = Some i /\ Ascii.eqb (alphabet_at i) "=" = false
  /\ byte_val (alphabet_at i) < 128 /\ is_whitespace (String (alphabet_at i) EmptyString) = false.
Proof.
  intros Hi. pose proof position_checked as Hall. rewrite List.forallb_forall in Hall.
  specialize (Hall i). assert (In i (map Z.of_nat (seq 0 64))) as Hin.
  { apply in_map_iff. exists (Z.to_nat i). split; [lia|]. apply in_seq. lia. }
  apply Hall in Hin. bool_hyps. destruct (position (alphabet_at i)) as [v|]; [|done].
  split_and!; [f_equal; lia|done|lia|done].
Qed.

Lemma sextet_val_range n k : 0 <= sextet_val n k < 64.
Proof. apply Z.mod_pos_bound. lia. Qed.

(** One character into the accumulator. *)
Definition push6 (buf v : Z) : Z := Z.lor (u32_shl buf 6) v.

Lemma push6_mod buf v : 0 <= buf -> 0 <= v < 64 -> 0 <= push6 buf v /\ push6 buf v mod 4096 = (buf mod 64) * 64 + v.
Proof.
  intros Hb Hv. unfold push6, u32_shl. rewrite Z.shiftl_mul_pow2 by lia. change (2 ^ 6) with 64. change (2 ^ 32) with 4294967296.
  replace ((buf * 64) mod 4294967296) with (Z.shiftl (buf mod 67108864) 6).
  - rewrite lor_shift by lia. change (2 ^ 6) with 64. Z.to_euclidean_division_equations. lia.
  - rewrite Z.shiftl_mul_pow2 by lia. change (2 ^ 6) with 64. Z.to_euclidean_division_equations. lia.
Qed.

Lemma base64_step n k r buf bits :
  0 <= k -> base64_loop (String (sextet n k) r) buf bits =
    if 8 <=? bits + 6
    then String (as_u8 (Z.shiftr (push6 buf (sextet_val n k)) (bits + 6 - 8)))
           <$> base64_loop r (push6 buf (sextet_val n k)) (bits + 6 - 8)
    else base64_loop r (push6 buf (sextet_val n k)) (bits + 6).
Proof.
  intros Hk. cbn [base64_loop]. unfold sextet. rewrite sextet_land by done.
  destruct (position_ok _ (sextet_val_range n k)) as (Hp & He & _). rewrite He, Hp. done.
Qed.

(** The four characters of a block, by the bits left over from the last one. *)
Lemma base64_step0 n r buf : base64_loop (String (sextet n 18) r) buf 0 = base64_loop r (push6 buf (sextet_val n 18)) 6.
Proof. by rewrite base64_step. Qed.
Lemma base64_step6 n r buf : base64_loop (String (sextet n 12) r) buf 6 =
  String (as_u8 (Z.shiftr (push6 buf (sextet_val n 12)) 4)) <$> base64_loop r (push6 buf (sextet_val n 12)) 4.
Proof. by rewrite base64_step. Qed.
Lemma base64_step4 n r buf : base64_loop (String (sextet n 6) r) buf 4 =
  String (as_u8 (Z.shiftr (push6 buf (sextet_val n 6)) 2)) <$> base64_loop r (push6 buf (sextet_val n 6)) 2.
Proof. by rewrite base64_step. Qed.
Lemma base64_step2 n r buf : base64_loop (String (sextet n 0) r) buf 2 =
  String (as_u8 (Z.shiftr (push6 buf (sextet_val n 0)) 0)) <$> base64_loop r (push6 buf (sextet_val n 0)) 0.
Proof. by rewrite base64_step. Qed.
Lemma base64_pad r buf bits : base64_loop (String "="%char r) buf bits = Some EmptyString.
Proof. done. Qed.

Lemma as_u8_mod x c : x mod 256 = byte_val c -> as_u8 x = c.
Proof. apply as_u8_byte_val. Qed.

(** What the accumulator holds after each character of a block. *)
Lemma block_bytes n buf :
  0 <= n < 2 ^ 24 -> 0 <= buf ->
  let b1 := push6 buf (sextet_val n 18) in let b2 := push6 b1 (sextet_val n 12) in
  let b3 := push6 b2 (sextet_val n 6) in let b4 := push6 b3 (sextet_val n 0) in
  0 <= b4 /\ Z.shiftr b2 4 mod 256 = n / 65536 /\ Z.shiftr b3 2 mod 256 = n / 256 mod 256 /\ Z.shiftr b4 0 mod 256 = n mod 256.
Proof.
  intros Hn Hb b1 b2 b3 b4.
  destruct (push6_mod buf (sextet_val n 18)) as [H1 M1]; [done|apply sextet_val_range|]. fold b1 in H1, M1.
  destruct (push6_mod b1 (sextet_val n 12)) as [H2 M2]; [done|apply sextet_val_range|]. fold b2 in H2, M2.
  destruct (push6_mod b2 (sextet_val n 6)) as [H3 M3]; [done|apply sextet_val_range|]. fold b3 in H3, M3.
  destruct (push6_mod b3 (sextet_val n 0)) as [H4 M4]; [done|apply sextet_val_range|]. fold b4 in H4, M4.
  clearbody b1 b2 b3 b4. rewrite !Z.shiftr_div_pow2 by lia. unfold sextet_val in *.
  change (2 ^ 18) with 262144 in *. change (2 ^ 12) with 4096 in *. change (2 ^ 6) with 64 in *. change (2 ^ 0) with 1 in *.
  change (2 ^ 4) with 16. change (2 ^ 2) with 4. change (2 ^ 24) with 16777216 in Hn.
  split; [done|]. split_and!; Z.to_euclidean_division_equations; lia.
Qed.

Lemma base64_loop_encode s buf : 0 <= buf -> base64_loop (encode s) buf 0 = Some s.
Proof.
  revert buf. induction s as [|a|a b|a b c s IH] using str_ind3; intros buf Hb; [done|..];
    cbn [encode]; pose proof (byte_val_range a); try pose proof (byte_val_range b); try pose proof (byte_val_range c);
    rewrite word24_value by lia; set (n := (_ * 256 + _) * 256 + _);
    (destruct (block_bytes n buf) as (H4 & Ha & Hb' & Hc'); [unfold n; lia|done|]);
    rewrite base64_step0, base64_step6, ?base64_step4, ?base64_step2, ?base64_pad, ?IH by done;
    cbn [fmap option_fmap option_map]; f_equal; repeat f_equal; apply as_u8_mod;
    rewrite ?Ha, ?Hb', ?Hc'; unfold n; Z.to_euclidean_division_equations; lia.
Qed.

Lemma base64_decode_encode s : base64_decode (encode s) = Some s.
Proof. by apply base64_loop_encode. Qed.

(** * Credentials *)

Lemma ascii_char c : byte_val c < 128 -> char_ok (String c EmptyString).
Proof.
  intros Hc. apply (pieces_char_ok (String c EmptyString)). cbn [pieces].
  assert (width c = 1%nat) as ->; [|left].
  unfold width, byte_in. pose proof (byte_val_range c). repeat case_match; bool_hyps; lia.
Qed.

(** A text of ASCII characters that are no white space is its own trimming. *)
Definition plain (c : ascii) : Prop := byte_val c < 128 /\ is_whitespace (String c EmptyString) = false.

Lemma drop_while_none f l : Forall (fun c => f c = false) l -> drop_while f l = l.
Proof. by destruct 1 as [|c l Hc _]; cbn; rewrite ?Hc. Qed.

Lemma str_concat_singles s : str_concat (map (fun c => String c EmptyString) (String.list_ascii_of_string s)) = s.
Proof. induction s as [|c s IH]; cbn in *; [done|]. by rewrite IH. Qed.

Lemma trim_plain s : Forall plain (String.list_ascii_of_string s) -> trim s = s.
Proof.
  intros Hs. unfold trim.
  assert (chars s = map (fun c => String c EmptyString) (String.list_ascii_of_string s)) as ->.
  { rewrite <- (str_concat_singles s) at 1. apply chars_concat, Forall_map.
    eapply Forall_impl; [done|]. intros c [Hc _]. by apply ascii_char. }
  set (l := map _ _). assert (Forall (fun c => is_whitespace c = false) l) as Hl.
  { apply Forall_map. eapply Forall_impl; [done|]. by intros c [_ Hc]. }
  rewrite (drop_while_none _ l) by done. rewrite drop_while_none by by apply Forall_rev.
  rewrite rev_involutive. apply str_concat_singles.
Qed.

Lemma sextet_plain n k : 0 <= k -> plain (sextet n k).
Proof.
  intros Hk. unfold sextet. rewrite sextet_land by done.
  by destruct (position_ok _ (sextet_val_range n k)) as (_ & _ & Hb & Hw).
Qed.

Lemma encode_plain s : Forall plain (String.list_ascii_of_string (encode s)).
Proof.
  assert (plain "="%char) by by split; vm_compute.
  induction s as [|a|a b|a b c s IH] using str_ind3; cbn [encode String.list_ascii_of_string];
    repeat (apply Forall_cons; split; [first [done|apply sextet_plain; lia]|]); done.
Qed.

Lemma find_skip (f : string * string -> bool) hs h hs' :
  Forall (fun h => f h = false) hs -> f h = true -> List.find f (hs ++ h :: hs') = Some h.
Proof. induction 1 as [|x hs Hx _ IH]; cbn; intros Hh; [by rewrite Hh|]. by rewrite Hx, IH. Qed.

(** A workload that was handed a proxy URL authenticates with it: whatever the request,
    its first Proxy-Authorization header, Basic with the URL's user name and token in base64,
    is read back by the proxy as exactly that token, for every token that is valid UTF-8. *)
Theorem credentials_roundtrip m t v hs hs' token :
  utf8_valid ("ak:" +:+ token) = true -> token <> EmptyString ->
  Forall (fun h => h.1 <> "proxy-authorization") hs ->
  bearer_token (mkHead m t v (hs ++ ("proxy-authorization", "Basic " +:+ encode ("ak:" +:+ token)) :: hs')) = Some token.
Proof.
  intros Hu Ht Hhs. unfold bearer_token. cbn [headers]. rewrite find_skip; [|by eapply Forall_impl; [done|]; intros h Hh; apply String.eqb_neq|done].
  cbn [fmap option_fmap option_map snd mbind option_bind]. 
  rewrite (proj2 (strip_prefix_Some "Basic " _ (encode ("ak:" +:+ token))) eq_refl). cbn [mbind option_bind].
  rewrite trim_plain by apply encode_plain. rewrite base64_decode_encode. cbn [mbind option_bind].
  rewrite Hu. cbn. by destruct token.
Qed.

Lemma credentials_roundtrip_witness :
  bearer_token (mkHead "GET" "http://a/" "HTTP/1.1"
    ([("host", "a")] ++ ("proxy-authorization", "Basic " +:+ encode ("ak:" +:+ "eg-7")) :: [])) = Some "eg-7".
Proof.
  apply (credentials_roundtrip "GET" "http://a/" "HTTP/1.1" [("host", "a")] [] "eg-7"); [by vm_compute|done|].
  by apply Forall_cons; split.
Defined.
