(* ===== verification/EgressProxy.v ===== *)
(** The running egress proxy of [backends/local/src/egress.rs]: grants,
    connections and tunnels over their shared state, interleaved in any order.

    A session's byte counter and revocation flag are cells.  The threads of
    the proxy are the connection handlers of [Egress], the forwarding of a
    plain request, and tunnels with their two copying directions, cut at every
    atomic access and every await.  [step] makes one move of one thread, with
    the environment's answer as its label; [c_moved] and [px_log] are ghost
    state: the bytes reported written, and what was authenticated, resolved
    and dialled. *)

From stdpp Require Import pretty.
From S2P Require Import Prelude B64 Utf8 Glob Net Auth IpText KernelText Egress.

Open Scope Z_scope.

(** * State *)

Record Cell := mkCell {
  c_session : Session;
  c_used : Z;                         (* AtomicU64 *)
  c_revoked : bool;
  c_moved : Z;
}.

Definition set_used (n : Z) (c : Cell) : Cell := mkCell (c_session c) n (c_revoked c) (c_moved c).
Definition set_revoked (c : Cell) : Cell := mkCell (c_session c) (c_used c) true (c_moved c).
Definition add_moved (n : Z) (c : Cell) : Cell := mkCell (c_session c) (c_used c) (c_revoked c) (c_moved c + n).

(** One direction of a tunnel, by what it does next. *)
Inductive Dir :=
| DTop
| DReading
| DRecheck (buf : string)
| DLoad (buf : string)
| DCas (buf : string) (current : Z)
| DWrite (buf : string) (granted written : Z)
| DDrop (buf : string) (granted written : Z)
| DDone.

(** The forwarding of a plain request. *)
Inductive Fwd :=
| FLoad
| FCas (current : Z)
| FRevoked
| FConnect
| FTop (written : Z)
| FWrite (written : Z)
| FDrop (written : Z).

Inductive Thread :=
| THandle (p : prog Outcome)
| TForward (s : Session) (addr : SocketAddr) (out : string) (pc : Fwd)
| TTunnel (s : Session) (up down : Dir)
| TDone.

Inductive Event :=
| WAuth (i : nat) (s : Session)
| WResolved (i : nat) (host : string) (port : Z) (ips : list IpAddr)
| WDialled (i : nat) (s : Session) (addr : SocketAddr).

Record Proxy := mkProxy {
  px_config : EgressConfig;
  px_sessions : gmap string Session;
  px_cells : gmap string Cell;
  px_threads : list Thread;
  px_log : list Event;
}.

Definition start (cfg : EgressConfig) : Proxy := mkProxy cfg ∅ ∅ [] [].

Definition set_cell (tok : string) (c : Cell) (px : Proxy) : Proxy :=
  mkProxy (px_config px) (px_sessions px) (<[tok := c]> (px_cells px)) (px_threads px) (px_log px).
Definition set_thread (i : nat) (t : Thread) (px : Proxy) : Proxy :=
  mkProxy (px_config px) (px_sessions px) (px_cells px) (<[i := t]> (px_threads px)) (px_log px).
Definition add_event (e : Event) (px : Proxy) : Proxy :=
  mkProxy (px_config px) (px_sessions px) (px_cells px) (px_threads px) (px_log px ++ [e]).

(** * Grants *)

Definition proxy_url_via (token : string) (port : Z) : string :=
  "http://ak:" +:+ token +:+ "@127.0.0.1:" +:+ pretty port.
Definition socks_proxy_url_via (token : string) (port : Z) : string :=
  "socks5h://ak:" +:+ token +:+ "@127.0.0.1:" +:+ pretty port.

(** The session of a grant; [token] is the fresh one. *)
Definition grant_session (token : string) (domains : list string) (cap : Z) : Session :=
  mkSession token (map normal_host domains) cap.

Definition grant (token : string) (domains : list string) (cap : Z) (px : Proxy) : option Proxy :=
  if bool_decide (px_cells px !! token = None) && (0 <=? cap) && (cap <=? u64_max) then
    let s := grant_session token domains cap in
    Some (mkProxy (px_config px) (<[token := s]> (px_sessions px))
            (<[token := mkCell s 0 false 0]> (px_cells px)) (px_threads px) (px_log px))
  else None.

Definition used_bytes (token : string) (px : Proxy) : option Z := c_used <$> px_cells px !! token.

(** Dropping a grant: the flag first, then the table. *)
Definition drop_flag (token : string) (px : Proxy) : option Proxy :=
  c ← px_cells px !! token; Some (set_cell token (set_revoked c) px).

Definition drop_remove (token : string) (px : Proxy) : option Proxy :=
  c ← px_cells px !! token;
  if c_revoked c
  then Some (mkProxy (px_config px) (delete token (px_sessions px)) (px_cells px) (px_threads px) (px_log px))
  else None.

Definition accept (px : Proxy) : Proxy :=
  mkProxy (px_config px) (px_sessions px) (px_cells px)
    (px_threads px ++ [THandle (handle_connection (px_config px))]) (px_log px).

(** * Reservations *)

(** What a turn of the loop of [reserve_up_to] asks for. *)
Definition up_to (cap current : Z) (wanted : Z) : Z := Z.min (saturating_sub_int cap current) wanted.

Definition len (s : string) : Z := Z.of_nat (String.length s).

(** [fetch_sub]. *)
Definition fetch_sub (n : Z) (c : Cell) : Cell := set_used ((c_used c - n) mod 2 ^ 64) c.

(** The drop of a reservation with [uncommitted] bytes left. *)
Definition refund (uncommitted : Z) (c : Cell) : Cell :=
  if 0 <? uncommitted then fetch_sub uncommitted c else c.

Definition uncommitted (d : Dir) : Z :=
  match d with DWrite _ granted written | DDrop _ granted written => granted - written | _ => 0 end.

Definition fwd_uncommitted (out : string) (f : Fwd) : Z :=
  match f with
  | FLoad | FCas _ => 0
  | FRevoked | FConnect => len out
  | FTop w | FWrite w | FDrop w => len out - w
  end.

(** * Moves *)

(** The environment's part of a move. *)
Inductive Input :=
| IBytes (o : option string)
| IFlag (b : bool)
| IAddrs (o : option (list IpAddr))
| ICount (n : Z)
| IGo.

(** [copy_counted]: a compare-exchange may fail for no reason ([IFlag false]). *)
Definition dir_step (c : Cell) (d : Dir) (inp : Input) : option (Cell * Dir) :=
  match d, inp with
  | DTop, IGo => Some (c, if c_revoked c then DDone else DReading)
  | DReading, IBytes None => Some (c, DDone)
  | DReading, IBytes (Some buf) =>
      if 8192 <? len buf then None else Some (c, if str_is_empty buf then DDone else DRecheck buf)
  | DRecheck buf, IGo => Some (c, if c_revoked c then DDone else DLoad buf)
  | DLoad buf, IGo => Some (c, DCas buf (c_used c))
  | DCas buf current, IFlag b =>
      let granted := up_to (ses_cap (c_session c)) current (len buf) in
      if granted =? 0 then Some (c, DDone)
      else if (c_used c =? current) && b
      then Some (set_used (current + granted) c, DWrite buf granted 0)
      else Some (c, DCas buf (c_used c))
  | DWrite buf granted written, ICount n =>
      if n =? 0 then Some (c, DDrop buf granted written)
      else if (0 <? n) && (n <=? granted - written) then
        let written := written + n in
        Some (add_moved n c, if written <? granted then DWrite buf granted written else DDrop buf granted written)
      else None
  | DDrop buf granted written, IGo =>
      Some (refund (granted - written) c, if written <? len buf then DDone else DTop)
  | _, _ => None
  end.

(** The part of [handle_connection] after the request is rewritten; the dialled
    address is reported. *)
Definition fwd_step (c : Cell) (out : string) (f : Fwd) (inp : Input) : option (Cell * option Fwd * bool) :=
  let cap := ses_cap (c_session c) in
  match f, inp with
  | FLoad, IGo => Some (c, Some (FCas (c_used c)), false)
  | FCas current, IFlag b =>
      if saturating_sub_int cap current <? len out then Some (c, None, false)
      else if (c_used c =? current) && b
      then Some (set_used (current + len out) c, Some FRevoked, false)
      else Some (c, Some (FCas (c_used c)), false)
  | FRevoked, IGo => Some (c, Some (if c_revoked c then FDrop 0 else FConnect), false)
  | FConnect, IFlag b => Some (c, Some (if b then FTop 0 else FDrop 0), true)
  | FTop w, IGo => Some (c, Some (if (w <? len out) && negb (c_revoked c) then FWrite w else FDrop w), false)
  | FWrite w, ICount n =>
      if n =? 0 then Some (c, Some (FDrop w), false)
      else if (0 <? n) && (n <=? len out - w) then Some (add_moved n c, Some (FTop (w + n)), false)
      else None
  | FDrop w, IGo => Some (refund (len out - w) c, None, false)
  | _, _ => None
  end.

(** A forwarding that has ended opens a tunnel when the whole request went out. *)
Definition after_forward (s : Session) (out : string) (f : Fwd) : Thread :=
  match f with FDrop w => if w =? len out then TTunnel s DTop DTop else TDone | _ => TDone end.

Definition after_handler (o : Outcome) : Thread :=
  match o with
  | Closed => TDone
  | Tunnel s _ => TTunnel s DTop DTop
  | Forward s addr out => TForward s addr out FLoad
  end.

(** One interaction of a handler: the events it leaves and what follows. *)
Definition prog_step (px : Proxy) (i : nat) (p : prog Outcome) (inp : Input) : option (list Event * Thread) :=
  match p, inp with
  | Ret o, IGo => Some ([], after_handler o)
  | ReadExact n k, IBytes o =>
      if match o with Some s => Nat.eqb (String.length s) n | None => true end then Some ([], THandle (k o)) else None
  | Write _ k, IFlag b => Some ([], THandle (k b))
  | GetSession tok k, IGo =>
      let o := px_sessions px !! tok in
      Some (match o with Some s => [WAuth i s] | None => [] end, THandle (k o))
  | LoadRevoked s k, IGo => c ← px_cells px !! ses_token s; Some ([], THandle (k (c_revoked c)))
  | LoadUsed s k, IGo => c ← px_cells px !! ses_token s; Some ([], THandle (k (c_used c)))
  | LookupHost h port k, IAddrs o =>
      Some (match o with Some ips => [WResolved i h port ips] | None => [] end, THandle (k o))
  | Connect s addr k, IFlag b => Some ([WDialled i s addr], THandle (k b))
  | _, _ => None
  end.

(** The tunnel's [select!]: a direction that ended cancels the other, whose
    reservation is dropped. *)
Definition cancelled (up down : Dir) : option Dir :=
  match up, down with DDone, d => Some d | d, DDone => Some d | _, _ => None end.

Inductive Label :=
| LGrant (token : string) (domains : list string) (cap : Z)
| LFlag (token : string)
| LRemove (token : string)
| LAccept
| LHandle (i : nat) (inp : Input)
| LUp (i : nat) (inp : Input)
| LDown (i : nat) (inp : Input)
| LSelect (i : nat).

Definition handle_step (px : Proxy) (i : nat) (inp : Input) : option Proxy :=
  t ← px_threads px !! i;
  match t with
  | THandle p =>
      '(es, t') ← prog_step px i p inp;
      Some (set_thread i t' (foldl (fun px e => add_event e px) px es))
  | TForward s addr out f =>
      c ← px_cells px !! ses_token s;
      '(c', f', dialled) ← fwd_step c out f inp;
      let px := set_cell (ses_token s) c' px in
      let px := if (dialled : bool) then add_event (WDialled i s addr) px else px in
      Some (set_thread i match f' with Some f' => TForward s addr out f' | None => after_forward s out f end px)
  | _ => None
  end.

Definition tunnel_step (px : Proxy) (i : nat) (is_up : bool) (inp : Input) : option Proxy :=
  t ← px_threads px !! i;
  match t with
  | TTunnel s up down =>
      c ← px_cells px !! ses_token s;
      '(c', d') ← dir_step c (if is_up then up else down) inp;
      Some (set_thread i (if is_up then TTunnel s d' down else TTunnel s up d') (set_cell (ses_token s) c' px))
  | _ => None
  end.

Definition select_step (px : Proxy) (i : nat) : option Proxy :=
  t ← px_threads px !! i;
  match t with
  | TTunnel s up down =>
      other ← cancelled up down;
      c ← px_cells px !! ses_token s;
      Some (set_thread i TDone (set_cell (ses_token s) (refund (uncommitted other) c) px))
  | _ => None
  end.

Definition step (px : Proxy) (l : Label) : option Proxy :=
  match l with
  | LGrant tok domains cap => grant tok domains cap px
  | LFlag tok => drop_flag tok px
  | LRemove tok => drop_remove tok px
  | LAccept => Some (accept px)
  | LHandle i inp => handle_step px i inp
  | LUp i inp => tunnel_step px i true inp
  | LDown i inp => tunnel_step px i false inp
  | LSelect i => select_step px i
  end.

Definition moves (px px' : Proxy) : Prop := exists l, step px l = Some px'.
