(* ===== verification/EgressSafety.v ===== *)
(** What the egress proxy guarantees under every interleaving: where it dials,
    how many bytes it moves, and what revocation stops.

    [wp] is a weakest precondition over the interaction trees of the handlers:
    it keeps the sessions a handler has looked up and the answers of the
    resolver, and knows a set of tokens whose revocation flag is set. *)

From S2P Require Import Prelude B64 Utf8 Glob Net Auth IpText KernelText Egress EgressProxy.

Open Scope Z_scope.

(** * A logic for handlers *)

Definition Answer : Type := string * Z * list IpAddr.

(** The host is named, covered by the session and resolved to public addresses
    only, of which the first is dialled on an allowed port. *)
Definition vetted (cfg : EgressConfig) (res : list Answer) (s : Session) (addr : SocketAddr) : Prop :=
  exists host ips,
    (host, addr_port addr, addr_ip addr :: ips) ∈ res
    /\ existsb (fun g => glob_match g host) (ses_domains s) = true
    /\ parse_ip host = None
    /\ Forall (fun ip => addr_refused cfg ip = false) (addr_ip addr :: ips)
    /\ (port_allowed cfg (addr_port addr) || danger_allow_loopback cfg && is_loopback (addr_ip addr)) = true.

Definition validated (cfg : EgressConfig) (auth : list Session) (res : list Answer) (s : Session)
    (addr : SocketAddr) : Prop :=
  s ∈ auth /\ addr_port addr <> 0
  /\ (vetted cfg res s addr \/ danger_allow_loopback cfg = true /\ is_loopback (addr_ip addr) = true).

Section wp.
Context (cfg : EgressConfig) (dead : gset string).

Fixpoint wp {A} (auth : list Session) (res : list Answer) (p : prog A)
    (Q : list Session -> list Answer -> A -> Prop) : Prop :=
  match p with
  | Ret a => Q auth res a
  | ReadExact _ k => forall o, wp auth res (k o) Q
  | Write _ k => forall b, wp auth res (k b) Q
  | GetSession tok k =>
      wp auth res (k None) Q /\ forall s, ses_token s = tok -> wp (auth ++ [s]) res (k (Some s)) Q
  | LoadRevoked s k =>
      s ∈ auth /\ wp auth res (k true) Q /\ (ses_token s ∉ dead -> wp auth res (k false) Q)
  | LoadUsed s k => s ∈ auth /\ forall n, wp auth res (k n) Q
  | LookupHost h port k =>
      wp auth res (k None) Q /\ forall ips, wp auth (res ++ [(h, port, ips)]) (k (Some ips)) Q
  | Connect s addr k =>
      (ses_token s ∉ dead) /\ validated cfg auth res s addr /\ forall b, wp auth res (k b) Q
  end.

Lemma wp_bind {A A'} (p : prog A) (f : A -> prog A') auth res Q :
  wp auth res p (fun auth res a => wp auth res (f a) Q) -> wp auth res (p ≫= f) Q.
Proof.
  revert auth res. induction p; cbn; intros auth res; try by (intros; auto).
  - intros [Hn Hs]. split; [by apply H|]. intros s Hst. by apply H, Hs.
  - intros (Hin & Ht & Hf). split_and!; [done|by apply H|]. intros. by apply H, Hf.
  - intros [Hin Hn]. split; [done|]. intros. by apply H.
  - intros [Hn Hs]. split; [by apply H|]. intros. by apply H, Hs.
  - intros (Hd & Hv & Hk). split_and!; [done|done|]. intros. by apply H.
Qed.

Lemma wp_mono {A} (p : prog A) auth res (Q Q' : list Session -> list Answer -> A -> Prop) :
  (forall auth res a, Q auth res a -> Q' auth res a) -> wp auth res p Q -> wp auth res p Q'.
Proof.
  intros HQ. revert auth res. induction p; cbn; intros auth res; try by (intros; auto).
  - intros [Hn Hs]. split; [by apply H|]. intros s Hst. by apply H, Hs.
  - intros (Hin & Ht & Hf). split_and!; [done|by apply H|]. intros. by apply H, Hf.
  - intros [Hin Hn]. split; [done|]. intros. by apply H.
  - intros [Hn Hs]. split; [by apply H|]. intros. by apply H, Hs.
  - intros (Hd & Hv & Hk). split_and!; [done|done|]. intros. by apply H.
Qed.

(** What a handler may end in. *)
Definition ends (auth : list Session) (res : list Answer) (o : Outcome) : Prop :=
  match o with
  | Closed => True
  | Tunnel s _ => s ∈ auth /\ (ses_token s ∉ dead)
  | Forward s addr _ => (ses_token s ∉ dead) /\ validated cfg auth res s addr
  end.

Lemma wp_close auth res status extra : wp auth res (close_with status extra) ends.
Proof. by cbn. Qed.

Lemma wp_refused auth res e : wp auth res (target_refused e) ends.
Proof. by destruct e; cbn. Qed.

Lemma wp_socks5_close auth res r : wp auth res (socks5_close r) ends.
Proof. by cbn. Qed.

Lemma wp_read_head todo head auth res : wp auth res (read_head_from todo head) (fun auth' res' _ => auth' = auth /\ res' = res).
Proof.
  revert head. induction todo as [|todo IH]; intros head; cbn; [done|].
  intros [b|]; cbn; [|done]. case_match; [done|apply IH].
Qed.

Lemma wp_validate host port s auth res :
  s ∈ auth ->
  wp auth res (validate_target host port s cfg) (fun auth' res' r =>
    auth' = auth /\ match r with Ok addr => validated cfg auth' res' s addr | Err _ => True end).
Proof.
  intros Hs. unfold validate_target. case_match eqn:E1; [done|]. apply orb_false_iff in E1 as [_ Hp%Z.eqb_neq].
  case_match; [done|]. case_match eqn:Ec; [done|]. apply negb_false_iff in Ec. case_match eqn:Ep.
  - cbn. split; [done|]. destruct (danger_allow_loopback cfg && is_loopback i) eqn:El; [|by destruct (negb _)].
    apply andb_true_iff in El. split_and!; [done|done|]. by right.
  - cbn [wp]. split; [done|]. intros ips. split; [done|]. destruct ips as [|ip ips]; [done|].
    destruct (existsb (addr_refused cfg) _) eqn:Er; [done|]. destruct (negb (_ || _)) eqn:Ea; [done|]. apply negb_false_iff in Ea.
    split_and!; [done|done|]. left. exists (normal_host host), ips. split_and!; [|done|done| |done].
    { apply elem_of_app. right. by apply list_elem_of_singleton. }
    apply Forall_forall. intros x Hx. apply not_true_is_false. intros Hr.
    apply not_true_iff_false in Er. apply Er, existsb_exists. exists x. split; [by apply list_elem_of_In|done].
Qed.

(** The calls between a vetted address and an open tunnel, of both protocols. *)
Lemma wp_dial auth res s addr (fail : prog Outcome) reply :
  validated cfg auth res s addr -> wp auth res fail ends ->
  wp auth res
    (LoadRevoked s (fun revoked => if (revoked : bool) then Ret Closed else
     Connect s addr (fun up => if negb up then fail else
     LoadRevoked s (fun revoked => if (revoked : bool) then Ret Closed else
     Write reply (fun ok => Ret (if (ok : bool) then Tunnel s addr else Closed)))))) ends.
Proof.
  intros Hv Hf. pose proof (proj1 Hv) as Hs. cbn. split_and!; [done|done|]. intros Hd.
  split_and!; [done|done|]. intros [|]; cbn; [|done]. split_and!; [done|done|]. intros _ [|]; done.
Qed.

Lemma wp_handle_connect req s auth res : s ∈ auth -> wp auth res (handle_connect cfg req s) ends.
Proof.
  intros Hs. unfold handle_connect. case_match; [|by apply wp_close]. destruct p as [host port].
  apply wp_bind. eapply wp_mono; [|by apply wp_validate]. intros auth' res' [addr|e] [-> Hv].
  - apply wp_dial; [done|by apply wp_close].
  - apply wp_refused.
Qed.

Lemma wp_handle_absolute req s auth res :
  s ∈ auth -> ses_token s ∉ dead -> wp auth res (handle_absolute cfg req s) ends.
Proof.
  intros Hs Hd. unfold handle_absolute. case_match; [|by apply wp_close]. case_match.
  case_match; [|by apply wp_close]. destruct p as [host port].
  apply wp_bind. eapply wp_mono; [|by apply wp_validate]. intros auth' res' [addr|e] [-> Hv]; [done|apply wp_refused].
Qed.

Lemma wp_handle_http first : wp [] [] (handle_http cfg first) ends.
Proof.
  apply wp_bind. eapply wp_mono; [|apply wp_read_head]. intros auth res [head|] [-> ->]; [|done].
  case_match; [|by apply wp_close]. apply wp_bind.
  assert (forall s, wp [s] [] (LoadRevoked s (fun revoked =>
                if (revoked : bool) then close_with "407 Proxy Authentication Required" "" else
              LoadUsed s (fun used =>
                if ses_cap s <=? used then close_with "403 Forbidden" "" else
              if eq_ignore_ascii_case (method r) "CONNECT" then handle_connect cfg r s
              else handle_absolute cfg r s))) ends) as Hgo.
  { intros s. assert (s ∈ [s]) as Hs by by apply list_elem_of_singleton.
    cbn [wp]. split_and!; [done|apply wp_close|]. intros Hd. split; [done|]. intros n.
    case_match; [apply wp_close|]. case_match; [by apply wp_handle_connect|by apply wp_handle_absolute]. }
  destruct (bearer_token r); [|apply wp_close]. cbn [wp]. split; [apply wp_close|]. intros s0 _. apply Hgo.
Qed.

(** ** SOCKS5 *)

(** The result of the handshake: a session that was looked up and found valid. *)
Definition shook (auth : list Session) (res : list Answer) (o : option (Session * string * Z)) : Prop :=
  match o with None => True | Some (s, _, _) => s ∈ auth /\ (ses_token s ∉ dead) end.

Lemma wp_socks5_host atyp auth res :
  wp auth res (socks5_host atyp) (fun auth' res' _ => auth' = auth /\ res' = res).
Proof.
  unfold socks5_host. repeat (case_match; [cbn; intros [b|]; [|done]; cbn; try done|]); [|by intros [|]].
  case_match; [by intros [|]|]. intros [d|]; [|done]. case_match; [done|by intros [|]].
Qed.

Lemma wp_socks5_request s auth res :
  s ∈ auth -> (ses_token s ∉ dead) -> wp auth res (socks5_request s) shook.
Proof.
  intros Hs Hd. cbn. intros [b|]; [|done]. case_match; [by intros [|]|].
  apply wp_bind. eapply wp_mono; [|apply wp_socks5_host]. intros auth' res' [host|] [-> ->]; [|done].
  cbn. by intros [|].
Qed.

Lemma wp_socks5_session username password :
  wp [] [] (socks5_session username password) (fun auth res o =>
    match o with None => True | Some s => s ∈ auth /\ (ses_token s ∉ dead) end).
Proof.
  unfold socks5_session. case_match; [|done]. cbn. split; [done|]. intros s _.
  assert (s ∈ [s]) by by apply list_elem_of_singleton. done.
Qed.

(** A handler that has closed its connection. *)
Ltac stops := first [done|intros [|]; done].

Lemma wp_socks5_handshake : wp [] [] socks5_handshake shook.
Proof.
  unfold socks5_handshake, need, need_str, send, refuse.
  cbn [wp]. intros [nm|]; [|done]. case_match; [stops|]. intros [ms|]; [|done]. case_match; [stops|].
  intros [|]; [|done]. intros [ah|]; [|done]. case_match; [stops|]. intros [u|]; [|done].
  intros [pl|]; [|done]. case_match; [stops|]. intros [pw|]; [|done].
  apply wp_bind. eapply wp_mono; [|apply wp_socks5_session]. intros auth res [s|]; [|intros _ [|]; done].
  intros [Hs Hd] [|]; [|done]. by apply wp_socks5_request.
Qed.

Lemma wp_handle_socks5 : wp [] [] (handle_socks5 cfg) ends.
Proof.
  apply wp_bind. eapply wp_mono; [|apply wp_socks5_handshake]. intros auth res [[[s host] port]|]; [|done].
  intros [Hs Hd]. split; [done|]. intros n. case_match; [apply wp_socks5_close|].
  apply wp_bind. eapply wp_mono; [|by apply wp_validate]. intros auth' res' [addr|[]] [-> Hv];
    [|apply wp_socks5_close..]. apply wp_dial; [done|apply wp_socks5_close].
Qed.

Lemma wp_handle_connection : wp [] [] (handle_connection cfg) ends.
Proof. intros [first|]; [|done]. case_match; [apply wp_handle_socks5|apply wp_handle_http]. Qed.
End wp.

(** * The invariant of the running proxy *)

Definition auth_of (i : nat) (log : list Event) : list Session :=
  omap (fun e => match e with WAuth j s => if decide (j = i) then Some s else None | _ => None end) log.

Definition res_of (i : nat) (log : list Event) : list Answer :=
  omap (fun e => match e with
                 | WResolved j h port ips => if decide (j = i) then Some (h, port, ips) else None
                 | _ => None
                 end) log.

Definition event_thread (e : Event) : nat :=
  match e with WAuth i _ | WResolved i _ _ _ | WDialled i _ _ => i end.

Definition dir_ok (d : Dir) : Prop :=
  match d with
  | DRecheck buf | DLoad buf => len buf <= 8192
  | DCas buf current => len buf <= 8192 /\ 0 <= current
  | DWrite buf granted written | DDrop buf granted written => 0 <= written <= granted /\ granted <= len buf <= 8192
  | _ => True
  end.

Definition fwd_ok (out : string) (f : Fwd) : Prop :=
  match f with
  | FCas current => 0 <= current
  | FTop w | FWrite w | FDrop w => 0 <= w <= len out
  | _ => True
  end.

Definition thread_ok (cfg : EgressConfig) (log : list Event) (i : nat) (t : Thread) : Prop :=
  match t with
  | THandle p => wp cfg ∅ (auth_of i log) (res_of i log) p (ends cfg ∅)
  | TForward s addr out f => validated cfg (auth_of i log) (res_of i log) s addr /\ fwd_ok out f
  | TTunnel s up down => s ∈ auth_of i log /\ dir_ok up /\ dir_ok down
  | TDone => True
  end.

(** The bytes a thread has reserved from a session and not yet written. *)
Definition pending (tok : string) (t : Thread) : Z :=
  match t with
  | TForward s _ out f => if String.eqb (ses_token s) tok then fwd_uncommitted out f else 0
  | TTunnel s up down => if String.eqb (ses_token s) tok then uncommitted up + uncommitted down else 0
  | _ => 0
  end.

Fixpoint total (f : Thread -> Z) (ts : list Thread) : Z :=
  match ts with [] => 0 | t :: ts => f t + total f ts end.

Record cell_ok (ts : list Thread) (tok : string) (c : Cell) : Prop := {
  cell_token : ses_token (c_session c) = tok;
  cell_cap : ses_cap (c_session c) <= u64_max;
  cell_moved : 0 <= c_moved c;
  cell_charge : c_used c = c_moved c + total (pending tok) ts;
  cell_bound : c_used c <= ses_cap (c_session c);
}.

(** The session is one the proxy granted. *)
Definition granted (px : Proxy) (s : Session) : Prop :=
  exists c, px_cells px !! ses_token s = Some c /\ c_session c = s.

Record proxy_ok (px : Proxy) : Prop := {
  ok_cells tok c : px_cells px !! tok = Some c -> cell_ok (px_threads px) tok c;
  ok_sessions tok s : px_sessions px !! tok = Some s -> ses_token s = tok /\ granted px s;
  ok_auths i s : WAuth i s ∈ px_log px -> granted px s;
  ok_threads i t : px_threads px !! i = Some t -> thread_ok (px_config px) (px_log px) i t;
  ok_events e : e ∈ px_log px -> (event_thread e < length (px_threads px))%nat;
  ok_dials l1 i s addr l2 : px_log px = l1 ++ WDialled i s addr :: l2 ->
    validated (px_config px) (auth_of i l1) (res_of i l1) s addr;
}.

Definition is_revoked (tok : string) (px : Proxy) : Prop :=
  exists c, px_cells px !! tok = Some c /\ c_revoked c = true.

(** ** Sums over threads *)

Lemma total_insert f ts i t t' :
  ts !! i = Some t -> total f (<[i := t']> ts) = total f ts - f t + f t'.
Proof.
  revert i. induction ts as [|u ts IH]; intros [|i] Hi; csimpl; simplify_eq/=; [lia|]. rewrite (IH _ Hi). lia.
Qed.

Lemma total_app f ts us : total f (ts ++ us) = total f ts + total f us.
Proof. induction ts as [|t ts IH]; cbn; lia. Qed.

Lemma total_nonneg f ts : Forall (fun t => 0 <= f t) ts -> 0 <= total f ts.
Proof. induction 1; cbn; lia. Qed.

Lemma total_lookup f ts i t : Forall (fun t => 0 <= f t) ts -> ts !! i = Some t -> f t <= total f ts.
Proof.
  intros Hf. revert i. induction Hf as [|u ts Hu Hts IH]; intros [|i] Hi; simplify_eq/=.
  - pose proof (total_nonneg f ts Hts). lia.
  - specialize (IH i Hi). lia.
Qed.

(** ** Reservations *)

(** The bytes of [d] not written are charged, besides [rest] held by others. *)
Definition charged (c : Cell) (own rest : Z) : Prop :=
  0 <= c_moved c /\ c_used c = c_moved c + own + rest /\ c_used c <= ses_cap (c_session c).

Lemma refund_charged c own rest :
  0 <= own -> 0 <= rest -> ses_cap (c_session c) <= u64_max -> charged c own rest -> charged (refund own c) 0 rest.
Proof.
  intros Ho Hr Hc (Hm & Hu & Hb). unfold refund. destruct (Z.ltb_spec 0 own); [|unfold charged; lia].
  unfold charged. cbn. rewrite Z.mod_small; [lia|]. unfold u64_max in *. lia.
Qed.

Lemma refund_session n c : c_session (refund n c) = c_session c /\ c_revoked (refund n c) = c_revoked c
  /\ c_moved (refund n c) = c_moved c.
Proof. unfold refund. by case_match. Qed.

Lemma len_nonneg s : 0 <= len s.
Proof. unfold len. lia. Qed.
#[export] Hint Resolve len_nonneg : ak.

Lemma dir_unc_nonneg d : dir_ok d -> 0 <= uncommitted d.
Proof. destruct d; cbn; lia. Qed.

Lemma fwd_unc_nonneg out f : fwd_ok out f -> 0 <= fwd_uncommitted out f.
Proof. pose proof (len_nonneg out). destruct f; cbn; lia. Qed.

Lemma up_to_range cap current wanted :
  0 <= wanted -> up_to cap current wanted <> 0 ->
  0 < up_to cap current wanted <= wanted /\ current + up_to cap current wanted <= cap.
Proof. unfold up_to, saturating_sub_int. lia. Qed.

Lemma dir_step_charged c d inp c' d' rest :
  dir_step c d inp = Some (c', d') -> dir_ok d -> 0 <= rest -> ses_cap (c_session c) <= u64_max ->
  charged c (uncommitted d) rest ->
  c_session c' = c_session c /\ c_revoked c' = c_revoked c /\ dir_ok d' /\ charged c' (uncommitted d') rest.
Proof.
  intros Hs Hd Hr Hc Hch. assert (0 <= c_used c) as Hu0.
  { destruct Hch as (? & ? & _). apply dir_unc_nonneg in Hd. lia. }
  destruct d as [| |buf|buf|buf cur|buf g w|buf g w|], inp; cbn in Hs; try done.
  - simplify_eq. by case_match.
  - destruct o; [|by simplify_eq]. case_match eqn:El; [done|]. apply Z.ltb_ge in El. simplify_eq. by case_match.
  - simplify_eq. by case_match.
  - by simplify_eq.
  - destruct (Z.eqb_spec (up_to (ses_cap (c_session c)) cur (len buf)) 0) as [E|E]; [by simplify_eq|].
    destruct (Z.eqb_spec (c_used c) cur) as [<-|]; cbn [andb] in Hs.
    + destruct b; simplify_eq; [|by destruct Hd]. pose proof (len_nonneg buf).
      apply up_to_range in E as [Hg Hb]; [|done]. destruct Hch as (? & ? & ?), Hd. unfold charged. cbn in *. split_and!; first [done|lia].
    + simplify_eq. by destruct Hd.
  - destruct (Z.eqb_spec n 0); simplify_eq; [done|]. case_match eqn:E; [|done]. apply andb_true_iff in E as [E1 E2].
    destruct Hch as (? & ? & ?). simplify_eq. unfold charged. cbn in *.
    destruct (Z.ltb_spec (w + n) g); cbn; split_and!; first [done|lia].
  - simplify_eq. destruct (refund_session (g - w) c) as (-> & -> & _). split_and!; [done|done|by case_match|].
    replace (uncommitted _) with 0 by by case_match. apply refund_charged; [cbn in *; lia|done..].
Qed.

Lemma fwd_step_charged c out f inp c' f' dialled rest :
  fwd_step c out f inp = Some (c', f', dialled) -> fwd_ok out f -> 0 <= rest -> ses_cap (c_session c) <= u64_max ->
  charged c (fwd_uncommitted out f) rest ->
  c_session c' = c_session c /\ c_revoked c' = c_revoked c
  /\ match f' with Some f' => fwd_ok out f' /\ charged c' (fwd_uncommitted out f') rest | None => charged c' 0 rest end.
Proof.
  intros Hs Hd Hr Hc Hch. pose proof (len_nonneg out). assert (0 <= c_used c) as Hu0.
  { destruct Hch as (? & ? & _). apply fwd_unc_nonneg in Hd. lia. }
  destruct f as [|cur| | |w|w|w], inp; cbn in Hs; try done.
  - by simplify_eq.
  - destruct (Z.ltb_spec (saturating_sub_int (ses_cap (c_session c)) cur) (len out)) as [E|E]; [by simplify_eq|].
    destruct (Z.eqb_spec (c_used c) cur) as [<-|]; cbn [andb] in Hs.
    + destruct b; simplify_eq; [|done]. destruct Hch as (? & ? & ?). unfold charged, saturating_sub_int in *. cbn in *. split_and!; first [done|lia].
    + by simplify_eq.
  - simplify_eq. split; [done|split; [done|]]. destruct (c_revoked c'); cbn in *; [|done]. by rewrite Z.sub_0_r.
  - simplify_eq. split; [done|split; [done|]]. destruct b; cbn in *; rewrite Z.sub_0_r; (split; [lia|done]).
  - simplify_eq. split; [done|split; [done|]]. by case_match.
  - destruct (Z.eqb_spec n 0); simplify_eq; [done|]. case_match eqn:E; [|done]. apply andb_true_iff in E as [E1 E2].
    destruct Hch as (? & ? & ?). simplify_eq. unfold charged. cbn in *. split_and!; first [done|lia].
  - simplify_eq. destruct (refund_session (len out - w) c) as (-> & -> & _). split; [done|split; [done|]].
    apply refund_charged; [cbn in *; lia|done..].
Qed.

(** ** Logs and threads *)

Lemma auth_of_app i l1 l2 : auth_of i (l1 ++ l2) = auth_of i l1 ++ auth_of i l2.
Proof. apply omap_app. Qed.

Lemma res_of_app i l1 l2 : res_of i (l1 ++ l2) = res_of i l1 ++ res_of i l2.
Proof. apply omap_app. Qed.

Lemma other_events i es : (forall e, e ∈ es -> event_thread e <> i) -> auth_of i es = [] /\ res_of i es = [].
Proof.
  induction es as [|e es IH]; [done|]. intros He. destruct IH as [IHa IHr].
  { intros e' He'. apply He. by right. }
  specialize (He e ltac:(by left)). unfold auth_of, res_of in *. cbn.
  destruct e; cbn in He; rewrite ?decide_False by done; done.
Qed.

Lemma auth_of_elem i s log : s ∈ auth_of i log <-> WAuth i s ∈ log.
Proof.
  unfold auth_of. rewrite list_elem_of_omap. split.
  - intros (e & He & Heq). destruct e; try done. case_decide; [|done]. by simplify_eq.
  - intros He. exists (WAuth i s). split; [done|]. by rewrite decide_True.
Qed.

Lemma res_of_elem i h port ips log : (h, port, ips) ∈ res_of i log <-> WResolved i h port ips ∈ log.
Proof.
  unfold res_of. rewrite list_elem_of_omap. split.
  - intros (e & He & Heq). destruct e; try done. case_decide; [|done]. by simplify_eq.
  - intros He. exists (WResolved i h port ips). split; [done|]. by rewrite decide_True.
Qed.

Lemma validated_mono cfg auth res auth' res' s addr :
  validated cfg auth res s addr -> validated cfg (auth ++ auth') (res ++ res') s addr.
Proof.
  intros (Hs & Hp & Hv). split_and!; [apply elem_of_app; by left|done|]. destruct Hv as [Hv|Hv]; [left|by right].
  destruct Hv as (h & ips & Hin & Hr). exists h, ips. split; [apply elem_of_app; by left|done].
Qed.

Lemma thread_ok_frame cfg log es i t :
  (forall e, e ∈ es -> event_thread e <> i) -> thread_ok cfg log i t -> thread_ok cfg (log ++ es) i t.
Proof.
  intros [Ha Hr]%other_events. unfold thread_ok. by rewrite auth_of_app, res_of_app, Ha, Hr, !app_nil_r.
Qed.

Lemma after_forward_cases s out f : after_forward s out f = TTunnel s DTop DTop \/ after_forward s out f = TDone.
Proof. destruct f; cbn; try by right. case_match; [by left|by right]. Qed.

Section moves.
Context (px : Proxy) (HI : proxy_ok px).

Lemma pending_nonneg tok : Forall (fun t => 0 <= pending tok t) (px_threads px).
Proof.
  apply Forall_lookup. intros i t Hi. apply (ok_threads _ HI) in Hi. destruct t; cbn in *; try lia; case_match; try lia.
  - by apply fwd_unc_nonneg, Hi.
  - destruct Hi as (_ & Hu%dir_unc_nonneg & Hd%dir_unc_nonneg). lia.
Qed.

(** A thread that acts for a session acts for one that was granted. *)
Lemma thread_granted i t : px_threads px !! i = Some t ->
  match t with TForward s _ _ _ | TTunnel s _ _ => granted px s | _ => True end.
Proof.
  intros Hi. apply (ok_threads _ HI) in Hi. destruct t as [| | |]; cbn in *; try done.
  - destruct Hi as [(Hs & _) _]. apply auth_of_elem in Hs. by eapply ok_auths.
  - destruct Hi as (Hs & _). apply auth_of_elem in Hs. by eapply ok_auths.
Qed.

Lemma pending_fresh tok : px_cells px !! tok = None -> total (pending tok) (px_threads px) = 0.
Proof.
  intros Hn. assert (Forall (fun t => pending tok t = 0) (px_threads px)) as Hz.
  - apply Forall_lookup. intros i t Hi%thread_granted. destruct t; cbn; try done; case_match eqn:E; try done;
      apply String.eqb_eq in E; destruct Hi as (c & Hc & _); congruence.
  - induction Hz; cbn; lia.
Qed.

(** The cells after thread [i] moved from [t] to [t'] and a cell of its session
    from [c] to [c']. *)
Lemma cells_after i t t' tok c c' :
  px_threads px !! i = Some t -> px_cells px !! tok = Some c -> c_session c' = c_session c ->
  (forall tok', tok' <> tok -> pending tok' t' = pending tok' t) ->
  (forall rest, 0 <= rest -> ses_cap (c_session c) <= u64_max ->
     charged c (pending tok t) rest -> charged c' (pending tok t') rest) ->
  forall tok0 c0, <[tok := c']> (px_cells px) !! tok0 = Some c0 -> cell_ok (<[i := t']> (px_threads px)) tok0 c0.
Proof.
  intros Hi Hc Hs Hne Hch tok0 c0 Hc0. destruct (decide (tok0 = tok)) as [->|Hn].
  - rewrite lookup_insert_eq in Hc0. simplify_eq. destruct (ok_cells _ HI _ _ Hc) as [Ht Hcap Hm Hu Hb].
    pose proof (total_lookup _ _ _ _ (pending_nonneg tok) Hi).
    destruct (Hch (total (pending tok) (px_threads px) - pending tok t)) as (? & ? & ?); [lia|done|unfold charged; lia|].
    constructor; try congruence; try done. rewrite (total_insert _ _ _ _ _ Hi). lia.
  - rewrite lookup_insert_ne in Hc0 by done. destruct (ok_cells _ HI _ _ Hc0) as [Ht Hcap Hm Hu Hb].
    constructor; try done. rewrite (total_insert _ _ _ _ _ Hi), (Hne _ Hn). lia.
Qed.

(** The same for a move that leaves the cells alone. *)
Lemma cells_kept i t t' :
  px_threads px !! i = Some t -> (forall tok, pending tok t' = pending tok t) ->
  forall tok c, px_cells px !! tok = Some c -> cell_ok (<[i := t']> (px_threads px)) tok c.
Proof.
  intros Hi Heq tok c Hc. destruct (ok_cells _ HI _ _ Hc) as [Ht Hcap Hm Hu Hb].
  constructor; try done. rewrite (total_insert _ _ _ _ _ Hi), Heq. lia.
Qed.

Definition event_ok (i : nat) (e : Event) : Prop :=
  event_thread e = i /\
  match e with
  | WAuth _ s => granted px s
  | WResolved _ _ _ _ => True
  | WDialled _ s addr => validated (px_config px) (auth_of i (px_log px)) (res_of i (px_log px)) s addr
  end.

Lemma move_ok i t t' cells es :
  px_threads px !! i = Some t ->
  thread_ok (px_config px) (px_log px ++ es) i t' ->
  (forall tok c, cells !! tok = Some c -> cell_ok (<[i := t']> (px_threads px)) tok c) ->
  (forall s, granted px s -> exists c, cells !! ses_token s = Some c /\ c_session c = s) ->
  es = [] \/ (exists e, es = [e] /\ event_ok i e) ->
  proxy_ok (mkProxy (px_config px) (px_sessions px) cells (<[i := t']> (px_threads px)) (px_log px ++ es)).
Proof.
  intros Hi Ht' Hcells Hkeep Hes.
  assert (forall e, e ∈ es -> event_ok i e) as Hev.
  { destruct Hes as [->|(e & -> & He)]; intros e' Hin; [by apply not_elem_of_nil in Hin|].
    by apply list_elem_of_singleton in Hin as ->. }
  assert (i < length (px_threads px))%nat as Hlt by by eapply lookup_lt_Some.
  constructor; cbn; [done|..].
  - intros tok s Hs. apply (ok_sessions _ HI) in Hs as [? ?]. split; [done|]. by apply Hkeep.
  - intros j s [Hs|Hs]%elem_of_app; apply Hkeep; [by eapply ok_auths|]. by apply Hev in Hs as [_ ?].
  - intros j u Hj. destruct (decide (j = i)) as [->|Hn].
    + rewrite list_lookup_insert_eq in Hj by done. by simplify_eq.
    + rewrite list_lookup_insert_ne in Hj by done. apply thread_ok_frame; [|by apply (ok_threads _ HI)].
      intros e He. apply Hev in He as [-> _]. done.
  - intros e He. rewrite length_insert. apply elem_of_app in He as [He|He]; [by apply (ok_events _ HI)|].
    by apply Hev in He as [-> _].
  - intros l1 j s addr l2 Hlog. destruct Hes as [->|(e & -> & Heq & He)].
    + rewrite app_nil_r in Hlog. by eapply ok_dials.
    + destruct l2 as [|x l2 _] using rev_ind.
      * apply app_inj_tail in Hlog as [<- ->]. cbn in Heq. by subst.
      * rewrite app_comm_cons, app_assoc in Hlog. apply app_inj_tail in Hlog as [Hlog ->]. by eapply ok_dials.
Qed.


Lemma after_handler_ok i o :
  ends (px_config px) ∅ (auth_of i (px_log px)) (res_of i (px_log px)) o ->
  thread_ok (px_config px) (px_log px) i (after_handler o).
Proof. destruct o as [|s addr|s addr out]; cbn; [done|by intros [? _]|by intros [_ ?]]. Qed.

Lemma after_handler_pending tok o : pending tok (after_handler o) = 0.
Proof. destruct o; cbn; by try case_match. Qed.

(** A move of a handler keeps its precondition, for any set of tokens that are
    revoked by now. *)
Lemma prog_step_wp dead i p inp es t' :
  (forall tok, tok ∈ dead -> is_revoked tok px) ->
  wp (px_config px) dead (auth_of i (px_log px)) (res_of i (px_log px)) p (ends (px_config px) dead) ->
  prog_step px i p inp = Some (es, t') ->
  ((exists p', t' = THandle p' /\ wp (px_config px) dead (auth_of i (px_log px ++ es)) (res_of i (px_log px ++ es)) p'
       (ends (px_config px) dead))
   \/ (exists o, t' = after_handler o /\ es = []
         /\ ends (px_config px) dead (auth_of i (px_log px)) (res_of i (px_log px)) o))
  /\ (es = [] \/ (exists e, es = [e] /\ event_ok i e))
  /\ (forall j s addr, WDialled j s addr ∈ es -> ses_token s ∉ dead).
Proof.
  intros Hdead Ht Hs.
  assert (forall j s addr, WDialled j s addr ∈ ([] : list Event) -> ses_token s ∉ dead) as H0
    by by intros j s addr He%not_elem_of_nil.
  destruct p, inp; cbn in Hs; try done.
  - simplify_eq. split_and!; [right; by eexists|by left|done].
  - case_match; simplify_eq. rewrite app_nil_r. split_and!; [left; eauto|by left|done].
  - simplify_eq. rewrite app_nil_r. split_and!; [left; eauto|by left|done].
  - destruct Ht as [Hn Hk]. destruct (px_sessions px !! token) as [s|] eqn:E; simplify_eq.
    + apply (ok_sessions _ HI) in E as [Htok Hg]. split_and!; [left|right; by exists (WAuth i s)|].
      * eexists. split; [done|]. rewrite auth_of_app, res_of_app. unfold auth_of at 2, res_of at 2. cbn.
        rewrite decide_True, app_nil_r by done. by apply Hk.
      * by intros j s' addr He%list_elem_of_singleton.
    + rewrite app_nil_r. split_and!; [left; eauto|by left|done].
  - destruct Ht as (_ & Ht & Hf). destruct (px_cells px !! ses_token s) as [c|] eqn:Ec; cbn in Hs; simplify_eq.
    rewrite app_nil_r. split_and!; [left|by left|done]. eexists. split; [done|].
    destruct (c_revoked c) eqn:Er; [done|]. apply Hf. intros (c' & Hc' & Hr)%Hdead. congruence.
  - destruct Ht as (_ & Ht). destruct (px_cells px !! _) as [c|]; cbn in Hs; simplify_eq.
    rewrite app_nil_r. split_and!; [left; eauto|by left|done].
  - destruct Ht as [Hn Hk]. destruct o as [ips|]; simplify_eq.
    + split_and!; [left|right; by exists (WResolved i host port ips)|].
      * eexists. split; [done|]. rewrite auth_of_app, res_of_app. unfold auth_of at 2, res_of at 2. cbn.
        rewrite decide_True, app_nil_r by done. by apply Hk.
      * by intros j s' addr He%list_elem_of_singleton.
    + rewrite app_nil_r. split_and!; [left; eauto|by left|done].
  - destruct Ht as (Hd & Hv & Hk). simplify_eq. split_and!; [left|right; by exists (WDialled i s addr)|].
    + eexists. split; [done|]. rewrite auth_of_app, res_of_app. unfold auth_of at 2, res_of at 2. cbn.
      rewrite !app_nil_r. by apply Hk.
    + intros j s' addr' He%list_elem_of_singleton. by simplify_eq.
Qed.

Lemma prog_step_ok i p inp es t' :
  thread_ok (px_config px) (px_log px) i (THandle p) -> prog_step px i p inp = Some (es, t') ->
  thread_ok (px_config px) (px_log px ++ es) i t'
  /\ (es = [] \/ (exists e, es = [e] /\ event_ok i e)) /\ forall tok, pending tok t' = 0.
Proof.
  intros Ht Hs. destruct (prog_step_wp ∅ _ _ _ _ _ ltac:(set_solver) Ht Hs) as ([(p' & -> & Hp)|(o & -> & -> & Ho)] & He & _).
  - by split_and!.
  - rewrite app_nil_r. split_and!; [by apply after_handler_ok|by left|intros; apply after_handler_pending].
Qed.

Lemma add_events es : foldl (fun px e => add_event e px) px es
  = mkProxy (px_config px) (px_sessions px) (px_cells px) (px_threads px) (px_log px ++ es).
Proof.
  clear HI. revert px. induction es as [|e es IH]; intros px0; cbn; [destruct px0; by rewrite app_nil_r|].
  rewrite IH. cbn. by rewrite <- app_assoc.
Qed.

(** The cells keep their sessions when one of them is rewritten. *)
Lemma granted_kept tok c c' s :
  px_cells px !! tok = Some c -> c_session c' = c_session c -> granted px s ->
  exists c0, <[tok := c']> (px_cells px) !! ses_token s = Some c0 /\ c_session c0 = s.
Proof.
  intros Hc Hs (c0 & Hc0 & Hs0). destruct (decide (ses_token s = tok)) as [<-|Hn].
  - exists c'. rewrite lookup_insert_eq. by simplify_eq.
  - exists c0. by rewrite lookup_insert_ne.
Qed.

(** What the invariant says of the charge of thread [i]. *)
Lemma thread_charged i t tok c :
  px_threads px !! i = Some t -> px_cells px !! tok = Some c ->
  ses_cap (c_session c) <= u64_max /\ exists rest, 0 <= rest /\ charged c (pending tok t) rest.
Proof.
  intros Hi Hc. destruct (ok_cells _ HI _ _ Hc) as [Ht Hcap Hm Hu Hb]. split; [done|].
  pose proof (total_lookup _ _ _ _ (pending_nonneg tok) Hi).
  exists (total (pending tok) (px_threads px) - pending tok t). unfold charged. lia.
Qed.

Lemma pending_own tok t : match t with TForward s _ _ _ | TTunnel s _ _ => ses_token s = tok | _ => True end ->
  pending tok t = match t with
                  | TForward _ _ out f => fwd_uncommitted out f
                  | TTunnel _ up down => uncommitted up + uncommitted down
                  | _ => 0
                  end.
Proof. destruct t; cbn; intros; subst; by rewrite ?String.eqb_refl. Qed.

Lemma pending_other tok t : match t with TForward s _ _ _ | TTunnel s _ _ => tok <> ses_token s | _ => True end ->
  pending tok t = 0.
Proof. destruct t; cbn; intros; try done; destruct (String.eqb_spec (ses_token s) tok); congruence. Qed.

Lemma fwd_move_ok i s addr out f c c' f' dialled inp :
  px_threads px !! i = Some (TForward s addr out f) -> px_cells px !! ses_token s = Some c ->
  fwd_step c out f inp = Some (c', f', dialled) ->
  proxy_ok (mkProxy (px_config px) (px_sessions px) (<[ses_token s := c']> (px_cells px))
    (<[i := match f' with Some f' => TForward s addr out f' | None => after_forward s out f end]> (px_threads px))
    (px_log px ++ if (dialled : bool) then [WDialled i s addr] else [])).
Proof.
  intros Hi Hc Hs. pose proof (ok_threads _ HI _ _ Hi) as [Hv Hf].
  assert (forall rest, 0 <= rest -> ses_cap (c_session c) <= u64_max -> charged c (fwd_uncommitted out f) rest -> _) as Hk
    by exact (fun rest => fwd_step_charged _ _ _ _ _ _ _ rest Hs Hf).
  destruct (thread_charged _ _ _ _ Hi Hc) as (Hcap & rest & Hrest & Hch). rewrite pending_own in Hch by done.
  destruct (Hk rest Hrest Hcap Hch) as (Hses & _ & Hf').
  assert (forall es, validated (px_config px) (auth_of i (px_log px ++ es)) (res_of i (px_log px ++ es)) s addr) as Hv'.
  { intros es. rewrite auth_of_app, res_of_app. by apply validated_mono. }
  eapply move_ok; [done|..].
  - destruct f' as [f'|]; [by split; [apply Hv'|apply Hf']|]. destruct (after_forward_cases s out f) as [->| ->]; [|done].
    by split; [apply Hv'|].
  - apply (cells_after i (TForward s addr out f) _ (ses_token s) c c'); [done..| |].
    + intros tok Hn. rewrite !pending_other; [done|done|]. destruct f'; [done|]. by destruct (after_forward_cases s out f) as [->| ->].
    + intros rest' Hr' _ Hch'. rewrite pending_own in Hch' by done. destruct (Hk rest' Hr' Hcap Hch') as (_ & _ & Hf2).
      destruct f' as [f'|]; [rewrite pending_own by done; apply Hf2|].
      replace (pending _ _) with 0; [done|]. destruct (after_forward_cases s out f) as [->| ->]; [|done].
      by rewrite pending_own.
  - intros. by eapply granted_kept.
  - destruct dialled; [right|by left]. by exists (WDialled i s addr).
Qed.

Lemma tunnel_move_ok i s up down (is_up : bool) c c' d' inp :
  px_threads px !! i = Some (TTunnel s up down) -> px_cells px !! ses_token s = Some c ->
  dir_step c (if is_up then up else down) inp = Some (c', d') ->
  proxy_ok (mkProxy (px_config px) (px_sessions px) (<[ses_token s := c']> (px_cells px))
    (<[i := if is_up then TTunnel s d' down else TTunnel s up d']> (px_threads px)) (px_log px ++ [])).
Proof.
  intros Hi Hc Hs. pose proof (ok_threads _ HI _ _ Hi) as (Hv & Hu & Hd).
  assert (dir_ok (if is_up then up else down)) as Hdir by by destruct is_up.
  assert (forall rest, 0 <= rest -> charged c (uncommitted up + uncommitted down) rest ->
    c_session c' = c_session c /\ c_revoked c' = c_revoked c /\ dir_ok d'
    /\ charged c' (uncommitted d' + uncommitted (if is_up then down else up)) rest) as Hk.
  { intros rest Hr Hch. destruct (thread_charged _ _ _ _ Hi Hc) as (Hcap & _).
    pose proof (dir_unc_nonneg _ Hu). pose proof (dir_unc_nonneg _ Hd).
    destruct (dir_step_charged _ _ _ _ _ (uncommitted (if is_up then down else up) + rest) Hs Hdir) as (? & ? & ? & ?);
      [destruct is_up; lia|done|unfold charged in *; destruct is_up; lia|]. split_and!; [done..|unfold charged in *; lia]. }
  destruct (thread_charged _ _ _ _ Hi Hc) as (Hcap & rest & Hrest & Hch). rewrite pending_own in Hch by done.
  destruct (Hk rest Hrest Hch) as (Hses & _ & Hd' & _).
  eapply move_ok; [done|..].
  - rewrite app_nil_r. by destruct is_up.
  - apply (cells_after i (TTunnel s up down) _ (ses_token s) c c'); [done..| |].
    + intros tok Hn. rewrite !pending_other; [done|done|]. by destruct is_up.
    + intros rest' Hr' _ Hch'. rewrite pending_own in Hch' by done. destruct (Hk rest' Hr' Hch') as (_ & _ & _ & Hc2).
      destruct is_up; rewrite pending_own by done; [done|]. by rewrite Z.add_comm.
  - intros. by eapply granted_kept.
  - by left.
Qed.

Lemma select_move_ok i s up down other c :
  px_threads px !! i = Some (TTunnel s up down) -> px_cells px !! ses_token s = Some c ->
  cancelled up down = Some other ->
  proxy_ok (mkProxy (px_config px) (px_sessions px) (<[ses_token s := refund (uncommitted other) c]> (px_cells px))
    (<[i := TDone]> (px_threads px)) (px_log px ++ [])).
Proof.
  intros Hi Hc Hx. pose proof (ok_threads _ HI _ _ Hi) as (Hv & Hu & Hd).
  assert (dir_ok other /\ uncommitted up + uncommitted down = uncommitted other) as [Ho Hsum].
  { destruct up, down; cbn in Hx |- *; simplify_eq; cbn in *; (split; [done|lia]). }
  eapply move_ok; [done|done|..].
  - apply (cells_after i (TTunnel s up down) _ (ses_token s) c); [done|done| | |].
    + apply refund_session.
    + intros tok Hn. by rewrite (pending_other tok (TTunnel _ _ _)).
    + intros rest' Hr' Hcap Hch'. rewrite pending_own, Hsum in Hch' by done.
      apply refund_charged; [by apply dir_unc_nonneg|done..].
  - intros. eapply granted_kept; [done|apply refund_session|done].
  - by left.
Qed.

Lemma grant_ok tok domains cap px' : grant tok domains cap px = Some px' -> proxy_ok px'.
Proof.
  unfold grant. case_match eqn:E; [|done]. intros [= <-].
  apply andb_true_iff in E as [[Hn%bool_decide_eq_true Hlo]%andb_true_iff Hhi].
  assert (forall s, granted px s -> exists c,
    <[tok := mkCell (grant_session tok domains cap) 0 false 0]> (px_cells px) !! ses_token s = Some c /\ c_session c = s) as Hk.
  { intros s (c & Hc & Hs). exists c. rewrite lookup_insert_ne by congruence. done. }
  destruct HI as [Hc Hs Ha Ht He Hd]. constructor; cbn; [| | |done..].
  - intros tok' c. destruct (decide (tok' = tok)) as [->|?].
    + rewrite lookup_insert_eq. intros [= <-]. constructor; cbn; try lia; [done|]. by rewrite pending_fresh.
    + rewrite lookup_insert_ne by done. apply Hc.
  - intros tok' s. destruct (decide (tok' = tok)) as [->|?].
    + rewrite lookup_insert_eq. intros [= <-]. split; [done|]. eexists. cbn. by rewrite lookup_insert_eq.
    + rewrite lookup_insert_ne by done. intros [? ?]%Hs. split; [done|by apply Hk].
  - intros i s [c Hg]%Ha. apply Hk. by exists c.
Qed.

Lemma drop_flag_ok tok px' : drop_flag tok px = Some px' -> proxy_ok px'.
Proof.
  unfold drop_flag. destruct (px_cells px !! tok) as [c|] eqn:Ec; [|done]. intros [= <-].
  pose proof (fun s => granted_kept tok c (set_revoked c) s Ec eq_refl) as Hk.
  pose proof HI as [Hc Hs Ha Ht He Hd]. constructor; cbn; [| | |done..].
  - intros tok' c0. destruct (decide (tok' = tok)) as [->|?].
    + rewrite lookup_insert_eq. intros [= <-]. destruct (Hc _ _ Ec). by constructor.
    + rewrite lookup_insert_ne by done. apply Hc.
  - intros tok' s [? ?]%Hs. split; [done|by apply Hk].
  - intros i s Hg%Ha. by apply Hk.
Qed.

Lemma drop_remove_ok tok px' : drop_remove tok px = Some px' -> proxy_ok px'.
Proof.
  unfold drop_remove. destruct (px_cells px !! tok) as [c|]; [|done]. cbn. case_match; [|done]. intros [= <-].
  destruct HI as [Hc Hs Ha Ht He Hd]. constructor; cbn; try done.
  intros tok' s [_ Hl]%lookup_delete_Some. by apply Hs.
Qed.

Lemma accept_ok : proxy_ok (accept px).
Proof.
  pose proof HI as [Hc Hs Ha Ht He Hd]. constructor; cbn; try done.
  - intros tok c Hl. destruct (Hc _ _ Hl). constructor; try done. rewrite total_app. cbn. lia.
  - intros i t [Hi|[Hlt Hi]]%lookup_app_Some; [by apply Ht|].
    apply list_lookup_singleton_Some in Hi as [Hz <-].
    destruct (other_events i (px_log px)) as [Ea Er].
    { intros e Hin%He. lia. }
    cbn [thread_ok]. rewrite Ea, Er. apply wp_handle_connection.
  - intros e Hin%He. rewrite length_app. cbn. lia.
Qed.

Lemma handle_step_ok i inp px' : handle_step px i inp = Some px' -> proxy_ok px'.
Proof.
  unfold handle_step. destruct (px_threads px !! i) as [t|] eqn:Hi; [|done]. cbn.
  destruct t as [p|s addr out f| |]; try done.
  - destruct (prog_step px i p inp) as [[es t']|] eqn:Hs; [|done]. cbn. intros [= <-]. rewrite add_events.
    destruct (prog_step_ok _ _ _ _ _ (ok_threads _ HI _ _ Hi) Hs) as (Ht & Hes & Hp).
    eapply move_ok; [done|done| |done|done]. eapply cells_kept; [done|]. intros tok. by rewrite Hp.
  - destruct (px_cells px !! ses_token s) as [c|] eqn:Hc; [|done]. cbn.
    destruct (fwd_step c out f inp) as [[[c' f'] dialled]|] eqn:Hs; [|done]. cbn. intros [= <-].
    pose proof (fwd_move_ok _ _ _ _ _ _ _ _ _ _ Hi Hc Hs) as Hm.
    destruct dialled; [exact Hm|]. by rewrite app_nil_r in Hm.
Qed.

Lemma tunnel_step_ok i is_up inp px' : tunnel_step px i is_up inp = Some px' -> proxy_ok px'.
Proof.
  unfold tunnel_step. destruct (px_threads px !! i) as [t|] eqn:Hi; [|done]. cbn.
  destruct t as [| |s up down|]; try done. destruct (px_cells px !! ses_token s) as [c|] eqn:Hc; [|done]. cbn.
  destruct (dir_step _ _ _) as [[c' d']|] eqn:Hs; [|done]. cbn. intros [= <-].
  pose proof (tunnel_move_ok _ _ _ _ _ _ _ _ _ Hi Hc Hs) as Hm. by rewrite app_nil_r in Hm.
Qed.

Lemma select_step_ok i px' : select_step px i = Some px' -> proxy_ok px'.
Proof.
  unfold select_step. destruct (px_threads px !! i) as [t|] eqn:Hi; [|done]. cbn.
  destruct t as [| |s up down|]; try done. destruct (cancelled up down) as [other|] eqn:Hx; [|done]. cbn.
  destruct (px_cells px !! ses_token s) as [c|] eqn:Hc; [|done]. cbn. intros [= <-].
  pose proof (select_move_ok _ _ _ _ _ _ Hi Hc Hx) as Hm. by rewrite app_nil_r in Hm.
Qed.
End moves.

Lemma step_ok px l px' : proxy_ok px -> step px l = Some px' -> proxy_ok px'.
Proof.
  intros HI. destruct l; cbn.
  - by apply grant_ok.
  - by apply drop_flag_ok.
  - by apply drop_remove_ok.
  - intros [= <-]. by apply accept_ok.
  - by apply handle_step_ok.
  - by apply tunnel_step_ok.
  - by apply tunnel_step_ok.
  - by apply select_step_ok.
Qed.

Lemma start_ok cfg : proxy_ok (start cfg).
Proof.
  constructor; cbn; try done.
  - intros i s Hin. by apply not_elem_of_nil in Hin.
  - intros e Hin. by apply not_elem_of_nil in Hin.
  - intros [|] i s addr l2; done.
Qed.

Lemma reach_ok px px' : proxy_ok px -> rtc moves px px' -> proxy_ok px'.
Proof. intros HI. induction 1 as [|px px1 px2 [l Hl]]; [done|]. eauto using step_ok. Qed.

Lemma step_config px l px' : step px l = Some px' -> px_config px' = px_config px.
Proof.
  destruct l; cbn; unfold grant, drop_flag, drop_remove, handle_step, tunnel_step, select_step; intros Hs;
    repeat (simplify_option_eq; try case_match); rewrite ?add_events; done.
Qed.

(** * Revocation *)

(** The moves of the proxy, by the part that moves. *)
Inductive moved_to (px : Proxy) : Proxy -> Prop :=
| m_grant tok domains cap px' : grant tok domains cap px = Some px' -> moved_to px px'
| m_flag tok c : px_cells px !! tok = Some c -> moved_to px (set_cell tok (set_revoked c) px)
| m_remove tok :
    moved_to px (mkProxy (px_config px) (delete tok (px_sessions px)) (px_cells px) (px_threads px) (px_log px))
| m_accept : moved_to px (accept px)
| m_handle i p inp es t' :
    px_threads px !! i = Some (THandle p) -> prog_step px i p inp = Some (es, t') ->
    moved_to px (mkProxy (px_config px) (px_sessions px) (px_cells px) (<[i := t']> (px_threads px)) (px_log px ++ es))
| m_forward i s addr out f c inp c' f' dialled :
    px_threads px !! i = Some (TForward s addr out f) -> px_cells px !! ses_token s = Some c ->
    fwd_step c out f inp = Some (c', f', dialled) ->
    moved_to px (mkProxy (px_config px) (px_sessions px) (<[ses_token s := c']> (px_cells px))
      (<[i := match f' with Some f' => TForward s addr out f' | None => after_forward s out f end]> (px_threads px))
      (px_log px ++ if (dialled : bool) then [WDialled i s addr] else []))
| m_tunnel i s up down up' down' c c' :
    px_threads px !! i = Some (TTunnel s up down) -> px_cells px !! ses_token s = Some c ->
    (exists inp, dir_step c up inp = Some (c', up') /\ down' = down)
      \/ (exists inp, dir_step c down inp = Some (c', down') /\ up' = up) ->
    moved_to px (mkProxy (px_config px) (px_sessions px) (<[ses_token s := c']> (px_cells px))
      (<[i := TTunnel s up' down']> (px_threads px)) (px_log px))
| m_select i s up down other c :
    px_threads px !! i = Some (TTunnel s up down) -> px_cells px !! ses_token s = Some c ->
    cancelled up down = Some other ->
    moved_to px (mkProxy (px_config px) (px_sessions px)
      (<[ses_token s := refund (uncommitted other) c]> (px_cells px)) (<[i := TDone]> (px_threads px)) (px_log px)).

Lemma tunnel_moved px i is_up inp px' : tunnel_step px i is_up inp = Some px' -> moved_to px px'.
Proof.
  unfold tunnel_step. intros Hs. destruct (px_threads px !! i) as [t|] eqn:Hi; [|done]. cbn in Hs.
  destruct t as [| |s up down|]; try done. destruct (px_cells px !! ses_token s) as [c|] eqn:Hc; [|done]. cbn in Hs.
  destruct (dir_step _ _ _) as [[c' d']|] eqn:Hd; [|done]. cbn in Hs. simplify_eq.
  destruct is_up; [apply (m_tunnel px i s up down d' down c c'); [done..|left]|apply (m_tunnel px i s up down up d' c c'); [done..|right]]; by exists inp.
Qed.

Lemma step_moved px l px' : step px l = Some px' -> moved_to px px'.
Proof.
  destruct l; cbn.
  - apply m_grant.
  - unfold drop_flag. intros. simplify_option_eq. by apply m_flag.
  - unfold drop_remove. intros. simplify_option_eq. case_match; simplify_eq. apply m_remove.
  - intros [= <-]. apply m_accept.
  - unfold handle_step. intros Hs. destruct (px_threads px !! i) as [t|] eqn:Hi; [|done]. cbn in Hs.
    destruct t as [p|s addr out f| |]; try done.
    + destruct (prog_step px i p inp) as [[es t']|] eqn:Hp; [|done]. cbn in Hs. simplify_eq. rewrite add_events.
      exact (m_handle px i p inp es t' Hi Hp).
    + destruct (px_cells px !! ses_token s) as [c|] eqn:Hc; [|done]. cbn in Hs.
      destruct (fwd_step c out f inp) as [[[c' f'] dialled]|] eqn:Hf; [|done]. cbn in Hs. simplify_eq.
      pose proof (m_forward _ _ _ _ _ _ _ _ _ _ _ Hi Hc Hf) as Hm. destruct dialled; [exact Hm|].
      by rewrite app_nil_r in Hm.
  - apply tunnel_moved.
  - apply tunnel_moved.
  - unfold select_step. intros Hs. destruct (px_threads px !! i) as [t|] eqn:Hi; [|done]. cbn in Hs.
    destruct t as [| |s up down|]; try done. destruct (cancelled up down) as [other|] eqn:Hx; [|done]. cbn in Hs.
    destruct (px_cells px !! ses_token s) as [c|] eqn:Hc; [|done]. cbn in Hs. simplify_eq. exact (m_select px i s up down other c Hi Hc Hx).
Qed.

Lemma dir_step_cell c d inp c' d' : dir_step c d inp = Some (c', d') ->
  c_session c' = c_session c /\ c_revoked c' = c_revoked c.
Proof.
  destruct d as [| |buf|buf|buf cur|buf g w|buf g w|], inp; cbn; try done; intros Hs;
    repeat (case_match; simplify_eq; try done).
  all: simplify_eq; try done; by destruct (refund_session (g - w) c) as (? & ? & _).
Qed.

Lemma fwd_step_cell c out f inp c' f' dialled : fwd_step c out f inp = Some (c', f', dialled) ->
  c_session c' = c_session c /\ c_revoked c' = c_revoked c.
Proof.
  destruct f, inp; cbn; try done; intros Hs; repeat (case_match; simplify_eq; try done).
  all: simplify_eq; try done; by destruct (refund_session (len out - written) c) as (? & ? & _).
Qed.

(** A token stays revoked. *)

Lemma revoked_insert (cells : gmap string Cell) tok c tok' c' c0 :
  cells !! tok = Some c -> c_revoked c = true -> cells !! tok' = Some c0 ->
  (c_revoked c' = c_revoked c0 \/ c_revoked c' = true) ->
  exists c1, <[tok' := c']> cells !! tok = Some c1 /\ c_revoked c1 = true.
Proof.
  intros Hc Hr Hc' Heq. destruct (decide (tok = tok')) as [->|Hn].
  - exists c'. rewrite lookup_insert_eq. split; [done|]. destruct Heq; congruence.
  - exists c. by rewrite lookup_insert_ne.
Qed.

Lemma revoked_moved tok px px' : is_revoked tok px -> moved_to px px' -> is_revoked tok px'.
Proof.
  intros (c & Hc & Hr) Hm. destruct Hm as [tok' domains cap px' Hg|tok' c' Hc'| | | | | |]; unfold is_revoked; cbn; eauto.
  - unfold grant in Hg. case_match eqn:E; [|done]. simplify_eq. cbn. exists c. rewrite lookup_insert_ne; [done|].
    intros ->. rewrite Hc in E. by rewrite bool_decide_false in E.
  - eapply revoked_insert; eauto.
  - eapply revoked_insert; eauto. left. by eapply fwd_step_cell.
  - eapply revoked_insert; eauto. left. by destruct H1 as [(? & ? & _)|(? & ? & _)]; eapply dir_step_cell.
  - eapply revoked_insert; eauto. left. apply refund_session.
Qed.

(** ** Threads accepted after the revocation *)

Definition clean (cfg : EgressConfig) (tok : string) (log : list Event) (i : nat) (t : Thread) : Prop :=
  match t with
  | THandle p => wp cfg {[tok]} (auth_of i log) (res_of i log) p (ends cfg {[tok]})
  | TForward s _ _ _ | TTunnel s _ _ => ses_token s <> tok
  | TDone => True
  end.

Record cut (tok : string) (n : nat) (px : Proxy) : Prop := {
  cut_revoked : is_revoked tok px;
  cut_below : (n <= length (px_threads px))%nat;
  cut_threads i t : (n <= i)%nat -> px_threads px !! i = Some t -> clean (px_config px) tok (px_log px) i t;
  cut_dials i s addr : (n <= i)%nat -> WDialled i s addr ∈ px_log px -> ses_token s <> tok;
}.

Lemma clean_frame cfg tok log es i t :
  (forall e, e ∈ es -> event_thread e <> i) -> clean cfg tok log i t -> clean cfg tok (log ++ es) i t.
Proof.
  intros [Ha Hr]%other_events. unfold clean. by rewrite auth_of_app, res_of_app, Ha, Hr, !app_nil_r.
Qed.

Lemma prog_step_clean px tok i p inp es t' :
  proxy_ok px -> is_revoked tok px ->
  clean (px_config px) tok (px_log px) i (THandle p) -> prog_step px i p inp = Some (es, t') ->
  clean (px_config px) tok (px_log px ++ es) i t' /\ (forall j s addr, WDialled j s addr ∈ es -> ses_token s <> tok).
Proof.
  intros HI Hr Ht Hs.
  destruct (prog_step_wp px HI {[tok]} _ _ _ _ _ (fun t Ht => eq_ind_r (fun t => is_revoked t px) Hr (proj1 (elem_of_singleton t tok) Ht)) Ht Hs)
    as ([(p' & -> & Hp)|(o & -> & -> & Ho)] & _ & Hd).
  - split; [done|]. intros j s addr Hin%Hd. set_solver.
  - split; [|intros j s addr Hin%Hd; set_solver]. destruct o; cbn in *; set_solver.
Qed.

Lemma cut_insert tok n px px' i t t' es :
  cut tok n px -> is_revoked tok px' -> px_config px' = px_config px ->
  px_threads px !! i = Some t -> px_threads px' = <[i := t']> (px_threads px) -> px_log px' = px_log px ++ es ->
  (forall e, e ∈ es -> event_thread e = i) ->
  ((n <= i)%nat -> clean (px_config px) tok (px_log px ++ es) i t'
     /\ forall j s addr, WDialled j s addr ∈ es -> ses_token s <> tok) ->
  cut tok n px'.
Proof.
  intros [Hr Hn Ht Hd] Hr' Hcfg Hi Hts Hlog Hes Hnew. constructor; [done|by rewrite Hts, length_insert|..].
  - intros j u Hj. rewrite Hts, Hcfg, Hlog. intros Hu. destruct (decide (j = i)) as [->|Hne].
    + rewrite list_lookup_insert_eq in Hu by (by eapply lookup_lt_Some). simplify_eq. by apply Hnew.
    + rewrite list_lookup_insert_ne in Hu by done. apply clean_frame; [|by apply Ht]. intros e He%Hes. congruence.
  - intros j s addr Hj. rewrite Hlog, elem_of_app. intros [Hin|Hin]; [by eapply Hd|].
    pose proof (Hes _ Hin) as Heq. cbn in Heq. subst j. by eapply Hnew.
Qed.

Lemma cut_moved tok n px px' : proxy_ok px -> cut tok n px -> moved_to px px' -> cut tok n px'.
Proof.
  intros HI HC Hm. pose proof HC as [Hr Hn Ht Hd]. pose proof (revoked_moved _ _ _ Hr Hm) as Hr'.
  assert (forall e : Event, e ∈ [] -> event_thread e = O) as Hnone by by intros e He%not_elem_of_nil.
  destruct Hm as [tok' domains cap px' Hg| | | |i p inp es t' Hi Hs|i s addr out f c inp c' f' dialled Hi Hc Hs
    |i s up down up' down' c c' Hi Hc Hs|i s up down other c Hi Hc Hx].
  - unfold grant in Hg. case_match; [|done]. simplify_eq. by constructor.
  - by constructor.
  - by constructor.
  - constructor; [done|cbn; rewrite length_app; lia| |done]. intros i t Hi [Hl|[Hlt Hl]]%lookup_app_Some; [by apply Ht|].
    apply list_lookup_singleton_Some in Hl as [Hz <-]. destruct (other_events i (px_log px)) as [Ea Er].
    { intros e Hin%(ok_events _ HI). lia. }
    change (wp (px_config px) {[tok]} (auth_of i (px_log px)) (res_of i (px_log px))
      (handle_connection (px_config px)) (ends (px_config px) {[tok]})).
    rewrite Ea, Er. apply wp_handle_connection.
  - eapply (cut_insert tok n px _ i _ t' es); try done.
    + intros e He. destruct (prog_step_ok px HI _ _ _ _ _ (ok_threads _ HI _ _ Hi) Hs) as (_ & [->|(e' & -> & Heq & _)] & _).
      * by apply not_elem_of_nil in He.
      * by apply list_elem_of_singleton in He as ->.
    + intros Hge. eapply prog_step_clean; [done..|by apply Ht|done].
  - eapply (cut_insert tok n px _ i); try done.
    + intros e He. destruct dialled; [by apply list_elem_of_singleton in He as ->|by apply not_elem_of_nil in He].
    + intros Hge. specialize (Ht _ _ Hge Hi). cbn in Ht. split.
      * destruct f'; [done|]. by destruct (after_forward_cases s out f) as [->| ->].
      * intros j s' addr' He. destruct dialled; [|by apply not_elem_of_nil in He].
        apply list_elem_of_singleton in He. by simplify_eq.
  - eapply (cut_insert tok n px _ i _ _ []); try done; [by rewrite app_nil_r|by intros e He%not_elem_of_nil|].
    intros Hge. specialize (Ht _ _ Hge Hi). cbn in Ht. split; [done|]. by intros j s' addr' He%not_elem_of_nil.
  - eapply (cut_insert tok n px _ i _ _ []); try done; [by rewrite app_nil_r|by intros e He%not_elem_of_nil|].
    intros Hge. split; [done|]. by intros j s' addr' He%not_elem_of_nil.
Qed.

(** ** Bytes still on their way *)

Definition dir_inflight (d : Dir) : Z :=
  match d with DLoad buf | DCas buf _ => len buf | DWrite _ granted written => granted - written | _ => 0 end.

(** What a thread may still write for a session whose flag is set. *)
Definition inflight (tok : string) (t : Thread) : Z :=
  match t with
  | TForward s _ out (FWrite w) => if String.eqb (ses_token s) tok then len out - w else 0
  | TTunnel s up down => if String.eqb (ses_token s) tok then dir_inflight up + dir_inflight down else 0
  | _ => 0
  end.

Lemma dir_inflight_nonneg d : dir_ok d -> 0 <= dir_inflight d.
Proof. destruct d; cbn; try pose proof (len_nonneg buf); lia. Qed.

Lemma inflight_nonneg px tok : proxy_ok px -> Forall (fun t => 0 <= inflight tok t) (px_threads px).
Proof.
  intros HI. apply Forall_lookup. intros i t Hi%(ok_threads _ HI). destruct t as [|s addr out f|s up down|]; cbn in *; try lia.
  - destruct Hi as [_ Hf]. destruct f; cbn in *; try lia. case_match; lia.
  - destruct Hi as (_ & Hu%dir_inflight_nonneg & Hd%dir_inflight_nonneg). case_match; lia.
Qed.

Lemma dir_step_inflight c d inp c' d' :
  c_revoked c = true -> dir_ok d -> dir_step c d inp = Some (c', d') ->
  c_moved c' + dir_inflight d' <= c_moved c + dir_inflight d.
Proof.
  intros Hr Hd Hs. destruct d as [| |buf|buf|buf cur|buf g w|buf g w|], inp; cbn in Hs; try done.
  - simplify_eq. rewrite Hr. cbn. lia.
  - destruct o as [b|]; [case_match|]; simplify_eq; cbn; try lia. case_match; cbn; lia.
  - simplify_eq. rewrite Hr. cbn. lia.
  - simplify_eq. cbn. lia.
  - pose proof (len_nonneg buf). case_match eqn:E; simplify_eq; cbn; [lia|]. apply Z.eqb_neq in E.
    apply up_to_range in E; [|done]. case_match; simplify_eq; cbn; lia.
  - case_match; simplify_eq; cbn in *; [lia|]. case_match; simplify_eq. cbn. case_match; cbn; lia.
  - simplify_eq. destruct (refund_session (g - w) c) as (_ & _ & ->). cbn. case_match; cbn; lia.
Qed.

Lemma fwd_step_inflight tok s addr c out f inp c' f' dialled :
  c_revoked c = true -> ses_token s = tok -> fwd_ok out f -> fwd_step c out f inp = Some (c', f', dialled) ->
  c_moved c' + inflight tok match f' with Some f' => TForward s addr out f' | None => after_forward s out f end
  <= c_moved c + inflight tok (TForward s addr out f).
Proof.
  intros Hr <- Hd Hs. cbn. rewrite String.eqb_refl. destruct f as [|cur| | |w|w|w], inp; cbn in Hs; try done.
  - simplify_eq. cbn. lia.
  - case_match; simplify_eq; cbn; [lia|]. case_match; simplify_eq; cbn; lia.
  - simplify_eq. rewrite Hr. cbn. lia.
  - simplify_eq. destruct b; cbn; lia.
  - simplify_eq. rewrite Hr, andb_false_r. cbn. lia.
  - cbn in Hd. case_match; simplify_eq; [cbn; lia|]. case_match eqn:E; simplify_eq. cbn in *. lia.
  - simplify_eq. destruct (refund_session (len out - w) c) as (_ & _ & ->).
    destruct (after_forward_cases s out (FDrop w)) as [->| ->]; cbn; [rewrite String.eqb_refl|]; lia.
Qed.

Lemma inflight_other tok t :
  match t with TForward s _ _ _ | TTunnel s _ _ => ses_token s <> tok | _ => True end -> inflight tok t = 0.
Proof.
  destruct t as [|s addr out f|s up down|]; cbn; intros; try done; [destruct f; try done|]; by rewrite (proj2 (String.eqb_neq _ _)).
Qed.

Lemma flow_moved tok px px' c c' :
  proxy_ok px -> px_cells px !! tok = Some c -> c_revoked c = true -> moved_to px px' ->
  px_cells px' !! tok = Some c' ->
  c_moved c' + total (inflight tok) (px_threads px') <= c_moved c + total (inflight tok) (px_threads px).
Proof.
  intros HI Hc Hr Hm Hc'.
  destruct Hm as [tok' domains cap px' Hg|tok' c0 Hc0| | |i p inp es t' Hi Hs|i s addr out f c0 inp c1 f' dialled Hi Hc0 Hs
    |i s up down up' down' c0 c1 Hi Hc0 Hs|i s up down other c0 Hi Hc0 Hx]; cbn in Hc'.
  - unfold grant in Hg. case_match eqn:E; [|done]. simplify_eq. cbn in Hc'. rewrite lookup_insert_ne in Hc'.
    + simplify_eq. cbn. lia.
    + intros ->. rewrite Hc in E. by rewrite bool_decide_false in E.
  - destruct (decide (tok' = tok)) as [->|?]; [rewrite lookup_insert_eq in Hc'|rewrite lookup_insert_ne in Hc' by done];
      simplify_eq; cbn; lia.
  - simplify_eq. cbn. lia.
  - simplify_eq. cbn. rewrite total_app. cbn. lia.
  - simplify_eq. cbn. rewrite (total_insert _ _ _ _ _ Hi).
    destruct (prog_step_wp px HI ∅ _ _ _ _ _ ltac:(set_solver) (ok_threads _ HI _ _ Hi) Hs)
      as ([(p' & -> & _)|(o & -> & _ & _)] & _ & _); cbn; [lia|]. destruct o; cbn; repeat case_match; lia.
  - cbn. rewrite (total_insert _ _ _ _ _ Hi). destruct (decide (ses_token s = tok)) as [<-|Hn].
    + rewrite lookup_insert_eq in Hc'. simplify_eq. pose proof (ok_threads _ HI _ _ Hi) as [_ Hf].
      pose proof (fwd_step_inflight (ses_token s) s addr _ _ _ _ _ _ _ Hr eq_refl Hf Hs). lia.
    + rewrite lookup_insert_ne in Hc' by done. simplify_eq. rewrite (inflight_other _ (TForward _ _ _ f)) by done.
      rewrite inflight_other; [lia|]. destruct f'; [done|]. by destruct (after_forward_cases s out f) as [->| ->].
  - cbn. rewrite (total_insert _ _ _ _ _ Hi). destruct (decide (ses_token s = tok)) as [<-|Hn].
    + rewrite lookup_insert_eq in Hc'. simplify_eq. pose proof (ok_threads _ HI _ _ Hi) as (_ & Hu & Hd).
      cbn. rewrite String.eqb_refl. destruct Hs as [(inp & Hs & ->)|(inp & Hs & ->)];
        apply (dir_step_inflight _ _ _ _ _ Hr) in Hs; try done; lia.
    + rewrite lookup_insert_ne in Hc' by done. simplify_eq. rewrite !inflight_other; [lia|done..].
  - cbn. rewrite (total_insert _ _ _ _ _ Hi).
    pose proof (ok_threads _ HI _ _ Hi) as (_ & Hu%dir_inflight_nonneg & Hd%dir_inflight_nonneg).
    destruct (decide (ses_token s = tok)) as [<-|Hn].
    + rewrite lookup_insert_eq in Hc'. simplify_eq. destruct (refund_session (uncommitted other) c) as (_ & _ & ->).
      cbn. rewrite String.eqb_refl. lia.
    + rewrite lookup_insert_ne in Hc' by done. simplify_eq. rewrite !inflight_other; [lia|done..].
Qed.

(** ** The moves left to a revoked tunnel *)

(** A failed compare-exchange: the direction retries with the value it saw. *)
Definition retries (c : Cell) (d : Dir) (inp : Input) : bool :=
  match d, inp with
  | DCas buf current, IFlag b =>
      negb (up_to (ses_cap (c_session c)) current (len buf) =? 0) && negb ((c_used c =? current) && b)
  | _, _ => false
  end.

(** Does the label move tunnel [i], other than by a retry? *)
Definition advances (i : nat) (px : Proxy) (l : Label) : bool :=
  match px_threads px !! i with
  | Some (TTunnel s up down) =>
      match px_cells px !! ses_token s, l with
      | Some c, LUp j inp => Nat.eqb j i && negb (retries c up inp)
      | Some c, LDown j inp => Nat.eqb j i && negb (retries c down inp)
      | Some c, LSelect j => Nat.eqb j i
      | _, _ => false
      end
  | _ => false
  end.

Fixpoint run (px : Proxy) (ls : list Label) : option Proxy :=
  match ls with [] => Some px | l :: ls => px ← step px l; run px ls end.

(** How often tunnel [i] advances in a run. *)
Fixpoint advance_count (i : nat) (px : Proxy) (ls : list Label) : Z :=
  match ls with
  | [] => 0
  | l :: ls =>
      match step px l with
      | None => 0
      | Some px' => (if advances i px l then 1 else 0) + advance_count i px' ls
      end
  end.

Definition dir_left (d : Dir) : Z :=
  match d with
  | DDone => 0
  | DTop | DRecheck _ => 1
  | DReading | DDrop _ _ _ => 2
  | DWrite _ granted written => 3 + (granted - written)
  | DCas buf _ => 4 + len buf
  | DLoad buf => 5 + len buf
  end.

Definition moves_left (t : Thread) : Z :=
  match t with TTunnel _ up down => 1 + dir_left up + dir_left down | _ => 0 end.

Lemma dir_step_left c d inp c' d' :
  c_revoked c = true -> dir_ok d -> dir_step c d inp = Some (c', d') ->
  dir_left d' + (if retries c d inp then 0 else 1) <= dir_left d.
Proof.
  intros Hr Hd Hs. destruct d as [| |buf|buf|buf cur|buf g w|buf g w|], inp; cbn in Hs; try done.
  - simplify_eq. rewrite Hr. cbn. lia.
  - destruct o as [b|]; [case_match|]; simplify_eq; cbn; try lia. case_match; cbn; lia.
  - simplify_eq. rewrite Hr. cbn. lia.
  - simplify_eq. cbn. lia.
  - pose proof (len_nonneg buf). cbn. destruct (up_to _ _ _ =? 0) eqn:E; simplify_eq; cbn; [lia|]. apply Z.eqb_neq in E.
    apply up_to_range in E; [|done]. case_match; simplify_eq; cbn; lia.
  - cbn in Hd. case_match; simplify_eq; cbn; [lia|]. case_match eqn:E; simplify_eq. case_match; cbn; lia.
  - simplify_eq. cbn. case_match; cbn; lia.
Qed.

Lemma tunnel_left px i s up down is_up inp px' :
  proxy_ok px -> px_threads px !! i = Some (TTunnel s up down) -> is_revoked (ses_token s) px ->
  tunnel_step px i is_up inp = Some px' ->
  exists up' down', px_threads px' !! i = Some (TTunnel s up' down')
    /\ moves_left (TTunnel s up' down') + (if advances i px (if is_up then LUp i inp else LDown i inp) then 1 else 0)
       <= moves_left (TTunnel s up down).
Proof.
  intros HI Hi (c & Hc & Hr) Hs. pose proof (ok_threads _ HI _ _ Hi) as (_ & Hu & Hd).
  unfold tunnel_step in Hs. rewrite Hi in Hs. cbn in Hs. rewrite Hc in Hs. cbn in Hs.
  destruct (dir_step _ _ _) as [[c' d']|] eqn:Hstep; [|done]. cbn in Hs. simplify_eq.
  assert (i < length (px_threads px))%nat by by eapply lookup_lt_Some.
  assert (advances i px (if is_up then LUp i inp else LDown i inp) = negb (retries c (if is_up then up else down) inp)) as ->.
  { unfold advances. rewrite Hi, Hc. destruct is_up; by rewrite Nat.eqb_refl. }
  apply (dir_step_left _ _ _ _ _ Hr) in Hstep; [|by destruct is_up].
  exists (if is_up then d' else up), (if is_up then down else d'). split.
  - cbn. rewrite list_lookup_insert_eq by done. by destruct is_up.
  - cbn. destruct is_up, (retries c _ inp); cbn in *; lia.
Qed.

Lemma dir_left_nonneg d : dir_ok d -> 0 <= dir_left d.
Proof. destruct d; cbn; try pose proof (len_nonneg buf); lia. Qed.

(** Other threads' moves leave thread [i] where it is. *)
Lemma step_other px l px' i t :
  step px l = Some px' -> px_threads px !! i = Some t ->
  match l with LHandle j _ | LUp j _ | LDown j _ | LSelect j => j <> i | _ => True end ->
  px_threads px' !! i = Some t.
Proof.
  intros Hs Hi. assert (forall t0, (px_threads px ++ [t0]) !! i = Some t) as Happ.
  { intros t0. rewrite lookup_app_l; [done|by eapply lookup_lt_Some]. }
  destruct l; cbn in Hs; unfold grant, drop_flag, drop_remove, handle_step, tunnel_step, select_step in Hs;
    intros Hne; repeat (simplify_option_eq; try case_match); rewrite ?add_events; cbn; try done; try apply Happ;
    by rewrite list_lookup_insert_ne.
Qed.

Lemma step_left px l px' i s up down :
  proxy_ok px -> px_threads px !! i = Some (TTunnel s up down) -> is_revoked (ses_token s) px ->
  step px l = Some px' ->
  (exists up' down', px_threads px' !! i = Some (TTunnel s up' down')
     /\ moves_left (TTunnel s up' down') + (if advances i px l then 1 else 0) <= moves_left (TTunnel s up down))
  \/ (px_threads px' !! i = Some TDone /\ 1 <= moves_left (TTunnel s up down)).
Proof.
  intros HI Hi Hr Hs.
  assert (forall l, match l with LUp j _ | LDown j _ | LSelect j => j <> i | _ => True end -> advances i px l = false) as Hno.
  { intros l' Hl'. unfold advances. rewrite Hi. destruct Hr as (c & -> & _).
    destruct l'; try done; by rewrite (proj2 (Nat.eqb_neq _ _)) by congruence. }
  assert (match l with LHandle j _ | LUp j _ | LDown j _ | LSelect j => j <> i | _ => True end ->
    exists up' down', px_threads px' !! i = Some (TTunnel s up' down')
     /\ moves_left (TTunnel s up' down') + (if advances i px l then 1 else 0) <= moves_left (TTunnel s up down)) as Hother.
  { intros Hl. exists up, down. split; [by eapply step_other|]. rewrite Hno by by destruct l. lia. }
  destruct l as [| | | |j inp|j inp|j inp|j]; try (left; by apply Hother);
    (destruct (decide (j = i)) as [->|Hne]; [|left; by apply Hother]).
  - cbn in Hs. unfold handle_step in Hs. by rewrite Hi in Hs.
  - left. by apply (tunnel_left px i s up down true inp).
  - left. by apply (tunnel_left px i s up down false inp).
  - right. cbn in Hs. unfold select_step in Hs. rewrite Hi in Hs. destruct Hr as (c & Hc & _).
    pose proof (ok_threads _ HI _ _ Hi) as (_ & Hu & Hd). cbn in Hs. destruct (cancelled up down); [|done].
    cbn in Hs. rewrite Hc in Hs. cbn in Hs. simplify_eq. cbn. split.
    + by rewrite list_lookup_insert_eq by by eapply lookup_lt_Some.
    + apply dir_left_nonneg in Hu, Hd. lia.
Qed.

Lemma done_step px l px' i : px_threads px !! i = Some TDone -> step px l = Some px' -> px_threads px' !! i = Some TDone.
Proof.
  intros Hi Hs. eapply step_other; [done..|].
  destruct l; try done; cbn in Hs; unfold handle_step, tunnel_step, select_step in Hs; intros ->; by rewrite Hi in Hs.
Qed.

Lemma done_stays px ls px' i : px_threads px !! i = Some TDone -> run px ls = Some px' -> advance_count i px ls = 0.
Proof.
  revert px. induction ls as [|l ls IH]; intros px Hi Hrun; cbn in *; [done|].
  destruct (step px l) as [px1|] eqn:Hs; [|done]. cbn in Hrun. unfold advances. rewrite Hi.
  rewrite (IH px1); [done|by eapply done_step|done].
Qed.

Lemma drains px ls px' i s up down :
  proxy_ok px -> px_threads px !! i = Some (TTunnel s up down) -> is_revoked (ses_token s) px ->
  run px ls = Some px' -> advance_count i px ls <= moves_left (TTunnel s up down).
Proof.
  revert px up down. induction ls as [|l ls IH]; intros px up down HI Hi Hr Hrun; cbn [advance_count run] in *.
  - pose proof (ok_threads _ HI _ _ Hi) as (_ & Hu%dir_left_nonneg & Hd%dir_left_nonneg). cbn. lia.
  - destruct (step px l) as [px1|] eqn:Hs; [|done]. cbn in Hrun.
    destruct (step_left _ _ _ _ _ _ _ HI Hi Hr Hs) as [(up' & down' & Hi' & Hle)|[Hi' Hle]].
    + pose proof (IH px1 up' down' (step_ok _ _ _ HI Hs) Hi' (revoked_moved _ _ _ Hr (step_moved _ _ _ Hs)) Hrun). lia.
    + rewrite (done_stays _ _ _ _ Hi' Hrun). case_match; lia.
Qed.

(** A tunnel that is not finished can advance, if need be after one retry. *)
Lemma can_advance px i s up down :
  proxy_ok px -> px_threads px !! i = Some (TTunnel s up down) ->
  exists ls px', run px ls = Some px' /\ advance_count i px ls = 1.
Proof.
  intros HI Hi. destruct (thread_granted _ HI _ _ Hi) as (c & Hc & _).
  assert (forall px1 c1 up1 inp c' d', px_threads px1 !! i = Some (TTunnel s up1 down) ->
    px_cells px1 !! ses_token s = Some c1 -> dir_step c1 up1 inp = Some (c', d') ->
    step px1 (LUp i inp) = Some (set_thread i (TTunnel s d' down) (set_cell (ses_token s) c' px1))
    /\ advances i px1 (LUp i inp) = negb (retries c1 up1 inp)) as Hup.
  { intros px1 c1 up1 inp c' d' Hi1 Hc1 Hd1. cbn. unfold tunnel_step, advances. rewrite Hi1. cbn. rewrite Hc1. cbn.
    rewrite Hd1, Nat.eqb_refl. done. }
  assert (forall inp c' d', dir_step c up inp = Some (c', d') -> retries c up inp = false ->
    exists ls px', run px ls = Some px' /\ advance_count i px ls = 1) as Hone.
  { intros inp c' d' Hd Hre. destruct (Hup px c up inp c' d' Hi Hc Hd) as [Hs Ha].
    exists [LUp i inp], (set_thread i (TTunnel s d' down) (set_cell (ses_token s) c' px)).
    cbn [run advance_count]. rewrite Hs, Ha, Hre. done. }
  destruct up as [| |buf|buf|buf cur|buf g w|buf g w|].
  - by eapply (Hone IGo).
  - by eapply (Hone (IBytes None)).
  - by eapply (Hone IGo).
  - by eapply (Hone IGo).
  - destruct (retries c (DCas buf cur) (IFlag true)) eqn:Hre.
    + (* a stale value: the retry reads the current one *)
      assert (dir_step c (DCas buf cur) (IFlag true) = Some (c, DCas buf (c_used c))) as Hd1.
      { cbn in Hre |- *. destruct (_ =? 0); [done|]. by destruct ((c_used c =? cur) && true). }
      destruct (Hup px c _ _ _ _ Hi Hc Hd1) as [Hs1 Ha1].
      set (px1 := set_thread i (TTunnel s (DCas buf (c_used c)) down) (set_cell (ses_token s) c px)) in *.
      assert (px_threads px1 !! i = Some (TTunnel s (DCas buf (c_used c)) down)) as Hi1
        by (cbn; by rewrite list_lookup_insert_eq by by eapply lookup_lt_Some).
      assert (px_cells px1 !! ses_token s = Some c) as Hc1 by (cbn; by rewrite lookup_insert_eq).
      destruct (dir_step c (DCas buf (c_used c)) (IFlag true)) as [[c2 d2]|] eqn:Hd2.
      * destruct (Hup px1 c _ _ _ _ Hi1 Hc1 Hd2) as [Hs2 Ha2].
        exists [LUp i (IFlag true); LUp i (IFlag true)], (set_thread i (TTunnel s d2 down) (set_cell (ses_token s) c2 px1)).
        cbn [run advance_count]. rewrite Hs1, Ha1, Hre. cbn [mbind option_bind]. rewrite Hs2, Ha2. cbn.
        rewrite Z.eqb_refl, andb_false_r. done.
      * cbn in Hd2. repeat case_match; done.
    + destruct (dir_step c (DCas buf cur) (IFlag true)) as [[c' d']|] eqn:Hd; [by eapply Hone|].
      cbn in Hd. repeat case_match; done.
  - by eapply (Hone (ICount 0)).
  - by eapply (Hone IGo).
  - exists [LSelect i]. cbn [run advance_count]. unfold step, select_step, advances. rewrite Hi. cbn. rewrite Hc. cbn.
    rewrite Nat.eqb_refl. eauto.
Qed.

Lemma run_reaches px ls px' : run px ls = Some px' -> rtc moves px px'.
Proof.
  revert px. induction ls as [|l ls IH]; intros px Hr; cbn in Hr; [by simplify_eq|].
  destruct (step px l) as [px1|] eqn:Hs; [|done]. eapply rtc_l; [by exists l|by apply IH].
Qed.

Lemma reach_config px px' : rtc moves px px' -> px_config px' = px_config px.
Proof. induction 1 as [|px px1 px2 [l Hl] _ IH]; [done|]. by rewrite IH, (step_config _ _ _ Hl). Qed.

Lemma reached_ok cfg px : rtc moves (start cfg) px -> proxy_ok px /\ px_config px = cfg.
Proof. intros Hr. split; [by eapply reach_ok, Hr; apply start_ok|by apply reach_config in Hr]. Qed.

Lemma revoked_reach tok px px' : is_revoked tok px -> rtc moves px px' -> is_revoked tok px'.
Proof. intros HR. induction 1 as [|px px1 px2 [l Hl] _ IH]; [done|]. eauto using revoked_moved, step_moved. Qed.

Lemma cut_reach tok n px px' : proxy_ok px -> cut tok n px -> rtc moves px px' -> cut tok n px'.
Proof.
  intros HI HC Hr. revert HI HC. induction Hr as [|px px1 px2 [l Hl] _ IH]; [done|].
  intros HI HC. apply IH; [by eapply step_ok|]. eapply cut_moved; [done..|by eapply step_moved].
Qed.

Lemma flow_reach tok px px' c c' :
  proxy_ok px -> px_cells px !! tok = Some c -> c_revoked c = true -> rtc moves px px' ->
  px_cells px' !! tok = Some c' ->
  c_moved c' + total (inflight tok) (px_threads px') <= c_moved c + total (inflight tok) (px_threads px).
Proof.
  intros HI Hc Hrev Hr. revert c HI Hc Hrev. induction Hr as [px|px px1 px2 [l Hl] _ IH]; intros c HI Hc Hrev Hc'.
  - simplify_eq. lia.
  - pose proof (step_moved _ _ _ Hl) as Hm.
    destruct (revoked_moved tok _ _ (ex_intro _ c (conj Hc Hrev)) Hm) as (c1 & Hc1 & Hr1).
    pose proof (flow_moved _ _ _ _ _ HI Hc Hrev Hm Hc1). pose proof (IH c1 (step_ok _ _ _ HI Hl) Hc1 Hr1 Hc'). lia.
Qed.

Lemma done_keeps px ls px' i : px_threads px !! i = Some TDone -> run px ls = Some px' -> px_threads px' !! i = Some TDone.
Proof.
  revert px. induction ls as [|l ls IH]; intros px Hi Hrun; cbn in Hrun; [by simplify_eq|].
  destruct (step px l) as [px1|] eqn:Hs; [|done]. apply (IH px1); [|done]. by eapply done_step.
Qed.

(** A revoked tunnel is a tunnel of the same session, or done. *)
Lemma tunnel_or_done px ls px' i s up down :
  proxy_ok px -> px_threads px !! i = Some (TTunnel s up down) -> is_revoked (ses_token s) px -> run px ls = Some px' ->
  px_threads px' !! i = Some TDone \/ exists up' down', px_threads px' !! i = Some (TTunnel s up' down').
Proof.
  revert px up down. induction ls as [|l ls IH]; intros px up down HI Hi Hrev Hrun; cbn in Hrun; [simplify_eq; eauto|].
  destruct (step px l) as [px1|] eqn:Hs; [|done].
  destruct (step_left _ _ _ _ _ _ _ HI Hi Hrev Hs) as [(u & d & Hi1 & _)|[Hi1 _]].
  - eapply (IH px1 u d); try done; [by eapply step_ok|]. by eapply revoked_moved, step_moved.
  - left. by eapply done_keeps.
Qed.

(** * What the client sent *)

(** The token a client presents in its first bytes: as the password of a proxy authorization
    header, or in the username and password negotiation of SOCKS5. *)
Inductive presents (tok : string) : string -> Prop :=
| over_http head req : parse_head head = Some req -> bearer_token req = Some tok -> presents tok head
| over_socks5 first nmethods methods auth_head password_len :
    bytes_of first = [5] -> bytes_of nmethods = [len methods] -> 2 ∈ bytes_of methods ->
    bytes_of auth_head = [1; 2] -> bytes_of password_len = [len tok] ->
    presents tok (first +:+ nmethods +:+ methods +:+ auth_head +:+ "ak" +:+ password_len +:+ tok).

(** A handler that has read [heard] looks a session up only with a token that was presented. *)
Fixpoint says {A} (heard : string) (p : prog A) (Q : string -> A -> Prop) : Prop :=
  match p with
  | Ret a => Q heard a
  | ReadExact n k =>
      says heard (k None) Q /\ forall b, String.length b = n -> says (heard +:+ b) (k (Some b)) Q
  | Write _ k => forall b, says heard (k b) Q
  | GetSession tok k => presents tok heard /\ forall o, says heard (k o) Q
  | LoadRevoked _ k => forall b, says heard (k b) Q
  | LoadUsed _ k => forall n, says heard (k n) Q
  | LookupHost _ _ k => forall o, says heard (k o) Q
  | Connect _ _ k => forall b, says heard (k b) Q
  end.

Definition whatever {A} (_ : string) (_ : A) : Prop := True.

Lemma says_bind {A A'} (p : prog A) (f : A -> prog A') heard Q :
  says heard p (fun h a => says h (f a) Q) -> says heard (p ≫= f) Q.
Proof.
  revert heard. induction p; cbn; intros heard; try by (intros; auto).
  - intros [Hn Hs]. split; [by apply H|]. intros b Hb. by apply H, Hs.
  - intros [Hp Hk]. split; [done|]. intros o. apply H, Hk.
Qed.

Lemma says_mono {A} (p : prog A) heard (Q Q' : string -> A -> Prop) :
  (forall h a, Q h a -> Q' h a) -> says heard p Q -> says heard p Q'.
Proof.
  intros HQ. revert heard. induction p; cbn; intros heard; try by (intros; auto).
  - intros [Hn Hs]. split; [by apply H|]. intros b Hb. by apply H, Hs.
  - intros [Hp Hk]. split; [done|]. intros o. apply H, Hk.
Qed.

(** A handler that looks no session up. *)
Fixpoint mute {A} (p : prog A) : Prop :=
  match p with
  | Ret _ => True
  | ReadExact _ k => forall o, mute (k o)
  | Write _ k | LoadRevoked _ k | Connect _ _ k => forall b, mute (k b)
  | GetSession _ _ => False
  | LoadUsed _ k => forall n, mute (k n)
  | LookupHost _ _ k => forall o, mute (k o)
  end.

Lemma says_mute {A} (p : prog A) heard : mute p -> says heard p whatever.
Proof. revert heard. induction p; cbn; intros heard Hm; try done; eauto. Qed.

Lemma mute_seq {A A'} (p : prog A) (f : A -> prog A') : mute p -> (forall a, mute (f a)) -> mute (p ≫= f).
Proof. intros Hp Hf. induction p; cbn in *; try done; eauto. Qed.

Lemma mute_close status extra : mute (close_with status extra).
Proof. by cbn. Qed.

Lemma mute_validate cfg host port s : mute (validate_target host port s cfg).
Proof. unfold validate_target. repeat (case_match; try done). Qed.

Lemma mute_refused e : mute (target_refused e).
Proof. by destruct e. Qed.

Lemma mute_dial s addr (fail : prog Outcome) reply : mute fail ->
  mute (LoadRevoked s (fun revoked => if (revoked : bool) then Ret Closed else
        Connect s addr (fun up => if negb up then fail else
        LoadRevoked s (fun revoked => if (revoked : bool) then Ret Closed else
        Write reply (fun ok => Ret (if (ok : bool) then Tunnel s addr else Closed)))))).
Proof. intros Hf [|]; cbn; [done|]. intros [|]; cbn; [|done]. by intros [|]. Qed.

Lemma mute_connect cfg req s : mute (handle_connect cfg req s).
Proof.
  unfold handle_connect. case_match; [|done]. destruct p as [host port].
  apply mute_seq; [apply mute_validate|]. intros [addr|e]; [by apply mute_dial|apply mute_refused].
Qed.

Lemma mute_absolute cfg req s : mute (handle_absolute cfg req s).
Proof.
  unfold handle_absolute. case_match; [|done]. case_match. case_match; [|done]. destruct p as [host port].
  apply mute_seq; [apply mute_validate|]. intros [addr|e]; [done|apply mute_refused].
Qed.

(** The head read is all that was heard. *)
Lemma says_read_head todo head :
  says head (read_head_from todo head) (fun h o => forall hd, o = Some hd -> h = hd).
Proof.
  revert head. induction todo as [|todo IH]; intros head; cbn; [done|]. split; [done|]. intros b Hb.
  case_match; [|apply IH]. by intros hd [= <-].
Qed.

Lemma says_handle_http cfg first : says first (handle_http cfg first) whatever.
Proof.
  apply says_bind. eapply says_mono; [|apply says_read_head]. intros h [head|] Hh; [|done].
  rewrite (Hh head eq_refl). clear h Hh. destruct (parse_head head) as [req|] eqn:Ep; [|by apply says_mute].
  apply says_bind. destruct (bearer_token req) as [tok|] eqn:Et; [|by apply says_mute].
  cbn [says]. split; [by eapply over_http|]. intros [s|]; [|by apply says_mute]. cbn [says].
  intros [|]; [by apply says_mute|]. intros n. case_match; [by apply says_mute|].
  case_match; apply says_mute; [apply mute_connect|apply mute_absolute].
Qed.

Lemma mute_socks5_host atyp : mute (socks5_host atyp).
Proof.
  unfold socks5_host. repeat (case_match; [cbn; intros [b|]; [|done]; cbn; try done|]); [|by intros [|]].
  case_match; [by intros [|]|]. intros [d|]; [|done]. case_match; [done|by intros [|]].
Qed.

Lemma mute_socks5_request s : mute (socks5_request s).
Proof.
  cbn. intros [b|]; [|done]. case_match; [by intros [|]|]. apply mute_seq; [apply mute_socks5_host|].
  intros [host|]; [|done]. cbn. by intros [|].
Qed.

Lemma bytes_of_one s : String.length s = 1%nat -> bytes_of s = [nth 0 (bytes_of s) 0].
Proof. destruct s as [|c [|]]; cbn; try done. Qed.

Lemma bytes_of_two s : String.length s = 2%nat -> bytes_of s = [nth 0 (bytes_of s) 0; nth 1 (bytes_of s) 0].
Proof. destruct s as [|c [|d [|]]]; cbn; try done. Qed.

Lemma bytes_of_nonneg s i : 0 <= nth i (bytes_of s) 0.
Proof.
  unfold bytes_of. destruct (nth_in_or_default i (map byte_val (String.list_ascii_of_string s)) 0) as [Hin|Hz]; [|lia].
  apply in_map_iff in Hin as (c & <- & _). unfold byte_val. lia.
Qed.

Lemma says_socks5_session heard username password :
  (username = "ak" -> presents password heard) ->
  says heard (socks5_session username password) (fun h _ => h = heard).
Proof.
  intros Hp. unfold socks5_session. apply says_bind.
  destruct (String.eqb_spec username "ak") as [He|]; cbn [andb]; [|done].
  destruct (utf8_valid password); [|done]. cbn. split; [by apply Hp|]. by intros [s|]; cbn.
Qed.

Lemma says_socks5 cfg first : bytes_of first = [5] -> says first (handle_socks5 cfg) whatever.
Proof.
  intros Hfirst. apply says_bind.
  eapply (says_mono _ _ (fun _ o => True)).
  { intros h [[[s host] port]|] _; [|done]. apply says_mute. intros n. case_match; [done|].
    apply mute_seq; [apply mute_validate|]. intros [addr|[]]; [by apply mute_dial|done..]. }
  unfold socks5_handshake, need, need_str, send, refuse. cbn [says].
  split; [done|]. intros nm Hnm. case_match; [by intros [|]|]. split; [done|]. intros ms Hms.
  destruct (bool_decide (2 ∈ bytes_of ms)) eqn:E2; cbn [negb]; [|by intros [|]]. apply bool_decide_eq_true in E2.
  intros [|]; [|done]. cbn [says]. split; [done|]. intros ah Hah.
  case_match eqn:Eh; [by intros [|]|]. apply orb_false_iff in Eh as [Hv%negb_false_iff%Z.eqb_eq _].
  split; [done|]. intros u Hu. split; [done|]. intros pl Hpl. case_match; [by intros [|]|].
  split; [done|]. intros pw Hpw. apply says_bind.
  eapply says_mono; [|apply says_socks5_session].
  { intros h [s|] _; [|by intros [|]]. intros [|]; [|done]. apply (says_mono _ _ whatever); [done|].
    apply says_mute, mute_socks5_request. }
  intros ->. rewrite !str_app_assoc. apply over_socks5; try done.
  - rewrite (bytes_of_one nm) by done. unfold len. rewrite Hms, Z2Nat.id by apply bytes_of_nonneg. done.
  - rewrite (bytes_of_two ah) by done. rewrite Hv. f_equal. f_equal.
    pose proof (bytes_of_nonneg ah 1). cbn in Hu. lia.
  - rewrite (bytes_of_one pl) by done. unfold len. rewrite Hpw, Z2Nat.id by apply bytes_of_nonneg. done.
Qed.

Lemma says_handle_connection cfg : says EmptyString (handle_connection cfg) whatever.
Proof.
  split; [done|]. intros first _. change (EmptyString +:+ first) with first.
  case_bool_decide; [by apply says_socks5|apply says_handle_http].
Qed.

(** The bytes each connection's handler has read in a run. *)
Definition hear (h : nat -> string) (l : Label) : nat -> string :=
  match l with
  | LHandle i (IBytes (Some b)) => fun j => if Nat.eqb j i then h i +:+ b else h j
  | _ => h
  end.

Definition heard (ls : list Label) : nat -> string := foldl hear (fun _ => EmptyString) ls.

(** What handlers are about to ask for was presented, and what they asked for. *)
Record honest (h : nat -> string) (px : Proxy) : Prop := {
  hon_threads i p : px_threads px !! i = Some (THandle p) -> says (h i) p whatever;
  hon_fresh i : (length (px_threads px) <= i)%nat -> h i = EmptyString;
  hon_auths i s : WAuth i s ∈ px_log px ->
    exists sent rest, h i = sent +:+ rest /\ presents (ses_token s) sent;
}.

Lemma honest_start cfg : honest (fun _ => EmptyString) (start cfg).
Proof. split; cbn; try done. intros i s Hin. by apply not_elem_of_nil in Hin. Qed.

(** A move that neither reads from a client nor looks a session up. *)
Lemma honest_same h px px' :
  (forall i p, px_threads px' !! i = Some (THandle p) -> px_threads px !! i = Some (THandle p)) ->
  length (px_threads px') = length (px_threads px) ->
  (forall i s, WAuth i s ∈ px_log px' -> WAuth i s ∈ px_log px) -> honest h px -> honest h px'.
Proof.
  intros Ht Hl Ha [H1 H2 H3]. split; [intros; by apply H1, Ht|intros i Hi; apply H2; lia|intros i s Hin; by apply H3, Ha].
Qed.

Lemma honest_set h px px' i t t' es :
  px_threads px !! i = Some t -> px_threads px' = <[i := t']> (px_threads px) -> px_log px' = px_log px ++ es ->
  (forall p, t' <> THandle p) -> (forall j s, WAuth j s ∉ es) -> honest h px -> honest h px'.
Proof.
  intros Hi Ht Hl Hn He. apply honest_same.
  - intros j p. rewrite Ht. destruct (decide (j = i)) as [->|?]; [|by rewrite list_lookup_insert_ne].
    rewrite list_lookup_insert_eq by (by eapply lookup_lt_Some). by intros [= ?%Hn].
  - by rewrite Ht, length_insert.
  - intros j s. rewrite Hl. intros [?|?%He]%elem_of_app; done.
Qed.

Lemma honest_handle h px i p inp es t' :
  proxy_ok px -> honest h px -> px_threads px !! i = Some (THandle p) -> prog_step px i p inp = Some (es, t') ->
  honest (hear h (LHandle i inp))
    (mkProxy (px_config px) (px_sessions px) (px_cells px) (<[i := t']> (px_threads px)) (px_log px ++ es)).
Proof.
  intros HI [H1 H2 H3] Hi Hs. pose proof (H1 _ _ Hi) as Hp. pose proof (lookup_lt_Some _ _ _ Hi) as Hlt.
  set (h' := hear h (LHandle i inp)).
  assert (forall j, j <> i -> h' j = h j) as Hother.
  { intros j Hj. unfold h', hear. destruct inp as [[b|]| | | |]; try done. by rewrite (proj2 (Nat.eqb_neq j i)). }
  assert (exists rest, h' i = h i +:+ rest) as [rest Hrest].
  { unfold h', hear. destruct inp as [[b|]| | | |]; try (exists EmptyString; by rewrite str_app_nil_r).
    exists b. by rewrite Nat.eqb_refl. }
  assert ((forall p', t' = THandle p' -> says (h' i) p' whatever)
    /\ forall j s, WAuth j s ∈ es -> j = i /\ presents (ses_token s) (h i)) as [Hnew Hes].
  { destruct p, inp; cbn in Hs, Hp; try done; simplify_option_eq.
    - split; [by destruct a|]. by intros j s Hin%elem_of_nil.
    - case_match eqn:Eo; [|done]. simplify_eq. split; [|by intros j s Hin%elem_of_nil].
      intros p' [= <-]. unfold h', hear. destruct o as [b|]; [|apply Hp].
      rewrite Nat.eqb_refl. apply Hp. by apply Nat.eqb_eq.
    - split; [|by intros j s Hin%elem_of_nil]. intros p' [= <-]. apply Hp.
    - destruct Hp as [Hpr Hk]. split; [intros p' [= <-]; apply Hk|]. intros j s Hin.
      destruct (px_sessions px !! token) as [s'|] eqn:E; [|by apply elem_of_nil in Hin].
      apply list_elem_of_singleton in Hin. simplify_eq. by rewrite (proj1 (ok_sessions _ HI _ _ E)).
    - split; [|by intros j s' Hin%elem_of_nil]. intros p' [= <-]. apply Hp.
    - split; [|by intros j s' Hin%elem_of_nil]. intros p' [= <-]. apply Hp.
    - split; [intros p' [= <-]; apply Hp|]. intros j s Hin. destruct o; [by apply list_elem_of_singleton in Hin|by apply elem_of_nil in Hin].
    - split; [intros p' [= <-]; apply Hp|]. intros j s' Hin. by apply list_elem_of_singleton in Hin. }
  clearbody h'. split; cbn.
  - intros j p'. destruct (decide (j = i)) as [->|Hj].
    + rewrite list_lookup_insert_eq by done. intros [= ->]. by apply Hnew.
    + rewrite list_lookup_insert_ne by done. rewrite Hother by done. apply H1.
  - rewrite length_insert. intros j Hj. rewrite Hother by lia. by apply H2.
  - intros j s [Hin|Hin]%elem_of_app.
    + destruct (H3 _ _ Hin) as (sent & r & Heq & Hpr). destruct (decide (j = i)) as [->|Hj].
      * exists sent, (r +:+ rest). rewrite Hrest, Heq. split; [by rewrite str_app_assoc|done].
      * rewrite Hother by done. by exists sent, r.
    + destruct (Hes _ _ Hin) as [-> Hpr]. by exists (h i), rest.
Qed.

Lemma honest_step h px l px' : proxy_ok px -> honest h px -> step px l = Some px' -> honest (hear h l) px'.
Proof.
  intros HI HH Hs. destruct l as [tok domains cap|tok|tok| |i inp|i inp|i inp|i]; cbn [step hear] in *.
  - unfold grant in Hs. case_match; [|done]. simplify_eq. by apply (honest_same h px).
  - unfold drop_flag in Hs. simplify_option_eq. by apply (honest_same h px).
  - unfold drop_remove in Hs. destruct (px_cells px !! tok) as [c|]; [|done]. cbn in Hs. case_match; [|done].
    simplify_eq. by apply (honest_same h px).
  - injection Hs as <-. destruct HH as [H1 H2 H3]. split; cbn; [|intros i; rewrite length_app; cbn; intros Hi; apply H2; lia|done].
    intros i p [Hi|[Hlt Hi]]%lookup_app_Some; [by apply H1|].
    apply list_lookup_singleton_Some in Hi as [_ [= <-]]. rewrite H2 by done. apply says_handle_connection.
  - unfold handle_step in Hs. destruct (px_threads px !! i) as [t|] eqn:Hi; [|done]. cbn in Hs.
    destruct t as [p|s addr out f| |]; try done.
    + destruct (prog_step px i p inp) as [[es t']|] eqn:Hp; [|done]. cbn in Hs. injection Hs as <-.
      rewrite add_events. exact (honest_handle h px i p inp es t' HI HH Hi Hp).
    + destruct (px_cells px !! ses_token s) as [c|] eqn:Hc; [|done]. cbn in Hs.
      destruct (fwd_step c out f inp) as [[[c' f'] dialled]|] eqn:Hf; [|done]. cbn in Hs. injection Hs as <-.
      assert (hear h (LHandle i inp) = h) as Hh by (destruct inp, f; done). cbn [hear] in Hh. rewrite Hh.
      eapply (honest_set h px _ i _ _ (if dialled then [WDialled i s addr] else [])); [exact Hi|by destruct dialled| | | |exact HH].
      * destruct dialled; [done|]. cbn. by rewrite app_nil_r.
      * destruct f' as [f'|]; [done|]. intros p. unfold after_forward. by repeat case_match.
      * intros j s' Hin. destruct dialled; [by apply list_elem_of_singleton in Hin|by apply elem_of_nil in Hin].
  - unfold tunnel_step in Hs. destruct (px_threads px !! i) as [t|] eqn:Hi; [|done]. cbn in Hs.
    destruct t as [| |s up down|]; try done. destruct (px_cells px !! ses_token s) as [c|]; [|done]. cbn in Hs.
    destruct (dir_step _ _ _) as [[c' d']|]; [|done]. cbn in Hs. injection Hs as <-.
    eapply (honest_set h px _ i _ _ []); [exact Hi|done|cbn; by rewrite app_nil_r|done|by intros j s' Hin%elem_of_nil|exact HH].
  - unfold tunnel_step in Hs. destruct (px_threads px !! i) as [t|] eqn:Hi; [|done]. cbn in Hs.
    destruct t as [| |s up down|]; try done. destruct (px_cells px !! ses_token s) as [c|]; [|done]. cbn in Hs.
    destruct (dir_step _ _ _) as [[c' d']|]; [|done]. cbn in Hs. injection Hs as <-.
    eapply (honest_set h px _ i _ _ []); [exact Hi|done|cbn; by rewrite app_nil_r|done|by intros j s' Hin%elem_of_nil|exact HH].
  - unfold select_step in Hs. destruct (px_threads px !! i) as [t|] eqn:Hi; [|done]. cbn in Hs.
    destruct t as [| |s up down|]; try done. simplify_option_eq.
    eapply (honest_set h px _ i _ _ []); [exact Hi|done|cbn; by rewrite app_nil_r|done|by intros j s' Hin%elem_of_nil|exact HH].
Qed.

Lemma honest_run h px ls px' : proxy_ok px -> honest h px -> run px ls = Some px' -> honest (foldl hear h ls) px'.
Proof.
  revert h px. induction ls as [|l ls IH]; intros h px HI HH Hr; cbn in *; [by simplify_eq|].
  destruct (step px l) as [px1|] eqn:Hs; [|done]. eapply IH; [by eapply step_ok|by eapply honest_step|done].
Qed.

(** * Properties *)

(** C13: The egress proxy dials only where policy lets the step go, and only for a client that
    presented the token.  In every interleaving of grants, connections, tunnels and revocations,
    a connection handler that dials an address has before looked up a granted session whose token
    is the one its client sent, as the proxy authorization of its request or as the password of
    its SOCKS5 negotiation; the port is not zero; and either the test-only loopback override is
    on and the address is a loopback one, or the port is allowed and the handler has resolved a
    host name (no literal address) that the session's domains cover, every address of that
    answer is outside the private, loopback, link-local and metadata ranges (save loopback, with
    the override), and the dialled one is the first of them. *)
Theorem egress_dials_vetted cfg ls px i s addr l1 l2 :
  run (start cfg) ls = Some px ->
  px_log px = l1 ++ WDialled i s addr :: l2 ->
  granted px s /\ WAuth i s ∈ l1
  /\ (exists sent rest, heard ls i = sent +:+ rest /\ presents (ses_token s) sent)
  /\ addr_port addr <> 0
  /\ ((danger_allow_loopback cfg = true /\ is_loopback (addr_ip addr) = true)
      \/ port_allowed cfg (addr_port addr) = true
         /\ exists host ips,
              WResolved i host (addr_port addr) (addr_ip addr :: ips) ∈ l1
              /\ parse_ip host = None
              /\ existsb (fun g => glob_match g host) (ses_domains s) = true
              /\ Forall (fun ip => is_forbidden_ip ip = false
                               \/ danger_allow_loopback cfg = true /\ is_loopback ip = true) (addr_ip addr :: ips)).
Proof.
  intros Hrun Hlog. pose proof (run_reaches _ _ _ Hrun) as [HI Hcfg]%reached_ok.
  pose proof (honest_run _ _ _ _ (start_ok cfg) (honest_start cfg) Hrun) as HH.
  pose proof (ok_dials _ HI _ _ _ _ _ Hlog) as (Hs & Hp & Hv). rewrite Hcfg in Hv. apply auth_of_elem in Hs.
  assert (WAuth i s ∈ px_log px) as Hs' by (rewrite Hlog; apply elem_of_app; by left).
  split_and!; [by eapply ok_auths|done|by apply (hon_auths _ _ HH)|done|].
  destruct Hv as [(host & ips & Hr & Hg & Hip & Hf & Hport)|Hlo]; [|by left].
  apply orb_true_iff in Hport as [Hport|[? ?]%andb_true_iff]; [right|by left].
  split; [done|]. exists host, ips. split_and!; [by apply res_of_elem|done|done|].
  eapply Forall_impl; [done|]. intros ip. unfold addr_refused.
  intros [Hl%negb_false_iff%andb_true_iff|?]%andb_false_iff; [by right|by left].
Qed.

(** C14: The byte budget of an egress session is never exceeded and exactly charged.  In every
    interleaving of its connections, the bytes written in either direction are at most the
    counter, the counter is at most the cap and never wraps, and it is the bytes written plus
    those reserved by writes still under way; once the session's threads hold no reservation
    the counter is exactly the bytes written. *)
Theorem egress_bytes_capped cfg px tok c :
  rtc moves (start cfg) px -> px_cells px !! tok = Some c ->
  0 <= c_moved c <= c_used c /\ c_used c <= ses_cap (c_session c) <= u64_max
  /\ c_used c = c_moved c + total (pending tok) (px_threads px)
  /\ (Forall (fun t => t = TDone) (px_threads px) -> c_used c = c_moved c).
Proof.
  intros [HI _]%reached_ok Hc. destruct (ok_cells _ HI _ _ Hc) as [_ Hcap Hm Hch Hb].
  pose proof (total_nonneg _ _ (pending_nonneg px HI tok)). split_and!; try lia.
  intros Hdone. replace (total _ _) with 0 in Hch; [lia|]. clear -Hdone. by induction Hdone as [|t ts -> _ IH].
Qed.

(** C15: Dropping an egress grant cuts its traffic.  Once its flag is set, no connection
    accepted from then on ever dials for its token, and the connections already open write,
    all together, at most the bytes they held in a buffer they had already been cleared to
    send. *)
Theorem egress_revocation_cuts cfg px px' tok c c' :
  rtc moves (start cfg) px -> px_cells px !! tok = Some c -> c_revoked c = true ->
  rtc moves px px' -> px_cells px' !! tok = Some c' ->
  (forall i s addr, (length (px_threads px) <= i)%nat -> WDialled i s addr ∈ px_log px' -> ses_token s <> tok)
  /\ c_moved c' <= c_moved c + total (inflight tok) (px_threads px).
Proof.
  intros [HI _]%reached_ok Hc Hrev Hr Hc'. split.
  - assert (cut tok (length (px_threads px)) px) as HC.
    { constructor; [by exists c|done|..].
      - intros i t Hge Hi%lookup_lt_Some. lia.
      - intros i s addr Hge Hin%(ok_events _ HI). cbn in Hin. lia. }
    apply (cut_reach _ _ _ _ HI HC Hr).
  - pose proof (flow_reach _ _ _ _ _ HI Hc Hrev Hr Hc').
    pose proof (total_nonneg _ _ (inflight_nonneg _ tok (reach_ok _ _ HI Hr))). lia.
Qed.

(** A tunnel of a revoked grant ends.  Whatever the clients, the servers and the other
    threads do, it advances at most 16,395 more times (two buffers of 8,192 bytes, written
    byte by byte), not counting failed compare-exchanges, and until it has ended it can
    always advance, after at most one retry. *)
Theorem revoked_tunnel_drains cfg px ls px' i s up down :
  rtc moves (start cfg) px -> px_threads px !! i = Some (TTunnel s up down) ->
  is_revoked (ses_token s) px -> run px ls = Some px' ->
  advance_count i px ls <= 16395
  /\ (px_threads px' !! i = Some TDone
      \/ exists ls' px'', run px' ls' = Some px'' /\ advance_count i px' ls' = 1).
Proof.
  intros [HI _]%reached_ok Hi Hrev Hrun. split.
  - pose proof (drains _ _ _ _ _ _ _ HI Hi Hrev Hrun). pose proof (ok_threads _ HI _ _ Hi) as (_ & Hu & Hd).
    assert (forall d, dir_ok d -> dir_left d <= 8197) as Hle by (intros d Hdir; destruct d; cbn in *; lia).
    apply Hle in Hu, Hd. cbn in *. lia.
  - pose proof (reach_ok _ _ HI (run_reaches _ _ _ Hrun)) as HI'.
    destruct (tunnel_or_done _ _ _ _ _ _ _ HI Hi Hrev Hrun) as [?|(u & d & Hi')]; [by left|right]. by eapply can_advance.
Qed.

(** * Witnesses

    A grant for [*.example.org], a CONNECT through it, a few bytes, and the
    grant dropped while the tunnel holds a buffer. *)
Module EgressDemo.

Definition token : string := "eg-1".
Definition session : Session := grant_session token ["*.Example.org."] 100.
Definition public : IpAddr := V4 (mkV4 93 184 216 34).

Definition request : string :=
  "CONNECT api.example.org:443 HTTP/1.1" +:+ crlf
  +:+ "Proxy-Authorization: Basic " +:+ encode ("ak:" +:+ token) +:+ crlf +:+ crlf.

Definition sent (i : nat) (bytes : string) : list Label :=
  map (fun c => LHandle i (IBytes (Some (String c EmptyString)))) (String.list_ascii_of_string bytes).

(** The request is read, authenticated, resolved and dialled. *)
Definition connect : list Label :=
  [LGrant token ["*.Example.org."] 100; LAccept] ++ sent 0 request
  ++ [LHandle 0 IGo; LHandle 0 IGo; LHandle 0 IGo; LHandle 0 (IAddrs (Some [public])); LHandle 0 IGo;
      LHandle 0 (IFlag true); LHandle 0 IGo; LHandle 0 (IFlag true); LHandle 0 IGo].

(** Both directions; the one up has five bytes cleared when the flag is set. *)
Definition talk : list Label :=
  [LUp 0 IGo; LDown 0 IGo; LUp 0 (IBytes (Some "hello")); LDown 0 (IBytes (Some "hi")); LUp 0 IGo; LDown 0 IGo;
   LUp 0 IGo; LDown 0 IGo; LUp 0 (IFlag true); LDown 0 (IFlag true); LDown 0 (IFlag true); LUp 0 (ICount 2);
   LDown 0 (ICount 2); LDown 0 IGo; LFlag token].

Definition finish : list Label :=
  [LUp 0 (ICount 3); LDown 0 IGo; LRemove token; LSelect 0; LAccept].

Definition after (px : Proxy) (ls : list Label) : Proxy := default px (run px ls).

Definition opened : Proxy := after (start egress_default) connect.
Definition flagged : Proxy := after opened talk.
Definition ended : Proxy := after flagged finish.

Lemma after_run px ls : match run px ls with Some _ => true | None => false end = true -> run px ls = Some (after px ls).
Proof. unfold after. by destruct (run px ls). Qed.

Lemma opened_run : run (start egress_default) connect = Some opened.
Proof. apply after_run. by vm_compute. Qed.
Lemma flagged_run : run opened talk = Some flagged.
Proof. apply after_run. by vm_compute. Qed.
Lemma ended_run : run flagged finish = Some ended.
Proof. apply after_run. by vm_compute. Qed.

Lemma opened_reached : rtc moves (start egress_default) opened.
Proof. exact (run_reaches _ _ _ opened_run). Qed.
Lemma flagged_reached : rtc moves (start egress_default) flagged.
Proof. exact (PreOrder_Transitive _ _ _ opened_reached (run_reaches _ _ _ flagged_run)). Qed.

Lemma egress_dials_vetted_witness :
  exists l1 l2 sent rest, px_log opened = l1 ++ WDialled 0 session (mkAddr public 443) :: l2 /\ WAuth 0 session ∈ l1
    /\ heard connect 0 = sent +:+ rest /\ presents token sent.
Proof.
  assert (px_log opened = [WAuth 0 session; WResolved 0 "api.example.org" 443 [public]]
    ++ WDialled 0 session (mkAddr public 443) :: []) as Hlog by by vm_compute.
  destruct (egress_dials_vetted egress_default connect opened 0 session (mkAddr public 443) _ _
    opened_run Hlog) as (_ & Ha & (sent & rest & Hh & Hp) & _).
  exists [WAuth 0 session; WResolved 0 "api.example.org" 443 [public]], [], sent, rest.
  split; [exact Hlog|]. split; [exact Ha|]. split; [exact Hh|exact Hp].
Defined.

Definition flagged_cell : Cell := mkCell session 7 true 4.
Definition ended_cell : Cell := mkCell session 7 true 7.

Lemma flagged_cell_ok : px_cells flagged !! token = Some flagged_cell.
Proof. by vm_compute. Qed.
Lemma ended_cell_ok : px_cells ended !! token = Some ended_cell.
Proof. by vm_compute. Qed.

Lemma egress_bytes_capped_witness : px_cells flagged !! token = Some flagged_cell
  /\ 7 = 4 + total (pending token) (px_threads flagged).
Proof.
  split; [exact flagged_cell_ok|].
  exact (proj1 (proj2 (proj2 (egress_bytes_capped egress_default flagged token flagged_cell
    flagged_reached flagged_cell_ok)))).
Defined.

Lemma egress_revocation_cuts_witness : 7 <= 4 + total (inflight token) (px_threads flagged).
Proof.
  exact (proj2 (egress_revocation_cuts egress_default flagged ended token flagged_cell ended_cell
    flagged_reached flagged_cell_ok eq_refl (run_reaches _ _ _ ended_run) ended_cell_ok)).
Defined.

Lemma revoked_tunnel_drains_witness : advance_count 0 flagged finish <= 16395.
Proof.
  exact (proj1 (revoked_tunnel_drains egress_default flagged finish ended 0 session (DWrite "hello" 5 2) DTop
    flagged_reached eq_refl (ex_intro _ flagged_cell (conj flagged_cell_ok eq_refl)) ended_run)).
Defined.
End EgressDemo.
