(* ===== verification/Service.v ===== *)
(** Calls on the outside.

    The connectors are programs that ask something of an external service and
    go on with its answer.  Such a program runs over the state [W] of a world
    it knows nothing about, which answers every call as it likes and may change
    with it, and over the log of the calls made so far.  A statement that holds
    of every world and every way it answers is a statement about the connector
    alone.  [logged] is the logic of these programs: what a run adds to the log
    and what it ends in. *)

From S2P Require Import Prelude Types Json.

Record Run (E W : Type) := mkRun { r_log : list E; r_world : W }.
Arguments mkRun {E W} _ _.
Arguments r_log {E W} _.
Arguments r_world {E W} _.

Definition Act (E W A : Type) : Type := Run E W -> KernelResult A * Run E W.

#[export] Instance act_ret {E W} : MRet (Act E W) := fun A a r => (Ok a, r).
#[export] Instance act_bind {E W} : MBind (Act E W) := fun A B f m r =>
  match m r with
  | (Ok a, r') => f a r'
  | (Err e, r') => (Err e, r')
  end.

(** A value computed without calling anything. *)
Definition pure_act {E W A} (x : KernelResult A) : Act E W A := fun r => (x, r).

(** One call: the event is logged and the world answers. *)
Definition ask {E W A} (event : E) (answer : W -> A * W) : Act E W A := fun r =>
  let '(a, w) := answer (r_world r) in (Ok a, mkRun (r_log r ++ [event]) w).

(** A call whose event records what the world answered. *)
Definition ask_seen {E W A} (event : A -> E) (answer : W -> A * W) : Act E W A := fun r =>
  let '(a, w) := answer (r_world r) in (Ok a, mkRun (r_log r ++ [event a]) w).

(** A call that leaves no event. *)
Definition peek {E W A} (answer : W -> A * W) : Act E W A := fun r =>
  let '(a, w) := answer (r_world r) in (Ok a, mkRun (r_log r) w).

(** What a run answers, from a world and an empty log. *)
Definition outcome_of {E W A} (m : Act E W A) (w : W) : KernelResult A := (m (mkRun [] w)).1.
Definition log_of {E W A} (m : Act E W A) (w : W) : list E := r_log (m (mkRun [] w)).2.

(** * The logic of runs *)

(** Every run adds events that, with its outcome, satisfy [Q]. *)
Definition logged {E W A} (m : Act E W A) (Q : list E -> KernelResult A -> Prop) : Prop :=
  forall r x r', m r = (x, r') -> exists l, r_log r' = r_log r ++ l /\ Q l x.

Section rules.
Context {E W : Type}.

Lemma logged_ret {A} (a : A) (Q : list E -> KernelResult A -> Prop) :
  Q [] (Ok a) -> logged (W := W) (mret a) Q.
Proof. intros HQ r x r' [= <- <-]. exists []. by rewrite app_nil_r. Qed.

Lemma logged_pure {A} x (Q : list E -> KernelResult A -> Prop) :
  Q [] x -> logged (W := W) (pure_act x) Q.
Proof. intros HQ r y r' [= <- <-]. exists []. by rewrite app_nil_r. Qed.

Lemma logged_ask {A} e (answer : W -> A * W) (Q : list E -> KernelResult A -> Prop) :
  (forall a, Q [e] (Ok a)) -> logged (ask e answer) Q.
Proof. intros HQ r x r'. unfold ask. destruct (answer _) as [a w]. intros [= <- <-]. by exists [e]. Qed.

Lemma logged_ask_seen {A} (e : A -> E) (answer : W -> A * W) (Q : list E -> KernelResult A -> Prop) :
  (forall a, Q [e a] (Ok a)) -> logged (ask_seen e answer) Q.
Proof. intros HQ r x r'. unfold ask_seen. destruct (answer _) as [a w]. intros [= <- <-]. by exists [e a]. Qed.

Lemma logged_peek {A} (answer : W -> A * W) (Q : list E -> KernelResult A -> Prop) :
  (forall a, Q [] (Ok a)) -> logged (peek answer) Q.
Proof.
  intros HQ r x r'. unfold peek. destruct (answer _) as [a w]. intros [= <- <-]. exists []. by rewrite app_nil_r.
Qed.

(** The rule of sequencing: the first part's events come before the second's. *)
Lemma logged_bind {A B} (m : Act E W A) (f : A -> Act E W B) (P : list E -> KernelResult A -> Prop) Q :
  logged m P -> (forall l e, P l (Err e) -> Q l (Err e)) ->
  (forall l a, P l (Ok a) -> logged (f a) (fun l' x => Q (l ++ l') x)) ->
  logged (m ≫= f) Q.
Proof.
  intros Hm He Hf r x r'. unfold mbind, act_bind. destruct (m r) as [[a|e] r1] eqn:Em; intros Hr.
  - destruct (Hm _ _ _ Em) as (l & Hl & HP). destruct (Hf _ _ HP _ _ _ Hr) as (l' & Hl' & HQ).
    exists (l ++ l'). by rewrite Hl', Hl, app_assoc.
  - simplify_eq. destruct (Hm _ _ _ Em) as (l & Hl & HP). eauto.
Qed.

Lemma logged_weaken {A} (m : Act E W A) (P Q : list E -> KernelResult A -> Prop) :
  logged m P -> (forall l x, P l x -> Q l x) -> logged m Q.
Proof. intros Hm HPQ r x r' Hr. destruct (Hm _ _ _ Hr) as (l & Hl & HP). eauto. Qed.

(** A computed value, then the rest. *)
Lemma logged_pure_bind {A B} (v : KernelResult A) (f : A -> Act E W B) Q :
  (forall e, v = Err e -> Q [] (Err e)) -> (forall a, v = Ok a -> logged (f a) Q) ->
  logged (pure_act v ≫= f) Q.
Proof.
  intros He Ha. eapply (logged_bind _ _ (fun l x => l = [] /\ x = v)); [by apply logged_pure|..].
  - intros l e [-> Hv]. by apply He.
  - intros l a [-> Hv]. by apply Ha.
Qed.

Lemma log_of_logged {A} (m : Act E W A) Q w : logged m Q -> Q (log_of m w) (outcome_of m w).
Proof.
  intros Hm. unfold log_of, outcome_of. destruct (m (mkRun [] w)) as [x r'] eqn:Er.
  destruct (Hm _ _ _ Er) as (l & Hl & HQ). cbn in *. by rewrite Hl.
Qed.
End rules.

(** * JSON accessors the connectors share *)

Definition as_object (v : Value) : option (list (string * Value)) :=
  match v with Object m => Some m | _ => None end.

Definition as_array (v : Value) : option (list Value) :=
  match v with Array l => Some l | _ => None end.

Definition as_u64 (v : Value) : option Z :=
  match v with Number (PosInt n) => Some n | _ => None end.

Definition is_string (v : Value) : bool := match v with Str _ => true | _ => false end.

(** [v.get(key).cloned().unwrap_or(Value::Null)]. *)
Definition get_or_null (key : string) (v : Value) : Value := default Null (value_get key v).

(** A text in backquotes. *)
Definition quoted (s : string) : string := "`" +:+ s +:+ "`".

Definition conn_err (msg : string) : KernelError := EConnector msg.

(** [is_success] and [is_redirection] of an HTTP status. *)
Definition is_success (status : Z) : bool := ((200 <=? status) && (status <=? 299))%Z.
Definition is_redirection (status : Z) : bool := ((300 <=? status) && (status <=? 399))%Z.
