(* ===== verification/GithubConn.v ===== *)
(** The GitHub connector, [connectors/github/src/lib.rs].

    The REST API and the source of tokens are the world: a request is logged
    as it is sent, and any answer may come back.  The properties say what the
    connector asks for, whatever the answers: previews only read, a commit
    sends one write, the one its operation stands for, and a compensation undoes
    that write and nothing else. *)

From stdpp Require Import pretty.
From S2P Require Import Prelude Types Json Effect Broker Path Service.

Inductive Method : Type := GET | POST | PATCH | DELETE.

#[export] Instance method_eq_dec : EqDecision Method.
Proof. solve_decision. Defined.

Record Request := mkRequest {
  rq_method : Method;
  rq_url : string;
  rq_headers : list (string * string);
  rq_body : option Value;
}.

(** What [send] and reading the body give. *)
Inductive Answer : Type :=
| SendFailed (why : string)
| Answered (status : Z) (body : result string string).

(** The service, the token source, and the texts of foreign types. *)
Class GithubWorld (W : Type) := {
  api : Request -> W -> Answer * W;
  token : W -> KernelResult string * W;
  status_display : Z -> string;
  json_from_str : string -> result string Value;
}.

Module Github.

Definition OP_READ_REPO : string := "github.read_repository".
Definition OP_CREATE_BRANCH : string := "github.create_branch".
Definition OP_CREATE_DRAFT_PR : string := "github.create_draft_pull_request".
Definition OP_COMMENT_ISSUE : string := "github.comment_on_issue".

Definition name : string := "github".

Definition operations : list (string * EffectClass) :=
  [(OP_READ_REPO, Pure); (OP_CREATE_BRANCH, Compensatable);
   (OP_CREATE_DRAFT_PR, Compensatable); (OP_COMMENT_ISSUE, Irreversible)].

(** [GithubConnector::new] drops the trailing slashes of its base URL. *)
Definition new_base (base : string) : string := trim_end_slash base.

(** * Arguments *)

Definition get_str (args : Value) (key : string) : KernelResult string :=
  ok_or (value_get key args ≫= as_str)
    (conn_err ("missing or non-string required field " +:+ quoted key)).

Definition issue_number (args : Value) : KernelResult Z :=
  ok_or (value_get "issue_number" args ≫= as_u64)
    (conn_err ("`issue_number` must be an unsigned integer")).

(** The three loops of [validate_fields]. *)
Fixpoint known_keys (known : list string) (obj : list (string * Value)) : KernelResult () :=
  match obj with
  | [] => Ok tt
  | (key, _) :: rest =>
      if bool_decide (key ∈ known) then known_keys known rest
      else Err (conn_err ("unknown field " +:+ quoted key))
  end.

Fixpoint required_strings (args : Value) (required : list string) : KernelResult () :=
  match required with
  | [] => Ok tt
  | key :: rest => get_str args key;; required_strings args rest
  end.

Fixpoint optional_strings (obj : list (string * Value)) (optional : list string) : KernelResult () :=
  match optional with
  | [] => Ok tt
  | key :: rest =>
      match im_get key obj with
      | Some v => if is_string v then optional_strings obj rest
                  else Err (conn_err ("field " +:+ quoted key +:+ " must be a string"))
      | None => optional_strings obj rest
      end
  end.

Definition validate_fields (args : Value) (required optional : list string) : KernelResult () :=
  obj ← ok_or (as_object args) (conn_err "arguments must be a JSON object");
  known_keys (required ++ optional) obj;;
  required_strings args required;;
  optional_strings obj optional.

Definition canonicalize (operation : string) (args : Value) : KernelResult Value :=
  (if String.eqb operation OP_READ_REPO then validate_fields args ["owner"; "repo"] []
   else if String.eqb operation OP_CREATE_BRANCH then
     validate_fields args ["owner"; "repo"; "branch"; "from_branch"] []
   else if String.eqb operation OP_CREATE_DRAFT_PR then
     validate_fields args ["owner"; "repo"; "title"; "head"; "base"] ["body"]
   else if String.eqb operation OP_COMMENT_ISSUE then
     validate_fields args ["owner"; "repo"; "body"] ["issue_number"];;
     match value_get "issue_number" args ≫= as_u64 with
     | Some _ => Ok tt
     | None => Err (conn_err "`issue_number` must be an unsigned integer")
     end
   else Err (conn_err ("unsupported operation " +:+ quoted operation
                       +:+ " (merge/delete/admin operations do not exist)")));;
  Ok args.

(** * Requests *)

Section calls.
Context {W : Type} `{!GithubWorld W} (base_url : string).

(** A call is logged with the answer it got. *)
Abbreviation Gh := (Act (Request * Answer) W) (only parsing).

Definition request_of (method : Method) (path token : string) (body : option Value) : Request :=
  mkRequest method (base_url +:+ path)
    [("Authorization", "Bearer " +:+ token); ("Accept", "application/vnd.github+json");
     ("User-Agent", "agent-kernel")] body.

Definition read_answer (path : string) (answer : Answer) : KernelResult Value :=
  match answer with
  | SendFailed why => Err (conn_err why)
  | Answered status (Err why) => Err (conn_err why)
  | Answered status (Ok text) =>
      if negb (is_success status) then
        Err (conn_err ("github " +:+ path +:+ " returned " +:+ status_display status +:+ ": " +:+ text))
      else if str_is_empty text then Ok Null
      else map_err ESerde (json_from_str text)
  end.

Definition request (method : Method) (path : string) (body : option Value) : Gh Value :=
  token ← peek token;
  token ← pure_act token;
  let rq := request_of method path token body in
  answer ← ask_seen (fun answer => (rq, answer)) (api rq);
  pure_act (read_answer path answer).

Definition repo_path (owner repo : string) : string := "/repos/" +:+ owner +:+ "/" +:+ repo.

Definition head_path (owner repo branch : string) : string :=
  repo_path owner repo +:+ "/git/ref/heads/" +:+ branch.

Definition sha_of (branch : string) (v : Value) : KernelResult string :=
  ok_or ((value_get "object" v ≫= value_get "sha") ≫= as_str)
    (conn_err ("ref heads/" +:+ branch +:+ ": response missing object.sha")).

Definition branch_head_sha (owner repo branch : string) : Gh string :=
  v ← request GET (head_path owner repo branch) None; pure_act (sha_of branch v).

Definition prepare (c : EffectContract) : Gh PreparedEffect :=
  let args := ec_arguments c in
  let operation := ec_operation c in
  if String.eqb operation OP_READ_REPO then
    owner ← pure_act (get_str args "owner"); repo ← pure_act (get_str args "repo");
    v ← request GET (repo_path owner repo) None;
    mret (mkPrepared
      (Object [("action", Str "read repository metadata"); ("full_name", get_or_null "full_name" v)])
      (Object []))
  else if String.eqb operation OP_CREATE_BRANCH then
    owner ← pure_act (get_str args "owner"); repo ← pure_act (get_str args "repo");
    from ← pure_act (get_str args "from_branch"); branch ← pure_act (get_str args "branch");
    sha ← branch_head_sha owner repo from;
    mret (mkPrepared
      (Object [("action", Str ("create branch " +:+ quoted branch +:+ " from " +:+ quoted from));
               ("ref", Str ("refs/heads/" +:+ branch)); ("sha", Str sha)])
      (Object [("base_head_sha", Str sha)]))
  else if String.eqb operation OP_CREATE_DRAFT_PR then
    owner ← pure_act (get_str args "owner"); repo ← pure_act (get_str args "repo");
    base ← pure_act (get_str args "base");
    sha ← branch_head_sha owner repo base;
    title ← pure_act (get_str args "title"); head ← pure_act (get_str args "head");
    mret (mkPrepared
      (Object [("action", Str ("open DRAFT pull request " +:+ quoted title +:+ " (" +:+ base
                               +:+ " <- " +:+ head +:+ ")")); ("draft", VBool true)])
      (Object [("base_head_sha", Str sha)]))
  else if String.eqb operation OP_COMMENT_ISSUE then
    owner ← pure_act (get_str args "owner"); repo ← pure_act (get_str args "repo");
    n ← pure_act (issue_number args);
    v ← request GET (repo_path owner repo +:+ "/issues/" +:+ pretty n) None;
    state ← pure_act (ok_or (value_get "state" v ≫= as_str) (conn_err "issue response missing state"));
    mret (mkPrepared
      (Object [("action", Str ("comment on issue #" +:+ pretty n +:+ " (IRREVERSIBLE once read)"));
               ("body", get_or_null "body" args)])
      (Object [("issue_state", Str state)]))
  else pure_act (Err (conn_err ("unsupported operation " +:+ quoted operation))).

Definition commit (c : EffectContract) : Gh CommitResult :=
  let args := ec_arguments c in
  let operation := ec_operation c in
  if String.eqb operation OP_READ_REPO then
    owner ← pure_act (get_str args "owner"); repo ← pure_act (get_str args "repo");
    v ← request GET (repo_path owner repo) None;
    mret (mkCommitResult
      (Object [("default_branch", get_or_null "default_branch" v); ("full_name", get_or_null "full_name" v);
               ("private", get_or_null "private" v)]))
  else if String.eqb operation OP_CREATE_BRANCH then
    owner ← pure_act (get_str args "owner"); repo ← pure_act (get_str args "repo");
    from ← pure_act (get_str args "from_branch"); branch ← pure_act (get_str args "branch");
    sha ← branch_head_sha owner repo from;
    v ← request POST (repo_path owner repo +:+ "/git/refs")
          (Some (Object [("ref", Str ("refs/heads/" +:+ branch)); ("sha", Str sha)]));
    mret (mkCommitResult (Object [("ref", get_or_null "ref" v); ("sha", Str sha)]))
  else if String.eqb operation OP_CREATE_DRAFT_PR then
    owner ← pure_act (get_str args "owner"); repo ← pure_act (get_str args "repo");
    title ← pure_act (get_str args "title"); head ← pure_act (get_str args "head");
    base ← pure_act (get_str args "base");
    v ← request POST (repo_path owner repo +:+ "/pulls")
          (Some (Object [("base", Str base); ("body", default (Str "") (value_get "body" args));
                         ("draft", VBool true); ("head", Str head); ("title", Str title)]));
    mret (mkCommitResult
      (Object [("draft", VBool true); ("html_url", get_or_null "html_url" v);
               ("number", get_or_null "number" v)]))
  else if String.eqb operation OP_COMMENT_ISSUE then
    owner ← pure_act (get_str args "owner"); repo ← pure_act (get_str args "repo");
    n ← pure_act (issue_number args);
    body ← pure_act (get_str args "body");
    v ← request POST (repo_path owner repo +:+ "/issues/" +:+ pretty n +:+ "/comments")
          (Some (Object [("body", Str body)]));
    mret (mkCommitResult (Object [("id", get_or_null "id" v)]))
  else pure_act (Err (conn_err ("unsupported operation " +:+ quoted operation))).

(** The number of the first pull request of a list. *)
Definition first_number (head : string) (prs : Value) : KernelResult Z :=
  ok_or (((as_array prs ≫= hd_error) ≫= value_get "number") ≫= as_u64)
    (conn_err ("no open PR found for head " +:+ quoted head)).

Definition open_pulls_path (owner repo head : string) : string :=
  repo_path owner repo +:+ "/pulls?state=open&head=" +:+ owner +:+ ":" +:+ head.

Definition compensate (c : EffectContract) : Gh CommitResult :=
  let args := ec_arguments c in
  let operation := ec_operation c in
  if String.eqb operation OP_CREATE_BRANCH then
    owner ← pure_act (get_str args "owner"); repo ← pure_act (get_str args "repo");
    branch ← pure_act (get_str args "branch");
    request DELETE (repo_path owner repo +:+ "/git/refs/heads/" +:+ branch) None;;
    mret (mkCommitResult (Object [("deleted_ref", Str ("refs/heads/" +:+ branch))]))
  else if String.eqb operation OP_CREATE_DRAFT_PR then
    owner ← pure_act (get_str args "owner"); repo ← pure_act (get_str args "repo");
    head ← pure_act (get_str args "head");
    prs ← request GET (open_pulls_path owner repo head) None;
    number ← pure_act (first_number head prs);
    v ← request PATCH (repo_path owner repo +:+ "/pulls/" +:+ pretty number)
          (Some (Object [("state", Str "closed")]));
    mret (mkCommitResult
      (Object [("closed_pr", Number (PosInt number)); ("state", get_or_null "state" v)]))
  else pure_act (Err (conn_err ("operation " +:+ quoted operation +:+ " is not compensatable"))).

(** The connector the broker sees, over a world in a given state.  It keeps no
    record of executions: the trait's default probe. *)
Definition connector (w : W) : Connector :=
  mkConnector canonicalize (fun c => outcome_of (prepare c) w) (fun c => outcome_of (commit c) w)
    (fun _ => Ok ProbeUnknown) (fun c => outcome_of (compensate c) w).

(** * What is asked of the service *)

(** The write an operation stands for, after the calls [before]. *)
Definition the_write (c : EffectContract) (before : list (Request * Answer)) (rq : Request) : Prop :=
  exists owner repo tok, get_str (ec_arguments c) "owner" = Ok owner /\ get_str (ec_arguments c) "repo" = Ok repo
  /\ ((ec_operation c = OP_CREATE_BRANCH
       /\ exists branch from head v sha tok',
            get_str (ec_arguments c) "branch" = Ok branch /\ get_str (ec_arguments c) "from_branch" = Ok from
            /\ before = [(request_of GET (head_path owner repo from) tok' None, head)]
            /\ read_answer (head_path owner repo from) head = Ok v /\ sha_of from v = Ok sha
            /\ rq = request_of POST (repo_path owner repo +:+ "/git/refs") tok
                      (Some (Object [("ref", Str ("refs/heads/" +:+ branch)); ("sha", Str sha)])))
      \/ (ec_operation c = OP_CREATE_DRAFT_PR /\ before = []
          /\ exists title head base, get_str (ec_arguments c) "title" = Ok title
             /\ get_str (ec_arguments c) "head" = Ok head /\ get_str (ec_arguments c) "base" = Ok base
             /\ rq = request_of POST (repo_path owner repo +:+ "/pulls") tok
                       (Some (Object [("base", Str base); ("body", default (Str "") (value_get "body" (ec_arguments c)));
                                      ("draft", VBool true); ("head", Str head); ("title", Str title)])))
      \/ (ec_operation c = OP_COMMENT_ISSUE /\ before = []
          /\ exists n body, issue_number (ec_arguments c) = Ok n /\ get_str (ec_arguments c) "body" = Ok body
             /\ rq = request_of POST (repo_path owner repo +:+ "/issues/" +:+ pretty n +:+ "/comments") tok
                       (Some (Object [("body", Str body)])))).

(** The write that takes it back. *)
Definition the_undo (c : EffectContract) (before : list (Request * Answer)) (rq : Request) : Prop :=
  exists owner repo tok, get_str (ec_arguments c) "owner" = Ok owner /\ get_str (ec_arguments c) "repo" = Ok repo
  /\ ((ec_operation c = OP_CREATE_BRANCH /\ before = []
       /\ exists branch, get_str (ec_arguments c) "branch" = Ok branch
          /\ rq = request_of DELETE (repo_path owner repo +:+ "/git/refs/heads/" +:+ branch) tok None)
      \/ (ec_operation c = OP_CREATE_DRAFT_PR
          /\ exists head pulls v number tok', get_str (ec_arguments c) "head" = Ok head
             /\ before = [(request_of GET (open_pulls_path owner repo head) tok' None, pulls)]
             /\ read_answer (open_pulls_path owner repo head) pulls = Ok v /\ first_number head v = Ok number
             /\ rq = request_of PATCH (repo_path owner repo +:+ "/pulls/" +:+ pretty number) tok
                       (Some (Object [("state", Str "closed")])))).

(** Calls that only read. *)
Definition reads (l : list (Request * Answer)) : Prop := Forall (fun call => rq_method call.1 = GET) l.

(** Reads, and then at most one other call, of which [spec] holds. *)
Definition one_write (spec : list (Request * Answer) -> Request -> Prop) (l : list (Request * Answer)) : Prop :=
  reads l \/ exists before rq a, l = before ++ [(rq, a)] /\ reads before /\ rq_method rq <> GET /\ spec before rq.

Lemma logged_request method path body (Q : _ -> _ -> Prop) :
  (forall e, Q [] (Err e)) ->
  (forall tok a, Q [(request_of method path tok body, a)] (read_answer path a)) ->
  logged (request method path body) Q.
Proof.
  intros He Ha. unfold request.
  eapply (logged_bind _ _ (fun l x => l = [] /\ exists t, x = Ok t)); [apply logged_peek; eauto|intros l e [-> _]; eauto|].
  intros l t [-> _]. apply logged_pure_bind; [eauto|]. intros tok ->.
  eapply (logged_bind _ _ (fun l x => exists a, l = [(request_of method path tok body, a)] /\ x = Ok a));
    [apply logged_ask_seen; eauto|by intros l e (? & _ & [=])|].
  intros l a (a' & -> & [= ->]). apply logged_pure, Ha.
Qed.

Lemma logged_request_bind {A} method path body (f : Value -> Gh A) (Q : _ -> _ -> Prop) :
  (forall e, Q [] (Err e)) ->
  (forall tok a e, Q [(request_of method path tok body, a)] (Err e)) ->
  (forall tok a v, read_answer path a = Ok v ->
     logged (f v) (fun l x => Q ((request_of method path tok body, a) :: l) x)) ->
  logged (request method path body ≫= f) Q.
Proof.
  intros Hn He Hv. eapply (logged_bind _ _ (fun l x => (l = [] /\ exists e, x = Err e)
    \/ exists tok a, l = [(request_of method path tok body, a)] /\ x = read_answer path a)).
  - apply logged_request; eauto.
  - intros l e [[-> _]|(tok & a & -> & _)]; eauto.
  - intros l v [[_ [e [=]]]|(tok & a & -> & Hr)]. by apply (Hv tok a v).
Qed.

Lemma logged_sha_bind {A} owner repo branch (f : string -> Gh A) (Q : _ -> _ -> Prop) :
  (forall e, Q [] (Err e)) ->
  (forall tok a e, Q [(request_of GET (head_path owner repo branch) tok None, a)] (Err e)) ->
  (forall tok a v sha, read_answer (head_path owner repo branch) a = Ok v -> sha_of branch v = Ok sha ->
     logged (f sha) (fun l x => Q ((request_of GET (head_path owner repo branch) tok None, a) :: l) x)) ->
  logged (branch_head_sha owner repo branch ≫= f) Q.
Proof.
  intros Hn He Hv. eapply (logged_bind _ _ (fun l x => (l = [] /\ exists e, x = Err e)
    \/ exists tok a, l = [(request_of GET (head_path owner repo branch) tok None, a)]
        /\ ((exists e, x = Err e) \/ exists v sha, read_answer (head_path owner repo branch) a = Ok v
             /\ sha_of branch v = Ok sha /\ x = Ok sha))).
  - unfold branch_head_sha. apply logged_request_bind; [by left; eauto|by right; eauto 8|].
    intros tok a v Hr. apply logged_pure. right. exists tok, a. split; [done|].
    destruct (sha_of branch v) eqn:Es; [right|left]; eauto.
  - intros l e [[-> _]|(tok & a & -> & _)]; eauto.
  - intros l sha [[_ [e [=]]]|(tok & a & -> & [[? [=]]|(v & sha' & Hr & Hs & [= ->])])]. by eapply Hv.
Qed.

(** Walking through a program: each call ends the run or goes on. *)
Ltac run_calls :=
  repeat first
    [ apply logged_pure_bind; [intros ? _|intros ? ?]
    | apply logged_sha_bind; [intros ?|intros ? ? ?|intros ? ? ? ? ? ?]
    | apply logged_request_bind; [intros ?|intros ? ? ?|intros ? ? ? ?]
    | apply logged_pure | apply logged_ret ].

Lemma prepare_reads c : logged (prepare c) (fun l _ => reads l).
Proof.
  unfold prepare. repeat (destruct (String.eqb _ _)); run_calls; by repeat constructor.
Qed.

(** What a commit may log, and with which outcome. *)
Definition commit_shape (c : EffectContract) (l : list (Request * Answer)) (x : KernelResult CommitResult) : Prop :=
  one_write (the_write c) l
  /\ (classify_operation operations (ec_operation c) = Pure -> reads l)
  /\ (is_ok x = true -> classify_operation operations (ec_operation c) <> Pure -> ~ reads l).

Lemma shape_failed c l e :
  reads l -> commit_shape c l (Err e).
Proof. intros Hr. split_and!; [by left|done|done]. Qed.

Lemma shape_wrote c before rq a x :
  classify_operation operations (ec_operation c) <> Pure -> reads before -> rq_method rq <> GET ->
  the_write c before rq -> commit_shape c (before ++ [(rq, a)]) x.
Proof.
  intros Hcl Hb Hm Hw. split_and!; [right; eauto 10|done|]. intros _ _ [_ [Hg _]%Forall_cons]%Forall_app. done.
Qed.

Lemma commit_shaped c : logged (commit c) (commit_shape c).
Proof.
  unfold commit. destruct (String.eqb_spec (ec_operation c) OP_READ_REPO) as [Ho|_].
  { run_calls; try (apply shape_failed; by repeat constructor).
    split_and!; [left; by repeat constructor|by repeat constructor|by rewrite Ho]. }
  destruct (String.eqb_spec (ec_operation c) OP_CREATE_BRANCH) as [Ho|_].
  { run_calls; try (apply shape_failed; by repeat constructor).
    all: apply (shape_wrote _ [_]); [by rewrite Ho|by repeat constructor|done|].
    all: eexists _, _, _; split_and!; [done..|left; split; [done|]]; eexists _, _, _, _, _, _; split_and!; [..|reflexivity]; try done. }
  destruct (String.eqb_spec (ec_operation c) OP_CREATE_DRAFT_PR) as [Ho|_].
  { run_calls; try (apply shape_failed; by repeat constructor).
    all: apply (shape_wrote _ []); [by rewrite Ho|by repeat constructor|done|].
    all: eexists _, _, _; split_and!; [done..|right; left; split_and!; [done..|]]; eexists _, _, _; split_and!; [..|reflexivity]; done. }
  destruct (String.eqb_spec (ec_operation c) OP_COMMENT_ISSUE) as [Ho|_]; [|apply logged_pure; apply shape_failed; constructor].
  run_calls; try (apply shape_failed; by repeat constructor).
  all: apply (shape_wrote _ []); [by rewrite Ho|by repeat constructor|done|].
  all: eexists _, _, _; split_and!; [done..|right; right; split_and!; [done..|]]; eexists _, _; split_and!; [..|reflexivity]; done.
Qed.

Lemma compensate_shaped c : logged (compensate c) (fun l _ => one_write (the_undo c) l).
Proof.
  unfold compensate. destruct (String.eqb_spec (ec_operation c) OP_CREATE_BRANCH) as [Ho|_].
  { run_calls; try (left; by repeat constructor).
    all: right; exists []; eexists _, _; split_and!; [done|by repeat constructor|done|].
    all: eexists _, _, _; split_and!; [done..|left; split_and!; [done..|]]; eexists; split; [|reflexivity]; done. }
  destruct (String.eqb_spec (ec_operation c) OP_CREATE_DRAFT_PR) as [Ho|_]; [|apply logged_pure; left; by repeat constructor].
  run_calls; try (left; by repeat constructor).
  all: right; eexists [_]; eexists _, _; split_and!; [done|by repeat constructor|done|].
  all: eexists _, _, _; split_and!; [done..|right; split; [done|]]; eexists _, _, _, _, _; split_and!; [..|reflexivity]; done.
Qed.

(** * Properties *)

(** Whatever GitHub answers, the connector keeps to what its operations declare.  A preview
    sends reads only.  A commit reads first and sends at most one write, as its last call: the
    one its operation stands for, with the arguments of the contract and, for a new branch,
    the head it just read; an operation declared pure sends none, and no other commit succeeds
    without its write.  A compensation sends at most the one write that removes the branch, or
    closes the pull request, of the same contract. *)
Theorem github_keeps_contract c w :
  reads (log_of (prepare c) w)
  /\ one_write (the_write c) (log_of (commit c) w)
  /\ (classify_operation operations (ec_operation c) = Pure -> reads (log_of (commit c) w))
  /\ (is_ok (outcome_of (commit c) w) = true -> classify_operation operations (ec_operation c) <> Pure ->
       ~ reads (log_of (commit c) w))
  /\ one_write (the_undo c) (log_of (compensate c) w).
Proof.
  pose proof (log_of_logged _ _ w (prepare_reads c)). pose proof (log_of_logged _ _ w (commit_shaped c)) as (? & ? & ?).
  pose proof (log_of_logged _ _ w (compensate_shaped c)). done.
Qed.

End calls.

(** Commenting on an issue cannot be proposed: its number is listed among the optional text
    fields and then asked to be a number, so no arguments pass both tests. *)
Theorem comment_never_canonical args : is_ok (canonicalize OP_COMMENT_ISSUE args) = false.
Proof.
  unfold canonicalize. cbn [String.eqb Ascii.eqb Bool.eqb]. cbn -[validate_fields value_get].
  destruct (validate_fields args ["owner"; "repo"; "body"] ["issue_number"]) as [[]|] eqn:Ev; [|done]. cbn.
  destruct (value_get "issue_number" args ≫= as_u64) as [n|] eqn:En; [exfalso|done].
  unfold validate_fields in Ev. destruct args as [| | | | |m]; try done. cbn [as_object ok_or] in Ev.
  apply bind_Ok in Ev as (obj & [= <-] & Ev). apply bind_Ok in Ev as (_ & _ & Ev). apply bind_Ok in Ev as (_ & _ & Ev).
  cbn [optional_strings value_get] in *. destruct (im_get "issue_number" m) as [v|]; [|done]. cbn in En.
  by destruct v.
Qed.

(** A repository name is not kept to one segment of the path: one with [..] in it is accepted and
    names another owner's repository once the path is normalised. *)
Theorem repo_is_not_a_segment :
  canonicalize OP_READ_REPO (Object [("owner", Str "acme"); ("repo", Str "../victim/secret")])
    = Ok (Object [("owner", Str "acme"); ("repo", Str "../victim/secret")])
  /\ repo_path "acme" "../victim/secret" = "/repos/acme/../victim/secret".
Proof. by vm_compute. Qed.

End Github.
