(* ===== verification/HttpConn.v ===== *)
(** The HTTP connector, [connectors/http/src/lib.rs]: [http.get] with its
    guards against requests into the host's own network.

    URLs are those of the [url] crate, a parameter here ([UrlOps]) with the one
    law the connector leans on: a URL's text parses to that URL.  The resolver
    and the servers are the world.  A request is logged with its URL and the
    address the connection was pinned to, a resolution with its answer. *)

From stdpp Require Import pretty.
From S2P Require Import Prelude B64 Utf8 Glob Net Auth IpText KernelText Egress Types Json Effect Broker Service.

Open Scope Z_scope.

Class UrlOps := {
  Url : Type;
  url_parse : string -> result string Url;
  scheme : Url -> string;
  host_str : Url -> option string;
  port_or_known_default : Url -> option Z;
  url_join : Url -> string -> result string Url;
  url_as_str : Url -> string;
}.

Class UrlLaws `{!UrlOps} : Prop := {
  url_text_parses : forall u, url_parse (url_as_str u) = Ok u;
}.

(** A response: its status, its [Location] header when that is text, and the
    chunks of its body up to the end or an error. *)
Record HttpResponse := mkHttpResponse {
  hr_status : Z;
  hr_location : option string;
  hr_chunks : list (result string string);
}.

Class HttpWorld `{!UrlOps} (W : Type) := {
  resolve : string -> Z -> W -> result string (list IpAddr) * W;
  build_client : W -> result string () * W;
  http_send : Url -> option (string * IpAddr) -> W -> result string HttpResponse * W;
  show_status : Z -> string;
}.

Module HttpGet.

Definition OP_HTTP_GET : string := "http.get".

Record HttpConnectorConfig := mkHttpConfig {
  allowlist : list string;
  max_response_bytes : Z;              (* usize *)
  max_redirects : nat;
  hc_allow_loopback : bool;            (* danger_allow_loopback *)
}.

Definition default_config : HttpConnectorConfig := mkHttpConfig [] (1024 * 1024) 5 false.

Definition name : string := "http".
Definition operations : list (string * EffectClass) := [(OP_HTTP_GET, OpaqueExternal)].

(** [trim_start_matches('[')] and [trim_end_matches(']')]. *)
Fixpoint trim_open (s : string) : string :=
  match s with
  | String c r => if Ascii.eqb c "[" then trim_open r else s
  | EmptyString => s
  end.

Fixpoint trim_close (s : string) : string :=
  match s with
  | EmptyString => EmptyString
  | String c r =>
      let t := trim_close r in
      if Ascii.eqb c "]" && str_is_empty t then EmptyString else String c t
  end.

Definition bare_host (host : string) : string := trim_close (trim_open host).

Section connector.
Context `{!UrlOps} (config : HttpConnectorConfig).

(** * Guards *)

Definition refuse_ip (ip : IpAddr) : KernelResult () :=
  if hc_allow_loopback config && is_loopback ip then Ok tt
  else if is_forbidden_ip ip then
    Err (conn_err ("ip " +:+ quoted (show_ip ip) +:+ " refused: private/loopback/link-local range"))
  else Err (conn_err ("literal ip " +:+ quoted (show_ip ip) +:+ " refused: use a domain name")).

Definition local_name (d : string) : bool :=
  String.eqb d "localhost" || ends_with ".localhost" d || ends_with ".local" d.

Definition guard_url (url : string) : KernelResult Url :=
  parsed ← map_err (fun e => conn_err ("invalid url " +:+ quoted url +:+ ": " +:+ e)) (url_parse url);
  if negb (String.eqb (scheme parsed) "http" || String.eqb (scheme parsed) "https") then
    Err (conn_err ("scheme " +:+ quoted (scheme parsed) +:+ " refused: only http(s) allowed"))
  else
    host ← ok_or (host_str parsed) (conn_err ("url " +:+ quoted url +:+ " has no host"));
    let d := to_ascii_lowercase host in
    (match parse_ip (bare_host d) with Some ip => refuse_ip ip | None => Ok tt end);;
    if negb (hc_allow_loopback config) && local_name d then
      Err (conn_err ("host " +:+ quoted host +:+ " refused: localhost target"))
    else Ok parsed.

Definition is_allowlisted (url : Url) : bool :=
  match host_str url with
  | None => false
  | Some host => existsb (fun pattern => glob_match pattern host) (allowlist config)
  end.

Definition classify (url : string) : KernelResult EffectClass :=
  parsed ← guard_url url; Ok (if is_allowlisted parsed then Pure else OpaqueExternal).

Definition url_arg (args : Value) : option string := value_get "url" args ≫= as_str.

Definition classify_operation (operation : string) (arguments : Value) : EffectClass :=
  if negb (String.eqb operation OP_HTTP_GET) then OpaqueExternal
  else match url_arg arguments with
       | None => OpaqueExternal
       | Some url => match classify url with Ok class => class | Err _ => OpaqueExternal end
       end.

Fixpoint only_url (obj : list (string * Value)) : KernelResult () :=
  match obj with
  | [] => Ok tt
  | (key, _) :: rest =>
      if negb (String.eqb key "url") then Err (conn_err ("unknown field " +:+ quoted key)) else only_url rest
  end.

Definition canonicalize (operation : string) (args : Value) : KernelResult Value :=
  if negb (String.eqb operation OP_HTTP_GET) then
    Err (conn_err ("unsupported operation " +:+ quoted operation))
  else
    obj ← ok_or (as_object args) (conn_err "arguments must be an object");
    only_url obj;;
    url ← ok_or (im_get "url" obj ≫= as_str) (conn_err "missing required string field `url`");
    parsed ← guard_url url;
    Ok (Object [("url", Str (url_as_str parsed))]).

(** * The fetch *)

Inductive HttpEvent : Type :=
| Resolved (host : string) (port : Z) (answer : result string (list IpAddr))
| Requested (url : Url) (pinned : option (string * IpAddr)).

Context {W : Type} `{!HttpWorld W}.
Abbreviation Ht := (Act HttpEvent W) (only parsing).

Definition addr_ok (ip : IpAddr) : bool :=
  hc_allow_loopback config && is_loopback ip || negb (is_forbidden_ip ip).

(** The loop over the answers: the first that is refused, or else the first. *)
Fixpoint check_addrs (host : string) (addrs : list IpAddr) : KernelResult () :=
  match addrs with
  | [] => Ok tt
  | ip :: rest =>
      if addr_ok ip then check_addrs host rest
      else Err (conn_err ("host " +:+ quoted host +:+ " refused: resolves to " +:+ quoted (show_ip ip)
                          +:+ " (private/loopback/link-local/metadata range)"))
  end.

Definition resolve_and_check (host : string) (port : Z) : Ht IpAddr :=
  answer ← ask_seen (Resolved host port) (resolve host port);
  pure_act
    match answer with
    | Err e => Err (conn_err ("dns resolution of " +:+ quoted host +:+ " failed: " +:+ e))
    | Ok [] => Err (conn_err ("host " +:+ quoted host +:+ " resolved to no addresses"))
    | Ok (ip :: rest) => check_addrs host (ip :: rest);; Ok ip
    end.

Definition new_client : Ht () := c ← peek build_client; pure_act (map_err conn_err c).

(** [pinned_client], given the address it was built with. *)
Definition pinned_client (host : string) (ip : IpAddr) : Ht (option (string * IpAddr)) :=
  new_client;; mret (Some (host, ip)).

Definition client_for (host : string) (port : Z) : Ht (option (string * IpAddr)) :=
  match parse_ip (bare_host host) with
  | Some _ => new_client;; mret None
  | None => ip ← resolve_and_check host port; pinned_client host ip
  end.

Definition send (url : Url) (pinned : option (string * IpAddr)) : Ht HttpResponse :=
  answer ← ask (Requested url pinned) (http_send url pinned); pure_act (map_err conn_err answer).

(** The body under the cap. *)
Fixpoint read_body (chunks : list (result string string)) (body : string) : KernelResult string :=
  match chunks with
  | [] => Ok body
  | Err e :: _ => Err (conn_err e)
  | Ok chunk :: rest =>
      if max_response_bytes config <? Z.of_nat (String.length body) + Z.of_nat (String.length chunk)
      then Err (conn_err ("response exceeds cap of " +:+ pretty (max_response_bytes config) +:+ " bytes"))
      else read_body rest (body +:+ chunk)
  end.

Definition redirect_target (url : Url) (resp : HttpResponse) (require_allowlist : bool) : KernelResult Url :=
  location ← ok_or (hr_location resp)
               (conn_err ("redirect " +:+ show_status (hr_status resp) +:+ " without Location header"));
  next ← map_err (fun e => conn_err ("bad redirect target " +:+ quoted location +:+ ": " +:+ e))
           (url_join url location);
  next ← guard_url (url_as_str next);
  if require_allowlist && negb (is_allowlisted next) then
    Err (conn_err ("redirect to " +:+ quoted (url_as_str next)
                   +:+ " refused: target is not on the read-safe allowlist"))
  else Ok next.

Definition fetched (url : Url) (resp : HttpResponse) : KernelResult Value :=
  if negb (is_success (hr_status resp)) then
    Err (conn_err ("GET " +:+ url_as_str url +:+ " returned " +:+ show_status (hr_status resp)))
  else
    body ← read_body (hr_chunks resp) EmptyString;
    Ok (Object [("body", Str (from_utf8_lossy body));
                ("bytes", Number (PosInt (Z.of_nat (String.length body))));
                ("status", Number (PosInt (hr_status resp))); ("url", Str (url_as_str url))]).

(** The loop over the hops still allowed. *)
Fixpoint fetch_loop (hops : nat) (url : Url) (require_allowlist : bool) : Ht Value :=
  match hops with
  | O => pure_act (Err (conn_err ("too many redirects (max " +:+ pretty (max_redirects config) +:+ ")")))
  | S hops' =>
      host ← pure_act (ok_or (host_str url) (conn_err ("url " +:+ quoted (url_as_str url) +:+ " has no host")));
      pinned ← client_for host (default 80 (port_or_known_default url));
      resp ← send url pinned;
      if is_redirection (hr_status resp) then
        next ← pure_act (redirect_target url resp require_allowlist);
        fetch_loop hops' next require_allowlist
      else pure_act (fetched url resp)
  end.

Definition fetch (start : Url) (require_allowlist : bool) : Ht Value :=
  fetch_loop (S (max_redirects config)) start require_allowlist.

Definition prepare (c : EffectContract) : Ht PreparedEffect :=
  url ← pure_act (ok_or (url_arg (ec_arguments c)) (conn_err "missing `url`"));
  class ← pure_act (classify url);
  mret (mkPrepared
    (Object [("classified_as", Str (if bool_decide (class = Pure) then "pure (allowlisted)" else "opaque_external"));
             ("method", Str "GET"); ("url", Str url)])
    (Object [])).

Definition commit (c : EffectContract) : Ht CommitResult :=
  url ← pure_act (ok_or (url_arg (ec_arguments c)) (conn_err "missing `url`"));
  parsed ← pure_act (guard_url url);
  let allowlisted := is_allowlisted parsed in
  if bool_decide (ec_class c = Pure) && negb allowlisted then
    pure_act (Err (conn_err ("contract claims Pure but " +:+ quoted url +:+ " is not on the read-safe allowlist")))
  else
    response ← fetch parsed allowlisted; mret (mkCommitResult response).

(** The connector as the broker sees it; probing and compensating are the
    trait's defaults. *)
Definition connector (w : W) : Connector :=
  mkConnector canonicalize (fun c => outcome_of (prepare c) w) (fun c => outcome_of (commit c) w)
    (fun _ => Ok ProbeUnknown) (fun _ => Err (conn_err "operation is not compensatable")).

End connector.

(** * Case does not matter to the address parsers *)

Abbreviation low := to_ascii_lowercase.

(** A parser that reads the same of a text in lower case. *)
Definition caseless {A} (p : string -> option (A * string)) : Prop :=
  forall s, p (low s) = prod_map id low <$> p s.

Lemma digit_lower radix c : radix = 10 \/ radix = 16 -> to_digit radix (to_ascii_lower c) = to_digit radix c.
Proof. intros [-> | ->]; destruct c as [[] [] [] [] [] [] [] []]; vm_compute; reflexivity. Qed.

Lemma mark_lower m c : m ∈ ["."; ":"; "0"; "["; "]"]%char -> Ascii.eqb m (to_ascii_lower c) = Ascii.eqb m c.
Proof.
  intros Hm. repeat (apply elem_of_cons in Hm as [->|Hm]; [destruct c as [[] [] [] [] [] [] [] []]; vm_compute; reflexivity|]).
  by apply not_elem_of_nil in Hm.
Qed.

Lemma read_digits_lower radix limit md s : radix = 10 \/ radix = 16 -> forall acc n,
  read_digits radix limit md (low s) acc n = (fun x => (x.1, low x.2)) <$> read_digits radix limit md s acc n.
Proof.
  intros Hr. induction s as [|c s IH]; intros acc n; cbn [read_digits low]; [done|]. rewrite digit_lower by done.
  destruct (to_digit radix c); [|done]. destruct (limit <? _); [done|]. destruct (Nat.ltb md _); [done|]. apply IH.
Qed.

Lemma leading_zero_lower s :
  match low s with String "0" _ => true | _ => false end = match s with String "0" _ => true | _ => false end.
Proof. destruct s as [|c s]; [done|]. cbn [low]. destruct c as [[] [] [] [] [] [] [] []]; vm_compute; reflexivity. Qed.

Lemma read_number_caseless radix limit md z : radix = 10 \/ radix = 16 -> caseless (read_number radix limit md z).
Proof.
  intros Hr s. unfold read_number. rewrite leading_zero_lower, read_digits_lower by done.
  destruct (read_digits radix limit md s 0 0) as [[[v n] rest]|]; [|done]. cbn.
  destruct (Nat.eqb n 0); [done|]. by destruct (_ && _ && _).
Qed.

Lemma read_given_char_lower m s : m ∈ ["."; ":"; "0"; "["; "]"]%char ->
  read_given_char m (low s) = low <$> read_given_char m s.
Proof. intros Hm. destruct s as [|c s]; [done|]. cbn [read_given_char low]. rewrite mark_lower by done. by destruct (Ascii.eqb m c). Qed.

Lemma read_separator_caseless {A} m i (p : string -> option (A * string)) :
  m ∈ ["."; ":"; "0"; "["; "]"]%char -> caseless p -> caseless (read_separator m i p).
Proof.
  intros Hm Hp s. destruct i; cbn [read_separator]; [apply Hp|]. rewrite read_given_char_lower by done.
  destruct (read_given_char m s); [apply Hp|done].
Qed.

Lemma read_octet_caseless i : caseless (read_separator "." i read_octet).
Proof. apply read_separator_caseless; [set_solver|]. apply read_number_caseless. by left. Qed.

Lemma read_ipv4_caseless : caseless read_ipv4_addr.
Proof.
  intros s. unfold read_ipv4_addr.
  do 4 (rewrite read_octet_caseless; match goal with |- context [read_separator "." ?i read_octet ?t] =>
    destruct (read_separator "." i read_octet t) as [[? ?]|]; [cbn [fmap option_fmap option_map prod_map id fst snd mbind option_bind]|done] end).
  done.
Qed.

Lemma read_groups_lower todo : forall i s,
  read_groups todo i (low s) = let '(gs, v, rest) := read_groups todo i s in (gs, v, low rest).
Proof.
  induction todo as [|todo IH]; intros i s; cbn [read_groups]; [done|].
  rewrite (read_separator_caseless ":" i read_ipv4_addr); [|set_solver|apply read_ipv4_caseless].
  rewrite (read_separator_caseless ":" i read_segment); [|set_solver|apply read_number_caseless; by right].
  assert ((if Nat.ltb 0 todo then prod_map id low <$> read_separator ":" i read_ipv4_addr s else None)
          = (prod_map id low <$> (if Nat.ltb 0 todo then read_separator ":" i read_ipv4_addr s else None))) as ->
    by (by destruct (Nat.ltb 0 todo)).
  destruct (if Nat.ltb 0 todo then _ else _) as [[v4 rest]|]; [done|].
  destruct (read_separator ":" i read_segment s) as [[g rest]|]; [|done]. cbn. rewrite IH.
  by destruct (read_groups todo (S i) rest) as [[gs v] r].
Qed.

Lemma read_ipv6_caseless : caseless read_ipv6_addr.
Proof.
  intros s. unfold read_ipv6_addr. rewrite read_groups_lower. destruct (read_groups 8 0 s) as [[head hv4] rest].
  destruct (Nat.eqb _ _); [by destruct (v6_of head)|]. destruct hv4; [done|].
  rewrite read_given_char_lower by set_solver. destruct (read_given_char ":" rest) as [r1|]; [|done]. cbn [fmap option_fmap option_map mbind option_bind].
  rewrite read_given_char_lower by set_solver. destruct (read_given_char ":" r1) as [r2|]; [|done]. cbn [fmap option_fmap option_map mbind option_bind].
  rewrite read_groups_lower. destruct (read_groups _ 0 r2) as [[tail tv4] r3]. by destruct (v6_of _).
Qed.

Lemma low_empty s : str_is_empty (low s) = str_is_empty s.
Proof. by destruct s. Qed.

Lemma parse_ip_lower s : parse_ip (low s) = parse_ip s.
Proof.
  unfold parse_ip. rewrite read_ipv4_caseless. destruct (read_ipv4_addr s) as [[a rest]|].
  - cbn. by rewrite low_empty.
  - cbn [fmap option_fmap option_map]. rewrite read_ipv6_caseless. destruct (read_ipv6_addr s) as [[a rest]|]; [|done].
    cbn. by rewrite low_empty.
Qed.

Lemma trim_open_lower s : trim_open (low s) = low (trim_open s).
Proof.
  induction s as [|c s IH]; [done|]. cbn [low trim_open].
  assert (Ascii.eqb (to_ascii_lower c) "[" = Ascii.eqb c "[") as ->
    by (destruct c as [[] [] [] [] [] [] [] []]; vm_compute; reflexivity).
  by destruct (Ascii.eqb c "[").
Qed.

Lemma trim_close_lower s : trim_close (low s) = low (trim_close s).
Proof.
  induction s as [|c s IH]; [done|]. cbn [low trim_close]. rewrite IH, low_empty.
  assert (Ascii.eqb (to_ascii_lower c) "]" = Ascii.eqb c "]") as ->
    by (destruct c as [[] [] [] [] [] [] [] []]; vm_compute; reflexivity).
  by destruct (_ && _).
Qed.

Lemma bare_host_lower s : parse_ip (bare_host (low s)) = parse_ip (bare_host s).
Proof. unfold bare_host. by rewrite trim_open_lower, trim_close_lower, parse_ip_lower. Qed.

(** * What is asked of the network *)

Section confinement.
Context `{!UrlOps} (config : HttpConnectorConfig) {W : Type} `{!HttpWorld W}.
Implicit Types (u : Url) (l : list HttpEvent).

(** A URL the guards let through: its scheme, and a host that is neither an
    address nor a name of the host itself. *)
Definition guarded u : Prop :=
  (scheme u = "http" \/ scheme u = "https")
  /\ exists host, host_str u = Some host /\ parse_ip (bare_host host) = None /\ local_name (low host) = false.

Lemma guard_url_Ok s u :
  guard_url config s = Ok u <->
  url_parse s = Ok u /\ (String.eqb (scheme u) "http" || String.eqb (scheme u) "https") = true
  /\ exists host, host_str u = Some host
     /\ (forall ip, parse_ip (bare_host (low host)) = Some ip -> refuse_ip config ip = Ok tt)
     /\ negb (hc_allow_loopback config) && local_name (low host) = false.
Proof.
  unfold guard_url. rewrite bind_Ok. split.
  - intros (v & Hp%map_err_Ok & Hg). destruct (_ || _) eqn:Es; [|done]. cbn [negb] in Hg.
    apply bind_Ok in Hg as (host & Hh%ok_or_Ok & Hg). apply bind_Ok in Hg as ([] & Hi & Hg).
    destruct (_ && _) eqn:El; [done|]. injection Hg as ->. split_and!; [done..|]. exists host. split_and!; [done| |done].
    intros ip Hip. by rewrite Hip in Hi.
  - intros (Hp & Es & host & Hh & Hi & El). exists u. rewrite map_err_Ok, Es, Hh. split; [done|]. cbn [negb ok_or].
    apply bind_Ok. exists host. split; [done|]. apply bind_Ok. exists tt. split; [|by rewrite El].
    destruct (parse_ip _); auto.
Qed.

Lemma guard_url_guarded s u :
  hc_allow_loopback config = false -> guard_url config s = Ok u -> guarded u.
Proof.
  intros Hlo (_ & Es%orb_true_iff & host & Hh & Hi & El)%guard_url_Ok. rewrite Hlo in El. split.
  - destruct Es as [E|E]; apply String.eqb_eq in E; auto.
  - exists host. split_and!; [done| |done]. rewrite <- bare_host_lower. destruct (parse_ip _) as [ip|]; [|done].
    specialize (Hi _ eq_refl). unfold refuse_ip in Hi. rewrite Hlo in Hi. cbn in Hi. by destruct (is_forbidden_ip ip).
Qed.

(** The calls of at most [n] hops: each is a resolution, and a request to the
    first address of its answer once all of them were found harmless. *)
Inductive hops (strict : bool) : nat -> list HttpEvent -> Prop :=
| hops_done n : hops strict n []
| hops_stopped n host port answer : hops strict (S n) [Resolved host port answer]
| hops_went n u host port ip rest l :
    guarded u -> (strict = true -> is_allowlisted config u = true) -> host_str u = Some host ->
    Forall (fun a => is_forbidden_ip a = false) (ip :: rest) -> hops strict n l ->
    hops strict (S n) (Resolved host port (Ok (ip :: rest)) :: Requested u (Some (host, ip)) :: l).

Lemma check_addrs_ok host addrs t :
  hc_allow_loopback config = false -> check_addrs config host addrs = Ok t ->
  Forall (fun a => is_forbidden_ip a = false) addrs.
Proof.
  intros Hlo. induction addrs as [|ip addrs IH]; cbn [check_addrs]; [constructor|]. unfold addr_ok. rewrite Hlo. cbn.
  destruct (is_forbidden_ip ip) eqn:Ef; [done|]. cbn. intros Hc. constructor; auto.
Qed.

(** A resolved host, then the rest. *)
Lemma logged_client_bind {A} host port (f : _ -> Act HttpEvent W A) (Q : _ -> _ -> Prop) :
  hc_allow_loopback config = false -> parse_ip (bare_host host) = None ->
  (forall answer e, Q [Resolved host port answer] (Err e)) ->
  (forall ip rest, Forall (fun a => is_forbidden_ip a = false) (ip :: rest) ->
     logged (f (Some (host, ip))) (fun l x => Q (Resolved host port (Ok (ip :: rest)) :: l) x)) ->
  logged (client_for config host port ≫= f) Q.
Proof.
  intros Hlo Hip He Hf. eapply (logged_bind _ _ (fun l x => exists answer, l = [Resolved host port answer]
    /\ forall pin, x = Ok pin -> exists ip rest, answer = Ok (ip :: rest) /\ pin = Some (host, ip)
       /\ Forall (fun a => is_forbidden_ip a = false) (ip :: rest))).
  - unfold client_for. rewrite Hip. unfold resolve_and_check.
    eapply (logged_bind _ _ (fun l x => exists answer, l = [Resolved host port answer]
      /\ forall ip, x = Ok ip -> exists rest, answer = Ok (ip :: rest) /\ Forall (fun a => is_forbidden_ip a = false) (ip :: rest))).
    + eapply (logged_bind _ _ (fun l x => exists a, l = [Resolved host port a] /\ x = Ok a)).
      * apply logged_ask_seen. eauto.
      * by intros l e (? & _ & [=]).
      * intros l a (a' & -> & [= <-]). apply logged_pure. exists a. split; [done|]. intros ip Hx.
        destruct a as [[|ip' rest]|]; try done. apply bind_Ok in Hx as (t & Hc & [= ->]).
        exists rest. split; [done|]. by eapply check_addrs_ok.
    + intros l e (a & -> & _). exists a. split; [done|]. by intros pin [=].
    + intros l ip (a & -> & Hx). specialize (Hx _ eq_refl) as (rest & -> & Hf').
      unfold pinned_client, new_client.
      eapply (logged_bind _ _ (fun l _ => l = [])).
      * eapply (logged_bind _ _ (fun l _ => l = [])); [by apply logged_peek|naive_solver|].
        intros l c ->. by apply logged_pure.
      * intros l e ->. eexists. split; [done|]. by intros pin [=].
      * intros l c ->. apply logged_ret. eexists. split; [done|]. intros pin [= <-]. eauto.
  - intros l e (a & -> & _). apply He.
  - intros l pin (a & -> & Hx). specialize (Hx _ eq_refl) as (ip & rest & -> & -> & Hfa). by apply Hf.
Qed.

Lemma logged_send_bind {A} u pin (f : _ -> Act HttpEvent W A) (Q : _ -> _ -> Prop) :
  (forall e, Q [Requested u pin] (Err e)) ->
  (forall resp, logged (f resp) (fun l x => Q (Requested u pin :: l) x)) ->
  logged (send u pin ≫= f) Q.
Proof.
  intros He Hf. eapply (logged_bind _ _ (fun l _ => l = [Requested u pin])).
  - unfold send. eapply (logged_bind _ _ (fun l _ => l = [Requested u pin])); [by apply logged_ask|naive_solver|].
    intros l a ->. by apply logged_pure.
  - intros l e ->. apply He.
  - intros l resp ->. apply Hf.
Qed.

(** The body a fetch returns is the text of at most [max_response_bytes] bytes, each replaced by
    at most three in decoding, and none in text that is well formed. *)
Definition body_capped (v : Value) : Prop :=
  exists raw, value_get "body" v = Some (Str (from_utf8_lossy raw))
    /\ value_get "bytes" v = Some (Number (PosInt (Z.of_nat (String.length raw))))
    /\ Z.of_nat (String.length raw) <= max_response_bytes config
    /\ Z.of_nat (String.length (from_utf8_lossy raw)) <= 3 * max_response_bytes config
    /\ (utf8_valid raw = true -> value_get "body" v = Some (Str raw)).

Definition within_cap (x : KernelResult Value) : Prop := forall v, x = Ok v -> body_capped v.

Lemma read_body_capped chunks : forall body out,
  read_body config chunks body = Ok out -> out = body \/ Z.of_nat (String.length out) <= max_response_bytes config.
Proof.
  induction chunks as [|[chunk|e] chunks IH]; intros body out; cbn [read_body]; [naive_solver| |done].
  destruct (Z.ltb_spec (max_response_bytes config) (Z.of_nat (String.length body) + Z.of_nat (String.length chunk))); [done|].
  intros [->|?]%IH; [|auto]. right. rewrite str_length_app. lia.
Qed.

Lemma fetched_capped u resp : 0 <= max_response_bytes config -> within_cap (fetched config u resp).
Proof.
  intros Hm v. unfold fetched. destruct (negb _); [done|]. intros (body & Hb & [= <-])%bind_Ok.
  assert (Z.of_nat (String.length body) <= max_response_bytes config) as Hlen
    by (apply read_body_capped in Hb as [->|?]; cbn; lia).
  pose proof (from_utf8_lossy_length body). exists body. split_and!; [done..|lia|]. intros Hv. cbn.
  by rewrite (from_utf8_lossy_id body Hv).
Qed.

Lemma redirect_target_guarded u resp strict next :
  hc_allow_loopback config = false -> redirect_target config u resp strict = Ok next ->
  guarded next /\ (strict = true -> is_allowlisted config next = true).
Proof.
  intros Hlo. unfold redirect_target. intros (? & _ & Hr)%bind_Ok. apply bind_Ok in Hr as (? & _ & Hr).
  apply bind_Ok in Hr as (n & Hg & Hr). apply guard_url_guarded in Hg; [|done].
  destruct strict, (is_allowlisted config n) eqn:Ea; cbn in Hr; simplify_eq; done.
Qed.

Lemma fetch_hops n : forall u strict,
  hc_allow_loopback config = false -> 0 <= max_response_bytes config ->
  guarded u -> (strict = true -> is_allowlisted config u = true) ->
  logged (fetch_loop config n u strict) (fun l x => hops strict n l /\ within_cap x).
Proof.
  induction n as [|n IH]; intros u strict Hlo Hm Hg Ha; cbn [fetch_loop].
  { apply logged_pure. split; [constructor|by intros ? [=]]. }
  destruct Hg as [Hs (host & Hh & Hip & Hl)]. rewrite Hh. cbn [ok_or].
  assert (guarded u) as Hg by (split; eauto).
  assert (forall e, within_cap (Err e)) as Herr by (by intros ? ? [=]).
  apply logged_pure_bind; [by intros ? [=]|]. intros ? [= <-].
  apply logged_client_bind; [done..|intros; split; [constructor|done]|]. intros ip rest Hf.
  apply logged_send_bind.
  { intros e. split; [|done]. eapply hops_went; [done..|constructor]. }
  intros resp. destruct (is_redirection _).
  - apply logged_pure_bind.
    { intros e _. split; [|done]. eapply hops_went; [done..|constructor]. }
    intros next Hn. apply redirect_target_guarded in Hn as [Hgn Han]; [|done].
    eapply logged_weaken; [by apply IH|]. cbn. intros l x [Hl' Hx]. split; [|done]. by eapply hops_went.
  - apply logged_pure. split; [|by apply fetched_capped]. eapply hops_went; [done..|constructor].
Qed.

Lemma commit_hops c :
  hc_allow_loopback config = false -> 0 <= max_response_bytes config ->
  logged (commit config c) (fun l x => hops (bool_decide (ec_class c = Pure)) (S (max_redirects config)) l
    /\ forall r, x = Ok r -> within_cap (Ok (response r))).
Proof.
  intros Hlo Hm. unfold commit.
  assert (forall e, hops (bool_decide (ec_class c = Pure)) (S (max_redirects config)) []
    /\ forall r, @Err KernelError CommitResult e = Ok r -> within_cap (Ok (response r))) as Herr
    by (intros e; split; [constructor|by intros ? [=]]).
  apply logged_pure_bind; [auto|]. intros url _. apply logged_pure_bind; [auto|]. intros u Hu.
  apply guard_url_guarded in Hu; [|done].
  destruct (bool_decide (ec_class c = Pure) && negb (is_allowlisted config u)) eqn:Ep; [by apply logged_pure|].
  eapply (logged_bind _ _ (fun l x => hops (bool_decide (ec_class c = Pure)) (S (max_redirects config)) l /\ within_cap x)).
  - eapply logged_weaken; [apply (fetch_hops (S (max_redirects config)) u (is_allowlisted config u)); [done..|auto]|].
    intros l x [Hl Hx]. split; [|done]. clear -Hl Ep. revert Hl. generalize (S (max_redirects config)). intros n Hl.
    induction Hl as [| |n v host port ip rest l Hg Ha Hh Hf Hl IH]; [constructor..|]. eapply hops_went; [done| |done..].
    intros Hp. rewrite Hp in Ep. cbn in Ep. apply Ha. by apply negb_false_iff.
  - intros l e [Hl Hx]. split; [done|]. by intros ? [=].
  - intros l v [Hl Hx]. apply logged_ret. rewrite app_nil_r. split; [done|]. by intros ? [= <-].
Qed.

Lemma hops_requested strict n l : hops strict n l -> forall l1 u pin l2,
  l = l1 ++ Requested u pin :: l2 ->
  guarded u /\ (strict = true -> is_allowlisted config u = true)
  /\ exists host port ip rest, host_str u = Some host /\ pin = Some (host, ip)
     /\ last l1 = Some (Resolved host port (Ok (ip :: rest))) /\ Forall (fun a => is_forbidden_ip a = false) (ip :: rest).
Proof.
  induction 1 as [|n host port a|n v host port ip rest l Hg Ha Hh Hf Hl IH]; intros l1 u pin l2 Heq.
  - by destruct l1.
  - by destruct l1 as [|? []]; simplify_eq.
  - destruct l1 as [|e1 [|e2 l1]]; simplify_list_eq; [by eauto 12|].
    destruct (IH _ _ _ _ eq_refl) as (Hgu & Hau & host' & port' & ip' & rest' & ? & ? & Hlast & ?).
    split_and!; [done..|]. exists host', port', ip', rest'. split_and!; [done..| |done]. by destruct l1.
Qed.

Definition is_requested (e : HttpEvent) : bool := match e with Requested _ _ => true | _ => false end.

Lemma hops_count strict n l : hops strict n l -> (length (List.filter is_requested l) <= n)%nat.
Proof. induction 1; cbn; lia. Qed.

(** * Properties *)

(** C16: With the loopback override for tests off (its default), the HTTP connector cannot be
    turned against the host's own network, whatever names resolve to and wherever servers
    redirect.  Every request of a commit, first or after a redirect, is for an http or https URL
    whose host is a name, not an address and not a local name; the connection is pinned to the
    first address of a resolution made for that hop, of which no answer was in a forbidden range;
    a contract of the pure class stays on the allowlist at every hop; there are at most one more
    requests than redirects allowed; the body returned is the lossy decoding of at most as many
    bytes as the cap (so at most three times that long, and those very bytes when they are
    well-formed text); and a preview asks nothing of the network. *)
Theorem http_get_confined c w :
  hc_allow_loopback config = false -> 0 <= max_response_bytes config ->
  (forall l1 u pin l2, log_of (commit config c) w = l1 ++ Requested u pin :: l2 ->
     guarded u /\ (ec_class c = Pure -> is_allowlisted config u = true)
     /\ exists host port ip rest, host_str u = Some host /\ pin = Some (host, ip)
        /\ last l1 = Some (Resolved host port (Ok (ip :: rest)))
        /\ Forall (fun a => is_forbidden_ip a = false) (ip :: rest))
  /\ (length (List.filter is_requested (log_of (commit config c) w)) <= S (max_redirects config))%nat
  /\ (forall r, outcome_of (commit config c) w = Ok r -> body_capped (response r))
  /\ log_of (prepare (W := W) config c) w = [].
Proof.
  intros Hlo Hm. pose proof (log_of_logged _ _ w (commit_hops c Hlo Hm)) as [Hl Hx]. split_and!.
  - intros l1 u pin l2 Heq. destruct (hops_requested _ _ _ Hl _ _ _ _ Heq) as (Hg & Ha & Hr). split_and!; [done| |done].
    intros Hp. apply Ha. by rewrite bool_decide_true.
  - by eapply hops_count.
  - intros r Hr. by apply (Hx r Hr).
  - eapply (log_of_logged _ (fun l _ => l = [])). unfold prepare.
    apply logged_pure_bind; [done|]. intros url _. apply logged_pure_bind; [done|]. intros class _. by apply logged_ret.
Qed.

(** Classification agrees with what a commit then does. *)
Lemma classify_pure operation args :
  classify_operation config operation args = Pure <->
  operation = OP_HTTP_GET /\ exists url u, url_arg args = Some url /\ guard_url config url = Ok u /\ is_allowlisted config u = true.
Proof.
  unfold classify_operation. destruct (String.eqb_spec operation OP_HTTP_GET) as [->|Hne]; cbn [negb];
    [|split; [done|by intros [? _]]].
  destruct (url_arg args) as [url|]; [|split; [done|by intros (_ & ? & ? & [=] & _)]]. unfold classify.
  destruct (guard_url config url) as [u|e] eqn:Eg; cbn [mbind result_bind].
  - split.
    + intros Hp. split; [done|]. exists url, u. by destruct (is_allowlisted config u).
    + intros (_ & url' & u' & [= <-] & Hg & Ha). rewrite Hg in Eg. injection Eg as ->. by rewrite Ha.
  - split; [done|]. intros (_ & url' & u' & [= <-] & Hg & _). by rewrite Hg in Eg.
Qed.

(** Canonical arguments are a fixed point, with the class of the arguments they came from. *)
Theorem canonicalize_stable `{!UrlLaws} operation args args' :
  canonicalize config operation args = Ok args' ->
  canonicalize config operation args' = Ok args'
  /\ classify_operation config operation args' = classify_operation config operation args.
Proof.
  unfold canonicalize. destruct (String.eqb_spec operation OP_HTTP_GET) as [->|]; cbn [negb]; [|done].
  intros (obj & Ho & Hr)%bind_Ok. apply ok_or_Ok in Ho. apply bind_Ok in Hr as (_ & _ & Hr).
  apply bind_Ok in Hr as (url & Hu & Hr). apply ok_or_Ok in Hu. apply bind_Ok in Hr as (u & Hg & [= <-]).
  assert (guard_url config (url_as_str u) = Ok u) as Hagain.
  { apply guard_url_Ok in Hg as [_ Hg]. apply guard_url_Ok. split; [apply url_text_parses|done]. }
  split.
  - apply bind_Ok. eexists. split; [done|]. apply bind_Ok. exists tt. split; [done|]. apply bind_Ok.
    exists (url_as_str u). split; [done|]. apply bind_Ok. by exists u.
  - assert (url_arg args = Some url) as Ha by (destruct args; try done; by injection Ho as <-).
    assert (forall a t, url_arg a = Some t -> guard_url config t = Ok u ->
      classify_operation config OP_HTTP_GET a = if is_allowlisted config u then Pure else OpaqueExternal) as Hcl.
    { intros a t Hat Hgt. unfold classify_operation, classify. by rewrite String.eqb_refl, Hat, Hgt. }
    by rewrite (Hcl _ _ Ha Hg), (Hcl _ (url_as_str u)).
Qed.
End confinement.

(** * A small network *)

Module HttpGetDemo.

(** URLs kept as their text. *)
#[export] Instance text_urls : UrlOps := {
  Url := string;
  url_parse s := Ok s;
  scheme u := str_until (Ascii.eqb ":") u;
  host_str u := str_until (Ascii.eqb "/") <$> split_nth1 "://" u;
  port_or_known_default _ := Some 443;
  url_join _ location := Ok location;
  url_as_str u := u;
}.

#[export] Instance text_urls_laws : UrlLaws.
Proof. by constructor. Qed.

(** A site that redirects once and then answers. *)
#[export] Instance site : HttpWorld nat := {
  resolve host _ w := (Ok [V4 (mkV4 151 101 1 69); V4 (mkV4 151 101 65 69)], w);
  build_client w := (Ok tt, w);
  http_send _ _ w :=
    (Ok match w with
        | O => mkHttpResponse 302 (Some "https://static.docs.rs/b") []
        | _ => mkHttpResponse 200 None [Ok "hel"; Ok "lo"]
        end, S w);
  show_status s := pretty s;
}.

Definition config : HttpConnectorConfig := mkHttpConfig ["docs.rs"; "*.docs.rs"] 8 5 false.

Definition get_docs : EffectContract :=
  mkContract OP_HTTP_GET "docs.rs" (Object [("url", Str "https://docs.rs/a")]) (Object []) "k1" Pure.

(** A fetch that is redirected once within the allowlist. *)
Lemma http_get_confined_witness :
  outcome_of (commit config get_docs) O
    = Ok (mkCommitResult (Object [("body", Str "hello"); ("bytes", Number (PosInt 5));
        ("status", Number (PosInt 200)); ("url", Str "https://static.docs.rs/b")]))
  /\ (length (List.filter is_requested (log_of (commit config get_docs) O)) <= 6)%nat
  /\ length (List.filter is_requested (log_of (commit config get_docs) O)) = 2%nat.
Proof.
  split; [vm_compute; reflexivity|]. split; [|vm_compute; reflexivity].
  apply (http_get_confined config get_docs O eq_refl ltac:(vm_compute; discriminate)).
Defined.
End HttpGetDemo.

End HttpGet.
