(* ===== verification/McpConn.v ===== *)
(** The MCP gateway, [connectors/mcp/src/lib.rs]: a child process that speaks
    JSON-RPC, one message per line, and a signed manifest that says what its
    tools may be asked.

    The server is the world: a write makes it append any lines to what there is
    to read, or fails.  A call reads until its own reply, the end of the stream
    or an error; when there is nothing more to read it waits, and its outcome
    is [None].  The transport is locked for the whole of a call, so calls do
    not interleave. *)

From stdpp Require Import pretty.
From S2P Require Import Prelude Utf8 Types Json Effect Broker Secrets Service.

Open Scope Z_scope.

Inductive Line : Type :=
| LText (s : string)
| LFailed (why : string)
| LEof.

(** * Manifests *)

Record ParamSpec := mkParam {
  p_required : bool;
  p_type : option string;
  one_of : option (list Value);
  max_len : option Z;                 (* usize *)
}.

Record ToolSpec := mkTool {
  t_class : EffectClass;
  t_params : gmap string ParamSpec;
  allow_extra_params : bool;
}.

Record Manifest := mkManifest { tools : gmap string ToolSpec }.

Record SignedManifest := mkSigned {
  manifest_yaml : string;
  manifest_signature : string;
  manifest_key_id : string;
}.

(** The YAML reader, and what of a public key [VerifyingKey::from_bytes] refuses. *)
Class ManifestText := {
  yaml_manifest : string -> result string Manifest;
  key_from_bytes : string -> result string ();
}.

(** The server: what it makes readable when a line is written to it. *)
Class McpServer (W : Type) := {
  react : string -> W -> result string (list Line) * W;
  json_to_string : Value -> string;
  json_of_string : string -> result string Value;
}.

Module Mcp.

Section manifest.
Context `{!Hex, !Ed25519, !ManifestText}.

Definition verify_and_parse (self : SignedManifest) (public_key_hex : string) : KernelResult Manifest :=
  key ← map_err (fun e => conn_err ("bad manifest public key hex: " +:+ e)) (hex_decode public_key_hex);
  fail_if (negb (Nat.eqb (String.length key) 32)) (conn_err "manifest public key must be 32 bytes");;
  map_err (fun e => conn_err ("bad manifest public key: " +:+ e)) (key_from_bytes key);;
  sig ← map_err (fun e => conn_err ("bad manifest signature hex: " +:+ e)) (hex_decode (manifest_signature self));
  fail_if (negb (Nat.eqb (String.length sig) 64)) (conn_err "manifest signature must be 64 bytes");;
  fail_if (negb (ed_verify key (manifest_yaml self) sig)) (conn_err "manifest signature verification failed");;
  map_err (fun e => conn_err ("manifest yaml invalid: " +:+ e)) (yaml_manifest (manifest_yaml self)).

Definition check_manifest (manifest : option (SignedManifest * string)) : KernelResult (option Manifest) :=
  match manifest with
  | None => Ok None
  | Some (m, key) => m ← verify_and_parse m key; Ok (Some m)
  end.
End manifest.

Definition json_type_name (v : Value) : string :=
  match v with
  | Null => "null"
  | VBool _ => "boolean"
  | Number _ => "number"
  | Str _ => "string"
  | Array _ => "array"
  | Object _ => "object"
  end.

(** One parameter against its constraint. *)
Definition enforce_param (tool key : string) (spec : ParamSpec) (value : Value) : KernelResult () :=
  match p_type spec with
  | Some t => fail_if (negb (String.eqb (json_type_name value) t))
                (conn_err ("tool " +:+ quoted tool +:+ ": parameter " +:+ quoted key +:+ " must be of type " +:+ t))
  | None => Ok tt
  end;;
  match one_of spec with
  | Some allowed => fail_if (negb (value_contains allowed value))
                      (conn_err ("tool " +:+ quoted tool +:+ ": parameter " +:+ quoted key
                                 +:+ " value is not in the allowed set"))
  | None => Ok tt
  end;;
  match max_len spec, as_str value with
  | Some max, Some s => fail_if (max <? Z.of_nat (String.length s))
                          (conn_err ("tool " +:+ quoted tool +:+ ": parameter " +:+ quoted key
                                     +:+ " exceeds max length " +:+ pretty max))
  | _, _ => Ok tt
  end.

Fixpoint enforce_entries (self : ToolSpec) (tool : string) (obj : list (string * Value)) : KernelResult () :=
  match obj with
  | [] => Ok tt
  | (key, value) :: rest =>
      match t_params self !! key with
      | None =>
          if allow_extra_params self then enforce_entries self tool rest
          else Err (conn_err ("tool " +:+ quoted tool +:+ ": parameter " +:+ quoted key
                              +:+ " is not declared in the manifest"))
      | Some spec => enforce_param tool key spec value;; enforce_entries self tool rest
      end
  end.

Fixpoint enforce_required (tool : string) (params : list (string * ParamSpec)) (obj : list (string * Value))
    : KernelResult () :=
  match params with
  | [] => Ok tt
  | (key, spec) :: rest =>
      if p_required spec && negb (bool_decide (is_Some (im_get key obj))) then
        Err (conn_err ("tool " +:+ quoted tool +:+ ": required parameter " +:+ quoted key +:+ " is missing"))
      else enforce_required tool rest obj
  end.

Definition enforce (self : ToolSpec) (tool : string) (args : Value) : KernelResult () :=
  obj ← ok_or (as_object args) (conn_err ("tool " +:+ quoted tool +:+ ": arguments must be an object"));
  enforce_entries self tool obj;;
  enforce_required tool (bt_iter (t_params self)) obj.

(** * Transport *)

Section gateway.
Context {W : Type} `{!McpServer W}.

(** What was sent is kept as the log: method and parameters under their id. *)
Record Transport := mkTransport {
  next_id : Z;                        (* u64 *)
  inbox : list Line;
  sent : list (Z * string * Value);
  server : W;
}.

Definition request_value (id : Z) (method : string) (params : Value) : Value :=
  Object [("id", Number (PosInt id)); ("jsonrpc", Str "2.0"); ("method", Str method); ("params", params)].

Definition newline : string := String "010" EmptyString.

(** The reading loop of [call]: the reply with this id, and what is left to read. *)
Fixpoint read_reply (id : Z) (lines : list Line) : option (KernelResult Value * list Line) :=
  match lines with
  | [] => None
  | LEof :: _ => Some (Err (conn_err "mcp server closed the stream"), lines)
  | LFailed why :: rest => Some (Err (EIo why), rest)
  | LText buf :: rest =>
      let trimmed := trim buf in
      if str_is_empty trimmed then read_reply id rest
      else match json_of_string trimmed with
           | Err e => Some (Err (ESerde e), rest)
           | Ok msg =>
               if negb (bool_decide ((value_get "id" msg ≫= as_u64) = Some id)) then read_reply id rest
               else match value_get "error" msg with
                    | Some err => Some (Err (conn_err ("mcp server error: " +:+ json_to_string err)), rest)
                    | None => Some (Ok (get_or_null "result" msg), rest)
                    end
           end
  end.

Definition call (t : Transport) (method : string) (params : Value) : option (KernelResult Value) * Transport :=
  let id := (next_id t + 1) mod 2 ^ 64 in
  let log := sent t ++ [(id, method, params)] in
  match react (json_to_string (request_value id method params) +:+ newline) (server t) with
  | (Err why, w) => (Some (Err (EIo why)), mkTransport id (inbox t) log w)
  | (Ok lines, w) =>
      let all := inbox t ++ lines in
      match read_reply id all with
      | None => (None, mkTransport id [] log w)
      | Some (r, rest) => (Some r, mkTransport id rest log w)
      end
  end.

(** * The gateway *)

Record McpGateway := mkGateway {
  server_name : string;
  manifest : option Manifest;
  transport : Transport;
}.

Definition with_transport (self : McpGateway) (t : Transport) : McpGateway :=
  mkGateway (server_name self) (manifest self) t.

Definition from_streams `{!Hex, !Ed25519, !ManifestText} (name : string) (w : W)
    (signed : option (SignedManifest * string)) : KernelResult McpGateway :=
  m ← check_manifest signed; Ok (mkGateway name m (mkTransport 0 [] [] w)).

(** The tool's entry in the verified manifest. *)
Definition declared (self : McpGateway) (tool : string) : option ToolSpec :=
  m ← manifest self; tools m !! tool.

Definition effect_class (self : McpGateway) (tool : string) : EffectClass :=
  match declared self tool with Some t => t_class t | None => OpaqueExternal end.

Definition tool_of (self : McpGateway) (operation : string) : KernelResult string :=
  ok_or (strip_prefix (server_name self +:+ ".") operation)
    (conn_err ("operation " +:+ quoted operation +:+ " does not belong to mcp server "
               +:+ quoted (server_name self))).

Definition operations (self : McpGateway) : list (string * EffectClass) :=
  match manifest self with
  | Some m => map (fun '(tool, spec) => (server_name self +:+ "." +:+ tool, t_class spec)) (bt_iter (tools m))
  | None => []
  end.

(** The constraints of a declared tool; an undeclared one has none. *)
Definition enforce_declared (self : McpGateway) (tool : string) (args : Value) : KernelResult () :=
  match declared self tool with Some spec => enforce spec tool args | None => Ok tt end.

Definition canonicalize (self : McpGateway) (operation : string) (args : Value) : KernelResult Value :=
  tool ← tool_of self operation;
  (match as_object args with
   | None => Err (conn_err "arguments must be a JSON object")
   | Some _ => Ok tt
   end);;
  enforce_declared self tool args;;
  Ok args.

(** The operations that reach the server return the gateway with its transport
    as the call left it. *)
Definition Outcome (A : Type) : Type := option (KernelResult A) * McpGateway.

Definition after_call {A} (self : McpGateway) (r : option (KernelResult Value) * Transport)
    (k : Value -> KernelResult A) : Outcome A :=
  let '(o, t) := r in
  (match o with
   | None => None
   | Some (Err e) => Some (Err e)
   | Some (Ok v) => Some (k v)
   end, with_transport self t).

Definition listed_tools (result : Value) : list Value := default [] (value_get "tools" result ≫= as_array).

Definition list_tools (self : McpGateway) : Outcome (list Value) :=
  after_call self (call (transport self) "tools/list" (Object [])) (fun result => Ok (listed_tools result)).

Definition call_params (tool : string) (arguments : Value) : Value :=
  Object [("arguments", arguments); ("name", Str tool)].

Definition call_tool (self : McpGateway) (tool : string) (arguments : Value) : Outcome Value :=
  after_call self (call (transport self) "tools/call" (call_params tool arguments)) Ok.

Definition is_listed (tool : string) (tools : list Value) : bool :=
  existsb (fun t => bool_decide ((value_get "name" t ≫= as_str) = Some tool)) tools.

Definition preview_of (self : McpGateway) (tool : string) (c : EffectContract) : PreparedEffect :=
  mkPrepared
    (Object [("arguments", ec_arguments c); ("declared_class", Str (class_str (effect_class self tool)));
             ("manifest_backed", VBool (bool_decide (is_Some (declared self tool))));
             ("server", Str (server_name self)); ("tool", Str tool)])
    (Object [("tool_listed", VBool true)]).

Definition prepare (self : McpGateway) (c : EffectContract) : Outcome PreparedEffect :=
  match tool_of self (ec_operation c) with
  | Err e => (Some (Err e), self)
  | Ok tool =>
      match list_tools self with
      | (None, self') => (None, self')
      | (Some (Err e), self') => (Some (Err e), self')
      | (Some (Ok tools), self') =>
          (Some (if is_listed tool tools then Ok (preview_of self tool c)
                 else Err (conn_err ("mcp server does not expose tool " +:+ quoted tool))), self')
      end
  end.

Definition commit (self : McpGateway) (c : EffectContract) : Outcome CommitResult :=
  match tool_of self (ec_operation c) with
  | Err e => (Some (Err e), self)
  | Ok tool =>
      match enforce_declared self tool (ec_arguments c) with
      | Err e => (Some (Err e), self)
      | Ok _ =>
          match call_tool self tool (ec_arguments c) with
          | (None, self') => (None, self')
          | (Some (Err e), self') => (Some (Err e), self')
          | (Some (Ok response), self') => (Some (Ok (mkCommitResult response)), self')
          end
      end
  end.

End gateway.

(** * Starting a server *)

Record SpawnOptions := mkSpawn {
  sp_env : gmap string string;
  sp_cwd : option string;
  sp_wrapper : list string;
}.

Record ServerCommand := mkCommand {
  program : string;
  argv : list string;
  cmd_env : gmap string string;
  cmd_cwd : option string;
}.

(** The command line and environment [spawn_with] builds; [host_path] is the
    kernel's own [PATH]. *)
Definition server_command (host_path : option string) (command : string) (args : list string)
    (options : SpawnOptions) : ServerCommand :=
  let path := default "/usr/local/bin:/usr/bin:/bin" host_path in
  let '(program, argv) :=
    match sp_wrapper options with
    | bin :: wargs => (bin, wargs ++ command :: args)
    | [] => (command, args)
    end in
  mkCommand program argv (sp_env options ∪ {["PATH" := path]}) (sp_cwd options).

(** The server's environment is [PATH] and what was granted. *)
Lemma server_env_scrubbed host_path command args options k v :
  cmd_env (server_command host_path command args options) !! k = Some v ->
  sp_env options !! k = Some v \/ k = "PATH".
Proof.
  unfold server_command. destruct (sp_wrapper options); cbn; rewrite lookup_union_Some_raw, lookup_singleton_Some; naive_solver.
Qed.

(** * What a manifest asks *)

Definition param_ok (spec : ParamSpec) (v : Value) : Prop :=
  (forall t, p_type spec = Some t -> json_type_name v = t)
  /\ (forall l, one_of spec = Some l -> value_contains l v = true)
  /\ (forall max s, max_len spec = Some max -> v = Str s -> Z.of_nat (String.length s) <= max).

(** Arguments within a tool's declaration: every entry is constrained by its
    parameter, or extra ones are allowed, and the required ones are there. *)
Definition satisfies (spec : ToolSpec) (args : Value) : Prop :=
  exists obj, args = Object obj
  /\ (forall k v, (k, v) ∈ obj ->
        match t_params spec !! k with Some p => param_ok p v | None => allow_extra_params spec = true end)
  /\ (forall k p, t_params spec !! k = Some p -> p_required p = true -> is_Some (im_get k obj)).

Lemma enforce_param_exact tool key spec v : enforce_param tool key spec v = Ok tt <-> param_ok spec v.
Proof.
  unfold enforce_param, param_ok. rewrite !bind_Ok. split.
  - intros ([] & Ht & Hr). apply bind_Ok in Hr as ([] & Ho & Hl). split_and!.
    + intros t Et. rewrite Et in Ht. apply fail_if_Ok, negb_false_iff in Ht. by apply String.eqb_eq.
    + intros l El. rewrite El in Ho. by apply fail_if_Ok, negb_false_iff in Ho.
    + intros max str Em ->. rewrite Em in Hl. cbn in Hl. apply fail_if_Ok in Hl. lia.
  - intros (Ht & Ho & Hl). exists tt. split.
    + destruct (p_type spec); [|done]. by rewrite (Ht _ eq_refl), String.eqb_refl.
    + apply bind_Ok. exists tt. split.
      * destruct (one_of spec); [|done]. by rewrite (Ho _ eq_refl).
      * destruct (max_len spec) as [max|]; [|done]. destruct v; try done. cbn. apply fail_if_Ok.
        specialize (Hl _ _ eq_refl eq_refl). lia.
Qed.

Lemma enforce_entries_exact self tool obj :
  enforce_entries self tool obj = Ok tt <->
  forall k v, (k, v) ∈ obj ->
    match t_params self !! k with Some p => param_ok p v | None => allow_extra_params self = true end.
Proof.
  induction obj as [|[key value] obj IH]; cbn [enforce_entries]; [split; [by intros _ ? ? ?%not_elem_of_nil|done]|].
  destruct (t_params self !! key) as [spec|] eqn:Ek.
  - rewrite bind_Ok. split.
    + intros ([] & Hp%enforce_param_exact & Hr) k v [[= -> ->]|Hin]%elem_of_cons; [by rewrite Ek|by apply IH].
    + intros Hall. exists tt. split.
      * apply enforce_param_exact. specialize (Hall key value (list_elem_of_here _ _)). by rewrite Ek in Hall.
      * apply IH. intros k v Hin. by apply Hall, list_elem_of_further.
  - destruct (allow_extra_params self) eqn:Ex.
    + rewrite IH. split; intros Hall k v Hin.
      * apply elem_of_cons in Hin as [[= -> ->]|Hin]; [by rewrite Ek|by apply Hall].
      * by apply Hall, list_elem_of_further.
    + split; [done|]. intros Hall. specialize (Hall key value (list_elem_of_here _ _)). by rewrite Ek in Hall.
Qed.

Lemma enforce_required_exact tool params obj :
  enforce_required tool params obj = Ok tt <->
  forall k p, (k, p) ∈ params -> p_required p = true -> is_Some (im_get k obj).
Proof.
  induction params as [|[key spec] params IH]; cbn [enforce_required]; [split; [by intros _ ? ? ?%not_elem_of_nil|done]|].
  destruct (p_required spec && _) eqn:E.
  - apply andb_true_iff in E as [Hr Hn%negb_true_iff%bool_decide_eq_false]. split; [done|]. intros Hall. exfalso.
    apply Hn. by eapply Hall; [apply list_elem_of_here|].
  - rewrite IH. split; intros Hall k p Hin Hr.
    + apply elem_of_cons in Hin as [[= -> ->]|Hin]; [|by eapply Hall]. rewrite Hr in E. cbn in E.
      by apply negb_false_iff, bool_decide_eq_true in E.
    + by eapply Hall; [apply list_elem_of_further|].
Qed.

Lemma enforce_exact self tool args : enforce self tool args = Ok tt <-> satisfies self args.
Proof.
  unfold enforce, satisfies. rewrite bind_Ok. split.
  - intros (obj & Ho%ok_or_Ok & Hr). apply bind_Ok in Hr as ([] & He & Hq). pose proof (proj1 (enforce_entries_exact _ _ _) He).
    exists obj. split_and!; [destruct args; cbn in Ho; by simplify_eq|done|]. intros k p Hk.
    by eapply enforce_required_exact; [|apply bt_iter_elem].
  - intros (obj & -> & He & Hq). exists obj. split; [done|]. apply bind_Ok. exists tt. split; [by apply enforce_entries_exact|].
    apply enforce_required_exact. intros k p Hin%bt_iter_elem. by apply Hq.
Qed.

(** * What reaches the server *)

Section safety.
Context {W : Type} `{!McpServer W}.
Implicit Types (t : Transport (W := W)) (g : McpGateway (W := W)).

(** A reply with this id is among the lines, and carries this result. *)
Definition replied (id : Z) (lines : list Line) (v : Value) : Prop :=
  exists text msg, LText text ∈ lines /\ json_of_string (trim text) = Ok msg
  /\ (value_get "id" msg ≫= as_u64) = Some id /\ value_get "error" msg = None /\ v = get_or_null "result" msg.

Lemma read_reply_own id lines v rest : read_reply id lines = Some (Ok v, rest) -> replied id lines v.
Proof.
  intros Hr. induction lines as [|[text|why|] lines IH]; cbn [read_reply] in Hr; try done.
  assert (read_reply id lines = Some (Ok v, rest) -> replied id (LText text :: lines) v) as Hskip.
  { intros (text' & msg & Hin & Hx)%IH. exists text', msg. split; [by apply list_elem_of_further|done]. }
  destruct (str_is_empty _); [auto|]. destruct (json_of_string (trim text)) as [msg|] eqn:Ej; [|done].
  destruct (bool_decide (_ = Some id)) eqn:Eid; cbn [negb] in Hr; [|auto]. apply bool_decide_eq_true in Eid.
  destruct (value_get "error" msg) eqn:Ee; [done|]. injection Hr as <- <-. exists text, msg.
  split_and!; [apply list_elem_of_here|done..].
Qed.

(** The requests of a transport carry the numbers 1, 2, ... in order. *)
Definition numbered t : Prop :=
  next_id t = Z.of_nat (length (sent t)) /\ forall i id m p, sent t !! i = Some (id, m, p) -> id = Z.of_nat i + 1.

Lemma call_numbered t method params o t' :
  numbered t -> Z.of_nat (length (sent t)) + 1 < 2 ^ 64 -> call t method params = (o, t') ->
  numbered t' /\ sent t' = sent t ++ [(Z.of_nat (length (sent t)) + 1, method, params)]
  /\ (forall v, o = Some (Ok v) -> exists lines, (react (json_to_string (request_value (Z.of_nat (length (sent t)) + 1) method params)
          +:+ newline) (server t)).1 = Ok lines /\ replied (Z.of_nat (length (sent t)) + 1) (inbox t ++ lines) v).
Proof.
  intros [Hn Hi] Hlt. unfold call. rewrite Hn, Z.mod_small by lia.
  assert (forall inb w, numbered (mkTransport (Z.of_nat (length (sent t)) + 1) inb
            (sent t ++ [(Z.of_nat (length (sent t)) + 1, method, params)]) w)) as Hnum.
  { intros inb w. split; cbn; [rewrite length_app; cbn; lia|]. intros i id m p Hl.
    apply lookup_app_Some in Hl as [Hl|[Hge Hl]]; [by eapply Hi|].
    apply list_lookup_singleton_Some in Hl as [? [= <- _ _]]. lia. }
  destruct (react _ _) as [[lines|why] w]; [|by intros [= <- <-]].
  destruct (read_reply _ _) as [[r rest]|] eqn:Er; intros [= <- <-]; (split_and!; [apply Hnum|done|]); [|done].
  intros v [= ->]. exists lines. split; [done|]. by eapply read_reply_own.
Qed.

(** Everything the gateway may have been asked since it was built. *)
Inductive gateway_step : McpGateway (W := W) -> McpGateway (W := W) -> Prop :=
| step_list g o g' : list_tools g = (o, g') -> gateway_step g g'
| step_prepare g c o g' : prepare g c = (o, g') -> gateway_step g g'
| step_commit g c o g' : commit g c = (o, g') -> gateway_step g g'.

(** A request the gateway may send. *)
Definition admissible g (method : string) (params : Value) : Prop :=
  (method = "tools/list" /\ params = Object [])
  \/ (method = "tools/call" /\ exists tool args, params = call_params tool args
      /\ forall spec, declared g tool = Some spec -> satisfies spec args).

Record gateway_ok (g0 g : McpGateway (W := W)) : Prop := {
  ok_manifest : manifest g = manifest g0;
  ok_name : server_name g = server_name g0;
  ok_numbered : numbered (transport g);
  ok_sent : forall i id m p, sent (transport g) !! i = Some (id, m, p) -> admissible g0 m p;
}.

Lemma declared_same g0 g tool : manifest g = manifest g0 -> declared g tool = declared g0 tool.
Proof. intros Hm. unfold declared. by rewrite Hm. Qed.

(** One call keeps the gateway in order when its request is admissible. *)
Lemma call_keeps g0 g method params {A} (k : Value -> KernelResult A) o g' :
  gateway_ok g0 g -> Z.of_nat (length (sent (transport g))) + 1 < 2 ^ 64 -> admissible g0 method params ->
  after_call g (call (transport g) method params) k = (o, g') -> gateway_ok g0 g'.
Proof.
  intros [Hm Hname Hn Hs] Hlt Ha. unfold after_call. destruct (call _ _ _) as [o1 t1] eqn:Ec. intros [= _ <-].
  destruct (call_numbered _ _ _ _ _ Hn Hlt Ec) as (Hn' & Hsent & _). constructor; cbn; [done..|].
  intros i id m p Hl. rewrite Hsent in Hl. apply lookup_app_Some in Hl as [Hl|[_ Hl]]; [by eapply Hs|].
  apply list_lookup_singleton_Some in Hl as [_ [= _ <- <-]]. done.
Qed.

Lemma mcp_commit_shape g c o g' :
  commit g c = (o, g') ->
  (g' = g /\ exists e, o = Some (Err e))
  \/ exists tool, tool_of g (ec_operation c) = Ok tool
     /\ (forall spec, declared g tool = Some spec -> satisfies spec (ec_arguments c))
     /\ after_call g (call (transport g) "tools/call" (call_params tool (ec_arguments c))) (fun v => Ok (mkCommitResult v))
        = (o, g').
Proof.
  unfold commit. destruct (tool_of _ _) as [tool|e]; [|intros [= <- <-]; left; eauto].
  destruct (enforce_declared g tool _) as [[]|e] eqn:Ee; [|intros [= <- <-]; left; eauto].
  intros Hc. right. exists tool. split_and!; [done| |].
  - intros spec Hd. unfold enforce_declared in Ee. rewrite Hd in Ee. by apply enforce_exact in Ee.
  - revert Hc. unfold call_tool, after_call. destruct (call _ _ _) as [[[v|e]|] t]; by intros [= <- <-].
Qed.

Lemma mcp_prepare_shape g c o g' :
  prepare g c = (o, g') -> g' = g \/ exists o', list_tools g = (o', g').
Proof.
  unfold prepare. destruct (tool_of _ _) as [tool|e]; [|injection 1 as _ <-; by left].
  destruct (list_tools g) as [[[ts|e]|] g1]; injection 1 as _ <-; right; eauto.
Qed.

Lemma step_keeps g0 g g' :
  gateway_ok g0 g -> Z.of_nat (length (sent (transport g))) + 1 < 2 ^ 64 -> gateway_step g g' -> gateway_ok g0 g'.
Proof.
  intros Hok Hlt Hst.
  assert (forall o g1, list_tools g = (o, g1) -> gateway_ok g0 g1) as Hlist
    by (intros o g1; apply call_keeps; [done..|by left]).
  inversion Hst as [? o ? Hl|? c o ? Hp|? c o ? Hc]; subst; [by eapply Hlist| |].
  - apply mcp_prepare_shape in Hp as [->|[o' Hl]]; [done|by eapply Hlist].
  - apply mcp_commit_shape in Hc as [[-> _]|(tool & Ht & Hd & Hc)]; [done|].
    eapply call_keeps; [done..| |done]. right. split; [done|]. exists tool, (ec_arguments c). split; [done|].
    intros spec Hs. apply Hd. by rewrite (declared_same g0 g) by apply Hok.
Qed.

Lemma step_sent_grows g g' : gateway_step g g' -> (length (sent (transport g)) <= length (sent (transport g')))%nat.
Proof.
  assert (forall A method params (k : Value -> KernelResult A) o g1,
    after_call g (call (transport g) method params) k = (o, g1) ->
    (length (sent (transport g)) <= length (sent (transport g1)))%nat) as Hcall.
  { intros A method params k o g1. unfold after_call. destruct (call _ _ _) as [o1 t1] eqn:Ec. intros [= _ <-]. cbn.
    revert Ec. unfold call. destruct (react _ _) as [[lines|why] w]; [|injection 1 as _ <-; cbn; rewrite length_app; lia].
    destruct (read_reply _ _) as [[r rest]|]; injection 1 as _ <-; cbn; rewrite length_app; lia. }
  intros Hst. inversion Hst as [? o ? Hl|? c o ? Hp|? c o ? Hc]; subst; [by eapply Hcall| |].
  - apply mcp_prepare_shape in Hp as [->|[o' Hl]]; [done|by eapply Hcall].
  - apply mcp_commit_shape in Hc as [[-> _]|(tool & _ & _ & Hc)]; [done|by eapply Hcall].
Qed.

Lemma steps_keep g0 g g' :
  gateway_ok g0 g -> rtc gateway_step g g' -> Z.of_nat (length (sent (transport g'))) + 1 < 2 ^ 64 -> gateway_ok g0 g'.
Proof.
  intros Hok Hr. revert Hok. induction Hr as [|g1 g2 g3 Hst Hr IH]; [done|]. intros Hok Hlt.
  assert (length (sent (transport g2)) <= length (sent (transport g3)))%nat as Hle.
  { clear -Hr. induction Hr as [|x y z Hxy _ IH]; [done|]. apply step_sent_grows in Hxy. lia. }
  pose proof (step_sent_grows _ _ Hst). apply IH; [|done]. by eapply step_keeps; [done|lia|].
Qed.

Lemma fresh_gateway `{!Hex, !Ed25519, !ManifestText} name w signed g :
  from_streams name w signed = Ok g -> gateway_ok g g.
Proof. unfold from_streams. intros (m & _ & [= <-])%bind_Ok. by constructor. Qed.

(** The manifest that counts: the one in the signed text, which verifies under the key. *)
Definition verified_manifest `{!Hex, !Ed25519, !ManifestText} (signed : option (SignedManifest * string))
    (parsed : option Manifest) : Prop :=
  match signed with
  | None => parsed = None
  | Some (m, key) => exists k sig man, hex_decode key = Ok k /\ String.length k = 32%nat
      /\ hex_decode (manifest_signature m) = Ok sig /\ ed_verify k (manifest_yaml m) sig = true
      /\ yaml_manifest (manifest_yaml m) = Ok man /\ parsed = Some man
  end.

Lemma check_manifest_verified `{!Hex, !Ed25519, !ManifestText} signed parsed :
  check_manifest signed = Ok parsed -> verified_manifest signed parsed.
Proof.
  destruct signed as [[m key]|]; cbn; [|by intros [= <-]]. intros (man & Hv & [= <-])%bind_Ok.
  unfold verify_and_parse in Hv. inv_result.
  repeat match goal with Hx : map_err _ _ = Ok _ |- _ => apply map_err_Ok in Hx end.
  repeat match goal with Hx : negb _ = false |- _ => apply negb_false_iff in Hx end.
  eexists _, _, man. split_and!; try done. by apply Nat.eqb_eq.
Qed.

(** A request within a manifest: a listing, or a call of one tool whose arguments satisfy what
    the manifest declares of it. *)
Definition within (parsed : option Manifest) (method : string) (params : Value) : Prop :=
  (method = "tools/list" /\ params = Object [])
  \/ (method = "tools/call" /\ exists tool args,
        params = Object [("arguments", args); ("name", Str tool)]
        /\ forall man spec, parsed = Some man -> tools man !! tool = Some spec -> satisfies spec args).

(** * Properties *)

(** C17: The gateway keeps its server to the signed manifest.  It exists only when the manifest
    it was given verifies under the given key, and that manifest, read from the signed text, is
    the one its calls are checked against.  Over any history of calls, whatever the server
    writes, each request it has received is a listing or a call of one tool, and a call of a
    tool that manifest declares satisfies every constraint declared for it: types, allowed
    values, lengths, required parameters, and no undeclared ones unless extra ones are allowed.
    Requests are numbered without repetition, and a commit answers with the result of the one
    reply that carries the number of its own request, so a late reply to an earlier call, or a
    notification, is never taken for its answer. *)
Theorem mcp_keeps_manifest `{!Hex, !Ed25519, !ManifestText} name w signed g0 g c o g' :
  from_streams name w signed = Ok g0 -> rtc gateway_step g0 g -> commit g c = (o, g') ->
  Z.of_nat (length (sent (transport g'))) + 1 < 2 ^ 64 ->
  (exists parsed, verified_manifest signed parsed
     /\ forall i id m p, sent (transport g') !! i = Some (id, m, p) -> id = Z.of_nat i + 1 /\ within parsed m p)
  /\ (forall r, o = Some (Ok r) ->
        let id := Z.of_nat (length (sent (transport g))) + 1 in
        exists tool lines, ec_operation c = name +:+ "." +:+ tool
        /\ sent (transport g') = sent (transport g) ++ [(id, "tools/call", call_params tool (ec_arguments c))]
        /\ (react (json_to_string (request_value id "tools/call" (call_params tool (ec_arguments c))) +:+ newline)
             (server (transport g))).1 = Ok lines
        /\ replied id (inbox (transport g) ++ lines) (response r)).
Proof.
  intros Hnew Hr Hc Hlt. pose proof (fresh_gateway _ _ _ _ Hnew) as Hnew0.
  assert (gateway_step g g') as Hst by (by eapply step_commit). pose proof (step_sent_grows _ _ Hst) as Hle.
  assert (gateway_ok g0 g) as Hg by (eapply steps_keep; [done..|lia]).
  assert (gateway_ok g0 g') as Hg' by (eapply step_keeps; [done|lia|done]). split_and!.
  - unfold from_streams in Hnew. apply bind_Ok in Hnew as (parsed & Hm & [= <-]). exists parsed.
    split; [by apply check_manifest_verified|]. intros i id m p Hi. split; [by eapply (ok_numbered _ _ Hg')|].
    destruct (ok_sent _ _ Hg' _ _ _ _ Hi) as [?|(Hmeth & tool & args & -> & Hd)]; [by left|right]. split; [done|].
    exists tool, args. split; [done|]. intros man spec -> Hspec. apply Hd. unfold declared. cbn. by rewrite Hspec.
  - intros r ->. apply mcp_commit_shape in Hc as [[_ [e [=]]]|(tool & Ht & _ & Hc)]. unfold after_call in Hc.
    destruct (call _ _ _) as [o1 t1] eqn:Ec. destruct o1 as [[v|]|]; try done. injection Hc as <- <-.
    destruct (call_numbered _ _ _ _ _ (ok_numbered _ _ Hg) ltac:(lia) Ec) as (_ & Hs & Hrep).
    destruct (Hrep v eq_refl) as (lines & Hre & Hl). exists tool, lines. split_and!; [|done..].
    unfold tool_of in Ht. apply ok_or_Ok, strip_prefix_Some in Ht. rewrite Ht.
    replace name with (server_name g); [by rewrite <- str_app_assoc|]. rewrite (ok_name _ _ Hg).
    unfold from_streams in Hnew. apply bind_Ok in Hnew as (om & _ & [= <-]). done.
Qed.

End safety.
(** * A small server *)

Module McpDemo.

#[export] Instance plain_hex : Hex := { hex_encode b := b; hex_decode s := Ok s }.

Definition zeros (n : nat) : string := String.string_of_list_ascii (replicate n "0"%char).

(** One key, under which every text has the signature of 64 zeros. *)
#[export] Instance one_key : Ed25519 := {
  ed_public _ := zeros 32;
  ed_sign _ _ := zeros 64;
  ed_verify key _ sig := String.eqb key (zeros 32) && String.eqb sig (zeros 64);
}.

Definition search_spec : ToolSpec :=
  mkTool Pure {["query" := mkParam true (Some "string") None (Some 20)]} false.

#[export] Instance one_manifest : ManifestText := {
  yaml_manifest _ := Ok (mkManifest {["search" := search_spec]});
  key_from_bytes _ := Ok tt;
}.

Definition reply (id : Z) (result : Value) : Value := Object [("id", Number (PosInt id)); ("result", result)].

(** A server that repeats its first reply before it gives the second. *)
#[export] Instance slow_server : McpServer nat := {
  react _ w :=
    (Ok match w with
        | O => [LText "note"; LText "first"]
        | _ => [LText ""; LText "first"; LText "second"]
        end, S w);
  json_to_string _ := "{}";
  json_of_string s :=
    if String.eqb s "first" then
      Ok (reply 1 (Object [("tools", Array [Object [("name", Str "search")]])]))
    else if String.eqb s "second" then Ok (reply 2 (Str "found"))
    else Ok (Object [("method", Str "log")]);
}.

Definition signed : SignedManifest := mkSigned "tools" (zeros 64) "k".

Definition search (query : string) : EffectContract :=
  mkContract "docs.search" "docs" (Object [("query", Str query)]) (Object []) "k1" Pure.

Definition empty_gateway : McpGateway (W := nat) := mkGateway "docs" None (mkTransport 0 [] [] O).
Definition g0 : McpGateway := value_of empty_gateway (from_streams "docs" O (Some (signed, zeros 32))).
Definition g1 : McpGateway := (prepare g0 (search "rocq")).2.

(** A preview and then a commit, past a repeated reply to the preview's listing. *)
Lemma mcp_keeps_manifest_witness :
  (commit g1 (search "rocq")).1 = Some (Ok (mkCommitResult (Str "found")))
  /\ exists parsed, verified_manifest (Some (signed, zeros 32)) parsed
     /\ within parsed "tools/call" (call_params "search" (Object [("query", Str "rocq")])).
Proof.
  split; [vm_compute; reflexivity|].
  destruct (mcp_keeps_manifest "docs" O (Some (signed, zeros 32)) g0 g1 (search "rocq")
    (commit g1 (search "rocq")).1 (commit g1 (search "rocq")).2) as [(parsed & Hv & Hs) _].
  - vm_compute; reflexivity.
  - apply rtc_once. apply (step_prepare g0 (search "rocq") (prepare g0 (search "rocq")).1). apply surjective_pairing.
  - apply surjective_pairing.
  - vm_compute; reflexivity.
  - exists parsed. split; [exact Hv|]. refine (proj2 (Hs 1%nat 2 _ _ _)). vm_compute; reflexivity.
Defined.
End McpDemo.

End Mcp.
