(* ===== verification/HostFs.v ===== *)
(** The file system of the host, as the functions of [std::fs] and
    [std::path::Path] that the local backend calls see it: files, directories
    and symbolic links under absolute paths, and path resolution as POSIX
    describes it.

    A path is the list of its names; the root is the empty list and is always a
    directory.  Only one user is modelled: permissions never refuse. *)

From S2P Require Import Prelude Path.

Open Scope Z_scope.

Inductive Node : Type :=
| File (contents : string) (mtime : Z)
| Dir
| Link (target : string) (mtime : Z).

#[export] Instance node_eq_dec : EqDecision Node.
Proof. solve_decision. Defined.

Abbreviation HostPath := (list string) (only parsing).
Abbreviation Fs := (gmap (list string) Node) (only parsing).

Inductive Errno : Type := ENOENT | ENOTDIR | EISDIR | EEXIST | ELOOP.

#[export] Instance errno_eq_dec : EqDecision Errno.
Proof. solve_decision. Defined.

(** Every name of a path but the last is a directory. *)
Definition tree (fs : Fs) : Prop :=
  forall p n, fs !! p = Some n -> p <> [] /\ forall d c r, p = d ++ c :: r -> d <> [] -> fs !! d = Some Dir.

Definition node (fs : Fs) (p : HostPath) : option Node :=
  match p with [] => Some Dir | _ => fs !! p end.

(** How many links one resolution may follow. *)
Definition MAXSYMLINKS : nat := 40.

(** Resolution from a directory [cur].  With [create] the last name may be
    missing, as in [open] with [O_CREAT], which also follows a link to a name
    that is missing. *)
Fixpoint walk (fs : Fs) (create : bool) (links : nat) {struct links}
    : HostPath -> list Component -> result Errno HostPath :=
  fix go (cur : HostPath) (comps : list Component) {struct comps} :=
    match comps with
    | [] => Ok cur
    | RootDir :: rest => go [] rest
    | CurDir :: rest => go cur rest
    | ParentDir :: rest => go (take (length cur - 1) cur) rest
    | Normal c :: rest =>
        match fs !! (cur ++ [c]) with
        | None => if create && bool_decide (rest = []) then Ok (cur ++ [c]) else Err ENOENT
        | Some Dir => go (cur ++ [c]) rest
        | Some (File _ _) => if bool_decide (rest = []) then Ok (cur ++ [c]) else Err ENOTDIR
        | Some (Link target _) =>
            match links with
            | O => Err ELOOP
            | S links' => walk fs create links' cur (components target ++ rest)
            end
        end
    end.

Definition names (p : HostPath) : list Component := map Normal p.

(** [canonicalize], [exists] and [is_dir] follow every link. *)
Definition canonicalize (fs : Fs) (p : HostPath) : result Errno HostPath :=
  walk fs false MAXSYMLINKS [] (names p).

Definition path_exists (fs : Fs) (p : HostPath) : bool := is_ok (canonicalize fs p).

Definition is_dir (fs : Fs) (p : HostPath) : bool :=
  match canonicalize fs p with
  | Ok q => bool_decide (node fs q = Some Dir)
  | Err _ => false
  end.

(** Where the last name of a path is: its directory is resolved, the name itself is not. *)
Definition locate (fs : Fs) (p : HostPath) : result Errno HostPath :=
  match last p with
  | None => Err EEXIST
  | Some c =>
      d ← canonicalize fs (removelast p);
      if bool_decide (node fs d = Some Dir) then Ok (d ++ [c]) else Err ENOTDIR
  end.

Definition lstat (fs : Fs) (p : HostPath) : option Node :=
  match locate fs p with Ok q => fs !! q | Err _ => None end.

(** * Operations *)

Definition read_file (fs : Fs) (p : HostPath) : result Errno string :=
  q ← canonicalize fs p;
  match node fs q with
  | Some (File contents _) => Ok contents
  | _ => Err EISDIR
  end.

(** [fs::write] at time [now]. *)
Definition write_file (fs : Fs) (now : Z) (p : HostPath) (contents : string) : result Errno Fs :=
  q ← walk fs true MAXSYMLINKS [] (names p);
  match node fs q with
  | Some Dir => Err EISDIR
  | _ => Ok (<[q := File contents now]> fs)
  end.

Definition mkdir (fs : Fs) (p : HostPath) : result Errno Fs :=
  q ← locate fs p;
  match fs !! q with
  | Some _ => Err EEXIST
  | None => Ok (<[q := Dir]> fs)
  end.

(** [create_dir_all] on a path given from its last name; what was created stays
    when a later directory fails. *)
Fixpoint create_dirs (fs : Fs) (rp : list string) : result Errno () * Fs :=
  match mkdir fs (rev rp) with
  | Ok fs' => (Ok tt, fs')
  | Err ENOENT =>
      match rp with
      | [] => (Err ENOENT, fs)
      | _ :: parent =>
          match create_dirs fs parent with
          | (Err e, fs1) => (Err e, fs1)
          | (Ok _, fs1) =>
              match mkdir fs1 (rev rp) with
              | Ok fs2 => (Ok tt, fs2)
              | Err e => if is_dir fs1 (rev rp) then (Ok tt, fs1) else (Err e, fs1)
              end
          end
      end
  | Err e => if is_dir fs (rev rp) then (Ok tt, fs) else (Err e, fs)
  end.

Definition create_dir_all (fs : Fs) (p : HostPath) : result Errno () * Fs := create_dirs fs (rev p).

(** [remove_file] removes a link itself; so does [remove_dir_all]. *)
Definition remove_file (fs : Fs) (p : HostPath) : result Errno Fs :=
  q ← locate fs p;
  match fs !! q with
  | None => Err ENOENT
  | Some Dir => Err EISDIR
  | Some _ => Ok (delete q fs)
  end.

Definition prune (fs : Fs) (q : HostPath) : Fs := filter (fun kv => ~ q `prefix_of` kv.1) fs.

Definition remove_dir_all (fs : Fs) (p : HostPath) : result Errno Fs :=
  q ← locate fs p;
  match fs !! q with
  | None => Err ENOENT
  | Some (File _ _) => Err ENOTDIR
  | Some (Link _ _) => Ok (delete q fs)
  | Some Dir => Ok (prune fs q)
  end.

(** * Resolution *)

Section walk_lemmas.
Implicit Types (fs : Fs) (p q d cur : HostPath).

(** One name of a resolution. *)
Lemma walk_normal fs create links cur c rest :
  walk fs create links cur (Normal c :: rest) =
    match fs !! (cur ++ [c]) with
    | None => if create && bool_decide (rest = []) then Ok (cur ++ [c]) else Err ENOENT
    | Some Dir => walk fs create links (cur ++ [c]) rest
    | Some (File _ _) => if bool_decide (rest = []) then Ok (cur ++ [c]) else Err ENOTDIR
    | Some (Link target _) =>
        match links with
        | O => Err ELOOP
        | S links' => walk fs create links' cur (components target ++ rest)
        end
    end.
Proof. by destruct links. Qed.

Lemma walk_nil fs create links cur : walk fs create links cur [] = Ok cur.
Proof. by destruct links. Qed.

Lemma walk_root fs create links cur rest :
  walk fs create links cur (RootDir :: rest) = walk fs create links [] rest.
Proof. by destruct links. Qed.

Lemma walk_dot fs create links cur rest :
  walk fs create links cur (CurDir :: rest) = walk fs create links cur rest.
Proof. by destruct links. Qed.

Lemma walk_up fs create links cur rest :
  walk fs create links cur (ParentDir :: rest) = walk fs create links (take (length cur - 1) cur) rest.
Proof. by destruct links. Qed.

Create Rewrite HintDb walk.
#[local] Hint Rewrite walk_nil walk_root walk_dot walk_up walk_normal : walk.

(** Induction over a resolution: its links, then its names. *)
Lemma walk_ind fs create (P : nat -> HostPath -> list Component -> result Errno HostPath -> Prop) :
  (forall links cur, P links cur [] (Ok cur)) ->
  (forall links cur rest, P links [] rest (walk fs create links [] rest) ->
     P links cur (RootDir :: rest) (walk fs create links [] rest)) ->
  (forall links cur rest, P links cur rest (walk fs create links cur rest) ->
     P links cur (CurDir :: rest) (walk fs create links cur rest)) ->
  (forall links cur rest,
     P links (take (length cur - 1) cur) rest (walk fs create links (take (length cur - 1) cur) rest) ->
     P links cur (ParentDir :: rest) (walk fs create links (take (length cur - 1) cur) rest)) ->
  (forall links cur c rest, fs !! (cur ++ [c]) = None ->
     P links cur (Normal c :: rest) (if create && bool_decide (rest = []) then Ok (cur ++ [c]) else Err ENOENT)) ->
  (forall links cur c rest s t, fs !! (cur ++ [c]) = Some (File s t) ->
     P links cur (Normal c :: rest) (if bool_decide (rest = []) then Ok (cur ++ [c]) else Err ENOTDIR)) ->
  (forall links cur c rest, fs !! (cur ++ [c]) = Some Dir ->
     P links (cur ++ [c]) rest (walk fs create links (cur ++ [c]) rest) ->
     P links cur (Normal c :: rest) (walk fs create links (cur ++ [c]) rest)) ->
  (forall cur c rest target t, fs !! (cur ++ [c]) = Some (Link target t) -> P O cur (Normal c :: rest) (Err ELOOP)) ->
  (forall links cur c rest target t, fs !! (cur ++ [c]) = Some (Link target t) ->
     P links cur (components target ++ rest) (walk fs create links cur (components target ++ rest)) ->
     P (S links) cur (Normal c :: rest) (walk fs create links cur (components target ++ rest))) ->
  forall links cur comps, P links cur comps (walk fs create links cur comps).
Proof.
  intros Hnil Hroot Hcur Hup Hnone Hfile Hdir Hloop Hlink links.
  induction links as [|links IHl]; intros cur comps; revert cur;
    (induction comps as [|[| | |c] rest IH]; intros cur; autorewrite with walk; [auto..|]).
  all: destruct (fs !! (cur ++ [c])) as [[s t| |target t]|] eqn:E; eauto.
Qed.

(** A resolution that succeeds without creating still does when more is there. *)
Lemma walk_mono fs fs' links cur comps q :
  fs ⊆ fs' -> walk fs false links cur comps = Ok q -> walk fs' false links cur comps = Ok q.
Proof.
  intros Hsub. revert q. pattern links, cur, comps, (walk fs false links cur comps). revert links cur comps.
  apply walk_ind; cbn [andb]; try done; intros; autorewrite with walk in *; auto.
  all: by erewrite lookup_weaken by done; auto.
Qed.

(** What exists is found by [open] with [O_CREAT] too. *)
Lemma walk_create fs links cur comps q :
  walk fs false links cur comps = Ok q -> walk fs true links cur comps = Ok q.
Proof.
  revert q. pattern links, cur, comps, (walk fs false links cur comps). revert links cur comps.
  apply walk_ind; cbn [andb]; try done; intros; autorewrite with walk in *; auto.
  all: match goal with E : _ !! _ = Some _ |- _ => by rewrite E; auto end.
Qed.

(** Resolutions do not notice that a file is written. *)
Lemma walk_over_file fs links cur comps p q contents now :
  (fs !! q = None \/ exists s t, fs !! q = Some (File s t)) -> walk fs false links cur comps = Ok p ->
  walk (<[q := File contents now]> fs) false links cur comps = Ok p.
Proof.
  intros Hq. revert p. pattern links, cur, comps, (walk fs false links cur comps). revert links cur comps.
  assert (forall n, fs !! q = Some n -> exists s t, n = File s t) as Hfile by (destruct Hq as [->|(s & t & ->)]; naive_solver).
  apply walk_ind; cbn [andb].
  - intros ls here p [= <-]. by rewrite walk_nil.
  - intros ls here rest IH p Hp. rewrite walk_root. auto.
  - intros ls here rest IH p Hp. rewrite walk_dot. auto.
  - intros ls here rest IH p Hp. rewrite walk_up. auto.
  - done.
  - intros ls here x rest s t E p Hp. rewrite walk_normal. destruct (decide (q = here ++ [x])) as [->|Hne].
    + by rewrite lookup_insert_eq.
    + by rewrite lookup_insert_ne, E.
  - intros ls here x rest E IH p Hp. rewrite walk_normal, lookup_insert_ne; [rewrite E; auto|].
    intros ->. by destruct (Hfile _ E) as (? & ? & ?).
  - done.
  - intros ls here x rest target t E IH p Hp. rewrite walk_normal, lookup_insert_ne; [rewrite E; auto|].
    intros ->. by destruct (Hfile _ E) as (? & ? & ?).
Qed.

Lemma node_snoc fs d c : node fs (d ++ [c]) = fs !! (d ++ [c]).
Proof. by destruct d. Qed.

Lemma tree_parent fs d c n : tree fs -> fs !! (d ++ [c]) = Some n -> node fs d = Some Dir.
Proof. intros Ht Hn. destruct d as [|x d]; [done|]. by eapply (proj2 (Ht _ _ Hn)). Qed.

Lemma tree_up fs d : tree fs -> node fs d = Some Dir -> node fs (take (length d - 1) d) = Some Dir.
Proof.
  intros Ht Hd. destruct d as [|c d] using rev_ind; [done|]. rewrite length_app, Nat.add_sub, take_app_length.
  rewrite node_snoc in Hd. by eapply tree_parent.
Qed.

(** What a resolution ends at is there, and is not a link. *)
Lemma walk_node fs links cur comps q :
  tree fs -> node fs cur = Some Dir -> walk fs false links cur comps = Ok q ->
  exists n, node fs q = Some n /\ forall target t, n <> Link target t.
Proof.
  intros Ht. revert q. pattern links, cur, comps, (walk fs false links cur comps). revert links cur comps.
  apply walk_ind; cbn [andb].
  - intros links cur q Hc [= <-]. eauto.
  - intros links cur rest IH q Hc Hq. by apply IH.
  - intros links cur rest IH q Hc Hq. by apply IH.
  - intros links cur rest IH q Hc Hq. apply IH; [by apply tree_up|done].
  - done.
  - intros links cur c rest s t E q Hc Hq. case_bool_decide; [|done]. injection Hq as <-. rewrite node_snoc. eauto.
  - intros links cur c rest E IH q Hc Hq. apply IH; [by rewrite node_snoc|done].
  - done.
  - intros links cur c rest target t E IH q Hc Hq. by apply IH.
Qed.

Lemma walk_no_link fs create links cur comps q :
  tree fs -> node fs cur = Some Dir -> walk fs create links cur comps = Ok q ->
  forall target t, node fs q <> Some (Link target t).
Proof.
  intros Ht. revert q. pattern links, cur, comps, (walk fs create links cur comps). revert links cur comps.
  apply walk_ind.
  - intros ls here q Hc [= <-] target t. congruence.
  - intros ls here rest IH q Hc Hq. by apply IH.
  - intros ls here rest IH q Hc Hq. by apply IH.
  - intros ls here rest IH q Hc Hq. apply IH; [by apply tree_up|done].
  - intros ls here c rest E q Hc Hq target t. destruct (create && _); [|done]. injection Hq as <-. rewrite node_snoc. congruence.
  - intros ls here c rest s t E q Hc Hq target t'. case_bool_decide; [|done]. injection Hq as <-. rewrite node_snoc. congruence.
  - intros ls here c rest E IH q Hc Hq. apply IH; [by rewrite node_snoc|done].
  - done.
  - intros ls here c rest target t E IH q Hc Hq. by apply IH.
Qed.

(** A resolution passes through a directory at every point. *)
Lemma walk_app fs create links cur l1 l2 q :
  tree fs -> node fs cur = Some Dir -> l2 <> [] -> walk fs create links cur (l1 ++ l2) = Ok q ->
  exists d m, walk fs false links cur l1 = Ok d /\ node fs d = Some Dir /\ walk fs create m d l2 = Ok q.
Proof.
  intros Ht Hc Hl2. remember (l1 ++ l2) as comps eqn:Heq. revert l1 q Hc Heq.
  pattern links, cur, comps, (walk fs create links cur comps). revert links cur comps.
  apply walk_ind.
  - intros ls here l1 q _ Heq. symmetry in Heq. by apply app_eq_nil in Heq as [_ ?].
  - intros ls here rest IH [|x l1] q Hd Heq Hq; cbn in Heq; simplify_eq; [exists here, ls; by autorewrite with walk|].
    rewrite walk_root. by apply IH.
  - intros ls here rest IH [|x l1] q Hd Heq Hq; cbn in Heq; simplify_eq; [exists here, ls; by autorewrite with walk|].
    rewrite walk_dot. by apply IH.
  - intros ls here rest IH [|x l1] q Hd Heq Hq; cbn in Heq; simplify_eq; [exists here, ls; by autorewrite with walk|].
    rewrite walk_up. apply IH; [by apply tree_up|done..].
  - intros ls here c rest E [|x l1] q Hd Heq Hq; cbn in Heq; simplify_eq;
      [exists here, ls; autorewrite with walk; by rewrite E|].
    case_bool_decide as Hn; [by apply app_eq_nil in Hn as [_ ?]|]. by rewrite andb_false_r in Hq.
  - intros ls here c rest s t E [|x l1] q Hd Heq Hq; cbn in Heq; simplify_eq;
      [exists here, ls; autorewrite with walk; by rewrite E|].
    case_bool_decide as Hn; [by apply app_eq_nil in Hn as [_ ?]|done].
  - intros ls here c rest E IH [|x l1] q Hd Heq Hq; cbn in Heq; simplify_eq;
      [exists here, ls; autorewrite with walk; by rewrite E|].
    rewrite walk_normal, E. apply IH; [by rewrite node_snoc|done..].
  - done.
  - intros ls here c rest target t E IH [|x l1] q Hd Heq Hq; cbn in Heq; simplify_eq;
      [exists here, (S ls); autorewrite with walk; by rewrite E|].
    rewrite walk_normal, E. apply IH; [done|by rewrite app_assoc|done].
Qed.

(** The next name after a directory. *)
Lemma walk_snoc fs create links cur l d c :
  walk fs false links cur l = Ok d -> node fs d = Some Dir ->
  match fs !! (d ++ [c]) with
  | None => walk fs create links cur (l ++ [Normal c]) = if create then Ok (d ++ [c]) else Err ENOENT
  | Some (Link _ _) => True
  | Some _ => walk fs create links cur (l ++ [Normal c]) = Ok (d ++ [c])
  end.
Proof.
  intros Hw Hd. revert Hw. pattern links, cur, l, (walk fs false links cur l). revert links cur l.
  apply walk_ind; cbn [andb app].
  - intros ls here [= ->]. rewrite walk_normal. destruct (fs !! (d ++ [c])) as [[]|] eqn:E; [done| |done|].
    + by rewrite walk_nil.
    + rewrite bool_decide_true by done. by destruct create.
  - intros ls here rest IH Hw. rewrite walk_root. by apply IH.
  - intros ls here rest IH Hw. rewrite walk_dot. by apply IH.
  - intros ls here rest IH Hw. rewrite walk_up. by apply IH.
  - done.
  - intros ls here x rest s t E Hw. case_bool_decide; [|done]. injection Hw as <-. rewrite node_snoc in Hd. congruence.
  - intros ls here x rest E IH Hw. rewrite walk_normal, E. by apply IH.
  - done.
  - intros ls here x rest target t E IH Hw. rewrite walk_normal, E, app_assoc. by apply IH.
Qed.

(** Writing where a resolution with [create] ends makes the plain one end there. *)
Lemma walk_written fs links cur comps q contents now :
  walk fs true links cur comps = Ok q -> (forall target t, fs !! q <> Some (Link target t)) -> fs !! q <> Some Dir ->
  node fs q <> Some Dir ->
  walk (<[q := File contents now]> fs) false links cur comps = Ok q.
Proof.
  intros Hw Hl Hd Hn. revert Hw. pattern links, cur, comps, (walk fs true links cur comps). revert links cur comps.
  apply walk_ind; cbn [andb].
  - intros ls here [= ->]. by rewrite walk_nil.
  - intros ls here rest IH Hw. rewrite walk_root. auto.
  - intros ls here rest IH Hw. rewrite walk_dot. auto.
  - intros ls here rest IH Hw. rewrite walk_up. auto.
  - intros ls here x rest E Hw. case_bool_decide as Hr; [|done]. injection Hw as <-.
    rewrite walk_normal, lookup_insert_eq. by rewrite bool_decide_true.
  - intros ls here x rest s t E Hw. case_bool_decide as Hr; [|done]. injection Hw as <-.
    rewrite walk_normal, lookup_insert_eq. by rewrite bool_decide_true.
  - intros ls here x rest E IH Hw. rewrite walk_normal, lookup_insert_ne by (intros ->; congruence). rewrite E. auto.
  - done.
  - intros ls here x rest target t E IH Hw. rewrite walk_normal, lookup_insert_ne by (intros ->; by eapply Hl).
    rewrite E. auto.
Qed.

(** * Directories *)

Lemma names_snoc p c : names (p ++ [c]) = names p ++ [Normal c].
Proof. apply map_app. Qed.

Lemma locate_Ok fs p q :
  locate fs p = Ok q <-> exists P c d, p = P ++ [c] /\ canonicalize fs P = Ok d /\ node fs d = Some Dir /\ q = d ++ [c].
Proof.
  unfold locate. split.
  - destruct (last p) as [c|] eqn:El; [|done]. apply last_Some in El as [P ->]. rewrite removelast_last.
    intros (d & Hd & Hq)%bind_Ok. case_bool_decide; [|done]. injection Hq as <-. eauto 10.
  - intros (P & c & d & -> & Hd & Hn & ->). rewrite last_snoc, removelast_last. apply bind_Ok. exists d.
    by rewrite bool_decide_true.
Qed.

Lemma mkdir_Ok fs p fs' :
  mkdir fs p = Ok fs' <-> exists P c d, p = P ++ [c] /\ canonicalize fs P = Ok d /\ node fs d = Some Dir
    /\ fs !! (d ++ [c]) = None /\ fs' = <[d ++ [c] := Dir]> fs.
Proof.
  unfold mkdir. rewrite bind_Ok. split.
  - intros (q & (P & c & d & -> & Hd & Hn & ->)%locate_Ok & Hm). destruct (fs !! (d ++ [c])) eqn:E; [done|].
    injection Hm as <-. eauto 10.
  - intros (P & c & d & -> & Hd & Hn & E & ->). exists (d ++ [c]). rewrite locate_Ok, E. eauto 10.
Qed.

Lemma tree_insert fs d c n :
  tree fs -> node fs d = Some Dir -> (fs !! (d ++ [c]) = None \/ exists s t, fs !! (d ++ [c]) = Some (File s t)) ->
  tree (<[d ++ [c] := n]> fs).
Proof.
  intros Ht Hd Hnew p m Hp. apply lookup_insert_Some in Hp as [[<- <-]|[Hne Hp]].
  - split; [by destruct d|]. intros d' x r Heq Hd'.
    assert (d ++ [c] <> d') as Hne
      by (intros He; rewrite He in Heq; apply (f_equal length) in Heq; rewrite length_app in Heq; cbn in Heq; lia).
    rewrite lookup_insert_ne by done. destruct (decide (d = d')) as [<-|Hdd]; [by destruct d|].
    destruct r as [|y r _] using rev_ind; [by apply app_inj_tail in Heq as [? _]|].
    rewrite app_comm_cons, app_assoc in Heq. apply app_inj_tail in Heq as [-> _].
    destruct (d' ++ x :: r) as [|z l] eqn:El; [by destruct d'|]. eapply (proj2 (Ht _ _ Hd)); [exact (eq_sym El)|done].
  - split; [by apply (Ht _ _ Hp)|]. intros d' x r Heq Hd'.
    destruct (decide (d ++ [c] = d')) as [<-|Hdd]; [|rewrite lookup_insert_ne by done; by eapply (proj2 (Ht _ _ Hp))].
    exfalso. pose proof (proj2 (Ht _ _ Hp) _ _ _ Heq Hd') as Hdir. destruct Hnew as [?|(s & t & ?)]; congruence.
Qed.

(** A path that is there has its directory there, and the name in it. *)
Lemma canonicalize_snoc fs P c q :
  tree fs -> canonicalize fs (P ++ [c]) = Ok q ->
  exists d, canonicalize fs P = Ok d /\ node fs d = Some Dir /\ is_Some (fs !! (d ++ [c]))
    /\ ((exists target t, fs !! (d ++ [c]) = Some (Link target t)) \/ q = d ++ [c]).
Proof.
  unfold canonicalize. rewrite names_snoc. intros Ht Hq.
  destruct (walk_app fs false MAXSYMLINKS [] (names P) [Normal c] q Ht eq_refl ltac:(done) Hq) as (d & m & Hd & Hn & _).
  exists d. pose proof (walk_snoc fs false MAXSYMLINKS [] (names P) d c Hd Hn) as Hs.
  destruct (fs !! (d ++ [c])) as [[s t| |target t]|] eqn:E; [..|congruence]; split_and!; try done.
  - right. congruence.
  - right. congruence.
  - left. eauto.
Qed.

Lemma is_dir_Ok fs p : is_dir fs p = true <-> exists q, canonicalize fs p = Ok q /\ node fs q = Some Dir.
Proof.
  unfold is_dir. destruct (canonicalize fs p) as [q|e].
  - rewrite bool_decide_eq_true. naive_solver.
  - split; [done|by intros (? & ? & _)].
Qed.

(** A directory just made is found under its path. *)
Lemma made_dir fs P c d :
  canonicalize fs P = Ok d -> node fs d = Some Dir -> fs !! (d ++ [c]) = None ->
  canonicalize (<[d ++ [c] := Dir]> fs) (P ++ [c]) = Ok (d ++ [c]).
Proof.
  intros HP Hd E. set (fs' := <[d ++ [c] := Dir]> fs).
  assert (walk fs' false MAXSYMLINKS [] (names P) = Ok d) as HP' by (eapply walk_mono; [by apply insert_subseteq|done]).
  assert (node fs' d = Some Dir) as Hd'.
  { destruct d as [|x d]; [done|]. cbn in *. unfold fs'. rewrite lookup_insert_ne; [done|].
    intros Heq. apply (f_equal length) in Heq. cbn in Heq. rewrite length_app in Heq. cbn in Heq. lia. }
  pose proof (walk_snoc fs' false MAXSYMLINKS [] (names P) d c HP' Hd') as Hs. unfold fs' in Hs at 1.
  rewrite lookup_insert_eq in Hs. unfold canonicalize. by rewrite names_snoc.
Qed.

Definition absent (fs : Fs) (p : HostPath) : Prop := forall q, canonicalize fs p <> Ok q.

(** What making directories below [a] may add: the directories on the way to [a ++ l]. *)
Definition added (fs : Fs) (a l : HostPath) (fs' : Fs) : Prop :=
  tree fs' /\ fs ⊆ fs'
  /\ forall q n, fs !! q = None -> fs' !! q = Some n ->
       n = Dir /\ exists l', l' <> [] /\ l' `prefix_of` l /\ q = a ++ l'.

Lemma added_none fs a l : tree fs -> added fs a l fs.
Proof. intros Ht. split_and!; [done..|]. intros; congruence. Qed.

Lemma added_longer fs a l l2 fs' : added fs a l fs' -> added fs a (l ++ l2) fs'.
Proof.
  intros (Ht & Hsub & Hnew). split_and!; [done..|]. intros q n Hq Hn.
  destruct (Hnew _ _ Hq Hn) as (-> & l' & Hne & Hpre & ->). split; [done|]. exists l'. by split_and!; [|apply prefix_app_r|].
Qed.

(** One more directory. *)
Lemma mkdir_added fs a l fs1 P c fs2 :
  added fs a l fs1 -> canonicalize fs1 P = Ok (a ++ l) -> mkdir fs1 (P ++ [c]) = Ok fs2 ->
  added fs a (l ++ [c]) fs2 /\ canonicalize fs2 (P ++ [c]) = Ok (a ++ l ++ [c])
  /\ node fs2 (a ++ l ++ [c]) = Some Dir /\ fs !! (a ++ l ++ [c]) = None.
Proof.
  intros (Ht & Hsub & Hnew) HP (P' & x & d & Heq & HP' & Hd & E & ->)%mkdir_Ok.
  apply app_inj_tail in Heq as [<- <-]. rewrite HP in HP'. injection HP' as <-. rewrite !app_assoc. split_and!.
  - split_and!; [by apply tree_insert; auto|by etrans; [|apply insert_subseteq]|].
    intros q n Hq Hn. apply lookup_insert_Some in Hn as [[<- <-]|[_ Hn]].
    + split; [done|]. exists (l ++ [c]). rewrite app_assoc. by split_and!; [destruct l| |].
    + by apply (proj2 (proj2 (added_longer fs a l [c] fs1 (conj Ht (conj Hsub Hnew))))).
  - by apply made_dir.
  - rewrite node_snoc. apply lookup_insert_eq.
  - by eapply lookup_weaken_None.
Qed.

(** On a path that is there nothing is made. *)
Lemma create_dirs_there fs rp a r fs' :
  tree fs -> canonicalize fs (rev rp) = Ok a -> create_dirs fs rp = (r, fs') ->
  fs' = fs /\ (r = Ok tt -> node fs a = Some Dir).
Proof.
  intros Ht HA.
  assert (forall fs1, mkdir fs (rev rp) <> Ok fs1) as Hno.
  { intros fs1 (P & c & d & Heq & Hd & Hn & E & _)%mkdir_Ok. rewrite Heq in HA.
    destruct (canonicalize_snoc _ _ _ _ Ht HA) as (d' & Hd' & _ & [n Hs] & _). congruence. }
  assert (mkdir fs (rev rp) <> Err ENOENT) as Hnoent.
  { unfold mkdir, locate. destruct (last (rev rp)) as [c|] eqn:El; [|done]. apply last_Some in El as [P HP]. rewrite HP in *.
    rewrite removelast_last. destruct (canonicalize_snoc _ _ _ _ Ht HA) as (d & Hd & Hn & [n Hs] & _).
    rewrite Hd. cbn. rewrite bool_decide_true by done. cbn. by rewrite Hs. }
  assert (forall e, (if is_dir fs (rev rp) then (Ok tt, fs) else (@Err Errno () e, fs)) = (r, fs') ->
    fs' = fs /\ (r = Ok tt -> node fs a = Some Dir)) as Hres.
  { intros e. destruct (is_dir fs (rev rp)) eqn:Ed; intros [= <- <-]; [|done]. split; [done|]. intros _.
    apply is_dir_Ok in Ed as (q & Hq & Hd). congruence. }
  destruct rp; cbn [create_dirs]; destruct (mkdir fs _) as [fs1|[]]; try done; try (by destruct (Hno fs1)); apply Hres.
Qed.

Lemma mkdir_enoent fs a A c : canonicalize fs A = Ok a -> mkdir fs (A ++ [c]) <> Err ENOENT.
Proof.
  intros HA. unfold mkdir, locate. rewrite last_snoc, removelast_last, HA. cbn.
  case_bool_decide; [|done]. cbn. by destruct (fs !! (a ++ [c])).
Qed.

(** The name after directories that were just made is free. *)
Lemma added_free fs a l fs1 c :
  tree fs -> l <> [] -> fs !! (a ++ l) = None -> added fs a l fs1 -> fs1 !! (a ++ l ++ [c]) = None.
Proof.
  intros Ht Hl Hnone (_ & _ & Hnew). rewrite app_assoc. destruct (fs1 !! ((a ++ l) ++ [c])) as [n|] eqn:E1; [exfalso|done].
  destruct (fs !! ((a ++ l) ++ [c])) as [m|] eqn:E0.
  - pose proof (tree_parent _ _ _ _ Ht E0) as Hd0. destruct (a ++ l) eqn:Eal; [by destruct a, l|]. cbn in Hd0. congruence.
  - destruct (Hnew _ _ E0 E1) as (_ & l' & _ & Hpre & Heq). rewrite <- app_assoc in Heq. apply app_inv_head in Heq as <-.
    by apply prefix_snoc_not in Hpre.
Qed.

(** [create_dir_all] below a path that is there: only the missing directories are made, under
    the place that path leads to. *)
Lemma create_dirs_spec a A : forall l fs rp r fs',
  tree fs -> rev rp = A ++ l -> canonicalize fs A = Ok a ->
  (forall l', l' <> [] -> l' `prefix_of` l -> absent fs (A ++ l')) ->
  create_dirs fs rp = (r, fs') ->
  added fs a l fs'
  /\ (r = Ok tt -> canonicalize fs' (A ++ l) = Ok (a ++ l) /\ node fs' (a ++ l) = Some Dir
       /\ (l <> [] -> fs !! (a ++ l) = None)).
Proof.
  induction l as [|c l IH] using rev_ind; intros fs rp r fs' Ht Hrp HA Hab.
  { rewrite app_nil_r in *. rewrite <- Hrp in HA. intros Hc. destruct (create_dirs_there _ _ _ _ _ Ht HA Hc) as [-> Hd].
    split; [by apply added_none|]. intros Hr. rewrite <- Hrp, app_nil_r. split_and!; [done|auto|done]. }
  destruct rp as [|c' rp]; [by destruct A, l|]. cbn [rev] in Hrp. rewrite app_assoc in Hrp.
  apply app_inj_tail in Hrp as [Hrp ->]. cbn [create_dirs rev]. rewrite Hrp.
  assert (is_dir fs ((A ++ l) ++ [c]) = false) as Hnd.
  { apply not_true_iff_false. intros (q & Hq & _)%is_dir_Ok. rewrite <- app_assoc in Hq.
    by eapply (Hab (l ++ [c])); [by destruct l|reflexivity|]. }
  destruct (mkdir fs ((A ++ l) ++ [c])) as [fs1|e] eqn:Em.
  - intros [= <- <-]. assert (l = []) as ->.
    { apply mkdir_Ok in Em as (P & x & d & Heq & HP & _). apply app_inj_tail in Heq as [<- <-].
      destruct l as [|y l]; [done|]. exfalso. by eapply (Hab (y :: l)); [done|apply prefix_app_r|]. }
    rewrite !app_nil_r in *. destruct (mkdir_added fs a [] fs A c fs1) as (? & ? & ? & ?); [by apply added_none|by rewrite app_nil_r|done|].
    auto.
  - destruct (decide (e = ENOENT)) as [->|Hne].
    2:{ intros Hr. assert ((Err e, fs) = (r, fs')) as [= <- <-] by (by destruct e; rewrite ?Hnd in Hr).
        split; [by apply added_none|done]. }
    assert (l <> []) as Hdeep by (intros ->; rewrite app_nil_r in Em; by apply (mkdir_enoent _ _ _ _ HA) in Em).
    destruct (create_dirs fs rp) as [r1 fs1] eqn:Ec.
    destruct (IH fs rp r1 fs1 Ht Hrp HA) as [Hadd Hok]; [intros l' ? ?; apply Hab; [done|by apply prefix_app_r]|done|].
    destruct r1 as [[]|e1]; [|intros [= <- <-]; split; [by apply added_longer|done]].
    destruct (Hok eq_refl) as (Hcan & Hdir & Hnone). specialize (Hnone Hdeep).
    pose proof (added_free _ _ _ _ c Ht Hdeep Hnone Hadd) as Hfree.
    destruct (mkdir fs1 ((A ++ l) ++ [c])) as [fs2|e2] eqn:Em2.
    + intros [= <- <-]. destruct (mkdir_added fs a l fs1 (A ++ l) c fs2) as (? & ? & ? & ?); [done..|].
      rewrite <- app_assoc in *. auto.
    + exfalso. revert Em2. unfold mkdir. rewrite (proj2 (locate_Ok fs1 ((A ++ l) ++ [c]) ((a ++ l) ++ [c]))).
      * cbn. by rewrite <- app_assoc, Hfree.
      * by exists (A ++ l), c, (a ++ l).
Qed.

End walk_lemmas.
