(* ===== verification/LocalFiles.v ===== *)
(** The file actions of the local backend, [backends/local/src/lib.rs]:
    confinement of workspace paths, reading, writing and deleting, the scan that
    reports what was written, and the removal of a workspace.

    A call is one block over the host's file system: what a process of the
    branch may do to it between a check and its use is not in the model. *)

From S2P Require Import Prelude Json Budget Capability Types B64 Effect Path HostFs.

Open Scope Z_scope.

(** The texts of operating-system errors. *)
Class IoText := { errno_text : Errno -> string }.

(** What an action gives back before it is metered; [er_meter] is the usage of
    a reaped child, CPU milliseconds and peak memory. *)
Record ExecResult := mkExec {
  er_exit : Z;                        (* i32 *)
  er_stdout : string;
  er_stderr : string;
  er_network : Z;                     (* u64 *)
  er_meter : option (Z * Z);
}.

Definition done_with (exit : Z) (stdout stderr : string) : ExecResult := mkExec exit stdout stderr 0 None.

Definition denial (code : DenialCode) (op reason : string) : KernelError :=
  Denied (mkDenial code op reason [] [] false).

(** [cap]: the first [max] bytes. *)
Definition cap (bytes : string) (max : Z) : string := String.substring 0 (Z.to_nat max) bytes.

Section files.
Context `{!IoText}.

Definition io {A} (r : result Errno A) : KernelResult A := map_err (fun e => EIo (errno_text e)) r.

Definition normalize (op raw : string) : KernelResult (list string) :=
  map_err (denial DConstraintViolated op) (normalize_relative raw).

(** The deepest ancestor that is there, where it leads; the path is given from
    its last name. *)
Fixpoint anchor (fs : Fs) (rp : list string) : option HostPath :=
  match canonicalize fs (rev rp) with
  | Ok a => Some a
  | Err _ => match rp with [] => None | _ :: parent => anchor fs parent end
  end.

Definition under (ws p : HostPath) : bool := bool_decide (ws `prefix_of` p).

Definition refuse (op reason : string) {A} : KernelResult A := Err (denial DConstraintViolated op reason).

Definition resolve_confined (fs : Fs) (op : string) (workspace : HostPath) (raw : string) (prefixes : list string)
    : KernelResult HostPath :=
  rel ← normalize op raw;
  if negb (matches_prefixes rel prefixes) then
    refuse op ("path `" +:+ raw +:+ "` is outside the allowed prefixes")
  else
    ws_canon ← io (canonicalize fs workspace);
    let full := ws_canon ++ rel in
    match anchor fs (rev full) with
    | None => refuse op ("path `" +:+ raw +:+ "` has no resolvable ancestor")
    | Some a =>
        if negb (under ws_canon a) then refuse op ("path `" +:+ raw +:+ "` escapes the workspace")
        else if path_exists fs full then
          canon ← io (canonicalize fs full);
          if negb (under ws_canon canon) then
            refuse op ("path `" +:+ raw +:+ "` escapes the workspace via a symlink")
          else Ok full
        else Ok full
    end.

(** * Actions *)

Definition read_action (fs : Fs) (ws : HostPath) (max_capture : Z) (path : string) (readable : list string)
    : KernelResult ExecResult :=
  full ← resolve_confined fs "fs.read" ws path readable;
  Ok match read_file fs full with
     | Ok bytes => done_with 0 (cap bytes max_capture) EmptyString
     | Err e => done_with 1 EmptyString ("read failed: " +:+ errno_text e)
     end.

(** A state change that an error may interrupt. *)
Definition write_action (fs : Fs) (now : Z) (ws : HostPath) (path contents_b64 : string) (writable : list string)
    : KernelResult ExecResult * Fs :=
  match resolve_confined fs "fs.write" ws path writable with
  | Err e => (Err e, fs)
  | Ok full =>
      match map_err (fun e => denial DConstraintViolated "fs.write" ("invalid base64: " +:+ e)) (decode contents_b64) with
      | Err e => (Err e, fs)
      | Ok contents =>
          match (match full with [] => (Ok tt, fs) | _ => create_dir_all fs (removelast full) end) with
          | (Err e, fs1) => (Err (EIo (errno_text e)), fs1)
          | (Ok _, fs1) =>
              match write_file fs1 now full contents with
              | Err e => (Err (EIo (errno_text e)), fs1)
              | Ok fs2 => (Ok (done_with 0 EmptyString EmptyString), fs2)
              end
          end
      end
  end.

Definition delete_action (fs : Fs) (ws : HostPath) (path : string) (writable : list string)
    : KernelResult ExecResult * Fs :=
  match resolve_confined fs "fs.delete" ws path writable with
  | Err e => (Err e, fs)
  | Ok full =>
      match (if is_dir fs full then remove_dir_all fs full else remove_file fs full) with
      | Ok fs' => (Ok (done_with 0 EmptyString EmptyString), fs')
      | Err e => (Ok (done_with 1 EmptyString ("delete failed: " +:+ errno_text e)), fs)
      end
  end.

(** * The workspace of a branch *)

(** [root.join(branch)], made when it is missing. *)
Definition workspace_for (fs : Fs) (root : HostPath) (branch : string) : KernelResult HostPath * Fs :=
  let dir := root ++ [branch] in
  match create_dir_all fs dir with
  | (Ok _, fs') => (Ok dir, fs')
  | (Err e, fs') => (Err (EIo (errno_text e)), fs')
  end.

Definition discard_workspace (fs : Fs) (root : HostPath) (branch : string) : KernelResult () * Fs :=
  let dir := root ++ [branch] in
  if path_exists fs dir then
    match remove_dir_all fs dir with
    | Ok fs' => (Ok tt, fs')
    | Err e => (Err (EIo (errno_text e)), fs)
    end
  else (Ok tt, fs).

(** Time of change and size of everything below the workspace that is not a
    directory and not below an ignored name. *)
Definition stat (n : Node) : option (Z * Z) :=
  match n with
  | File contents mtime => Some (mtime, Z.of_nat (String.length contents))
  | Link target mtime => Some (mtime, Z.of_nat (String.length target))
  | Dir => None
  end.

Definition scanned (ws : HostPath) (kv : HostPath * Node) : option (string * (Z * Z)) :=
  st ← stat kv.2;
  if bool_decide (ws `prefix_of` kv.1) then
    let rel := drop (length ws) kv.1 in
    if existsb is_ignored_component rel then None else Some (str_join "/" rel, st)
  else None.

Definition scan_workspace (fs : Fs) (workspace : HostPath) : gmap string (Z * Z) :=
  match canonicalize fs workspace with
  | Ok ws => list_to_map (omap (scanned ws) (map_to_list fs))
  | Err _ => ∅
  end.

Definition diff_written (before after : gmap string (Z * Z)) : list string :=
  map fst (List.filter (fun kv => negb (bool_decide (before !! kv.1 = Some kv.2))) (bt_iter after)).

(** * Confinement *)

Lemma prefix_snoc_inv {A} (l' l : list A) c : l' `prefix_of` l ++ [c] -> l' `prefix_of` l \/ l' = l ++ [c].
Proof.
  intros [k Hk]. destruct k as [|x k _] using rev_ind; [right; by rewrite app_nil_r in Hk|left].
  rewrite app_assoc in Hk. apply app_inj_tail in Hk as [-> _]. by apply prefix_app_r.
Qed.

Lemma anchor_Some fs rp a :
  anchor fs rp = Some a ->
  exists A l, rev rp = A ++ l /\ canonicalize fs A = Ok a
    /\ forall l', l' <> [] -> l' `prefix_of` l -> absent fs (A ++ l').
Proof.
  assert (forall A b, canonicalize fs A = Ok b -> exists A' l, A = A' ++ l /\ canonicalize fs A' = Ok b
    /\ forall l', l' <> [] -> l' `prefix_of` l -> absent fs (A' ++ l')) as Hhere.
  { intros A b HA. exists A, []. rewrite app_nil_r. split_and!; [done..|]. by intros l' Hne ->%prefix_nil_inv. }
  induction rp as [|c rp IH]; cbn [anchor]; destruct (canonicalize fs _) as [b|e] eqn:E.
  1,3: intros [= ->]; by apply Hhere.
  { done. }
  intros (A & l & Hrp & HA & Hab)%IH. exists A, (l ++ [c]). cbn [rev] in *. rewrite Hrp, app_assoc in *.
  split_and!; [done..|]. intros l' Hne [Hpre| ->]%prefix_snoc_inv; [by apply Hab|].
  intros q Hq. rewrite app_assoc in Hq. congruence.
Qed.

(** What a confined path is: its deepest ancestor that is there leads into the
    workspace, and so does the path itself when it is there. *)
Definition confined (fs : Fs) (ws full : HostPath) : Prop :=
  (exists A l a, full = A ++ l /\ canonicalize fs A = Ok a /\ ws `prefix_of` a
     /\ forall l', l' <> [] -> l' `prefix_of` l -> absent fs (A ++ l'))
  /\ forall f, canonicalize fs full = Ok f -> ws `prefix_of` f.

Lemma resolve_confined_Ok fs op workspace raw prefixes full :
  resolve_confined fs op workspace raw prefixes = Ok full ->
  exists ws rel, canonicalize fs workspace = Ok ws /\ normalize_relative raw = Ok rel
    /\ matches_prefixes rel prefixes = true /\ full = ws ++ rel /\ confined fs ws full.
Proof.
  unfold resolve_confined, normalize, io. intros (rel & Hrel%map_err_Ok & Hr)%bind_Ok.
  destruct (matches_prefixes rel prefixes) eqn:Em; [|done]. cbn [negb] in Hr.
  apply bind_Ok in Hr as (ws & Hws%map_err_Ok & Hr).
  destruct (anchor fs (rev (ws ++ rel))) as [a|] eqn:Ea; [|done].
  apply anchor_Some in Ea as (A & l & Hfull & HA & Hab). rewrite rev_involutive in Hfull.
  unfold under in Hr. case_bool_decide as Hua; [|done]. cbn [negb] in Hr.
  assert (full = ws ++ rel /\ forall f, canonicalize fs full = Ok f -> ws `prefix_of` f) as [-> Hf].
  { unfold path_exists in Hr. destruct (canonicalize fs (ws ++ rel)) as [f|] eqn:Ef; cbn in Hr.
    - case_bool_decide; [|done]. injection Hr as <-. split; [done|]. intros f'. rewrite Ef. by intros [= <-].
    - injection Hr as <-. split; [done|]. intros f'. by rewrite Ef. }
  exists ws, rel. split_and!; [done..|]. split; [|done]. by exists A, l, a.
Qed.

(** A link to something that is not there. *)
Definition dangling (fs : Fs) (p : HostPath) : Prop :=
  (exists target t, lstat fs p = Some (Link target t)) /\ absent fs p.

Lemma last_split {A} (l : list A) : l <> [] -> exists l0 c, l = l0 ++ [c] /\ removelast l = l0.
Proof. destruct l as [|c l0 _] using rev_ind; [done|]. exists l0, c. by rewrite removelast_last. Qed.

(** Writing to a path that is there changes what it leads to. *)
Lemma write_there fs now full contents f fs' :
  canonicalize fs full = Ok f -> write_file fs now full contents = Ok fs' -> fs' = <[f := File contents now]> fs.
Proof.
  intros Hf. unfold write_file. intros (q & Hq & Hw)%bind_Ok. apply walk_create in Hf. rewrite Hf in Hq. injection Hq as <-.
  by destruct (node fs f) as [[]|]; simplify_eq.
Qed.

(** Writing to a path that is not there: into its directory, unless it is a link. *)
Lemma write_new fs now P c d contents fs' :
  canonicalize fs P = Ok d -> node fs d = Some Dir -> (forall target t, fs !! (d ++ [c]) <> Some (Link target t)) ->
  write_file fs now (P ++ [c]) contents = Ok fs' -> fs' = <[d ++ [c] := File contents now]> fs.
Proof.
  intros HP Hd Hl. unfold write_file. intros (q & Hq & Hw)%bind_Ok. rewrite names_snoc in Hq.
  pose proof (walk_snoc fs true MAXSYMLINKS [] (names P) d c HP Hd) as Hs.
  assert (q = d ++ [c]) as ->.
  { destruct (fs !! (d ++ [c])) as [[s t| |target t]|]; [congruence..|by destruct (Hl target t)|congruence]. }
  rewrite node_snoc in Hw. destruct (fs !! (d ++ [c])) as [[]|]; by simplify_eq.
Qed.

Lemma added_under fs a l fs1 ws q :
  added fs a l fs1 -> ws `prefix_of` a -> fs1 !! q <> fs !! q -> ws `prefix_of` q.
Proof.
  intros (_ & Hsub & Hnew) Hws Hq. destruct (fs !! q) as [n|] eqn:E.
  - by rewrite (lookup_weaken _ _ _ _ E Hsub) in Hq.
  - destruct (fs1 !! q) as [n|] eqn:E1; [|done]. destruct (Hnew _ _ E E1) as (_ & l' & _ & _ & ->). by apply prefix_app_r.
Qed.

(** A link found at the end of directories that were made was there before, and
    leads nowhere. *)
Lemma added_link_dangling fs A a l0 c fs1 target t :
  tree fs -> canonicalize fs A = Ok a -> absent fs (A ++ l0 ++ [c]) -> added fs a l0 fs1 ->
  node fs1 (a ++ l0) = Some Dir -> (l0 <> [] -> fs !! (a ++ l0) = None) ->
  fs1 !! ((a ++ l0) ++ [c]) = Some (Link target t) -> dangling fs (A ++ l0 ++ [c]).
Proof.
  intros Ht HA Hab Hadd Hd Hfree Hl. pose proof Hadd as (_ & Hsub & Hnew).
  destruct l0 as [|x l0].
  2:{ rewrite <- app_assoc, (added_free fs a (x :: l0) fs1 c Ht) in Hl; [done|done|by apply Hfree|done]. }
  rewrite app_nil_r in *. cbn [app] in *.
  assert (fs !! (a ++ [c]) = Some (Link target t)) as Hlink.
  { destruct (fs !! (a ++ [c])) as [n|] eqn:E; [by rewrite (lookup_weaken _ _ _ _ E Hsub) in Hl|].
    by destruct (Hnew _ _ E Hl) as [? _]. }
  split; [|done]. exists target, t. unfold lstat. rewrite (proj2 (locate_Ok fs (A ++ [c]) (a ++ [c]))); [done|].
  exists A, c, a. split_and!; [done..| |done]. by eapply tree_parent.
Qed.

Lemma not_link (o : option Node) :
  (exists target t, o = Some (Link target t)) \/ forall target t, o <> Some (Link target t).
Proof. destruct o as [[]|]; [right|right|left|right]; naive_solver. Qed.

(** Making the directories of a missing path and writing it. *)
Lemma write_missing fs now ws A a l0 c contents r1 fs1 fs2 q :
  tree fs -> canonicalize fs A = Ok a -> ws `prefix_of` a ->
  (forall l', l' <> [] -> l' `prefix_of` l0 ++ [c] -> absent fs (A ++ l')) ->
  create_dirs fs (rev (A ++ l0)) = (r1, fs1) ->
  (fs2 = fs1 \/ r1 = Ok tt /\ write_file fs1 now (A ++ l0 ++ [c]) contents = Ok fs2) -> fs2 !! q <> fs !! q ->
  ws `prefix_of` q \/ dangling fs (A ++ l0 ++ [c]).
Proof.
  intros Ht HA Hua Hab Hc Hw Hq.
  destruct (create_dirs_spec a A l0 fs (rev (A ++ l0)) r1 fs1 Ht) as [Hadd Hok]; [by rewrite rev_involutive|done| |done|].
  { intros l' ? ?. apply Hab; [done|by apply prefix_app_r]. }
  destruct Hw as [->|[-> Hw]]; [left; by eapply added_under|]. destruct (Hok eq_refl) as (Hcan & Hdir & Hfree).
  destruct (not_link (fs1 !! ((a ++ l0) ++ [c]))) as [(target & t & Hl)|Hl].
  - right. eapply added_link_dangling; try done. apply Hab; [by destruct l0|done].
  - rewrite app_assoc in Hw. rewrite (write_new _ _ _ _ _ _ _ Hcan Hdir Hl Hw) in Hq. left.
    destruct (decide (q = (a ++ l0) ++ [c])) as [->|Hne]; [by do 2 apply prefix_app_r|].
    rewrite lookup_insert_ne in Hq by done. by eapply added_under.
Qed.

(** The parts of a write after its path was accepted. *)
Lemma write_action_Ok fs now workspace path contents_b64 writable r fs' full P c :
  resolve_confined fs "fs.write" workspace path writable = Ok full -> full = P ++ [c] ->
  write_action fs now workspace path contents_b64 writable = (r, fs') ->
  fs' = fs \/ exists r1 fs1 contents, create_dirs fs (rev P) = (r1, fs1)
    /\ (fs' = fs1 \/ r1 = Ok tt /\ write_file fs1 now full contents = Ok fs').
Proof.
  intros Hr HP. unfold write_action. rewrite Hr. destruct (map_err _ _) as [contents|e]; [|intros [= <- <-]; by left].
  assert ((match full with [] => (Ok tt, fs) | _ => create_dir_all fs (removelast full) end) = create_dirs fs (rev P)) as ->
    by (rewrite HP, removelast_last; by destruct P).
  destruct (create_dirs fs (rev P)) as [[[]|e] fs1]; [|intros [= <- <-]; right; eexists _, _, contents; by split; [|left]].
  destruct (write_file fs1 now full contents) as [fs2|e] eqn:Ew; intros [= <- <-]; right; eexists _, _, contents; auto.
Qed.

Lemma write_action_confined fs now ws workspace path contents_b64 writable r fs' q :
  tree fs -> canonicalize fs workspace = Ok ws ->
  write_action fs now workspace path contents_b64 writable = (r, fs') -> fs' !! q <> fs !! q ->
  ws `prefix_of` q
  \/ exists full, resolve_confined fs "fs.write" workspace path writable = Ok full /\ dangling fs full.
Proof.
  intros Ht Hws Hw Hq. destruct (resolve_confined fs "fs.write" workspace path writable) as [full|e] eqn:Er.
  2:{ unfold write_action in Hw. rewrite Er in Hw. congruence. }
  pose proof Er as (ws' & rel & Hws' & _ & _ & _ & Hc)%resolve_confined_Ok. rewrite Hws in Hws'. injection Hws' as <-.
  destruct Hc as [(A & l & a & Hfull & HA & Hua & Hab) Hf]. destruct (decide (full = [])) as [->|Hne].
  { left. specialize (Hf [] (walk_nil _ _ _ _)). apply prefix_nil_inv in Hf as ->. apply prefix_nil. }
  destruct (last_split full Hne) as (P & c & HPc & _).
  destruct (write_action_Ok _ _ _ _ _ _ _ _ _ _ _ Er HPc Hw) as [->|(r1 & fs1 & contents & Hmk & Hwr)]; [done|].
  destruct (decide (l = [])) as [->|Hl].
  - rewrite app_nil_r in Hfull. subst A. pose proof HA as Hthere. rewrite HPc in Hthere.
    apply canonicalize_snoc in Hthere as (d & HP & _); [|done].
    destruct (create_dirs_there fs (rev P) d r1 fs1 Ht) as [-> _]; [by rewrite rev_involutive|done|].
    destruct Hwr as [->|[_ Hwr]]; [done|]. rewrite (write_there _ _ _ _ _ _ HA Hwr) in Hq. left.
    destruct (decide (q = a)) as [->|Hqa]; [done|]. by rewrite lookup_insert_ne in Hq.
  - destruct (last_split l Hl) as (l0 & c' & -> & _). rewrite Hfull, app_assoc in HPc. apply app_inj_tail in HPc as [<- <-].
    rewrite Hfull in Hwr. destruct (write_missing _ _ _ _ _ _ _ _ _ _ _ _ Ht HA Hua Hab Hmk Hwr Hq) as [?|?]; [by left|].
    right. exists full. by rewrite Hfull.
Qed.

(** * Deletion *)

Lemma delete_changes fs p fs' q :
  (remove_dir_all fs p = Ok fs' \/ remove_file fs p = Ok fs') -> fs' !! q <> fs !! q ->
  exists x, locate fs p = Ok x
    /\ (q = x \/ fs !! x = Some Dir /\ x `prefix_of` q /\ remove_dir_all fs p = Ok fs').
Proof.
  intros Hr Hq. assert (forall x, delete x fs !! q <> fs !! q -> q = x) as Hdel.
  { intros x Hx. destruct (decide (q = x)) as [->|Hne]; [done|]. by rewrite lookup_delete_ne in Hx. }
  destruct Hr as [Hr|Hr]; pose proof Hr as (x & Hx & Hy)%bind_Ok; exists x; (split; [done|]).
  - destruct (fs !! x) as [[]|] eqn:E; try done; injection Hy as <-; [right|left; auto]. split_and!; [done| |done].
    unfold prune in Hq. destruct (decide (x `prefix_of` q)); [done|]. exfalso. apply Hq.
    destruct (fs !! q) as [nd|] eqn:Eq; [by apply map_lookup_filter_Some|]. apply map_lookup_filter_None. by left.
  - left. destruct (fs !! x) as [[]|] eqn:E; try done; injection Hy as <-; auto.
Qed.

Lemma delete_action_confined fs ws workspace path writable r fs' q :
  tree fs -> canonicalize fs workspace = Ok ws ->
  delete_action fs workspace path writable = (r, fs') -> fs' !! q <> fs !! q ->
  ws `prefix_of` q
  \/ exists full target t f, resolve_confined fs "fs.delete" workspace path writable = Ok full
     /\ locate fs full = Ok q /\ fs !! q = Some (Link target t) /\ canonicalize fs full = Ok f /\ ws `prefix_of` f.
Proof.
  intros Ht Hws Hw Hq. unfold delete_action in Hw. destruct (resolve_confined _ _ _ _ _) as [full|e] eqn:Er; [|congruence].
  pose proof Er as (ws' & rel & Hws' & _ & _ & _ & Hc)%resolve_confined_Ok. rewrite Hws in Hws'. injection Hws' as <-.
  destruct Hc as [(A & l & a & Hfull & HA & Hua & Hab) Hf].
  destruct (if is_dir fs full then remove_dir_all fs full else remove_file fs full) as [fs2|e] eqn:Erm; [|congruence].
  injection Hw as _ <-.
  assert (remove_dir_all fs full = Ok fs2 \/ remove_file fs full = Ok fs2) as Hrm by (destruct (is_dir fs full); auto).
  destruct (delete_changes _ _ _ _ Hrm Hq) as (x & Hx & Hqx).
  pose proof Hx as (P & c & d & HPc & HP & Hd & ->)%locate_Ok.
  destruct (decide (l = [])) as [->|Hl].
  - rewrite app_nil_r in Hfull. subst A. rewrite HPc in HA. pose proof HA as Hthere.
    apply canonicalize_snoc in Hthere as (d' & HP' & _ & _ & Hend); [|done]. rewrite HP in HP'. injection HP' as <-.
    destruct Hend as [(target & t & Hlk)| ->].
    + destruct Hqx as [->|(Hdir & _)]; [|congruence]. right. exists full, target, t, a. rewrite HPc in *. by split_and!.
    + left. destruct Hqx as [->|(_ & Hpre & _)]; [done|by etrans].
  - destruct (last_split l Hl) as (l0 & c' & -> & _). rewrite Hfull, app_assoc in HPc. apply app_inj_tail in HPc as [<- <-].
    assert (l0 = []) as ->.
    { destruct l0 as [|y l0]; [done|]. exfalso. by eapply (Hab (y :: l0)); [done|apply prefix_app_r|]. }
    rewrite app_nil_r in HP. rewrite HA in HP. injection HP as <-. left.
    destruct Hqx as [->|(_ & Hpre & _)]; [by apply prefix_app_r|]. etrans; [|done]. by apply prefix_app_r.
Qed.

(** * Properties *)

(** C19: File actions stay in the workspace of their branch.  Whatever links the workspace
    holds, a read returns the start of a file below the workspace; a write changes nothing
    that is not below the workspace, unless its path is a link to something that does not
    exist; and a deletion removes nothing that is not below the workspace, unless it is
    itself a link that leads back into it. *)
Theorem file_actions_confined fs now workspace ws max_capture path contents_b64 prefixes :
  tree fs -> canonicalize fs workspace = Ok ws ->
  (forall r, read_action fs workspace max_capture path prefixes = Ok r -> er_exit r = 0 ->
     exists p contents mtime, ws `prefix_of` p /\ fs !! p = Some (File contents mtime)
       /\ er_stdout r = cap contents max_capture)
  /\ (forall r fs' q, write_action fs now workspace path contents_b64 prefixes = (r, fs') -> fs' !! q <> fs !! q ->
        ws `prefix_of` q
        \/ exists full, resolve_confined fs "fs.write" workspace path prefixes = Ok full /\ dangling fs full)
  /\ (forall r fs' q, delete_action fs workspace path prefixes = (r, fs') -> fs' !! q <> fs !! q ->
        ws `prefix_of` q
        \/ exists full target t f, resolve_confined fs "fs.delete" workspace path prefixes = Ok full
           /\ locate fs full = Ok q /\ fs !! q = Some (Link target t)
           /\ canonicalize fs full = Ok f /\ ws `prefix_of` f).
Proof.
  intros Ht Hws. split_and!.
  - unfold read_action. intros r (full & Hr & Hx)%bind_Ok Hexit. apply resolve_confined_Ok in Hr as (ws' & rel & Hws' & _ & _ & _ & Hc).
    rewrite Hws in Hws'. injection Hws' as <-. destruct (read_file fs full) as [bytes|e] eqn:Erd; injection Hx as <-; [|done].
    apply bind_Ok in Erd as (p & Hp & Hn). exists p, bytes. destruct p as [|x p]; [done|]. cbn in Hn.
    destruct (fs !! (x :: p)) as [[s t| |]|] eqn:E; try done. injection Hn as <-. exists t. split_and!; [by apply Hc|done..].
  - intros r fs' q. by apply write_action_confined.
  - intros r fs' q. by apply delete_action_confined.
Qed.
(** * What was written can be read *)

Lemma write_file_Ok fs now p contents fs' :
  tree fs -> write_file fs now p contents = Ok fs' ->
  exists q, walk fs true MAXSYMLINKS [] (names p) = Ok q /\ fs' = <[q := File contents now]> fs
    /\ (fs !! q = None \/ exists s t, fs !! q = Some (File s t)) /\ canonicalize fs' p = Ok q /\ q <> [].
Proof.
  intros Ht (q & Hq & Hw)%bind_Ok. exists q. pose proof (walk_no_link _ _ _ _ _ _ Ht (eq_refl : node fs [] = Some Dir) Hq) as Hl.
  assert (fs' = <[q := File contents now]> fs /\ node fs q <> Some Dir) as [-> Hnd]
    by (destruct (node fs q) as [[]|]; simplify_eq; done).
  assert (q <> []) as Hq0 by (by intros ->). assert (node fs q = fs !! q) as Hn by (by destruct q). rewrite Hn in *. split_and!; [done|done| | |done].
  - destruct (fs !! q) as [[]|]; [by right; eauto|done|by destruct (Hl target mtime)|by left].
  - apply walk_written; [done..|by rewrite Hn].
Qed.

(** Where a write that succeeded put its contents. *)
Lemma write_lands fs now ws workspace path contents_b64 writable r fs' full :
  tree fs -> canonicalize fs workspace = Ok ws -> resolve_confined fs "fs.write" workspace path writable = Ok full ->
  ~ dangling fs full -> write_action fs now workspace path contents_b64 writable = (Ok r, fs') ->
  exists contents fs1 q, decode contents_b64 = Ok contents /\ fs ⊆ fs1 /\ fs' = <[q := File contents now]> fs1
    /\ ws `prefix_of` q /\ canonicalize fs' full = Ok q /\ q <> []
    /\ (fs1 !! q = None \/ exists s t, fs1 !! q = Some (File s t)).
Proof.
  intros Ht Hws Er Hnd Hw. pose proof Er as (ws' & rel & Hws' & _ & _ & _ & Hc)%resolve_confined_Ok.
  rewrite Hws in Hws'. injection Hws' as <-. unfold write_action in Hw. rewrite Er in Hw.
  destruct (map_err _ _) as [contents|e] eqn:Ed; [|done]. apply map_err_Ok in Ed.
  destruct Hc as [(A & l & a & Hfull & HA & Hua & Hab) Hf]. destruct (decide (full = [])) as [->|Hne].
  { unfold write_file in Hw. by rewrite walk_nil in Hw. }
  destruct (last_split full Hne) as (P & c & HPc & Hrl).
  assert ((match full with [] => (Ok tt, fs) | _ => create_dir_all fs (removelast full) end) = create_dirs fs (rev P)) as Hmk
    by (rewrite Hrl; by destruct full).
  rewrite Hmk in Hw. destruct (create_dirs fs (rev P)) as [[[]|e] fs1] eqn:Ec; [|done].
  destruct (write_file fs1 now full contents) as [fs2|e] eqn:Ew; [|done]. injection Hw as _ <-.
  destruct (decide (l = [])) as [->|Hl].
  - rewrite app_nil_r in Hfull. subst A. pose proof HA as Hthere. rewrite HPc in Hthere.
    apply canonicalize_snoc in Hthere as (d & HP & _); [|done].
    destruct (create_dirs_there fs (rev P) d (Ok tt) fs1 Ht) as [-> _]; [by rewrite rev_involutive|done|].
    destruct (write_file_Ok _ _ _ _ _ Ht Ew) as (q & Hq & Hfs & Hold & Hcan & Hq0). apply walk_create in HA. rewrite HA in Hq.
    injection Hq as <-. by exists contents, fs, a.
  - destruct (last_split l Hl) as (l0 & c' & -> & _). rewrite Hfull, app_assoc in HPc. apply app_inj_tail in HPc as [<- <-].
    destruct (create_dirs_spec a A l0 fs (rev (A ++ l0)) (Ok tt) fs1 Ht) as [Hadd Hok]; [by rewrite rev_involutive|done| |done|].
    { intros l' ? ?. apply Hab; [done|by apply prefix_app_r]. }
    destruct (Hok eq_refl) as (Hcan & Hdir & Hfree). pose proof Hadd as (Ht1 & Hsub & _).
    destruct (write_file_Ok _ _ _ _ _ Ht1 Ew) as (q & Hq & Hfs & Hold & Hcan2 & Hq0).
    destruct (not_link (fs1 !! ((a ++ l0) ++ [c']))) as [(target & t & Hlk)|Hlk].
    { destruct Hnd. rewrite Hfull. eapply added_link_dangling; try done. apply Hab; [by destruct l0|done]. }
    exists contents, fs1, q. split_and!; try done. rewrite Hfull, app_assoc, names_snoc in Hq.
    pose proof (walk_snoc fs1 true MAXSYMLINKS [] (names (A ++ l0)) (a ++ l0) c' Hcan Hdir) as Hs.
    assert (q = (a ++ l0) ++ [c']) as ->; [|by do 2 apply prefix_app_r].
    destruct (fs1 !! ((a ++ l0) ++ [c'])) as [[]|]; [congruence..|by destruct (Hlk target mtime)|congruence].
Qed.

Lemma anchor_there fs p a : canonicalize fs p = Ok a -> anchor fs (rev p) = Some a.
Proof. intros Ha. destruct (rev p) eqn:E; cbn [anchor]; by rewrite <- E, rev_involutive, Ha. Qed.

(** A write that succeeds is read back, up to the capture limit, by a read of the same path. *)
Theorem write_then_read fs now workspace max_capture path contents_b64 writable readable r fs' full rel ws :
  tree fs -> canonicalize fs workspace = Ok ws -> resolve_confined fs "fs.write" workspace path writable = Ok full ->
  ~ dangling fs full -> write_action fs now workspace path contents_b64 writable = (Ok r, fs') ->
  normalize_relative path = Ok rel -> matches_prefixes rel readable = true ->
  exists contents, decode contents_b64 = Ok contents
    /\ read_action fs' workspace max_capture path readable = Ok (done_with 0 (cap contents max_capture) EmptyString).
Proof.
  intros Ht Hws Er Hnd Hw Hrel Hm.
  destruct (write_lands _ _ _ _ _ _ _ _ _ _ Ht Hws Er Hnd Hw) as (contents & fs1 & q & Hd & Hsub & -> & Hq & Hcan & Hq0 & Hold).
  exists contents. split; [done|]. apply resolve_confined_Ok in Er as (ws' & rel' & Hws' & Hrel' & _ & -> & _).
  rewrite Hws in Hws'. injection Hws' as <-. rewrite Hrel in Hrel'. injection Hrel' as <-.
  assert (canonicalize (<[q := File contents now]> fs1) workspace = Ok ws) as Hws2
    by (apply walk_over_file; [done|]; by eapply walk_mono).
  unfold read_action. apply bind_Ok. exists (ws ++ rel). split.
  - unfold resolve_confined, normalize, io, under, path_exists. rewrite Hrel, Hws2.
    cbn [map_err mbind result_bind]. rewrite Hm. cbn [negb].
    rewrite (anchor_there _ _ _ Hcan), Hcan, bool_decide_true by done. cbn [is_ok map_err mbind result_bind negb].
    by rewrite bool_decide_true.
  - unfold read_file. rewrite Hcan. cbn. destruct q as [|x q]; [done|]. cbn. by rewrite lookup_insert_eq.
Qed.
End files.

(** * A small host *)

Module LocalFilesDemo.

#[export] Instance texts : IoText := { errno_text _ := "error" }.

(** A workspace with a file, a link to a file that does not exist outside, and a link from one
    part of the workspace to another. *)
Definition host : Fs :=
  <[["etc"] := Dir]> (<[["etc"; "passwd"] := File "root" 1]> (<[["srv"] := Dir]> (<[["srv"; "br-1"] := Dir]>
  (<[["srv"; "br-1"; "a.txt"] := File "old" 1]> (<[["srv"; "br-1"; "out"] := Link "/etc/cron" 1]>
  (<[["srv"; "br-1"; "etc"] := Link "../../etc" 1]> (<[["srv"; "br-1"; "pub"] := Dir]>
  (<[["srv"; "br-1"; "pub"; "x"] := Link "../a.txt" 1]> ∅)))))))).

Definition ws : HostPath := ["srv"; "br-1"].

(** The shape of a tree, decided. *)
Definition treeb (fs : Fs) : bool :=
  forallb (fun kv => negb (bool_decide (kv.1 = []))
    && forallb (fun n => bool_decide (node fs (take n kv.1) = Some Dir)) (seq 0 (length kv.1))) (map_to_list fs).

Lemma treeb_tree fs : treeb fs = true -> tree fs.
Proof.
  unfold treeb. rewrite forallb_forall. intros Hall p n Hp.
  assert (In (p, n) (map_to_list fs)) as Hin by (by apply list_elem_of_In, elem_of_map_to_list).
  apply Hall in Hin. cbn in Hin. apply andb_true_iff in Hin as [Hne Hpre]. rewrite forallb_forall in Hpre.
  split; [by apply negb_true_iff, bool_decide_eq_false in Hne|].
  intros d c r -> Hd. assert (In (length d) (seq 0 (length (d ++ c :: r)))) as Hi
    by (apply in_seq; rewrite length_app; cbn; lia).
  apply Hpre, bool_decide_eq_true in Hi. rewrite take_app_length in Hi. by destruct d.
Qed.

Lemma host_tree : tree host.
Proof. apply treeb_tree. vm_compute. reflexivity. Qed.

(** A file of the workspace is read, and one outside it is refused through a link. *)
Lemma file_actions_confined_witness :
  read_action host ws 100 "a.txt" [] = Ok (done_with 0 "old" EmptyString)
  /\ is_ok (read_action host ws 100 "etc/passwd" []) = false
  /\ exists p contents mtime, ws `prefix_of` p /\ host !! p = Some (File contents mtime) /\ "old" = cap contents 100.
Proof.
  split; [vm_compute; reflexivity|]. split; [vm_compute; reflexivity|].
  exact (proj1 (file_actions_confined host 2 ws ws 100 "a.txt" "aGk=" [] host_tree ltac:(vm_compute; reflexivity))
    (done_with 0 "old" EmptyString) ltac:(vm_compute; reflexivity) eq_refl).
Defined.

Lemma write_then_read_witness :
  exists contents, decode "aGk=" = Ok contents
  /\ read_action (write_action host 2 ws "new/b.txt" "aGk=" []).2 ws 100 "new/b.txt" []
     = Ok (done_with 0 (cap contents 100) EmptyString).
Proof.
  refine (write_then_read host 2 ws 100 "new/b.txt" "aGk=" [] [] (done_with 0 EmptyString EmptyString)
    (write_action host 2 ws "new/b.txt" "aGk=" []).2 ["srv"; "br-1"; "new"; "b.txt"] ["new"; "b.txt"] ws host_tree _ _ _ _ _ _).
  1,2,4-6: vm_compute; reflexivity.
  intros [(target & t & Hl) _]. vm_compute in Hl. discriminate.
Defined.

(** A write through a link whose target does not exist creates that target, outside the
    workspace: the check finds neither the path nor the target and looks no further. *)
Theorem dangling_link_escapes :
  (write_action host 2 ws "out" "aGk=" []).1 = Ok (done_with 0 EmptyString EmptyString)
  /\ (write_action host 2 ws "out" "aGk=" []).2 !! ["etc"; "cron"] = Some (File "hi" 2)
  /\ host !! ["etc"; "cron"] = None.
Proof. by vm_compute. Qed.

(** The prefixes of a lease are matched against the path as it is written: a link below an
    allowed prefix reaches any file of the workspace. *)
Theorem link_leaves_prefix :
  (write_action host 2 ws "pub/x" "aGk=" ["pub"]).2 !! ["srv"; "br-1"; "a.txt"] = Some (File "hi" 2)
  /\ is_ok (write_action host 2 ws "a.txt" "aGk=" ["pub"]).1 = false.
Proof. by vm_compute. Qed.

End LocalFilesDemo.
