(* ===== verification/LocalSandbox.v ===== *)
(** How the local backend confines a command, [backends/local/src/sandbox.rs]:
    the arguments given to bubblewrap, the Seatbelt profile, the route of the
    egress forwarder and the wrapper of tool processes.

    A host path is its text.  The mounts bubblewrap is asked for are a list of
    [Mount]s, rendered into arguments; a path inside the sandbox belongs to the
    last mount whose target is above it. *)

From stdpp Require Import pretty.
From S2P Require Import Prelude Json Budget Capability Types Path Utf8.

Open Scope Z_scope.

Inductive SandboxTech : Type := NoSandbox | Bwrap | SandboxExec.

#[export] Instance tech_eq_dec : EqDecision SandboxTech.
Proof. solve_decision. Defined.

Definition isolation_strength (t : SandboxTech) : Z :=
  match t with NoSandbox => 5 | SandboxExec => 35 | Bwrap => 40 end.

Definition SCRATCH_DIR : string := ".aktmp".
Definition NETNS_PROXY_PORT : Z := 18789.
Definition NETNS_FWD_PATH : string := "/ak-egress-fwd".
Definition NETNS_SOCK_PATH : string := "/ak-egress.sock".

(** * Prefixes *)

Definition grants_whole_workspace (prefixes : list string) : bool :=
  bool_decide (prefixes = [])
  || existsb (fun p => str_is_empty (trimmed_prefix p) || String.eqb p ".") prefixes.

Definition normalized_prefixes (prefixes : list string) : list string :=
  List.filter (fun p => negb (str_is_empty p) && negb (starts_with "/" p)
                        && negb (existsb (fun c => String.eqb c "..") (str_split "/" p)))
    (map trimmed_prefix prefixes).

(** [Path::join] of a relative path. *)
Definition join (ws p : string) : string :=
  if ends_with "/" ws || str_is_empty ws then ws +:+ p else ws +:+ "/" +:+ p.

(** * Bubblewrap *)

Inductive Mount : Type :=
| RoBind (source target : string)
| RwBind (source target : string)
| Tmpfs (target : string)
| DevFs (target : string)
| ProcFs (target : string).

Definition mount_args (m : Mount) : list string :=
  match m with
  | RoBind s t => ["--ro-bind"; s; t]
  | RwBind s t => ["--bind"; s; t]
  | Tmpfs t => ["--tmpfs"; t]
  | DevFs t => ["--dev"; t]
  | ProcFs t => ["--proc"; t]
  end.

(** The host with its user data shadowed. *)
Definition base_mounts : list Mount :=
  [RoBind "/" "/"; Tmpfs "/home"; Tmpfs "/root"; Tmpfs "/run"; DevFs "/dev"; ProcFs "/proc"; Tmpfs "/tmp"].

Definition workspace_mounts (ws : string) (readable writable : list string) : list Mount :=
  (if grants_whole_workspace readable then
     if grants_whole_workspace writable then [RwBind ws ws] else [RoBind ws ws]
   else
     Tmpfs ws :: map (fun prefix => RoBind (join ws prefix) (join ws prefix)) (normalized_prefixes readable))
  ++ (if grants_whole_workspace writable then []
      else map (fun prefix => RwBind (join ws prefix) (join ws prefix)) (normalized_prefixes writable))
  ++ [RwBind (join ws SCRATCH_DIR) (join ws SCRATCH_DIR)].

Definition bwrap_flags : list string := ["--die-with-parent"; "--new-session"; "--unshare-net"; "--unshare-pid"].

Definition bwrap_args (ws : string) (readable writable : list string) : list string :=
  bwrap_flags ++ flat_map mount_args (base_mounts ++ workspace_mounts ws readable writable).

Definition bwrap_egress_args (forwarder sock : string) (variant : list string) : list string :=
  variant ++ ["--ro-bind"; forwarder; NETNS_FWD_PATH; "--bind"; sock; NETNS_SOCK_PATH].

Definition netns_forwarder_argv : list string :=
  [NETNS_FWD_PATH; "--listen"; "127.0.0.1:" +:+ pretty NETNS_PROXY_PORT; "--unix"; NETNS_SOCK_PATH; "--"].

Definition NETNS_CAP_VARIANTS : list (list string) := [[]; ["--unshare-user"; "--cap-add"; "CAP_NET_ADMIN"]].

(** * Seatbelt *)

Definition dquote : string := String "034" EmptyString.
Definition sbpl_newline : string := String "010" EmptyString.
Definition subpath (p : string) : string := "(subpath " +:+ dquote +:+ p +:+ dquote +:+ ")".
Definition literal (p : string) : string := "(literal " +:+ dquote +:+ p +:+ dquote +:+ ")".

Definition system_reads (macos : bool) : list string :=
  if macos then ["/usr"; "/bin"; "/sbin"; "/System"; "/Library"; "/private/etc"; "/private/var/db";
                 "/private/var/select"; "/opt"; "/dev"]
  else ["/usr"; "/bin"; "/sbin"; "/etc"; "/opt"; "/dev"].

Definition workspace_rules (ws : string) (prefixes : list string) : list string :=
  if grants_whole_workspace prefixes then [subpath ws]
  else map (fun prefix => subpath (join ws prefix)) (normalized_prefixes prefixes) ++ [subpath (join ws SCRATCH_DIR)].

Definition egress_rules (port : option Z) : list string :=
  match port with
  | Some port =>
      ["(allow network-outbound (remote tcp " +:+ dquote +:+ "localhost:" +:+ pretty port +:+ dquote +:+ "))";
       "(allow system-socket)"]
  | None => []
  end.

Definition seatbelt_rules (macos : bool) (ws : string) (readable writable : list string) (port : option Z)
    : list string :=
  ["(version 1)"; "(deny default)"; "(allow process*)"; "(allow signal)"; "(allow sysctl-read)";
   "(allow mach-lookup)"; "(allow file-read-metadata)"; "(allow file-ioctl)";
   "(allow file-read* " +:+ str_join " " (map subpath (system_reads macos) ++ [literal "/"] ++ workspace_rules ws readable) +:+ ")";
   "(allow file-write* " +:+ str_join " " (literal "/dev/null" :: workspace_rules ws writable) +:+ ")";
   "(deny network*)"] ++ egress_rules port.

Definition seatbelt_profile (macos : bool) (ws : string) (readable writable : list string) (port : option Z) : string :=
  foldr (fun rule rest => rule +:+ sbpl_newline +:+ rest) EmptyString (seatbelt_rules macos ws readable writable port).

(** [tool_wrapper]: the argument prefix of a tool process.  [made] is the answer
    to making its scratch directory, [write] writes the profile. *)
Definition tool_wrapper (macos : bool) (tech : SandboxTech) (scratch profile_out : string)
    (made : result string ()) (write : string -> result string ()) : result string (option (list string)) :=
  _ ← made;
  match tech with
  | SandboxExec =>
      _ ← write (seatbelt_profile macos scratch [] [] None);
      Ok (Some ["/usr/bin/sandbox-exec"; "-f"; profile_out])
  | Bwrap => Ok (Some ("bwrap" :: bwrap_args scratch [] []))
  | NoSandbox => Ok None
  end.

(** * Probing *)

(** [Output] of a command that ran. *)
Record Output := mkOutput { o_success : bool; o_stdout : string }.

Definition CANARY : string := "__ak_sandbox_probe__".

Definition says (word : string) (o : option Output) : bool :=
  match o with Some o => o_success o && str_contains word (from_utf8_lossy (o_stdout o)) | None => false end.

Definition refused (o : option Output) : bool := match o with Some o => negb (o_success o) | None => false end.

(** The canary must run, and then the secret must not be read. *)
Definition canary_then_secret (sh : string -> option Output) (secret : string) : bool :=
  if says CANARY (sh ("echo " +:+ CANARY)) then refused (sh ("cat " +:+ secret)) else false.

(** [dirs]: a workspace and the secret beside it, when they could be made;
    [run]: a command and its arguments. *)
Definition probe_bwrap (dirs : option (string * string)) (run : list string -> option Output) : bool :=
  match dirs with
  | None => false
  | Some (ws, secret) =>
      canary_then_secret (fun cmd => run ("bwrap" :: bwrap_args ws [] [] ++ ["/bin/sh"; "-c"; cmd])) secret
  end.

(** [write]: puts the profile into its file, and says whether it could. *)
Definition probe_sandbox_exec (macos : bool) (dirs : option (string * string)) (profile_path : string)
    (write : string -> bool) (run : list string -> option Output) : bool :=
  match dirs with
  | None => false
  | Some (ws, secret) =>
      if write (seatbelt_profile macos ws [] [] None) then
        canary_then_secret (fun cmd => run ["/usr/bin/sandbox-exec"; "-f"; profile_path; "/bin/sh"; "-c"; cmd]) secret
      else false
  end.

(** [probe]: the technology of the operating system, when it proves itself. *)
Definition probe (linux macos : bool) (bwrap seatbelt : bool) : SandboxTech :=
  if linux && bwrap then Bwrap
  else if macos && seatbelt then SandboxExec
  else NoSandbox.

(** [probe_netns_egress]: the first variant under which the forwarder's own probe
    reaches the listener of the host, which is at [sock]. *)
Definition probe_netns_egress (linux : bool) (forwarder : string) (dirs : option (string * string))
    (run : list string -> option Output) : option (list string) :=
  if linux then
    '(ws, sock) ← dirs;
    List.find (fun variant => says "probe-ok" (run
      ("bwrap" :: bwrap_args ws [] [] ++ bwrap_egress_args forwarder sock variant
        ++ [NETNS_FWD_PATH; "--listen"; "127.0.0.1:" +:+ pretty NETNS_PROXY_PORT; "--unix"; NETNS_SOCK_PATH; "--probe"])))
      NETNS_CAP_VARIANTS
  else None.

(** Where the forwarder may be: configured, in the environment, beside the
    executable, on the search path. *)
Definition forwarder_candidates (configured variable exe_dir path : option string) : list string :=
  option_list configured ++ option_list variable
    ++ option_list ((fun dir => join dir "ak-egress-fwd") <$> exe_dir)
    ++ match path with Some path => map (fun dir => join dir "ak-egress-fwd") (str_split ":" path) | None => [] end.

(** The first candidate that is a file, where it leads. *)
Fixpoint first_forwarder (candidates : list string) (is_file : string -> bool)
    (canonical : string -> option string) : option string :=
  match candidates with
  | [] => None
  | c :: rest =>
      if is_file c then
        match canonical c with
        | Some p => Some p
        | None => first_forwarder rest is_file canonical
        end
      else first_forwarder rest is_file canonical
  end.

Definition find_egress_forwarder (configured variable exe_dir path : option string) (is_file : string -> bool)
    (canonical : string -> option string) : option string :=
  first_forwarder (forwarder_candidates configured variable exe_dir path) is_file canonical.

(** * What a sandboxed command can reach *)

Definition target_of (m : Mount) : string :=
  match m with RoBind _ t | RwBind _ t | Tmpfs t | DevFs t | ProcFs t => t end.

Definition names_of (comps : list Component) : list string :=
  omap (fun c => match c with Normal n => Some n | _ => None end) comps.

Definition covers (p : list string) (m : Mount) : bool :=
  bool_decide (names_of (components (target_of m)) `prefix_of` p).

(** The mount a path belongs to. *)
Definition mount_at (ms : list Mount) (p : list string) : option Mount := last (List.filter (covers p) ms).

Section mounts.
Implicit Types (ws pre : string) (w rel p : list string).

Lemma str_split_concat c a b : str_split c (a +:+ String c b) = str_split c a ++ str_split c b.
Proof.
  induction a as [|d a IH]; cbn [str_split String.append]; [by rewrite decide_True|].
  destruct (decide (c = d)); [by rewrite IH|]. rewrite IH. by destruct (str_split c a) eqn:E; [apply str_split_nonempty in E|].
Qed.

Lemma names_of_app l1 l2 : names_of (l1 ++ l2) = names_of l1 ++ names_of l2.
Proof. apply omap_app. Qed.

Lemma names_of_normal l : names_of (map Normal l) = l.
Proof. induction l as [|c l IH]; [done|]. cbn. by rewrite <- IH at 2. Qed.

(** The path of a prefix below the workspace. *)
Lemma join_components ws w pre :
  components ws = RootDir :: map Normal w -> ends_with "/" ws = false ->
  components (join ws pre) = RootDir :: map Normal w ++ flat_map later_piece (str_split "/" pre).
Proof.
  intros Hw He. unfold join. rewrite He. destruct ws as [|c ws]; [done|]. cbn [str_is_empty orb].
  cbn [components] in Hw. destruct (Ascii.eqb_spec c "/") as [->|Hne].
  - injection Hw as Hw. cbn [String.append components]. rewrite Ascii.eqb_refl.
    change ("/" +:+ pre) with (String "/" pre). rewrite str_split_concat, flat_map_app. by rewrite Hw.
  - exfalso. destruct (str_split "/" (String c ws)) as [|q qs] eqn:E; [done|].
    assert (RootDir ∉ first_piece q ++ flat_map later_piece qs) as Hno.
    { intros [Hin|Hin]%elem_of_app.
      - unfold first_piece, later_piece in Hin. repeat case_match; set_solver.
      - apply list_elem_of_In, in_flat_map in Hin as (x & _ & Hx). apply list_elem_of_In in Hx.
        unfold later_piece in Hx. repeat case_match; set_solver. }
    apply Hno. rewrite Hw. apply list_elem_of_here.
Qed.

Lemma trim_end_slash_prefix s : exists r, s = trim_end_slash s +:+ r.
Proof.
  induction s as [|c s [r Hr]]; [by exists EmptyString|]. cbn [trim_end_slash]. destruct (trim_end_slash s) as [|d t] eqn:E.
  - destruct (Ascii.eqb c "/"); [by exists (String c s)|]. by exists s.
  - exists r. cbn. by rewrite Hr at 1.
Qed.

Lemma trim_dot_slash_other c s : c <> "."%char -> trim_dot_slash (String c s) = String c s.
Proof. intros Hc. destruct c as [[] [] [] [] [] [] [] []]; try done; by destruct Hc. Qed.

Lemma trim_dot_other d s : d <> "/"%char -> trim_dot_slash (String "." (String d s)) = String "." (String d s).
Proof. intros Hd. destruct d as [[] [] [] [] [] [] [] []]; try done; by destruct Hd. Qed.

Lemma trim_dot_slash_done n : forall s r, (String.length s <= n)%nat -> trim_dot_slash s <> String "." (String "/" r).
Proof.
  induction n as [|n IH]; intros s r Hn; destruct s as [|c s]; [discriminate|cbn in Hn; lia|discriminate|].
  destruct (decide (c = "."%char)) as [->|Hc]; [|rewrite trim_dot_slash_other by done; by intros [= ? _]].
  destruct s as [|d s]; [discriminate|]. destruct (decide (d = "/"%char)) as [->|Hd].
  - cbn [trim_dot_slash]. apply IH. cbn in Hn. lia.
  - rewrite trim_dot_other by done. by intros [= ? _].
Qed.

(** A trimmed prefix starts with [.] only when it is [.]. *)
Lemma trimmed_first raw q qs :
  str_split "/" (trimmed_prefix raw) = q :: qs -> trimmed_prefix raw <> "." -> first_piece q = later_piece q.
Proof.
  intros Hs Hne. unfold first_piece. destruct (String.eqb_spec q ".") as [->|]; [exfalso|done].
  pose proof (str_join_split "/" (trimmed_prefix raw)) as Hj. rewrite Hs in Hj.
  destruct qs as [|q2 qs]; [by cbn in Hj; rewrite <- Hj in Hne|].
  destruct (trim_end_slash_prefix (trim_dot_slash raw)) as [r Hr]. fold (trimmed_prefix raw) in Hr. rewrite <- Hj in Hr.
  cbn [str_join String.append] in Hr. by eapply trim_dot_slash_done.
Qed.

(** The components of a mounted prefix are names, the same ones from the
    workspace or on their own. *)
Lemma prefix_components raw :
  trimmed_prefix raw <> "." -> starts_with "/" (trimmed_prefix raw) = false ->
  existsb (fun c => String.eqb c "..") (str_split "/" (trimmed_prefix raw)) = false ->
  exists l, components (trimmed_prefix raw) = map Normal l
    /\ flat_map later_piece (str_split "/" (trimmed_prefix raw)) = map Normal l.
Proof.
  intros Hdot Habs Hup. destruct (trimmed_prefix raw) as [|c t] eqn:Et; [by exists []|]. rewrite <- Et in *.
  assert (components (trimmed_prefix raw) = flat_map later_piece (str_split "/" (trimmed_prefix raw))) as Heq.
  { destruct (str_split "/" (trimmed_prefix raw)) as [|q qs] eqn:Es; [by apply str_split_nonempty in Es|].
    cbn [flat_map]. rewrite <- (trimmed_first raw q qs Es Hdot). rewrite Et in *. cbn [components].
    destruct (Ascii.eqb_spec c "/") as [->|_]; [done|]. by rewrite Es. }
  rewrite Heq. clear -Hup. induction (str_split "/" (trimmed_prefix raw)) as [|q qs IH]; [by exists []|].
  cbn in Hup. apply orb_false_iff in Hup as [Hq Hup]. destruct (IH Hup) as (l & Hl & _). cbn [flat_map]. rewrite Hl.
  unfold later_piece. rewrite Hq. destruct (_ || _); [by exists l|by exists (q :: l)].
Qed.

(** Below a prefix that the sandbox mounts is below it for the file actions too. *)
Lemma mounted_matches ws w pre prefixes rel :
  components ws = RootDir :: map Normal w -> ends_with "/" ws = false ->
  Forall (fun raw => trimmed_prefix raw <> ".") prefixes -> pre ∈ normalized_prefixes prefixes ->
  names_of (components (join ws pre)) `prefix_of` w ++ rel -> matches_prefixes rel prefixes = true.
Proof.
  intros Hw He Hdot Hpre Hcov. apply list_elem_of_In, filter_In in Hpre as [Hin Hok].
  apply in_map_iff in Hin as (raw & <- & Hin). apply andb_true_iff in Hok as [[Hne Habs]%andb_true_iff Hup].
  apply negb_true_iff in Habs, Hup. rewrite Forall_forall in Hdot.
  destruct (prefix_components raw) as (l & Hl & Hl'); [by apply Hdot, list_elem_of_In|done|done|].
  rewrite (join_components ws w) in Hcov by done. rewrite Hl', <- map_app in Hcov.
  change (names_of (RootDir :: map Normal (w ++ l))) with (names_of (map Normal (w ++ l))) in Hcov.
  rewrite names_of_normal in Hcov. apply prefix_app_inv in Hcov as [r ->].
  unfold matches_prefixes. destruct prefixes as [|p0 ps]; [done|]. apply existsb_exists. exists raw. split; [done|].
  apply orb_true_iff. right. unfold path_starts_with. rewrite Hl. apply is_prefix_spec. exists (map Normal r). apply map_app.
Qed.

Lemma whole_matches prefixes rel :
  Forall (fun raw => trimmed_prefix raw <> ".") prefixes -> grants_whole_workspace prefixes = true ->
  matches_prefixes rel prefixes = true.
Proof.
  unfold grants_whole_workspace, matches_prefixes. intros Hdot Hw. destruct prefixes as [|p0 ps]; [done|].
  rewrite bool_decide_false in Hw by done. apply existsb_exists in Hw as (p & Hin & Hp). apply existsb_exists. exists p.
  split; [done|]. apply orb_true_iff in Hp as [Hp|Hp]; [by rewrite Hp|]. apply String.eqb_eq in Hp as ->.
  rewrite Forall_forall in Hdot. by destruct (Hdot "."); [apply list_elem_of_In|].
Qed.

(** The mount of a path is one of the list, above the path. *)
Lemma mount_at_Some ms p m : mount_at ms p = Some m -> m ∈ ms /\ names_of (components (target_of m)) `prefix_of` p.
Proof.
  unfold mount_at. intros Hm%last_Some_elem_of. apply list_elem_of_In, filter_In in Hm as [Hin Hc].
  split; [by apply list_elem_of_In|]. by apply bool_decide_eq_true in Hc.
Qed.

Lemma mount_at_app ms1 ms2 p :
  mount_at (ms1 ++ ms2) p = match mount_at ms2 p with Some m => Some m | None => mount_at ms1 p end.
Proof.
  unfold mount_at. rewrite List.filter_app. set (l2 := List.filter (covers p) ms2).
  destruct l2 as [|x l2 _] using rev_ind; [by rewrite app_nil_r|]. by rewrite app_assoc, !last_snoc.
Qed.

Lemma scratch_below ws w :
  components ws = RootDir :: map Normal w -> ends_with "/" ws = false ->
  names_of (components (join ws SCRATCH_DIR)) = w ++ [SCRATCH_DIR].
Proof.
  intros Hw He. rewrite (join_components ws w) by done.
  change (flat_map later_piece (str_split "/" SCRATCH_DIR)) with (map Normal [SCRATCH_DIR]). rewrite <- map_app.
  apply (names_of_normal (w ++ [SCRATCH_DIR])).
Qed.

(** Each mount of the workspace: its target is below the workspace, and what it
    opens was granted. *)
Lemma workspace_mounts_elem ws w readable writable m p :
  components ws = RootDir :: map Normal w -> ends_with "/" ws = false ->
  Forall (fun raw => trimmed_prefix raw <> ".") readable -> Forall (fun raw => trimmed_prefix raw <> ".") writable ->
  m ∈ workspace_mounts ws readable writable -> names_of (components (target_of m)) `prefix_of` p ->
  exists rel, p = w ++ rel
    /\ match m with
       | RwBind _ _ => matches_prefixes rel writable = true \/ [SCRATCH_DIR] `prefix_of` rel
       | RoBind _ _ => matches_prefixes rel readable = true
       | _ => m = Tmpfs ws
       end.
Proof.
  intros Hw He Hr Hwr Hm Hcov.
  assert (names_of (components ws) = w) as Hws by (rewrite Hw; apply (names_of_normal w)).
  assert (forall pre, names_of (components (join ws pre)) `prefix_of` p -> exists rel, p = w ++ rel) as Hbelow.
  { intros pre [r ->]. rewrite (join_components ws w) by done. cbn.
    change (omap _ (map Normal w ++ ?l)) with (names_of (map Normal w ++ l)). rewrite names_of_app, names_of_normal, <- app_assoc. eauto. }
  unfold workspace_mounts in Hm. apply elem_of_app in Hm as [Hm|Hm]; [|apply elem_of_app in Hm as [Hm|Hm]].
  - destruct (grants_whole_workspace readable) eqn:Er.
    + assert (target_of m = ws) as Ht by (destruct (grants_whole_workspace writable); apply list_elem_of_singleton in Hm as ->; done).
      rewrite Ht, Hws in Hcov. destruct Hcov as [rel ->]. exists rel. split; [done|].
      destruct (grants_whole_workspace writable) eqn:Ew; apply list_elem_of_singleton in Hm as ->;
        [left|]; by apply whole_matches.
    + apply elem_of_cons in Hm as [->|Hm].
      * cbn [target_of] in Hcov. rewrite Hws in Hcov. destruct Hcov as [rel ->]. by exists rel.
      * apply list_elem_of_fmap in Hm as (pre & -> & Hpre). cbn [target_of] in Hcov. destruct (Hbelow _ Hcov) as [rel ->].
        exists rel. split; [done|]. by eapply mounted_matches.
  - destruct (grants_whole_workspace writable); [by apply not_elem_of_nil in Hm|].
    apply list_elem_of_fmap in Hm as (pre & -> & Hpre). cbn [target_of] in Hcov. destruct (Hbelow _ Hcov) as [rel ->].
    exists rel. split; [done|left]. by eapply mounted_matches.
  - apply list_elem_of_singleton in Hm as ->. cbn [target_of] in Hcov. destruct (Hbelow _ Hcov) as [rel ->]. exists rel.
    split; [done|right]. rewrite (scratch_below ws w) in Hcov by done. by apply prefix_app_inv in Hcov.
Qed.

(** Every path of the workspace is on one of its mounts. *)
Lemma workspace_covered ws w readable writable rel :
  components ws = RootDir :: map Normal w -> mount_at (workspace_mounts ws readable writable) (w ++ rel) <> None.
Proof.
  intros Hw. unfold mount_at. intros Hn%last_None. unfold workspace_mounts in Hn. rewrite List.filter_app in Hn.
  apply app_eq_nil in Hn as [Hn _].
  assert (forall m l, target_of m = ws -> List.filter (covers (w ++ rel)) (m :: l) <> []) as Hc.
  { intros m l Ht. cbn [List.filter]. unfold covers at 1. rewrite Ht, Hw, bool_decide_true; [done|].
    change (names_of (RootDir :: map Normal w)) with (names_of (map Normal w)). rewrite names_of_normal. by apply prefix_app_r. }
  revert Hn. destruct (grants_whole_workspace readable), (grants_whole_workspace writable); by apply Hc.
Qed.

(** * Properties *)

(** C20: The mounts a shell step runs under open no more than its confinement, for a workspace
    given by an absolute path without a final slash and prefixes none of which is [.] once its
    slashes are trimmed: such a prefix opens the whole workspace to a shell and nothing to the
    file actions, as [dot_prefix_differs] shows.  A path on a
    writable mount of the host lies in the workspace, below a prefix that the file actions of
    the step could write, or in the scratch directory; a path of the workspace on a read-only
    mount lies below a readable prefix; what is outside the workspace is never writable, and
    the homes, the runtime and the temporary directory of the host are not visible; and the
    network is cut off in every case. *)
Theorem sandbox_mounts_confined ws w readable writable p :
  components ws = RootDir :: map Normal w -> ends_with "/" ws = false ->
  Forall (fun raw => trimmed_prefix raw <> ".") readable -> Forall (fun raw => trimmed_prefix raw <> ".") writable ->
  let ms := base_mounts ++ workspace_mounts ws readable writable in
  bwrap_args ws readable writable = bwrap_flags ++ flat_map mount_args ms
  /\ "--unshare-net" ∈ bwrap_args ws readable writable
  /\ (forall s t, mount_at ms p = Some (RwBind s t) ->
        exists rel, p = w ++ rel /\ (matches_prefixes rel writable = true \/ [SCRATCH_DIR] `prefix_of` rel))
  /\ (forall s t rel, p = w ++ rel -> mount_at ms p = Some (RoBind s t) -> matches_prefixes rel readable = true)
  /\ (~ w `prefix_of` p -> forall d, d ∈ ["home"; "root"; "run"; "tmp"] -> [d] `prefix_of` p ->
        exists t, mount_at ms p = Some (Tmpfs t)).
Proof.
  intros Hw He Hr Hwr ms.
  assert (forall m, mount_at ms p = Some m ->
    m ∈ workspace_mounts ws readable writable /\ names_of (components (target_of m)) `prefix_of` p
    \/ mount_at (workspace_mounts ws readable writable) p = None /\ mount_at base_mounts p = Some m) as Hat.
  { intros m. unfold ms. rewrite mount_at_app. destruct (mount_at (workspace_mounts _ _ _) p) as [m'|] eqn:Em; [|auto].
    intros [= ->]. left. by apply mount_at_Some. }
  split_and!; [done|set_solver|..].
  - intros s t [[Hin Hcov]|[_ Hb%mount_at_Some]]%Hat.
    + by destruct (workspace_mounts_elem _ _ _ _ _ _ Hw He Hr Hwr Hin Hcov) as (rel & -> & ?); eauto.
    + exfalso. destruct Hb as [Hb _]. unfold base_mounts in Hb. set_solver.
  - intros s t rel -> [[Hin Hcov]|[Hno _]]%Hat; [|by apply (workspace_covered ws w) in Hno].
    destruct (workspace_mounts_elem _ _ _ _ _ _ Hw He Hr Hwr Hin Hcov) as (rel' & Heq & Hm). by apply app_inv_head in Heq as <-.
  - intros Hout d Hd [r ->]. unfold ms. rewrite mount_at_app.
    destruct (mount_at (workspace_mounts _ _ _) _) as [m|] eqn:Em.
    { apply mount_at_Some in Em as [Hin Hcov].
      destruct (workspace_mounts_elem _ _ _ _ _ _ Hw He Hr Hwr Hin Hcov) as (rel & Heq & _). destruct Hout. rewrite Heq.
      by apply prefix_app_r. }
    assert (forall b, covers ([d] ++ r) b = bool_decide (names_of (components (target_of b)) `prefix_of` [d] ++ r)) as Hc by done.
    repeat (apply elem_of_cons in Hd as [->|Hd]; [eexists; reflexivity|]). by apply not_elem_of_nil in Hd.
Qed.
End mounts.

(** A prefix of [.] opens the whole workspace to a shell and nothing to the file actions,
    although the two tests are meant to agree. *)
Theorem dot_prefix_differs :
  grants_whole_workspace ["."] = true /\ matches_prefixes ["src"; "main.rs"] ["."] = false.
Proof. by vm_compute. Qed.

(** With its reads confined and its writes not, a step has no writable mount of its workspace
    but the scratch directory, although unrestricted writes are meant to bind all of it. *)
Theorem confined_reads_drop_writes ws :
  workspace_mounts ws ["src"] []
  = [Tmpfs ws; RoBind (join ws "src") (join ws "src"); RwBind (join ws SCRATCH_DIR) (join ws SCRATCH_DIR)].
Proof. done. Qed.

(** The paths of a profile are not escaped: a prefix with a quote in it closes the rule it is
    put in and adds another. *)
Theorem quoted_prefix_adds_rule ws :
  let prefix := "a" +:+ dquote +:+ ") (subpath " +:+ dquote +:+ "/home" in
  workspace_rules ws [prefix] = [subpath (join ws "a") +:+ " " +:+ subpath "/home"; subpath (join ws SCRATCH_DIR)].
Proof.
  cbv zeta. unfold workspace_rules. change (grants_whole_workspace _) with false.
  change (normalized_prefixes _) with ["a" +:+ dquote +:+ ") (subpath " +:+ dquote +:+ "/home"].
  cbn [map app]. f_equal. unfold subpath, join. destruct (_ || _); by rewrite !str_app_assoc.
Qed.

Module SandboxDemo.

(** A step that may read all of its workspace and write below [out]. *)
Lemma sandbox_mounts_confined_witness :
  mount_at (base_mounts ++ workspace_mounts "/srv/br-1" [] ["out"]) ["srv"; "br-1"; "out"; "x"]
    = Some (RwBind "/srv/br-1/out" "/srv/br-1/out")
  /\ exists rel, ["srv"; "br-1"; "out"; "x"] = ["srv"; "br-1"] ++ rel
      /\ (matches_prefixes rel ["out"] = true \/ [SCRATCH_DIR] `prefix_of` rel).
Proof.
  split; [vm_compute; reflexivity|].
  refine (proj1 (proj2 (proj2 (sandbox_mounts_confined "/srv/br-1" ["srv"; "br-1"] [] ["out"]
    ["srv"; "br-1"; "out"; "x"] eq_refl eq_refl _ _))) "/srv/br-1/out" "/srv/br-1/out" _).
  - constructor.
  - constructor; [vm_compute; discriminate|constructor].
  - vm_compute; reflexivity.
Defined.

End SandboxDemo.
