(* ===== verification/LocalProcess.v ===== *)
(** Process sessions, [backends/local/src/process.rs]: the log buffer of a
    session and the registry of the sessions of all branches.

    A session's shared cells (its logs, its exit code, its open standard input)
    are fields of its entry in the registry; what the child writes and when it
    ends are moves of the environment.  A session names its control group by its
    directory and its egress grant by its token; what they count at the moment
    is the class [Counters].  Signals go to the operating system and are returned
    as the calls made on it, with what is released when a session is dropped. *)

From stdpp Require Import pretty.
From S2P Require Import Prelude Json Types.

Open Scope Z_scope.

(** * The log buffer *)

Record LogBuffer := mkLog {
  log_data : string;
  log_base : Z;                       (* u64 *)
  log_cap : nat;
}.

Definition log_new (cap : nat) : LogBuffer := mkLog EmptyString 0 (Nat.max cap 1).

Definition slen (s : string) : Z := Z.of_nat (String.length s).

Definition log_append (b : LogBuffer) (chunk : string) : LogBuffer :=
  let data := log_data b +:+ chunk in
  if Nat.ltb (log_cap b) (String.length data) then
    let dropped := (String.length data - log_cap b)%nat in
    mkLog (str_drop dropped data) (log_base b + Z.of_nat dropped) (log_cap b)
  else mkLog data (log_base b) (log_cap b).

Definition log_total (b : LogBuffer) : Z := log_base b + slen (log_data b).

(** [read_from]: the offset it starts at, and the bytes. *)
Definition log_read (b : LogBuffer) (from : Z) (max : Z) : Z * string :=
  let start := Z.min (Z.max from (log_base b)) (log_total b) in
  let idx := start - log_base b in
  let stop := Z.min (idx + max) (slen (log_data b)) in
  (start, String.substring (Z.to_nat idx) (Z.to_nat (stop - idx)) (log_data b)).

(** * Sessions *)

(** What a session's cgroup reports, when it has one. *)
Record GroupView := mkGroup {
  gv_populated : option bool;
  gv_cpu_ms : option Z;
  gv_peak : option Z;
  gv_oom_kills : option Z;
  gv_pid_hits : option Z;
  gv_cpu_exhausted : bool;
}.

Record ProcessSession := mkSession {
  ps_id : string;
  ps_branch : string;
  ps_name : option string;
  ps_command : string;
  ps_pid : option Z;                  (* u32 *)
  ps_started_at : Z;
  ps_stdin_open : bool;
  ps_logs : LogBuffer;
  ps_exit : option Z;                 (* i32 *)
  ps_cgroup : option string;
  ps_egress : option string;
}.

Abbreviation ProcessRegistry := (gmap string ProcessSession) (only parsing).

Class Counters := { group_view : string -> GroupView; grant_used : string -> Z }.

Section sessions.
Context `{!Counters}.

Definition group_of (s : ProcessSession) : option GroupView := group_view <$> ps_cgroup s.

Definition running (s : ProcessSession) : bool :=
  match group_of s ≫= gv_populated with
  | Some populated => populated
  | None => match ps_exit s with None => true | Some _ => false end
  end.

(** The calls on the operating system a signal makes. *)
Inductive KillCall : Type :=
| CgroupKill (dir : string)
| KillGroup (sig : string) (pid : Z)
| KillOne (sig : string) (pid : Z)
| GrantRevoked (token : string)
| GroupDropped (dir : string).

(** The answers: whether the [kill] command ran and succeeded. *)
Record KillOs := mkKillOs {
  os_cgroup_kill : string -> result string ();
  os_kill_group : string -> Z -> result string bool;
  os_kill_one : string -> Z -> result string bool;
}.

Definition sig_of (signal : string) : option string :=
  if String.eqb signal "int" then Some "INT"
  else if String.eqb signal "term" then Some "TERM"
  else if String.eqb signal "kill" then Some "KILL"
  else None.

Definition signal (os : KillOs) (s : ProcessSession) (name : string) : result string () * list KillCall :=
  match sig_of name with
  | None => (Err ("unknown signal `" +:+ name +:+ "`: use int|term|kill"), [])
  | Some sig =>
      match ps_pid s with
      | None => (Err "process has no pid", [])
      | Some pid =>
          if negb (running s) then (Err "process has already exited", [])
          else
            match (if String.eqb name "kill" then ps_cgroup s else None) with
            | Some dir =>
                (map_err (fun e => "cgroup.kill failed: " +:+ e) (os_cgroup_kill os dir), [CgroupKill dir])
            | None =>
                match os_kill_group os sig pid with
                | Err e => (Err ("kill failed: " +:+ e), [KillGroup sig pid])
                | Ok true => (Ok tt, [KillGroup sig pid])
                | Ok false =>
                    (match os_kill_one os sig pid with
                     | Err e => Err ("kill failed: " +:+ e)
                     | Ok true => Ok tt
                     | Ok false => Err ("kill -" +:+ sig +:+ " " +:+ pretty pid +:+ " failed")
                     end, [KillGroup sig pid; KillOne sig pid])
                end
            end
      end
  end.

Definition opt_num (o : option Z) : Value := match o with Some n => Number (if n <? 0 then NegInt n else PosInt n) | None => Null end.

Definition status_json (s : ProcessSession) (uptime_ms : Z) : Value :=
  let group (f : GroupView -> option Z) := mbind f (group_of s) in
  Object [("command", Str (ps_command s));
          ("cpu_budget_exhausted", VBool (match group_of s with Some g => gv_cpu_exhausted g | None => false end));
          ("cpu_ms", opt_num (group gv_cpu_ms)); ("exit_code", opt_num (ps_exit s));
          ("log_base_offset", Number (PosInt (log_base (ps_logs s))));
          ("log_total_bytes", Number (PosInt (log_total (ps_logs s))));
          ("memory_peak_bytes", opt_num (group gv_peak)); ("name", opt_str (ps_name s));
          ("network_bytes", Number (PosInt (default 0 (grant_used <$> ps_egress s))));
          ("oom_kills", opt_num (group gv_oom_kills)); ("pid", opt_num (ps_pid s));
          ("pid_limit_hits", opt_num (group gv_pid_hits)); ("process", Str (ps_id s));
          ("running", VBool (running s)); ("uptime_ms", Number (PosInt uptime_ms))].

(** * The registry *)

(** [adopt]: a fresh id, an empty log, no exit code. *)
Definition new_session (uuid branch : string) (name : option string) (command : string) (pid : option Z)
    (now : Z) (stdin : bool) (cgroup egress : option string) (cap : nat) : ProcessSession :=
  mkSession ("proc-" +:+ uuid) branch name command pid now stdin (log_new cap) None cgroup egress.

Definition adopt (reg : ProcessRegistry) (s : ProcessSession) : ProcessRegistry := <[ps_id s := s]> reg.

Definition get_session (reg : ProcessRegistry) (branch id : string) : option ProcessSession :=
  s ← reg !! id; if bool_decide (ps_branch s = branch) then Some s else None.

Definition started_before (a b : ProcessSession) : Prop := ps_started_at a <= ps_started_at b.

#[export] Instance started_before_dec a b : Decision (started_before a b).
Proof. unfold started_before. apply _. Defined.

(** Sorted by start; the order of the hash map decides between equals. *)
Definition list_sessions (reg : ProcessRegistry) (branch : string) : list ProcessSession :=
  merge_sort started_before
    (List.filter (fun s => bool_decide (ps_branch s = branch)) (map_to_list reg).*2).

Definition of_branch (branch : string) (kv : string * ProcessSession) : Prop := ps_branch kv.2 = branch.

#[export] Instance of_branch_dec branch kv : Decision (of_branch branch kv).
Proof. unfold of_branch. apply _. Defined.

(** Dropping a session releases its grant, then its group. *)
Definition session_drop (s : ProcessSession) : list KillCall :=
  option_list (GrantRevoked <$> ps_egress s) ++ option_list (GroupDropped <$> ps_cgroup s).

Definition end_session (os : KillOs) (s : ProcessSession) : list KillCall := (signal os s "kill").2 ++ session_drop s.

(** [kill_branch]: the sessions are removed, then each is signalled and dropped;
    a failed signal is ignored. *)
Definition kill_branch (os : KillOs) (reg : ProcessRegistry) (branch : string)
    : nat * ProcessRegistry * list KillCall :=
  let victims := (map_to_list (filter (of_branch branch) reg)).*2 in
  (length victims, filter (fun kv => ~ of_branch branch kv) reg, flat_map (end_session os) victims).
End sessions.

(** What the environment does: output pumped into the log, the end of the
    child, its standard input closed. *)
Definition with_logs (s : ProcessSession) (b : LogBuffer) : ProcessSession :=
  mkSession (ps_id s) (ps_branch s) (ps_name s) (ps_command s) (ps_pid s) (ps_started_at s) (ps_stdin_open s) b
    (ps_exit s) (ps_cgroup s) (ps_egress s).

Definition with_exit (s : ProcessSession) (code : Z) : ProcessSession :=
  mkSession (ps_id s) (ps_branch s) (ps_name s) (ps_command s) (ps_pid s) (ps_started_at s) (ps_stdin_open s)
    (ps_logs s) (Some code) (ps_cgroup s) (ps_egress s).

Definition with_stdin_closed (s : ProcessSession) : ProcessSession :=
  mkSession (ps_id s) (ps_branch s) (ps_name s) (ps_command s) (ps_pid s) (ps_started_at s) false (ps_logs s)
    (ps_exit s) (ps_cgroup s) (ps_egress s).

Definition pump (reg : ProcessRegistry) (id chunk : string) : ProcessRegistry :=
  alter (fun s => with_logs s (log_append (ps_logs s) chunk)) id reg.

(** * The log is a window on the output *)

Section log_lemmas.
Implicit Types (b : LogBuffer) (s stream : string).

(** The buffer holds the end of everything written. *)
Definition holds b stream : Prop :=
  (1 <= log_cap b)%nat /\ (String.length (log_data b) <= log_cap b)%nat /\ 0 <= log_base b
  /\ log_data b = str_drop (Z.to_nat (log_base b)) stream /\ log_total b = slen stream
  /\ (log_base b = 0 \/ String.length (log_data b) = log_cap b).

Lemma holds_new cap : holds (log_new cap) EmptyString.
Proof. unfold holds, log_new, log_total, slen. cbn. split_and!; try lia; auto. Qed.

Lemma str_drop_app_le n s t : (n <= String.length s)%nat -> str_drop n (s +:+ t) = str_drop n s +:+ t.
Proof. revert s. induction n as [|n IH]; intros [|c s] Hn; cbn in *; try done; try lia. apply IH. lia. Qed.

Lemma holds_append b stream chunk : holds b stream -> holds (log_append b chunk) (stream +:+ chunk).
Proof.
  intros (Hcap & Hlen & Hbase & Hdata & Htot & Hfull). unfold log_total, slen in Htot.
  assert (Z.to_nat (log_base b) <= String.length stream)%nat as Hin by lia.
  assert (log_data b +:+ chunk = str_drop (Z.to_nat (log_base b)) (stream +:+ chunk)) as Happ
    by (rewrite str_drop_app_le, <- Hdata by done; done).
  unfold log_append. destruct (Nat.ltb_spec (log_cap b) (String.length (log_data b +:+ chunk))) as [Hgt|Hle].
  - unfold holds, log_total, slen. cbn. rewrite str_drop_length, str_length_app in *. rewrite str_length_app.
    split_and!; try lia. rewrite Happ, str_drop_drop. f_equal. lia.
  - unfold holds, log_total, slen. cbn. rewrite str_length_app in *. rewrite str_length_app. split_and!; try lia; try done.
Qed.

Lemma holds_appends b chunks : forall stream, holds b stream ->
  holds (foldl log_append b chunks) (foldl String.append stream chunks).
Proof. revert b. induction chunks as [|c chunks IH]; intros b stream Hb; cbn; [done|]. by apply IH, holds_append. Qed.

Lemma substring_drop n len s : String.substring n len s = String.substring 0 len (str_drop n s).
Proof. revert s. induction n as [|n IH]; intros [|c s]; cbn; [done|done|by destruct len|apply IH]. Qed.

Lemma log_read_spec b stream from max start bytes :
  holds b stream -> 0 <= from -> 0 <= max -> log_read b from max = (start, bytes) ->
  start = Z.min (Z.max from (log_base b)) (slen stream)
  /\ bytes = String.substring (Z.to_nat start) (Z.to_nat max) stream
  /\ slen bytes = Z.min max (slen stream - start).
Proof.
  intros (Hcap & Hlen & Hbase & Hdata & Htot & Hfull) Hf Hm. unfold log_read. rewrite Htot. intros Heq.
  apply pair_eq in Heq as [<- <-]. set (start := Z.min (Z.max from (log_base b)) (slen stream)). unfold log_total, slen in Htot.
  assert (log_base b <= start <= slen stream) as Hs by (unfold start, slen; lia). split; [done|].
  rewrite (substring_drop (Z.to_nat (start - log_base b))), (substring_drop (Z.to_nat start)).
  replace (slen (log_data b)) with (slen stream - log_base b) by (unfold slen; lia). rewrite Hdata, str_drop_drop.
  replace (Z.to_nat (log_base b) + Z.to_nat (start - log_base b))%nat with (Z.to_nat start) by (unfold slen in *; lia).
  assert (String.length (str_drop (Z.to_nat start) stream) = Z.to_nat (slen stream - start)) as Hl
    by (rewrite str_drop_length; unfold slen in *; lia).
  split.
  - destruct (decide (max <= slen stream - start)) as [Hle|Hgt].
    + f_equal. unfold slen in *. lia.
    + rewrite !substring_0_all; [done|..]; rewrite Hl; unfold slen in *; lia.
  - unfold slen at 1. rewrite substring_0_length, Hl. unfold slen in *. lia.
Qed.

(** * Properties *)

(** The log of a session is a faithful window on its output.  Whatever chunks the process
    wrote, the buffer holds at most its capacity, its offsets count all bytes ever written,
    and nothing is dropped before the buffer is full.  A read returns the bytes of the output
    at the offset it reports, as many as were asked for and written, and starts where it was
    asked to unless those bytes were dropped or not written yet; so successive reads from the
    offset reached tile the output. *)
Theorem log_window cap chunks from max :
  0 <= from -> 0 <= max ->
  let b := foldl log_append (log_new cap) chunks in
  let stream := foldl String.append EmptyString chunks in
  let '(start, bytes) := log_read b from max in
  log_total b = slen stream /\ slen (log_data b) <= Z.max (Z.of_nat cap) 1 /\ 0 <= log_base b <= slen stream
  /\ (log_base b = 0 \/ slen (log_data b) = Z.max (Z.of_nat cap) 1)
  /\ start = Z.min (Z.max from (log_base b)) (slen stream)
  /\ bytes = String.substring (Z.to_nat start) (Z.to_nat max) stream
  /\ slen bytes = Z.min max (slen stream - start).
Proof.
  intros Hf Hm b stream. destruct (log_read b from max) as [start bytes] eqn:Er.
  assert (holds b stream) as Hb by apply holds_appends, holds_new.
  assert (log_cap b = Nat.max cap 1) as Hc.
  { unfold b. generalize (log_new cap) (eq_refl : log_cap (log_new cap) = Nat.max cap 1). clear.
    induction chunks as [|c chunks IH]; intros b Hb; [done|]. apply IH. unfold log_append. by destruct (Nat.ltb _ _). }
  destruct (log_read_spec _ _ _ _ _ _ Hb Hf Hm Er) as (? & ? & ?).
  destruct Hb as (Hcap & Hlen & Hbase & Hdata & Htot & Hfull). unfold log_total in Htot. unfold slen in *.
  split_and!; try done; lia.
Qed.

Lemma log_window_witness :
  let b := foldl log_append (log_new 4) ["abc"; "defg"] in
  log_read b 1 2 = (3, "de") /\ slen (log_data b) <= 4.
Proof.
  split; [vm_compute; reflexivity|].
  apply (log_window 4 ["abc"; "defg"] 1 2 ltac:(lia) ltac:(lia)).
Defined.
End log_lemmas.

(** * Sessions stay with their branch *)

Section registry_lemmas.
Context `{!Counters}.
Implicit Types (reg : ProcessRegistry).

(** Every session is filed under its id. *)
Definition filed reg : Prop := forall id s, reg !! id = Some s -> ps_id s = id.

Lemma adopt_filed reg s : filed reg -> filed (adopt reg s).
Proof. intros Hf id s' Hs. unfold adopt in Hs. apply lookup_insert_Some in Hs as [[<- <-]|[_ Hs]]; [done|by apply Hf]. Qed.

Lemma pump_filed reg id chunk : filed reg -> filed (pump reg id chunk).
Proof.
  intros Hf i s Hs. unfold pump in Hs. destruct (decide (id = i)) as [->|Hne].
  - rewrite lookup_alter_eq in Hs. destruct (reg !! i) as [s0|] eqn:E; [|done]. injection Hs as <-. by apply (Hf _ s0).
  - rewrite lookup_alter_ne in Hs by done. by apply Hf.
Qed.

Lemma get_session_Some reg branch id s :
  get_session reg branch id = Some s <-> reg !! id = Some s /\ ps_branch s = branch.
Proof.
  unfold get_session. destruct (reg !! id) as [s0|] eqn:E; cbn; [|naive_solver]. case_bool_decide; naive_solver.
Qed.

Lemma list_sessions_elem reg branch s :
  s ∈ list_sessions reg branch <-> ps_branch s = branch /\ exists id, reg !! id = Some s.
Proof.
  unfold list_sessions. rewrite merge_sort_Permutation, list_elem_of_In, filter_In, <- list_elem_of_In, bool_decide_eq_true.
  rewrite list_elem_of_fmap. split.
  - intros [([id s'] & -> & Hin) Hb]. apply elem_of_map_to_list in Hin. eauto.
  - intros [Hb [id Hid]]. split; [|done]. exists (id, s). split; [done|]. by apply elem_of_map_to_list.
Qed.

(** The sessions of a branch end with it, and no others. *)
Lemma kill_branch_exact os reg branch n reg' calls :
  kill_branch os reg branch = (n, reg', calls) ->
  (forall id s, reg' !! id = Some s <-> reg !! id = Some s /\ ps_branch s <> branch)
  /\ (forall id s, reg !! id = Some s -> ps_branch s = branch -> forall c, c ∈ end_session os s -> c ∈ calls)
  /\ (forall c, c ∈ calls -> exists id s, reg !! id = Some s /\ ps_branch s = branch /\ c ∈ end_session os s).
Proof.
  intros [= <- <- <-]. split_and!.
  - intros id s. rewrite map_lookup_filter_Some. done.
  - intros id s Hid Hb c Hc. apply list_elem_of_In, in_flat_map. exists s. split; [|by apply list_elem_of_In].
    apply list_elem_of_In, list_elem_of_fmap. exists (id, s). split; [done|]. by apply elem_of_map_to_list, map_lookup_filter_Some.
  - intros c Hc. apply list_elem_of_In, in_flat_map in Hc as (s & Hin & Hc). apply list_elem_of_In, list_elem_of_fmap in Hin as ([id s'] & -> & Hin).
    apply elem_of_map_to_list, map_lookup_filter_Some in Hin as [Hid Hb]. exists id, s'. split_and!; [done..|by apply list_elem_of_In].
Qed.
End registry_lemmas.
