(* ===== verification/Cgroup.v ===== *)
(** Group-level enforcement, [backends/local/src/cgroup.rs]: probing for a
    delegated cgroup v2 parent, making the group of a step, reading its
    counters, the CPU monitor, and the removal of a group.

    The kernel's control files are the world.  Every call on it is recorded with
    its answer, and the answers may depend on everything called before, so the
    world is a function of that history.  Log lines are left out. *)

From Stdlib Require Import HexString.
From stdpp Require Import pretty.
From S2P Require Import Prelude Utf8 KernelText LocalSandbox.

Open Scope Z_scope.

(** [io::Error]: whether its kind is [NotFound], and its text. *)
Record IoErr := mkIo { io_not_found : bool; io_text : string }.

Definition io_other (text : string) : IoErr := mkIo false text.

(** A call with its answer. *)
Inductive CgCall : Type :=
| CStatfs (path : string) (r : result IoErr Z)
| CRead (path : string) (r : result IoErr string)
| CWrite (path contents : string) (r : result IoErr ())
| CMkdir (path : string) (r : result IoErr ())
| CRmdir (path : string) (r : result IoErr ())
| CSpawn (procs : string) (r : result IoErr Z)
| CKill (pid : Z)
| CWait (pid : Z) (r : result IoErr bool).

Abbreviation History := (list CgCall) (only parsing).

(** [h_spawn]: a shell that enters the group of this [cgroup.procs] between
    fork and exec and stops itself; its process id.  [h_wait]: whether the child
    ended with success.  [h_alive]: whether someone still holds the group. *)
Class CgroupHost := {
  h_statfs : History -> string -> result IoErr Z;
  h_read : History -> string -> result IoErr string;
  h_write : History -> string -> string -> result IoErr ();
  h_mkdir : History -> string -> result IoErr ();
  h_rmdir : History -> string -> result IoErr ();
  h_spawn : History -> string -> result IoErr Z;
  h_wait : History -> Z -> result IoErr bool;
  h_alive : History -> bool;
}.

(** * Computations on the world *)

Definition Cg (A : Type) : Type := History -> result IoErr A * History.

Definition cg_ret {A} (a : A) : Cg A := fun h => (Ok a, h).
Definition cg_fail {A} (e : IoErr) : Cg A := fun h => (Err e, h).
Definition cg_bind {A B} (m : Cg A) (k : A -> Cg B) : Cg B := fun h =>
  match m h with
  | (Ok a, h') => k a h'
  | (Err e, h') => (Err e, h')
  end.
(** The error as a value. *)
Definition cg_try {A} (m : Cg A) : Cg (result IoErr A) := fun h => let '(r, h') := m h in (Ok r, h').
Definition cg_of {A} (r : result IoErr A) : Cg A := fun h => (r, h).

Declare Scope cg_scope.
Delimit Scope cg_scope with cg.
Notation "'let!' x := m 'in' k" := (cg_bind m (fun x => k)) (at level 10, x pattern, m at level 100, k at level 200) : cg_scope.
Open Scope cg_scope.

Section calls.
Context `{!CgroupHost}.

Definition call {A} (r : History -> result IoErr A) (c : result IoErr A -> CgCall) : Cg A :=
  fun h => (r h, h ++ [c (r h)]).

Definition statfs (p : string) : Cg Z := call (fun h => h_statfs h p) (CStatfs p).
Definition read_to_string (p : string) : Cg string := call (fun h => h_read h p) (CRead p).
Definition write (p contents : string) : Cg () := call (fun h => h_write h p contents) (CWrite p contents).
Definition create_dir (p : string) : Cg () := call (fun h => h_mkdir h p) (CMkdir p).
Definition remove_dir (p : string) : Cg () := call (fun h => h_rmdir h p) (CRmdir p).
Definition spawn_stopped (procs : string) : Cg Z := call (fun h => h_spawn h procs) (CSpawn procs).
Definition wait (pid : Z) : Cg bool := call (fun h => h_wait h pid) (CWait pid).
Definition kill_child (pid : Z) : Cg () := fun h => (Ok tt, h ++ [CKill pid]).

(** * Control files *)

Definition read_control (p : string) : Cg string := let! s := read_to_string p in cg_ret (trim s).

Fixpoint find_event (ls : list string) (key : string) : option Z :=
  match ls with
  | [] => None
  | l :: rest =>
      match split_whitespace l with
      | name :: value :: _ =>
          if String.eqb name key
          then match parse_usize value with Some n => Some n | None => find_event rest key end
          else find_event rest key
      | _ => find_event rest key
      end
  end.

(** A file that cannot be read has no events. *)
Definition event_value (p key : string) : Cg (option Z) :=
  let! r := cg_try (read_control p) in
  cg_ret (match r with Ok events => find_event (lines events) key | Err _ => None end).

Definition CGROUP2_SUPER_MAGIC : Z := 0x63677270.

Definition has_nul (s : string) : bool := str_contains (String "000" EmptyString) s.

(** [{:#x}] of a [c_long]. *)
Definition lower_hex (n : Z) : string := HexString.of_N (Z.to_N (n mod 2 ^ 64)).

Definition require_cgroup2fs (linux : bool) (p : string) : Cg () :=
  if negb linux then cg_fail (io_other "cgroup v2 is Linux-only")
  else if has_nul p then cg_fail (io_other "cgroup parent path contains a NUL byte")
  else
    let! t := statfs p in
    if t =? CGROUP2_SUPER_MAGIC then cg_ret tt
    else cg_fail (io_other ("candidate is not on a cgroup v2 filesystem (statfs type " +:+ lower_hex t +:+ ")")).

Definition CONTROLLERS : list string := ["cpu"; "memory"; "pids"].

Definition lists (text name : string) : bool := existsb (String.eqb name) (split_whitespace text).

Definition ensure_controllers (parent : string) : Cg () :=
  let! controllers := read_control (join parent "cgroup.controllers") in
  match List.find (fun needed => negb (lists controllers needed)) CONTROLLERS with
  | Some needed =>
      cg_fail (io_other ("cgroup parent lacks the `" +:+ needed +:+ "` controller (has: " +:+ controllers +:+ ")"))
  | None =>
      let subtree := join parent "cgroup.subtree_control" in
      let! enabled := read_control subtree in
      let missing := List.filter (fun needed => negb (lists enabled needed)) CONTROLLERS in
      match missing with
      | [] => cg_ret tt
      | _ => write subtree (str_join " " (map (fun c => "+" +:+ c) missing))
      end
  end.

(** * Probing *)

Definition attached (members : string) (pid : Z) : bool :=
  existsb (fun line => String.eqb (trim line) (pretty pid)) (lines members).

(** The part that is undone by killing the child when it fails. *)
Definition attach_check (group procs : string) (pid : Z) : Cg () :=
  let! members := read_control procs in
  if negb (attached members pid) then cg_fail (io_other "probe child did not enter the delegated cgroup")
  else
    let! _ := write (join group "cgroup.kill") "1" in
    let! success := wait pid in
    if success then cg_fail (io_other "cgroup.kill did not kill the probe child") else cg_ret tt.

Definition verify_process_attachment (linux : bool) (group : string) : Cg () :=
  if negb linux then cg_fail (io_other "cgroup process attachment is Linux-only")
  else
    let procs := join group "cgroup.procs" in
    if has_nul procs then cg_fail (io_other "cgroup path contains a NUL byte")
    else
      let! pid := spawn_stopped procs in
      let! r := cg_try (attach_check group procs pid) in
      match r with
      | Ok _ => cg_ret tt
      | Err e =>
          let! _ := kill_child pid in
          let! _ := cg_try (wait pid) in
          cg_fail e
      end.

Definition limits_check (linux : bool) (probe : string) : Cg () :=
  let! _ := write (join probe "memory.max") "1073741824" in
  let! _ := write (join probe "memory.swap.max") "0" in
  let! _ := write (join probe "pids.max") "64" in
  let! _ := read_control (join probe "cpu.stat") in
  verify_process_attachment linux probe.

(** [verify]; [label] is the fresh one. *)
Definition verify (linux : bool) (label parent : string) : Cg () :=
  let! _ := require_cgroup2fs linux parent in
  let! _ := ensure_controllers parent in
  let probe := join parent ("ak-probe-" +:+ label) in
  let! _ := create_dir probe in
  let! r := cg_try (limits_check linux probe) in
  let! _ := cg_try (remove_dir probe) in
  cg_of r.

(** [trim_start_matches('/')]. *)
Fixpoint trim_start_slash (s : string) : string :=
  match s with String "/" r => trim_start_slash r | _ => s end.

Fixpoint own_line (ls : list string) : option string :=
  match ls with
  | [] => None
  | l :: rest => match strip_prefix "0::" l with Some p => Some p | None => own_line rest end
  end.

Definition self_cgroup_dir : Cg (option string) :=
  let! r := cg_try (read_to_string "/proc/self/cgroup") in
  cg_ret (match r with
          | Err _ => None
          | Ok content => (fun p => join "/sys/fs/cgroup" (trim_start_slash (trim p))) <$> own_line (lines content)
          end).

Fixpoint first_verified (linux : bool) (label : nat -> string) (candidates : list string)
    : Cg (option string) :=
  match candidates with
  | [] => cg_ret None
  | c :: rest =>
      let! r := cg_try (verify linux (label (length rest)) c) in
      match r with
      | Ok _ => cg_ret (Some c)
      | Err _ => first_verified linux label rest
      end
  end.

(** [CgroupSupervisor::probe]: the parent it found.  [configured] and the
    variable [AK_CGROUP_PARENT] come first. *)
Definition probe_cgroups (linux : bool) (label : nat -> string) (configured variable : option string)
    : Cg (option string) :=
  if negb linux then cg_ret None
  else
    let! own := self_cgroup_dir in
    first_verified linux label (option_list configured ++ option_list variable ++ option_list own).

(** * The group of a step *)

Definition kill_tree (dir : string) : Cg () := write (join dir "cgroup.kill") "1".

(** Up to [n] attempts, with a pause after each. *)
Fixpoint remove_retry (n : nat) (dir : string) : Cg () :=
  match n with
  | O => cg_ret tt
  | S n =>
      let! r := cg_try (remove_dir dir) in
      match r with
      | Ok _ => cg_ret tt
      | Err e => if io_not_found e then cg_ret tt else remove_retry n dir
      end
  end.

(** [Drop for StepCgroup]. *)
Definition drop_group (dir : string) : Cg () :=
  let! _ := cg_try (kill_tree dir) in remove_retry 50 dir.

Definition set_ceilings (dir : string) (memory : option Z) (max_pids : Z) : Cg () :=
  let! _ := match memory with
            | Some bytes =>
                let! _ := write (join dir "memory.max") (pretty bytes) in
                write (join dir "memory.swap.max") "0"
            | None => cg_ret tt
            end in
  write (join dir "pids.max") (pretty max_pids).

(** [create_group]: the directory of the group.  A group whose ceilings cannot
    be set is dropped. *)
Definition create_group (parent label : string) (memory : option Z) (max_pids : Z) : Cg string :=
  if max_pids =? 0 then cg_fail (io_other "pids.max must be at least 1")
  else
    let dir := join parent ("ak-" +:+ label) in
    let! _ := create_dir dir in
    let! r := cg_try (set_ceilings dir memory max_pids) in
    match r with
    | Ok _ => cg_ret dir
    | Err e => let! _ := drop_group dir in cg_fail e
    end.

Definition procs_file (dir : string) : string := join dir "cgroup.procs".

(** * Counters *)

Definition peak_memory (dir : string) : Cg (option Z) :=
  let! r := cg_try (read_control (join dir "memory.peak")) in
  cg_ret (match r with Ok s => parse_usize s | Err _ => None end).

Definition oom_kills (dir : string) : Cg (option Z) := event_value (join dir "memory.events") "oom_kill".
Definition pid_limit_hits (dir : string) : Cg (option Z) := event_value (join dir "pids.events") "max".

Definition cpu_usage_ms (dir : string) : Cg (option Z) :=
  let! us := event_value (join dir "cpu.stat") "usage_usec" in cg_ret ((fun us => us / 1000) <$> us).

Definition populated (dir : string) : Cg (option bool) :=
  let! n := event_value (join dir "cgroup.events") "populated" in cg_ret ((fun n => negb (n =? 0)) <$> n).

(** * The CPU monitor *)

Inductive Monitor : Type := Watching | Released | Emptied | Exhausted.

Definition at_least (n : option Z) (limit : Z) : bool := match n with Some used => limit <=? used | None => false end.

(** One turn of the loop of [enforce_cpu_budget]; [Exhausted] is the flag
    [cpu_exhausted], set before the kill. *)
Definition monitor_tick (dir : string) (cpu_ms : Z) : Cg Monitor := fun h =>
  if negb (h_alive h) then (Ok Released, h)
  else
    (let! used := cpu_usage_ms dir in
     if at_least used cpu_ms then
       let! _ := cg_try (kill_tree dir) in cg_ret Exhausted
     else
       let! live := populated dir in
       cg_ret (if bool_decide (live = Some false) then Emptied else Watching)) h.

(** The loop, for [ticks] turns. *)
Fixpoint monitor_loop (ticks : nat) (dir : string) (cpu_ms : Z) : Cg Monitor :=
  match ticks with
  | O => cg_ret Watching
  | S ticks =>
      let! m := monitor_tick dir cpu_ms in
      match m with Watching => monitor_loop ticks dir cpu_ms | _ => cg_ret m end
  end.

(** No monitor is started for a budget of zero. *)
Definition enforce_cpu_budget (ticks : nat) (dir : string) (cpu_ms : Z) : Cg (option Monitor) :=
  if cpu_ms =? 0 then cg_ret None else let! m := monitor_loop ticks dir cpu_ms in cg_ret (Some m).
End calls.

(** * What was called *)

Section cg_lemmas.
Context {A B : Type}.
Implicit Types (m : Cg A) (k : A -> Cg B) (h : History).

Lemma cg_bind_Ok m k h b h' : cg_bind m k h = (Ok b, h') <-> exists a h1, m h = (Ok a, h1) /\ k a h1 = (Ok b, h').
Proof. unfold cg_bind. destruct (m h) as [[a|e] h1]; naive_solver. Qed.

Lemma cg_try_Ok m h r h' : cg_try m h = (Ok r, h') <-> m h = (r, h').
Proof. unfold cg_try. destruct (m h). naive_solver. Qed.

Lemma call_Ok (r : History -> result IoErr A) c h a h' : call r c h = (Ok a, h') <-> r h = Ok a /\ h' = h ++ [c (Ok a)].
Proof. unfold call. split; [|intros [-> ->]; done]. intros [= Hr <-]. by rewrite Hr. Qed.

Lemma cg_ret_Ok (a a' : A) h h' : cg_ret a h = (Ok a', h') <-> a = a' /\ h = h'.
Proof. unfold cg_ret. naive_solver. Qed.
End cg_lemmas.

(** Takes a successful computation apart. *)
Ltac cg_inv :=
  repeat match goal with
  | H : cg_bind _ _ _ = (Ok _, _) |- _ => apply cg_bind_Ok in H as (? & ? & ? & H)
  | H : cg_try _ _ = (Ok _, _) |- _ => apply (proj1 (cg_try_Ok _ _ _ _)) in H
  | H : call _ _ _ = (Ok _, _) |- _ => apply call_Ok in H as [_ ->]
  | H : cg_ret _ _ = (Ok _, _) |- _ => apply cg_ret_Ok in H as [? ?]; subst
  | H : cg_fail _ _ = (Ok _, _) |- _ => discriminate H
  end.

Section group_lemmas.
Context `{!CgroupHost}.

Lemma ceilings_trace dir memory max_pids h h' :
  set_ceilings dir memory max_pids h = (Ok tt, h') ->
  h' = h ++ match memory with
            | Some bytes => [CWrite (join dir "memory.max") (pretty bytes) (Ok tt); CWrite (join dir "memory.swap.max") "0" (Ok tt)]
            | None => []
            end ++ [CWrite (join dir "pids.max") (pretty max_pids) (Ok tt)].
Proof.
  unfold set_ceilings, write. destruct memory; intros Hs; cg_inv; repeat match goal with u : () |- _ => destruct u end;
  by rewrite <- ?app_assoc.
Qed.

Lemma read_control_trace p h s h' :
  read_control p h = (Ok s, h') -> exists raw, s = trim raw /\ h' = h ++ [CRead p (Ok raw)].
Proof. unfold read_control, read_to_string. intros Hr. cg_inv. eauto. Qed.

(** What is seen of a process that entered a group and was killed with it. *)
Definition attachment (group : string) (pid : Z) (members : string) : History :=
  [CSpawn (join group "cgroup.procs") (Ok pid); CRead (join group "cgroup.procs") (Ok members);
   CWrite (join group "cgroup.kill") "1" (Ok tt); CWait pid (Ok false)].

Lemma attachment_trace linux group h h' :
  verify_process_attachment linux group h = (Ok tt, h') ->
  exists pid members, attached (trim members) pid = true /\ h' = h ++ attachment group pid members.
Proof.
  unfold verify_process_attachment. destruct linux; [|done]. cbn [negb]. destruct (has_nul _); [done|].
  unfold spawn_stopped. intros Hv. cg_inv. rename x into pid. destruct x1 as [[]|e]; cg_inv.
  match goal with Hc : attach_check _ _ _ _ = _ |- _ => rename Hc into Hcheck end.
  unfold attach_check in Hcheck. apply cg_bind_Ok in Hcheck as (m & h1 & (members & -> & ->)%read_control_trace & Hcheck).
  destruct (attached (trim members) pid) eqn:Ea; [|done]. cbn [negb] in Hcheck. unfold write, wait in Hcheck. cg_inv.
  destruct x1; cg_inv. exists pid, members. split; [done|]. by rewrite <- !app_assoc; destruct x.
Qed.
(** The controllers that are there, and the ones that had to be switched on. *)
Definition controllers_on (parent : string) (calls : History) : Prop :=
  exists available enabled, let missing := List.filter (fun c => negb (lists (trim enabled) c)) CONTROLLERS in
  (forall c, c ∈ CONTROLLERS -> lists (trim available) c = true)
  /\ calls = [CRead (join parent "cgroup.controllers") (Ok available); CRead (join parent "cgroup.subtree_control") (Ok enabled)]
       ++ match missing with
          | [] => []
          | _ => [CWrite (join parent "cgroup.subtree_control") (str_join " " (map (fun c => "+" +:+ c) missing)) (Ok tt)]
          end.

Lemma controllers_trace parent h h' :
  ensure_controllers parent h = (Ok tt, h') -> exists calls, h' = h ++ calls /\ controllers_on parent calls.
Proof.
  unfold ensure_controllers. intros (a & h1 & (available & -> & ->)%read_control_trace & He)%cg_bind_Ok.
  destruct (List.find _ _) as [needed|] eqn:Ef; [done|]. cbv zeta in He.
  apply cg_bind_Ok in He as (b & h2 & (enabled & -> & ->)%read_control_trace & He).
  assert (forall c, c ∈ CONTROLLERS -> lists (trim available) c = true) as Hall.
  { intros c Hc%list_elem_of_In. apply (find_none _ _ Ef) in Hc. by destruct (lists _ c). }
  destruct (List.filter _ CONTROLLERS) as [|c0 rest] eqn:Em.
  - cg_inv. eexists. split; [by rewrite <- app_assoc|]. exists available, enabled. by rewrite Em.
  - unfold write in He. cg_inv. eexists. split; [by rewrite <- !app_assoc|]. exists available, enabled. by rewrite Em.
Qed.

(** Everything that a parent had to stand up to. *)
Definition proof_of (parent label : string) (calls : History) : Prop :=
  let probe := join parent ("ak-probe-" +:+ label) in
  exists ctl cpu pid members removed,
    controllers_on parent ctl /\ attached (trim members) pid = true
    /\ calls = CStatfs parent (Ok CGROUP2_SUPER_MAGIC) :: ctl
         ++ [CMkdir probe (Ok tt); CWrite (join probe "memory.max") "1073741824" (Ok tt);
             CWrite (join probe "memory.swap.max") "0" (Ok tt); CWrite (join probe "pids.max") "64" (Ok tt);
             CRead (join probe "cpu.stat") (Ok cpu)]
         ++ attachment probe pid members ++ [CRmdir probe removed].

Lemma require_trace linux parent h h' :
  require_cgroup2fs linux parent h = (Ok tt, h') -> linux = true /\ h' = h ++ [CStatfs parent (Ok CGROUP2_SUPER_MAGIC)].
Proof.
  unfold require_cgroup2fs, statfs. destruct linux; [|done]. cbn [negb]. destruct (has_nul parent); [done|].
  intros (t & h1 & [_ ->]%call_Ok & Hr)%cg_bind_Ok. destruct (t =? CGROUP2_SUPER_MAGIC) eqn:E; cg_inv.
  apply Z.eqb_eq in E. by rewrite E.
Qed.

Lemma limits_trace linux probe h h' :
  limits_check linux probe h = (Ok tt, h') ->
  exists cpu pid members, attached (trim members) pid = true
    /\ h' = h ++ [CWrite (join probe "memory.max") "1073741824" (Ok tt);
             CWrite (join probe "memory.swap.max") "0" (Ok tt); CWrite (join probe "pids.max") "64" (Ok tt);
             CRead (join probe "cpu.stat") (Ok cpu)] ++ attachment probe pid members.
Proof.
  unfold limits_check, write. intros Hl. cg_inv.
  match goal with Hc : read_control _ _ = _ |- _ => apply read_control_trace in Hc as (cpu & -> & ->) end.
  apply attachment_trace in Hl as (pid & members & Ha & ->). exists cpu, pid, members. split; [done|].
  repeat match goal with u : () |- _ => destruct u end. by rewrite <- !app_assoc.
Qed.

Lemma verify_trace linux label parent h h' :
  verify linux label parent h = (Ok tt, h') -> linux = true /\ exists calls, h' = h ++ calls /\ proof_of parent label calls.
Proof.
  unfold verify. intros ([] & h1 & [Hl ->]%require_trace & Hv)%cg_bind_Ok. split; [done|].
  apply cg_bind_Ok in Hv as ([] & h2 & (ctl & -> & Hctl)%controllers_trace & Hv). cbv zeta in Hv.
  apply cg_bind_Ok in Hv as ([] & h3 & [_ ->]%call_Ok & Hv).
  apply cg_bind_Ok in Hv as (r & h4 & Hlim%(proj1 (cg_try_Ok _ _ _ _)) & Hv).
  apply cg_bind_Ok in Hv as (removed & h5 & Hrm%(proj1 (cg_try_Ok _ _ _ _)) & Hv). injection Hv as -> ->.
  apply limits_trace in Hlim as (cpu & pid & members & Ha & ->). injection Hrm as Hrm <-. rewrite Hrm.
  eexists. split; [by rewrite <- !app_assoc|]. by exists ctl, cpu, pid, members, removed.
Qed.
(** Nothing takes a call back. *)
Definition grows {A} (m : Cg A) : Prop := forall h, h `prefix_of` (m h).2.

Lemma grows_ret {A} (a : A) : grows (cg_ret a).
Proof. by intros h. Qed.
Lemma grows_fail {A} e : grows (cg_fail (A := A) e).
Proof. by intros h. Qed.
Lemma grows_of {A} (r : result IoErr A) : grows (cg_of r).
Proof. by intros h. Qed.
Lemma grows_call {A} (r : History -> result IoErr A) c : grows (call r c).
Proof. intros h. by apply prefix_app_r. Qed.
Lemma grows_try {A} (m : Cg A) : grows m -> grows (cg_try m).
Proof. intros Hm h. unfold cg_try. specialize (Hm h). by destruct (m h). Qed.
Lemma grows_bind {A B} (m : Cg A) (k : A -> Cg B) : grows m -> (forall a, grows (k a)) -> grows (cg_bind m k).
Proof.
  intros Hm Hk h. unfold cg_bind. specialize (Hm h). destruct (m h) as [[a|e] h1]; [|done]. cbn in Hm.
  etrans; [done|]. apply Hk.
Qed.
Lemma grows_kill pid : grows (kill_child pid).
Proof. intros h. by apply prefix_app_r. Qed.
End group_lemmas.

Create HintDb cg_grows.
#[export] Hint Resolve grows_ret grows_fail grows_of grows_call grows_try grows_bind grows_kill : cg_grows.

(** Follows the branches of a computation. *)
Ltac grows := repeat (eauto 3 with cg_grows; first [apply grows_bind; [|intros ?] | apply grows_try | case_match]).

Section probe_lemmas.
Context `{!CgroupHost}.

Lemma read_control_grows p : grows (read_control p).
Proof. unfold read_control, read_to_string. grows. Qed.
#[local] Hint Resolve read_control_grows : cg_grows.

Lemma attachment_grows linux group : grows (verify_process_attachment linux group).
Proof. unfold verify_process_attachment, attach_check, spawn_stopped, wait, write. grows. Qed.
#[local] Hint Resolve attachment_grows : cg_grows.

Lemma verify_grows linux label parent : grows (verify linux label parent).
Proof. unfold verify, require_cgroup2fs, ensure_controllers, limits_check, statfs, create_dir, remove_dir, write. grows. Qed.

Lemma self_cgroup_grows : grows self_cgroup_dir.
Proof. unfold self_cgroup_dir, read_to_string. grows. Qed.

Lemma first_verified_trace linux label candidates parent h h' :
  first_verified linux label candidates h = (Ok (Some parent), h') ->
  linux = true /\ parent ∈ candidates
  /\ exists pre n calls, h `prefix_of` pre /\ h' = pre ++ calls /\ proof_of parent (label n) calls.
Proof.
  revert h. induction candidates as [|c rest IH]; intros h Hf; cbn [first_verified] in Hf; [done|].
  apply cg_bind_Ok in Hf as (r & h1 & Hv%(proj1 (cg_try_Ok _ _ _ _)) & Hf). destruct r as [[]|e].
  - cg_inv. injection H0 as ->. apply verify_trace in Hv as (Hl & calls & -> & Hp).
    split_and!; [done|by left|]. by exists h, (length rest), calls.
  - apply IH in Hf as (Hl & Hin & pre & n & calls & Hpre & -> & Hp). split_and!; [done|by right|].
    exists pre, n, calls. split_and!; [|done..]. etrans; [|done].
    pose proof (verify_grows linux (label (length rest)) c h) as Hg. by rewrite Hv in Hg.
Qed.
End probe_lemmas.

(** Whenever the construction probe returns a parent, it is the configured one, the one of
    the environment or the process's own, and the last calls made are a complete proof on it. *)
Lemma probe_cgroups_trace `{!CgroupHost} linux label configured variable h parent h' :
  probe_cgroups linux label configured variable h = (Ok (Some parent), h') ->
  linux = true
  /\ (configured = Some parent \/ variable = Some parent
      \/ exists h1, self_cgroup_dir h = (Ok (Some parent), h1))
  /\ exists pre n calls, h `prefix_of` pre /\ h' = pre ++ calls /\ proof_of parent (label n) calls.
Proof.
  unfold probe_cgroups. destruct linux; [|done]. cbn [negb]. intros (own & h1 & Hown & Hf)%cg_bind_Ok.
  apply first_verified_trace in Hf as (_ & Hin & pre & n & calls & Hpre & -> & Hp). split_and!; [done| |].
  - apply elem_of_app in Hin as [Hin|Hin]; [left; destruct configured; set_solver|].
    apply elem_of_app in Hin as [Hin|Hin]; [right; left; destruct variable; set_solver|].
    right; right. exists h1. destruct own; set_solver.
  - exists pre, n, calls. split_and!; [|done..]. etrans; [|done]. pose proof (self_cgroup_grows h) as Hg.
    by rewrite Hown in Hg.
Qed.

(** * Properties *)

Section step_group.
Context `{!CgroupHost}.
Implicit Types (dir : string) (h : History).

Definition gave_up_or_gone (rs : list (result IoErr ())) : Prop :=
  length rs = 50%nat
  \/ match last rs with Some (Ok _) => True | Some (Err e) => io_not_found e = true | None => False end.

Lemma remove_retry_trace n dir h :
  exists rs, remove_retry n dir h = (Ok tt, h ++ map (CRmdir dir) rs) /\ (length rs <= n)%nat
    /\ (length rs = n \/ match last rs with Some (Ok _) => True | Some (Err e) => io_not_found e = true | None => False end)
    /\ (0 < n -> 0 < length rs)%nat.
Proof.
  revert h. induction n as [|n IH]; intros h.
  { exists []. rewrite app_nil_r. split_and!; cbn; auto; lia. }
  cbn [remove_retry]. unfold cg_bind, cg_try, remove_dir, call. destruct (h_rmdir h dir) as [[]|e] eqn:Er.
  { exists [Ok tt]. split_and!; cbn; auto; lia. }
  destruct (io_not_found e) eqn:En; [exists [Err e]; split_and!; cbn; auto; lia|].
  destruct (IH (h ++ [CRmdir dir (Err e)])) as (rs & -> & Hlen & Hend & _). exists (Err e :: rs).
  rewrite <- app_assoc. split_and!; [done|cbn; lia| |cbn; lia]. destruct Hend as [?|Hend]; [left; cbn; lia|right].
  destruct rs as [|r rs]; [done|]. by rewrite last_cons_cons.
Qed.

(** Dropping a group kills it and tries at most fifty times to remove it. *)
Lemma drop_group_trace dir h :
  exists k rs, drop_group dir h = (Ok tt, h ++ CWrite (join dir "cgroup.kill") "1" k :: map (CRmdir dir) rs)
    /\ (1 <= length rs <= 50)%nat /\ gave_up_or_gone rs.
Proof.
  destruct (remove_retry_trace 50 dir (h ++ [CWrite (join dir "cgroup.kill") "1" (h_write h (join dir "cgroup.kill") "1")]))
    as (rs & Heq & Hlen & Hend & Hpos).
  exists (h_write h (join dir "cgroup.kill") "1"), rs. split_and!; [|lia..|done].
  unfold drop_group, kill_tree, write, cg_bind, cg_try, call. rewrite Heq, <- app_assoc. done.
Qed.

Definition ceilings (dir : string) (memory : option Z) (max_pids : Z) : History :=
  match memory with
  | Some bytes => [CWrite (join dir "memory.max") (pretty bytes) (Ok tt); CWrite (join dir "memory.swap.max") "0" (Ok tt)]
  | None => []
  end ++ [CWrite (join dir "pids.max") (pretty max_pids) (Ok tt)].

Lemma set_ceilings_grows dir memory max_pids : grows (set_ceilings dir memory max_pids).
Proof. unfold set_ceilings, write. grows. Qed.

(** A step's group exists with all its ceilings or not at all.  On success the calls were
    making the directory, the memory ceiling with swap off when there is a memory budget, and
    the process ceiling, each answered with success.  On failure no directory was made, or the
    group that was made was killed and its removal tried until it was gone, at most fifty
    times; a process ceiling of zero is refused before anything is touched. *)
Theorem group_all_or_nothing parent label memory max_pids h :
  let dir := join parent ("ak-" +:+ label) in
  let '(r, h') := create_group parent label memory max_pids h in
  match r with
  | Ok d => d = dir /\ max_pids <> 0 /\ h' = h ++ CMkdir dir (Ok tt) :: ceilings dir memory max_pids
  | Err e =>
      (max_pids = 0 /\ h' = h) \/ h' = h ++ [CMkdir dir (Err e)]
      \/ exists set k rs, h' = h ++ CMkdir dir (Ok tt) :: set ++ CWrite (join dir "cgroup.kill") "1" k :: map (CRmdir dir) rs
           /\ (1 <= length rs <= 50)%nat /\ gave_up_or_gone rs
  end.
Proof.
  intros dir. unfold create_group. fold dir. destruct (Z.eqb_spec max_pids 0) as [->|Hne]; [left; done|].
  unfold cg_bind at 1, create_dir, call. destruct (h_mkdir h dir) as [[]|e] eqn:Em; [|right; by left].
  unfold cg_bind at 1, cg_try at 1. pose proof (set_ceilings_grows dir memory max_pids (h ++ [CMkdir dir (Ok tt)])) as [set Hg].
  destruct (set_ceilings dir memory max_pids _) as [[[]|e] h1] eqn:Es.
  - apply ceilings_trace in Es as ->. cbn. split_and!; [done..|]. by rewrite <- app_assoc.
  - cbn in Hg. subst h1. destruct (drop_group_trace dir ((h ++ [CMkdir dir (Ok tt)]) ++ set)) as (k & rs & Hd & Hlen & Hend).
    unfold cg_bind. rewrite Hd. cbn. right; right. exists set, k, rs. split_and!; [|lia..|done]. by rewrite <- !app_assoc.
Qed.

Lemma created parent label memory max_pids h d h' :
  create_group parent label memory max_pids h = (Ok d, h') ->
  let dir := join parent ("ak-" +:+ label) in
  d = dir /\ max_pids <> 0 /\ h' = h ++ CMkdir dir (Ok tt) :: ceilings dir memory max_pids.
Proof.
  intros Hc. pose proof (group_all_or_nothing parent label memory max_pids h) as Hall. by rewrite Hc in Hall.
Qed.

(** * The monitor *)

Lemma event_value_call p key h : exists n r, event_value p key h = (Ok n, h ++ [CRead p r]).
Proof.
  unfold event_value, cg_bind, cg_try, read_control, read_to_string, cg_bind, call.
  destruct (h_read h p) eqn:E; cbn; eauto.
Qed.

Lemma cpu_usage_call dir h : exists n r, cpu_usage_ms dir h = (Ok n, h ++ [CRead (join dir "cpu.stat") r]).
Proof. unfold cpu_usage_ms, cg_bind. destruct (event_value_call (join dir "cpu.stat") "usage_usec" h) as (n & r & ->). cbn. eauto. Qed.

Lemma populated_call dir h : exists b r, populated dir h = (Ok b, h ++ [CRead (join dir "cgroup.events") r]).
Proof. unfold populated, cg_bind. destruct (event_value_call (join dir "cgroup.events") "populated" h) as (n & r & ->). cbn. eauto. Qed.

Inductive TickEnd (dir : string) (cpu_ms : Z) (h : History) : Monitor -> History -> Prop :=
| tick_released : h_alive h = false -> TickEnd dir cpu_ms h Released h
| tick_killed used r k : h_alive h = true -> cpu_usage_ms dir h = (Ok (Some used), h ++ [CRead (join dir "cpu.stat") r]) ->
    cpu_ms <= used -> TickEnd dir cpu_ms h Exhausted (h ++ [CRead (join dir "cpu.stat") r; CWrite (join dir "cgroup.kill") "1" k])
| tick_on used r live r' : h_alive h = true -> (cpu_usage_ms dir h).1 = Ok used -> at_least used cpu_ms = false ->
    (populated dir (h ++ [CRead (join dir "cpu.stat") r])).1 = Ok live ->
    TickEnd dir cpu_ms h (if bool_decide (live = Some false) then Emptied else Watching)
      (h ++ [CRead (join dir "cpu.stat") r; CRead (join dir "cgroup.events") r']).

Lemma tick_cases dir cpu_ms h : exists m h', monitor_tick dir cpu_ms h = (Ok m, h') /\ TickEnd dir cpu_ms h m h'.
Proof.
  unfold monitor_tick. destruct (h_alive h) eqn:Ea; cbn [negb]; [|eexists _, _; split; [done|by constructor]].
  unfold cg_bind at 1. destruct (cpu_usage_call dir h) as (used & r & Hu). rewrite Hu.
  destruct (at_least used cpu_ms) eqn:El.
  - unfold cg_bind, cg_try, kill_tree, write, call. cbn. destruct used as [used|]; [|done]. cbn in El.
    eexists _, _. split; [done|]. rewrite <- app_assoc. eapply tick_killed; [done..|lia].
  - unfold cg_bind. destruct (populated_call dir (h ++ [CRead (join dir "cpu.stat") r])) as (live & r' & Hp). rewrite Hp.
    eexists _, _. split; [done|]. rewrite <- app_assoc. eapply tick_on; [done|by rewrite Hu|done|by rewrite Hp].
Qed.

(** The calls end with a reading that is at least the budget, and the kill. *)
Definition spent_then_killed (dir : string) (cpu_ms : Z) (h h' : History) : Prop :=
  exists h0 used r k, h `prefix_of` h0
    /\ cpu_usage_ms dir h0 = (Ok (Some used), h0 ++ [CRead (join dir "cpu.stat") r]) /\ cpu_ms <= used
    /\ h' = h0 ++ [CRead (join dir "cpu.stat") r; CWrite (join dir "cgroup.kill") "1" k].

Lemma monitor_kills_late ticks dir cpu_ms h h' :
  monitor_loop ticks dir cpu_ms h = (Ok Exhausted, h') -> spent_then_killed dir cpu_ms h h'.
Proof.
  revert h. induction ticks as [|ticks IH]; intros h Hm; cbn [monitor_loop] in Hm; [done|].
  apply cg_bind_Ok in Hm as (m & h1 & Ht & Hm). destruct (tick_cases dir cpu_ms h) as (m' & h2 & Ht' & Hend).
  rewrite Ht in Ht'. injection Ht' as <- <-. destruct Hend as [|used r k ? Hu Hle|used r live r' ? ? ? ?]; [done|..].
  - injection Hm as <-. by exists h, used, r, k.
  - case_bool_decide; [done|]. apply IH in Hm as (h0 & u & r0 & k & Hpre & ?). exists h0, u, r0, k.
    split; [|done]. etrans; [|done]. by apply prefix_app_r.
Qed.

Lemma monitor_spares ticks dir cpu_ms h m h' :
  monitor_loop ticks dir cpu_ms h = (Ok m, h') -> m <> Exhausted ->
  exists cs, h' = h ++ cs /\ forall k, CWrite (join dir "cgroup.kill") "1" k ∉ cs.
Proof.
  revert h. induction ticks as [|ticks IH]; intros h Hm Hx; cbn [monitor_loop] in Hm.
  { cg_inv. exists []. rewrite app_nil_r. split; [done|]. by intros k []%not_elem_of_nil. }
  apply cg_bind_Ok in Hm as (m' & h1 & Ht & Hm). destruct (tick_cases dir cpu_ms h) as (m2 & h2 & Ht' & Hend).
  rewrite Ht in Ht'. injection Ht' as <- <-. destruct Hend as [|used r k ? Hu Hle|used r live r' ? ? ? ?].
  - cg_inv. exists []. rewrite app_nil_r. split; [done|]. by intros k []%not_elem_of_nil.
  - by cg_inv.
  - case_bool_decide.
    + cg_inv. eexists. split; [done|]. intros k. set_solver.
    + apply IH in Hm as (cs & -> & Hcs); [|done]. eexists. split; [by rewrite <- app_assoc|]. intros k. specialize (Hcs k). set_solver.
Qed.

Lemma monitor_must_kill n dir cpu_ms h :
  (forall h', h `prefix_of` h' -> h_alive h' = true) ->
  (forall h', h `prefix_of` h' -> (populated dir h').1 <> Ok (Some false)) ->
  (forall h', h `prefix_of` h' -> (length h + n <= length h')%nat ->
     exists used, (cpu_usage_ms dir h').1 = Ok (Some used) /\ cpu_ms <= used) ->
  exists h', monitor_loop (S n) dir cpu_ms h = (Ok Exhausted, h').
Proof.
  revert h. induction n as [|n IH]; intros h Halive Hpop Hcpu; destruct (tick_cases dir cpu_ms h) as (m & h1 & Ht & Hend).
  all: cbn [monitor_loop]; unfold cg_bind at 1; rewrite Ht; destruct Hend as [Ha|used r k Ha Hu Hle|used r live r' Ha Hu Hle Hl].
  1,4: rewrite Halive in Ha; [done|by exists []; rewrite app_nil_r].
  1,3: by eexists.
  - destruct (Hcpu h) as (u & Hu' & ?); [done|lia|]. rewrite Hu in Hu'. injection Hu' as ->. cbn in Hle. lia.
  - case_bool_decide as Hf. { rewrite Hf in Hl. apply Hpop in Hl; [done|by apply prefix_app_r]. }
    set (h1 := h ++ _). assert (h `prefix_of` h1) as Hpre by by apply prefix_app_r. apply IH.
    + intros h' ?. apply Halive. by etrans.
    + intros h' ?. apply Hpop. by etrans.
    + intros h' ? Hlen. apply Hcpu; [by etrans|]. unfold h1 in Hlen. rewrite length_app in Hlen. cbn in Hlen. lia.
Qed.

Lemma event_value_grows p key : grows (event_value p key).
Proof. intros h. destruct (event_value_call p key h) as (n & r & ->). by apply prefix_app_r. Qed.

Lemma cpu_usage_grows dir : grows (cpu_usage_ms dir).
Proof. intros h. destruct (cpu_usage_call dir h) as (n & r & ->). by apply prefix_app_r. Qed.

Lemma peak_grows dir : grows (peak_memory dir).
Proof. unfold peak_memory. apply grows_bind; [apply grows_try, read_control_grows|intros r; apply grows_ret]. Qed.

Lemma kill_tree_grows dir : grows (kill_tree dir).
Proof. apply grows_call. Qed.

Lemma drop_group_grows dir : grows (drop_group dir).
Proof. intros h. destruct (drop_group_trace dir h) as (k & rs & -> & _). by apply prefix_app_r. Qed.

Lemma create_group_grows parent label memory max_pids : grows (create_group parent label memory max_pids).
Proof. unfold create_group, create_dir. grows. Qed.

Lemma tick_grows dir cpu_ms : grows (monitor_tick dir cpu_ms).
Proof. intros h. destruct (tick_cases dir cpu_ms h) as (m & h' & -> & []); cbn; [done|by apply prefix_app_r..]. Qed.

Lemma enforce_grows ticks dir cpu_ms : grows (enforce_cpu_budget ticks dir cpu_ms).
Proof.
  unfold enforce_cpu_budget. destruct (cpu_ms =? 0); [apply grows_ret|]. apply grows_bind; [|intros m; apply grows_ret].
  induction ticks as [|ticks IH]; [apply grows_ret|]. cbn [monitor_loop]. apply grows_bind; [apply tick_grows|].
  intros []; [done|apply grows_ret..].
Qed.

(** C22: The CPU budget of a group is enforced, and not before it is spent.  Whatever the
    host answers and however many turns the monitor makes, it starts for every budget but
    zero; if it sets the exhausted flag, the last two calls are a reading of the group's CPU
    time that is at least the budget and the kill of the whole tree, and if it does not, it
    did not kill.  And while the group is held and has members, if from some point on its
    accounted CPU time is at least the budget, the monitor reaches that point in as many turns
    and does set the flag, with that reading and that kill. *)
Theorem cpu_budget_enforced dir cpu_ms h :
  (forall ticks m h', enforce_cpu_budget ticks dir cpu_ms h = (Ok m, h') ->
     (m = None <-> cpu_ms = 0)
     /\ match m with
        | Some Exhausted => spent_then_killed dir cpu_ms h h'
        | _ => exists cs, h' = h ++ cs /\ forall k, CWrite (join dir "cgroup.kill") "1" k ∉ cs
        end)
  /\ forall n,
     cpu_ms <> 0 ->
     (forall h', h `prefix_of` h' -> h_alive h' = true) ->
     (forall h', h `prefix_of` h' -> (populated dir h').1 <> Ok (Some false)) ->
     (forall h', h `prefix_of` h' -> (length h + n <= length h')%nat ->
        exists used, (cpu_usage_ms dir h').1 = Ok (Some used) /\ cpu_ms <= used) ->
     exists h', enforce_cpu_budget (S n) dir cpu_ms h = (Ok (Some Exhausted), h') /\ spent_then_killed dir cpu_ms h h'.
Proof.
  split.
  - intros ticks m h' He. unfold enforce_cpu_budget in He. destruct (Z.eqb_spec cpu_ms 0) as [->|Hnz].
    { cg_inv. split; [done|]. exists []. rewrite app_nil_r. split; [done|]. by intros k []%not_elem_of_nil. }
    apply cg_bind_Ok in He as (m' & h1 & Hm & He). cg_inv. split; [done|].
    destruct m'; first [by eapply monitor_kills_late | by eapply monitor_spares].
  - intros n Hnz Halive Hpop Hcpu. destruct (monitor_must_kill n dir cpu_ms h Halive Hpop Hcpu) as [h' Hm].
    exists h'. split; [|by eapply monitor_kills_late]. unfold enforce_cpu_budget. destruct (Z.eqb_spec cpu_ms 0); [done|].
    unfold cg_bind. by rewrite Hm.
Qed.
End step_group.

(** * A host *)

Module CgroupDemo.
Definition lf : string := String "010" EmptyString.

(** A host with one delegated parent, whose group spends 90 ms of CPU after four calls. *)
Definition answer (h : History) (p : string) : result IoErr string :=
  if ends_with "cgroup.controllers" p then Ok ("cpuset cpu io memory pids" +:+ lf)
  else if ends_with "cgroup.subtree_control" p then Ok ("memory" +:+ lf)
  else if ends_with "cpu.stat" p then Ok ("usage_usec " +:+ (if Nat.ltb (length h) 4 then "1500" else "90000") +:+ lf +:+ "user_usec 7" +:+ lf)
  else if ends_with "cgroup.events" p then Ok ("populated 1" +:+ lf +:+ "frozen 0" +:+ lf)
  else if ends_with "cgroup.procs" p then Ok ("4242" +:+ lf)
  else if String.eqb p "/proc/self/cgroup" then Ok ("0::/user.slice" +:+ lf)
  else Err (mkIo true "No such file or directory").

#[local] Instance host : CgroupHost := {|
  h_statfs _ p := Ok (if starts_with "/sys/fs/cgroup" p then CGROUP2_SUPER_MAGIC else 0xef53);
  h_read := answer;
  h_write _ _ _ := Ok tt;
  h_mkdir _ _ := Ok tt;
  h_rmdir _ _ := Ok tt;
  h_spawn _ _ := Ok 4242;
  h_wait _ _ := Ok false;
  h_alive _ := true;
|}.

Lemma cpu_budget_enforced_witness :
  exists h', enforce_cpu_budget 5 "/sys/fs/cgroup/ak-1" 90 [] = (Ok (Some Exhausted), h').
Proof.
  destruct (cpu_budget_enforced "/sys/fs/cgroup/ak-1" 90 []) as [_ Hlive]. destruct (Hlive 4%nat) as (h' & Hk & _).
  - done.
  - done.
  - intros h' _. vm_compute. congruence.
  - intros h' _ Hlen. exists 90. split; [|lia]. cbn in Hlen.
    assert (answer h' "/sys/fs/cgroup/ak-1/cpu.stat" = Ok ("usage_usec 90000" +:+ lf +:+ "user_usec 7" +:+ lf)) as Hr.
    { unfold answer. assert (Nat.ltb (length h') 4 = false) as -> by (apply Nat.ltb_ge; lia). vm_compute. reflexivity. }
    unfold cpu_usage_ms, event_value, read_control, read_to_string, cg_bind, cg_try, call. cbn [h_read host].
    change (join "/sys/fs/cgroup/ak-1" "cpu.stat") with "/sys/fs/cgroup/ak-1/cpu.stat". rewrite Hr. vm_compute. reflexivity.
  - by exists h'.
Defined.
End CgroupDemo.
