(* ===== verification/LocalBackend.v ===== *)
(** The local backend, [backends/local/src/lib.rs]: its construction, the
    decision to grant egress, the command a step runs as, running and metering
    it, the operations on process sessions, and the backend's interface.

    [LState] is what the backend and its host share: the file system, the
    sessions, whether the proxy runs, the calls on control groups and a log of
    everything else that leaves the backend: a command is logged with the process
    id of its child, if it came to life.  The rest of the host is the class
    [LocalHost]; its answers may differ at every tick.  A child and the monitor
    of its CPU time run together: the host says how many turns the monitor made
    before the counters of the group are read, or before a session is adopted;
    the turns that a session's monitor makes later show in the counters of its
    group.  Paths of the file system are
    lists of names, and text where they are handed to a command. *)

From stdpp Require Import pretty.
From S2P Require Import Prelude Json Canonical Budget Capability Types Router B64 Utf8 Effect Path Egress EgressProxy.
From S2P Require Import HostFs LocalFiles LocalSandbox LocalProcess Cgroup.

Open Scope Z_scope.

(** * Data *)

Record LocalBackendConfig := mkLocalConfig {
  lc_root : HostPath;
  max_capture_bytes : Z;              (* usize *)
  max_log_buffer_bytes : Z;           (* usize *)
  max_wall_clock : Z;                 (* nanoseconds *)
  lc_egress : EgressConfig;
  max_file_bytes : Z;                 (* u64 *)
  dangerously_allow_unsandboxed : bool;
  egress_forwarder : option string;
  cgroup_parent : option string;
  max_pids : Z;                       (* u64 *)
}.

Definition config_new (root : HostPath) : LocalBackendConfig :=
  mkLocalConfig root (Z.shiftl 1 20) (Z.shiftl 1 20) (600 * 10 ^ 9) egress_default (Z.shiftl 4 30) false None None 512.

(** The verified route out of a network namespace. *)
Record NetnsEgress := mkNetns { ne_forwarder : string; ne_variant : list string; ne_sock_path : string }.

(** What construction settled: [lb_cgroups] is the parent of the groups. *)
Record LocalBackend := mkLocalBackend {
  lb_config : LocalBackendConfig;
  lb_tech : SandboxTech;
  lb_netns : option NetnsEgress;
  lb_cgroups : option string;
}.

(** A child as it is asked for: [c_cgroup] is the file it enters first, and the
    limits are those set between fork and exec. *)
Record Command := mkCommand {
  c_program : string;
  c_args : list string;
  c_cwd : option string;
  c_env : gmap string string;
  c_group : bool;
  c_cgroup : option string;
  c_rlimit_cpu : Z;                   (* seconds *)
  c_rlimit_fsize : Z;
  c_stdin : bool;
}.

(** What [wait4] reports; seconds and microseconds of user and system time. *)
Record Rusage := mkRusage { ru_utime : Z * Z; ru_stime : Z * Z; ru_maxrss : Z }.

Record Waited := mkWaited {
  w_exited : option Z;
  w_usage : Rusage;
  w_stdout : string;
  w_stderr : string;
}.

(** A child that was run under a deadline: its process id if it came to life,
    the turns of the CPU monitor meanwhile, whether the deadline passed, and how
    the reaping thread ended. *)
Record ChildRun := mkRun {
  cr_pid : option Z;
  cr_ticks : nat;
  cr_timed_out : bool;
  cr_joined : result string (result string Waited);
}.

(** An egress grant: its token and the port of the proxy. *)
Record Grant := mkGrant { g_token : string; g_port : Z }.

Inductive LEvent : Type :=
| ProxyStarted (port : Z)
| UnixServed (sock : string)
| Granted (token : string) (domains : list string) (bytes : Z)
| Revoked (token : string)
| Started (c : Command) (pid : option Z)
| Watched (dir : string) (cpu_ms : Z)
| KilledGroup (pid : Z)
| Signalled (c : KillCall)
| WroteStdin (process data : string).

Record LState := mkLState {
  l_fs : Fs;
  l_procs : gmap string ProcessSession;
  l_proxy : option Z;
  l_unix : bool;
  l_cg : list CgCall;
  l_log : list LEvent;
  l_tick : nat;
}.

Class LocalHost := {
  lh_linux : bool;
  lh_macos : bool;
  lh_path : option string;
  lh_fresh : nat -> string;
  lh_now : nat -> Z;
  lh_elapsed : nat -> Z;
  lh_proxy : nat -> result string Z;
  lh_unix : nat -> result string ();
  lh_profile : nat -> string -> result string string;
  lh_run : nat -> Z -> Command -> Fs -> ChildRun * Fs;
  lh_spawn : nat -> Command -> result string (option Z);
  lh_turns : nat -> nat;
  lh_stdin : nat -> string -> string -> result string ();
  lh_flush : nat -> string -> result string ();
  lh_counters : nat -> Counters;
  lh_kill : nat -> KillOs;
}.

(** * Computations of the backend *)

Definition L (A : Type) : Type := LState -> KernelResult A * LState.

Definition l_ret {A} (a : A) : L A := fun s => (Ok a, s).
Definition l_fail {A} (e : KernelError) : L A := fun s => (Err e, s).
Definition l_bind {A B} (m : L A) (k : A -> L B) : L B := fun s =>
  match m s with
  | (Ok a, s') => k a s'
  | (Err e, s') => (Err e, s')
  end.
Definition l_of {A} (r : KernelResult A) : L A := fun s => (r, s).
(** [cleanup] runs however [m] ends. *)
Definition l_finally {A} (m : L A) (cleanup : LState -> LState) : L A := fun s =>
  let '(r, s') := m s in (r, cleanup s').

Declare Scope local_scope.
Delimit Scope local_scope with local.
Notation "'do!' x := m 'in' k" := (l_bind m (fun x => k)) (at level 10, x pattern, m at level 100, k at level 200) : local_scope.
Open Scope local_scope.

Definition set_fs (fs : Fs) (s : LState) : LState :=
  mkLState fs (l_procs s) (l_proxy s) (l_unix s) (l_cg s) (l_log s) (l_tick s).
Definition set_procs (reg : gmap string ProcessSession) (s : LState) : LState :=
  mkLState (l_fs s) reg (l_proxy s) (l_unix s) (l_cg s) (l_log s) (l_tick s).
Definition set_proxy (port : Z) (s : LState) : LState :=
  mkLState (l_fs s) (l_procs s) (Some port) (l_unix s) (l_cg s) (l_log s) (l_tick s).
Definition set_unix (s : LState) : LState :=
  mkLState (l_fs s) (l_procs s) (l_proxy s) true (l_cg s) (l_log s) (l_tick s).
Definition set_cg (h : list CgCall) (s : LState) : LState :=
  mkLState (l_fs s) (l_procs s) (l_proxy s) (l_unix s) h (l_log s) (l_tick s).
Definition add_log (es : list LEvent) (s : LState) : LState :=
  mkLState (l_fs s) (l_procs s) (l_proxy s) (l_unix s) (l_cg s) (l_log s ++ es) (l_tick s).

Definition l_modify (f : LState -> LState) : L () := fun s => (Ok tt, f s).
Definition l_get {A} (f : LState -> A) : L A := fun s => (Ok (f s), s).
(** The number of the next question to the host. *)
Definition l_next : L nat := fun s =>
  (Ok (l_tick s), mkLState (l_fs s) (l_procs s) (l_proxy s) (l_unix s) (l_cg s) (l_log s) (S (l_tick s))).
Definition l_on_fs {A} (f : Fs -> KernelResult A * Fs) : L A := fun s =>
  let '(r, fs) := f (l_fs s) in (r, set_fs fs s).
(** A computation on control groups, its error as a value. *)
Definition l_cgroup {A} (m : Cg A) : L (result IoErr A) := fun s =>
  let '(r, h) := m (l_cg s) in (Ok r, set_cg h s).

Definition unavailable (reason : string) : KernelError := BackendUnavailable "local" reason.

(** [Path] as text. *)
Definition path_text (p : HostPath) : string := "/" +:+ str_join "/" p.

Section local.
Context `{!IoText, !Serde, !LocalHost, !CgroupHost}.

(** * Construction *)

(** The answers of the host to the probes: scratch directories, where they could
    be made, and what commands print. *)
Record Probes := mkProbes {
  pr_sandbox_dirs : option (string * string);
  pr_profile : string;
  pr_write_profile : string -> bool;
  pr_netns_dirs : option (string * string);
  pr_run : list string -> option Output;
  pr_forwarder_var : option string;
  pr_exe_dir : option string;
  pr_is_file : string -> bool;
  pr_canonical : string -> option string;
  pr_cgroup_var : option string;
}.

Definition sandbox_probe (pr : Probes) : SandboxTech :=
  probe lh_linux lh_macos (probe_bwrap (pr_sandbox_dirs pr) (pr_run pr))
    (probe_sandbox_exec lh_macos (pr_sandbox_dirs pr) (pr_profile pr) (pr_write_profile pr) (pr_run pr)).

Definition netns_probe (config : LocalBackendConfig) (pr : Probes) (sock : string) : option NetnsEgress :=
  path ← find_egress_forwarder (egress_forwarder config) (pr_forwarder_var pr) (pr_exe_dir pr) lh_path
           (pr_is_file pr) (pr_canonical pr);
  variant ← probe_netns_egress lh_linux path (pr_netns_dirs pr) (pr_run pr);
  Some (mkNetns path variant sock).

(** [LocalBackend::new]. *)
Definition new_backend (config : LocalBackendConfig) (pr : Probes) : L LocalBackend :=
  if max_pids config =? 0 then l_fail (EOther "LocalBackendConfig.max_pids must be at least 1")
  else
    do! _ := l_on_fs (fun fs => let '(r, fs') := create_dir_all fs (lc_root config) in (io r, fs')) in
    let tech := sandbox_probe pr in
    do! id := l_next in
    let netns :=
      if bool_decide (tech = Bwrap) && eg_enabled (lc_egress config)
      then netns_probe config pr (path_text (lc_root config ++ [".egress-" +:+ lh_fresh id +:+ ".sock"]))
      else None in
    do! parent := l_cgroup (probe_cgroups lh_linux (fun n => lh_fresh (id + S n)) (cgroup_parent config) (pr_cgroup_var pr)) in
    l_ret (mkLocalBackend config tech netns (match parent with Ok p => p | Err _ => None end)).

(** * Egress *)

Definition start_proxy : L Z :=
  do! running := l_get l_proxy in
  match running with
  | Some port => l_ret port
  | None =>
      do! id := l_next in
      match lh_proxy id with
      | Err e => l_fail (unavailable ("egress proxy failed to start: " +:+ e))
      | Ok port => do! _ := l_modify (fun s => add_log [ProxyStarted port] (set_proxy port s)) in l_ret port
      end
  end.

Definition serve_unix (sock : string) : L () :=
  do! served := l_get l_unix in
  if served : bool then l_ret tt
  else
    do! id := l_next in
    match lh_unix id with
    | Err e => l_fail (unavailable ("egress unix listener failed to start: " +:+ e))
    | Ok _ => l_modify (fun s => add_log [UnixServed sock] (set_unix s))
    end.

Definition egress_grant (be : LocalBackend) (domains : list string) (network : Z) : L (option Grant) :=
  if negb (eg_enabled (lc_egress (lb_config be))) || bool_decide (domains = []) || (network =? 0) then l_ret None
  else
    let go (netns : option NetnsEgress) :=
      do! port := start_proxy in
      do! _ := match netns with Some n => serve_unix (ne_sock_path n) | None => l_ret tt end in
      do! id := l_next in
      do! _ := l_modify (add_log [Granted (lh_fresh id) domains network]) in
      l_ret (Some (mkGrant (lh_fresh id) port)) in
    match lb_tech be, lb_netns be with
    | Bwrap, Some netns => go (Some netns)
    | Bwrap, None => l_ret None
    | _, _ => go None
    end.

Definition revoke (egress : option Grant) : LState -> LState :=
  add_log (option_list ((fun g => Revoked (g_token g)) <$> egress)).

Definition network_used (egress : option Grant) : L Z :=
  match egress with
  | None => l_ret 0
  | Some g => do! id := l_next in l_ret (@grant_used (lh_counters id) (g_token g))
  end.

(** * The command of a step *)

Definition base_env (host_path ws scratch : string) : gmap string string :=
  list_to_map [("PATH", host_path); ("HOME", ws); ("TMPDIR", scratch); ("LANG", "C.UTF-8")].

Definition proxy_env (tech : SandboxTech) (g : Grant) : gmap string string :=
  let port := if bool_decide (tech = Bwrap) then NETNS_PROXY_PORT else g_port g in
  let http := proxy_url_via (g_token g) port in
  let socks := socks_proxy_url_via (g_token g) port in
  list_to_map [("HTTP_PROXY", http); ("HTTPS_PROXY", http); ("http_proxy", http); ("https_proxy", http);
               ("ALL_PROXY", socks); ("all_proxy", socks)].

Definition no_sandbox : KernelError :=
  unavailable ("no verified OS sandbox on this host: install bubblewrap (Linux) or ensure /usr/bin/sandbox-exec "
    +:+ "works (macOS). Shell execution fails closed; route the step to a stronger backend, or opt in to unsandboxed "
    +:+ "execution for trusted development code only via LocalBackendConfig::dangerously_allow_unsandboxed.").

(** The directories that [bwrap_args] makes so that they can be mounted; errors
    are ignored. *)
Definition mounted_dirs (ws : HostPath) (readable writable : list string) : list HostPath :=
  let below := map (fun prefix => ws ++ names_of (components prefix)) in
  (if grants_whole_workspace readable then [] else below (normalized_prefixes readable))
    ++ (if grants_whole_workspace writable then [] else below (normalized_prefixes writable)) ++ [ws ++ [SCRATCH_DIR]].

Definition make_mounted (ws : HostPath) (readable writable : list string) (fs : Fs) : Fs :=
  foldl (fun fs dir => (create_dir_all fs dir).2) fs (mounted_dirs ws readable writable).

(** Program, arguments and working directory. *)
Definition wrapped (be : LocalBackend) (ws_dir : HostPath) (cwd command : string) (readable writable : list string)
    (egress : option Grant) : L (string * list string * option string) :=
  let ws := path_text ws_dir in
  match lb_tech be with
  | Bwrap =>
      do! _ := l_on_fs (fun fs => (Ok tt, make_mounted ws_dir readable writable fs)) in
      l_ret ("bwrap", bwrap_args ws readable writable ++ ["--chdir"; cwd]
               ++ match egress, lb_netns be with
                  | Some _, Some n => bwrap_egress_args (ne_forwarder n) (ne_sock_path n) (ne_variant n) ++ netns_forwarder_argv
                  | _, _ => []
                  end ++ ["/bin/sh"; "-c"; command], None)
  | SandboxExec =>
      do! id := l_next in
      match lh_profile id (seatbelt_profile lh_macos ws readable writable (g_port <$> egress)) with
      | Err e => l_fail (EIo e)
      | Ok file => l_ret ("/usr/bin/sandbox-exec", ["-f"; file; "/bin/sh"; "-c"; command], Some cwd)
      end
  | NoSandbox =>
      if dangerously_allow_unsandboxed (lb_config be) then l_ret ("/bin/sh", ["-c"; command], Some cwd)
      else l_fail no_sandbox
  end.

Definition div_ceil (a b : Z) : Z := (a + b - 1) / b.

Definition cpu_limit (budget : ResourceBudget) : Z := saturating_add_int u64_max (div_ceil (cpu_ms budget) 1000) 1.

Definition group_entry (group : option string) : option string :=
  dir ← group; if has_nul (procs_file dir) then None else Some (procs_file dir).

Definition build_confined_command (be : LocalBackend) (ws cwd : HostPath) (command : string) (env : gmap string string)
    (budget : ResourceBudget) (readable writable : list string) (egress : option Grant) (group : option string)
    (stdin : bool) : L Command :=
  let host_path := default "/usr/local/bin:/usr/bin:/bin" lh_path in
  let scratch := ws ++ [SCRATCH_DIR] in
  do! _ := l_on_fs (fun fs => let '(r, fs') := create_dir_all fs scratch in (io r, fs')) in
  do! (program, args, dir) := wrapped be ws (path_text cwd) command readable writable egress in
  let proxies := match egress with Some g => proxy_env (lb_tech be) g | None => ∅ end in
  l_ret (mkCommand program args dir (env ∪ (proxies ∪ base_env host_path (path_text ws) (path_text scratch)))
           true (group_entry group) (cpu_limit budget) (max_file_bytes (lb_config be)) stdin).

Definition step_cgroup (be : LocalBackend) (budget : ResourceBudget) : L (option string) :=
  match lb_cgroups be with
  | None => l_ret None
  | Some parent =>
      do! id := l_next in
      let memory := if 0 <? memory_bytes budget then Some (memory_bytes budget) else None in
      do! r := l_cgroup (create_group parent (lh_fresh id) memory (max_pids (lb_config be))) in
      match r with
      | Ok dir => l_ret (Some dir)
      | Err e => l_fail (unavailable ("verified cgroup enforcement failed to create a step group: " +:+ io_text e))
      end
  end.

Definition release_group (group : option string) (s : LState) : LState :=
  match group with Some dir => set_cg (drop_group dir (l_cg s)).2 s | None => s end.

(** * Running a step *)

Definition shell_cwd (op : string) (ws : HostPath) (cwd : option string) : L HostPath :=
  do! dir := match cwd with
             | Some c => l_on_fs (fun fs => (resolve_confined fs op ws c [], fs))
             | None => l_ret ws
             end in
  do! there := l_get (fun s => is_dir (l_fs s) dir) in
  if there : bool then l_ret dir else l_fail (denial DConstraintViolated op "cwd does not exist in the workspace").

Definition saturating_mul (a b : Z) : Z := Z.min u64_max (a * b).

(** Microseconds of a time, [max(0)] of its parts. *)
Definition time_us (t : Z * Z) : Z :=
  saturating_add_int u64_max (saturating_mul (Z.max t.1 0) 1000000) (Z.max t.2 0).

(** [Meter]: CPU milliseconds and peak bytes; the peak is in kilobytes except
    on macOS. *)
Definition meter_of (u : Rusage) : Z * Z :=
  (saturating_add_int u64_max (time_us (ru_utime u)) (time_us (ru_stime u)) / 1000,
   if lh_macos then Z.max (ru_maxrss u) 0 else saturating_mul (Z.max (ru_maxrss u) 0) 1024).

Record Reaped := mkReaped { rp_exit : Z; rp_stdout : string; rp_stderr : string; rp_meter : option (Z * Z) }.

(** The end of [spawn_and_reap]. *)
Definition reap (w : Waited) : Reaped :=
  mkReaped (default (-1) (w_exited w)) (w_stdout w) (w_stderr w) (Some (meter_of (w_usage w))).

Definition lf : string := String "010" EmptyString.

Definition append_diagnostic (stderr message : string) : string :=
  (if str_is_empty stderr || ends_with lf stderr then stderr else stderr +:+ lf) +:+ message.

(** What a child that ran leaves: on time, or killed at the deadline. *)
Definition exec_result (be : LocalBackend) (timeout network : Z) (late : bool) (r : Reaped) : ExecResult :=
  let keep bytes := cap bytes (max_capture_bytes (lb_config be)) in
  if late then
    mkExec (-1) (keep (rp_stdout r))
      ("process killed: wall-clock timeout of " +:+ pretty (timeout / 10 ^ 6) +:+ " ms exceeded"
        +:+ (if str_is_empty (rp_stderr r) then EmptyString else lf +:+ keep (rp_stderr r)))
      network (rp_meter r)
  else mkExec (rp_exit r) (keep (rp_stdout r)) (keep (rp_stderr r)) network (rp_meter r).

(** The counters of the group: CPU, peak, kills for memory, refused tasks, and
    the flag of the monitor. *)
Record GroupCounts := mkCounts {
  gc_cpu : option Z; gc_peak : option Z; gc_oom : option Z; gc_pids : option Z; gc_exhausted : bool;
}.

Definition positive (n : option Z) : option Z := n ≫= fun n => if 0 <? n then Some n else None.

Definition failed (code : Z) : Z := if code =? 0 then -1 else code.

Definition with_result (r : ExecResult) (exit : Z) (stderr : string) : ExecResult :=
  mkExec exit (er_stdout r) stderr (er_network r) (er_meter r).

Definition note_oom (budget : ResourceBudget) (c : GroupCounts) (r : ExecResult) : ExecResult :=
  match positive (gc_oom c) with
  | None => r
  | Some oom =>
      with_result r (failed (er_exit r)) (append_diagnostic (er_stderr r)
        ("process(es) oom-killed: the step's memory ceiling of " +:+ pretty (memory_bytes budget)
          +:+ " bytes was exceeded " +:+ pretty oom +:+ " time(s)"))
  end.

Definition note_pids (be : LocalBackend) (c : GroupCounts) (r : ExecResult) : ExecResult :=
  match positive (gc_pids c) with
  | None => r
  | Some hits =>
      with_result r (er_exit r) (append_diagnostic (er_stderr r)
        ("process creation denied " +:+ pretty hits +:+ " time(s): the step's pids.max ceiling is "
          +:+ pretty (max_pids (lb_config be))))
  end.

Definition cpu_spent (budget : ResourceBudget) (c : GroupCounts) : bool :=
  gc_exhausted c || at_least (gc_cpu c) (cpu_ms budget).

Definition note_cpu (budget : ResourceBudget) (c : GroupCounts) (r : ExecResult) : ExecResult :=
  if cpu_spent budget c then
    with_result r (failed (er_exit r)) (append_diagnostic (er_stderr r)
      ("process tree killed: aggregate CPU budget of " +:+ pretty (cpu_ms budget) +:+ " ms exhausted (used "
        +:+ pretty (default (cpu_ms budget) (gc_cpu c)) +:+ " ms)"))
  else r.

(** The group's counters take the place of the child's own. *)
Definition group_meter (c : GroupCounts) (m : Z * Z) : Z * Z := (default m.1 (gc_cpu c), default m.2 (gc_peak c)).

Definition account (be : LocalBackend) (budget : ResourceBudget) (c : GroupCounts) (r : ExecResult) : ExecResult :=
  let r := mkExec (er_exit r) (er_stdout r) (er_stderr r) (er_network r) (group_meter c <$> er_meter r) in
  note_cpu budget c (note_pids be c (note_oom budget c r)).

(** A reading of a counter; no error leaves it. *)
Definition l_counter {A} (m : Cg (option A)) : L (option A) :=
  do! r := l_cgroup m in l_ret (match r with Ok n => n | Err _ => None end).

Definition read_counts (dir : string) (exhausted : bool) : L GroupCounts :=
  do! cpu := l_counter (cpu_usage_ms dir) in
  do! peak := l_counter (peak_memory dir) in
  do! oom := l_counter (oom_kills dir) in
  do! hits := l_counter (pid_limit_hits dir) in
  l_ret (mkCounts cpu peak oom hits exhausted).

Definition timeout_of (be : LocalBackend) (budget : ResourceBudget) : Z :=
  match lb_cgroups be with
  | Some _ => max_wall_clock (lb_config be)
  | None => Z.min (cpu_ms budget * 10 ^ 6) (max_wall_clock (lb_config be))
  end.

(** The CPU monitor of a group and its first [ticks] turns: whether it killed. *)
Definition monitor (ticks : nat) (dir : string) (budget : ResourceBudget) : L bool :=
  do! _ := l_modify (add_log [Watched dir (cpu_ms budget)]) in
  do! m := l_cgroup (enforce_cpu_budget ticks dir (cpu_ms budget)) in
  l_ret (match m with Ok (Some Exhausted) => true | _ => false end).

(** The monitor of a step is started when the child came to life. *)
Definition watch_cpu (group : option string) (run : ChildRun) (budget : ResourceBudget) : L bool :=
  match group, cr_pid run with
  | Some dir, Some _ => monitor (cr_ticks run) dir budget
  | _, _ => l_ret false
  end.

(** At the deadline: the group, then the process group. *)
Definition kill_late (group : option string) (run : ChildRun) : L () :=
  do! _ := match group with Some dir => do! _ := l_cgroup (kill_tree dir) in l_ret tt | None => l_ret tt end in
  match cr_pid run with Some pid => l_modify (add_log [KilledGroup pid]) | None => l_ret tt end.

Definition join_error (e : string) : KernelError := unavailable ("shell reaper task failed: " +:+ e).

Definition gone : Reaped := mkReaped (-1) EmptyString EmptyString None.

(** From the command to its result. *)
Definition run_command (be : LocalBackend) (budget : ResourceBudget) (cmd : Command) (egress : option Grant)
    (group : option string) : L ExecResult :=
  do! id := l_next in
  let timeout := timeout_of be budget in
  do! run := (fun s => let '(run, fs) := lh_run id timeout cmd (l_fs s) in (Ok run, add_log [Started cmd (cr_pid run)] (set_fs fs s))) in
  do! exhausted := watch_cpu group run budget in
  do! result :=
    (if cr_timed_out run then
       do! _ := kill_late group run in
       match cr_joined run with
       | Err e => l_fail (join_error e)
       | Ok w =>
           do! network := network_used egress in
           l_ret (exec_result be timeout network true (match w with Ok w => reap w | Err _ => gone end))
       end
     else
       match cr_joined run with
       | Err e => l_fail (join_error e)
       | Ok (Err e) => l_fail (unavailable ("failed to spawn: " +:+ e))
       | Ok (Ok w) => do! network := network_used egress in l_ret (exec_result be timeout network false (reap w))
       end) in
  match group with
  | Some dir => do! c := read_counts dir exhausted in l_ret (account be budget c result)
  | None => l_ret result
  end.

Definition zero_budget (op : string) : KernelError :=
  denial BudgetExhausted op "cpu_ms budget is zero; refusing to start the process".

(** What a step holds while it runs: a grant and a group, dropped in reverse. *)
Definition run_shell (be : LocalBackend) (workspace : HostPath) (command : string) (cwd : option string)
    (env : gmap string string) (budget : ResourceBudget) (readable writable domains : list string) : L ExecResult :=
  if cpu_ms budget =? 0 then l_fail (zero_budget "proc.shell")
  else
    do! cwd := shell_cwd "proc.shell" workspace cwd in
    do! ws := l_on_fs (fun fs => (io (canonicalize fs workspace), fs)) in
    do! egress := egress_grant be domains (network_bytes budget) in
    l_finally
      (do! group := step_cgroup be budget in
       l_finally
         (do! cmd := build_confined_command be ws cwd command env budget readable writable egress group false in
          run_command be budget cmd egress group)
         (release_group group))
      (revoke egress).

(** * Process sessions *)

Definition num (n : Z) : Value := Number (PosInt n).

Definition json_out (v : Value) : ExecResult := done_with 0 (canonical_json v) EmptyString.
Definition proc_fail (msg : string) : ExecResult := done_with 1 EmptyString msg.

(** Releases what was acquired when [m] fails; the session keeps it otherwise. *)
Definition l_guard {A} (m : L A) (cleanup : LState -> LState) : L A := fun s =>
  match m s with
  | (Ok a, s') => (Ok a, s')
  | (Err e, s') => (Err e, cleanup s')
  end.

Definition proc_start (be : LocalBackend) (workspace : HostPath) (branch command : string) (cwd : option string)
    (env : gmap string string) (name : option string) (budget : ResourceBudget)
    (readable writable domains : list string) : L ExecResult :=
  if cpu_ms budget =? 0 then l_fail (zero_budget "proc.start")
  else
    do! cwd := shell_cwd "proc.start" workspace cwd in
    do! ws := l_on_fs (fun fs => (io (canonicalize fs workspace), fs)) in
    do! egress := egress_grant be domains (network_bytes budget) in
    l_guard
      (do! group := step_cgroup be budget in
       l_guard
         (do! cmd := build_confined_command be ws cwd command env budget readable writable egress group true in
          do! id := l_next in
          do! _ := l_modify (add_log [Started cmd (match lh_spawn id cmd with Ok pid => pid | Err _ => None end)]) in
          match lh_spawn id cmd with
          | Err e => l_fail (unavailable ("failed to spawn: " +:+ e))
          | Ok pid =>
              do! _ := match group with Some dir => monitor (lh_turns id) dir budget | None => l_ret false end in
              let session := new_session (lh_fresh id) branch name command pid (lh_now id) true group (g_token <$> egress)
                               (Z.to_nat (max_log_buffer_bytes (lb_config be))) in
              do! _ := l_modify (fun s => set_procs (adopt (l_procs s) session) s) in
              l_ret (json_out (Object [("name", opt_str name); ("pid", opt_num pid); ("process", Str (ps_id session))]))
          end)
         (release_group group))
      (revoke egress).

Definition find_session (branch process : string) : L (result ExecResult ProcessSession) :=
  l_get (fun s => ok_or (get_session (l_procs s) branch process)
    (proc_fail ("error: unknown process `" +:+ process +:+ "` on this branch (processes are branch-scoped and do not "
      +:+ "survive forks; use proc.status with an empty `process` to list)"))).

Definition proc_stdin (branch process data_b64 : string) (close : bool) : L ExecResult :=
  do! data := l_of (map_err (fun e => denial DConstraintViolated "proc.stdin" ("invalid base64: " +:+ e)) (decode data_b64)) in
  do! found := find_session branch process in
  match found with
  | Err fail => l_ret fail
  | Ok session =>
      if negb (ps_stdin_open session) then l_ret (proc_fail "error: stdin is already closed")
      else
        do! id := l_next in
        match lh_stdin id process data with
        | Err e => l_ret (proc_fail ("error: stdin write failed: " +:+ e))
        | Ok _ =>
            do! _ := l_modify (add_log [WroteStdin process data]) in
            match lh_flush id process with
            | Err e => l_ret (proc_fail ("error: stdin flush failed: " +:+ e))
            | Ok _ =>
                do! _ := l_modify (fun s => if close then set_procs (alter with_stdin_closed process (l_procs s)) s else s) in
                l_ret (json_out (Object [("bytes_written", num (slen data)); ("process", Str process); ("stdin_closed", VBool close)]))
            end
        end
  end.

Definition logs_view (s : ProcessSession) (running : bool) (process : string) (from max : Z) : Value :=
  let '(effective, data) := log_read (ps_logs s) from max in
  let next := effective + slen data in
  Object [("base_offset", num (log_base (ps_logs s))); ("data", Str (from_utf8_lossy data));
          ("dropped_bytes", num (saturating_sub_int effective from)); ("effective_offset", num effective);
          ("eof", VBool (negb running && (log_total (ps_logs s) <=? next))); ("exit_code", opt_num (ps_exit s));
          ("next_offset", num next); ("process", Str process); ("requested_offset", num from);
          ("running", VBool running); ("total_bytes", num (log_total (ps_logs s)))].

Definition proc_logs (be : LocalBackend) (branch process : string) (from : Z) (max_bytes : option Z) : L ExecResult :=
  do! found := find_session branch process in
  match found with
  | Err fail => l_ret fail
  | Ok session =>
      let max := Z.min (default (64 * 1024) max_bytes) (max_capture_bytes (lb_config be)) in
      do! id := l_next in
      l_ret (json_out (logs_view session (@running (lh_counters id) session) process from max))
  end.

Definition proc_signal (branch process name : string) : L ExecResult :=
  match sig_of name with
  | None => l_fail (denial DConstraintViolated "proc.signal" ("unknown signal `" +:+ name +:+ "`: use int|term|kill"))
  | Some _ =>
      do! found := find_session branch process in
      match found with
      | Err fail => l_ret fail
      | Ok session =>
          do! id := l_next in
          let '(r, calls) := @signal (lh_counters id) (lh_kill id) session name in
          do! _ := l_modify (add_log (map Signalled calls)) in
          l_ret (match r with
                 | Ok _ => json_out (Object [("process", Str process); ("signaled", Str name)])
                 | Err e => proc_fail ("error: " +:+ e)
                 end)
      end
  end.

Definition status_at (id : nat) (s : ProcessSession) : Value :=
  @status_json (lh_counters id) s (lh_now id - ps_started_at s).

Definition proc_status (branch process : string) : L ExecResult :=
  do! id := l_next in
  if str_is_empty process then
    do! sessions := l_get (fun s => list_sessions (l_procs s) branch) in
    l_ret (json_out (Object [("processes", Array (map (status_at id) sessions))]))
  else
    do! found := find_session branch process in
    l_ret (match found with Ok s => json_out (status_at id s) | Err fail => fail end).

(** * The interface *)

Definition local_profile (be : LocalBackend) : BackendProfile :=
  mkProfile "local" (LocalSandbox.isolation_strength (lb_tech be)) 5 FilesystemOnly false false lh_linux true false.

Definition not_here : string :=
  "the local backend executes shell, process-session and workspace file actions; HTTP reads, MCP invocations and "
    +:+ "connector operations run on the kernel's connector plane".

Definition dispatch (be : LocalBackend) (ws : HostPath) (now : Z) (req : ExecutionRequest) : L ExecResult :=
  let r := req_readable_prefixes req in
  let w := req_writable_prefixes req in
  match req_action req with
  | Shell command cwd env => run_shell be ws command cwd env (req_budget req) r w (req_egress_domains req)
  | ProcessStart command cwd env name =>
      proc_start be ws (req_branch req) command cwd env name (req_budget req) r w (req_egress_domains req)
  | ProcessStdin process data_b64 close => proc_stdin (req_branch req) process data_b64 close
  | ProcessLogs process from max_bytes => proc_logs be (req_branch req) process from max_bytes
  | ProcessSignal process name => proc_signal (req_branch req) process name
  | ProcessStatus process => proc_status (req_branch req) process
  | ReadFile path => l_on_fs (fun fs => (read_action fs ws (max_capture_bytes (lb_config be)) path r, fs))
  | WriteFile path contents_b64 => l_on_fs (fun fs => write_action fs now ws path contents_b64 w)
  | DeletePath path => l_on_fs (fun fs => delete_action fs ws path w)
  | other => l_fail (denial PolicyForbidden (required_operation other) not_here)
  end.

Definition local_replay (a : ActionKind) : ReplayClass :=
  match a with
  | ProcessStart _ _ _ _ | ProcessStdin _ _ _ | ProcessLogs _ _ _ | ProcessSignal _ _ | ProcessStatus _ => AuditOnly
  | _ => FilesystemOnly
  end.

Definition local_usage (r : ExecResult) (elapsed : Z) : ResourceBudget :=
  let captured := slen (er_stdout r) + slen (er_stderr r) in
  mkBudget (match er_meter r with Some m => m.1 | None => elapsed end)
           (match er_meter r with Some m => m.2 | None => captured end) (er_network r) 0 0 0.

Definition local_execute (be : LocalBackend) (req : ExecutionRequest) : L ExecutionOutcome :=
  do! ws := l_on_fs (fun fs => workspace_for fs (lc_root (lb_config be)) (req_branch req)) in
  do! before := l_get (fun s => scan_workspace (l_fs s) ws) in
  do! id := l_next in
  do! result := dispatch be ws (lh_now id) req in
  let elapsed := Z.min (lh_elapsed id) u64_max in
  do! after := l_get (fun s => scan_workspace (l_fs s) ws) in
  l_ret (mkOutcome (er_exit result) (er_stdout result) (er_stderr result) (local_usage result elapsed)
           (diff_written before after) (local_replay (req_action req)) None).

(** A session's end as the host sees it: its group is dropped as [Cgroup] says. *)
Definition release_call (s : LState) (c : KillCall) : LState :=
  match c with
  | GroupDropped dir => set_cg (drop_group dir (l_cg s)).2 s
  | GrantRevoked token => add_log [Revoked token] s
  | other => add_log [Signalled other] s
  end.

Definition local_discard (be : LocalBackend) (branch : string) : L () :=
  do! id := l_next in
  do! _ := l_modify (fun s =>
    let '(_, reg, calls) := @kill_branch (lh_counters id) (lh_kill id) (l_procs s) branch in
    foldl release_call (set_procs reg s) calls) in
  l_on_fs (fun fs => discard_workspace fs (lc_root (lb_config be)) branch).
End local.
