(* ===== verification/LocalSafety.v ===== *)
(** What the local backend guarantees: every command it starts is confined, what
    a step was given ends with it, an exhausted step is no success, and a
    discarded branch leaves nothing behind. *)

From stdpp Require Import pretty.
From S2P Require Import Prelude Json Canonical Budget Capability Types Router B64 Utf8 Effect Path Egress EgressProxy.
From S2P Require Import HostFs LocalFiles LocalSandbox LocalProcess Cgroup LocalBackend.

Open Scope Z_scope.
Open Scope local_scope.

Section logs.
Context {A B : Type}.
Implicit Types (m : L A) (k : A -> L B) (s : LState).

Lemma l_bind_inv m k s r s' :
  l_bind m k s = (r, s') ->
  (exists e, m s = (Err e, s') /\ r = Err e) \/ exists a s1, m s = (Ok a, s1) /\ k a s1 = (r, s').
Proof. unfold l_bind. destruct (m s) as [[a|e] s1]; [naive_solver|]. intros [= <- <-]. left. eauto. Qed.

Lemma l_bind_Ok m k s b s' :
  l_bind m k s = (Ok b, s') -> exists a s1, m s = (Ok a, s1) /\ k a s1 = (Ok b, s').
Proof. intros [(e & _ & ?)|?]%l_bind_inv; [done|eauto]. Qed.

(** A computation that logs nothing. *)
Definition mute (m : L A) : Prop := forall s, l_log (m s).2 = l_log s.

Lemma mute_eq m s r s' : mute m -> m s = (r, s') -> l_log s' = l_log s.
Proof. intros Hq Hm. specialize (Hq s). by rewrite Hm in Hq. Qed.
Lemma mute_ret (a : A) : mute (l_ret a).
Proof. done. Qed.
Lemma mute_fail e : mute (l_fail e).
Proof. done. Qed.
Lemma mute_of (r : KernelResult A) : mute (l_of r).
Proof. done. Qed.
Lemma mute_get (f : LState -> A) : mute (l_get f).
Proof. done. Qed.
Lemma mute_fs (f : Fs -> KernelResult A * Fs) : mute (l_on_fs f).
Proof. intros s. unfold l_on_fs. by destruct (f (l_fs s)). Qed.
Lemma mute_match_opt {C} (o : option C) (f : C -> L A) m : (forall c, mute (f c)) -> mute m ->
  mute (match o with Some c => f c | None => m end).
Proof. by destruct o. Qed.
End logs.

Lemma mute_bind {A B} (m : L A) (k : A -> L B) : mute m -> (forall a, mute (k a)) -> mute (l_bind m k).
Proof.
  intros Hm Hk s. unfold l_bind. specialize (Hm s). destruct (m s) as [[a|e] s1]; [|done]. cbn in Hm.
  by rewrite (Hk a s1).
Qed.
Lemma mute_cgroup {A} (m : Cg A) : mute (l_cgroup m).
Proof. intros s. unfold l_cgroup. by destruct (m (l_cg s)). Qed.
Lemma mute_next : mute l_next.
Proof. done. Qed.

Create HintDb local_mute.
#[export] Hint Resolve mute_ret mute_fail mute_of mute_get mute_fs mute_cgroup mute_next : local_mute.

(** A computation that takes no call on control groups back. *)
Definition onward {A} (m : L A) : Prop := forall s, l_cg s `prefix_of` l_cg (m s).2.

Lemma onward_eq {A} (m : L A) s r s' : onward m -> m s = (r, s') -> l_cg s `prefix_of` l_cg s'.
Proof. intros Ho Hm. specialize (Ho s). by rewrite Hm in Ho. Qed.
Lemma onward_ret {A} (a : A) : onward (l_ret a).
Proof. by intros s. Qed.
Lemma onward_fail {A} e : onward (l_fail (A := A) e).
Proof. by intros s. Qed.
Lemma onward_of {A} (r : KernelResult A) : onward (l_of r).
Proof. by intros s. Qed.
Lemma onward_get {A} (f : LState -> A) : onward (l_get f).
Proof. by intros s. Qed.
Lemma onward_next : onward l_next.
Proof. by intros s. Qed.
Lemma onward_fs {A} (f : Fs -> KernelResult A * Fs) : onward (l_on_fs f).
Proof. intros s. unfold l_on_fs. by destruct (f (l_fs s)). Qed.
Lemma onward_log es : onward (l_modify (add_log es)).
Proof. by intros s. Qed.
Lemma onward_procs f : onward (l_modify (fun s => set_procs (f s) s)).
Proof. by intros s. Qed.
Lemma onward_cgroup {A} (m : Cg A) : grows m -> onward (l_cgroup m).
Proof. intros Hm s. unfold l_cgroup. specialize (Hm (l_cg s)). by destruct (m (l_cg s)). Qed.
Lemma onward_bind {A B} (m : L A) (k : A -> L B) : onward m -> (forall a, onward (k a)) -> onward (l_bind m k).
Proof.
  intros Hm Hk s. unfold l_bind. specialize (Hm s). destruct (m s) as [[a|e] s1]; [|done]. cbn in Hm. etrans; [done|apply Hk].
Qed.
Lemma onward_finally {A} (m : L A) f : onward m -> (forall s, l_cg s `prefix_of` l_cg (f s)) -> onward (l_finally m f).
Proof. intros Hm Hf s. unfold l_finally. specialize (Hm s). destruct (m s). cbn in *. etrans; [done|apply Hf]. Qed.
Lemma onward_guard {A} (m : L A) f : onward m -> (forall s, l_cg s `prefix_of` l_cg (f s)) -> onward (l_guard m f).
Proof. intros Hm Hf s. unfold l_guard. specialize (Hm s). destruct (m s) as [[a|e] s1]; cbn in *; [done|]. etrans; [done|apply Hf]. Qed.

Create HintDb local_onward.
#[export] Hint Resolve onward_ret onward_fail onward_of onward_get onward_next onward_fs onward_log onward_procs : local_onward.

Ltac onward := repeat (eauto 2 with local_onward; first [apply onward_bind; [|intros ?] | case_match]).

(** Follows the branches of a computation. *)
Ltac mute := repeat (eauto 2 with local_mute; first [apply mute_bind; [|intros ?] | case_match]).

Section safety.
Context `{!IoText, !Serde, !LocalHost, !CgroupHost}.
Implicit Types (be : LocalBackend) (budget : ResourceBudget) (s : LState) (req : ExecutionRequest).

(** * The command *)

Definition BASE_VARS : list string := ["PATH"; "HOME"; "TMPDIR"; "LANG"].
Definition PROXY_VARS : list string :=
  ["HTTP_PROXY"; "HTTPS_PROXY"; "http_proxy"; "https_proxy"; "ALL_PROXY"; "all_proxy"].

(** The route from a namespace to the proxy. *)
Definition route be : list string :=
  match lb_netns be with
  | Some n => bwrap_egress_args (ne_forwarder n) (ne_sock_path n) (ne_variant n) ++ netns_forwarder_argv
  | None => []
  end.

(** How the program is wrapped, for each technology. *)
Definition sandboxed be (ws cwd command : string) (readable writable : list string) (egress : option Grant) (c : Command) : Prop :=
  match lb_tech be with
  | Bwrap =>
      c_program c = "bwrap"
      /\ c_args c = bwrap_args ws readable writable ++ ["--chdir"; cwd]
           ++ match egress with Some _ => route be | None => [] end ++ ["/bin/sh"; "-c"; command]
  | SandboxExec =>
      c_program c = "/usr/bin/sandbox-exec"
      /\ exists id file, lh_profile id (seatbelt_profile lh_macos ws readable writable (g_port <$> egress)) = Ok file
           /\ c_args c = ["-f"; file; "/bin/sh"; "-c"; command] /\ c_cwd c = Some cwd
  | NoSandbox => dangerously_allow_unsandboxed (lb_config be) = true
  end.

(** Nothing of the host's environment but its search path. *)
Definition scrubbed (ws : string) (env : gmap string string) (egress : option Grant) (c : Command) : Prop :=
  (forall k v, c_env c !! k = Some v ->
     env !! k = Some v \/ env !! k = None /\ (k ∈ BASE_VARS \/ k ∈ PROXY_VARS /\ is_Some egress))
  /\ (env !! "HOME" = None -> c_env c !! "HOME" = Some ws).

(** A process group of its own, CPU time in whole seconds with one of grace, and
    the largest file. *)
Definition limited be budget (c : Command) : Prop :=
  c_group c = true /\ c_rlimit_cpu c = Z.min u64_max ((cpu_ms budget + 999) / 1000 + 1)
  /\ c_rlimit_fsize c = max_file_bytes (lb_config be).

(** The control group of a command, where control groups are in force: it was
    made with its ceilings, the child enters it before it runs, and once the child
    is there its CPU time is watched.  [es] and [cs] are what was logged and what
    was called. *)
Definition in_group be budget (es : list LEvent) (cs : list CgCall) (c : Command) (pid : option Z) : Prop :=
  match lb_cgroups be with
  | None => c_cgroup c = None
  | Some parent => exists label cs1 cs2, let dir := join parent ("ak-" +:+ label) in
      cs = cs1 ++ CMkdir dir (Ok tt)
             :: (if 0 <? memory_bytes budget
                 then [CWrite (join dir "memory.max") (pretty (memory_bytes budget)) (Ok tt); CWrite (join dir "memory.swap.max") "0" (Ok tt)]
                 else [])
             ++ CWrite (join dir "pids.max") (pretty (max_pids (lb_config be))) (Ok tt) :: cs2
      /\ (has_nul (join dir "cgroup.procs") = false -> c_cgroup c = Some (join dir "cgroup.procs"))
      /\ (is_Some pid -> Watched dir (cpu_ms budget) ∈ es)
  end.

Lemma wrapped_spec be ws cwd command readable writable egress s program args dir s' :
  wrapped be ws cwd command readable writable egress s = (Ok (program, args, dir), s') ->
  forall env g cg cpu fsize stdin, sandboxed be (path_text ws) cwd command readable writable egress (mkCommand program args dir env g cg cpu fsize stdin).
Proof.
  unfold wrapped, sandboxed, route. destruct (lb_tech be); intros Hw env g cg cpu fsize stdin.
  - by destruct (dangerously_allow_unsandboxed (lb_config be)).
  - apply l_bind_Ok in Hw as ([] & s1 & _ & Hw). injection Hw as <- <- _ _. split; [done|]. cbn. by destruct egress, (lb_netns be).
  - apply l_bind_Ok in Hw as (id & s1 & _ & Hw). destruct (lh_profile id _) as [file|e] eqn:E; [|done].
    injection Hw as <- <- <- _. split; [done|]. by exists id, file.
Qed.

Lemma wrapped_mute be ws cwd command readable writable egress : mute (wrapped be ws cwd command readable writable egress).
Proof. unfold wrapped. destruct (lb_tech be); mute. Qed.

Lemma env_spec tech host_path ws scratch env egress k v :
  (env ∪ (match egress with Some g => proxy_env tech g | None => ∅ end ∪ base_env host_path ws scratch)
    : gmap string string) !! k = Some v ->
  env !! k = Some v \/ env !! k = None /\ (k ∈ BASE_VARS \/ k ∈ PROXY_VARS /\ is_Some egress).
Proof.
  intros [Hk|[Hn Hk]]%lookup_union_Some_raw; [by left|]. right. split; [done|].
  apply lookup_union_Some_raw in Hk as [Hk|[_ Hk]].
  - right. destruct egress as [g|]; [|by rewrite lookup_empty in Hk]. split; [|by eexists].
    unfold proxy_env in Hk. apply elem_of_list_to_map_2 in Hk. unfold PROXY_VARS. set_solver.
  - left. unfold base_env in Hk. apply elem_of_list_to_map_2 in Hk. unfold BASE_VARS. set_solver.
Qed.

Lemma build_spec be ws cwd command env budget readable writable egress group stdin s cmd s' :
  build_confined_command be ws cwd command env budget readable writable egress group stdin s = (Ok cmd, s') ->
  sandboxed be (path_text ws) (path_text cwd) command readable writable egress cmd
  /\ scrubbed (path_text ws) env egress cmd /\ limited be budget cmd /\ c_cgroup cmd = group_entry group.
Proof.
  unfold build_confined_command. intros ([] & s1 & _ & Hb)%l_bind_Ok.
  apply l_bind_Ok in Hb as ([[program args] dir] & s2 & Hw & Hb). injection Hb as <- _. split_and!; [by eapply wrapped_spec| | |done].
  2: { split_and!; [done| |done]. cbn. unfold cpu_limit, saturating_add_int, div_ceil. do 3 f_equal. lia. }
  split; [intros k v; apply env_spec|]. intros Hn. cbn. rewrite lookup_union_r by done.
  rewrite lookup_union_r; [done|]. destruct egress; [done|apply lookup_empty].
Qed.

Lemma build_mute be ws cwd command env budget readable writable egress group stdin :
  mute (build_confined_command be ws cwd command env budget readable writable egress group stdin).
Proof. unfold build_confined_command. mute. apply wrapped_mute. Qed.

(** * What is logged around it *)

Definition plumbing (e : LEvent) : Prop :=
  match e with Started _ _ | Granted _ _ _ | Revoked _ => False | _ => True end.

Definition granted (egress : option Grant) (domains : list string) (network : Z) : list LEvent :=
  option_list ((fun g => Granted (g_token g) domains network) <$> egress).

Definition revoked (egress : option Grant) : list LEvent := option_list ((fun g => Revoked (g_token g)) <$> egress).

(** When a grant may be given. *)
Definition may_grant be (domains : list string) (network : Z) : Prop :=
  eg_enabled (lc_egress (lb_config be)) = true /\ domains <> [] /\ network <> 0
  /\ (lb_tech be = Bwrap -> is_Some (lb_netns be)).

Lemma no_log (log : list LEvent) : exists es, log = log ++ es /\ Forall plumbing es.
Proof. exists []. by rewrite app_nil_r. Qed.

Lemma start_proxy_log s r s' : start_proxy s = (r, s') -> exists es, l_log s' = l_log s ++ es /\ Forall plumbing es.
Proof.
  unfold start_proxy, l_bind, l_get, l_next, l_modify. destruct (l_proxy s); [|destruct (lh_proxy _)];
    intros [= <- <-]; cbn; [apply no_log|eexists; split; [done|by repeat constructor]|apply no_log].
Qed.

Lemma serve_unix_log sock s r s' : serve_unix sock s = (r, s') -> exists es, l_log s' = l_log s ++ es /\ Forall plumbing es.
Proof.
  unfold serve_unix, l_bind, l_get, l_next, l_modify. destruct (l_unix s); [|destruct (lh_unix _)];
    intros [= <- <-]; cbn; [apply no_log|eexists; split; [done|by repeat constructor]|apply no_log].
Qed.

Definition grant_of (r : KernelResult (option Grant)) : option Grant := match r with Ok g => g | Err _ => None end.

(** The grant itself, whichever listener it needs. *)
Lemma grant_step_log (netns : option NetnsEgress) domains network s r s' :
  (do! port := start_proxy in
   do! _ := match netns with Some n => serve_unix (ne_sock_path n) | None => l_ret tt end in
   do! id := l_next in
   do! _ := l_modify (add_log [Granted (lh_fresh id) domains network]) in
   l_ret (Some (mkGrant (lh_fresh id) port))) s = (r, s') ->
  exists pre, l_log s' = l_log s ++ pre ++ granted (grant_of r) domains network /\ Forall plumbing pre.
Proof.
  intros [(e & (es & -> & Hes)%start_proxy_log & ->)|(port & s1 & (es & Hl1 & Hes)%start_proxy_log & Hg)]%l_bind_inv.
  { exists es. by rewrite app_nil_r. }
  assert (exists r1 s2 es2, match netns with Some n => serve_unix (ne_sock_path n) | None => l_ret tt end s1 = (r1, s2)
    /\ l_log s2 = l_log s1 ++ es2 /\ Forall plumbing es2) as (r1 & s2 & es2 & Hu & Hl2 & Hes2).
  { destruct netns as [n|]; [|exists (Ok tt), s1, []; by rewrite app_nil_r].
    destruct (serve_unix (ne_sock_path n) s1) as [r1 s2] eqn:E. apply serve_unix_log in E as (es2 & ? & ?). by exists r1, s2, es2. }
  unfold l_bind at 1 in Hg. rewrite Hu in Hg. exists (es ++ es2). destruct r1 as [[]|e]; injection Hg as <- <-; cbn;
    rewrite Hl2, Hl1, ?app_nil_r, <- ?app_assoc; split; try done; by apply Forall_app.
Qed.

Lemma egress_grant_log be domains network s r s' :
  egress_grant be domains network s = (r, s') ->
  (exists pre, l_log s' = l_log s ++ pre ++ granted (grant_of r) domains network /\ Forall plumbing pre)
  /\ (is_Some (grant_of r) -> may_grant be domains network).
Proof.
  unfold egress_grant. destruct (negb _ || _ || _) eqn:Eoff.
  { intros [= <- <-]. split; [|by intros [? ?]]. exists []. by rewrite app_nil_r. }
  apply orb_false_iff in Eoff as [[Hen%negb_false_iff Hd%bool_decide_eq_false]%orb_false_iff Hn%Z.eqb_neq].
  cbv zeta. destruct (lb_tech be) eqn:Et, (lb_netns be) as [n|] eqn:En; intros Hg.
  4: { injection Hg as <- <-. split; [|by intros [? ?]]. exists []. by rewrite app_nil_r. }
  all: first [apply (grant_step_log None) in Hg | apply (grant_step_log (Some n)) in Hg]; split; [done|]; intros _; unfold may_grant; rewrite Et, En; split_and!; eauto; done.
Qed.

Lemma step_cgroup_mute be budget : mute (step_cgroup be budget).
Proof. unfold step_cgroup. mute. Qed.

(** The calls that made the group of a step. *)
Definition made be budget (group : option string) (cs : list CgCall) : Prop :=
  match lb_cgroups be with
  | None => group = None /\ cs = []
  | Some parent => exists label, let dir := join parent ("ak-" +:+ label) in
      group = Some dir /\ cs = CMkdir dir (Ok tt)
        :: ceilings dir (if 0 <? memory_bytes budget then Some (memory_bytes budget) else None) (max_pids (lb_config be))
  end.

Lemma step_cgroup_spec be budget s group s' :
  step_cgroup be budget s = (Ok group, s') -> exists cs, l_cg s' = l_cg s ++ cs /\ made be budget group cs.
Proof.
  unfold step_cgroup, made. destruct (lb_cgroups be) as [parent|].
  2: { intros [= <- <-]. exists []. by rewrite app_nil_r. }
  intros (id & s1 & Hn & Hs)%l_bind_Ok. injection Hn as <- <-. unfold l_bind, l_cgroup in Hs. cbn [l_cg] in Hs.
  pose proof (created parent (lh_fresh (l_tick s)) (if 0 <? memory_bytes budget then Some (memory_bytes budget) else None)
    (max_pids (lb_config be)) (l_cg s)) as Hc.
  destruct (create_group _ _ _ _ _) as [[dir|e] h'] eqn:E; [|done]. injection Hs as <- <-.
  destruct (Hc _ _ eq_refl) as (-> & _ & ->). eexists. split; [done|]. by eexists.
Qed.

Lemma made_in_group be budget group pre cs post es c pid :
  made be budget group cs -> c_cgroup c = group_entry group ->
  (forall dir, group = Some dir -> is_Some pid -> Watched dir (cpu_ms budget) ∈ es) ->
  in_group be budget es (pre ++ cs ++ post) c pid.
Proof.
  unfold made, in_group. destruct (lb_cgroups be) as [parent|]; [|by intros [-> _] ->].
  intros (label & -> & ->) Hc Hw. exists label, pre, post. cbv zeta. split_and!.
  - f_equal. cbn. f_equal. unfold ceilings. destruct (0 <? memory_bytes budget); by rewrite <- ?app_assoc.
  - intros Hn. rewrite Hc. unfold group_entry. cbn [mbind option_bind]. unfold procs_file. by rewrite Hn.
  - intros Hp. by apply Hw.
Qed.

Lemma network_used_mute egress : mute (network_used egress).
Proof. unfold network_used. mute. Qed.

Lemma read_counts_mute dir exhausted : mute (read_counts dir exhausted).
Proof. unfold read_counts, l_counter. mute. Qed.

Lemma kill_late_log group run s r s' :
  kill_late group run s = (r, s') -> r = Ok tt /\ exists late, l_log s' = l_log s ++ late /\ Forall plumbing late.
Proof.
  unfold kill_late. assert (forall o, exists h, (match o with Some dir => do! _ := l_cgroup (kill_tree dir) in l_ret tt
    | None => l_ret tt end) s = (Ok tt, set_cg h s)) as Hk.
  { intros [dir|]; unfold l_bind, l_cgroup; [destruct (kill_tree dir _); by eexists|exists (l_cg s); by destruct s]. }
  destruct (Hk group) as [h Hh]. unfold l_bind at 1. rewrite Hh. destruct (cr_pid run); intros [= <- <-]; (split; [done|]).
  - eexists. split; [done|]. by repeat constructor.
  - exists []. by rewrite app_nil_r.
Qed.

(** A computation that starts nothing and grants nothing. *)
Definition plumbs {A} (m : L A) : Prop :=
  forall s r s', m s = (r, s') -> exists es, l_log s' = l_log s ++ es /\ Forall plumbing es.

Lemma plumbs_mute {A} (m : L A) : mute m -> plumbs m.
Proof. intros Hq s r s' Hm. rewrite (mute_eq _ _ _ _ Hq Hm). apply no_log. Qed.

Lemma plumbs_bind {A B} (m : L A) (k : A -> L B) : plumbs m -> (forall a, plumbs (k a)) -> plumbs (l_bind m k).
Proof.
  intros Hm Hk s r s' [(e & He & ->)|(a & s1 & (es & Hl & Hes)%Hm & (es' & Hl' & Hes')%Hk)]%l_bind_inv; [by eapply Hm|].
  exists (es ++ es'). rewrite Hl', Hl, app_assoc. split; [done|by apply Forall_app].
Qed.

Lemma plumbs_log es : Forall plumbing es -> plumbs (l_modify (add_log es)).
Proof. intros Hes s r s' [= <- <-]. by exists es. Qed.

Lemma plumbs_kill_late group run : plumbs (kill_late group run).
Proof. intros s r s' Hk. by apply kill_late_log in Hk as [_ ?]. Qed.

(** The monitor says so when it starts, and always starts. *)
Lemma monitor_log ticks dir budget s r s' :
  monitor ticks dir budget s = (r, s') -> is_ok r = true /\ l_log s' = l_log s ++ [Watched dir (cpu_ms budget)].
Proof. unfold monitor, l_bind, l_modify, l_cgroup. destruct (enforce_cpu_budget _ _ _ _). by intros [= <- <-]. Qed.

Lemma watch_cpu_log group run budget s r s' :
  watch_cpu group run budget s = (r, s') ->
  is_ok r = true /\ exists es, l_log s' = l_log s ++ es /\ Forall plumbing es
    /\ forall dir, group = Some dir -> is_Some (cr_pid run) -> Watched dir (cpu_ms budget) ∈ es.
Proof.
  unfold watch_cpu. destruct group as [dir|], (cr_pid run) as [pid|]; intros Hm.
  1: { apply monitor_log in Hm as [? ->]. split; [done|]. eexists. split_and!; [done|by repeat constructor|]. intros ? [= <-] _. by left. }
  all: injection Hm as <- <-; split; [done|]; exists []; split_and!; [by rewrite app_nil_r|done|]; intros ? ? [? ?]; done.
Qed.

Lemma run_command_log be budget cmd egress group s r s' :
  run_command be budget cmd egress group s = (r, s') ->
  exists pid late, l_log s' = l_log s ++ Started cmd pid :: late /\ Forall plumbing late
    /\ forall dir, group = Some dir -> is_Some pid -> Watched dir (cpu_ms budget) ∈ late.
Proof.
  unfold run_command. intros Hr. unfold l_bind at 1, l_next in Hr. cbv beta iota zeta in Hr. unfold l_bind at 1 in Hr. cbn [l_fs] in Hr.
  destruct (lh_run _ _ _ _) as [run fs]. set (s1 := add_log _ _) in Hr.
  assert (exists es, l_log s' = l_log s1 ++ es /\ Forall plumbing es
    /\ forall dir, group = Some dir -> is_Some (cr_pid run) -> Watched dir (cpu_ms budget) ∈ es) as (es & Hl & Hes & Hw).
  { revert Hr. generalize s1. intros s2 Hr. apply l_bind_inv in Hr as [(e & [Hok _]%watch_cpu_log & _)|(exhausted & s3 & [_ (es & Hl & Hes & Hw)]%watch_cpu_log & Hr)]; [done|].
    assert (exists es', l_log s' = l_log s3 ++ es' /\ Forall plumbing es') as (es' & Hl' & Hes').
    { revert Hr. apply plumbs_bind; [|intros res; apply plumbs_mute; mute; apply read_counts_mute].
      destruct (cr_timed_out run); [apply plumbs_bind; [apply plumbs_kill_late|intros _]|];
        apply plumbs_mute; mute; apply network_used_mute. }
    exists (es ++ es'). rewrite Hl', Hl, app_assoc. split_and!; [done|by apply Forall_app|].
    intros dir Hd Hp. apply elem_of_app. left. by apply Hw. }
  exists (cr_pid run), es. rewrite Hl. unfold s1. cbn. by rewrite <- app_assoc.
Qed.

(** * No call on a control group is taken back *)

Lemma network_used_onward egress : onward (network_used egress).
Proof. unfold network_used. onward. Qed.

Lemma read_counts_onward dir exhausted : onward (read_counts dir exhausted).
Proof.
  unfold read_counts, l_counter. repeat (apply onward_bind; [|intros ?]); onward; apply onward_cgroup;
    first [apply cpu_usage_grows | apply peak_grows | apply event_value_grows].
Qed.

Lemma monitor_onward ticks dir budget : onward (monitor ticks dir budget).
Proof. unfold monitor. onward. apply onward_cgroup, enforce_grows. Qed.

Lemma kill_late_onward group run : onward (kill_late group run).
Proof. unfold kill_late. onward. apply onward_cgroup, kill_tree_grows. Qed.

Lemma release_onward group s : l_cg s `prefix_of` l_cg (release_group group s).
Proof. destruct group as [dir|]; [|done]. apply (drop_group_grows dir (l_cg s)). Qed.

Lemma build_onward be ws cwd command env budget readable writable egress group stdin :
  onward (build_confined_command be ws cwd command env budget readable writable egress group stdin).
Proof. unfold build_confined_command, wrapped. onward. Qed.

Lemma watch_cpu_onward group run budget : onward (watch_cpu group run budget).
Proof. unfold watch_cpu. case_match; [case_match; [apply monitor_onward|]|]; onward. Qed.
#[local] Hint Resolve network_used_onward read_counts_onward kill_late_onward watch_cpu_onward : local_onward.

Lemma run_command_onward be budget cmd egress group : onward (run_command be budget cmd egress group).
Proof. unfold run_command. onward. intros s. by destruct (lh_run _ _ _ _). Qed.

Lemma egress_grant_onward be domains network : onward (egress_grant be domains network).
Proof. unfold egress_grant, start_proxy, serve_unix. cbv zeta. onward; by intros s. Qed.

(** A command as the backend promises it, with the file system as it was when
    the step began to run. *)
Definition confined_command be (fs : Fs) (workspace : HostPath) (command : string) (env : gmap string string) budget
    (readable writable : list string) (cs : list CgCall) (egress : option Grant) (es : list LEvent) (c : Command)
    (pid : option Z) : Prop :=
  cpu_ms budget <> 0 /\ exists ws cwd q,
    canonicalize fs workspace = Ok ws /\ canonicalize fs cwd = Ok q /\ ws `prefix_of` q
    /\ sandboxed be (path_text ws) (path_text cwd) command readable writable egress c
    /\ scrubbed (path_text ws) env egress c /\ limited be budget c /\ in_group be budget es cs c pid.

Definition started_event (x : Command * option Z) : LEvent := Started x.1 x.2.

(** The log of a step: a grant at most, a command at most, and the end of the
    grant unless it is kept. *)
Definition step_events be (domains : list string) (network : Z) (P : option Grant -> list LEvent -> Command -> option Z -> Prop) (kept : bool)
    (es : list LEvent) : Prop :=
  exists pre egress started late,
    es = pre ++ granted egress domains network ++ map started_event started ++ late ++ (if kept then [] else revoked egress)
    /\ Forall plumbing pre /\ Forall plumbing late /\ (length started <= 1)%nat /\ Forall (fun x => P egress late x.1 x.2) started
    /\ (is_Some egress -> may_grant be domains network).

Lemma set_fs_same s : set_fs (l_fs s) s = s.
Proof. by destruct s. Qed.

Lemma shell_cwd_spec op ws cwd s r s' :
  shell_cwd op ws cwd s = (r, s') ->
  s' = s /\ forall dir, r = Ok dir -> is_dir (l_fs s) dir = true
    /\ (dir = ws \/ exists c, resolve_confined (l_fs s) op ws c [] = Ok dir).
Proof.
  unfold shell_cwd, l_bind, l_on_fs, l_get. destruct cwd as [c|]; cbn.
  - destruct (resolve_confined _ _ _ _ _) as [dir|e] eqn:E; rewrite set_fs_same.
    + destruct (is_dir _ dir) eqn:Ed; intros [= <- <-]; (split; [done|]); [|done]. intros d [= <-]. eauto.
    + by intros [= <- <-].
  - destruct (is_dir _ ws) eqn:Ed; intros [= <- <-]; (split; [done|]); [|done]. intros d [= <-]. eauto.
Qed.

Lemma cwd_inside fs op workspace ws dir :
  canonicalize fs workspace = Ok ws -> is_dir fs dir = true ->
  (dir = workspace \/ exists c, resolve_confined fs op workspace c [] = Ok dir) ->
  exists q, canonicalize fs dir = Ok q /\ ws `prefix_of` q.
Proof.
  intros Hws (q & Hq & _)%is_dir_Ok [->|[c Hc]].
  - exists q. rewrite Hws in Hq. by injection Hq as ->.
  - exists q. split; [done|]. apply resolve_confined_Ok in Hc as (ws' & rel & Hws' & _ & _ & _ & Hin).
    rewrite Hws in Hws'. injection Hws' as <-. by apply Hin.
Qed.

Lemma step_events_none be domains network P (kept : bool) : step_events be domains network P kept [].
Proof. exists [], None, [], []. split_and!; [by destruct kept|constructor|constructor|cbn; lia|constructor|by intros [? ?]]. Qed.

Lemma release_log group s : l_log (release_group group s) = l_log s.
Proof. by destruct group. Qed.

(** What a step leaves in the log. *)
Definition step_post be (workspace : HostPath) (command : string) (env : gmap string string) budget
    (readable writable domains : list string) (kept : bool) s s' : Prop :=
  exists es, l_log s' = l_log s ++ es /\ forall cs, l_cg s' = l_cg s ++ cs ->
    step_events be domains (network_bytes budget) (confined_command be (l_fs s) workspace command env budget readable writable cs) kept es.

(** The beginning that a shell step and a session share: checks, the place, and
    the grant; [rest] is what runs with them. *)
Lemma held_log be op workspace command env budget readable writable domains (cwd : option string)
    (rest : HostPath -> HostPath -> option Grant -> L ExecResult) s r s' (kept : bool) :
  cpu_ms budget <> 0 ->
  (do! dir := shell_cwd op workspace cwd in
   do! ws := l_on_fs (fun fs => (io (canonicalize fs workspace), fs)) in
   do! egress := egress_grant be domains (network_bytes budget) in
   rest dir ws egress) s = (r, s') ->
  (forall dir ws q egress s1, canonicalize (l_fs s) workspace = Ok ws -> canonicalize (l_fs s) dir = Ok q -> ws `prefix_of` q ->
     rest dir ws egress s1 = (r, s') ->
     exists started late, l_log s' = l_log s1 ++ map started_event started ++ late ++ (if kept then [] else revoked egress)
       /\ Forall plumbing late /\ (length started <= 1)%nat
       /\ Forall (fun x => sandboxed be (path_text ws) (path_text dir) command readable writable egress x.1
            /\ scrubbed (path_text ws) env egress x.1 /\ limited be budget x.1
            /\ forall pre cs, l_cg s1 = l_cg s ++ pre -> l_cg s' = l_cg s ++ cs -> in_group be budget late cs x.1 x.2) started) ->
  step_post be workspace command env budget readable writable domains kept s s'.
Proof.
  intros Hcpu Hr Hrest.
  assert (forall x, l_log s' = l_log s ++ x -> x = [] -> step_post be workspace command env budget readable writable domains kept s s') as Hnone.
  { intros x Hx ->. exists []. split; [done|]. intros cs _. apply step_events_none. }
  apply l_bind_inv in Hr as [(e & [-> _]%shell_cwd_spec & _)|(dir & s0 & [-> Hdir]%shell_cwd_spec & Hr)]; [apply (Hnone []); by rewrite ?app_nil_r|].
  destruct (Hdir dir eq_refl) as [Hisdir Hfrom]. clear Hdir.
  apply l_bind_inv in Hr as [(e & Hc & _)|(ws & s0 & Hc & Hr)]; unfold l_on_fs in Hc; rewrite set_fs_same in Hc.
  { injection Hc as _ <-. apply (Hnone []); by rewrite ?app_nil_r. }
  injection Hc as Hws <-. apply map_err_Ok in Hws. destruct (cwd_inside _ op _ _ _ Hws Hisdir Hfrom) as (q & Hq & Hin).
  apply l_bind_inv in Hr as [(e & [(pre & Hl & Hpre) _]%egress_grant_log & ->)|(egress & s1 & Hgrant & Hr)].
  { eexists. split; [exact Hl|]. intros cs _. exists pre, None, [], []. split_and!; [by destruct kept|done|constructor|cbn; lia|constructor|by intros [? ?]]. }
  destruct (onward_eq _ _ _ _ (egress_grant_onward be domains (network_bytes budget)) Hgrant) as [cs0 Hcs0].
  apply egress_grant_log in Hgrant as [(pre & Hl & Hpre) Hmay].
  destruct (Hrest dir ws q egress s1 Hws Hq Hin Hr) as (started & late & Hl' & Hlate & Hlen & Hall).
  eexists. split; [rewrite Hl', Hl, <- !app_assoc; reflexivity|]. intros cs Hcs. exists pre, egress, started, late. split_and!; try done.
  eapply Forall_impl; [done|]. intros x (? & ? & ? & Hg). split; [done|]. exists ws, dir, q. split_and!; try done. by eapply Hg.
Qed.

Lemma grouped_after s s1 s3 be budget group pre made_cs cs cg' es c pid :
  l_cg s1 = l_cg s ++ pre -> l_cg s3 = l_cg s1 ++ made_cs -> made be budget group made_cs -> c_cgroup c = group_entry group ->
  (forall dir, group = Some dir -> is_Some pid -> Watched dir (cpu_ms budget) ∈ es) ->
  cg' = l_cg s ++ cs -> l_cg s3 `prefix_of` cg' -> in_group be budget es cs c pid.
Proof.
  intros Hs1 Hs3 Hmade Hc Hw -> [post Hpost]. rewrite Hs3, Hs1, <- !app_assoc in Hpost. apply app_inv_head in Hpost as ->.
  by eapply made_in_group.
Qed.

Lemma run_shell_log be workspace command cwd env budget readable writable domains s r s' :
  run_shell be workspace command cwd env budget readable writable domains s = (r, s') ->
  step_post be workspace command env budget readable writable domains false s s'.
Proof.
  unfold run_shell. destruct (Z.eqb_spec (cpu_ms budget) 0) as [|Hcpu].
  { intros [= <- <-]. exists []. rewrite app_nil_r. split; [done|]. intros cs _. apply step_events_none. }
  intros Hr. eapply (held_log be "proc.shell" workspace command env budget readable writable domains cwd
    (fun dir ws egress => l_finally (do! group := step_cgroup be budget in l_finally
       (do! cmd := build_confined_command be ws dir command env budget readable writable egress group false in
        run_command be budget cmd egress group) (release_group group)) (revoke egress)) _ _ _ false Hcpu Hr).
  clear Hr. intros dir ws q egress s1 Hws Hq Hin Hr. unfold l_finally at 1 in Hr.
  destruct (l_bind _ _ s1) as [r1 s2] eqn:Eb. injection Hr as <- <-. cbn [l_log revoke add_log].
  apply l_bind_inv in Eb as [(e & Hg & ->)|(group & s3 & Hg & Eb)].
  { rewrite (mute_eq _ _ _ _ (step_cgroup_mute be budget) Hg). exists [], []. by split_and!; [..|constructor]; cbn; try lia. }
  pose proof (mute_eq _ _ _ _ (step_cgroup_mute be budget) Hg) as Hl3. apply step_cgroup_spec in Hg as (made_cs & Hcg & Hmade).
  unfold l_finally in Eb. destruct (l_bind _ _ s3) as [r4 s4] eqn:Ec. injection Eb as <- <-. rewrite release_log.
  apply l_bind_inv in Ec as [(e & Hb & ->)|(cmd & s5 & Hb & Hrun)].
  { rewrite (mute_eq _ _ _ _ (build_mute _ _ _ _ _ _ _ _ _ _ _) Hb), Hl3. exists [], []. by split_and!; [..|constructor]; cbn; try lia. }
  pose proof (mute_eq _ _ _ _ (build_mute _ _ _ _ _ _ _ _ _ _ _) Hb) as Hl5. pose proof (onward_eq _ _ _ _ (build_onward _ _ _ _ _ _ _ _ _ _ _) Hb) as Ho5.
  apply build_spec in Hb as (? & ? & ? & Hentry). pose proof (onward_eq _ _ _ _ (run_command_onward _ _ _ _ _) Hrun) as Ho4.
  apply run_command_log in Hrun as (pid & late & Hl & Hlate & Hw). exists [(cmd, pid)], late. rewrite Hl, Hl5, Hl3, <- !app_assoc.
  split_and!; [done|done|cbn; lia|]. constructor; [|constructor]. split_and!; [done..|]. intros pre cs Hpre Hcs.
  eapply (grouped_after s s1 s3); [done|done|done|done|done|exact Hcs|]. cbn [l_cg revoke add_log].
  etrans; [exact Ho5|]. etrans; [exact Ho4|]. apply release_onward.
Qed.

(** From the command of a session to the session. *)
Lemma spawn_log budget cmd group (k : nat -> option Z -> L ExecResult) s r s' :
  (forall id pid s, l_log (k id pid s).2 = l_log s /\ l_cg (k id pid s).2 = l_cg s) ->
  (do! id := l_next in
   do! _ := l_modify (add_log [Started cmd (match lh_spawn id cmd with Ok pid => pid | Err _ => None end)]) in
   match lh_spawn id cmd with
   | Err e => l_fail (unavailable ("failed to spawn: " +:+ e))
   | Ok pid =>
       do! _ := match group with Some dir => monitor (lh_turns id) dir budget | None => l_ret false end in
       k id pid
   end) s = (r, s') ->
  exists pid late, l_log s' = l_log s ++ Started cmd pid :: late /\ Forall plumbing late
    /\ (forall dir, group = Some dir -> is_Some pid -> Watched dir (cpu_ms budget) ∈ late) /\ l_cg s `prefix_of` l_cg s'.
Proof.
  intros Hk Hs. unfold l_bind at 1, l_next in Hs. cbv beta iota in Hs. unfold l_bind at 1, l_modify in Hs. cbv beta iota in Hs.
  set (s1 := add_log _ _) in Hs. destruct (lh_spawn (l_tick s) cmd) as [pid|e] eqn:E.
  2: { injection Hs as _ <-. exists None, []. split_and!; [done..| |done]. by intros ? _ [? ?]. }
  exists pid. destruct group as [dir|].
  - apply l_bind_inv in Hs as [(e & [Hok _]%monitor_log & _)|(b & s2 & Hm & Hs)]; [done|].
    pose proof (onward_eq _ _ _ _ (monitor_onward _ _ _) Hm) as Ho. apply monitor_log in Hm as [_ Hl].
    destruct (Hk (l_tick s) pid s2) as [Hkl Hkc]. rewrite Hs in Hkl, Hkc. cbn [snd] in Hkl, Hkc. exists [Watched dir (cpu_ms budget)].
    rewrite Hkl, Hkc, Hl. unfold s1. cbn. rewrite <- app_assoc. split_and!; [done|by repeat constructor| |done]. intros ? [= <-] _. by left.
  - unfold l_bind, l_ret in Hs. destruct (Hk (l_tick s) pid s1) as [Hkl Hkc]. rewrite Hs in Hkl, Hkc. cbn [snd] in Hkl, Hkc.
    exists []. rewrite Hkl, Hkc. by split_and!.
Qed.

Lemma proc_start_log be workspace branch command cwd env name budget readable writable domains s r s' :
  proc_start be workspace branch command cwd env name budget readable writable domains s = (r, s') ->
  step_post be workspace command env budget readable writable domains (is_ok r) s s'.
Proof.
  unfold proc_start. destruct (Z.eqb_spec (cpu_ms budget) 0) as [|Hcpu].
  { intros [= <- <-]. exists []. rewrite app_nil_r. split; [done|]. intros cs _. apply step_events_none. }
  intros Hr. eapply (held_log be "proc.start" workspace command env budget readable writable domains cwd
    (fun dir ws egress => l_guard (do! group := step_cgroup be budget in l_guard _ (release_group group)) (revoke egress)) _ _ _ (is_ok r) Hcpu Hr).
  clear Hr. intros dir ws q egress s1 Hws Hq Hin Hr. unfold l_guard at 1 in Hr.
  assert (forall s2 e, (Err e, revoke egress s2) = (r, s') ->
    l_log s' = l_log s2 ++ (if is_ok r then [] else revoked egress)) as Hend by by intros ? ? [= <- <-].
  destruct (l_bind _ _ s1) as [r1 s2] eqn:Eb.
  apply l_bind_inv in Eb as [(e & Hg & ->)|(group & s3 & Hg & Eb)].
  { rewrite (Hend _ _ Hr), (mute_eq _ _ _ _ (step_cgroup_mute be budget) Hg). exists [], [].
    by split_and!; [..|constructor]; cbn; try lia. }
  pose proof (mute_eq _ _ _ _ (step_cgroup_mute be budget) Hg) as Hl3. apply step_cgroup_spec in Hg as (made_cs & Hcg & Hmade).
  unfold l_guard in Eb. destruct (l_bind _ _ s3) as [r4 s4] eqn:Ec.
  apply l_bind_inv in Ec as [(e & Hb & ->)|(cmd & s5 & Hb & Hrun)].
  { injection Eb as <- <-. rewrite (Hend _ _ Hr), release_log, (mute_eq _ _ _ _ (build_mute _ _ _ _ _ _ _ _ _ _ _) Hb), Hl3.
    exists [], []. by split_and!; [..|constructor]; cbn; try lia. }
  pose proof (mute_eq _ _ _ _ (build_mute _ _ _ _ _ _ _ _ _ _ _) Hb) as Hl5. pose proof (onward_eq _ _ _ _ (build_onward _ _ _ _ _ _ _ _ _ _ _) Hb) as Ho5.
  apply build_spec in Hb as (? & ? & ? & Hentry). apply spawn_log in Hrun as (pid & late & Hl4 & Hlate & Hw & Ho4); [|done].
  rewrite Hl5, Hl3 in Hl4. exists [(cmd, pid)], late. split_and!; [|done|cbn; lia|constructor; [|constructor]].
  - destruct r4 as [x|e]; injection Eb as <- <-.
    + injection Hr as <- <-. by rewrite Hl4, app_nil_r.
    + rewrite (Hend _ _ Hr), release_log, Hl4, <- app_assoc. done.
  - split_and!; [done..|]. intros pre cs Hpre Hcs. eapply (grouped_after s s1 s3); [done|done|done|done|done|exact Hcs|].
    etrans; [exact Ho5|]. etrans; [exact Ho4|]. destruct r4 as [x|e]; injection Eb as <- <-.
    + by injection Hr as <- <-.
    + injection Hr as _ <-. cbn [l_cg revoke add_log]. apply release_onward.
Qed.

(** * Properties *)

Definition action_command (a : ActionKind) : option (string * gmap string string) :=
  match a with Shell command _ env | ProcessStart command _ env _ => Some (command, env) | _ => None end.

Lemma modify_procs_mute f : mute (l_modify (fun s => set_procs (f s) s)).
Proof. done. Qed.

Lemma other_actions_plumb be ws now req : action_command (req_action req) = None -> plumbs (dispatch be ws now req).
Proof.
  unfold dispatch. destruct (req_action req); try done; intros _; try (apply plumbs_mute; by mute).
  - unfold proc_stdin. apply plumbs_bind; [apply plumbs_mute; mute|intros data].
    apply plumbs_bind; [apply plumbs_mute; unfold find_session; mute|intros [session|fail]]; [|apply plumbs_mute; mute].
    destruct (negb _); [apply plumbs_mute; mute|]. apply plumbs_bind; [apply plumbs_mute; mute|intros id].
    destruct (lh_stdin _ _ _); [|apply plumbs_mute; mute]. apply plumbs_bind; [apply plumbs_log; by repeat constructor|intros _].
    apply plumbs_mute. case_match; [|mute]. apply mute_bind; [|intros; mute]. by destruct close.
  - unfold proc_signal. case_match; [|apply plumbs_mute; mute].
    apply plumbs_bind; [apply plumbs_mute; unfold find_session; mute|intros [session|fail]]; [|apply plumbs_mute; mute].
    apply plumbs_bind; [apply plumbs_mute; mute|intros id]. destruct (LocalProcess.signal _ _ _) as [r calls].
    apply plumbs_bind; [apply plumbs_log|intros _; apply plumbs_mute; mute]. apply Forall_fmap, Forall_true. done.
Qed.

Lemma step_cgroup_onward be budget : onward (step_cgroup be budget).
Proof. unfold step_cgroup. onward; apply onward_cgroup, create_group_grows. Qed.

Lemma run_shell_onward be workspace command cwd env budget readable writable domains :
  onward (run_shell be workspace command cwd env budget readable writable domains).
Proof.
  unfold run_shell, shell_cwd. onward; [apply egress_grant_onward|]. apply onward_finally; [|by intros s].
  apply onward_bind; [apply step_cgroup_onward|intros group]. apply onward_finally; [|apply release_onward].
  apply onward_bind; [apply build_onward|intros cmd]. apply run_command_onward.
Qed.

Lemma proc_start_onward be workspace branch command cwd env name budget readable writable domains :
  onward (proc_start be workspace branch command cwd env name budget readable writable domains).
Proof.
  unfold proc_start, shell_cwd. onward; [apply egress_grant_onward|]. apply onward_guard; [|by intros s].
  apply onward_bind; [apply step_cgroup_onward|intros group]. apply onward_guard; [|apply release_onward].
  apply onward_bind; [apply build_onward|intros cmd]. onward. apply onward_cgroup, enforce_grows.
Qed.

Lemma execute_onward be req : onward (local_execute be req).
Proof.
  unfold local_execute, dispatch. apply onward_bind; [onward|intros ws]. apply onward_bind; [onward|intros before].
  apply onward_bind; [onward|intros id]. apply onward_bind; [|intros res; onward].
  destruct (req_action req); try (onward; fail).
  - apply run_shell_onward.
  - apply proc_start_onward.
  - unfold proc_signal, find_session. onward.
Qed.

Lemma execute_log be req s r s' :
  local_execute be req s = (r, s') ->
  exists es cs, l_log s' = l_log s ++ es /\ l_cg s' = l_cg s ++ cs
    /\ ((Forall plumbing es)
        \/ exists command env kept, action_command (req_action req) = Some (command, env)
           /\ (forall c cwd e, req_action req = Shell c cwd e -> kept = false)
           /\ step_events be (req_egress_domains req) (network_bytes (req_budget req))
                (confined_command be (workspace_for (l_fs s) (lc_root (lb_config be)) (req_branch req)).2
                   (lc_root (lb_config be) ++ [req_branch req]) command env (req_budget req)
                   (req_readable_prefixes req) (req_writable_prefixes req) cs) kept es).
Proof.
  intros Hx. destruct (onward_eq _ _ _ _ (execute_onward be req) Hx) as [cs Hcs]. revert Hx.
  unfold local_execute. intros [(e & He & _)|(ws & s1 & Hw & Hr)]%l_bind_inv.
  { exists [], cs. rewrite (mute_eq _ _ _ _ (mute_fs _) He), app_nil_r. split_and!; [done..|by left]. }
  pose proof (mute_eq _ _ _ _ (mute_fs _) Hw) as Hl1. unfold l_on_fs in Hw.
  destruct (workspace_for (l_fs s) _ _) as [r0 fs1] eqn:Ew. injection Hw as -> <-.
  assert (ws = lc_root (lb_config be) ++ [req_branch req]) as ->
    by (unfold workspace_for in Ew; by destruct (create_dir_all _ _) as [[]]; simplify_eq).
  unfold l_bind at 1, l_get at 1 in Hr. unfold l_bind at 1, l_next in Hr. cbn [l_tick set_fs] in Hr.
  set (s2 := mkLState _ _ _ _ _ _ _) in Hr.
  assert (exists r1 s3, dispatch be (lc_root (lb_config be) ++ [req_branch req]) (lh_now (l_tick s)) req s2 = (r1, s3)
    /\ l_log s' = l_log s3 /\ l_cg s' = l_cg s3) as (r1 & s3 & Hd & Hl' & Hc').
  { apply l_bind_inv in Hr as [(e & Hd & _)|(x & s3 & Hd & Hr)]; [by eexists _, _|]. eexists _, _. split; [done|].
    unfold l_bind, l_get in Hr. by injection Hr as _ <-. }
  change (l_log s) with (l_log s2). change fs1 with (l_fs s2). change (l_cg s) with (l_cg s2) in Hcs |- *.
  rewrite Hc' in Hcs |- *. rewrite Hl'. clear Hr Hl' Hc' r Hl1.
  destruct (action_command (req_action req)) as [[command env]|] eqn:Ea.
  - unfold dispatch in Hd. destruct (req_action req) eqn:Eact; try done; injection Ea as -> ->.
    + apply run_shell_log in Hd as (es & Hl & Hs). exists es, cs. split_and!; [done..|]. right. exists command, env, false. split_and!; [done..|by apply Hs].
    + apply proc_start_log in Hd as (es & Hl & Hs). exists es, cs. split_and!; [done..|]. right. exists command, env, (is_ok r1). split_and!; [done..|by apply Hs].
  - apply other_actions_plumb in Hd as (es & Hl & Hes); [|done]. exists es, cs. split_and!; [done..|by left].
Qed.

Lemma elem_granted e egress domains network :
  e ∈ granted egress domains network <-> exists g, egress = Some g /\ e = Granted (g_token g) domains network.
Proof. unfold granted. destruct egress as [g|]; cbn; set_solver. Qed.

Lemma elem_revoked e egress : e ∈ revoked egress <-> exists g, egress = Some g /\ e = Revoked (g_token g).
Proof. unfold revoked. destruct egress as [g|]; cbn; set_solver. Qed.

Lemma not_plumbing es e : Forall plumbing es -> e ∈ es -> plumbing e.
Proof. intros Hes He. by eapply Forall_forall in Hes. Qed.

(** The parts of a step's log, by what they are. *)
Lemma step_events_elem be domains network P kept es e :
  step_events be domains network P kept es -> e ∈ es ->
  match e with
  | Started c pid => exists egress late, P egress late c pid /\ late ⊆ es /\ forall g, egress = Some g -> Granted (g_token g) domains network ∈ es
  | Granted tok d n => d = domains /\ n = network /\ may_grant be domains network
      /\ (kept = false -> exists es0, es = es0 ++ [Revoked tok])
  | _ => True
  end.
Proof.
  intros (pre & egress & started & late & Hes & Hpre & Hlate & _ & Hall & Hmay) He. subst es.
  rewrite !elem_of_app in He. destruct He as [He|[He|[He|[He|He]]]].
  - apply (not_plumbing _ _ Hpre) in He. by destruct e.
  - apply elem_granted in He as (g & -> & ->). split_and!; [done|done|by apply Hmay; eexists|].
    intros ->. eexists. cbn [revoked option_list fmap option_fmap option_map]. rewrite !app_assoc. reflexivity.
  - apply list_elem_of_fmap in He as ([c pid] & -> & Hc). exists egress, late. split_and!; [by eapply (Forall_forall _ _) in Hall; [|done]|set_solver|].
    intros g ->. rewrite !elem_of_app. right. left. apply elem_granted. eauto.
  - apply (not_plumbing _ _ Hlate) in He. by destruct e.
  - destruct kept; [by apply not_elem_of_nil in He|]. by apply elem_revoked in He as (g & _ & ->).
Qed.

Lemma canary_then_secret_true sh secret :
  canary_then_secret sh secret = true -> says CANARY (sh ("echo " +:+ CANARY)) = true /\ refused (sh ("cat " +:+ secret)) = true.
Proof. unfold canary_then_secret. by destruct (says _ _). Qed.

(** What a sandbox had to show. *)
Definition sandbox_shown (pr : Probes) (tech : SandboxTech) : Prop :=
  match tech with
  | NoSandbox => True
  | Bwrap => lh_linux = true /\ exists ws secret, pr_sandbox_dirs pr = Some (ws, secret)
      /\ let sh cmd := pr_run pr ("bwrap" :: bwrap_args ws [] [] ++ ["/bin/sh"; "-c"; cmd]) in
         says CANARY (sh ("echo " +:+ CANARY)) = true /\ refused (sh ("cat " +:+ secret)) = true
  | SandboxExec => lh_macos = true /\ exists ws secret, pr_sandbox_dirs pr = Some (ws, secret)
      /\ let sh cmd := pr_run pr ["/usr/bin/sandbox-exec"; "-f"; pr_profile pr; "/bin/sh"; "-c"; cmd] in
         pr_write_profile pr (seatbelt_profile lh_macos ws [] [] None) = true
         /\ says CANARY (sh ("echo " +:+ CANARY)) = true /\ refused (sh ("cat " +:+ secret)) = true
  end.

Lemma sandbox_probe_shown pr : sandbox_shown pr (sandbox_probe pr).
Proof.
  unfold sandbox_probe, probe. destruct (lh_linux && _) eqn:El.
  { apply andb_true_iff in El as [Hl Hp]. split; [done|]. unfold probe_bwrap in Hp.
    destruct (pr_sandbox_dirs pr) as [[ws secret]|]; [|done]. exists ws, secret. split; [done|]. by apply canary_then_secret_true. }
  destruct (lh_macos && _) eqn:Em; [|done]. apply andb_true_iff in Em as [Hm Hp]. split; [done|]. unfold probe_sandbox_exec in Hp.
  destruct (pr_sandbox_dirs pr) as [[ws secret]|]; [|done]. exists ws, secret. split; [done|].
  destruct (pr_write_profile pr _) eqn:Ew; [|done]. apply canary_then_secret_true in Hp as [? ?]. by split_and!.
Qed.

Lemma netns_probe_shown config pr sock n :
  netns_probe config pr sock = Some n ->
  exists ws probe_sock, pr_netns_dirs pr = Some (ws, probe_sock) /\ ne_variant n ∈ NETNS_CAP_VARIANTS
    /\ says "probe-ok" (pr_run pr ("bwrap" :: bwrap_args ws [] [] ++ bwrap_egress_args (ne_forwarder n) probe_sock (ne_variant n)
         ++ [NETNS_FWD_PATH; "--listen"; "127.0.0.1:" +:+ pretty NETNS_PROXY_PORT; "--unix"; NETNS_SOCK_PATH; "--probe"])) = true.
Proof.
  unfold netns_probe. destruct (find_egress_forwarder _ _ _ _ _ _) as [path|]; [|done]. cbn [mbind option_bind].
  destruct (probe_netns_egress _ _ _ _) as [variant|] eqn:Ev; [|done]. intros [= <-]. unfold probe_netns_egress in Ev.
  destruct lh_linux; [|done]. destruct (pr_netns_dirs pr) as [[ws probe_sock]|]; [|done]. apply find_some in Ev as [Hin Hs].
  exists ws, probe_sock. split_and!; [done|by apply list_elem_of_In|done].
Qed.

(** What the backend says of itself was proved on the host.  The isolation it reports is
    that of a sandbox in which, at construction, a canary ran and a file outside could not be
    read; a route for egress out of a network namespace is there only with that sandbox and
    egress enabled, and only for the forwarder and the flags under which its probe reached the
    host; group enforcement is on only for a parent that ended a complete proof of the
    [Cgroup] probe: file system, controllers, ceilings, accounting, a child that entered and
    was killed with the group.  A process ceiling of zero is refused. *)
Theorem backend_proved_not_declared config pr s be s' :
  new_backend config pr s = (Ok be, s') ->
  max_pids config <> 0 /\ sandbox_shown pr (lb_tech be)
  /\ Router.isolation_strength (local_profile be) = LocalSandbox.isolation_strength (sandbox_probe pr)
  /\ (forall n, lb_netns be = Some n -> lb_tech be = Bwrap /\ eg_enabled (lc_egress config) = true
        /\ exists ws sock, pr_netns_dirs pr = Some (ws, sock) /\ ne_variant n ∈ NETNS_CAP_VARIANTS
           /\ says "probe-ok" (pr_run pr ("bwrap" :: bwrap_args ws [] [] ++ bwrap_egress_args (ne_forwarder n) sock (ne_variant n)
                ++ [NETNS_FWD_PATH; "--listen"; "127.0.0.1:" +:+ pretty NETNS_PROXY_PORT; "--unix"; NETNS_SOCK_PATH; "--probe"])) = true)
  /\ (forall parent, lb_cgroups be = Some parent -> lh_linux = true
        /\ exists pre label calls, l_cg s `prefix_of` pre /\ l_cg s' = pre ++ calls /\ proof_of parent label calls).
Proof.
  unfold new_backend. destruct (Z.eqb_spec (max_pids config) 0) as [|Hp]; [done|].
  intros ([] & s1 & Hfs & Hn)%l_bind_Ok. assert (l_cg s1 = l_cg s) as Hcg
    by (unfold l_on_fs in Hfs; destruct (create_dir_all _ _); by injection Hfs as _ <-).
  unfold l_bind at 1, l_next in Hn. cbv beta iota in Hn. unfold l_bind, l_cgroup in Hn.
  destruct (probe_cgroups _ _ _ _ _) as [parent h] eqn:Ec. injection Hn as <- <-. cbn [lb_tech lb_netns lb_cgroups l_cg set_cg].
  split_and!; [done|apply sandbox_probe_shown|done| |].
  - intros n. destruct (bool_decide _ && _) eqn:Eb; [|done]. apply andb_true_iff in Eb as [Ht%bool_decide_eq_true Hen].
    intros Hns%netns_probe_shown. done.
  - intros p Hpar. destruct parent as [parent|e]; [|done]. subst parent. cbn [l_cg] in Ec. rewrite Hcg in Ec.
    apply probe_cgroups_trace in Ec as (Hl & _ & pre & n & calls & ? & ? & ?). split; [done|]. by eexists pre, _, calls.
Qed.

Lemma in_group_more be budget es es' cs c pid : es ⊆ es' -> in_group be budget es cs c pid -> in_group be budget es' cs c pid.
Proof.
  unfold in_group. destruct (lb_cgroups be) as [parent|]; [|done]. intros Hsub (label & cs1 & cs2 & Hcs & Hc & Hw).
  exists label, cs1, cs2. split_and!; [done..|]. intros Hp. by apply Hsub, Hw.
Qed.

(** C18: No command of a step runs unconfined. Whatever the host answers, at most one command
    starts, only for a shell or process action with a CPU budget: wrapped in the sandbox
    verified at construction with exactly the granted prefixes (or, with none verified, the
    operator opted out), in a directory that leads into the branch's workspace, with the
    action's own variables, four base ones and, given a grant, the proxy's. It is its own
    process group, limited to its budget's CPU seconds rounded up plus one and to the
    configured file size. Where control groups were verified, one was made for it with the
    memory ceiling of its budget (if not zero), no swap and the process ceiling; the child
    enters it first (unless the path has a NUL byte), and once alive its CPU budget is
    monitored. Egress is granted only if enabled, with the granted domains and budgeted bytes,
    under bubblewrap only by its verified route, and revoked at the end of a shell step. *)
Theorem commands_confined be req s r s' :
  local_execute be req s = (r, s') ->
  exists es cs, l_log s' = l_log s ++ es /\ l_cg s' = l_cg s ++ cs
    /\ (length (List.filter (fun e => match e with Started _ _ => true | _ => false end) es) <= 1)%nat
    /\ (forall c pid, Started c pid ∈ es -> exists command env egress,
          action_command (req_action req) = Some (command, env)
          /\ confined_command be (workspace_for (l_fs s) (lc_root (lb_config be)) (req_branch req)).2
               (lc_root (lb_config be) ++ [req_branch req]) command env (req_budget req)
               (req_readable_prefixes req) (req_writable_prefixes req) cs egress es c pid
          /\ forall g, egress = Some g -> Granted (g_token g) (req_egress_domains req) (network_bytes (req_budget req)) ∈ es)
    /\ (forall tok d n, Granted tok d n ∈ es ->
          d = req_egress_domains req /\ n = network_bytes (req_budget req)
          /\ may_grant be (req_egress_domains req) (network_bytes (req_budget req))
          /\ (forall command cwd env, req_action req = Shell command cwd env -> exists es0, es = es0 ++ [Revoked tok])).
Proof.
  intros (es & cs & Hl & Hcs & Hcase)%execute_log. exists es, cs. split; [done|]. split; [done|].
  destruct Hcase as [Hp|(command & env & kept & Ha & Hk & Hs)].
  - split_and!; [|by intros c pid Hc%(not_plumbing _ _ Hp)|by intros tok d n Hg%(not_plumbing _ _ Hp)].
    clear Hl. induction Hp as [|e es' He Hes IH]; [cbn; lia|]. cbn. destruct e; cbn; try done; apply IH.
  - split_and!.
    + destruct Hs as (pre & egress & started & late & -> & Hpre & Hlate & Hlen & _).
      assert (forall l, Forall plumbing l -> List.filter (fun e => match e with Started _ _ => true | _ => false end) l = []) as Hno.
      { intros l Hl'. induction Hl' as [|e l' He Hes IH]; [done|]. cbn. by destruct e. }
      rewrite !List.filter_app, (Hno _ Hpre), (Hno _ Hlate). unfold granted, revoked.
      destruct egress, kept, started as [|c [|]]; cbn in *; lia.
    + intros c pid Hc. destruct (step_events_elem _ _ _ _ _ _ _ Hs Hc) as (egress & late & Hcc & Hsub & Hg). exists command, env, egress.
      split_and!; [done| |done]. destruct Hcc as (? & ws & cwd & q & ? & ? & ? & ? & ? & ? & ?). split; [done|].
      exists ws, cwd, q. split_and!; try done. by eapply in_group_more.
    + intros tok d n Hg. destruct (step_events_elem _ _ _ _ _ _ _ Hs Hg) as (-> & -> & Hm & Hr). split_and!; [done..|].
      intros c cwd e Hact. apply Hr. by eapply Hk.
Qed.

(** * An exhausted step is no success *)

Lemma failed_0 code : failed code = 0 -> False.
Proof. unfold failed. destruct (Z.eqb_spec code 0); lia. Qed.

Lemma account_0 be budget c r :
  er_exit (account be budget c r) = 0 ->
  er_exit r = 0 /\ positive (gc_oom c) = None /\ cpu_spent budget c = false
  /\ er_meter (account be budget c r) = group_meter c <$> er_meter r.
Proof.
  unfold account. set (r0 := mkExec _ _ _ _ _). unfold note_cpu. destruct (cpu_spent budget c).
  { by intros []%failed_0. }
  unfold note_pids. intros He.
  assert (er_exit (note_oom budget c r0) = 0) as He' by by destruct (positive (gc_pids c)).
  assert (forall x, er_meter (match positive (gc_pids c) with
    | Some hits => with_result x (er_exit x) (append_diagnostic (er_stderr x) ("process creation denied " +:+ pretty hits
        +:+ " time(s): the step's pids.max ceiling is " +:+ pretty (max_pids (lb_config be)))) | None => x end) = er_meter x) as Hm
    by (intros x; by destruct (positive (gc_pids c))).
  rewrite Hm. unfold note_oom in *. destruct (positive (gc_oom c)); [by apply failed_0 in He'|done].
Qed.

(** A step that reports success was not cut short.  Exit code zero means that the child
    was reaped within its deadline and itself exited with zero; and, where its control group
    was verified, that the group counted no kill for memory, that its CPU time was below the
    budget and the monitor had not killed it, and that the usage reported is the group's, as
    far as the group counted it. *)
Theorem success_is_within_budget be budget cmd egress group s res s' :
  run_command be budget cmd egress group s = (Ok res, s') -> er_exit res = 0 ->
  let run := (lh_run (l_tick s) (timeout_of be budget) cmd (l_fs s)).1 in
  exists w, cr_timed_out run = false /\ cr_joined run = Ok (Ok w) /\ w_exited w = Some 0
  /\ match group with
     | None => er_meter res = Some (meter_of (w_usage w))
     | Some dir => exists c s1 exhausted,
         read_counts dir exhausted s1 = (Ok c, s') /\ positive (gc_oom c) = None /\ cpu_spent budget c = false
         /\ er_meter res = Some (group_meter c (meter_of (w_usage w)))
     end.
Proof.
  unfold run_command. intros Hr Hz. unfold l_bind at 1, l_next in Hr. cbv beta iota zeta in Hr. unfold l_bind at 1 in Hr. cbn [l_fs] in Hr.
  destruct (lh_run _ _ _ _) as [run fs]. cbn [fst]. set (s1 := add_log _ _) in Hr. clearbody s1.
  apply l_bind_Ok in Hr as (exhausted & s2 & _ & Hr). apply l_bind_Ok in Hr as (res0 & s3 & Hres & Hr).
  assert (er_exit res0 = 0 /\ match group with
     | None => er_meter res = er_meter res0
     | Some dir => exists c s1 exhausted, read_counts dir exhausted s1 = (Ok c, s') /\ positive (gc_oom c) = None
         /\ cpu_spent budget c = false /\ er_meter res = group_meter c <$> er_meter res0 end) as [Hz' Hgroup].
  { destruct group as [dir|].
    - apply l_bind_Ok in Hr as (c & s4 & Hc & Hr). injection Hr as <- <-. apply account_0 in Hz as (? & ? & ? & ?).
      split; [done|]. by exists c, s3, exhausted.
    - injection Hr as <- <-. done. }
  destruct (cr_timed_out run).
  { apply l_bind_Ok in Hres as ([] & s4 & _ & Hres). destruct (cr_joined run) as [w|e]; [|done].
    apply l_bind_Ok in Hres as (n & s5 & _ & Hres). injection Hres as <- _. by cbn in Hz'. }
  destruct (cr_joined run) as [[w|e]|e]; [|done..]. apply l_bind_Ok in Hres as (n & s5 & _ & Hres). injection Hres as <- _.
  cbn in Hz', Hgroup. exists w. split_and!; [done..| |done].
  unfold default in Hz'. destruct (w_exited w) as [code|]; cbn in Hz'; [by rewrite Hz'|lia].
Qed.

(** * Discarding a branch *)

(** The calls that send a signal. *)
Definition sends (c : KillCall) : Prop :=
  match c with CgroupKill _ | KillGroup _ _ | KillOne _ _ => True | _ => False end.

Lemma release_calls calls s :
  let s' := foldl release_call s calls in
  l_fs s' = l_fs s /\ l_procs s' = l_procs s
  /\ exists es cs, l_log s' = l_log s ++ es /\ l_cg s' = l_cg s ++ cs
     /\ (forall c, c ∈ calls -> sends c -> Signalled c ∈ es)
     /\ (forall tok, GrantRevoked tok ∈ calls -> Revoked tok ∈ es)
     /\ (forall dir, GroupDropped dir ∈ calls -> exists k, CWrite (join dir "cgroup.kill") "1" k ∈ cs).
Proof.
  revert s. induction calls as [|c calls IH]; intros s; cbn zeta.
  { split_and!; [done..|]. exists [], []. rewrite !app_nil_r. split_and!; [done..| | |]; by intros ? []%not_elem_of_nil. }
  cbn [foldl]. destruct (IH (release_call s c)) as (Hfs & Hps & es & cs & Hes & Hcs & Hk & Hr & Hg).
  assert (exists e1 c1, l_fs (release_call s c) = l_fs s /\ l_procs (release_call s c) = l_procs s
    /\ l_log (release_call s c) = l_log s ++ e1 /\ l_cg (release_call s c) = l_cg s ++ c1
    /\ (sends c -> Signalled c ∈ e1)
    /\ (forall tok, c = GrantRevoked tok -> Revoked tok ∈ e1)
    /\ (forall dir, c = GroupDropped dir -> exists k, CWrite (join dir "cgroup.kill") "1" k ∈ c1)) as (e1 & c1 & Hf1 & Hp1 & He1 & Hc1 & Hk1 & Hr1 & Hg1).
  { destruct c; cbn [release_call l_fs l_procs l_log l_cg add_log set_cg];
      try (eexists _, []; split_and!; [done|done|reflexivity|by rewrite app_nil_r|first [done | intros; by left]|..]; try done; intros ? [= <-]; by left).
    destruct (drop_group_trace dir (l_cg s)) as (k & rs & -> & _). exists []. eexists.
    split_and!; [done|done|by rewrite app_nil_r|reflexivity|done|done|]. intros ? [= <-]. exists k. by left. }
  rewrite Hfs, Hps, Hf1, Hp1. split_and!; [done..|]. exists (e1 ++ es), (c1 ++ cs).
  rewrite Hes, Hcs, He1, Hc1, !app_assoc. split_and!; [done..| | |].
  - intros c' [->|Hin]%elem_of_cons Hs; apply elem_of_app; [left; by apply Hk1|right; by apply Hk].
  - intros tok [Heq|Hin]%elem_of_cons; apply elem_of_app; [left; by apply Hr1|right; by apply Hr].
  - intros dir [Heq|Hin]%elem_of_cons; [destruct (Hg1 dir) as [k Hk']; [done|]|destruct (Hg dir Hin) as [k Hk']];
      exists k; apply elem_of_app; auto.
Qed.

Lemma link_has_nothing_below fs x target m q :
  tree fs -> fs !! x = Some (Link target m) -> x `prefix_of` q -> q <> x -> fs !! q = None.
Proof.
  intros Ht Hx [[|c r] ->] Hne; [by rewrite app_nil_r in Hne|]. destruct (fs !! (x ++ c :: r)) as [n|] eqn:Eq; [|done].
  apply Ht in Eq as [_ Hd]. apply Ht in Hx as Hx'. specialize (Hd x c r eq_refl (proj1 Hx')). congruence.
Qed.

Lemma discard_workspace_exact fs root branch fs' :
  tree fs -> discard_workspace fs root branch = (Ok tt, fs') ->
  if path_exists fs (root ++ [branch]) then
    exists x, locate fs (root ++ [branch]) = Ok x /\ forall q, fs' !! q = if bool_decide (x `prefix_of` q) then None else fs !! q
  else fs' = fs.
Proof.
  intros Ht. unfold discard_workspace. destruct (path_exists fs _); [|by intros [= <-]].
  destruct (remove_dir_all fs _) as [fs1|e] eqn:Er; [|done]. intros [= <-].
  apply bind_Ok in Er as (x & Hx & Hrm). exists x. split; [done|]. intros q. destruct (fs !! x) as [[c m| |target m]|] eqn:Ex; try done.
  - injection Hrm as <-. unfold prune. case_bool_decide as Hpre.
    + apply map_lookup_filter_None. right. intros n _. cbn. tauto.
    + destruct (fs !! q) as [n|] eqn:Eq; [by apply map_lookup_filter_Some|]. apply map_lookup_filter_None. by left.
  - injection Hrm as <-. case_bool_decide as Hpre; [|by rewrite lookup_delete_ne by (intros ->; by apply Hpre)].
    destruct (decide (q = x)) as [->|Hne]; [apply lookup_delete_eq|]. rewrite lookup_delete_ne by done.
    by eapply link_has_nothing_below.
Qed.

(** What was sent to end a session that still ran: its control group is killed as
    a whole; without one its process group is sent SIGKILL and, should that
    fail, the process itself. *)
Definition killed (os : KillOs) (p : ProcessSession) (pid : Z) (es : list LEvent) : Prop :=
  match ps_cgroup p with
  | Some dir => Signalled (CgroupKill dir) ∈ es
  | None => Signalled (KillGroup "KILL" pid) ∈ es
      /\ (os_kill_group os "KILL" pid = Ok false -> Signalled (KillOne "KILL" pid) ∈ es)
  end.

Lemma kill_sent `{!Counters} os p pid (calls : list KillCall) (es : list LEvent) :
  ps_pid p = Some pid -> running p = true ->
  (forall c, c ∈ end_session os p -> c ∈ calls) -> (forall c, c ∈ calls -> sends c -> Signalled c ∈ es) -> killed os p pid es.
Proof.
  intros Hpid Hrun Hall Hsent.
  assert (forall c, c ∈ (LocalProcess.signal os p "kill").2 -> sends c -> Signalled c ∈ es) as Hin.
  { intros c Hc. apply Hsent, Hall. unfold end_session. apply elem_of_app. by left. }
  unfold LocalProcess.signal in Hin. cbn [sig_of String.eqb] in Hin. rewrite Hpid, Hrun in Hin. cbn in Hin. unfold killed.
  destruct (ps_cgroup p) as [dir|]; [by apply Hin; [left|]|].
  destruct (os_kill_group os "KILL" pid) as [[]|e]; split; try done; try (by apply Hin; [left|]). intros _. by apply Hin; [right; left|].
Qed.

(** C21: A discarded branch leaves nothing behind.  When the backend reports success, the
    sessions that remain are exactly those of other branches.  Every session of the branch
    that had a process id and still ran was killed: through its control group, or, without
    one, by SIGKILL to its process group and, should that fail, to the process itself.  Every
    session of the branch had its egress grant revoked and, running or not, the whole tree of
    its control group killed once more as the group is dropped.  And if the branch's workspace
    was there, everything at or below it is gone and nothing else in the file system changed. *)
Theorem discard_leaves_nothing be branch s s' :
  tree (l_fs s) -> local_discard be branch s = (Ok tt, s') ->
  (forall id p, l_procs s' !! id = Some p <-> l_procs s !! id = Some p /\ ps_branch p <> branch)
  /\ (exists es cs, l_log s' = l_log s ++ es /\ l_cg s' = l_cg s ++ cs
      /\ forall id p, l_procs s !! id = Some p -> ps_branch p = branch ->
         (forall pid, ps_pid p = Some pid -> @running (lh_counters (l_tick s)) p = true -> killed (lh_kill (l_tick s)) p pid es)
         /\ (forall tok, ps_egress p = Some tok -> Revoked tok ∈ es)
         /\ (forall dir, ps_cgroup p = Some dir -> exists k, CWrite (join dir "cgroup.kill") "1" k ∈ cs))
  /\ let dir := lc_root (lb_config be) ++ [branch] in
     if path_exists (l_fs s) dir then
       exists x, locate (l_fs s) dir = Ok x
         /\ forall q, l_fs s' !! q = if bool_decide (x `prefix_of` q) then None else l_fs s !! q
     else l_fs s' = l_fs s.
Proof.
  intros Ht Hd. unfold local_discard in Hd. unfold l_bind at 1, l_next in Hd. cbv beta iota in Hd. unfold l_bind, l_modify in Hd.
  destruct (@kill_branch _ _ _ _) as [[n reg] calls] eqn:Ek. cbn [l_procs] in Ek.
  apply kill_branch_exact in Ek as (Hreg & Hall & _). set (s1 := mkLState _ _ _ _ _ _ _) in Hd.
  destruct (release_calls calls (set_procs reg s1)) as (Hfs & Hps & es & cs & Hes & Hcs & Hk & Hr & Hg).
  unfold l_on_fs in Hd. rewrite Hfs in Hd. destruct (discard_workspace _ _ _) as [r fs'] eqn:Ew. injection Hd as -> <-.
  apply (discard_workspace_exact _ _ _ _ Ht) in Ew. cbn [l_procs l_fs l_log l_cg set_fs]. rewrite Hps, Hes, Hcs. split_and!.
  - exact Hreg.
  - exists es, cs. split_and!; [done..|]. intros id p Hid Hb. split_and!.
    + intros pid Hpid Hrun. eapply kill_sent; [done|exact Hrun|exact (Hall id p Hid Hb)|done].
    + intros tok Htok. apply Hr, (Hall id p Hid Hb). unfold end_session, session_drop. rewrite Htok, !elem_of_app. right. left. by left.
    + intros dir Hdir. apply Hg, (Hall id p Hid Hb). unfold end_session, session_drop. rewrite Hdir, !elem_of_app. right. right. by left.
  - exact Ew.
Qed.
End safety.

(** * A host *)

Module LocalDemo.
#[local] Existing Instance CgroupDemo.host.
#[local] Instance errors : IoText := {| errno_text _ := "error" |}.
#[local] Instance serde : Serde := {| scalar_to_string _ := "0" |}.

Definition counters : Counters :=
  {| group_view _ := mkGroup (Some true) (Some 3) None None None false; grant_used _ := 512 |}.

Definition killer : KillOs := mkKillOs (fun _ => Ok tt) (fun _ _ => Ok true) (fun _ _ => Ok true).

(** A Linux host where every child exits with zero at once. *)
#[local] Instance machine : LocalHost := {|
  lh_linux := true;
  lh_macos := false;
  lh_path := Some "/usr/bin:/bin";
  lh_fresh n := "id-" +:+ pretty n;
  lh_now n := Z.of_nat n;
  lh_elapsed _ := 5;
  lh_proxy _ := Ok 40001;
  lh_unix _ := Ok tt;
  lh_profile _ _ := Err "no Seatbelt here";
  lh_run _ _ _ fs := (mkRun (Some 77) 1 false (Ok (Ok (mkWaited (Some 0) (mkRusage (0, 1500) (0, 700) 2048) "hi" EmptyString))), fs);
  lh_spawn _ _ := Ok (Some 78);
  lh_turns _ := 2%nat;
  lh_stdin _ _ _ := Ok tt;
  lh_flush _ _ := Ok tt;
  lh_counters _ := counters;
  lh_kill _ := killer;
|}.

Definition backend : LocalBackend :=
  mkLocalBackend (config_new ["srv"]) Bwrap (Some (mkNetns "/opt/ak-egress-fwd" [] "/srv/.egress-0.sock"))
    (Some "/sys/fs/cgroup/ak").

Definition fs0 : Fs := {[ ["srv"] := Dir ]}.

Definition state0 : LState := mkLState fs0 ∅ None false [] [] 0.

Definition request (a : ActionKind) : ExecutionRequest :=
  mkRequest "br-1" "st-0" "agent" a (mkBudget 1000 (2 ^ 20) 4096 0 0 0) [] [] ["example.com"].

Definition shell : LState := (local_execute backend (request (Shell "make" None ∅)) state0).2.

Lemma commands_confined_witness :
  (exists c pid label, Started c pid ∈ l_log shell /\ Watched (join "/sys/fs/cgroup/ak" ("ak-" +:+ label)) 1000 ∈ l_log shell)
  /\ exists es0 tok, l_log shell = es0 ++ [Revoked tok].
Proof.
  assert (existsb (fun e => match e with Started _ (Some 77) => true | _ => false end) (l_log shell) = true) as Hc by (vm_compute; reflexivity).
  assert (Granted "id-3" ["example.com"] 4096 ∈ l_log shell) as Hin by (vm_compute; repeat constructor).
  pose proof (commands_confined backend (request (Shell "make" None ∅)) state0 _ shell (surjective_pairing _)) as Hall.
  revert Hc Hin Hall. generalize shell. intros st Hc Hin (es & cs & Hes & _ & _ & Hs & Hg). cbn [l_log state0 app] in Hes. subst es. split.
  - apply existsb_exists in Hc as (e & He%list_elem_of_In & Hst). destruct e; try done. destruct pid as [pid|]; [|done].
    destruct (Hs _ _ He) as (command & env & egress & _ & (_ & ws & cwd & q & _ & _ & _ & _ & _ & _ & label & _ & _ & _ & _ & Hw) & _).
    eexists _, _, label. split; [exact He|]. apply Hw. by eexists.
  - destruct (Hg _ _ _ Hin) as (_ & _ & _ & Hr). destruct (Hr "make" None ∅ eq_refl) as [es0 ->]. by exists es0, "id-3".
Defined.

Definition command : Command := mkCommand "/bin/sh" ["-c"; "true"] None ∅ true None 2 100 false.

Definition ran : KernelResult ExecResult * LState :=
  run_command backend (mkBudget 1000 0 0 0 0 0) command None (Some "/sys/fs/cgroup/ak/ak-1") state0.

Definition ran_result : ExecResult := value_of (done_with 1 EmptyString EmptyString) ran.1.

Lemma ran_ok : ran = (Ok ran_result, ran.2).
Proof. apply outcome_ok. vm_compute. reflexivity. Qed.

Lemma success_is_within_budget_witness :
  er_exit ran_result = 0 /\ exists w c, er_meter ran_result = Some (group_meter c (meter_of (w_usage w)))
    /\ cpu_spent (mkBudget 1000 0 0 0 0 0) c = false.
Proof.
  assert (er_exit ran_result = 0) as Hz by (vm_compute; reflexivity). split; [exact Hz|].
  destruct (@success_is_within_budget machine CgroupDemo.host backend (mkBudget 1000 0 0 0 0 0) command None (Some "/sys/fs/cgroup/ak/ak-1") state0
    ran_result ran.2 ran_ok Hz) as (w & _ & _ & _ & c & _ & _ & _ & _ & Hc & Hm).
  exists w, c. split; assumption.
Defined.

(** Two branches with a session each; the first is discarded. *)
Definition started (st : LState) (branch : string) : LState :=
  (local_execute backend (mkRequest branch "st-0" "agent" (ProcessStart "serve" None ∅ None)
     (mkBudget 1000 0 4096 0 0 0) [] [] ["example.com"]) st).2.

Definition two : LState := started (started state0 "br-1") "br-2".

Definition discarded : KernelResult () * LState := local_discard backend "br-1" two.

Lemma discarded_ok : discarded = (Ok tt, discarded.2).
Proof.
  assert (discarded.1 = Ok tt) as Hok by (vm_compute; reflexivity). destruct discarded as [r st]. cbn in Hok. by subst r.
Qed.

Lemma two_tree : tree (l_fs two).
Proof. apply LocalFilesDemo.treeb_tree. vm_compute. reflexivity. Qed.

Lemma discard_leaves_nothing_witness :
  length (map_to_list (l_procs two)) = 2%nat /\ length (map_to_list (l_procs discarded.2)) = 1%nat
  /\ forall id p, l_procs discarded.2 !! id = Some p -> ps_branch p <> "br-1".
Proof.
  split; [vm_compute; reflexivity|]. split; [vm_compute; reflexivity|]. intros id p Hp.
  destruct (@discard_leaves_nothing errors machine CgroupDemo.host backend "br-1" two discarded.2 two_tree discarded_ok) as [Hprocs _].
  apply Hprocs in Hp as [_ Hne]. exact Hne.
Defined.

(** A host whose bubblewrap works, with the forwarder on the search path. *)
Definition probes : Probes :=
  mkProbes (Some ("/tmp/p/ws", "/tmp/p/host-secret.txt")) EmptyString (fun _ => true) (Some ("/tmp/n/ws", "/tmp/n/probe.sock"))
    (fun argv => match last argv with
                 | Some "--probe" => Some (mkOutput true "probe-ok")
                 | Some cmd => Some (mkOutput (starts_with "echo" cmd) cmd)
                 | None => None
                 end)
    None None (fun p => String.eqb p "/bin/ak-egress-fwd") Some (Some "/sys/fs/cgroup/ak").

Definition built : KernelResult LocalBackend * LState := new_backend (config_new ["srv"]) probes state0.

Definition built_backend : LocalBackend := value_of backend built.1.

Lemma built_ok : built = (Ok built_backend, built.2).
Proof. apply outcome_ok. vm_compute. reflexivity. Qed.

Lemma backend_proved_not_declared_witness :
  lb_tech built_backend = Bwrap /\ lb_cgroups built_backend = Some "/sys/fs/cgroup/ak"
  /\ is_Some (lb_netns built_backend)
  /\ exists pre label calls, l_cg built.2 = pre ++ calls /\ proof_of "/sys/fs/cgroup/ak" label calls.
Proof.
  split; [vm_compute; reflexivity|]. assert (lb_cgroups built_backend = Some "/sys/fs/cgroup/ak") as Hc by (vm_compute; reflexivity).
  split; [exact Hc|]. split; [vm_compute; eexists; reflexivity|].
  destruct (@backend_proved_not_declared errors machine CgroupDemo.host (config_new ["srv"]) probes state0 built_backend built.2 built_ok)
    as (_ & _ & _ & _ & Hp). destruct (Hp _ Hc) as (_ & pre & label & calls & _ & Hl & Hproof).
  exists pre, label, calls. split; assumption.
Defined.
End LocalDemo.
