(* ===== verification/EgressFwd.v ===== *)
(** The forwarder that runs inside a network namespace,
    [backends/local/src/bin/ak_egress_fwd.rs].

    It brings the loopback interface up, listens there, copies each connection
    to and from the Unix socket of the egress proxy, and runs the confined
    command.  What the operating system answers is the record [FwdHost]; a
    connection is the script of what its two directions read and how far each
    write got.  A failure prints a message and exits with status 3. *)

From stdpp Require Import pretty.
From S2P Require Import Prelude B64 LocalSandbox.

Open Scope Z_scope.

Record FwdArgs := mkFwdArgs {
  fwd_listen : string;
  fwd_unix : string;
  fwd_probe : bool;
  fwd_command : list string;
}.

(** * Arguments *)

Record Scan := mkScan { sc_listen : option string; sc_unix : option string; sc_probe : bool; sc_command : list string }.

Fixpoint scan_args (l : list string) (s : Scan) : result string Scan :=
  match l with
  | [] => Ok s
  | arg :: rest =>
      if String.eqb arg "--listen" then
        match rest with
        | [] => Ok (mkScan None (sc_unix s) (sc_probe s) (sc_command s))
        | v :: rest' => scan_args rest' (mkScan (Some v) (sc_unix s) (sc_probe s) (sc_command s))
        end
      else if String.eqb arg "--unix" then
        match rest with
        | [] => Ok (mkScan (sc_listen s) None (sc_probe s) (sc_command s))
        | v :: rest' => scan_args rest' (mkScan (sc_listen s) (Some v) (sc_probe s) (sc_command s))
        end
      else if String.eqb arg "--probe" then scan_args rest (mkScan (sc_listen s) (sc_unix s) true (sc_command s))
      else if String.eqb arg "--" then Ok (mkScan (sc_listen s) (sc_unix s) (sc_probe s) rest)
      else Err ("unknown argument `" +:+ arg +:+ "`")
  end.

Definition parse_args (argv : list string) : result string FwdArgs :=
  s ← scan_args argv (mkScan None None false []);
  match sc_listen s, sc_unix s with
  | Some listen, Some unix =>
      if negb (sc_probe s) && (length (sc_command s) =? 0)%nat then Err "no command given (and not --probe)"
      else Ok (mkFwdArgs listen unix (sc_probe s) (sc_command s))
  | _, _ => Err "usage: ak-egress-fwd --listen ADDR --unix PATH (--probe | -- CMD ...)"
  end.

(** * The loopback interface *)

(** [c_short] flags of an interface. *)
Definition IFF_UP : Z := 1.
Definition IFF_RUNNING : Z := 64.

(** The flags written, if any, and how the call ends. *)
Definition up_loopback (socket : result string ()) (flags : result string Z) (set : Z -> result string ())
    : option Z * result string () :=
  match socket, flags with
  | Err e, _ => (None, Err e)
  | Ok _, Err e => (None, Err e)
  | Ok _, Ok f =>
      if negb (Z.land f IFF_UP =? 0) then (None, Ok tt)
      else let f' := Z.lor f (Z.lor IFF_UP IFF_RUNNING) in (Some f', set f')
  end.

(** * Copying *)

(** One turn of the copy: what is read, and how many bytes a failed write had delivered. *)
Record Turn := mkTurn { t_read : result string string; t_failed : option (nat * string) }.

Record Copied := mkCopied {
  delivered : string;
  shut : bool;                        (* the write side was shut down *)
  ended : option (result string ());  (* [None]: still reading *)
}.

Fixpoint pump (turns : list Turn) (sent : string) : Copied :=
  match turns with
  | [] => mkCopied sent false None
  | t :: rest =>
      match t_read t with
      | Err e => mkCopied sent false (Some (Err e))
      | Ok EmptyString => mkCopied sent true (Some (Ok tt))
      | Ok chunk =>
          match t_failed t with
          | None => pump rest (sent +:+ chunk)
          | Some (n, e) => mkCopied (sent +:+ String.substring 0 n chunk) false (Some (Err e))
          end
      end
  end.

(** What a forwarder dials. *)
Inductive Dial : Type := DialUnix (path : string) | DialSelf.

(** What the system answers when a connection is bridged. *)
Record BridgeHost := mkBridge {
  br_connect : bool;
  br_clones : bool * bool;
  br_up : list Turn;                  (* from the sandbox to the proxy *)
  br_down : list Turn;
}.

(** The dials, and what went up and down when both directions ran. *)
Definition bridge (unix_path : string) (h : BridgeHost) : list Dial * option (Copied * Copied) :=
  ([DialUnix unix_path],
   if br_connect h && (br_clones h).1 && (br_clones h).2
   then Some (pump (br_up h) EmptyString, pump (br_down h) EmptyString) else None).

(** * The program *)

Record FwdHost := mkFwdHost {
  fh_socket : result string ();
  fh_flags : result string Z;
  fh_set : Z -> result string ();
  fh_bind : string -> result string ();
  fh_local_addr : result string ();
  fh_accepted : list BridgeHost;      (* the connections that come in *)
  fh_probe_connect : result string ();
  fh_probe_write : bool;
  fh_probe_read : result string string;
  fh_status : list string -> result string (option Z);  (* the code of a command, none if killed *)
}.

Record FwdRun := mkFwdRun {
  fr_exit : Z;
  fr_stdout : string;
  fr_ran : option (list string);
  fr_dials : list Dial;
}.

Definition fail_run (dials : list Dial) : FwdRun := mkFwdRun 3 EmptyString None dials.

Definition PROBE : string := "AK_EGRESS_PROBE" +:+ String "010" EmptyString.
Definition PONG : string := "AK_EGRESS_PONG" +:+ String "010" EmptyString.

(** [exit]: the status is one byte. *)
Definition exit_status (code : Z) : Z := code mod 256.

Definition probe_run (h : FwdHost) (dials : list Dial) : FwdRun :=
  match fh_probe_connect h with
  | Err _ => fail_run (dials ++ [DialSelf])
  | Ok _ =>
      if negb (fh_probe_write h) then fail_run (dials ++ [DialSelf])
      else
        let reply := match fh_probe_read h with Ok s => String.substring 0 64 s | Err _ => EmptyString end in
        if String.eqb reply PONG then mkFwdRun 0 ("probe-ok" +:+ String "010" EmptyString) None (dials ++ [DialSelf])
        else fail_run (dials ++ [DialSelf])
  end.

Definition fwd_main (h : FwdHost) (argv : list string) : FwdRun :=
  match parse_args argv with
  | Err _ => fail_run []
  | Ok args =>
      match (up_loopback (fh_socket h) (fh_flags h) (fh_set h)).2, fh_bind h (fwd_listen args), fh_local_addr h with
      | Ok _, Ok _, Ok _ =>
          let dials := flat_map (fun c => (bridge (fwd_unix args) c).1) (fh_accepted h) in
          if fwd_probe args then probe_run h dials
          else
            match fh_status h (fwd_command args) with
            | Ok code => mkFwdRun (exit_status (default (-1) code)) EmptyString (Some (fwd_command args)) dials
            | Err _ => fail_run dials
            end
      | _, _, _ => fail_run []
      end
  end.

(** * What it guarantees *)

(** All bytes read, until the end of the input or a failure. *)
Fixpoint bytes_read (turns : list Turn) : string :=
  match turns with
  | [] => EmptyString
  | t :: rest =>
      match t_read t with
      | Ok (String c s) => String c s +:+ (match t_failed t with None => bytes_read rest | Some _ => EmptyString end)
      | _ => EmptyString
      end
  end.

Lemma pump_sent turns sent :
  exists s, delivered (pump turns sent) = sent +:+ s /\ (exists r, bytes_read turns = s +:+ r)
    /\ (ended (pump turns sent) = Some (Ok tt) -> bytes_read turns = s)
    /\ (ended (pump turns sent) = None -> bytes_read turns = s)
    /\ (shut (pump turns sent) = true <-> ended (pump turns sent) = Some (Ok tt)).
Proof.
  revert sent. induction turns as [|[[[|c s]|e] failed] turns IH]; intros sent; cbn [pump bytes_read t_read t_failed delivered ended shut].
  - exists EmptyString. rewrite str_app_nil_r. split_and!; try done. by exists EmptyString.
  - exists EmptyString. rewrite str_app_nil_r. split_and!; try done. by exists EmptyString.
  - destruct failed as [[n e]|]; cbn [delivered ended shut].
    + exists (String.substring 0 n (String c s)). split_and!; try done. exists (str_drop n (String c s)). by rewrite str_app_nil_r, substring_0_app.
    + destruct (IH (sent +:+ String c s)) as (s' & Hd & (r & Hr) & He & Hn & Hs). exists (String c s +:+ s').
      rewrite Hd, str_app_assoc. split_and!; [done| | | |done].
      * exists r. by rewrite Hr, str_app_assoc.
      * intros H%He. by rewrite H.
      * intros H%Hn. by rewrite H.
  - exists EmptyString. rewrite str_app_nil_r. split_and!; try done. by exists EmptyString.
Qed.

(** The bridge copies and nothing more.  What a direction delivers is a prefix of what it
    read, in order; it is all of it while the direction is open and when it ends at the end
    of its input, and the shutdown is passed on exactly then. *)
Theorem pump_exact turns :
  (exists r, bytes_read turns = delivered (pump turns EmptyString) +:+ r)
  /\ (ended (pump turns EmptyString) = Some (Ok tt) \/ ended (pump turns EmptyString) = None ->
      delivered (pump turns EmptyString) = bytes_read turns)
  /\ (shut (pump turns EmptyString) = true <-> ended (pump turns EmptyString) = Some (Ok tt)).
Proof.
  destruct (pump_sent turns EmptyString) as (s & Hd & Hr & He & Hn & Hs). change (EmptyString +:+ s) with s in Hd.
  rewrite Hd. split_and!; [done| |done]. intros [?%He|?%Hn]; congruence.
Qed.

(** The dials of a run: the proxy's socket, and the forwarder's own listener for its probe. *)
Definition own_dial (unix_path : string) (d : Dial) : Prop := d = DialUnix unix_path \/ d = DialSelf.

Lemma bridge_dials unix l : Forall (own_dial unix) (flat_map (fun c => (bridge unix c).1) l).
Proof. induction l as [|c l IH]; cbn; constructor; [by left|done]. Qed.

Lemma probe_dials unix h dials : Forall (own_dial unix) dials -> Forall (own_dial unix) (fr_dials (probe_run h dials)).
Proof.
  intros Hd. assert (Forall (own_dial unix) (dials ++ [DialSelf])) as Ha by (apply Forall_app; split; [done|constructor; [by right|done]]).
  unfold probe_run. destruct (fh_probe_connect h); [|done]. destruct (negb (fh_probe_write h)); [done|].
  by destruct (String.eqb _ PONG).
Qed.

(** The forwarder adds no authority: whatever connects to it, and whatever the system
    answers, it dials only the socket it was given and its own listener, and runs only the
    command it was given. *)
Theorem forwarder_adds_no_authority h argv args :
  parse_args argv = Ok args ->
  Forall (own_dial (fwd_unix args)) (fr_dials (fwd_main h argv))
  /\ (fr_ran (fwd_main h argv) = None \/ fr_ran (fwd_main h argv) = Some (fwd_command args)).
Proof.
  intros Hp. unfold fwd_main. rewrite Hp. destruct ((up_loopback _ _ _).2); [|by split; [|left]].
  destruct (fh_bind h _); [|by split; [|left]]. destruct (fh_local_addr h); [|by split; [|left]].
  pose proof (bridge_dials (fwd_unix args) (fh_accepted h)) as Hd. destruct (fwd_probe args).
  - split; [by apply probe_dials|]. left. unfold probe_run.
    destruct (fh_probe_connect h); [|done]. destruct (negb _); [done|]. by destruct (String.eqb _ PONG).
  - destruct (fh_status h _); cbn; auto.
Qed.

(** The sandbox starts the forwarder with arguments it reads back as what was meant: the
    proxy's port, the proxy's socket, and the command, whatever its words are. *)
Theorem forwarder_reads_sandbox_argv cmd :
  cmd <> [] ->
  parse_args (tail netns_forwarder_argv ++ cmd)
    = Ok (mkFwdArgs ("127.0.0.1:" +:+ pretty NETNS_PROXY_PORT) NETNS_SOCK_PATH false cmd).
Proof. intros Hne. destruct cmd as [|c cmd]; [done|]. reflexivity. Qed.

Lemma forwarder_reads_sandbox_argv_witness :
  parse_args (tail netns_forwarder_argv ++ ["--probe"; "--unix"])
    = Ok (mkFwdArgs ("127.0.0.1:" +:+ pretty NETNS_PROXY_PORT) NETNS_SOCK_PATH false ["--probe"; "--unix"]).
Proof. by apply (forwarder_reads_sandbox_argv ["--probe"; "--unix"]). Defined.

(** A probe succeeds only when the host answered through the bridge. *)
Theorem probe_ok_means_pong h dials :
  fr_exit (probe_run h dials) = 0 ->
  fr_stdout (probe_run h dials) = "probe-ok" +:+ String "010" EmptyString
  /\ exists s, fh_probe_read h = Ok s /\ String.substring 0 64 s = PONG.
Proof.
  unfold probe_run. destruct (fh_probe_connect h); [|done]. destruct (fh_probe_write h); [|done]. cbn [negb].
  destruct (fh_probe_read h) as [s|e].
  - destruct (String.eqb_spec (String.substring 0 64 s) PONG); [|done]. eauto.
  - done.
Qed.
