(* ===== verification/Remote.v ===== *)
(** What the backends that drive remote sandboxes share.  Each of
    [backends/gvisor], [backends/kubernetes], [backends/cube] and
    [backends/forkd] carries its own copy of these functions, under its own
    name: the checks of the endpoint and of identifiers, the body with its cap,
    authenticated JSON requests, the body and the answer of a remote command,
    and quoting for a shell.

    The control plane is the world of [Service]: it answers as it likes.  A call
    is logged with the request and the answer.  What a backend remembers between
    calls is the state of the monad [Rem]; it stays as it is when a call fails.
    An answer is read as the JSON object it is; serde would also take a struct from
    an array of its fields, in order, which is not modelled.
    [upholds] is the logic of these programs, as [logged] is of calls alone. *)

From stdpp Require Import pretty.
From S2P Require Import Prelude Json Budget Types B64 Utf8 Auth Effect Snapshot Net IpText KernelText Egress Path Service HttpConn.

Open Scope Z_scope.

(** * Requests *)

Record Sent := mkSent {
  s_method : string;
  s_url : string;
  s_token : option string;
  s_body : option Value;
}.

(** An answer: its status, its declared length and the chunks of its body. *)
Record Reply := mkReply {
  rp_status : Z;
  rp_length : option Z;
  rp_chunks : list (result string string);
}.

Record Call := mkCall { call_sent : Sent; call_reply : result string Reply }.

Class ControlPlane (W : Type) := { cp_send : Sent -> W -> result string Reply * W }.

(** Texts and parsing of serde, and the texts of statuses. *)
Class RemoteText := {
  from_slice : string -> result string Value;
  mismatch : string -> Value -> string;
  status_text : Z -> string;
}.

Definition MAX_RESPONSE_BYTES : Z := 64 * 1024 * 1024.

Definition len (s : string) : Z := Z.of_nat (String.length s).

Section shared.
Context (backend : string).

Definition unavailable (reason : string) : KernelError := BackendUnavailable backend reason.
Definition config_error (reason : string) : KernelError := EOther (backend +:+ " config error: " +:+ reason).

Definition host_is_loopback (host : string) : bool :=
  let bare := HttpGet.bare_host host in
  eq_ignore_ascii_case bare "localhost" || match parse_ip bare with Some ip => is_loopback ip | None => false end.

Definition check_endpoint `{!UrlOps} (endpoint : string) : KernelResult () :=
  url ← map_err (fun e => config_error ("invalid endpoint `" +:+ endpoint +:+ "`: " +:+ e)) (url_parse endpoint);
  if String.eqb (scheme url) "https" then Ok tt
  else if String.eqb (scheme url) "http" then
    if host_is_loopback (default EmptyString (host_str url)) then Ok tt
    else Err (config_error ("plain http endpoint `" +:+ endpoint +:+ "` is only allowed for loopback; use https"))
  else Err (config_error ("unsupported endpoint scheme `" +:+ scheme url +:+ "`; use https")).

Definition id_char (c : ascii) : bool :=
  let b := byte_val c in
  ((48 <=? b) && (b <=? 57)) || ((65 <=? b) && (b <=? 90)) || ((97 <=? b) && (b <=? 122))
  || existsb (Ascii.eqb c) ["."%char; "_"%char; "-"%char].

Definition remote_id (id : string) : bool := negb (str_is_empty id) && str_all id_char id.

(** [says]: how the backend words a refusal. *)
Definition check_id (says id : string) : KernelResult () :=
  if remote_id id then Ok tt
  else Err (unavailable (says +:+ " `" +:+ id +:+ "` (allowed characters: [A-Za-z0-9._-])")).

Fixpoint read_chunks (chunks : list (result string string)) (buf : string) : KernelResult string :=
  match chunks with
  | [] => Ok buf
  | Err e :: _ => Err (unavailable e)
  | Ok chunk :: rest =>
      if MAX_RESPONSE_BYTES <? len buf + len chunk then
        Err (unavailable ("response body exceeds the " +:+ pretty MAX_RESPONSE_BYTES +:+ "-byte limit"))
      else read_chunks rest (buf +:+ chunk)
  end.

Definition read_body (r : Reply) : KernelResult string :=
  match rp_length r with
  | Some n =>
      if MAX_RESPONSE_BYTES <? n then
        Err (unavailable ("response body of " +:+ pretty n +:+ " bytes exceeds the " +:+ pretty MAX_RESPONSE_BYTES +:+ "-byte limit"))
      else read_chunks (rp_chunks r) EmptyString
  | None => read_chunks (rp_chunks r) EmptyString
  end.

Section calls.
Context `{!RemoteText} {W : Type} `{!ControlPlane W}.

Definition send (s : Sent) : Act Call W (result string Reply) := ask_seen (mkCall s) (cp_send s).

(** What the JSON of an answer is. *)
Definition json_answer (url : string) (answer : result string Reply) : KernelResult Value :=
  r ← map_err unavailable answer;
  bytes ← read_body r;
  if is_success (rp_status r) then map_err unavailable (from_slice bytes)
  else Err (unavailable (url +:+ " returned " +:+ status_text (rp_status r) +:+ ": " +:+ from_utf8_lossy bytes)).

Definition post_json (token : option string) (url : string) (body : Value) : Act Call W Value :=
  answer ← send (mkSent "POST" url token (Some body));
  pure_act (json_answer url answer).

Definition done_answer (url : string) (answer : result string Reply) : KernelResult () :=
  r ← map_err unavailable answer;
  if is_success (rp_status r) then Ok tt
  else Err (unavailable (url +:+ " returned " +:+ status_text (rp_status r))).

Definition delete_url (token : option string) (url : string) : Act Call W () :=
  answer ← send (mkSent "DELETE" url token None);
  pure_act (done_answer url answer).

(** A string field of an answer. *)
Definition str_field (what key : string) (v : Value) : KernelResult string :=
  match value_get key v with
  | Some (Str s) => Ok s
  | _ => Err (unavailable (mismatch what v))
  end.

(** An identifier the service hands out. *)
Definition new_id (says what key : string) (v : Value) : KernelResult string :=
  id ← str_field what key v;
  _ ← check_id says id;
  Ok id.
End calls.
End shared.

(** * What the shared calls do *)

Section call_laws.
Context (backend : string) `{!RemoteText} {W : Type} `{!ControlPlane W}.

(** One request, whose answer is read as JSON. *)
Lemma logged_post token url body (Q : list Call -> KernelResult Value -> Prop) :
  (forall a, Q [mkCall (mkSent "POST" url token (Some body)) a] (json_answer backend url a)) ->
  logged (post_json (W := W) backend token url body) Q.
Proof.
  intros HQ. eapply logged_bind.
  - apply (logged_ask_seen _ _ (fun l x => exists a, l = [mkCall (mkSent "POST" url token (Some body)) a] /\ x = Ok a)). eauto.
  - by intros l e (a & _ & ?).
  - intros l a (b & -> & [= <-]). apply logged_pure. apply HQ.
Qed.

Lemma logged_delete token url (Q : list Call -> KernelResult () -> Prop) :
  (forall a, Q [mkCall (mkSent "DELETE" url token None) a] (done_answer backend url a)) ->
  logged (delete_url (W := W) backend token url) Q.
Proof.
  intros HQ. eapply logged_bind.
  - apply (logged_ask_seen _ _ (fun l x => exists a, l = [mkCall (mkSent "DELETE" url token None) a] /\ x = Ok a)). eauto.
  - by intros l e (a & _ & ?).
  - intros l a (b & -> & [= <-]). apply logged_pure. apply HQ.
Qed.

(** One request whose answer is then read. *)
Lemma logged_post_read {A} token url body (read : Value -> KernelResult A) (Q : list Call -> KernelResult A -> Prop) :
  (forall a, Q [mkCall (mkSent "POST" url token (Some body)) a] (json_answer backend url a ≫= read)) ->
  logged (post_json (W := W) backend token url body ≫= (fun v => pure_act (read v))) Q.
Proof.
  intros HQ. eapply (logged_bind _ _ (fun l x => exists a, l = [mkCall (mkSent "POST" url token (Some body)) a]
    /\ x = json_answer backend url a)).
  - apply logged_post. eauto.
  - intros l e (a & -> & He). specialize (HQ a). by rewrite <- He in HQ.
  - intros l v (a & -> & Hv). apply logged_pure. specialize (HQ a). by rewrite <- Hv in HQ.
Qed.

Lemma check_id_ok says id u : check_id backend says id = Ok u <-> remote_id id = true.
Proof. unfold check_id. destruct u, (remote_id id); split; congruence. Qed.

Lemma new_id_ok says what key v id : new_id backend says what key v = Ok id -> remote_id id = true.
Proof.
  unfold new_id. destruct (str_field backend what key v) as [s|e]; [|done]. cbn [mbind result_bind].
  destruct (check_id backend says s) as [u|e] eqn:E; [|done]. intros [= <-]. by apply check_id_ok in E.
Qed.

Lemma post_new_id_ok says what key url a id :
  json_answer backend url a ≫= new_id backend says what key = Ok id -> remote_id id = true.
Proof. destruct (json_answer backend url a) as [v|e]; [|done]. apply new_id_ok. Qed.

(** A call whose target must be an identifier. *)
Lemma logged_check_id {A} says id (m : () -> Act Call W A) (P : list Call -> KernelResult A -> Prop) :
  (remote_id id = true -> logged (m tt) P) ->
  logged (pure_act (check_id backend says id) ≫= m)
    (fun l x => (remote_id id = false /\ l = [] /\ exists e, x = Err e) \/ P l x).
Proof.
  intros Hm. apply logged_pure_bind.
  - intros e He. left. unfold check_id in He. destruct (remote_id id); [done|]. eauto.
  - intros [] Hu%check_id_ok. eapply logged_weaken; [by apply Hm|]. auto.
Qed.

Lemma logged_delete_id says id token url :
  logged (pure_act (check_id backend says id) ≫= (fun _ => delete_url (W := W) backend token url))
    (fun l x => (remote_id id = false /\ l = []) \/ exists a, l = [mkCall (mkSent "DELETE" url token None) a]).
Proof.
  eapply (logged_weaken _ (fun l x => (remote_id id = false /\ l = [] /\ exists e, x = Err e)
    \/ exists a, l = [mkCall (mkSent "DELETE" url token None) a])).
  - apply (logged_check_id _ _ (fun _ => delete_url backend token url)). intros _. apply logged_delete. eauto.
  - intros l x [(? & ? & _)|?]; eauto.
Qed.

(** Calls that all satisfy a predicate, one after the other. *)
Lemma logged_forall_seq {A B} (P : Call -> Prop) (m : Act Call W A) (f : A -> Act Call W B) :
  logged m (fun l _ => Forall P l) -> (forall a, logged (f a) (fun l _ => Forall P l)) ->
  logged (m ≫= f) (fun l _ => Forall P l).
Proof.
  intros Hm Hf. eapply logged_bind; [exact Hm|done|]. intros l a Hl. eapply logged_weaken; [apply Hf|].
  intros l' x Hl'. by apply Forall_app.
Qed.
End call_laws.

Definition trim_endpoint (endpoint : string) : string := trim_end_slash endpoint.

(** * Remote commands *)

Record ExecParams := mkExecParams {
  ep_command : string;
  ep_cwd : option string;
  ep_env : gmap string string;
  ep_timeout_ms : Z;
  ep_budget : ResourceBudget;
  ep_writable : list string;
  ep_readable : list string;
  ep_egress : list string;
}.

Definition num (n : Z) : Value := Number (PosInt n).

Definition budget_json (b : ResourceBudget) : Value :=
  Object [("cpu_ms", num (cpu_ms b)); ("memory_bytes", num (memory_bytes b)); ("network_bytes", num (network_bytes b));
          ("tokens", num (tokens b)); ("cost_micro_usd", num (cost_micro_usd b)); ("risk_units", num (risk_units b))].

Definition strings_json (l : list string) : Value := Array (map Str l).

Definition env_json (env : gmap string string) : Value := Object (map (fun kv => (kv.1, Str kv.2)) (bt_iter env)).

(** The names of the fields, as a backend spells them. *)
Record Spelling := mkSpelling {
  k_timeout : string; k_writable : string; k_readable : string; k_egress : string;
  k_exit : string; k_duration : string; k_network : string;
}.

Definition snake : Spelling :=
  mkSpelling "timeout_ms" "writable_prefixes" "readable_prefixes" "egress_domains" "exit_code" "duration_ms" "network_bytes".
Definition camel : Spelling :=
  mkSpelling "timeoutMs" "writablePrefixes" "readablePrefixes" "egressDomains" "exitCode" "durationMs" "networkBytes".

Definition exec_body (k : Spelling) (p : ExecParams) : Value :=
  Object ([("command", Str (ep_command p))]
    ++ match ep_cwd p with Some c => [("cwd", Str c)] | None => [] end
    ++ [("env", env_json (ep_env p)); (k_timeout k, num (ep_timeout_ms p)); ("budget", budget_json (ep_budget p));
        (k_writable k, strings_json (ep_writable p)); (k_readable k, strings_json (ep_readable p));
        (k_egress k, strings_json (ep_egress p))]).

Record ExecOutcome := mkExecOutcome {
  eo_exit : Z;                        (* i32 *)
  eo_stdout : string;
  eo_stderr : string;
  eo_duration : Z;                    (* u64 *)
  eo_network : option Z;
}.

Definition i32 (v : Value) : option Z :=
  match v with
  | Number (PosInt n) => if n <? 2 ^ 31 then Some n else None
  | Number (NegInt n) => if - 2 ^ 31 <=? n then Some n else None
  | _ => None
  end.

Definition u64_or (d : Z) (v : option Value) : option Z :=
  match v with None => Some d | Some (Number (PosInt n)) => Some n | _ => None end.
Definition str_or (d : string) (v : option Value) : option string :=
  match v with None => Some d | Some (Str s) => Some s | _ => None end.
Definition u64_opt (v : option Value) : option (option Z) :=
  match v with None | Some Null => Some None | Some (Number (PosInt n)) => Some (Some n) | _ => None end.

(** [ExecResponse]: absent fields take their defaults, others must fit. *)
Definition exec_outcome (k : Spelling) (v : Value) : option ExecOutcome :=
  _ ← as_object v;
  exit ← value_get (k_exit k) v ≫= i32;
  stdout ← str_or EmptyString (value_get "stdout" v);
  stderr ← str_or EmptyString (value_get "stderr" v);
  duration ← u64_or 0 (value_get (k_duration k) v);
  network ← u64_opt (value_get (k_network k) v);
  Some (mkExecOutcome exit stdout stderr duration network).

(** * Quoting *)

Definition dquote : string := String "034" EmptyString.

Fixpoint replace_quotes (s : string) : string :=
  match s with
  | EmptyString => EmptyString
  | String c r => if Ascii.eqb c "'" then "'\''" +:+ replace_quotes r else String c (replace_quotes r)
  end.

Definition shq (s : string) : string := "'" +:+ replace_quotes s +:+ "'".

Definition read_command (path : string) : string := "cat " +:+ shq path.
Definition write_command (path contents_b64 : string) : string :=
  "mkdir -p " +:+ dquote +:+ "$(dirname " +:+ shq path +:+ ")" +:+ dquote +:+ " && printf %s " +:+ shq contents_b64
    +:+ " | base64 -d > " +:+ shq path.
Definition delete_command (path : string) : string := "rm -rf -- " +:+ shq path.

(** How a POSIX shell reads one word: [quoted] says whether it is inside single
    quotes.  The word ends before an unquoted blank, operator or the end. *)
Definition ends_word (c : ascii) : bool :=
  existsb (Ascii.eqb c) [" "%char; "009"%char; "010"%char; "|"%char; "&"%char; ";"%char; "<"%char; ">"%char; "("%char; ")"%char].

Definition special (c : ascii) : bool :=
  existsb (Ascii.eqb c) ["$"%char; "`"%char; "034"%char; "*"%char; "?"%char; "["%char; "#"%char; "~"%char].

(** [None]: an expansion or an open quote, whose reading is not a plain word. *)
Fixpoint sh_word (quoted : bool) (s : string) : option (string * string) :=
  match s with
  | EmptyString => if quoted then None else Some (EmptyString, EmptyString)
  | String c r =>
      if quoted then
        if Ascii.eqb c "'" then sh_word false r
        else '(w, rest) ← sh_word true r; Some (String c w, rest)
      else if Ascii.eqb c "'" then sh_word true r
      else if Ascii.eqb c "\" then
        match r with
        | String d r' => '(w, rest) ← sh_word false r'; Some (String d w, rest)
        | EmptyString => None
        end
      else if ends_word c then Some (EmptyString, s)
      else if special c then None
      else '(w, rest) ← sh_word false r; Some (String c w, rest)
  end.

(** The text after a word. *)
Definition word_over (rest : string) : Prop :=
  match rest with EmptyString => True | String c _ => ends_word c = true end.

Lemma sh_word_over rest : word_over rest -> sh_word false rest = Some (EmptyString, rest).
Proof.
  destruct rest as [|c r]; [done|]. cbn. intros Hc.
  destruct (Ascii.eqb_spec c "'") as [->|]; [done|]. destruct (Ascii.eqb_spec c "\") as [->|]; [done|]. by rewrite Hc.
Qed.

Lemma sh_word_escaped t : sh_word true ("'\''" +:+ t) = '(w, rest) ← sh_word true t; Some (String "'" w, rest).
Proof. reflexivity. Qed.

Lemma sh_word_replaced s rest :
  word_over rest -> sh_word true (replace_quotes s +:+ "'" +:+ rest) = Some (s, rest).
Proof.
  intros Hr. induction s as [|c s IH]; cbn [replace_quotes].
  - cbn [String.append sh_word]. rewrite Ascii.eqb_refl. by apply sh_word_over.
  - destruct (Ascii.eqb_spec c "'") as [->|Hne].
    + rewrite str_app_assoc, sh_word_escaped, IH. done.
    + change (String c (replace_quotes s) +:+ "'" +:+ rest) with (String c (replace_quotes s +:+ "'" +:+ rest)).
      cbn [sh_word]. rewrite (proj2 (Ascii.eqb_neq c "'") Hne), IH. done.
Qed.

(** Quoting is exact.  Whatever bytes a path or a content has, quotes, blanks, operators
    and expansions included, the shell of a sandbox reads the quoted text as one word whose
    value is those bytes, and goes on right after it. *)
Theorem shq_exact s rest : word_over rest -> sh_word false (shq s +:+ rest) = Some (s, rest).
Proof.
  intros Hr. unfold shq. rewrite str_app_assoc. cbn [String.append sh_word]. rewrite Ascii.eqb_refl.
  rewrite str_app_assoc. by apply sh_word_replaced.
Qed.

Lemma shq_exact_witness :
  sh_word false (shq "a'; rm -rf $HOME" +:+ " | base64 -d") = Some ("a'; rm -rf $HOME", " | base64 -d").
Proof. apply (shq_exact "a'; rm -rf $HOME" " | base64 -d"). reflexivity. Defined.

(** * What a backend remembers *)

(** The outcome is [None] when the operation does not return: it waits for a lock
    that is never released, or it panics. *)
Definition Rem (S W A : Type) : Type := S -> Run Call W -> option (KernelResult A) * S * Run Call W.

#[export] Instance rem_ret {S W} : MRet (Rem S W) := fun A a s r => (Some (Ok a), s, r).
#[export] Instance rem_bind {S W} : MBind (Rem S W) := fun A B f m s r =>
  match m s r with
  | (Some (Ok a), s', r') => f a s' r'
  | (Some (Err e), s', r') => (Some (Err e), s', r')
  | (None, s', r') => (None, s', r')
  end.

Definition rem_act {S W A} (m : Act Call W A) : Rem S W A := fun s r => let '(x, r') := m r in (Some x, s, r').
Definition rem_fail {S W A} (e : KernelError) : Rem S W A := fun s r => (Some (Err e), s, r).
Definition rem_never {S W A} : Rem S W A := fun s r => (None, s, r).
Definition rem_get {S W A} (f : S -> A) : Rem S W A := fun s r => (Some (Ok (f s)), s, r).
Definition rem_set {S W} (f : S -> S) : Rem S W () := fun s r => (Some (Ok tt), f s, r).
(** The error as a value. *)
Definition rem_try {S W A} (m : Rem S W A) : Rem S W (KernelResult A) := fun s r =>
  match m s r with
  | (Some x, s', r') => (Some (Ok x), s', r')
  | (None, s', r') => (None, s', r')
  end.

(** Every run adds events that, with its outcome and the states, satisfy [Q]. *)
Definition upholds {S W A} (m : Rem S W A) (Q : S -> list Call -> option (KernelResult A) -> S -> Prop) : Prop :=
  forall s r x s' r', m s r = (x, s', r') -> exists l, r_log r' = r_log r ++ l /\ Q s l x s'.

Section rem_rules.
Context {S W : Type}.

Lemma upholds_ret {A} (a : A) (Q : S -> list Call -> option (KernelResult A) -> S -> Prop) :
  (forall s, Q s [] (Some (Ok a)) s) -> upholds (W := W) (mret a) Q.
Proof. intros HQ s r x s' r' [= <- <- <-]. exists []. by rewrite app_nil_r. Qed.

Lemma upholds_fail {A} e (Q : S -> list Call -> option (KernelResult A) -> S -> Prop) :
  (forall s, Q s [] (Some (Err e)) s) -> upholds (W := W) (rem_fail e) Q.
Proof. intros HQ s r x s' r' [= <- <- <-]. exists []. by rewrite app_nil_r. Qed.

Lemma upholds_never {A} (Q : S -> list Call -> option (KernelResult A) -> S -> Prop) :
  (forall s, Q s [] None s) -> upholds (W := W) rem_never Q.
Proof. intros HQ s r x s' r' [= <- <- <-]. exists []. by rewrite app_nil_r. Qed.

Lemma upholds_get_bind {A B} (f : S -> A) (k : A -> Rem S W B) Q :
  (forall s, upholds (k (f s)) (fun s' l x s2 => s' = s -> Q s l x s2)) -> upholds (rem_get f ≫= k) Q.
Proof. intros Hk s r x s' r' Hr. destruct (Hk s _ _ _ _ _ Hr) as (l & Hl & HQ). eauto. Qed.

Lemma upholds_set_bind {B} (f : S -> S) (k : () -> Rem S W B) Q :
  upholds (k tt) (fun s1 l x s' => forall s, s1 = f s -> Q s l x s') -> upholds (rem_set f ≫= k) Q.
Proof. intros Hk s r x s' r' Hr. destruct (Hk _ _ _ _ _ Hr) as (l & Hl & HQ). eauto. Qed.

Lemma upholds_set (f : S -> S) (Q : S -> list Call -> option (KernelResult ()) -> S -> Prop) :
  (forall s, Q s [] (Some (Ok tt)) (f s)) -> upholds (W := W) (rem_set f) Q.
Proof. intros HQ s r x s' r' [= <- <- <-]. exists []. by rewrite app_nil_r. Qed.

Lemma upholds_act {A} (m : Act Call W A) P (Q : S -> list Call -> option (KernelResult A) -> S -> Prop) :
  logged m P -> (forall s l x, P l x -> Q s l (Some x) s) -> upholds (rem_act m) Q.
Proof.
  intros Hm HQ s r x s' r'. unfold rem_act. destruct (m r) as [y r1] eqn:E. intros [= <- <- <-].
  destruct (Hm _ _ _ E) as (l & Hl & HP). eauto.
Qed.

Lemma upholds_bind {A B} (m : Rem S W A) (f : A -> Rem S W B) P Q :
  upholds m P -> (forall s l e s', P s l (Some (Err e)) s' -> Q s l (Some (Err e)) s') ->
  (forall s l s', P s l None s' -> Q s l None s') ->
  (forall s l a s1, P s l (Some (Ok a)) s1 -> upholds (f a) (fun s1' l' x s' => s1' = s1 -> Q s (l ++ l') x s')) ->
  upholds (m ≫= f) Q.
Proof.
  intros Hm He Hn Hf s r x s' r'. unfold mbind, rem_bind.
  destruct (m s r) as [[[[a|e]|] s1] r1] eqn:Em; intros Hr.
  - destruct (Hm _ _ _ _ _ Em) as (l & Hl & HP). destruct (Hf _ _ _ _ HP _ _ _ _ _ Hr) as (l' & Hl' & HQ).
    exists (l ++ l'). rewrite Hl', Hl, app_assoc. split; [done|by apply HQ].
  - simplify_eq. destruct (Hm _ _ _ _ _ Em) as (l & Hl & HP). eauto.
  - simplify_eq. destruct (Hm _ _ _ _ _ Em) as (l & Hl & HP). eauto.
Qed.

(** A call that leaves the state as it is, then the rest. *)
Lemma upholds_act_bind {A B} (m : Act Call W A) (f : A -> Rem S W B) P Q :
  logged m P -> (forall s l e, P l (Err e) -> Q s l (Some (Err e)) s) ->
  (forall l a, P l (Ok a) -> upholds (f a) (fun s l' x s' => Q s (l ++ l') x s')) ->
  upholds (rem_act m ≫= f) Q.
Proof.
  intros Hm He Hf. eapply (upholds_bind _ _ (fun s l x s' => s' = s /\ exists y, x = Some y /\ P l y)).
  - eapply upholds_act; [exact Hm|]. eauto.
  - intros s l e s' [-> (y & [= <-] & HP)]. by apply He.
  - by intros s l s' [_ (y & ? & _)].
  - intros s l a s1 [-> (y & [= <-] & HP)]. intros s2 r x s' r' Hr.
    destruct (Hf _ _ HP _ _ _ _ _ Hr) as (l' & Hl' & HQ). exists l'. split; [done|]. by intros ->.
Qed.

Lemma upholds_try_bind {A B} (m : Rem S W A) (f : KernelResult A -> Rem S W B) P Q :
  upholds m P -> (forall s l s', P s l None s' -> Q s l None s') ->
  (forall s l a s1, P s l (Some a) s1 -> upholds (f a) (fun s1' l' x s' => s1' = s1 -> Q s (l ++ l') x s')) ->
  upholds (rem_try m ≫= f) Q.
Proof.
  intros Hm Hn Hf. eapply (upholds_bind _ _ (fun s l x s' => match x with
    | Some (Ok a) => P s l (Some a) s' | Some (Err _) => False | None => P s l None s' end)).
  - intros s r x s' r'. unfold rem_try. destruct (m s r) as [[[y|] s1] r1] eqn:E; intros [= <- <- <-];
      destruct (Hm _ _ _ _ _ E) as (l & Hl & HP); eauto.
  - by intros.
  - intros s l s'. apply Hn.
  - intros s l a s1. apply Hf.
Qed.

Lemma upholds_weaken {A} (m : Rem S W A) P (Q : S -> list Call -> option (KernelResult A) -> S -> Prop) :
  upholds m P -> (forall s l x s', P s l x s' -> Q s l x s') -> upholds m Q.
Proof. intros Hm HPQ s r x s' r' Hr. destruct (Hm _ _ _ _ _ Hr) as (l & Hl & HP). eauto. Qed.
End rem_rules.

(** * Identifiers in paths *)

(** An identifier that may name a sandbox is also a path segment that names its parent. *)
Theorem dotdot_is_an_id : remote_id ".." = true.
Proof. reflexivity. Qed.
