(* ===== verification/Hosts.v ===== *)
(** Backends that keep one remote sandbox per branch and only run commands in
    it: what [backends/gvisor] and [backends/kubernetes] have in common.  Their
    workspaces are their own, so a step on them is an audit-only excursion.

    [Host] is the client of such a service, [HostLaws] what its three calls put
    on the wire.  The operations of the backend and their theorems are over any
    host. *)

From S2P Require Import Prelude Json Budget Capability Types Router Service HttpConn Remote.

Open Scope Z_scope.

(** The sandboxes of the branches. *)
Abbreviation Sandboxes := (gmap string string) (only parsing).

Record Host (W : Type) := mkHost {
  h_name : string;
  h_create : string -> Act Call W string;
  h_exec : string -> ExecParams -> Act Call W ExecOutcome;
  h_delete : string -> Act Call W ();
}.
Arguments mkHost {W} _ _ _ _.
Arguments h_name {W} _.
Arguments h_create {W} _ _.
Arguments h_exec {W} _ _ _.
Arguments h_delete {W} _ _.

(** The command an action becomes, with its working directory and environment. *)
Definition command_of (a : ActionKind) : option (string * option string * gmap string string) :=
  match a with
  | Shell command cwd env => Some (command, cwd, env)
  | ReadFile path => Some (read_command path, None, ∅)
  | WriteFile path contents_b64 => Some (write_command path contents_b64, None, ∅)
  | DeletePath path => Some (delete_command path, None, ∅)
  | _ => None
  end.

Definition request_params (req : ExecutionRequest) (command : string) (cwd : option string) (env : gmap string string) : ExecParams :=
  mkExecParams command cwd env (Z.max (cpu_ms (req_budget req)) 1) (req_budget req)
    (req_writable_prefixes req) (req_readable_prefixes req) (req_egress_domains req).

Definition exec_usage (o : ExecOutcome) : ResourceBudget :=
  mkBudget (eo_duration o) 0 (default 0 (eo_network o)) 0 0 0.

Definition action_paths (a : ActionKind) : list string :=
  match a with WriteFile path _ => [path] | _ => [] end.

Definition outcome_of_exec (req : ExecutionRequest) (o : ExecOutcome) : ExecutionOutcome :=
  mkOutcome (eo_exit o) (eo_stdout o) (eo_stderr o) (exec_usage o) (action_paths (req_action req)) FilesystemOnly None.

Definition does_not_execute (backend : string) (a : ActionKind) : KernelError :=
  unavailable backend (backend +:+ " backend does not execute `" +:+ required_operation a +:+ "` actions").

Section host.
Context {W : Type}.
Implicit Types h : Host W.

(** Get or create; the lock on the map is held across the call. *)
Definition sandbox_for h (branch : string) : Rem Sandboxes W string :=
  known ← rem_get (fun m : Sandboxes => m !! branch);
  match known with
  | Some id => mret id
  | None =>
      id ← rem_act (h_create h branch);
      _ ← rem_set (fun m : Sandboxes => <[branch := id]> m);
      mret id
  end.

Definition execute h (req : ExecutionRequest) : Rem Sandboxes W ExecutionOutcome :=
  sandbox ← sandbox_for h (req_branch req);
  match command_of (req_action req) with
  | Some (command, cwd, env) =>
      o ← rem_act (h_exec h sandbox (request_params req command cwd env));
      mret (outcome_of_exec req o)
  | None => rem_fail (does_not_execute (h_name h) (req_action req))
  end.

(** The sandbox is forgotten before it is deleted. *)
Definition discard h (branch : string) : Rem Sandboxes W () :=
  known ← rem_get (fun m : Sandboxes => m !! branch);
  _ ← rem_set (fun m : Sandboxes => delete branch m);
  match known with
  | Some sandbox => rem_act (h_delete h sandbox)
  | None => mret tt
  end.
End host.

(** What a host's calls put on the wire, and how the answer to a command reads. *)
Class HostLaws {W} (h : Host W) := {
  create_sent : string -> Sent;
  exec_sent : string -> ExecParams -> Sent;
  delete_sent : string -> Sent;
  exec_reads : string -> result string Reply -> KernelResult ExecOutcome;
  h_create_law branch : logged (h_create h branch) (fun l x =>
    exists a, l = [mkCall (create_sent branch) a] /\ forall id, x = Ok id -> remote_id id = true);
  h_exec_law id p : logged (h_exec h id p) (fun l x =>
    (remote_id id = false /\ l = [] /\ exists e, x = Err e)
    \/ exists a, l = [mkCall (exec_sent id p) a] /\ x = exec_reads id a);
  h_delete_law id : logged (h_delete h id) (fun l x =>
    (remote_id id = false /\ l = []) \/ exists a, l = [mkCall (delete_sent id) a]);
}.

(** Every identifier a backend remembers is one it may splice into a URL. *)
Definition ids_ok (m : Sandboxes) : Prop := map_Forall (fun _ id => remote_id id = true) m.

(** The sandbox of a branch is the one known, or a new one. *)
Inductive provided {W} (h : Host W) `{!HostLaws h} (branch : string) (s : Sandboxes) : list Call -> Sandboxes -> Prop :=
| provided_known id : s !! branch = Some id -> provided h branch s [] s
| provided_new a id : s !! branch = None -> remote_id id = true ->
    provided h branch s [mkCall (create_sent branch) a] (<[branch := id]> s)
| provided_failed a : s !! branch = None -> provided h branch s [mkCall (create_sent branch) a] s.

(** One command, the action's own, sent to the branch's sandbox under the step's budget
    and confinement, and its answer told as it came. *)
Definition forwarded {W} (h : Host W) `{!HostLaws h} (req : ExecutionRequest) (s : Sandboxes) (l : list Call)
    (x : option (KernelResult ExecutionOutcome)) : Prop :=
  exists id command cwd env a,
    s !! req_branch req = Some id
    /\ command_of (req_action req) = Some (command, cwd, env)
    /\ l = [mkCall (exec_sent id (request_params req command cwd env)) a]
    /\ x = Some (outcome_of_exec req <$> exec_reads id a).

Section host_laws.
Context {W : Type} (h : Host W) `{!HostLaws h}.

Lemma sandbox_for_spec branch :
  upholds (sandbox_for h branch) (fun s l x s' => ids_ok s ->
    ids_ok s' /\ provided h branch s l s'
    /\ ((exists id, x = Some (Ok id) /\ s' !! branch = Some id) \/ (exists e, x = Some (Err e)))).
Proof.
  apply upholds_get_bind. intros s. destruct (s !! branch) as [id|] eqn:Es.
  - apply upholds_ret. intros s' -> Hok. split_and!; [done|by econstructor|eauto].
  - eapply upholds_act_bind; [apply h_create_law|..].
    + intros s' l e (a & -> & _) -> Hok. split_and!; [done|by apply provided_failed|eauto].
    + intros l id (a & -> & Hid). apply upholds_set_bind, upholds_ret. intros ? s' -> -> Hok.
      split_and!; [|by apply provided_new; auto|left; exists id; by rewrite lookup_insert_eq].
      apply map_Forall_insert_2; [by apply Hid|done].
Qed.

Lemma execute_spec req :
  upholds (execute h req) (fun s l x s' => ids_ok s ->
    ids_ok s' /\ exists lc le, l = lc ++ le /\ provided h (req_branch req) s lc s'
    /\ ((le = [] /\ exists e, x = Some (Err e)) \/ forwarded h req s' le x)).
Proof.
  eapply upholds_bind; [apply sandbox_for_spec|..].
  - intros s l e s' Hs Hok. destruct (Hs Hok) as (? & ? & _). split; [done|]. exists l, [].
    rewrite app_nil_r. split_and!; [done..|]. left. eauto.
  - intros s l s' Hs Hok. destruct (Hs Hok) as (_ & _ & [(? & ? & _)|(? & ?)]); done.
  - intros s l id s1 Hs. destruct (command_of (req_action req)) as [[[command cwd] env]|] eqn:Ec.
    + eapply upholds_act_bind; [apply h_exec_law|..].
      * intros s2 l' e Hl -> Hok. destruct (Hs Hok) as (? & ? & [(i & [= <-] & Hi)|(? & ?)]); [|done].
        split; [done|]. exists l, l'. split_and!; [done..|].
        destruct Hl as [(_ & -> & _)|(a & -> & He)]; [left; eauto|].
        right. exists id, command, cwd, env, a. split_and!; try done. by rewrite <- He.
      * intros l' o Hl. apply upholds_ret. intros s2 -> Hok. rewrite app_nil_r.
        destruct (Hs Hok) as (? & ? & [(i & [= <-] & Hi)|(? & ?)]); [|done].
        split; [done|]. exists l, l'. split_and!; [done..|].
        destruct Hl as [(_ & -> & ? & ?)|(a & -> & He)]; [done|].
        right. exists id, command, cwd, env, a. split_and!; try done. by rewrite <- He.
    + apply upholds_fail. intros s2 -> Hok. destruct (Hs Hok) as (? & ? & _). split; [done|]. exists l, [].
      split_and!; [done..|]. left. eauto.
Qed.

(** Discarding forgets the branch's sandbox whatever the service answers to the one
    deletion it is sent. *)
Lemma discard_spec branch :
  upholds (discard h branch) (fun s l x s' => s' = delete branch s
    /\ (l = [] \/ exists id a, s !! branch = Some id /\ l = [mkCall (delete_sent id) a])).
Proof.
  apply upholds_get_bind. intros s. apply upholds_set_bind. destruct (s !! branch) as [id|] eqn:Es.
  - eapply upholds_act; [apply h_delete_law|]. intros s1 l x [[_ ->]|(a & ->)] s2 -> ->; eauto 6.
  - apply upholds_ret. intros s1 s2 -> ->. eauto.
Qed.
End host_laws.
