(* ===== verification/Gvisor.v ===== *)
(** The gVisor backend, [backends/gvisor/src/lib.rs]: a [Host] whose sandboxes
    are the containers of a remote runsc host. *)

From S2P Require Import Prelude Json Budget Capability Types Router Service HttpConn Remote Hosts.

Open Scope Z_scope.

Module Gvisor.

Definition BACKEND_NAME : string := "gvisor".

Record GvisorConfig := mkGvisorConfig {
  endpoint : string;
  auth_token : option string;
  image : option string;
  request_timeout : Z;                (* seconds *)
}.

Definition config_new (endpoint : string) : GvisorConfig := mkGvisorConfig endpoint None None 30.
(** [variable]: [GVISOR_API_TOKEN]. *)
Definition from_env (endpoint : string) (variable : option string) : GvisorConfig :=
  mkGvisorConfig endpoint variable None 30.

Definition validate_endpoint `{!UrlOps} (endpoint : string) : KernelResult () := check_endpoint BACKEND_NAME endpoint.
Definition validate_remote_id (id : string) : KernelResult () := check_id BACKEND_NAME "service returned invalid id" id.

(** [ExecRequest] and [ExecResponse]. *)
Definition exec_request (p : ExecParams) : Value := exec_body snake p.
Definition exec_response (v : Value) : option ExecOutcome := exec_outcome snake v.

(** [GvisorBackend::new]; [client]: the answer of the builder of the HTTP client. *)
Definition backend_new `{!UrlOps} (config : GvisorConfig) (client : result string ()) : KernelResult (gmap string string) :=
  _ ← validate_endpoint (endpoint config);
  _ ← map_err (unavailable BACKEND_NAME) client;
  Ok ∅.

Definition profile : BackendProfile :=
  mkProfile BACKEND_NAME 70 120 FilesystemOnly false false true false false.

Section gvisor.
Context `{!RemoteText} {W : Type} `{!ControlPlane W} (config : GvisorConfig).

Definition url (path : string) : string := trim_endpoint (endpoint config) +:+ path.

Definition post (path : string) (body : Value) : Act Call W Value :=
  post_json BACKEND_NAME (auth_token config) (url path) body.

Definition create_body (branch : string) : Value :=
  Object ([("branch", Str branch)] ++ match image config with Some i => [("image", Str i)] | None => [] end).

Definition create_container (branch : string) : Act Call W string :=
  v ← post "/v1/containers" (create_body branch);
  pure_act (new_id BACKEND_NAME "service returned invalid id" "CreateContainerResponse" "container_id" v).

Definition exec_answer (v : Value) : KernelResult ExecOutcome :=
  ok_or (exec_response v) (unavailable BACKEND_NAME (mismatch "ExecResponse" v)).

Definition exec (container : string) (p : ExecParams) : Act Call W ExecOutcome :=
  _ ← pure_act (validate_remote_id container);
  v ← post ("/v1/containers/" +:+ container +:+ "/exec") (exec_request p);
  pure_act (exec_answer v).

Definition delete_container (container : string) : Act Call W () :=
  _ ← pure_act (validate_remote_id container);
  delete_url BACKEND_NAME (auth_token config) (url ("/v1/containers/" +:+ container)).

Definition client : Host W := mkHost BACKEND_NAME create_container exec delete_container.

Definition container_for (branch : string) : Rem (gmap string string) W string := sandbox_for client branch.
Definition execute (req : ExecutionRequest) : Rem (gmap string string) W ExecutionOutcome := Hosts.execute client req.
Definition discard (branch : string) : Rem (gmap string string) W () := Hosts.discard client branch.

#[export] Instance client_laws : HostLaws client.
Proof.
  refine {| create_sent branch := mkSent "POST" (url "/v1/containers") (auth_token config) (Some (create_body branch));
    exec_sent id p := mkSent "POST" (url ("/v1/containers/" +:+ id +:+ "/exec")) (auth_token config) (Some (exec_request p));
    delete_sent id := mkSent "DELETE" (url ("/v1/containers/" +:+ id)) (auth_token config) None;
    exec_reads id a := json_answer BACKEND_NAME (url ("/v1/containers/" +:+ id +:+ "/exec")) a ≫= exec_answer |}.
  - intros branch. apply logged_post_read. intros a. exists a. split; [done|]. intros id. apply post_new_id_ok.
  - intros id p. apply logged_check_id. intros _. apply logged_post_read. eauto.
  - intros id. apply logged_delete_id.
Defined.

(** What the gVisor backend does for a step.  It makes sure the branch has a container,
    creating one at most once, and then sends that container at most one command: the
    action's own, with the whole step budget, the writable and readable prefixes and the
    egress domains of the request in its body and the configured token on the request.  A
    step that succeeds is exactly the answer to that command; every other answer, and every
    other action, is an error. *)
Theorem gvisor_forwards_confinement req :
  upholds (execute req) (fun s l x s' => ids_ok s ->
    ids_ok s' /\ exists lc le, l = lc ++ le /\ provided client (req_branch req) s lc s'
    /\ ((le = [] /\ exists e, x = Some (Err e)) \/ forwarded client req s' le x)).
Proof. apply execute_spec. Qed.
End gvisor.

End Gvisor.
