(* ===== verification/Kubernetes.v ===== *)
(** The Kubernetes backend, [backends/kubernetes/src/lib.rs]: a [Host] whose
    sandboxes are [Sandbox] objects of a namespace. *)

From S2P Require Import Prelude Json Budget Capability Types Router Service HttpConn Remote Hosts.

Open Scope Z_scope.

Module Kubernetes.

Definition BACKEND_NAME : string := "kubernetes".
Definition API_BASE : string := "/apis/agents.x-k8s.io/v1alpha1".
Definition DEFAULT_SANDBOX_IMAGE : string := "ghcr.io/agent-kernel/sandbox:v0.8.0".

Record KubernetesConfig := mkKubernetesConfig {
  endpoint : string;
  auth_token : option string;
  namespace : string;
  runtime_class : option string;
  image : string;
  isolation_strength : Z;             (* u8 *)
  request_timeout : Z;                (* seconds *)
}.

Definition config_new (endpoint : string) (isolation_strength : Z) : KubernetesConfig :=
  mkKubernetesConfig endpoint None "default" None DEFAULT_SANDBOX_IMAGE isolation_strength 60.
(** [variable]: [KUBERNETES_API_TOKEN]. *)
Definition from_env (endpoint : string) (isolation_strength : Z) (variable : option string) : KubernetesConfig :=
  mkKubernetesConfig endpoint variable "default" None DEFAULT_SANDBOX_IMAGE isolation_strength 60.

Definition validate_endpoint `{!UrlOps} (endpoint : string) : KernelResult () := check_endpoint BACKEND_NAME endpoint.
Definition validate_remote_id (id : string) : KernelResult () := check_id BACKEND_NAME "invalid id" id.

(** [ExecRequest] and [ExecResponse]. *)
Definition exec_request (p : ExecParams) : Value := exec_body camel p.
Definition exec_response (v : Value) : option ExecOutcome := exec_outcome camel v.

(** [KubernetesBackend::new]; [client]: the answer of the builder of the HTTP client. *)
Definition backend_new `{!UrlOps} (config : KubernetesConfig) (client : result string ()) : KernelResult (gmap string string) :=
  _ ← validate_endpoint (endpoint config);
  _ ← map_err (fun _ => config_error BACKEND_NAME ("invalid namespace `" +:+ namespace config +:+ "`"))
        (validate_remote_id (namespace config));
  _ ← map_err (unavailable BACKEND_NAME) client;
  Ok ∅.

Definition profile (config : KubernetesConfig) : BackendProfile :=
  mkProfile BACKEND_NAME (isolation_strength config) 2000 FilesystemOnly false false true false false.

Section kubernetes.
Context `{!RemoteText} {W : Type} `{!ControlPlane W} (config : KubernetesConfig).

Definition sandboxes_url : string :=
  trim_endpoint (endpoint config) +:+ API_BASE +:+ "/namespaces/" +:+ namespace config +:+ "/sandboxes".

Definition post_json (url : string) (body : Value) : Act Call W Value :=
  Remote.post_json BACKEND_NAME (auth_token config) url body.

Definition manifest (branch : string) : Value :=
  Object [("apiVersion", Str "agents.x-k8s.io/v1alpha1"); ("kind", Str "Sandbox");
    ("metadata", Object [("generateName", Str "ak-sandbox-"); ("labels", Object [("agent-kernel/branch", Str branch)])]);
    ("spec", Object ([("image", Str (image config))]
       ++ match runtime_class config with Some c => [("runtimeClassName", Str c)] | None => [] end))].

(** [SandboxObject]. *)
Definition object_name (v : Value) : KernelResult string :=
  match value_get "metadata" v with
  | Some m => new_id BACKEND_NAME "invalid id" "SandboxObject" "name" m
  | None => Err (unavailable BACKEND_NAME (mismatch "SandboxObject" v))
  end.

Definition create_sandbox (branch : string) : Act Call W string :=
  v ← post_json sandboxes_url (manifest branch);
  pure_act (object_name v).

Definition exec_answer (v : Value) : KernelResult ExecOutcome :=
  ok_or (exec_response v) (unavailable BACKEND_NAME (mismatch "ExecResponse" v)).

Definition exec (sandbox : string) (p : ExecParams) : Act Call W ExecOutcome :=
  _ ← pure_act (validate_remote_id sandbox);
  v ← post_json (sandboxes_url +:+ "/" +:+ sandbox +:+ "/exec") (exec_request p);
  pure_act (exec_answer v).

Definition delete_sandbox (sandbox : string) : Act Call W () :=
  _ ← pure_act (validate_remote_id sandbox);
  delete_url BACKEND_NAME (auth_token config) (sandboxes_url +:+ "/" +:+ sandbox).

Definition client : Host W := mkHost BACKEND_NAME create_sandbox exec delete_sandbox.

Definition sandbox_for (branch : string) : Rem (gmap string string) W string := Hosts.sandbox_for client branch.
Definition execute (req : ExecutionRequest) : Rem (gmap string string) W ExecutionOutcome := Hosts.execute client req.
Definition discard (branch : string) : Rem (gmap string string) W () := Hosts.discard client branch.

#[export] Instance client_laws : HostLaws client.
Proof.
  refine {| create_sent branch := mkSent "POST" sandboxes_url (auth_token config) (Some (manifest branch));
    exec_sent id p := mkSent "POST" (sandboxes_url +:+ "/" +:+ id +:+ "/exec") (auth_token config) (Some (exec_request p));
    delete_sent id := mkSent "DELETE" (sandboxes_url +:+ "/" +:+ id) (auth_token config) None;
    exec_reads id a := json_answer BACKEND_NAME (sandboxes_url +:+ "/" +:+ id +:+ "/exec") a ≫= exec_answer |}.
  - intros branch. apply logged_post_read. intros a. exists a. split; [done|]. intros id.
    destruct (json_answer _ _ _) as [v|e]; [|done]. cbn. unfold object_name.
    destruct (value_get "metadata" v); [apply new_id_ok|done].
  - intros id p. apply logged_check_id. intros _. apply logged_post_read. eauto.
  - intros id. apply logged_delete_id.
Defined.

(** The same for the Kubernetes backend: one [Sandbox] object per branch, labelled with it,
    and one command per step, sent to it under the step's budget and confinement. *)
Theorem kubernetes_forwards_confinement req :
  upholds (execute req) (fun s l x s' => ids_ok s ->
    ids_ok s' /\ exists lc le, l = lc ++ le /\ provided client (req_branch req) s lc s'
    /\ ((le = [] /\ exists e, x = Some (Err e)) \/ forwarded client req s' le x)).
Proof. apply execute_spec. Qed.
End kubernetes.

End Kubernetes.
