(* ===== verification/Mirror.v ===== *)
(** Backends that mirror the kernel's workspace in remote sandboxes: what
    [backends/cube] and [backends/forkd] have in common, with the kernel's
    [DagStateProvider] of [kernel/api/src/kernel.rs].

    Each branch has a sandbox.  A step brings the sandbox's tree to the base
    state, runs the action, and reads back what changed; a failure on the way
    makes the backend forget the sandbox.  [Svc] is the client of such a
    backend, [SvcLaws] what its calls mean, and the operations and their
    theorems are over any service.

    Operations run one at a time.  What other operations hold is the world's
    choice: it says whether a gate may be taken at once ([try_gate]); waiting
    for a gate another operation holds ends when that operation does.  A gate
    the operation itself holds is never released: it waits for ever. *)

From S2P Require Import Prelude Json Budget Capability Types Canonical Effect Snapshot Dag Router Path Service HttpConn Remote Hosts.

Open Scope Z_scope.

(** * State *)

(** [StateProvider]. *)
Record Provider := mkProvider {
  pv_manifest : string -> KernelResult SyncManifest;
  pv_blob : string -> KernelResult string;
}.

Definition sync_manifest (m : Manifest) : SyncManifest :=
  (fun e => mkSyncEntry (entry_blob e) (entry_mode e)) <$> m.

(** [DagStateProvider]. *)
Definition dag_provider `{!Serde, !Sha256, !ManifestSerde} (d : StateDag) : Provider :=
  mkProvider
    (fun state =>
      node ← get_state d state;
      files ← manifest_load (dag_cas d) (workspace_root node);
      Ok (sync_manifest files))
    (cas_get (dag_cas d)).

(** What a backend remembers: the sandbox of each branch, the last tree seen in
    each sandbox, the gates made so far, and the warm parent (forkd only). *)
Record Mirrors := mkMirrors {
  live : gmap string string;
  synced : gmap string SyncManifest;
  gates : gset string;
  parent : option string;
}.

Definition no_mirrors : Mirrors := mkMirrors ∅ ∅ ∅ None.

Definition set_live (branch id : string) (s : Mirrors) : Mirrors :=
  mkMirrors (<[branch := id]> (live s)) (synced s) (gates s) (parent s).
Definition set_synced (id : string) (m : SyncManifest) (s : Mirrors) : Mirrors :=
  mkMirrors (live s) (<[id := m]> (synced s)) (gates s) (parent s).
Definition add_gate (id : string) (s : Mirrors) : Mirrors :=
  mkMirrors (live s) (synced s) ({[id]} ∪ gates s) (parent s).
Definition set_parent (p : string) (s : Mirrors) : Mirrors :=
  mkMirrors (live s) (synced s) (gates s) (Some p).
Definition forget (branch id : string) (s : Mirrors) : Mirrors :=
  mkMirrors (delete branch (live s)) (delete id (synced s)) (gates s ∖ {[id]}) (parent s).

(** * The service *)

Record Svc (W : Type) := mkSvc {
  sv_name : string;
  sv_noun : string;
  sv_manifest : ResourceBudget -> string -> Rem Mirrors W SyncManifest;
  sv_push : (string -> KernelResult string) -> ResourceBudget -> string -> PushPlan -> Act Call W ();
  sv_pull : ResourceBudget -> string -> string -> Act Call W string;
  sv_clone : string -> string -> Act Call W string;
  sv_create : string -> Rem Mirrors W string;
  sv_run : string -> ExecutionRequest -> Act Call W ExecOutcome;
  sv_delete : string -> Act Call W ();
}.
Arguments mkSvc {W} _ _ _ _ _ _ _ _ _.
Arguments sv_name {W} _.
Arguments sv_noun {W} _.
Arguments sv_manifest {W} _ _ _.
Arguments sv_push {W} _ _ _ _ _.
Arguments sv_pull {W} _ _ _ _.
Arguments sv_clone {W} _ _ _.
Arguments sv_create {W} _ _.
Arguments sv_run {W} _ _ _.
Arguments sv_delete {W} _ _.

(** What is up to the machine: the order of a [HashMap], and which gates other
    operations hold. *)
Class Contention (W : Type) := {
  hash_order : list string -> list string;
  hash_order_perm l : hash_order l ≡ₚ l;
  try_gate : string -> W -> bool * W;
}.

Section mirror.
Context `{!Sha256} {W : Type} `{!Contention W} (sv : Svc W).

(** Taking the gate of a sandbox, whose entry is made when there is none. *)
Definition sandbox_gate (id : string) : Rem Mirrors W () := rem_set (add_gate id).

Definition try_lock (id : string) : Rem Mirrors W bool := rem_act (peek (try_gate id)).

(** [held]: the gates the operation holds. *)
Definition lock_owned (held : list string) (id : string) : Rem Mirrors W () :=
  _ ← sandbox_gate id;
  if bool_decide (id ∈ held) then rem_never else mret tt.

Definition candidates (target : SyncManifest) (s : Mirrors) : list string :=
  hash_order (map fst (filter (fun im => im.2 = target) (map_to_list (synced s)))).

Fixpoint source_loop (budget : ResourceBudget) (target : SyncManifest) (l : list string) : Rem Mirrors W (option string) :=
  match l with
  | [] => mret None
  | id :: rest =>
      _ ← sandbox_gate id;
      free ← try_lock id;
      if free : bool then
        current ← sv_manifest sv budget id;
        _ ← rem_set (set_synced id current);
        if bool_decide (current = target) then mret (Some id) else source_loop budget target rest
      else source_loop budget target rest
  end.

(** The source is held until the operation ends. *)
Definition quiescent_source (budget : ResourceBudget) (target : SyncManifest) : Rem Mirrors W (option string) :=
  l ← rem_get (candidates target);
  source_loop budget target l.

Definition fresh_sandbox (branch : string) : Rem Mirrors W string :=
  id ← sv_create sv branch;
  _ ← rem_set (set_live branch id);
  _ ← lock_owned [] id;
  mret id.

Definition sandbox_for (budget : ResourceBudget) (branch : string) (target : option SyncManifest) : Rem Mirrors W string :=
  known ← rem_get (fun s => live s !! branch);
  match known, target with
  | Some id, _ => _ ← lock_owned [] id; mret id
  | None, Some target =>
      found ← quiescent_source budget target;
      match found with
      | Some source =>
          clone ← rem_act (sv_clone sv source branch);
          _ ← rem_set (set_synced clone target);
          _ ← rem_set (set_live branch clone);
          _ ← lock_owned [source] clone;
          mret clone
      | None => fresh_sandbox branch
      end
  | None, None => fresh_sandbox branch
  end.

(** The failure of the deletion is only logged. *)
Definition poison (branch id : string) : Rem Mirrors W () :=
  _ ← rem_set (forget branch id);
  _ ← rem_try (rem_act (sv_delete sv id));
  mret tt.

Definition sync_in (provider : Provider) (budget : ResourceBudget) (id : string) (target : SyncManifest) : Rem Mirrors W () :=
  current ← sv_manifest sv budget id;
  let plan := push_plan current target in
  _ ← rem_act (sv_push sv (pv_blob provider) budget id plan);
  if plan_is_empty plan then rem_set (set_synced id target)
  else
    verified ← sv_manifest sv budget id;
    if bool_decide (verified = target) then rem_set (set_synced id target)
    else rem_fail (unavailable (sv_name sv) (sv_noun sv +:+ " did not materialize the requested base manifest exactly")).

Definition pull_file (budget : ResourceBudget) (id : string) (pe : string * SyncEntry) : Act Call W SyncedFile :=
  bytes ← sv_pull sv budget id pe.1;
  if bool_decide (hash_bytes bytes = sync_blob pe.2) then mret (mkSynced pe.1 bytes (sync_mode pe.2))
  else pure_act (Err (unavailable (sv_name sv) (sv_noun sv +:+ " file `" +:+ pe.1 +:+ "` changed between list and read"))).

Fixpoint pull_loop (budget : ResourceBudget) (id : string) (known : SyncManifest) (l : list (string * SyncEntry))
    : Act Call W (list SyncedFile) :=
  match l with
  | [] => mret []
  | pe :: rest =>
      if bool_decide (known !! pe.1 = Some pe.2) then pull_loop budget id known rest
      else
        file ← pull_file budget id pe;
        files ← pull_loop budget id known rest;
        mret (file :: files)
  end.

Definition sync_out (budget : ResourceBudget) (id : string) : Rem Mirrors W WorkspaceDelta :=
  remote ← sv_manifest sv budget id;
  known ← rem_get (fun s => default ∅ (synced s !! id));
  files ← rem_act (pull_loop budget id known (bt_iter remote));
  let delta := mkDelta files (filter (fun p => remote !! p = None) (bt_keys known)) in
  match files with
  | [] => _ ← rem_set (set_synced id remote); mret delta
  | _ =>
      verified ← sv_manifest sv budget id;
      if bool_decide (verified = remote) then _ ← rem_set (set_synced id remote); mret delta
      else rem_fail (unavailable (sv_name sv) (sv_noun sv +:+ " workspace changed while its state delta was being pulled"))
  end.

(** A part of a step on a sandbox, whose failure poisons it. *)
Definition or_poison {A} (branch id : string) (m : Rem Mirrors W A) : Rem Mirrors W A :=
  x ← rem_try m;
  match x with
  | Ok a => mret a
  | Err e => _ ← poison branch id; rem_fail e
  end.

Definition delta_paths (d : WorkspaceDelta) : list string := map sf_path (upserts d) ++ deletes d.

Definition written (req : ExecutionRequest) (d : option WorkspaceDelta) : list string :=
  match d with Some d => delta_paths d | None => action_paths (req_action req) end.

Definition step_outcome (req : ExecutionRequest) (o : ExecOutcome) (d : option WorkspaceDelta) : ExecutionOutcome :=
  mkOutcome (eo_exit o) (eo_stdout o) (eo_stderr o) (exec_usage o) (written req d) ProcessAndFilesystem d.

Definition execute (provider : option Provider) (req : ExecutionRequest) : Rem Mirrors W ExecutionOutcome :=
  target ← rem_act (pure_act (match provider with
                              | Some p => Some <$> pv_manifest p (req_base_state req)
                              | None => Ok None
                              end));
  id ← sandbox_for (req_budget req) (req_branch req) target;
  _ ← match provider, target with
      | Some p, Some t => or_poison (req_branch req) id (sync_in p (req_budget req) id t)
      | _, _ => mret tt
      end;
  o ← or_poison (req_branch req) id (rem_act (sv_run sv id req));
  d ← match provider with
      | Some _ => delta ← or_poison (req_branch req) id (sync_out (req_budget req) id); mret (Some delta)
      | None => mret None
      end;
  mret (step_outcome req o d).

Definition fork (provider : option Provider) (from to_branch : string) : Rem Mirrors W bool :=
  match provider with
  | None => mret false
  | Some p =>
      target ← rem_act (pure_act (pv_manifest p from));
      found ← quiescent_source step_default target;
      match found with
      | None => mret false
      | Some source =>
          clone ← rem_act (sv_clone sv source to_branch);
          listed ← rem_try (sv_manifest sv step_default clone);
          match listed with
          | Err e => _ ← rem_set (set_live to_branch clone); _ ← poison to_branch clone; rem_fail e
          | Ok current =>
              _ ← rem_set (set_synced clone current);
              _ ← rem_set (set_live to_branch clone);
              mret (bool_decide (current = target))
          end
      end
  end.

Definition discard (branch : string) : Rem Mirrors W () :=
  known ← rem_get (fun s => live s !! branch);
  match known with
  | None => mret tt
  | Some id =>
      _ ← lock_owned [] id;
      _ ← rem_act (sv_delete sv id);
      rem_set (forget branch id)
  end.
End mirror.
