(* ===== verification/MirrorSafety.v ===== *)
(** What a step on a mirrored sandbox guarantees, for any service that keeps
    [SvcLaws]: the action runs in the branch's own sandbox on exactly the base
    state, and the delta is exactly the difference to a tree that was there
    after it. *)

From S2P Require Import Prelude Json Budget Capability Types Auth Canonical Effect Snapshot Dag Router Path Service HttpConn Remote Hosts Mirror.

Open Scope Z_scope.

(** * The trees a backend accepts *)

(** A canonical path outside the cache tier, a hash the content store accepts, in lower
    case, and permission bits. *)
Record entry_ok (p : string) (e : SyncEntry) : Prop := {
  entry_path : syncable_path p = Ok p;
  entry_hash : exists h, hex_of (sync_blob e) = Ok h /\ to_ascii_lowercase h = h;
  entry_bits : Z.land (sync_mode e) 511 = sync_mode e;
}.

Definition tree_ok (m : SyncManifest) : Prop := (forall p e, m !! p = Some e -> entry_ok p e) /\ tree_shaped m.

Lemma to_ascii_lower_hex c : is_ascii_hexdigit c = true -> is_ascii_hexdigit (to_ascii_lower c) = true.
Proof. destruct c as [[] [] [] [] [] [] [] []]; vm_compute; auto. Qed.

Lemma to_ascii_lower_twice c : to_ascii_lower (to_ascii_lower c) = to_ascii_lower c.
Proof. destruct c as [[] [] [] [] [] [] [] []]; vm_compute; reflexivity. Qed.

Lemma to_ascii_lowercase_twice s : to_ascii_lowercase (to_ascii_lowercase s) = to_ascii_lowercase s.
Proof. induction s as [|c s IH]; cbn; [done|]. by rewrite IH, to_ascii_lower_twice. Qed.

Lemma lowercase_digest h : is_hex_digest h = true -> is_hex_digest (to_ascii_lowercase h) = true.
Proof.
  unfold is_hex_digest. rewrite !andb_true_iff, !bool_decide_eq_true. intros [<- Hh]. split.
  - clear Hh. induction h as [|c h IH]; cbn; congruence.
  - induction h as [|c h IH]; cbn in *; [done|]. apply andb_true_iff in Hh as [Hc Hh].
    rewrite to_ascii_lower_hex by done. by apply IH.
Qed.

(** An entry as a listing gives it. *)
Lemma listed_entry_ok raw p hex mode :
  syncable_path raw = Ok p -> is_hex_digest hex = true ->
  entry_ok p (mkSyncEntry ("sha256:" +:+ to_ascii_lowercase hex) (Z.land mode 511)).
Proof.
  intros Hp Hh. split; cbn [sync_blob sync_mode].
  - by apply (syncable_path_canonical raw).
  - exists (to_ascii_lowercase hex). split; [|apply to_ascii_lowercase_twice].
    unfold hex_of. rewrite (proj2 (strip_prefix_Some "sha256:" _ (to_ascii_lowercase hex)) eq_refl). by rewrite lowercase_digest.
  - by rewrite <- Z.land_assoc, Z.land_diag.
Qed.

(** * Services *)

(** What a service's calls mean.  [about id c]: the call [c] is on sandbox [id].
    [lists id l m]: the calls [l] read the tree of [id] as [m].  [runs id req l o]: they
    perform the action of [req] in [id], with result [o].  [pushes blob id plan l]: they carry
    out [plan] in [id], with the contents [blob] gives.  [pulls id path l bytes]: they read a
    file of [id].  [clones src b l id]: they copy [src] for branch [b] into [id].
    [prepares c]: the call lists a sandbox, copies one or makes one.  [panics l]: their
    answers make the reader of a listing panic. *)
Class SvcLaws {W} (sv : Svc W) := {
  about : string -> Call -> Prop;
  lists : string -> list Call -> SyncManifest -> Prop;
  runs : string -> ExecutionRequest -> list Call -> ExecOutcome -> Prop;
  pushes : (string -> KernelResult string) -> string -> PushPlan -> list Call -> Prop;
  pulls : string -> string -> list Call -> string -> Prop;
  clones : string -> string -> list Call -> string -> Prop;
  prepares : Call -> Prop;
  panics : list Call -> Prop;
  lists_ok id l m : lists id l m -> tree_ok m;
  sv_manifest_law budget id : upholds (sv_manifest sv budget id) (fun s l x s' => s' = s /\ Forall (about id) l
    /\ Forall prepares l /\ match x with Some (Ok m) => lists id l m | Some (Err _) => True | None => panics l end);
  sv_push_law blob budget id plan : logged (sv_push sv blob budget id plan) (fun l x =>
    Forall (about id) l /\ (plan_is_empty plan = true -> l = []) /\ forall u, x = Ok u -> pushes blob id plan l);
  sv_pull_law budget id path : logged (sv_pull sv budget id path) (fun l x =>
    Forall (about id) l /\ forall bytes, x = Ok bytes -> pulls id path l bytes);
  sv_clone_law source branch : logged (sv_clone sv source branch) (fun l x =>
    Forall prepares l /\ forall id, x = Ok id -> clones source branch l id);
  sv_create_law branch : upholds (sv_create sv branch) (fun s l x s' =>
    live s' = live s /\ synced s' = synced s /\ Forall prepares l /\ exists y, x = Some y);
  sv_run_law id req : logged (sv_run sv id req) (fun l x =>
    Forall (about id) l /\ forall o, x = Ok o -> runs id req l o);
  sv_delete_law id : logged (sv_delete sv id) (fun l x => Forall (about id) l);
}.

(** A delta as a plan: each file with the hash of its contents. *)
Definition file_entry `{!Sha256} (f : SyncedFile) : string * SyncEntry :=
  (sf_path f, mkSyncEntry (hash_bytes (sf_contents f)) (sf_mode f)).
Definition delta_plan `{!Sha256} (d : WorkspaceDelta) : PushPlan := mkPlan (map file_entry (upserts d)) (deletes d).

(** Nothing to push: the tree is the target already. *)
Lemma push_plan_empty current target : plan_is_empty (push_plan current target) = true -> current = target.
Proof.
  unfold plan_is_empty. rewrite andb_true_iff, !bool_decide_eq_true, !length_zero_iff_nil. intros [Hu Hd].
  pose proof (run_push_plan current target) as Hr. unfold run_plan in Hr. by rewrite Hu, Hd in Hr.
Qed.

Section safety.
Context `{!Sha256} {W : Type} `{!Contention W} (sv : Svc W) `{!SvcLaws sv}.

(** The files, read one after the other. *)
Definition pulled_files (id : string) (files : list SyncedFile) (l : list Call) : Prop :=
  exists ls, l = concat ls /\ Forall2 (fun f cs => pulls id (sf_path f) cs (sf_contents f)) files ls.

(** Reading back: a listing, the files of the delta and, if there are any, a second listing
    with the same tree; and no other call. *)
Definition read_back (id : string) (remote : SyncManifest) (d : WorkspaceDelta) (l : list Call) : Prop :=
  exists first mid last, l = first ++ mid ++ last /\ lists id first remote /\ pulled_files id (upserts d) mid
    /\ if bool_decide (length (upserts d) = 0%nat) then last = [] else lists id last remote.

Lemma logged_pull_file budget id pe :
  logged (pull_file sv budget id pe) (fun l x => Forall (about id) l
    /\ forall f, x = Ok f -> file_entry f = pe /\ pulls id (sf_path f) l (sf_contents f)).
Proof.
  eapply logged_bind; [apply sv_pull_law|by intros l e [? _]; split|]. intros l bytes [Hl Hp]. case_bool_decide as Hh.
  - apply logged_ret. rewrite app_nil_r. split; [done|]. intros f [= <-]. unfold file_entry. cbn. rewrite Hh.
    split; [by destruct pe as [? []]|by apply Hp].
  - apply logged_pure. rewrite app_nil_r. by split.
Qed.

Lemma logged_pull_loop budget id known ls :
  logged (pull_loop sv budget id known ls) (fun l x => Forall (about id) l
    /\ forall fs, x = Ok fs -> map file_entry fs = filter (fun pe => known !! pe.1 <> Some pe.2) ls /\ pulled_files id fs l).
Proof.
  induction ls as [|pe ls IH]; cbn [pull_loop].
  { apply logged_ret. split; [done|]. intros fs [= <-]. split; [done|]. by exists []. }
  rewrite filter_cons. case_bool_decide as Hk.
  { rewrite decide_False by tauto. exact IH. }
  rewrite decide_True by done.
  eapply logged_bind; [apply logged_pull_file|by intros l e [? _]; split|]. intros l f [Hl Hf].
  eapply logged_bind; [exact IH|..].
  - intros l' e [? _]. split; [by apply Forall_app|done].
  - intros l' fs [Hl' Hfs]. apply logged_ret. rewrite app_nil_r. split; [by apply Forall_app|].
    intros ? [= <-]. cbn. destruct (Hf _ eq_refl) as [-> Hp], (Hfs _ eq_refl) as [-> (cs & -> & Hcs)].
    split; [done|]. exists (l :: cs). split; [done|]. by constructor.
Qed.

(** * Bringing a sandbox to a state, and reading it back *)

(** A listing whose answer the backend cannot read without panicking. *)
Definition stuck (l : list Call) : Prop := exists before last, l = before ++ last /\ panics last.

Lemma stuck_app l1 l2 : stuck l2 -> stuck (l1 ++ l2).
Proof. intros (before & last & -> & Hp). exists (l1 ++ before), last. by rewrite app_assoc. Qed.

Lemma stuck_panics l : panics l -> stuck l.
Proof. intros Hp. by exists [], l. Qed.

(** A listing, then the rest. *)
Lemma upholds_manifest_bind {A} budget id (f : SyncManifest -> Rem Mirrors W A) Q :
  (forall s l e, Forall (about id) l -> Q s l (Some (Err e)) s) ->
  (forall s l, Forall (about id) l -> panics l -> Q s l None s) ->
  (forall l m, Forall (about id) l -> Forall prepares l -> lists id l m -> upholds (f m) (fun s l' x s' => Q s (l ++ l') x s')) ->
  upholds (sv_manifest sv budget id ≫= f) Q.
Proof.
  intros He Hn Hf. eapply upholds_bind; [apply sv_manifest_law|..].
  - intros s l e s' (-> & Hl & _). by apply He.
  - intros s l s' (-> & Hl & _ & Hp). by apply Hn.
  - intros s l m s1 (-> & Hl & Hpr & Hm). intros s2 r x s' r' Hr. destruct (Hf _ _ Hl Hpr Hm _ _ _ _ _ Hr) as (l' & Hl' & HQ).
    exists l'. split; [done|]. by intros ->.
Qed.

(** A part of a step: it keeps to its sandbox and leaves the branches as they are. *)
Definition part {A} (id : string) (P : Mirrors -> list Call -> A -> Mirrors -> Prop)
    (s : Mirrors) (l : list Call) (x : option (KernelResult A)) (s' : Mirrors) : Prop :=
  Forall (about id) l /\ live s' = live s
  /\ match x with Some (Ok a) => P s l a s' | Some (Err _) => True | None => stuck l end.

(** Bringing a sandbox to a tree: a listing, the plan from what it shows to the tree, and,
    unless there was nothing to do, a listing of exactly that tree; and no other call. *)
Definition brought_to (p : Provider) (id : string) (target : SyncManifest) (l : list Call) : Prop :=
  exists current first pushed again, l = first ++ pushed ++ again /\ lists id first current
    /\ pushes (pv_blob p) id (push_plan current target) pushed
    /\ (current = target /\ again = [] \/ lists id again target).

Lemma upholds_sync_in p budget id target :
  upholds (sync_in sv p budget id target) (part id (fun s l _ s' =>
    s' = set_synced id target s /\ brought_to p id target l)).
Proof.
  unfold sync_in. apply upholds_manifest_bind; [done|intros s l Hl Hp; split_and!; [done..|by apply stuck_panics]|].
  intros l current Hl _ Hc. eapply upholds_act_bind; [apply sv_push_law|..].
  { intros s l' e [Hl' _]. split_and!; [by apply Forall_app|done..]. }
  intros l' [] (Hl' & He & Hpush). specialize (Hpush _ eq_refl). destruct (plan_is_empty (push_plan current target)) eqn:Ep.
  - apply upholds_set. intros s. unfold part. rewrite app_nil_r, Forall_app. split_and!; [done..|].
    apply push_plan_empty in Ep as <-. exists current, l, l', []. rewrite app_nil_r. split_and!; auto.
  - apply upholds_manifest_bind.
    { intros s l2 e Hl2. unfold part; by rewrite !Forall_app. }
    { intros s l2 Hl2 Hp. unfold part; rewrite !Forall_app. split_and!; [done..|]. by apply stuck_app, stuck_app, stuck_panics. }
    intros l2 verified Hl2 _ Hv. case_bool_decide as Ev.
    + apply upholds_set. intros s. unfold part; rewrite !app_nil_r, !Forall_app. split_and!; [done..|]. subst verified.
      exists current, l, l', l2. split_and!; auto.
    + apply upholds_fail. intros s. unfold part; by rewrite !app_nil_r, !Forall_app.
Qed.

Lemma upholds_sync_out budget id :
  upholds (sync_out sv budget id) (part id (fun s l d s' => exists remote,
    s' = set_synced id remote s /\ read_back id remote d l
    /\ delta_plan d = push_plan (default ∅ (synced s !! id)) remote)).
Proof.
  unfold sync_out. apply upholds_manifest_bind; [done|intros s l Hl Hp; split_and!; [done..|by apply stuck_panics]|].
  intros l remote Hl _ Hr. apply upholds_get_bind. intros s.
  eapply upholds_act_bind; [apply logged_pull_loop|..].
  { intros s' l' e [Hl' _] ->. split_and!; [by apply Forall_app|done..]. }
  intros l' files [Hl' Hf]. destruct (Hf _ eq_refl) as [Hent Hpull]. clear Hf. destruct files as [|f files].
  - apply upholds_set_bind, upholds_ret. intros ? s' -> ->. unfold part; rewrite app_nil_r, Forall_app. split_and!; [done..|].
    exists remote. split_and!; [done| |].
    + exists l, l', []. by rewrite app_nil_r.
    + unfold delta_plan, push_plan. cbn. by rewrite <- Hent.
  - apply upholds_manifest_bind.
    { intros s' l2 e Hl2 ->. unfold part; by rewrite !Forall_app. }
    { intros s' l2 Hl2 Hp ->. unfold part; rewrite !Forall_app. split_and!; [done..|]. by apply stuck_app, stuck_app, stuck_panics. }
    intros l2 verified Hl2 _ Hv. case_bool_decide as Ev.
    + apply upholds_set_bind, upholds_ret. intros ? s' -> ->. unfold part; rewrite !app_nil_r, !Forall_app. split_and!; [done..|].
      exists remote. split_and!; [done| |].
      * exists l, l', l2. by subst.
      * unfold delta_plan, push_plan. cbn [upserts deletes]. by rewrite <- Hent.
    + apply upholds_fail. intros s' ->. unfold part; by rewrite !app_nil_r, !Forall_app.
Qed.

(** * Choosing a sandbox *)

(** Looking for a source: the branches stay as they are, and what is found was just listed
    as the target. *)
Definition searched (target : SyncManifest) (s : Mirrors) (l : list Call) (x : option (KernelResult (option string)))
    (s' : Mirrors) : Prop :=
  live s' = live s /\
  match x with
  | Some (Ok None) => Forall prepares l
  | Some (Ok (Some id)) => Forall prepares l /\ exists before last, l = before ++ last /\ lists id last target
  | Some _ => True
  | None => stuck l
  end.

Lemma searched_after target s s1 l l' x s' :
  live s1 = live s -> Forall prepares l -> searched target s1 l' x s' -> searched target s (l ++ l') x s'.
Proof.
  intros Hs Hp [Hlive Hx]. split; [by rewrite Hlive|]. destruct x as [[[id|]|e]|]; [|by apply Forall_app|done|by apply stuck_app].
  destruct Hx as (Hpr & before & last & -> & Hl). split; [by apply Forall_app|]. exists (l ++ before), last. by rewrite <- app_assoc.
Qed.

Lemma upholds_source_loop budget target ids : upholds (source_loop sv budget target ids) (searched target).
Proof.
  induction ids as [|id ids IH]; cbn [source_loop]; [by apply upholds_ret|].
  apply upholds_set_bind. eapply (upholds_act_bind _ _ (fun l x => l = [] /\ is_ok x)).
  { apply logged_peek. by intros. }
  { by intros s l e [_ ?]. }
  intros l free [-> _]. destruct free.
  - apply upholds_manifest_bind.
    { by intros s l e _ s1 ->. }
    { intros s l _ Hp s1 ->. split; [done|]. by apply stuck_panics. }
    intros l current _ Hpr Hc. apply upholds_set_bind. case_bool_decide as Et.
    + apply upholds_ret. intros s s1 -> s2 ->. rewrite app_nil_r. split_and!; [done..|]. exists [], l. by subst.
    + eapply upholds_weaken; [exact IH|]. intros s l' x s' Hx s1 -> s2 ->. by eapply (searched_after _ _ _ l) in Hx.
  - eapply upholds_weaken; [exact IH|]. intros s l' x s' Hx s1 ->. by eapply (searched_after _ _ _ []) in Hx.
Qed.

Lemma upholds_quiescent budget target : upholds (quiescent_source sv budget target) (searched target).
Proof.
  apply upholds_get_bind. intros s. eapply upholds_weaken; [apply upholds_source_loop|]. by intros s1 l x s' Hx ->.
Qed.

Lemma upholds_lock_owned held id :
  upholds (W := W) (lock_owned held id) (fun s l x s' => l = [] /\ s' = add_gate id s
    /\ (x = Some (Ok tt) \/ (x = None /\ id ∈ held))).
Proof.
  apply upholds_set_bind. case_bool_decide.
  - apply upholds_never. intros s s1 ->. auto.
  - apply upholds_ret. intros s s1 ->. auto.
Qed.

(** The branch's sandbox: its own from then on.  It fails only when there was none. *)
Definition same_copy (branch : string) (l : list Call) : Prop :=
  exists source before last, l = before ++ last /\ clones source branch last source.

Definition chosen (branch : string) (s : Mirrors) (l : list Call) (x : option (KernelResult string)) (s' : Mirrors) : Prop :=
  match x with
  | Some (Ok id) => live s' !! branch = Some id /\ Forall prepares l
  | Some (Err _) => live s' !! branch = None
  | None => stuck l \/ same_copy branch l
  end.

Lemma chosen_after branch s s1 l l' x s' : Forall prepares l -> chosen branch s1 l' x s' -> chosen branch s (l ++ l') x s'.
Proof.
  intros Hp. destruct x as [[id|e]|]; [intros [? ?]; split; [done|by apply Forall_app]|done|]. intros [Hs|(source & before & last & -> & Hc)]; [left; by apply stuck_app|].
  right. exists source, (l ++ before), last. by rewrite <- app_assoc.
Qed.

(** Taking a gate the operation does not hold. *)
Lemma upholds_lock_free {A} id (f : () -> Rem Mirrors W A) Q :
  upholds (f tt) (fun s1 l x s' => forall s, s1 = add_gate id s -> Q s l x s') -> upholds (lock_owned (W := W) [] id ≫= f) Q.
Proof.
  intros Hf. eapply upholds_bind; [apply upholds_lock_owned|..].
  - by intros s l e s' (_ & _ & [?|[? _]]).
  - intros s l s' (_ & _ & [?|[_ []%elem_of_nil]]); done.
  - intros s l [] s1 (-> & -> & _). eapply upholds_weaken; [exact Hf|]. intros s2 l x s' HQ ->. by apply HQ.
Qed.

Lemma upholds_fresh branch : upholds (fresh_sandbox sv branch) (fun s l x s' => live s !! branch = None -> chosen branch s l x s').
Proof.
  eapply upholds_bind; [apply sv_create_law|..].
  - intros s l e s' (Hlive & _) Hn. cbn. by rewrite Hlive.
  - by intros s l s' (_ & _ & _ & y & ?).
  - intros s l id s1 (_ & _ & Hp & _). apply upholds_set_bind, upholds_lock_free, upholds_ret. intros s2 s3 -> s4 -> -> _. cbn.
    by rewrite lookup_insert_eq, app_nil_r.
Qed.

Lemma upholds_sandbox_for budget branch target : upholds (sandbox_for sv budget branch target) (chosen branch).
Proof.
  apply upholds_get_bind. intros s. destruct (live s !! branch) as [id|] eqn:El.
  { apply upholds_lock_free, upholds_ret. by intros s1 s2 -> ->. }
  destruct target as [target|].
  2:{ eapply upholds_weaken; [apply upholds_fresh|]. intros s' l x s2 Hx ->. by apply Hx. }
  eapply upholds_bind; [apply upholds_quiescent|..].
  - intros s' l e s2 [Hlive _] ->. cbn. by rewrite Hlive.
  - intros s' l s2 [_ Hst] ->. by left.
  - intros s' l [source|] s2 [Hlive Hsearch].
    + destruct Hsearch as [Hpr _]. eapply upholds_act_bind; [apply sv_clone_law|..].
      { intros s3 l' e _ -> ->. cbn. by rewrite Hlive. }
      intros l' clone [Hpr' Hc]. specialize (Hc _ eq_refl). apply upholds_set_bind, upholds_set_bind.
      eapply upholds_bind; [apply upholds_lock_owned|..].
      * by intros s3 l2 e s4 (_ & _ & [?|[? _]]).
      * intros s3 l2 s4 (-> & -> & [?|[_ Hin]]) s5 -> s6 -> -> ->; [done|]. apply list_elem_of_singleton in Hin as ->.
        right. exists source, l, l'. by rewrite !app_nil_r.
      * intros s3 l2 [] s4 (-> & -> & _). apply upholds_ret. intros ? -> ? -> ? -> -> ->. cbn. rewrite lookup_insert_eq, !app_nil_r, Forall_app. by split_and!.
    + eapply upholds_weaken; [apply upholds_fresh|]. intros s3 l' x s4 Hx -> ->.
      eapply chosen_after; [done|]. apply Hx. by rewrite Hlive.
Qed.

(** * A step *)

Lemma upholds_poison branch id :
  upholds (poison sv branch id) (fun s l x s' => Forall (about id) l /\ s' = forget branch id s /\ x = Some (Ok tt)).
Proof.
  apply upholds_set_bind. eapply upholds_try_bind.
  - eapply (upholds_act _ _ (fun s l x s' => Forall (about id) l /\ s' = s /\ exists y, x = Some y)); [apply sv_delete_law|].
    intros s l x Hl. eauto.
  - by intros s l s' (_ & _ & y & ?).
  - intros s l y s1 (Hl & -> & _). apply upholds_ret. intros s2 -> s3 ->. by rewrite app_nil_r.
Qed.

(** A part of a step whose failure poisons the sandbox. *)
Definition guarded {A} (branch id : string) (P : Mirrors -> list Call -> A -> Mirrors -> Prop)
    (s : Mirrors) (l : list Call) (x : option (KernelResult A)) (s' : Mirrors) : Prop :=
  Forall (about id) l
  /\ match x with
     | Some (Ok a) => live s' = live s /\ P s l a s'
     | Some (Err _) => live s' !! branch = None
     | None => stuck l
     end.

Lemma upholds_or_poison {A} branch id (m : Rem Mirrors W A) P :
  upholds m (part id P) -> upholds (or_poison sv branch id m) (guarded branch id P).
Proof.
  intros Hm. eapply upholds_try_bind; [exact Hm|..].
  - by intros s l s' (Hl & _ & Hst).
  - intros s l [a|e] s1 (Hl & Hlive & HP).
    + apply upholds_ret. intros s2 ->. by rewrite app_nil_r.
    + eapply upholds_bind; [apply upholds_poison|by intros ? ? ? ? (_ & _ & ?)|by intros ? ? ? (_ & _ & ?)|].
      intros s2 l' [] s3 (Hl' & -> & _). apply upholds_fail. intros s4 -> ->. rewrite app_nil_r. split; [by apply Forall_app|].
      cbn. by rewrite lookup_delete_eq.
Qed.

Lemma upholds_run_part branch id req :
  upholds (or_poison sv branch id (rem_act (sv_run sv id req))) (guarded branch id (fun s l o s' => s' = s /\ runs id req l o)).
Proof.
  apply upholds_or_poison. eapply upholds_act; [apply sv_run_law|]. intros s l x [Hl Hr]. split_and!; [done..|].
  destruct x as [o|e]; [|done]. split; [done|]. by apply Hr.
Qed.

Lemma upholds_out_part branch id budget :
  upholds (delta ← or_poison sv branch id (sync_out sv budget id); mret (Some delta)) (guarded branch id (fun s l d s' =>
    exists delta remote, d = Some delta /\ s' = set_synced id remote s /\ read_back id remote delta l
      /\ delta_plan delta = push_plan (default ∅ (synced s !! id)) remote)).
Proof.
  eapply upholds_bind; [apply upholds_or_poison, upholds_sync_out|done|done|].
  intros s l d s1 (Hl & Hlive & remote & -> & Hrb & Hd). apply upholds_ret. intros s2 ->. rewrite app_nil_r. split_and!; eauto 6.
Qed.

(** What a step that succeeds did, call by call. *)
Definition exact_step (p : Provider) (req : ExecutionRequest) (l : list Call) (out : ExecutionOutcome) (s' : Mirrors) : Prop :=
  exists id target remote d o chosen_by brought ran read,
    pv_manifest p (req_base_state req) = Ok target
    /\ l = chosen_by ++ brought ++ ran ++ read
    /\ Forall prepares chosen_by
    /\ Forall (about id) (brought ++ ran ++ read)
    /\ brought_to p id target brought
    /\ runs id req ran o
    /\ read_back id remote d read
    /\ delta_plan d = push_plan target remote
    /\ out = step_outcome req o (Some d)
    /\ live s' !! req_branch req = Some id.

(** What a step that fails leaves: nothing happened, or the branch has no sandbox. *)
Definition failed_step (p : Provider) (req : ExecutionRequest) (s : Mirrors) (l : list Call) (s' : Mirrors) : Prop :=
  (l = [] /\ s' = s /\ exists e, pv_manifest p (req_base_state req) = Err e) \/ live s' !! req_branch req = None.

Definition step_ends (p : Provider) (req : ExecutionRequest) (s : Mirrors) (l : list Call)
    (x : option (KernelResult ExecutionOutcome)) (s' : Mirrors) : Prop :=
  match x with
  | Some (Ok out) => exact_step p req l out s'
  | Some (Err _) => failed_step p req s l s'
  | None => stuck l \/ same_copy (req_branch req) l
  end.

(** The part of a step from a chosen sandbox on. *)
Lemma upholds_step_on p req id target :
  pv_manifest p (req_base_state req) = Ok target ->
  upholds (_ ← or_poison sv (req_branch req) id (sync_in sv p (req_budget req) id target);
         o ← or_poison sv (req_branch req) id (rem_act (sv_run sv id req));
         d ← (delta ← or_poison sv (req_branch req) id (sync_out sv (req_budget req) id); mret (Some delta));
         mret (step_outcome req o d))
    (fun s l x s' => live s !! req_branch req = Some id -> forall before, Forall prepares before ->
       match x with
       | Some (Ok out) => exact_step p req (before ++ l) out s'
       | Some (Err _) => live s' !! req_branch req = None
       | None => stuck l
       end).
Proof.
  intros Hp. eapply upholds_bind; [apply upholds_or_poison, upholds_sync_in|by intros s l e s' [_ ?]|by intros s l s' [_ ?]|].
  intros s brought [] s1 (Ha & Hl1 & -> & Hbrought).
  eapply upholds_bind; [apply upholds_run_part|by intros s2 l2 e s' [_ ?] -> _|by intros s2 l2 s' [_ ?] -> _ _ _; apply stuck_app|].
  intros s2 ran o s3 (Har & _ & -> & Hruns).
  eapply upholds_bind; [apply upholds_out_part|by intros s3 l3 e s' [_ ?] -> -> _
    |by intros s3 l3 s' [_ ?] -> -> _ _ _; apply stuck_app, stuck_app|].
  intros s3 read d s4 (Hard & Hlive & delta & remote & -> & _ & Hrb & Hd).
  apply upholds_ret. intros s5 -> -> -> Hl before Hbefore.
  exists id, target, remote, delta, o, before, brought, ran, read. cbn in Hd. rewrite lookup_insert_eq in Hd.
  rewrite app_nil_r. rewrite !Forall_app. split_and!; try done. by rewrite Hlive.
Qed.

(** A step on a mirrored sandbox, in every world. *)
Lemma upholds_execute p req : upholds (execute sv (Some p) req) (step_ends p req).
Proof.
  unfold execute. eapply (upholds_act_bind _ _ (fun l x => l = [] /\ x = Some <$> pv_manifest p (req_base_state req))).
  { by apply logged_pure. }
  { intros s l e [-> He]. left. split_and!; [done..|]. destruct (pv_manifest p (req_base_state req)) as [|e']; [done|]. eauto. }
  intros l target [-> Ht]. destruct (pv_manifest p (req_base_state req)) as [t|] eqn:Hp; [|done]. injection Ht as ->.
  eapply upholds_bind; [apply upholds_sandbox_for|..].
  - intros s l e s' Hn. by right.
  - intros s l s' Hs. exact Hs.
  - intros s before id s1 [Hid Hpr]. eapply upholds_weaken; [by apply upholds_step_on|]. intros s2 l x s' Hx ->.
    specialize (Hx Hid before Hpr). destruct x as [[out|e]|]; [exact Hx|by right|]. left. by apply (stuck_app before).
Qed.

(** A base state with a file mode beyond the permission bits never runs. *)
Lemma upholds_special_mode p req target path e :
  pv_manifest p (req_base_state req) = Ok target -> target !! path = Some e ->
  Z.land (sync_mode e) 511 <> sync_mode e ->
  upholds (execute sv (Some p) req) (fun s l x s' => forall out, x <> Some (Ok out)).
Proof.
  intros Hp Ht Hm. eapply upholds_weaken; [apply upholds_execute|]. intros s l x s' Hx out ->.
  destruct Hx as (id & t & remote & d & o & cb & brought & ran & read & Hp' & _ & _ & _ & Hb & _).
  rewrite Hp in Hp'. injection Hp' as <-. apply Hm. destruct Hb as (current & first & pushed & again & _ & Hf & _ & [[-> _]|Hl]).
  - by apply (proj1 (lists_ok _ _ _ Hf) path e).
  - by apply (proj1 (lists_ok _ _ _ Hl) path e).
Qed.

(** * Forking and discarding *)

(** A native fork: a listed source that is the state, a copy of it, and a listing of the
    copy that is the state too. *)
Definition exact_fork (p : Provider) (from to_branch : string) (l : list Call) (s' : Mirrors) : Prop :=
  exists target source id before seen copied listed,
    pv_manifest p from = Ok target
    /\ l = before ++ seen ++ copied ++ listed
    /\ lists source seen target
    /\ clones source to_branch copied id
    /\ lists id listed target
    /\ live s' !! to_branch = Some id.

Lemma upholds_fork provider from to_branch :
  upholds (fork sv provider from to_branch) (fun s l x s' =>
    match x with
    | Some (Ok true) => exists p, provider = Some p /\ exact_fork p from to_branch l s'
    | Some (Ok false) => True
    | Some (Err _) => live s' = live s \/ live s' !! to_branch = None
    | None => stuck l
    end).
Proof.
  destruct provider as [p|]; cbn [fork]; [|by apply upholds_ret].
  eapply (upholds_act_bind _ _ (fun l x => l = [] /\ x = pv_manifest p from)); [by apply logged_pure|by left|].
  intros l0 target [-> Hp].
  eapply upholds_bind; [apply upholds_quiescent|by intros s l e s' [Hlive _]; left|by intros s l s' [_ ?]|].
  intros s l [source|] s1 [Hlive Hseen]; [|by apply upholds_ret]. destruct Hseen as (_ & before & seen & -> & Hls).
  eapply upholds_act_bind; [apply sv_clone_law|..].
  { intros s2 l' e _ ->. left. exact Hlive. }
  intros copied id [_ Hc]. specialize (Hc _ eq_refl). eapply upholds_try_bind; [apply sv_manifest_law|..].
  { intros s2 l' s' (-> & _ & _ & Hp') ->. by apply (stuck_app (before ++ seen)), stuck_app, stuck_panics. }
  intros s2 listed [current|e] s3 (-> & _ & _ & Hlist).
  - apply upholds_set_bind, upholds_set_bind, upholds_ret. intros s4 s5 -> s6 -> -> ->.
    case_bool_decide as Ec; [|done]. subst current. exists p. split; [done|].
    exists target, source, id, before, seen, copied, listed. rewrite app_nil_r. cbn. rewrite <- !app_assoc.
    by rewrite lookup_insert_eq.
  - apply upholds_set_bind. eapply upholds_bind; [apply upholds_poison|by intros ? ? ? ? (_ & _ & ?)|by intros ? ? ? (_ & _ & ?)|].
    intros s4 l4 [] s5 (_ & -> & _). apply upholds_fail. intros ? -> ? -> -> ->. right. cbn. by rewrite lookup_delete_eq.
Qed.

(** A branch's sandbox is forgotten only after the service has deleted it. *)
Lemma upholds_discard branch :
  upholds (discard sv branch) (fun s l x s' =>
    match x with
    | Some (Ok _) => live s' !! branch = None
    | Some (Err _) => live s' = live s /\ synced s' = synced s
    | None => False
    end).
Proof.
  apply upholds_get_bind. intros s. destruct (live s !! branch) as [id|] eqn:El; [|by apply upholds_ret; intros s1 ->].
  apply upholds_lock_free. eapply upholds_act_bind; [apply sv_delete_law|..].
  - by intros s1 l e _ s2 -> ->.
  - intros l [] _. apply upholds_set. intros s1 s2 -> ->. cbn. by rewrite lookup_delete_eq.
Qed.
End safety.
