(* ===== verification/Cube.v ===== *)
(** The Cube backend, [backends/cube/src/lib.rs]: a mirrored service ([Mirror])
    whose client works on the files of a sandbox over HTTP. *)

From S2P Require Import Prelude Json Budget Capability Types B64 Utf8 Auth Canonical Effect Snapshot Dag Router Path Service HttpConn Remote Hosts Mirror MirrorSafety.

Open Scope Z_scope.

Module Cube.

Definition BACKEND_NAME : string := "cube".

Record CubeConfig := mkCubeConfig {
  endpoint : string;
  auth_token : option string;
  request_timeout : Z;                (* seconds *)
}.

Definition config_new (endpoint : string) : CubeConfig := mkCubeConfig endpoint None 30.
(** [variable]: [CUBE_API_TOKEN]. *)
Definition from_env (endpoint : string) (variable : option string) : CubeConfig := mkCubeConfig endpoint variable 30.

Definition validate_endpoint `{!UrlOps} (endpoint : string) : KernelResult () := check_endpoint BACKEND_NAME endpoint.
Definition validate_remote_id (id : string) : KernelResult () := check_id BACKEND_NAME "service returned invalid id" id.

(** [ExecRequest] and [ExecResponse]. *)
Definition exec_request (p : ExecParams) : Value := exec_body snake p.
Definition exec_response (v : Value) : option ExecOutcome := exec_outcome snake v.

(** [CubeBackend::new]; [client]: the answer of the builder of the HTTP client. *)
Definition backend_new `{!UrlOps} (config : CubeConfig) (client : result string ()) : KernelResult Mirrors :=
  _ ← validate_endpoint (endpoint config);
  _ ← map_err (unavailable BACKEND_NAME) client;
  Ok no_mirrors.

(** [synced]: whether a state provider is attached. *)
Definition profile (synced : bool) : BackendProfile :=
  mkProfile BACKEND_NAME 90 250 ProcessAndFilesystem synced false true false synced.

(** * Listings *)

Record RemoteFile := mkRemoteFile {
  rf_path : string;
  rf_sha256 : string;
  rf_mode : Z;                        (* u32 *)
}.

Definition default_remote_mode : Z := 420.

Definition u32_or (d : Z) (v : option Value) : option Z :=
  match v with
  | None => Some d
  | Some (Number (PosInt n)) => if n <? 2 ^ 32 then Some n else None
  | _ => None
  end.

Definition str_value (v : option Value) : option string := match v with Some (Str s) => Some s | _ => None end.

Definition remote_file (v : Value) : option RemoteFile :=
  path ← str_value (value_get "path" v);
  sha256 ← str_value (value_get "sha256" v);
  mode ← u32_or default_remote_mode (value_get "mode" v);
  Some (mkRemoteFile path sha256 mode).

(** [FileListResponse]. *)
Definition file_list (v : Value) : option (list RemoteFile) :=
  files ← value_get "files" v ≫= as_array;
  mapM remote_file files.

Definition is_sha256 (s : string) : bool := is_hex_digest s.

Fixpoint manifest_loop (files : list RemoteFile) (manifest : SyncManifest) : KernelResult SyncManifest :=
  match files with
  | [] => Ok manifest
  | f :: rest =>
      match syncable_path (rf_path f) with
      | Err reason =>
          if str_contains "cache/scratch" reason then manifest_loop rest manifest
          else Err (unavailable BACKEND_NAME ("service listed an unsyncable path: " +:+ reason))
      | Ok path =>
          if negb (is_sha256 (rf_sha256 f)) then
            Err (unavailable BACKEND_NAME ("service listed an invalid SHA-256 for `" +:+ path +:+ "`"))
          else
            match manifest !! path with
            | Some _ => Err (unavailable BACKEND_NAME ("service listed duplicate canonical path `" +:+ path +:+ "`"))
            | None =>
                manifest_loop rest
                  (<[path := mkSyncEntry ("sha256:" +:+ to_ascii_lowercase (rf_sha256 f)) (Z.land (rf_mode f) 511)]> manifest)
            end
      end
  end.

Definition manifest_of (files : list RemoteFile) : KernelResult SyncManifest :=
  manifest ← manifest_loop files ∅;
  _ ← map_err (unavailable BACKEND_NAME) (validate_manifest_shape manifest);
  Ok manifest.

(** The entry of a listed file. *)
Definition listed_entry (f : RemoteFile) : SyncEntry :=
  mkSyncEntry ("sha256:" +:+ to_ascii_lowercase (rf_sha256 f)) (Z.land (rf_mode f) 511).

(** What a listing has put into a manifest so far. *)
Record tells (files : list RemoteFile) (m0 m : SyncManifest) : Prop := {
  tells_old p e : m0 !! p = Some e -> m !! p = Some e;
  tells_all f p : f ∈ files -> syncable_path (rf_path f) = Ok p -> m !! p = Some (listed_entry f);
  tells_only p e : m !! p = Some e -> m0 !! p = Some e \/
    exists f, f ∈ files /\ syncable_path (rf_path f) = Ok p /\ e = listed_entry f /\ entry_ok p e;
}.

Lemma manifest_loop_tells files m0 m : manifest_loop files m0 = Ok m -> tells files m0 m.
Proof.
  revert m0. induction files as [|f files IH]; intros m0; cbn [manifest_loop].
  { intros [= <-]. split; [done|by intros ? ? ?%not_elem_of_nil|by left]. }
  destruct (syncable_path (rf_path f)) as [path|reason] eqn:Ep.
  - destruct (is_sha256 (rf_sha256 f)) eqn:Eh; [|done]. cbn [negb]. destruct (m0 !! path) eqn:E0; [done|].
    intros [Hold Hall Honly]%IH. split.
    + intros p e Hp. apply Hold. rewrite lookup_insert_ne; [done|]. intros ->. congruence.
    + intros g p [->|Hg]%elem_of_cons Hp; [|by apply Hall]. rewrite Ep in Hp. injection Hp as <-.
      apply Hold. by rewrite lookup_insert_eq.
    + intros p e [Hp|(g & Hg & Hr)]%Honly; [|right; exists g; split; [by right|done]].
      destruct (decide (p = path)) as [->|Hne]; [|left; by rewrite lookup_insert_ne in Hp].
      rewrite lookup_insert_eq in Hp. injection Hp as <-. right. exists f.
      split_and!; [by left|done|done|]. by apply (listed_entry_ok (rf_path f)).
  - destruct (str_contains _ _); [|done]. intros [Hold Hall Honly]%IH. split; [done| |].
    + intros g p [->|Hg]%elem_of_cons Hp; [congruence|by apply Hall].
    + intros p e [?|(g & Hg & Hr)]%Honly; [by left|]. right. exists g. split; [by right|done].
Qed.

Lemma manifest_of_loop files m : manifest_of files = Ok m -> manifest_loop files ∅ = Ok m /\ tree_shaped m.
Proof.
  unfold manifest_of. destruct (manifest_loop files ∅) as [m'|]; [|done]. cbn [mbind result_bind].
  destruct (validate_manifest_shape m') as [u|] eqn:Es; [|done]. intros [= <-].
  by apply validate_manifest_shape_Ok in Es.
Qed.

Lemma manifest_of_ok files m : manifest_of files = Ok m -> tree_ok m.
Proof.
  intros [Hl Hs]%manifest_of_loop. split; [|done]. intros p e [?|(f & _ & _ & _ & He)]%(tells_only _ _ _ (manifest_loop_tells _ _ _ Hl)); done.
Qed.

(** C36: A listing is believed only as a well-formed tree, and then exactly.  Every path of
    an accepted manifest is canonical, inside the workspace and outside the cache tier, its
    hash is one the content store takes, in lower case, its mode has only permission bits,
    and no file is a directory of another.  Each listed file with a syncable path is in the
    manifest with its own hash and mode, and nothing else is. *)
Theorem listing_wf files m :
  manifest_of files = Ok m ->
  tree_ok m
  /\ (forall f p, f ∈ files -> syncable_path (rf_path f) = Ok p -> m !! p = Some (listed_entry f))
  /\ (forall p e, m !! p = Some e -> exists f, f ∈ files /\ syncable_path (rf_path f) = Ok p /\ e = listed_entry f).
Proof.
  intros Hm. split; [by apply (manifest_of_ok files)|]. apply manifest_of_loop in Hm as [[_ Hall Honly]%manifest_loop_tells _].
  split; [done|]. intros p e [?|(f & ? & ? & ? & _)]%Honly; [done|eauto].
Qed.

Lemma listing_wf_witness :
  let files := [mkRemoteFile "./src//main.rs" (String.string_of_list_ascii (repeat "A"%char 64)) 33261] in
  exists m, manifest_of files = Ok m /\ tree_ok m.
Proof.
  intros files. destruct (manifest_of files) as [m|e] eqn:Em; [|vm_compute in Em; done].
  exists m. split; [done|]. apply (listing_wf files m Em).
Defined.

(** * The client *)

Section cube.
Context `{!Sha256} `{!RemoteText} {W : Type} `{!ControlPlane W} `{!Contention W} (config : CubeConfig).

Definition url (path : string) : string := trim_endpoint (endpoint config) +:+ path.

Definition post (path : string) (body : Value) : Act Call W Value :=
  post_json BACKEND_NAME (auth_token config) (url path) body.

Definition metadata_body (branch : string) : Value := Object [("metadata", Object [("branch", Str branch)])].
Definition path_body (path : string) : Value := Object [("path", Str path)].
Definition write_body (path contents_b64 : string) (mode : option Z) : Value :=
  Object ([("path", Str path); ("contents_b64", Str contents_b64)]
    ++ match mode with Some m => [("mode", num m)] | None => [] end).

Definition created (v : Value) : KernelResult string :=
  new_id BACKEND_NAME "service returned invalid id" "CreateSandboxResponse" "sandbox_id" v.

Definition create_sandbox (branch : string) : Act Call W string :=
  v ← post "/v1/sandboxes" (metadata_body branch);
  pure_act (created v).

(** A call on a sandbox: its identifier is checked, then the request is made. *)
Definition call_sandbox {A} (sandbox suffix : string) (body : Value) (read : Value -> KernelResult A) : Act Call W A :=
  _ ← pure_act (validate_remote_id sandbox);
  v ← post ("/v1/sandboxes/" +:+ sandbox +:+ suffix) body;
  pure_act (read v).

Definition exec_answer (v : Value) : KernelResult ExecOutcome :=
  ok_or (exec_response v) (unavailable BACKEND_NAME (mismatch "ExecResponse" v)).

Definition exec (sandbox : string) (p : ExecParams) : Act Call W ExecOutcome :=
  call_sandbox sandbox "/exec" (exec_request p) exec_answer.

Definition write_file (sandbox path contents_b64 : string) (mode : option Z) : Act Call W () :=
  call_sandbox sandbox "/files/write" (write_body path contents_b64 mode) (fun _ => Ok tt).

Definition list_answer (v : Value) : KernelResult (list RemoteFile) :=
  ok_or (file_list v) (unavailable BACKEND_NAME (mismatch "FileListResponse" v)).

Definition list_files (sandbox : string) : Act Call W (list RemoteFile) :=
  call_sandbox sandbox "/files/list" (Object []) list_answer.

Definition read_answer (v : Value) : KernelResult string :=
  b64 ← str_field BACKEND_NAME "FileReadResponse" "contents_b64" v;
  map_err (fun e => unavailable BACKEND_NAME ("service returned invalid base64: " +:+ e)) (decode b64).

Definition read_file (sandbox path : string) : Act Call W string :=
  call_sandbox sandbox "/files/read" (path_body path) read_answer.

Definition delete_path (sandbox path : string) : Act Call W () :=
  call_sandbox sandbox "/files/delete" (path_body path) (fun _ => Ok tt).

Definition snapshot (sandbox : string) : Act Call W string :=
  call_sandbox sandbox "/snapshot" (Object [])
    (new_id BACKEND_NAME "service returned invalid id" "SnapshotResponse" "snapshot_id").

Definition clone_snapshot (snapshot branch : string) : Act Call W string :=
  _ ← pure_act (validate_remote_id snapshot);
  v ← post ("/v1/snapshots/" +:+ snapshot +:+ "/clone") (metadata_body branch);
  pure_act (created v).

Definition delete_sandbox (sandbox : string) : Act Call W () :=
  _ ← pure_act (validate_remote_id sandbox);
  delete_url BACKEND_NAME (auth_token config) (url ("/v1/sandboxes/" +:+ sandbox)).

(** * The service *)

Definition remote_manifest (sandbox : string) : Act Call W SyncManifest :=
  listing ← list_files sandbox;
  pure_act (manifest_of listing).

Fixpoint delete_all (sandbox : string) (paths : list string) : Act Call W () :=
  match paths with
  | [] => mret tt
  | p :: rest => _ ← delete_path sandbox p; delete_all sandbox rest
  end.

Fixpoint write_all (blob : string -> KernelResult string) (sandbox : string) (l : list (string * SyncEntry)) : Act Call W () :=
  match l with
  | [] => mret tt
  | (path, entry) :: rest =>
      _ ← delete_path sandbox path;
      bytes ← pure_act (blob (sync_blob entry));
      _ ← write_file sandbox path (encode bytes) (Some (Z.land (sync_mode entry) 511));
      write_all blob sandbox rest
  end.

Definition push (blob : string -> KernelResult string) (sandbox : string) (plan : PushPlan) : Act Call W () :=
  _ ← delete_all sandbox (plan_deletes plan);
  write_all blob sandbox (plan_upserts plan).

Definition clone (source branch : string) : Act Call W string :=
  s ← snapshot source;
  clone_snapshot s branch.

Definition file_outcome (stdout : string) : ExecOutcome := mkExecOutcome 0 stdout EmptyString 0 None.

Definition run (sandbox : string) (req : ExecutionRequest) : Act Call W ExecOutcome :=
  match req_action req with
  | Shell command cwd env => exec sandbox (request_params req command cwd env)
  | ReadFile path => bytes ← read_file sandbox path; mret (file_outcome (from_utf8_lossy bytes))
  | WriteFile path contents_b64 => _ ← write_file sandbox path contents_b64 None; mret (file_outcome EmptyString)
  | DeletePath path => _ ← delete_path sandbox path; mret (file_outcome EmptyString)
  | other => pure_act (Err (does_not_execute BACKEND_NAME other))
  end.

Definition client : Svc W :=
  mkSvc BACKEND_NAME "service" (fun _ sandbox => rem_act (remote_manifest sandbox)) (fun blob _ => push blob) (fun _ => read_file) clone
    (fun branch => rem_act (create_sandbox branch)) run delete_sandbox.

(** The calls of this service carry no budget: [step_default] is a placeholder. *)
Definition quiescent_source (target : SyncManifest) : Rem Mirrors W (option string) :=
  Mirror.quiescent_source client step_default target.
Definition sandbox_for (branch : string) (target : option SyncManifest) : Rem Mirrors W string :=
  Mirror.sandbox_for client step_default branch target.
Definition poison (branch sandbox : string) : Rem Mirrors W () := Mirror.poison client branch sandbox.
Definition sync_in (provider : Provider) (sandbox : string) (target : SyncManifest) : Rem Mirrors W () :=
  Mirror.sync_in client provider step_default sandbox target.
Definition sync_out (sandbox : string) : Rem Mirrors W WorkspaceDelta := Mirror.sync_out client step_default sandbox.
Definition execute (provider : option Provider) (req : ExecutionRequest) : Rem Mirrors W ExecutionOutcome :=
  Mirror.execute client provider req.
Definition fork (provider : option Provider) (from to_branch : string) : Rem Mirrors W bool :=
  Mirror.fork client provider from to_branch.
Definition discard (branch : string) : Rem Mirrors W () := Mirror.discard client branch.

(** * What the calls mean *)

Definition sandbox_sent (sandbox suffix : string) (body : Value) : Sent :=
  mkSent "POST" (url ("/v1/sandboxes/" +:+ sandbox +:+ suffix)) (auth_token config) (Some body).

(** How the answer to a call on a sandbox is read. *)
Definition answered {A} (sandbox suffix : string) (read : Value -> KernelResult A) (a : result string Reply) : KernelResult A :=
  json_answer BACKEND_NAME (url ("/v1/sandboxes/" +:+ sandbox +:+ suffix)) a ≫= read.

(** The request goes to the sandbox's own path or below it. *)
Definition on_sandbox (sandbox : string) (c : Call) : Prop :=
  exists tail, s_url (call_sent c) = url ("/v1/sandboxes/" +:+ sandbox +:+ tail)
    /\ (tail = EmptyString \/ exists rest, tail = "/" +:+ rest).

Definition listed (sandbox : string) (l : list Call) (m : SyncManifest) : Prop :=
  exists a files, l = [mkCall (sandbox_sent sandbox "/files/list" (Object [])) a]
    /\ answered sandbox "/files/list" list_answer a = Ok files /\ manifest_of files = Ok m.

(** The request an action becomes, and its answer as an outcome. *)
Definition action_call (req : ExecutionRequest) : option (string * Value * (Value -> KernelResult ExecOutcome)) :=
  match req_action req with
  | Shell command cwd env => Some ("/exec", exec_request (request_params req command cwd env), exec_answer)
  | ReadFile path =>
      Some ("/files/read", path_body path, fun v => (fun bytes => file_outcome (from_utf8_lossy bytes)) <$> read_answer v)
  | WriteFile path contents_b64 => Some ("/files/write", write_body path contents_b64 None, fun _ => Ok (file_outcome EmptyString))
  | DeletePath path => Some ("/files/delete", path_body path, fun _ => Ok (file_outcome EmptyString))
  | _ => None
  end.

Definition ran (sandbox : string) (req : ExecutionRequest) (l : list Call) (o : ExecOutcome) : Prop :=
  exists suffix body read a, action_call req = Some (suffix, body, read)
    /\ l = [mkCall (sandbox_sent sandbox suffix body) a] /\ answered sandbox suffix read a = Ok o.

(** A snapshot of the source, then a clone of that snapshot. *)
Definition cloned (source branch : string) (l : list Call) (id : string) : Prop :=
  exists a snap b, l = [mkCall (sandbox_sent source "/snapshot" (Object [])) a;
      mkCall (mkSent "POST" (url ("/v1/snapshots/" +:+ snap +:+ "/clone")) (auth_token config) (Some (metadata_body branch))) b]
    /\ answered source "/snapshot" (new_id BACKEND_NAME "service returned invalid id" "SnapshotResponse" "snapshot_id") a = Ok snap
    /\ json_answer BACKEND_NAME (url ("/v1/snapshots/" +:+ snap +:+ "/clone")) b ≫= created = Ok id.

(** A call that lists a sandbox, takes a snapshot of one, or makes one. *)
Definition preparing (c : Call) : Prop :=
  (exists sandbox, call_sent c = sandbox_sent sandbox "/files/list" (Object [])
     \/ call_sent c = sandbox_sent sandbox "/snapshot" (Object []))
  \/ exists branch path, (path = "/v1/sandboxes" \/ exists snap, path = "/v1/snapshots/" +:+ snap +:+ "/clone")
     /\ call_sent c = mkSent "POST" (url path) (auth_token config) (Some (metadata_body branch)).

Definition delete_sent (sandbox path : string) : Sent := sandbox_sent sandbox "/files/delete" (path_body path).

(** A file of a plan: what was there is deleted, then its contents are written. *)
Definition upsert_sent (blob : string -> KernelResult string) (sandbox : string) (pe : string * SyncEntry) : list Sent :=
  [delete_sent sandbox pe.1;
   sandbox_sent sandbox "/files/write"
     (write_body pe.1 (encode (value_of EmptyString (blob (sync_blob pe.2)))) (Some (Z.land (sync_mode pe.2) 511)))].

(** The requests that carry out a plan, all its contents being known. *)
Definition pushed (blob : string -> KernelResult string) (sandbox : string) (plan : PushPlan) (l : list Call) : Prop :=
  map call_sent l = map (delete_sent sandbox) (plan_deletes plan) ++ flat_map (upsert_sent blob sandbox) (plan_upserts plan)
  /\ forall p e, (p, e) ∈ plan_upserts plan -> exists bytes, blob (sync_blob e) = Ok bytes.

Definition pulled (sandbox path : string) (l : list Call) (bytes : string) : Prop :=
  exists a, l = [mkCall (sandbox_sent sandbox "/files/read" (path_body path)) a]
    /\ answered sandbox "/files/read" read_answer a = Ok bytes.

Lemma logged_call_sandbox {A} sandbox suffix body (read : Value -> KernelResult A) (Q : list Call -> KernelResult A -> Prop) :
  (forall e, Q [] (Err e)) ->
  (forall a, Q [mkCall (sandbox_sent sandbox suffix body) a] (answered sandbox suffix read a)) ->
  logged (call_sandbox sandbox suffix body read) Q.
Proof.
  intros He Ha. apply logged_pure_bind; [by intros e _|]. intros [] _. by apply logged_post_read.
Qed.

Lemma on_sandbox_sent sandbox suffix body a :
  (exists rest, suffix = "/" +:+ rest) -> on_sandbox sandbox (mkCall (sandbox_sent sandbox suffix body) a).
Proof. intros Hs. exists suffix. auto. Qed.

(** Every call of a call on a sandbox is on it. *)
Lemma logged_on_sandbox {A} sandbox suffix body (read : Value -> KernelResult A) :
  (exists rest, suffix = "/" +:+ rest) ->
  logged (call_sandbox sandbox suffix body read) (fun l _ => Forall (on_sandbox sandbox) l).
Proof.
  intros Hs. apply logged_call_sandbox; [by constructor|]. intros a. repeat constructor. by apply on_sandbox_sent.
Qed.

Lemma logged_remote_manifest sandbox :
  logged (remote_manifest sandbox) (fun l x => Forall (on_sandbox sandbox) l /\ Forall preparing l
    /\ forall m, x = Ok m -> listed sandbox l m).
Proof.
  eapply (logged_bind _ _ (fun l x => Forall (on_sandbox sandbox) l /\ Forall preparing l /\ forall files, x = Ok files ->
    exists a, l = [mkCall (sandbox_sent sandbox "/files/list" (Object [])) a] /\ answered sandbox "/files/list" list_answer a = Ok files)).
  - apply logged_call_sandbox; [intros e; by split_and!|]. intros a. split_and!; [| |by eauto].
    + repeat constructor. apply on_sandbox_sent. by eexists.
    + apply Forall_singleton. left. exists sandbox. by left.
  - by intros l e (? & ? & _).
  - intros l files (Hl & Hpr & Hf). apply logged_pure. rewrite app_nil_r. split_and!; [done..|]. intros m Hm.
    destruct (Hf _ eq_refl) as (a & -> & ?). by exists a, files.
Qed.

(** A call whose answer is not read. *)
Lemma logged_call_done sandbox suffix body :
  (exists rest, suffix = "/" +:+ rest) ->
  logged (call_sandbox sandbox suffix body (fun _ => Ok tt)) (fun l x => Forall (on_sandbox sandbox) l
    /\ forall u : (), x = Ok u -> map call_sent l = [sandbox_sent sandbox suffix body]).
Proof.
  intros Hs. apply logged_call_sandbox; [by split; [constructor|]|]. intros a. split; [|done].
  repeat constructor. by apply on_sandbox_sent.
Qed.

Lemma logged_delete_all sandbox paths :
  logged (delete_all sandbox paths) (fun l x => Forall (on_sandbox sandbox) l
    /\ forall u, x = Ok u -> map call_sent l = map (delete_sent sandbox) paths).
Proof.
  induction paths as [|p rest IH]; cbn [delete_all]; [by apply logged_ret|].
  eapply logged_bind; [apply logged_call_done; by eexists|by intros l e [? _]; split|].
  intros l [] [Hl Hs]. eapply logged_weaken; [exact IH|]. intros l' x [Hl' Hs']. split; [by apply Forall_app|].
  intros u Hu. by rewrite map_app, (Hs _ eq_refl), (Hs' _ Hu).
Qed.

Lemma logged_write_all blob sandbox upserts :
  logged (write_all blob sandbox upserts) (fun l x => Forall (on_sandbox sandbox) l
    /\ forall u, x = Ok u -> map call_sent l = flat_map (upsert_sent blob sandbox) upserts
         /\ forall p e, (p, e) ∈ upserts -> exists bytes, blob (sync_blob e) = Ok bytes).
Proof.
  induction upserts as [|[p e] rest IH]; cbn [write_all].
  { apply logged_ret. split; [done|]. intros u _. split; [done|]. by intros p e []%not_elem_of_nil. }
  eapply logged_bind; [apply logged_call_done; by eexists|by intros l err [? _]; split|]. intros l [] [Hl Hs].
  apply logged_pure_bind; [intros err _; rewrite app_nil_r; by split|]. intros bytes Hb.
  eapply logged_bind; [apply logged_call_done; by eexists|intros l2 err [? _]; split; [by apply Forall_app|done]|].
  intros l2 [] [Hl2 Hs2]. eapply logged_weaken; [exact IH|]. intros l3 x [Hl3 Hs3]. rewrite !Forall_app. split; [done|].
  intros u Hu. destruct (Hs3 _ Hu) as [Hs3' Hall]. rewrite !map_app, (Hs _ eq_refl), (Hs2 _ eq_refl), Hs3'. split.
  - unfold upsert_sent at 2. cbn. by rewrite Hb.
  - intros q e' [[= -> ->]|Hin]%elem_of_cons; [eauto|by eapply Hall].
Qed.

Lemma logged_push blob sandbox plan :
  logged (push blob sandbox plan) (fun l x => Forall (on_sandbox sandbox) l /\ forall u, x = Ok u -> pushed blob sandbox plan l).
Proof.
  eapply logged_bind; [apply logged_delete_all|by intros l e [? _]; split|]. intros l [] [Hl Hs].
  eapply logged_weaken; [apply logged_write_all|]. intros l' x [Hl' Hs']. split; [by apply Forall_app|].
  intros u Hu. destruct (Hs' _ Hu) as [Hs2 Hall]. split; [|done]. by rewrite map_app, (Hs _ eq_refl), Hs2.
Qed.

Lemma push_nothing blob sandbox plan : plan_is_empty plan = true -> push blob sandbox plan = mret tt ≫= fun _ => mret tt.
Proof.
  unfold plan_is_empty, push. rewrite andb_true_iff, !bool_decide_eq_true, !length_zero_iff_nil. by intros [-> ->].
Qed.

Lemma pushed_nothing blob sandbox plan : plan_is_empty plan = true -> pushed blob sandbox plan [].
Proof.
  unfold plan_is_empty, pushed. rewrite andb_true_iff, !bool_decide_eq_true, !length_zero_iff_nil. intros [-> ->].
  split; [done|]. by intros p e []%not_elem_of_nil.
Qed.

(** A call on a sandbox whose value is then mapped. *)
Lemma logged_call_map {A B} sandbox suffix body (read : Value -> KernelResult A) (g : A -> B) (Q : list Call -> KernelResult B -> Prop) :
  (forall e, Q [] (Err e)) ->
  (forall a, Q [mkCall (sandbox_sent sandbox suffix body) a] (answered sandbox suffix (fun v => g <$> read v) a)) ->
  logged (call_sandbox sandbox suffix body read ≫= (fun x => mret (g x))) Q.
Proof.
  intros He Ha. eapply (logged_bind _ _ (fun l x => (l = [] /\ exists e, x = Err e)
    \/ exists a, l = [mkCall (sandbox_sent sandbox suffix body) a] /\ x = answered sandbox suffix read a)).
  - apply logged_call_sandbox; eauto.
  - intros l e [[-> _]|(a & -> & Hx)]; [done|]. specialize (Ha a). unfold answered in *.
    destruct (json_answer _ _ a) as [v|e']; cbn in *; [by rewrite <- Hx in Ha|by injection Hx as ->].
  - intros l x [(_ & e & ?)|(a & -> & Hx)]; [done|]. apply logged_ret. rewrite app_nil_r. specialize (Ha a).
    unfold answered in *. destruct (json_answer _ _ a) as [v|e']; cbn in *; [by rewrite <- Hx in Ha|done].
Qed.

Definition ran_on (sandbox : string) (req : ExecutionRequest) (l : list Call) (x : KernelResult ExecOutcome) : Prop :=
  Forall (on_sandbox sandbox) l /\ forall o, x = Ok o -> ran sandbox req l o.

Lemma ran_on_call sandbox req suffix body read a :
  action_call req = Some (suffix, body, read) -> (exists rest, suffix = "/" +:+ rest) ->
  ran_on sandbox req [mkCall (sandbox_sent sandbox suffix body) a] (answered sandbox suffix read a).
Proof.
  intros Hc Hs. split; [repeat constructor; by apply on_sandbox_sent|]. intros o Ho. by exists suffix, body, read, a.
Qed.

Lemma logged_run sandbox req : logged (run sandbox req) (ran_on sandbox req).
Proof.
  assert (forall e, ran_on sandbox req [] (Err e)) as Hnil by (by split; [constructor|]).
  pose proof (ran_on_call sandbox req) as Hcall. unfold action_call in Hcall.
  unfold run. destruct (req_action req); try (by apply logged_pure).
  - apply logged_call_sandbox; [done|]. intros a. apply Hcall; [done|by eexists].
  - apply logged_call_map; [done|]. intros a. apply Hcall; [done|by eexists].
  - apply logged_call_map; [done|]. intros a. apply Hcall; [done|by eexists].
  - apply logged_call_map; [done|]. intros a. apply Hcall; [done|by eexists].
Qed.

Lemma logged_clone source branch :
  logged (clone source branch) (fun l x => Forall preparing l /\ forall id, x = Ok id -> cloned source branch l id).
Proof.
  eapply (logged_bind _ _ (fun l x => Forall preparing l /\ forall snap, x = Ok snap -> exists a,
    l = [mkCall (sandbox_sent source "/snapshot" (Object [])) a]
    /\ answered source "/snapshot" (new_id BACKEND_NAME "service returned invalid id" "SnapshotResponse" "snapshot_id") a = Ok snap)).
  - apply logged_call_sandbox; [by split|]. intros a. split; [|by eauto]. apply Forall_singleton. left. exists source. by right.
  - by intros l e [? _].
  - intros l snap [Hl Hs]. destruct (Hs _ eq_refl) as (a & -> & Ha). apply logged_pure_bind; [by intros e _; rewrite app_nil_r|]. intros [] _.
    apply logged_post_read. intros b. split.
    + apply Forall_app. split; [done|]. apply Forall_singleton. right. exists branch. eexists. split; [right; by eexists|done].
    + intros id Hid. by exists a, snap, b.
Qed.

Lemma logged_create branch : logged (create_sandbox branch) (fun l x => Forall preparing l).
Proof.
  apply logged_post_read. intros a. apply Forall_singleton. right. exists branch, "/v1/sandboxes". split; [by left|done].
Qed.

#[export] Instance client_laws : SvcLaws client.
Proof.
  refine {| about := on_sandbox; lists := listed; runs := ran; pushes := pushed; pulls := pulled; clones := cloned;
            prepares := preparing; panics := fun _ => False |}.
  - intros id l m (a & files & _ & _ & Hm). by apply (manifest_of_ok files).
  - intros budget id. eapply upholds_act; [apply logged_remote_manifest|]. intros s l [m|e] (Hl & Hp & Hm); auto.
  - intros blob budget id plan. cbn. destruct (plan_is_empty plan) eqn:Ep.
    + rewrite push_nothing by done. apply logged_ret. split_and!; [done..|]. intros _ _. by apply pushed_nothing.
    + eapply logged_weaken; [apply logged_push|]. intros l x [Hl Hx]. by split_and!.
  - intros budget id path. apply logged_call_sandbox; [by split; [constructor|]|]. intros a. split.
    + repeat constructor. apply on_sandbox_sent. by eexists.
    + intros bytes Hb. by exists a.
  - intros source branch. apply logged_clone.
  - intros branch. eapply upholds_act; [apply logged_create|]. intros s l x Hl. eauto.
  - intros id req. apply logged_run.
  - intros id. apply logged_pure_bind; [by constructor|]. intros [] _. apply logged_delete. intros a. repeat constructor.
    exists EmptyString. split; [by rewrite str_app_nil_r|by left].
Defined.

Lemma never_stuck l : ~ stuck client l.
Proof. by intros (before & last & _ & ?). Qed.

(** C32: A step on a Cube sandbox is a real state transition. In every world, when it succeeds
    its calls are these and no others: listings, snapshots, clones and creations to choose the
    sandbox, which is the branch's from then on; on that sandbox, a listing and the plan from
    it to the base state's manifest, each file deleted and then written with the recorded
    bytes, the last listing giving exactly that manifest; the action, as one request, once; a
    listing of some tree, one read per file of the delta with the delta's bytes, hashing to
    the entry listed, and, if there was any, a listing of the same tree again. The delta is
    the difference from the base to that tree. When it fails, nothing was done because the
    base state has no manifest, or the branch has no sandbox any more. It does not return only
    if the service answered a clone with the id of the sandbox to clone. *)
Theorem cube_step_exact p req :
  upholds (execute (Some p) req) (fun s l x s' => step_ends client p req s l x s'
    /\ (x = None -> same_copy client (req_branch req) l)).
Proof.
  eapply upholds_weaken; [apply upholds_execute|]. intros s l x s' Hx. split; [done|]. intros ->.
  destruct Hx as [Hst|?]; [by apply never_stuck in Hst|done].
Qed.

(** A native fork is honest.  When [fork] reports that the backend cloned a state by
    itself, it had just listed a sandbox with exactly the state's tree, the service cloned
    that sandbox for the new branch, and a listing of the clone gave exactly that tree; the
    clone is the branch's sandbox.  When it fails, the branches are as before or the new
    branch has no sandbox.  It always returns. *)
Theorem cube_fork_exact provider from to_branch :
  upholds (fork provider from to_branch) (fun s l x s' =>
    match x with
    | Some (Ok true) => exists p, provider = Some p /\ exact_fork client p from to_branch l s'
    | Some (Ok false) => True
    | Some (Err _) => live s' = live s \/ live s' !! to_branch = None
    | None => False
    end).
Proof.
  eapply upholds_weaken; [apply upholds_fork|]. intros s l [[[]|]|] s' Hx; try done. by apply never_stuck in Hx.
Qed.

(** A file whose mode has more than the nine permission bits, as a snapshot of a local
    workspace records it, keeps its state from ever running here. *)
Theorem cube_special_mode p req target path e :
  pv_manifest p (req_base_state req) = Ok target -> target !! path = Some e ->
  Z.land (sync_mode e) 511 <> sync_mode e ->
  upholds (execute (Some p) req) (fun s l x s' => forall out, x <> Some (Ok out)).
Proof. exact (upholds_special_mode client p req target path e). Qed.

(** The sandbox of a discarded branch stays known until the service has deleted it. *)
Theorem cube_discard_retries branch :
  upholds (discard branch) (fun s l x s' =>
    match x with
    | Some (Ok _) => live s' !! branch = None
    | Some (Err _) => live s' = live s /\ synced s' = synced s
    | None => False
    end).
Proof. exact (upholds_discard client branch). Qed.
End cube.

(** A path outside the workspace is dropped from a listing when its own text holds the
    marker of the cache tier; any other such path fails the listing. *)
Theorem listing_drops_escapes :
  manifest_of [mkRemoteFile "../cache/scratch/x" EmptyString 420] = Ok ∅
  /\ manifest_of [mkRemoteFile "../x" EmptyString 420]
     = Err (unavailable BACKEND_NAME "service listed an unsyncable path: path `../x` contains `..`").
Proof. split; vm_compute; reflexivity. Qed.

End Cube.
