(* ===== verification/Forkd.v ===== *)
(** The forkd backend, [backends/forkd/src/lib.rs]: a mirrored service
    ([Mirror]) whose sandboxes are children forked from a warm parent.  A child
    only runs commands, so its files are listed, written and read through a
    shell, and the listings are what [sha256sum] and [stat] print. *)

From stdpp Require Import pretty.
From S2P Require Import Prelude Json Budget Capability Types B64 Utf8 Auth Canonical Effect Snapshot Dag Router Egress Path Service HttpConn Remote Hosts Mirror MirrorSafety.

Open Scope Z_scope.

Module Forkd.

Definition BACKEND_NAME : string := "forkd".

Record ForkdConfig := mkForkdConfig {
  endpoint : string;
  auth_token : option string;
  request_timeout : Z;                (* seconds *)
}.

Definition config_new (endpoint : string) : ForkdConfig := mkForkdConfig endpoint None 30.
(** [variable]: [FORKD_API_TOKEN]. *)
Definition from_env (endpoint : string) (variable : option string) : ForkdConfig := mkForkdConfig endpoint variable 30.

Definition validate_endpoint `{!UrlOps} (endpoint : string) : KernelResult () := check_endpoint BACKEND_NAME endpoint.
Definition validate_remote_id (id : string) : KernelResult () := check_id BACKEND_NAME "service returned invalid id" id.

(** [ExecRequest] and [ExecResponse]. *)
Definition exec_request (p : ExecParams) : Value := exec_body snake p.
Definition exec_response (v : Value) : option ExecOutcome := exec_outcome snake v.

(** [ForkdBackend::new]; [client]: the answer of the builder of the HTTP client. *)
Definition backend_new `{!UrlOps} (config : ForkdConfig) (client : result string ()) : KernelResult Mirrors :=
  _ ← validate_endpoint (endpoint config);
  _ ← map_err (unavailable BACKEND_NAME) client;
  Ok no_mirrors.

(** [synced]: whether a state provider is attached. *)
Definition profile (synced : bool) : BackendProfile :=
  mkProfile BACKEND_NAME 90 15 ProcessAndFilesystem synced false true false synced.

(** The [Debug] text of a line. *)
Class LineDebug := { debug_line : string -> string }.

(** * Texts of the shell *)

(** [slice::chunks(64)]. *)
Fixpoint chunks_fuel (fuel : nat) (l : list string) : list (list string) :=
  match fuel, l with
  | S fuel', _ :: _ => take 64 l :: chunks_fuel fuel' (drop 64 l)
  | _, _ => []
  end.
Definition chunks (l : list string) : list (list string) := chunks_fuel (length l) l.

(** [{:o}]. *)
Fixpoint octal_fuel (fuel : nat) (n : Z) : string :=
  match fuel with
  | O => EmptyString
  | S fuel' => (if n <? 8 then EmptyString else octal_fuel fuel' (n / 8)) +:+ pretty (n mod 8)
  end.
Definition octal (n : Z) : string := octal_fuel 11 n.

(** [u32::from_str_radix(_, 8)]. *)
Fixpoint octal_digits (acc : Z) (s : string) : option Z :=
  match s with
  | EmptyString => Some acc
  | String c r =>
      let d := byte_val c - 48 in
      if (0 <=? d) && (d <? 8) then
        let acc' := acc * 8 + d in
        if acc' <? 2 ^ 32 then octal_digits acc' r else None
      else None
  end.
Definition from_octal (s : string) : option Z :=
  let digits := match s with String "+" r => r | _ => s end in
  if str_is_empty digits then None else octal_digits 0 digits.

Definition list_command : string :=
  "find . \( " +:+ str_join " -o " (map (fun n => "-name " +:+ shq n) DEFAULT_SNAPSHOT_IGNORES)
    +:+ " \) -prune -o -type f -print0 | xargs -0 -r sha256sum --".

Definition stat_command (paths : list string) : string :=
  "stat -c '%a %n' -- " +:+ str_join " " (map (fun p => shq ("./" +:+ p)) paths).

Definition remove_command (paths : list string) : string := "rm -rf -- " +:+ str_join " " (map shq paths).

Definition upsert_command (path bytes : string) (mode : Z) : string :=
  "rm -rf -- " +:+ shq path +:+ " && " +:+ write_command path (encode bytes)
    +:+ " && chmod " +:+ octal (Z.land mode 511) +:+ " " +:+ shq path.

Definition pull_command (path : string) : string := "base64 -- " +:+ shq ("./" +:+ path).

(** * Listings *)

Definition strip_dot_slash (path : string) : string := default path (strip_prefix "./" path).

Section listing.
Context `{!LineDebug}.

Definition bad (reason : string) : KernelError := unavailable BACKEND_NAME reason.

(** One line of [sha256sum]: nothing, or a path with its hash.  [None]: the line
    cannot be split at its 64th byte, which is inside a character, and the
    split panics. *)
Definition sum_line (line : string) : option (KernelResult (option (string * string))) :=
  if str_is_empty line then Some (Ok None)
  else if starts_with "\" line then
    Some (Err (bad ("child has a file whose name needs sha256sum escaping (newline or backslash); such names do not sync: "
                    +:+ debug_line line)))
  else
    let n := Nat.min (String.length line) 64 in
    if negb (is_char_boundary line n) then None
    else
      let hex := str_take n line in
      let rest := str_drop n line in
      let path := match strip_prefix "  " rest with Some p => Some p | None => strip_prefix " *" rest end in
      match path with
      | Some path =>
          if is_hex_digest hex then
            match syncable_path (strip_dot_slash path) with
            | Ok path => Some (Ok (Some (path, hex)))
            | Err reason =>
                if str_contains "cache/scratch" reason then Some (Ok None)
                else Some (Err (bad ("child listed an unsyncable path: " +:+ reason)))
            end
          else Some (Err (bad ("unparseable sha256sum line from child: " +:+ debug_line line)))
      | None => Some (Err (bad ("unparseable sha256sum line from child: " +:+ debug_line line)))
      end.

Fixpoint sums_loop (ls : list string) (hashes : gmap string string) : option (KernelResult (gmap string string)) :=
  match ls with
  | [] => Some (Ok hashes)
  | line :: rest =>
      match sum_line line with
      | None => None
      | Some (Err e) => Some (Err e)
      | Some (Ok None) => sums_loop rest hashes
      | Some (Ok (Some (path, hex))) =>
          match hashes !! path with
          | Some _ => Some (Err (bad ("child listed duplicate canonical path `" +:+ path +:+ "`")))
          | None => sums_loop rest (<[path := to_ascii_lowercase hex]> hashes)
          end
      end
  end.

(** The lines of [stat], which name a mode and a path. *)
Fixpoint stat_loop (hashes : gmap string string) (ls : list string) (modes : gmap string Z) : KernelResult (gmap string Z) :=
  match ls with
  | [] => Ok modes
  | line :: rest =>
      if str_is_empty line then stat_loop hashes rest modes
      else
        '(mode, path) ← ok_or (split_once " " line) (bad ("unparseable stat line from child: " +:+ debug_line line));
        mode ← ok_or (from_octal mode) (bad ("bad mode in stat line: " +:+ debug_line line));
        path ← map_err (fun reason => bad ("stat returned an unsyncable path: " +:+ reason)) (syncable_path (strip_dot_slash path));
        if negb (bool_decide (is_Some (hashes !! path))) then Err (bad ("stat returned unlisted file `" +:+ path +:+ "`"))
        else if bool_decide (is_Some (modes !! path)) then Err (bad ("stat returned duplicate file `" +:+ path +:+ "`"))
        else stat_loop hashes rest (<[path := Z.land mode 511]> modes)
  end.

Fixpoint entries_loop (modes : gmap string Z) (l : list (string * string)) (manifest : SyncManifest) : KernelResult SyncManifest :=
  match l with
  | [] => Ok manifest
  | (path, hex) :: rest =>
      mode ← ok_or (modes !! path) (bad ("stat output omitted listed file `" +:+ path +:+ "`"));
      entries_loop modes rest (<[path := mkSyncEntry ("sha256:" +:+ hex) mode]> manifest)
  end.

Definition manifest_of (hashes : gmap string string) (modes : gmap string Z) : KernelResult SyncManifest :=
  manifest ← entries_loop modes (bt_iter hashes) ∅;
  _ ← map_err (unavailable BACKEND_NAME) (validate_manifest_shape manifest);
  Ok manifest.
End listing.

(** * The client *)

Section forkd.
Context `{!Sha256} `{!RemoteText} `{!LineDebug} {W : Type} `{!ControlPlane W} `{!Contention W} (config : ForkdConfig).

Definition url (path : string) : string := trim_endpoint (endpoint config) +:+ path.

Definition post (path : string) (body : Value) : Act Call W Value :=
  post_json BACKEND_NAME (auth_token config) (url path) body.

Definition branch_body (branch : string) : Value := Object [("branch", Str branch)].

Definition ensure_parent : Act Call W string :=
  v ← post "/v1/parents" (Object []);
  pure_act (new_id BACKEND_NAME "service returned invalid id" "ParentResponse" "parent_id" v).

Definition forked (v : Value) : KernelResult string :=
  new_id BACKEND_NAME "service returned invalid id" "ForkResponse" "child_id" v.

Definition fork_parent (parent branch : string) : Act Call W string :=
  _ ← pure_act (validate_remote_id parent);
  v ← post ("/v1/parents/" +:+ parent +:+ "/fork") (branch_body branch);
  pure_act (forked v).

Definition fork_child (child branch : string) : Act Call W string :=
  _ ← pure_act (validate_remote_id child);
  v ← post ("/v1/children/" +:+ child +:+ "/fork") (branch_body branch);
  pure_act (forked v).

Definition exec_answer (v : Value) : KernelResult ExecOutcome :=
  ok_or (exec_response v) (unavailable BACKEND_NAME (mismatch "ExecResponse" v)).

Definition exec (child : string) (p : ExecParams) : Act Call W ExecOutcome :=
  _ ← pure_act (validate_remote_id child);
  v ← post ("/v1/children/" +:+ child +:+ "/exec") (exec_request p);
  pure_act (exec_answer v).

Definition delete_child (child : string) : Act Call W () :=
  _ ← pure_act (validate_remote_id child);
  delete_url BACKEND_NAME (auth_token config) (url ("/v1/children/" +:+ child)).

(** * The service *)

(** The backend's own commands: the whole workspace is writable and there is no egress. *)
Definition sync_params (budget : ResourceBudget) (command : string) : ExecParams :=
  mkExecParams command None ∅ (Z.max (cpu_ms budget) 1) budget [] [] [].

Definition sync_stdout (out : ExecOutcome) : KernelResult string :=
  if eo_exit out =? 0 then Ok (eo_stdout out)
  else Err (unavailable BACKEND_NAME ("state-sync command exited " +:+ pretty (eo_exit out) +:+ ": "
                                      +:+ str_concat (take 500 (chars (eo_stderr out))))).

Definition sync_exec (child : string) (budget : ResourceBudget) (command : string) : Act Call W string :=
  out ← exec child (sync_params budget command);
  pure_act (sync_stdout out).

Fixpoint modes_loop (child : string) (budget : ResourceBudget) (hashes : gmap string string) (l : list (list string))
    (modes : gmap string Z) : Act Call W (gmap string Z) :=
  match l with
  | [] => mret modes
  | chunk :: rest =>
      out ← sync_exec child budget (stat_command chunk);
      modes ← pure_act (stat_loop hashes (lines out) modes);
      modes_loop child budget hashes rest modes
  end.

Definition remote_manifest (budget : ResourceBudget) (child : string) : Rem Mirrors W SyncManifest :=
  listing ← rem_act (sync_exec child budget list_command);
  match sums_loop (lines listing) ∅ with
  | None => rem_never
  | Some (Err e) => rem_fail e
  | Some (Ok hashes) =>
      modes ← rem_act (modes_loop child budget hashes (chunks (bt_keys hashes)) ∅);
      rem_act (pure_act (manifest_of hashes modes))
  end.

Fixpoint remove_all (child : string) (budget : ResourceBudget) (l : list (list string)) : Act Call W () :=
  match l with
  | [] => mret tt
  | chunk :: rest => _ ← sync_exec child budget (remove_command chunk); remove_all child budget rest
  end.

Fixpoint upsert_all (blob : string -> KernelResult string) (child : string) (budget : ResourceBudget)
    (l : list (string * SyncEntry)) : Act Call W () :=
  match l with
  | [] => mret tt
  | (path, entry) :: rest =>
      bytes ← pure_act (blob (sync_blob entry));
      _ ← sync_exec child budget (upsert_command path bytes (sync_mode entry));
      upsert_all blob child budget rest
  end.

Definition push (blob : string -> KernelResult string) (budget : ResourceBudget) (child : string) (plan : PushPlan) : Act Call W () :=
  _ ← remove_all child budget (chunks (plan_deletes plan));
  upsert_all blob child budget (plan_upserts plan).

Definition pulled (b64 : string) : KernelResult string :=
  map_err (fun e => unavailable BACKEND_NAME ("child returned invalid base64: " +:+ e)) (decode b64).

Definition pull (budget : ResourceBudget) (child path : string) : Act Call W string :=
  out ← sync_exec child budget (pull_command path);
  pure_act (pulled out).

(** The warm parent is made once; the lock on it is held across the call. *)
Definition parent_for : Rem Mirrors W string :=
  known ← rem_get parent;
  match known with
  | Some p => mret p
  | None =>
      p ← rem_act ensure_parent;
      _ ← rem_set (set_parent p);
      mret p
  end.

Definition create_child (branch : string) : Rem Mirrors W string :=
  p ← parent_for;
  rem_act (fork_parent p branch).

Definition run (child : string) (req : ExecutionRequest) : Act Call W ExecOutcome :=
  match command_of (req_action req) with
  | Some (command, cwd, env) => exec child (request_params req command cwd env)
  | None => pure_act (Err (does_not_execute BACKEND_NAME (req_action req)))
  end.

Definition client : Svc W :=
  mkSvc BACKEND_NAME "child" remote_manifest push pull fork_child create_child run delete_child.

Definition quiescent_source (target : SyncManifest) (budget : ResourceBudget) : Rem Mirrors W (option string) :=
  Mirror.quiescent_source client budget target.
Definition child_for (branch : string) (target : option SyncManifest) (budget : ResourceBudget) : Rem Mirrors W string :=
  Mirror.sandbox_for client budget branch target.
Definition poison (branch child : string) : Rem Mirrors W () := Mirror.poison client branch child.
Definition sync_in (provider : Provider) (child : string) (target : SyncManifest) (budget : ResourceBudget) : Rem Mirrors W () :=
  Mirror.sync_in client provider budget child target.
Definition sync_out (child : string) (budget : ResourceBudget) : Rem Mirrors W WorkspaceDelta := Mirror.sync_out client budget child.
Definition execute (provider : option Provider) (req : ExecutionRequest) : Rem Mirrors W ExecutionOutcome :=
  Mirror.execute client provider req.
Definition fork (provider : option Provider) (from to_branch : string) : Rem Mirrors W bool :=
  Mirror.fork client provider from to_branch.
Definition discard (branch : string) : Rem Mirrors W () := Mirror.discard client branch.

(** * What the calls mean *)

Definition exec_sent (child : string) (p : ExecParams) : Sent :=
  mkSent "POST" (url ("/v1/children/" +:+ child +:+ "/exec")) (auth_token config) (Some (exec_request p)).

Definition exec_reads (child : string) (a : result string Reply) : KernelResult ExecOutcome :=
  json_answer BACKEND_NAME (url ("/v1/children/" +:+ child +:+ "/exec")) a ≫= exec_answer.

(** The request goes to the child's own path or below it. *)
Definition on_child (child : string) (c : Call) : Prop :=
  exists tail, s_url (call_sent c) = url ("/v1/children/" +:+ child +:+ tail)
    /\ (tail = EmptyString \/ tail = "/exec").

(** A command of the backend's own, and what it printed. *)
Definition printed (child : string) (budget : ResourceBudget) (command : string) (c : Call) (out : string) : Prop :=
  exists a o, c = mkCall (exec_sent child (sync_params budget command)) a
    /\ exec_reads child a = Ok o /\ sync_stdout o = Ok out.

(** The [stat] commands of a listing, one per chunk, and the modes they add up to. *)
Inductive stats (child : string) (budget : ResourceBudget) (hashes : gmap string string)
    : list (list string) -> list Call -> gmap string Z -> gmap string Z -> Prop :=
| stats_nil modes : stats child budget hashes [] [] modes modes
| stats_cons chunk rest c l out modes modes1 modes2 :
    printed child budget (stat_command chunk) c out -> stat_loop hashes (lines out) modes = Ok modes1 ->
    stats child budget hashes rest l modes1 modes2 -> stats child budget hashes (chunk :: rest) (c :: l) modes modes2.

Definition listed (child : string) (l : list Call) (m : SyncManifest) : Prop :=
  exists budget c out hashes cs modes,
    l = c :: cs /\ printed child budget list_command c out
    /\ sums_loop (lines out) ∅ = Some (Ok hashes)
    /\ stats child budget hashes (chunks (bt_keys hashes)) cs ∅ modes
    /\ manifest_of hashes modes = Ok m.

Definition ran (child : string) (req : ExecutionRequest) (l : list Call) (o : ExecOutcome) : Prop :=
  exists command cwd env a, command_of (req_action req) = Some (command, cwd, env)
    /\ l = [mkCall (exec_sent child (request_params req command cwd env)) a] /\ exec_reads child a = Ok o.

Definition cloned (source branch : string) (l : list Call) (id : string) : Prop :=
  exists a, l = [mkCall (mkSent "POST" (url ("/v1/children/" +:+ source +:+ "/fork")) (auth_token config) (Some (branch_body branch))) a]
    /\ json_answer BACKEND_NAME (url ("/v1/children/" +:+ source +:+ "/fork")) a ≫= forked = Ok id.

(** The output of a listing has a line that is split inside a character. *)
Definition bad_split (l : list Call) : Prop :=
  exists child budget c out, l = [c] /\ printed child budget list_command c out /\ sums_loop (lines out) ∅ = None.

(** A call that lists a child, forks one, or makes the parent. *)
Definition preparing (c : Call) : Prop :=
  (exists child budget command, (command = list_command \/ exists chunk, command = stat_command chunk)
     /\ call_sent c = exec_sent child (sync_params budget command))
  \/ (exists branch path, ((exists child, path = "/v1/children/" +:+ child +:+ "/fork") \/ exists p, path = "/v1/parents/" +:+ p +:+ "/fork")
     /\ call_sent c = mkSent "POST" (url path) (auth_token config) (Some (branch_body branch)))
  \/ call_sent c = mkSent "POST" (url "/v1/parents") (auth_token config) (Some (Object [])).

Definition upsert_sent (blob : string -> KernelResult string) (budget : ResourceBudget) (child : string) (pe : string * SyncEntry) : Sent :=
  exec_sent child (sync_params budget (upsert_command pe.1 (value_of EmptyString (blob (sync_blob pe.2))) (sync_mode pe.2))).

(** The commands that carry out a plan, all its contents being known. *)
Definition pushed (blob : string -> KernelResult string) (child : string) (plan : PushPlan) (l : list Call) : Prop :=
  exists budget, map call_sent l
    = map (fun chunk => exec_sent child (sync_params budget (remove_command chunk))) (chunks (plan_deletes plan))
      ++ map (upsert_sent blob budget child) (plan_upserts plan)
  /\ forall p e, (p, e) ∈ plan_upserts plan -> exists bytes, blob (sync_blob e) = Ok bytes.

Definition read_out (child path : string) (l : list Call) (bytes : string) : Prop :=
  exists budget c b64, l = [c] /\ printed child budget (pull_command path) c b64 /\ pulled b64 = Ok bytes.

Lemma logged_exec child p (Q : list Call -> KernelResult ExecOutcome -> Prop) :
  (forall e, Q [] (Err e)) -> (forall a, Q [mkCall (exec_sent child p) a] (exec_reads child a)) ->
  logged (exec child p) Q.
Proof. intros He Ha. apply logged_pure_bind; [by intros e _|]. intros [] _. by apply logged_post_read. Qed.

Lemma on_child_exec child p a : on_child child (mkCall (exec_sent child p) a).
Proof. exists "/exec". auto. Qed.

Definition printed_on child budget command (l : list Call) (x : KernelResult string) : Prop :=
  Forall (on_child child) l /\ Forall (fun c => call_sent c = exec_sent child (sync_params budget command)) l
  /\ forall out, x = Ok out -> exists c, l = [c] /\ printed child budget command c out.

Lemma logged_sync_exec child budget command : logged (sync_exec child budget command) (printed_on child budget command).
Proof.
  eapply (logged_bind _ _ (fun l x => (l = [] /\ exists e, x = Err e)
    \/ exists a, l = [mkCall (exec_sent child (sync_params budget command)) a] /\ x = exec_reads child a)).
  - apply logged_exec; eauto.
  - intros l e [[-> _]|(a & -> & _)]; (split_and!; [| |done]); repeat constructor. apply on_child_exec.
  - intros l o [(_ & e & ?)|(a & -> & Ho)]; [done|]. apply logged_pure. rewrite app_nil_r. split_and!.
    + repeat constructor. apply on_child_exec.
    + by repeat constructor.
    + intros out Hout. eexists. split; [done|]. by exists a, o.
Qed.

Lemma logged_sync_on child budget command : logged (sync_exec child budget command) (fun l _ => Forall (on_child child) l).
Proof. eapply logged_weaken; [apply logged_sync_exec|]. by intros l x [? _]. Qed.

Lemma logged_modes child budget hashes l modes :
  logged (modes_loop child budget hashes l modes) (fun cs x => Forall (on_child child) cs /\ Forall preparing cs
    /\ forall modes', x = Ok modes' -> stats child budget hashes l cs modes modes').
Proof.
  revert modes. induction l as [|chunk l IH]; intros modes; cbn [modes_loop].
  { apply logged_ret. split_and!; [done..|]. intros ? [= <-]. constructor. }
  assert (forall cs, Forall (fun c => call_sent c = exec_sent child (sync_params budget (stat_command chunk))) cs -> Forall preparing cs) as Hstat.
  { intros cs Hcs. eapply Forall_impl; [exact Hcs|]. intros c Hc. left. exists child, budget, (stat_command chunk). split; [right; by exists chunk|exact Hc]. }
  eapply logged_bind; [apply logged_sync_exec|by intros cs e (? & ? & _); split_and!; auto|]. intros cs out (Hcs & Hpr%Hstat & Hp).
  destruct (Hp _ eq_refl) as (c & -> & Hc). apply logged_pure_bind; [by intros e _; rewrite app_nil_r|]. intros modes1 Hst.
  eapply logged_weaken; [apply IH|]. intros cs x (Hcs' & Hpr' & Hx). split_and!; [by apply Forall_app..|].
  intros modes' Hm. econstructor; [exact Hc|exact Hst|by apply Hx].
Qed.

Lemma upholds_remote_manifest budget child :
  upholds (remote_manifest budget child) (fun s l x s' => s' = s /\ Forall (on_child child) l /\ Forall preparing l
    /\ match x with Some (Ok m) => listed child l m | Some (Err _) => True | None => bad_split l end).
Proof.
  assert (forall cs, Forall (fun c => call_sent c = exec_sent child (sync_params budget list_command)) cs -> Forall preparing cs) as Hlist.
  { intros cs Hcs. eapply Forall_impl; [exact Hcs|]. intros c Hc. left. exists child, budget, list_command. split; [by left|done]. }
  eapply upholds_act_bind; [apply logged_sync_exec|by intros s l e (? & ? & _); split_and!; auto|]. intros l out (Hl & Hpr%Hlist & Hp).
  destruct (Hp _ eq_refl) as (c & -> & Hc). destruct (sums_loop (lines out) ∅) as [[hashes|e]|] eqn:Es.
  - eapply upholds_act_bind; [apply logged_modes|..].
    { intros s cs e (Hcs & Hpr' & _). split_and!; [done|by apply Forall_app..|done]. }
    intros cs modes (Hcs & Hpr' & Hm). eapply (upholds_act _ (fun l x => l = [] /\ x = manifest_of hashes modes)); [by apply logged_pure|].
    intros s l x [-> ->]. rewrite app_nil_r. split_and!; [done|by apply Forall_app..|].
    destruct (manifest_of hashes modes) as [m|] eqn:Em; [|done].
    exists budget, c, out, hashes, cs, modes. split_and!; auto.
  - apply upholds_fail. intros s. by rewrite app_nil_r.
  - apply upholds_never. intros s. rewrite app_nil_r. split_and!; [done..|]. by exists child, budget, c, out.
Qed.

(** A command whose output is not read. *)
Lemma logged_sync_done child budget command :
  logged (sync_exec child budget command) (fun l x => Forall (on_child child) l
    /\ forall out, x = Ok out -> map call_sent l = [exec_sent child (sync_params budget command)]).
Proof.
  eapply logged_weaken; [apply logged_sync_exec|]. intros l x (Hl & _ & Hx). split; [done|]. intros out Hout.
  destruct (Hx _ Hout) as (c & -> & a & o & -> & _). done.
Qed.

Lemma logged_remove_all child budget l :
  logged (remove_all child budget l) (fun cs x => Forall (on_child child) cs
    /\ forall u, x = Ok u -> map call_sent cs = map (fun chunk => exec_sent child (sync_params budget (remove_command chunk))) l).
Proof.
  induction l as [|chunk l IH]; cbn [remove_all]; [by apply logged_ret|].
  eapply logged_bind; [apply logged_sync_done|by intros cs e [? _]; split|]. intros cs out [Hcs Hs].
  eapply logged_weaken; [exact IH|]. intros cs' x [Hcs' Hs']. split; [by apply Forall_app|].
  intros u Hu. by rewrite map_app, (Hs _ eq_refl), (Hs' _ Hu).
Qed.

Lemma logged_upsert_all blob child budget l :
  logged (upsert_all blob child budget l) (fun cs x => Forall (on_child child) cs
    /\ forall u, x = Ok u -> map call_sent cs = map (upsert_sent blob budget child) l
         /\ forall p e, (p, e) ∈ l -> exists bytes, blob (sync_blob e) = Ok bytes).
Proof.
  induction l as [|[p e] l IH]; cbn [upsert_all].
  { apply logged_ret. split; [done|]. intros u _. split; [done|]. by intros p e []%not_elem_of_nil. }
  apply logged_pure_bind; [by split|]. intros bytes Hb.
  eapply logged_bind; [apply logged_sync_done|by intros cs err [? _]; split|]. intros cs out [Hcs Hs].
  eapply logged_weaken; [exact IH|]. intros cs' x [Hcs' Hs']. split; [by apply Forall_app|].
  intros u Hu. destruct (Hs' _ Hu) as [Hs2 Hall]. rewrite map_app, (Hs _ eq_refl), Hs2. split.
  - cbn. unfold upsert_sent. cbn. by rewrite Hb.
  - intros q e' [[= -> ->]|Hin]%elem_of_cons; [eauto|by eapply Hall].
Qed.

Lemma logged_push_child blob budget child plan :
  logged (push blob budget child plan) (fun l x => Forall (on_child child) l /\ forall u, x = Ok u -> pushed blob child plan l).
Proof.
  eapply logged_bind; [apply logged_remove_all|by intros l e [? _]; split|]. intros l [] [Hl Hs].
  eapply logged_weaken; [apply logged_upsert_all|]. intros l' x [Hl' Hs']. split; [by apply Forall_app|].
  intros u Hu. destruct (Hs' _ Hu) as [Hs2 Hall]. exists budget. split; [|done]. by rewrite map_app, (Hs _ eq_refl), Hs2.
Qed.

Lemma push_child_nothing blob budget child plan : plan_is_empty plan = true -> push blob budget child plan = mret tt ≫= fun _ => mret tt.
Proof.
  unfold plan_is_empty, push. rewrite andb_true_iff, !bool_decide_eq_true, !length_zero_iff_nil. by intros [-> ->].
Qed.

Lemma pushed_child_nothing blob child plan : plan_is_empty plan = true -> pushed blob child plan [].
Proof.
  unfold plan_is_empty, pushed. rewrite andb_true_iff, !bool_decide_eq_true, !length_zero_iff_nil. intros [-> ->].
  exists step_default. split; [done|]. by intros p e []%not_elem_of_nil.
Qed.

Lemma upholds_create branch :
  upholds (create_child branch) (fun s l x s' => live s' = live s /\ synced s' = synced s /\ Forall preparing l /\ exists y, x = Some y).
Proof.
  assert (forall p, upholds (S := Mirrors) (rem_act (fork_parent p branch)) (fun s l x s' => s' = s /\ Forall preparing l /\ exists y, x = Some y)) as Hf.
  { intros p. eapply (upholds_act _ (fun l _ => Forall preparing l)); [|by eauto].
    apply logged_pure_bind; [done|]. intros [] _. apply logged_post_read. intros a. apply Forall_singleton.
    right; left. exists branch. eexists. split; [right; by eexists|done]. }
  eapply (upholds_bind _ _ (fun s l x s' => live s' = live s /\ synced s' = synced s /\ Forall preparing l /\ exists y, x = Some y)).
  - apply upholds_get_bind. intros s. destruct (parent s) as [p|].
    + apply upholds_ret. intros s1 ->. eauto.
    + eapply (upholds_act_bind _ _ (fun l _ => Forall preparing l)).
      * apply logged_post_read. intros a. apply Forall_singleton. by right; right.
      * intros s1 l e Hl ->. eauto.
      * intros l p Hl. apply upholds_set_bind, upholds_ret. intros s1 s2 -> ->. rewrite app_nil_r. eauto.
  - intros s l e s' Hs. exact Hs.
  - intros s l s' Hs. exact Hs.
  - intros s l p s1 (Hl & Hsy & Hpr & _). eapply upholds_weaken; [apply Hf|]. intros s2 l' x s' (-> & Hpr' & Hx) ->.
    split_and!; [done..|by apply Forall_app|done].
Qed.

Lemma stat_loop_mode hashes ls modes modes' :
  (forall p m, modes !! p = Some m -> Z.land m 511 = m) -> stat_loop hashes ls modes = Ok modes' ->
  forall p m, modes' !! p = Some m -> Z.land m 511 = m.
Proof.
  revert modes. induction ls as [|line ls IH]; intros modes Hm; cbn [stat_loop]; [by intros [= <-]|].
  destruct (str_is_empty line); [by apply IH|]. destruct (split_once " " line) as [[mode path]|]; [|done].
  cbn [ok_or mbind result_bind]. destruct (from_octal mode) as [n|]; [|done]. cbn [ok_or mbind result_bind].
  destruct (syncable_path (strip_dot_slash path)) as [q|]; [|done]. cbn [map_err mbind result_bind].
  destruct (negb _); [done|]. case_bool_decide; [done|]. apply IH. intros p m.
  destruct (decide (p = q)) as [->|Hne]; [|rewrite lookup_insert_ne by done; apply Hm].
  rewrite lookup_insert_eq. intros [= <-]. by rewrite <- Z.land_assoc, Z.land_diag.
Qed.

Lemma stats_mode child budget hashes l cs modes modes' :
  stats child budget hashes l cs modes modes' -> (forall p m, modes !! p = Some m -> Z.land m 511 = m) ->
  forall p m, modes' !! p = Some m -> Z.land m 511 = m.
Proof. induction 1 as [|????????? Hs ? IH]; [done|]. intros Hm. apply IH. by eapply stat_loop_mode. Qed.

Lemma sum_line_ok line path hex : sum_line line = Some (Ok (Some (path, hex))) ->
  (exists raw, syncable_path raw = Ok path) /\ is_hex_digest hex = true.
Proof.
  unfold sum_line. destruct (str_is_empty line); [done|]. destruct (starts_with "\" line); [done|].
  destruct (negb (is_char_boundary line _)); [done|].
  set (hex' := str_take _ line). set (rest := str_drop _ line). clearbody hex' rest.
  destruct (match strip_prefix "  " rest with Some p => Some p | None => strip_prefix " *" rest end) as [raw|]; [|done].
  destruct (is_hex_digest hex') eqn:Eh; [|done].
  destruct (syncable_path (strip_dot_slash raw)) as [q|reason] eqn:Eq.
  - intros [= <- <-]. eauto.
  - by destruct (str_contains _ _).
Qed.

(** Every hash of a listing, with its path. *)
Definition sums_ok (hashes : gmap string string) : Prop :=
  forall p h, hashes !! p = Some h ->
    (exists raw, syncable_path raw = Ok p) /\ exists hex, h = to_ascii_lowercase hex /\ is_hex_digest hex = true.

Lemma sums_loop_ok ls h0 hashes : sums_ok h0 -> sums_loop ls h0 = Some (Ok hashes) -> sums_ok hashes.
Proof.
  revert h0. induction ls as [|line ls IH]; intros h0 Hok; cbn [sums_loop]; [by intros [= <-]|].
  destruct (sum_line line) as [[[[path hex]|]|e]|] eqn:El; [|by apply IH|done..].
  destruct (h0 !! path); [done|]. apply IH. intros p h. destruct (decide (p = path)) as [->|Hne].
  - rewrite lookup_insert_eq. intros [= <-]. apply sum_line_ok in El as [??]. eauto.
  - rewrite lookup_insert_ne by done. apply Hok.
Qed.

Lemma entries_loop_ok modes l m0 m :
  (forall p h, (p, h) ∈ l -> (exists raw, syncable_path raw = Ok p) /\ exists hex, h = to_ascii_lowercase hex /\ is_hex_digest hex = true) ->
  (forall p n, modes !! p = Some n -> Z.land n 511 = n) ->
  (forall p e, m0 !! p = Some e -> entry_ok p e) ->
  entries_loop modes l m0 = Ok m -> forall p e, m !! p = Some e -> entry_ok p e.
Proof.
  intros Hl Hn. revert m0. induction l as [|[path hex] l IH]; intros m0 Hm0; cbn [entries_loop]; [by intros [= <-]|].
  destruct (modes !! path) as [n|] eqn:En; [|done]. cbn [ok_or mbind result_bind]. apply IH.
  { intros p h Hin. apply Hl. by right. }
  intros p e. destruct (decide (p = path)) as [->|Hne]; [|rewrite lookup_insert_ne by done; apply Hm0].
  rewrite lookup_insert_eq. intros [= <-]. destruct (Hl path hex) as [[raw Hraw] (h & -> & Hh)]; [by left|].
  rewrite <- (Hn _ _ En). by apply (listed_entry_ok raw).
Qed.

Lemma listed_ok child l m : listed child l m -> tree_ok m.
Proof.
  intros (budget & c & out & hashes & cs & modes & _ & _ & Hsum & Hs & Hm). revert Hm. unfold manifest_of.
  destruct (entries_loop modes (bt_iter hashes) ∅) as [m'|] eqn:Ee; [|done]. cbn [mbind result_bind].
  destruct (validate_manifest_shape m') as [u|] eqn:Esh; [|done]. intros [= <-].
  split; [|by apply validate_manifest_shape_Ok in Esh].
  eapply entries_loop_ok; [| | |exact Ee]; [|by apply (stats_mode _ _ _ _ _ _ _ Hs)|done].
  intros p h Hin%bt_iter_elem. refine (sums_loop_ok _ ∅ hashes _ Hsum p h Hin). intros ? ? []%lookup_empty_Some.
Qed.

#[export] Instance client_laws : SvcLaws client.
Proof.
  refine {| about := on_child; lists := listed; runs := ran; pushes := pushed; pulls := read_out; clones := cloned;
            prepares := preparing; panics := bad_split |}.
  - intros id l m. apply listed_ok.
  - intros budget id. apply upholds_remote_manifest.
  - intros blob budget id plan. cbn. destruct (plan_is_empty plan) eqn:Ep.
    + rewrite push_child_nothing by done. apply logged_ret. split_and!; [done..|]. intros _ _. by apply pushed_child_nothing.
    + eapply logged_weaken; [apply logged_push_child|]. intros l x [Hl Hx]. by split_and!.
  - intros budget id path. eapply logged_bind; [apply logged_sync_exec|by intros l e (? & _)|]. intros l b64 (Hl & _ & Hp).
    destruct (Hp _ eq_refl) as (c & -> & Hc). apply logged_pure. rewrite app_nil_r. split; [done|].
    intros bytes Hb. by exists budget, c, b64.
  - intros source branch. apply logged_pure_bind; [by split|]. intros [] _. apply logged_post_read. intros a. split.
    + apply Forall_singleton. right; left. exists branch. eexists. split; [left; by eexists|done].
    + intros id Hid. by exists a.
  - intros branch. apply upholds_create.
  - intros id req. cbn. unfold run, ran. destruct (command_of (req_action req)) as [[[command cwd] env]|].
    + apply logged_exec; [by split; [constructor|]|]. intros a. split; [repeat constructor; apply on_child_exec|]. eauto 8.
    + apply logged_pure. by split; [constructor|].
  - intros id. apply logged_pure_bind; [by constructor|]. intros [] _. apply logged_delete. intros a. repeat constructor.
    exists EmptyString. split; [by rewrite str_app_nil_r|by left].
Defined.

(** The same for a forkd child, whose tree is only what its shell prints: a step that
    succeeds ran the action's command, once, in the branch's own child, right after a
    [sha256sum] and [stat] listing that reads as exactly the base state; its delta is the
    difference to a tree listed after the command, every file's decoded bytes hashing to its
    entry, and listed again after the transfer.  A step that fails did nothing or leaves the
    branch without a child.  A step that does not return met a listing line split inside a
    character, or a fork answered with the child to fork. *)
Theorem forkd_step_exact p req : upholds (execute (Some p) req) (step_ends client p req).
Proof. apply upholds_execute. Qed.

Theorem forkd_fork_exact provider from to_branch :
  upholds (fork provider from to_branch) (fun s l x s' =>
    match x with
    | Some (Ok true) => exists p, provider = Some p /\ exact_fork client p from to_branch l s'
    | Some (Ok false) => True
    | Some (Err _) => live s' = live s \/ live s' !! to_branch = None
    | None => stuck client l
    end).
Proof. exact (upholds_fork client provider from to_branch). Qed.
End forkd.

(** A line of a listing that has a character across its 64th byte stops the backend. *)
Theorem listing_can_panic `{!LineDebug} : sum_line ("a" +:+ str_concat (repeat (codes [195; 169]) 40)) = None.
Proof. vm_compute. reflexivity. Qed.

End Forkd.
