(* ===== verification/RemoteDemo.v ===== *)
(** Runs of the mirrored backends against a service that answers from a
    script: a step that succeeds and its delta, a fork that is native, and the
    clone that never returns. *)

From S2P Require Import Prelude Json Budget Capability Types B64 Utf8 Canonical Effect Snapshot Dag Router Path Service HttpConn Remote Hosts Mirror MirrorSafety Cube Forkd.

Open Scope Z_scope.

Module RemoteDemo.

Definition digest (c : ascii) : string := String.string_of_list_ascii (repeat c 64).

#[local] Instance sha : Sha256 := {| sha256_hex s := if String.eqb s "new" then digest "b" else digest "a" |}.

(** Bodies name what they hold. *)
Definition file (path hex : string) : Value := Object [("path", Str path); ("sha256", Str hex)].

Definition body (s : string) : Value :=
  if String.eqb s "created" then Object [("sandbox_id", Str "sb-1")]
  else if String.eqb s "cloned" then Object [("sandbox_id", Str "sb-2")]
  else if String.eqb s "snapshot" then Object [("snapshot_id", Str "snap")]
  else if String.eqb s "empty" then Object [("files", Array [])]
  else if String.eqb s "base" then Object [("files", Array [file "a" (digest "a")])]
  else if String.eqb s "after" then Object [("files", Array [file "a" (digest "a"); file "b" (digest "b")])]
  else if String.eqb s "ran" then Object [("exit_code", Number (PosInt 0))]
  else if String.eqb s "read" then Object [("contents_b64", Str (encode "new"))]
  else Object [].

#[local] Instance texts : RemoteText := {|
  from_slice s := Ok (body s); mismatch what _ := what; status_text _ := "status" |}.

#[local] Instance script : ControlPlane (list string) := {|
  cp_send _ w := match w with
                 | [] => (Err "no answer", [])
                 | b :: rest => (Ok (mkReply 200 None [Ok b]), rest)
                 end |}.

#[local] Instance alone : Contention (list string).
Proof. refine {| hash_order l := l; try_gate _ w := (true, w) |}. done. Defined.

Definition config : Cube.CubeConfig := Cube.config_new "https://cube".

Definition base : gmap string SyncEntry := {[ "a" := mkSyncEntry ("sha256:" +:+ digest "a") 420 ]}.
Definition provider : Provider := mkProvider (fun _ => Ok base) (fun _ => Ok "old").

Definition request : ExecutionRequest :=
  mkRequest "br" "st" "agent" (Shell "make" None ∅) (mkBudget 1000 0 0 0 0 0) [] [] [].

(** A new sandbox is created, the base is pushed, the command runs and one new file is pulled. *)
Definition answers : list string := ["created"; "empty"; "ok"; "ok"; "base"; "ran"; "after"; "read"; "after"].

Definition run : option (KernelResult ExecutionOutcome) * Mirrors * Run Call (list string) :=
  Cube.execute config (Some provider) request no_mirrors (mkRun [] answers).

Example cube_step_runs :
  workspace_delta <$> (match run.1.1 with Some (Ok out) => Some out | _ => None end)
    = Some (Some (mkDelta [mkSynced "b" "new" 420] []))
  /\ live run.1.2 !! "br" = Some "sb-1".
Proof. vm_compute. split; reflexivity. Qed.

(** A branch forked from a state that a sandbox holds. *)
Definition warm : Mirrors := mkMirrors {[ "br" := "sb-1" ]} {[ "sb-1" := base ]} ∅ None.

Example cube_fork_runs :
  (Cube.fork config (Some provider) "st" "br2" warm (mkRun [] ["base"; "snapshot"; "cloned"; "base"])).1.1 = Some (Ok true).
Proof. vm_compute. reflexivity. Qed.

(** The first step of a branch, when the service answers the clone of [sb-1] with [sb-1]:
    the backend holds that sandbox's gate and waits for it. *)
Theorem same_clone_never_returns :
  (Cube.execute config (Some provider) (mkRequest "br2" "st" "agent" (Shell "make" None ∅) (mkBudget 1000 0 0 0 0 0) [] [] [])
     warm (mkRun [] ["base"; "snapshot"; "created"])).1.1 = None.
Proof. vm_compute. reflexivity. Qed.

End RemoteDemo.
