(* ===== verification/Kernel.v ===== *)
(** The kernel facade, [kernel/api/src/kernel.rs]: the components composed
    into capability requests, steps and branch operations.

    Operations run in the monad [K] over the state of all components; an
    operation may be abandoned by an error or by a panic (time arithmetic in
    the policy compiler).  Each operation is one block: the per-branch gate of
    the source makes steps on one branch exclusive, and the interleavings
    inside the scheduler and the broker are studied in [Scheduler] and
    [Broker].

    What is outside the kernel is the class [World]: the [n]-th random
    identifier and clock reading, what a backend answers and leaves in the
    workspace, and the contents of a directory whose materialization failed
    half-way.  [k_log] is the trace of the calls that leave the kernel.  The
    derived [Serialize] instances are the class [StepSerde]. *)

From stdpp Require Import pretty.
From S2P Require Import Prelude Json Budget Capability Types Canonical IdentityDb Registry.
From S2P Require Import LeaseStore Delegation Policy Router Scheduler Effect Ledger Broker Snapshot.
From S2P Require Import Dag Path Workspace B64 Utf8 Observation KernelText.

Open Scope Z_scope.

(** * The world outside *)

Class World (B : Type) := {
  uuid : nat -> string;
  clock : nat -> DateTime;
  permit : nat -> result string ();
  step_clock : nat -> Clock;
  backend_run : nat -> B -> ExecutionRequest -> Fs -> KernelResult ExecutionOutcome * Fs;
  backend_discard : nat -> B -> string -> KernelResult ();
  torn : nat -> Fs;
}.

Class StepSerde := {
  action_value : ActionKind -> Value;
  budget_value : ResourceBudget -> Value;
  denial_value : Denial -> Value;
  code_value : DenialCode -> Value;
  delta_value : StateDelta -> Value;
  observation_value : Observation -> Value;
  changes_value : list FileChange -> Value;
  events_value : list LedgerEvent -> Value;
  json_text : Value -> string;
}.

(** A registered connector: its calls, and its classification of an
    invocation. *)
Record KConnector := mkKConnector {
  kc_connector : Connector;
  kc_classify : string -> Value -> EffectClass;
  kc_operations : list (string * EffectClass);
}.

(** A call that leaves the kernel. *)
Inductive WorldEvent : Type :=
| Ran (backend : BackendProfile) (req : ExecutionRequest)
| ReadVia (via : KConnector) (contract : EffectContract)
| DiscardedOn (backend : BackendProfile) (branch : string)
| ForkedOn (backend : BackendProfile) (from_state new_branch : string)
| CommitCall (contract : EffectContract)
| CompensateCall (contract : EffectContract).

(** * State *)

Record EpisodeInfo := mkInfo {
  root_branch : string;
  root_state : string;
  info_branches : list string;
  created_by : string;
}.

Record StepResult := mkStepResult {
  sr_step : string;
  sr_state : string;
  sr_observation : Observation;
}.

Record AutoStepResult := mkAuto {
  auto_result : StepResult;
  auto_lease : string;
  lease_minted : bool;
}.

Inductive Abort := Raised (e : KernelError) | Panicked.

Section kernel.
Context {B : Type} `{!Backend B, !RouterDebug, !World B}.
Context `{!Serde, !Sha256, !TimeJson, !JsonText, !DeltaSerde, !TimeText, !Chrono, !ManifestSerde}.
Context `{!ReceiptSigner, !ErrorDisplay, !KernelDisplay, !PathsDebug, !StepSerde}.

Record Kernel := mkKernel {
  k_dag : StateDag;
  k_ledger : Ledger;
  k_db : IdentityDb;
  k_policy : PolicyDocument;
  k_broker : Store;
  k_sched : StepScheduler B;
  k_dirs : gmap string Fs;
  k_connectors : gmap string KConnector;
  connector_names : list string;
  op_classes : gmap string EffectClass;
  k_episodes : gmap string EpisodeInfo;
  k_log : list WorldEvent;
  k_tick : nat;
}.

Definition set_dag (k : Kernel) (x : StateDag) : Kernel :=
  mkKernel x (k_ledger k) (k_db k) (k_policy k) (k_broker k) (k_sched k) (k_dirs k) (k_connectors k)
    (connector_names k) (op_classes k) (k_episodes k) (k_log k) (k_tick k).
Definition set_ledger (k : Kernel) (x : Ledger) : Kernel :=
  mkKernel (k_dag k) x (k_db k) (k_policy k) (k_broker k) (k_sched k) (k_dirs k) (k_connectors k)
    (connector_names k) (op_classes k) (k_episodes k) (k_log k) (k_tick k).
Definition set_db (k : Kernel) (x : IdentityDb) : Kernel :=
  mkKernel (k_dag k) (k_ledger k) x (k_policy k) (k_broker k) (k_sched k) (k_dirs k) (k_connectors k)
    (connector_names k) (op_classes k) (k_episodes k) (k_log k) (k_tick k).
Definition set_policy (k : Kernel) (x : PolicyDocument) : Kernel :=
  mkKernel (k_dag k) (k_ledger k) (k_db k) x (k_broker k) (k_sched k) (k_dirs k) (k_connectors k)
    (connector_names k) (op_classes k) (k_episodes k) (k_log k) (k_tick k).
Definition set_broker (k : Kernel) (x : Store) : Kernel :=
  mkKernel (k_dag k) (k_ledger k) (k_db k) (k_policy k) x (k_sched k) (k_dirs k) (k_connectors k)
    (connector_names k) (op_classes k) (k_episodes k) (k_log k) (k_tick k).
Definition set_sched (k : Kernel) (x : StepScheduler B) : Kernel :=
  mkKernel (k_dag k) (k_ledger k) (k_db k) (k_policy k) (k_broker k) x (k_dirs k) (k_connectors k)
    (connector_names k) (op_classes k) (k_episodes k) (k_log k) (k_tick k).
Definition set_dirs (k : Kernel) (x : gmap string Fs) : Kernel :=
  mkKernel (k_dag k) (k_ledger k) (k_db k) (k_policy k) (k_broker k) (k_sched k) x (k_connectors k)
    (connector_names k) (op_classes k) (k_episodes k) (k_log k) (k_tick k).
Definition set_episodes (k : Kernel) (x : gmap string EpisodeInfo) : Kernel :=
  mkKernel (k_dag k) (k_ledger k) (k_db k) (k_policy k) (k_broker k) (k_sched k) (k_dirs k) (k_connectors k)
    (connector_names k) (op_classes k) x (k_log k) (k_tick k).
Definition add_log (k : Kernel) (e : WorldEvent) : Kernel :=
  mkKernel (k_dag k) (k_ledger k) (k_db k) (k_policy k) (k_broker k) (k_sched k) (k_dirs k) (k_connectors k)
    (connector_names k) (op_classes k) (k_episodes k) (k_log k ++ [e]) (k_tick k).
Definition add_tick (k : Kernel) : Kernel :=
  mkKernel (k_dag k) (k_ledger k) (k_db k) (k_policy k) (k_broker k) (k_sched k) (k_dirs k) (k_connectors k)
    (connector_names k) (op_classes k) (k_episodes k) (k_log k) (S (k_tick k)).

(** * The monad *)

Definition K (A : Type) : Type := Kernel -> result Abort A * Kernel.

#[export] Instance K_ret : MRet K := fun A a k => (Ok a, k).
#[export] Instance K_bind : MBind K := fun A A' f m k =>
  match m k with
  | (Ok a, k') => f a k'
  | (Err e, k') => (Err e, k')
  end.

Definition update {A} (f : Kernel -> result Abort A * Kernel) : K A := f.
Definition get : K Kernel := update (fun k => (Ok k, k)).
Definition raise {A} (e : KernelError) : K A := fun k => (Err (Raised e), k).
Definition panic {A} : K A := fun k => (Err Panicked, k).

(** [?] on a result. *)
Definition lift {A} (r : KernelResult A) : K A :=
  match r with Ok a => mret a | Err e => raise e end.

Definition lift_identity {A} (r : IdentityResult A) : K A :=
  lift (map_err (kernel_error_of_identity identity_display) r).

(** A call that may fail in a way the caller inspects. *)
Definition attempt {A} (m : K A) : K (KernelResult A) := fun k =>
  match m k with
  | (Ok a, k') => (Ok (Ok a), k')
  | (Err (Raised e), k') => (Ok (Err e), k')
  | (Err Panicked, k') => (Err Panicked, k')
  end.

Definition on_dag {A} (f : StateDag -> KernelResult A * StateDag) : K A := fun k =>
  let '(r, d) := f (k_dag k) in lift r (set_dag k d).

Definition on_broker {A} (f : Store -> KernelResult A * Store) : K A := fun k =>
  let '(r, st) := f (k_broker k) in lift r (set_broker k st).

Definition tick : K nat := fun k => (Ok (k_tick k), add_tick k).
Definition now : K DateTime := n ← tick; mret (clock n).
Definition generate (prefix : string) : K string := n ← tick; mret (id_generate prefix (uuid n)).

Definition record_event (w : EventWriter) (kind : EventKind) (payload : Value) (caused_by : list Z)
    : K LedgerEvent :=
  t ← now;
  update (fun k => let '(r, l) := record_caused_by w (k_ledger k) t kind payload caused_by in
           lift r (set_ledger k l)).

Definition put_raw (bytes : string) : K string := fun k =>
  let '(h, l) := store_raw (k_ledger k) bytes in (Ok h, set_ledger k l).

Definition seq_of (e : LedgerEvent) : Z := ev_seq (body e).

(** The fresh values a DAG operation draws. *)
Definition draw_fresh : K Fresh :=
  ep ← generate "ep"; br ← generate "br"; st ← generate "st"; t ← now;
  mret (mkFresh ep br st t).

(** [self.dag.append_step(...)]. *)
Definition dag_append (branch step actor : string) (delta : StateDelta) (root : string)
    (rc : ReplayClass) : K StateNode :=
  f ← draw_fresh;
  update (fun k => match append_step (k_dag k) f branch step actor delta root rc with
           | Ok (node, d) => (Ok node, set_dag k d)
           | Err e => (Err (Raised e), k)
           end).

Definition empty_fs : Fs := mkFs ∅ ∅.
Definition dir_of (k : Kernel) (branch : string) : Fs := default empty_fs (k_dirs k !! branch).

(** [self.dag.materialize(state, dir)] for the branch's directory; a failure
    leaves the directory in some state. *)
Definition materialize_branch (state branch : string) : K () :=
  n ← tick; t ← now;
  update (fun k => match dag_materialize (k_dag k) state branch (dir_of k branch) t t with
           | (Ok fs, d) => (Ok tt, set_dirs (set_dag k d) (<[branch := fs]> (k_dirs k)))
           | (Err e, d) => (Err (Raised e), set_dirs (set_dag k d) (<[branch := torn n]> (k_dirs k)))
           end).

(** [self.dag.snapshot_and_append(...)] of the branch's directory. *)
Definition snapshot_branch (branch step actor : string) (rc : ReplayClass) : K StateNode :=
  f ← draw_fresh;
  update (fun k =>
    let '(r, d) := snapshot_and_append (k_dag k) f branch step actor branch (dir_of k branch) (fresh_now f) rc in
    lift r (set_dag k d)).

(** [backend.discard(branch)]: a workspace-sharing backend removes the tree. *)
Definition discard_on (b : B) (branch : string) : K (KernelResult ()) :=
  n ← tick;
  update (fun k =>
    let k1 := add_log k (DiscardedOn (profile b) branch) in
    (Ok (backend_discard n b branch),
     if shares_workspace (profile b) then set_dirs k1 (delete branch (k_dirs k1)) else k1)).

(** * Lookups *)

Definition active_branch (branch : string) : K Branch :=
  k ← get;
  value ← lift (get_branch (k_dag k) branch);
  match b_status value with
  | Active => mret value
  | Discarded | Merged => raise (BranchDiscarded branch)
  end.

Definition episode_owner (episode : string) : K string :=
  k ← get;
  lift (ok_or (created_by <$> k_episodes k !! episode) (NotFound "episode" episode)).

Definition branch_owner (branch : string) : K string :=
  k ← get;
  b ← lift (get_branch (k_dag k) branch);
  episode_owner (b_episode b).

Definition principal_of (id : string) : K Principal :=
  k ← get; lift_identity (get_principal (k_db k) id).

Definition effect_class_of (operation : string) : K EffectClass :=
  k ← get; mret (default OpaqueExternal (op_classes k !! operation)).

(** [policy.evaluate(...)], with the lease id a grant draws. *)
Definition evaluate_policy (who : Principal) (operation : Operation) (params : Value)
    (branch : option string) (t : DateTime) : K PolicyDecision :=
  fresh ← generate "lease";
  k ← get;
  match evaluate fresh (k_policy k) who operation params branch t with
  | Some d => mret d
  | None => panic
  end.

(** * Registration *)

Definition register_principal (p : Principal) : K () := fun k =>
  match register (k_db k) p with
  | Ok db => (Ok tt, set_db k db)
  | Err e => (Err (Raised (kernel_error_of_identity identity_display e)), k)
  end.

Definition register_connector (name : string) (c : KConnector) : K () := fun k =>
  (Ok tt,
   mkKernel (k_dag k) (k_ledger k) (k_db k) (k_policy k) (k_broker k) (k_sched k) (k_dirs k)
     (<[name := c]> (k_connectors k)) (connector_names k ++ [name])
     (foldl (fun m oc => <[oc.1 := oc.2]> m) (op_classes k) (kc_operations c))
     (k_episodes k) (k_log k) (k_tick k)).

Definition connector (name : string) : K (option KConnector) :=
  k ← get; mret (k_connectors k !! name).

Definition register_backend_k (b : B) : K () := fun k =>
  (Ok tt, set_sched k (with_router (k_sched k) (register_backend (router (k_sched k)) b))).

(** Mutable access to the policy document. *)
Definition with_policy_mut {A} (f : PolicyDocument -> A * PolicyDocument) : K A := fun k =>
  let '(a, doc) := f (k_policy k) in (Ok a, set_policy k doc).

(** The connectors as the broker sees them. *)
Definition broker_conns (k : Kernel) : gmap string Connector := kc_connector <$> k_connectors k.

(** * Capabilities *)

Definition allow_payload (rule lease : string) : Value :=
  Object [("decision", Str "allow"); ("lease", Str lease); ("rule_id", Str rule)].

Definition issue_lease (l : CapabilityLease) : K () := fun k =>
  match issue (k_db k) l with
  | Ok db => (Ok tt, set_db k db)
  | Err e => (Err (Raised (kernel_error_of_identity identity_display e)), k)
  end.

Definition approval_denial (rule : string) (operation : Operation) (constraints : Value) (epoch : Z)
    : Denial :=
  {| denial_code := EffectRequiresApproval; attempted_operation := operation;
     denial_reason := "rule `" +:+ rule +:+ "` requires out-of-band approval (policy epoch " +:+ pretty epoch
       +:+ "); approved constraint sketch: " +:+ json_text constraints;
     safe_alternatives := []; requestable_scopes := [mkScope operation constraints true];
     escalation_allowed := true |}.

Definition request_capability (principal : string) (operation : Operation) (params : Value)
    (branch : option string) : K CapabilityLease :=
  who ← principal_of principal;
  t ← now;
  decision ← evaluate_policy who operation params branch t;
  match decision with
  | DAllow rule grant =>
      issue_lease (grant_lease grant);;
      match branch with
      | Some br =>
          k ← get;
          b ← lift (get_branch (k_dag k) br);
          let w := mkWriter (b_episode b) (Some br) None principal in
          req ← record_event w KCapabilityRequest
                  (Object [("operation", Str operation); ("params", params)]) [];
          record_event w KPolicyDecision (allow_payload rule (lease_id (grant_lease grant))) [seq_of req];;
          mret (grant_lease grant)
      | None => mret (grant_lease grant)
      end
  | DRequireApproval rule op constraints epoch =>
      raise (Denied (approval_denial rule op constraints epoch))
  | DDeny denial => raise (Denied denial)
  end.

(** ** Envelopes *)

Definition MAX_ENVELOPE_ITEMS : nat := 64.

Record EnvelopeRequest := mkEnvelopeRequest { er_operation : string; er_params : Value }.

Record EnvelopeItemReport := mkItem {
  item_operation : string;
  item_lease : option CapabilityLease;
  item_denial : option Denial;
}.

Record EnvelopeReport := mkReport {
  items : list EnvelopeItemReport;
  granted : Z;
  needs_human : Z;
  refused : Z;
}.

Definition envelope_item (principal : string) (branch : option string) (rep : EnvelopeReport)
    (req : EnvelopeRequest) : K EnvelopeReport :=
  let params := match er_params req with Null => Object [] | v => v end in
  r ← attempt (request_capability principal (er_operation req) params branch);
  match r with
  | Ok lease =>
      mret (mkReport (items rep ++ [mkItem (er_operation req) (Some lease) None])
              (granted rep + 1) (needs_human rep) (refused rep))
  | Err (Denied denial) =>
      let human := existsb scope_requires_human (requestable_scopes denial) in
      mret (mkReport (items rep ++ [mkItem (er_operation req) None (Some denial)]) (granted rep)
              (needs_human rep + if human then 1 else 0) (refused rep + if human then 0 else 1))
  | Err other => raise other
  end.

Fixpoint envelope_items (principal : string) (branch : option string) (rep : EnvelopeReport)
    (reqs : list EnvelopeRequest) : K EnvelopeReport :=
  match reqs with
  | [] => mret rep
  | req :: rest => rep' ← envelope_item principal branch rep req; envelope_items principal branch rep' rest
  end.

Definition compile_envelope (principal : string) (branch : option string)
    (requests : list EnvelopeRequest) : K EnvelopeReport :=
  if bool_decide (length requests = 0%nat) then
    raise (EOther "an autonomy envelope needs at least one capability request")
  else if Nat.ltb MAX_ENVELOPE_ITEMS (length requests) then
    raise (EOther ("envelope has " +:+ pretty (Z.of_nat (length requests)) +:+ " requests; the maximum is "
                   +:+ pretty (Z.of_nat MAX_ENVELOPE_ITEMS)))
  else envelope_items principal branch (mkReport [] 0 0 0) requests.

(** ** Delegation and revocation *)

Definition delegate_lease (delegator parent delegatee : string) (constraints : list (string * Constraint))
    (uses : Z) (expires : DateTime) (budget : ResourceBudget) : K CapabilityLease :=
  fresh ← generate "lease"; t ← now;
  update (fun k => match delegate (k_db k) fresh delegator parent delegatee constraints uses expires budget t with
           | Ok (child, db) => (Ok child, set_db k db)
           | Err e => (Err (Raised (kernel_error_of_identity identity_display e)), k)
           end).

(** The walk over the children ends within as many turns as there are leases
    ([LeaseStore.revocation_cascades]). *)
Definition revoke_lease (lease : string) : K (list string) := fun k =>
  match revoke_cascading (size (leases (k_db k))) (k_db k) lease with
  | Some (Ok (ids, db)) => (Ok ids, set_db k db)
  | Some (Err e) => (Err (Raised (kernel_error_of_identity identity_display e)), k)
  | None => (Err Panicked, k)
  end.
End kernel.
Arguments Kernel B {_}.
Arguments K B {_} A.
