(* ===== verification/KernelStep.v ===== *)
(** Executing a step, [kernel/api/src/kernel.rs]: [execute_step] and what it
    dispatches to (connector proposals, observation-plane reads, metadata
    steps, scheduled execution), and [execute_step_auto]. *)

From stdpp Require Import pretty.
From S2P Require Import Prelude Json Budget Glob Capability Types Canonical IdentityDb Registry.
From S2P Require Import LeaseStore Delegation Policy Router Scheduler Effect Ledger Broker Snapshot.
From S2P Require Import Dag Path Workspace B64 Utf8 Observation KernelText Kernel.

Open Scope Z_scope.

Section step.
Context {B : Type} `{!Backend B, !RouterDebug, !World B}.
Context `{!Serde, !Sha256, !TimeJson, !JsonText, !DeltaSerde, !TimeText, !Chrono, !ManifestSerde}.
Context `{!ReceiptSigner, !ErrorDisplay, !KernelDisplay, !PathsDebug, !StepSerde}.

(** * Denials *)

Definition deny_step (w : EventWriter) (b : Branch) (step : string) (who : Principal) (denial : Denial)
    : K B StepResult :=
  let denial := redact_for denial (principal_trust who) in
  ev ← record_event w KDenialIssued (denial_value denial) [];
  record_event w KObservationEmitted
    (Object [("code", code_value (denial_code denial)); ("kind", Str "denied")]) [seq_of ev];;
  mret (mkStepResult step (head b) (ODenied denial)).

Definition deny_connector_step (w : EventWriter) (b : Branch) (step principal : string) (denial : Denial)
    : K B StepResult :=
  who ← principal_of principal;
  deny_step w b step who denial.

Definition plain_denial (code : DenialCode) (operation : Operation) (reason : string)
    (scopes : list RequestableScope) (escalation : bool) : Denial :=
  mkDenial code operation reason [] scopes escalation.

(** * The causal chain of a step *)

Definition tool_payload (action : Action) : Value :=
  Object [("action", action_value (action_kind action)); ("budget", budget_value (action_budget action));
          ("intent_hint", opt_str (intent_hint action)); ("lease", Str (action_lease action))].

Definition delta_payload (node : StateNode) : Value :=
  Object [("delta", delta_value (node_delta node)); ("state_id", Str (node_id node))].

(** The end of every executed step: the delta, then the observation. *)
Definition record_outcome (w : EventWriter) (step : string) (cause : Z) (node : StateNode)
    (observation : Observation) : K B StepResult :=
  delta_ev ← record_event w KStateDeltaRecorded (delta_payload node) [cause];
  record_event w KObservationEmitted (observation_value observation) [seq_of delta_ev];;
  mret (mkStepResult step (node_id node) observation).

(** * Connector proposals *)

Definition obj_remove (key : string) (v : Value) : Value :=
  match v with Object m => Object (List.filter (fun kv => negb (String.eqb kv.1 key)) m) | _ => v end.

Definition obj_insert (key : string) (x v : Value) : Value :=
  match v with Object m => Object (bt_iter (<[key := x]> (list_to_map m))) | _ => v end.

Definition resource_of (connector_name : string) (op_params : Value) : string :=
  match value_get "resource" op_params ≫= as_str with
  | Some r => r
  | None =>
      match value_get "owner" op_params ≫= as_str, value_get "repo" op_params ≫= as_str with
      | Some o, Some r => o +:+ "/" +:+ r
      | _, _ => connector_name
      end
  end.

Definition propose_connector_op (w : EventWriter) (b : Branch) (branch step principal : string)
    (action : Action) (connector_name op : string) (op_params : Value) : K B StepResult :=
  let full_op := connector_name +:+ "." +:+ op in
  let arguments := obj_remove "preconditions" (obj_remove "resource" op_params) in
  c ← connector connector_name;
  class ← (match c with
           | Some c => mret (kc_classify c full_op arguments)
           | None => effect_class_of full_op
           end);
  let contract :=
    mkContract full_op (resource_of connector_name op_params) arguments
      (default (Object []) (value_get "preconditions" op_params)) (b_episode b +:+ "-" +:+ step) class in
  fresh ← generate "fx"; t ← now;
  k ← get;
  effect ← on_broker (fun st =>
    propose (broker_conns k) st fresh t contract principal branch step (action_lease action));
  tool ← record_event w KToolInvocation (tool_payload action) [];
  proposed ← record_event w KEffectProposed
    (Object [("class", Str (class_str (ec_class (Effect.contract effect))));
             ("contract_hash", Str (effect_contract_hash effect)); ("effect_id", Str (effect_id effect))])
    [seq_of tool];
  k ← get;
  head ← lift (branch_head (k_dag k) branch);
  node ← dag_append branch step principal
    (mkStateDelta [] [] [] [] (delta_policy_epoch (node_delta head)) [effect_id effect] [])
    (workspace_root head) (node_replay_class head);
  record_outcome w step (seq_of proposed) node
    (EffectPending (effect_id effect) (effect_contract_hash effect) (ec_class (Effect.contract effect))).

(** * Observation-plane reads *)

(** The external call, traced; [commit] of a connector. *)
Definition call_connector (c : KConnector) (contract : EffectContract) : K B (KernelResult CommitResult) :=
  update (fun k => (Ok (c_commit (kc_connector c) contract), add_log k (ReadVia c contract))).

(** [msg.chars().take(400)]. *)
Definition take_chars (n : nat) (s : string) : string := str_concat (take n (chars s)).

Definition read_observation (full_op : string) (elapsed_ms : Z) (outcome : KernelResult CommitResult)
    : K B Observation :=
  match outcome with
  | Ok result =>
      let '(raw, data) := shape_read_response (response result) in
      full_output ← put_raw raw;
      let d := distill_output raw 2048 1024 in
      mret (Success (full_op +:+ " returned " +:+ pretty (Z.of_nat (String.length raw)) +:+ " bytes in "
                       +:+ pretty elapsed_ms +:+ " ms")
              data (d_head d) (d_tail d) 0 full_output (d_truncated d))
  | Err e =>
      let msg := error_display e in
      full_output ← put_raw msg;
      mret (Failure (full_op +:+ " failed") 1 (Some (take_chars 400 msg)) None full_output)
  end.

Definition execute_read_via_connector (w : EventWriter) (b : Branch) (branch step principal : string)
    (action : Action) (c : KConnector) (full_op resource : string) (arguments : Value) : K B StepResult :=
  let contract :=
    mkContract full_op resource arguments (Object []) (b_episode b +:+ "-" +:+ step +:+ "-read") Pure in
  tool ← record_event w KToolInvocation
    (match tool_payload action with
     | Object m => Object (m ++ [("plane", Str "observation")])
     | v => v
     end) [];
  t0 ← now;
  outcome ← call_connector c contract;
  t1 ← now;
  observation ← read_observation full_op ((t1 - t0) / 1000000) outcome;
  k ← get;
  head ← lift (branch_head (k_dag k) branch);
  node ← dag_append branch step principal
    (mkStateDelta [] [] [] [full_op] (delta_policy_epoch (node_delta head)) [] [])
    (workspace_root head) (node_replay_class head);
  record_outcome w step (seq_of tool) node observation.

Definition execute_http_read (w : EventWriter) (b : Branch) (branch step principal : string)
    (action : Action) (url : string) (egress_domains : list string) : K B StepResult :=
  let operation := "net.http_read" in
  c ← connector "http";
  match c with
  | None =>
      deny_connector_step w b step principal
        (plain_denial DBackendUnavailable operation
           "no `http` connector is registered with this kernel; configure `http` in KernelConfig (or register an HttpConnector) to enable the observation plane"
           [] false)
  | Some c =>
      match canonicalize (kc_connector c) "http.get" (Object [("url", Str url)]) with
      | Err e =>
          deny_connector_step w b step principal
            (plain_denial DConstraintViolated operation ("url refused: " +:+ error_display e) [] false)
      | Ok canon =>
          let canon_url := default url (value_get "url" canon ≫= as_str) in
          let host := default EmptyString (host_of canon_url) in
          if negb (existsb (fun g => glob_match g host) egress_domains) then
            deny_connector_step w b step principal
              (plain_denial PolicyForbidden operation
                 ("host `" +:+ host +:+ "` is not covered by this grant's egress domains; request net.http_read scoped to the domain, or ask an operator to extend the policy egress allowlist")
                 [mkScope operation (Object [("domain", Str host)]) false] true)
          else if decide (kc_classify c "http.get" canon = Pure) then
            execute_read_via_connector w b branch step principal action c "http.get" host canon
          else
            propose_connector_op w b branch step principal action "http" "get"
              (obj_insert "resource" (Str host) canon)
      end
  end.

Definition execute_mcp_invoke (w : EventWriter) (b : Branch) (branch step principal : string)
    (action : Action) (server tool : string) (arguments : Value) : K B StepResult :=
  let operation := "mcp.invoke" in
  c ← connector server;
  match c with
  | None =>
      k ← get;
      deny_connector_step w b step principal
        (plain_denial DBackendUnavailable operation
           ("no MCP server `" +:+ server +:+ "` is registered with this kernel (registered connectors: ["
            +:+ str_join ", " (connector_names k) +:+ "])") [] false)
  | Some c =>
      let full_op := server +:+ "." +:+ tool in
      match canonicalize (kc_connector c) full_op arguments with
      | Err e =>
          deny_connector_step w b step principal
            (plain_denial DConstraintViolated operation
               ("arguments refused by the `" +:+ server +:+ "` manifest: " +:+ error_display e) [] false)
      | Ok canon =>
          if decide (kc_classify c full_op canon = Pure) then
            execute_read_via_connector w b branch step principal action c full_op server canon
          else propose_connector_op w b branch step principal action server tool canon
      end
  end.

(** * Metadata steps *)

Definition finish_metadata_step (w : EventWriter) (branch step principal : string) (action : Action)
    (observation : Observation) : K B StepResult :=
  k ← get;
  head ← lift (branch_head (k_dag k) branch);
  tool ← record_event w KToolInvocation
    (Object [("action", action_value (action_kind action)); ("budget", budget_value (action_budget action));
             ("lease", Str (action_lease action))]) [];
  node ← dag_append branch step principal
    (mkStateDelta [] [] [] [] (delta_policy_epoch (node_delta head)) [] [])
    (workspace_root head) (node_replay_class head);
  record_outcome w step (seq_of tool) node observation.

Definition opt_num (o : option nat) : Value :=
  match o with Some n => int_to_value (Z.of_nat n) | None => Null end.

Definition trace_data (q : TraceQuery) (count : nat) : Value :=
  Object [("applied", Object [("branch", opt_str (q_branch q));
                              ("kinds", Array (map (fun kd => Str (kind_str kd)) (q_kinds q)));
                              ("limit", opt_num (q_limit q)); ("principal", opt_str (q_principal q));
                              ("step", opt_str (q_step q))]);
          ("count", int_to_value (Z.of_nat count))].

Definition trace_step (w : EventWriter) (b : Branch) (branch step principal : string) (action : Action)
    (text : string) : K B StepResult :=
  let q := parse_trace_query (b_episode b) text in
  k ← get;
  evs ← lift (query (k_ledger k) q);
  full ← put_raw (json_text (events_value evs));
  finish_metadata_step w branch step principal action
    (Success ("trace query `" +:+ text +:+ "` returned " +:+ pretty (Z.of_nat (length evs)) +:+ " events")
       (Some (trace_data q (length evs))) None None 0 full false).

Definition branch_diff (branch : string) (since : option string) : K B (list FileChange) :=
  k ← get;
  b ← lift (get_branch (k_dag k) branch);
  lift (diff (k_dag k) (default (base_state b) since) (head b)).

Definition diff_step (w : EventWriter) (branch step principal : string) (action : Action) (since : string)
    : K B StepResult :=
  changes ← branch_diff branch (Some since);
  full ← put_raw (json_text (changes_value changes));
  finish_metadata_step w branch step principal action
    (Success (pretty (Z.of_nat (length changes)) +:+ " file(s) changed since " +:+ since)
       (Some (changes_value changes)) None None 0 full false).

(** * Scheduled execution *)

(** The backend a scheduled step runs on, if it gets that far. *)
Definition scheduled_backend (s : StepScheduler B) (episode : string) (req : ExecutionRequest)
    (p : result string ()) (risk : RiskTier) (needs : Needs) : option B :=
  match step_admit s episode req with
  | (Ok _, s1) =>
      match step_route s1 episode req p risk needs with
      | (Ok b, _) => Some b
      | _ => None
      end
  | _ => None
  end.

(** [self.scheduler.execute_step(...)], with its trace in the world; a
    workspace-sharing backend leaves its changes in the branch directory. *)
Definition schedule_step (episode step : string) (req : ExecutionRequest) (risk : RiskTier) (needs : Needs)
    : K B (ExecutionOutcome * BackendProfile * B) :=
  n ← tick;
  update (fun k =>
    let branch := req_branch req in
    let answer b := backend_run n b req (dir_of k branch) in
    let '(r, s) := execute_step (fun b _ => (answer b).1) (permit n) (step_clock n) (k_sched k)
                     episode step req risk needs in
    let k1 := set_sched k s in
    let k2 :=
      match scheduled_backend (k_sched k) episode req (permit n) risk needs with
      | Some b =>
          let k' := add_log k1 (Ran (profile b) req) in
          if shares_workspace (profile b) then set_dirs k' (<[branch := (answer b).2]> (k_dirs k')) else k'
      | None => k1
      end in
    lift r k2).

Definition request_of (b : Branch) (branch principal : string) (action : Action) (c : CompiledConfinement)
    : ExecutionRequest :=
  mkRequest branch (head b) principal (action_kind action) (action_budget action)
    (conf_writable_prefixes c) (conf_readable_prefixes c) (conf_egress_domains c).

(** A backend shares the tree, or syncs and returns a delta, or does neither. *)
Definition contract_ok (p : BackendProfile) (outcome : ExecutionOutcome) : bool :=
  match shares_workspace p, syncs_state p, workspace_delta outcome with
  | true, false, None | false, true, Some _ | false, false, None => true
  | _, _, _ => false
  end.

Definition bool_str (b : bool) : string := if b then "true" else "false".

Definition contract_denial (p : BackendProfile) (outcome : ExecutionOutcome) (operation : Operation) : Denial :=
  plain_denial DBackendUnavailable operation
    ("backend `" +:+ name p +:+ "` violated its state-plane contract (shares_workspace="
     +:+ bool_str (shares_workspace p) +:+ ", syncs_state=" +:+ bool_str (syncs_state p)
     +:+ ", returned_delta=" +:+ bool_str (match workspace_delta outcome with Some _ => true | None => false end)
     +:+ "); its branch resources were discarded and the branch head is unchanged") [] false.

(** Applying a validated delta to the branch mirror. *)
Definition apply_delta (branch : string) (delta : WorkspaceDelta) : K B () :=
  n ← tick; t ← now;
  update (fun k => match apply_workspace_delta (dir_of k branch) delta t with
                   | Ok fs => (Ok tt, set_dirs k (<[branch := fs]> (k_dirs k)))
                   | Err e => (Err (Raised e), set_dirs k (<[branch := torn n]> (k_dirs k)))
                   end).

Definition sync_transition (b : Branch) (branch step principal : string) (backend : B)
    (delta : WorkspaceDelta) (rc : ReplayClass) : K B StateNode :=
  let base := head b in
  r ← attempt (materialize_branch base branch;; apply_delta branch delta;; snapshot_branch branch step principal rc);
  match r with
  | Ok node => mret node
  | Err error =>
      rollback ← attempt (materialize_branch base branch);
      discard_on backend branch;;
      match rollback with
      | Err rollback_error =>
          raise (Storage ("state-sync apply failed (" +:+ error_display error
                          +:+ "); restoring the branch mirror to " +:+ base +:+ " also failed ("
                          +:+ error_display rollback_error +:+ ")"))
      | Ok _ => raise error
      end
  end.

Definition audit_only_node (branch step principal : string) : K B StateNode :=
  k ← get;
  head ← lift (branch_head (k_dag k) branch);
  dag_append branch step principal
    (mkStateDelta [] [] [] [] (delta_policy_epoch (node_delta head)) [] [])
    (workspace_root head) AuditOnly.

Definition stderr_mark : string :=
  String "010" EmptyString +:+ "--- stderr ---" +:+ String "010" EmptyString.

Definition combined_output (outcome : ExecutionOutcome) : string :=
  if str_is_empty (out_stderr outcome) then out_stdout outcome
  else out_stdout outcome +:+ stderr_mark +:+ out_stderr outcome.

Definition via_text (p : BackendProfile) : string :=
  if shares_workspace p then EmptyString
  else if syncs_state p then " via `" +:+ name p +:+ "` (state-synced)"
  else " via `" +:+ name p +:+ "` (audit-only excursion)".

Definition local_observation (operation : Operation) (p : BackendProfile) (outcome : ExecutionOutcome)
    (node : StateNode) (full_output : string) : Observation :=
  let raw := combined_output outcome in
  if exit_code outcome =? 0 then
    let d := distill_output raw 2048 1024 in
    Success (operation +:+ " exited 0 (" +:+ pretty (Z.of_nat (length (files (node_delta node))))
               +:+ " file(s) changed)" +:+ via_text p)
      None (d_head d) (d_tail d) 0 full_output (d_truncated d)
  else
    let causal :=
      match extract_causal_failure (out_stderr outcome) with
      | Some s => Some s
      | None => extract_causal_failure (out_stdout outcome)
      end in
    let tail := if str_is_empty raw then None
                else Some (from_utf8_lossy (str_drop (String.length raw - 1024) raw)) in
    Failure (operation +:+ " exited " +:+ pretty (exit_code outcome)) (exit_code outcome) causal tail full_output.

Definition unroutable_denial (operation : Operation) (reason : string) : Denial :=
  plain_denial DBackendUnavailable operation
    (reason +:+ ". The policy rule's risk_weight demands this isolation floor; register a stronger backend (KernelConfig.backends) or lower the rule's risk_weight")
    [] false.

(** What the step's tree becomes: [inl] a denial, [inr] the new state. *)
Definition local_transition (b : Branch) (branch step principal : string)
    (writable : list string) (outcome : ExecutionOutcome) (p : BackendProfile) (backend : B)
    : K B (Denial + StateNode) :=
  if shares_workspace p then
    node ← snapshot_branch branch step principal (out_replay_class outcome); mret (inr node)
  else if syncs_state p then
    match workspace_delta outcome with
    | None => panic
    | Some delta =>
        match validate_workspace_delta delta writable (name p) with
        | Err denial => discard_on backend branch;; mret (inl denial)
        | Ok _ =>
            node ← sync_transition b branch step principal backend delta (out_replay_class outcome);
            mret (inr node)
        end
    end
  else node ← audit_only_node branch step principal; mret (inr node).

Definition execute_local (w : EventWriter) (b : Branch) (branch step principal : string) (action : Action)
    (confinement : CompiledConfinement) : K B StepResult :=
  let operation := required_operation (action_kind action) in
  let req := request_of b branch principal action confinement in
  tool ← record_event w KToolInvocation (tool_payload action) [];
  routed ← attempt (schedule_step (b_episode b) step req (risk_tier_of (conf_risk_weight confinement))
                      (needs_of (action_kind action)));
  match routed with
  | Err (Denied denial) => deny_connector_step w b step principal denial
  | Err (BackendUnavailable backend reason) =>
      if String.eqb backend "router"
      then deny_connector_step w b step principal (unroutable_denial operation reason)
      else raise (BackendUnavailable backend reason)
  | Err e => raise e
  | Ok (outcome, p, backend) =>
      if negb (contract_ok p outcome) then
        discard_on backend branch;;
        deny_connector_step w b step principal (contract_denial p outcome operation)
      else
        r ← local_transition b branch step principal (conf_writable_prefixes confinement) outcome p backend;
        match r with
        | inl denial => deny_connector_step w b step principal denial
        | inr node =>
            delta_ev ← record_event w KStateDeltaRecorded (delta_payload node) [seq_of tool];
            full_output ← put_raw (combined_output outcome);
            let observation := local_observation operation p outcome node full_output in
            record_event w KObservationEmitted (observation_value observation) [seq_of delta_ev];;
            mret (mkStepResult step (node_id node) observation)
        end
  end.

(** * The pipeline *)

Definition unknown_lease_denial (operation : Operation) (params : Value) (lease : string) (e : IdentityError)
    : Denial :=
  plain_denial CapabilityDenied operation
    ("lease `" +:+ lease +:+ "` is unknown: " +:+ identity_display e
     +:+ ". Recover by requesting a fresh lease for this operation via capability.request (POST /v1/capabilities/request), or use steps/execute_auto to have the kernel resolve leases for you")
    [scope_sketch operation params false] true.

Definition budget_exceeded_denial (operation : Operation) (params : Value) (budget lease_budget : ResourceBudget)
    : Denial :=
  plain_denial BudgetExhausted operation
    ("the action budget exceeds the lease budget envelope in: "
     +:+ str_join ", " (exceeding_dimensions budget lease_budget)
     +:+ ". Recover by lowering the action budget to fit the lease, or request a lease with a larger envelope")
    [mkScope operation (Object [("budget", budget_value budget); ("params", params)]) false] true.

Definition step_approval_denial (operation : Operation) (params : Value) (rule : string) : Denial :=
  plain_denial EffectRequiresApproval operation
    ("rule `" +:+ rule +:+ "` requires out-of-band approval; a human (or an approver-role principal) must grant this scope before it can run")
    [scope_sketch operation params true] true.

(** The authorization of a step: a denial, or the confinement of the grant. *)
Definition authorize (who : Principal) (principal branch : string) (action : Action) (t : DateTime)
    : K B (Denial + CompiledConfinement) :=
  let operation := required_operation (action_kind action) in
  let params := action_params (action_kind action) in
  k ← get;
  match get_lease (k_db k) (action_lease action) with
  | Err e => mret (inl (unknown_lease_denial operation params (action_lease action) e))
  | Ok lease =>
      match check lease principal operation params (Some branch) t with
      | Err failure => mret (inl (denial_from_lease_failure operation params failure))
      | Ok _ =>
          if negb (fits_within (action_budget action) (lease_budget lease)) then
            mret (inl (budget_exceeded_denial operation params (action_budget action) (lease_budget lease)))
          else
            decision ← evaluate_policy who operation params (Some branch) t;
            match decision with
            | DRequireApproval rule _ _ _ => mret (inl (step_approval_denial operation params rule))
            | DDeny denial => mret (inl denial)
            | DAllow _ grant =>
                update (fun k =>
                  let '(r, db) := consume_use (k_db k) (action_lease action) t in
                  (Ok match r with
                      | Err e => inl (denial_from_consume_failure operation params e)
                      | Ok _ => inr (grant_confinement grant)
                      end, set_db k db))
            end
      end
  end.

Definition dispatch (w : EventWriter) (b : Branch) (branch step principal : string) (action : Action)
    (confinement : CompiledConfinement) : K B StepResult :=
  match action_kind action with
  | ConnectorOp c op params => propose_connector_op w b branch step principal action c op params
  | HttpRead url => execute_http_read w b branch step principal action url (conf_egress_domains confinement)
  | McpInvoke server tool arguments => execute_mcp_invoke w b branch step principal action server tool arguments
  | TraceQueryAction text => trace_step w b branch step principal action text
  | BranchDiff since => diff_step w branch step principal action since
  | _ => execute_local w b branch step principal action confinement
  end.

Definition execute_step (principal branch : string) (action : Action) : K B StepResult :=
  step ← generate "step";
  b ← active_branch branch;
  who ← principal_of principal;
  let w := mkWriter (b_episode b) (Some branch) (Some step) principal in
  t ← now;
  r ← authorize who principal branch action t;
  match r with
  | inl denial => deny_step w b step who denial
  | inr confinement => dispatch w b branch step principal action confinement
  end.

(** * Automatic lease resolution *)

(** [(bound, Reverse(expires)) > (bound', Reverse(expires'))]. *)
Definition lease_better (l cur : CapabilityLease) : bool :=
  let bound l := match bound_branch l with Some _ => true | None => false end in
  match bound l, bound cur with
  | true, false => true
  | false, true => false
  | _, _ => expires_at l <? expires_at cur
  end.

Definition choose_lease (principal : string) (operation : Operation) (params : Value) (branch : string)
    (t : DateTime) (candidates : list CapabilityLease) : option CapabilityLease :=
  foldl (fun chosen lease =>
           if negb (is_ok (check lease principal operation params (Some branch) t)) then chosen
           else match chosen with
                | None => Some lease
                | Some cur => if lease_better lease cur then Some lease else chosen
                end) None candidates.

Definition execute_step_auto (principal branch : string) (kind : ActionKind) (hint : option string)
    (budget : option ResourceBudget) : K B AutoStepResult :=
  let operation := required_operation kind in
  let params := action_params kind in
  t ← now;
  k ← get;
  candidates ← lift_identity (active_for_principal (k_db k) principal t);
  lm ← (match choose_lease principal operation params branch t candidates with
        | Some l => mret (l, false)
        | None => l ← request_capability principal operation params (Some branch); mret (l, true)
        end);
  let budget := clamped_to (default step_default budget) (lease_budget lm.1) in
  result ← execute_step principal branch (mkAction kind (lease_id lm.1) hint budget);
  mret (mkAuto result (lease_id lm.1) lm.2).
End step.
