(* ===== verification/KernelLogic.v ===== *)
(** A Hoare logic for the operations of the facade: [triple P m Q E] says that
    from a state in [P] the operation [m] ends in [Q a] with result [a], or in
    [E] when it is abandoned by an error or a panic.

    [quiet] operations only read the clock, draw identifiers and write the
    ledger: they keep every assertion that does not speak of those
    ([stable]). *)

From stdpp Require Import pretty.
From S2P Require Import Prelude Json Budget Glob Capability Types Canonical IdentityDb Registry.
From S2P Require Import LeaseStore Delegation Policy Router Scheduler Effect Ledger Broker Snapshot.
From S2P Require Import Dag Path Workspace B64 Utf8 Observation KernelText Kernel KernelStep.

Open Scope Z_scope.

Section logic.
Context {B : Type} `{!Backend B, !RouterDebug, !World B}.
Context `{!Serde, !Sha256, !TimeJson, !JsonText, !DeltaSerde, !TimeText, !Chrono, !ManifestSerde}.
Context `{!ReceiptSigner, !ErrorDisplay, !KernelDisplay, !PathsDebug, !StepSerde}.

Implicit Types (k : Kernel B) (P E : Kernel B -> Prop).

Definition triple {A} P (m : K B A) (Q : A -> Kernel B -> Prop) E : Prop :=
  forall k, P k -> match m k with (Ok a, k') => Q a k' | (Err _, k') => E k' end.

(** ** Structural rules *)

Lemma triple_ret {A} (a : A) (Q : A -> Kernel B -> Prop) E : triple (Q a) (mret a) Q E.
Proof. by intros k Hk. Qed.

Lemma triple_bind {A A'} P (m : K B A) R (f : A -> K B A') Q E :
  triple P m R E -> (forall a, triple (R a) (f a) Q E) -> triple P (m ≫= f) Q E.
Proof.
  intros Hm Hf k Hk. specialize (Hm k Hk). unfold mbind, K_bind. destruct (m k) as [[a|e] k']; [|done].
  exact (Hf a k' Hm).
Qed.

Lemma triple_conseq {A} P P' (m : K B A) (Q Q' : A -> Kernel B -> Prop) E E' :
  triple P' m Q' E' -> (forall k, P k -> P' k) -> (forall a k, Q' a k -> Q a k) -> (forall k, E' k -> E k) ->
  triple P m Q E.
Proof.
  intros Hm HP HQ HE k Hk. specialize (Hm k (HP k Hk)). destruct (m k) as [[a|e] k']; auto.
Qed.

Lemma triple_pure {A} (φ : Prop) P (m : K B A) Q E :
  (φ -> triple P m Q E) -> triple (fun k => φ /\ P k) m Q E.
Proof. intros Hm k [Hφ Hk]. by apply Hm. Qed.

Lemma triple_exists {A X} (P : X -> Kernel B -> Prop) (m : K B A) Q E :
  (forall x, triple (P x) m Q E) -> triple (fun k => exists x, P x k) m Q E.
Proof. intros Hm k [x Hk]. by eapply Hm. Qed.

Lemma triple_raise {A} e Q E : triple E (raise (A := A) e) Q E.
Proof. by intros k Hk. Qed.

Lemma triple_panic {A} Q E : triple E (panic (A := A)) Q E.
Proof. by intros k Hk. Qed.

Lemma triple_lift {A} (r : KernelResult A) P :
  triple P (lift r) (fun a k => r = Ok a /\ P k) P.
Proof. intros k Hk. by destruct r. Qed.

Lemma triple_lift_identity {A} (r : IdentityResult A) P :
  triple P (lift_identity r) (fun a k => r = Ok a /\ P k) P.
Proof. intros k Hk. by destruct r. Qed.

Lemma triple_get P : triple P get (fun a k => a = k /\ P k) P.
Proof. by intros k Hk. Qed.

Lemma triple_attempt {A} P (m : K B A) Q E :
  triple P m Q E ->
  triple P (attempt m) (fun r k => match r with Ok a => Q a k | Err _ => E k end) E.
Proof.
  intros Hm k Hk. specialize (Hm k Hk). unfold attempt. destruct (m k) as [[a|[e|]] k']; done.
Qed.

(** ** Quiet operations *)

(** What the interface of the ledger does to it. *)
Inductive ledger_move (l : Ledger) : Ledger -> Prop :=
| lm_append t ne : ledger_move l (append l t ne).2
| lm_raw bytes : ledger_move l (store_raw l bytes).2
| lm_receipt r key : ledger_move l (store_receipt l r key).2.

(** Kept by the ledger's own moves and by the tick. *)
Definition stable P : Prop :=
  forall k, P k -> (forall l, ledger_move (k_ledger k) l -> P (set_ledger k l)) /\ P (add_tick k).

Lemma stable_ledger P k l : stable P -> P k -> ledger_move (k_ledger k) l -> P (set_ledger k l).
Proof. intros HP Hk. by apply HP. Qed.

Lemma stable_tick P k : stable P -> P k -> P (add_tick k).
Proof. intros HP Hk. by apply HP. Qed.

Definition quiet {A} (m : K B A) : Prop :=
  forall P, stable P -> triple P m (fun _ => P) P.

Lemma quiet_ret {A} (a : A) : quiet (mret a).
Proof. by intros P HP k Hk. Qed.

Lemma quiet_bind {A A'} (m : K B A) (f : A -> K B A') : quiet m -> (forall a, quiet (f a)) -> quiet (m ≫= f).
Proof. intros Hm Hf P HP. eapply triple_bind; [by apply Hm|]. intros a. by apply Hf. Qed.

Lemma quiet_raise {A} e : quiet (raise (A := A) e).
Proof. by intros P HP k Hk. Qed.

Lemma quiet_panic {A} : quiet (panic (A := A)).
Proof. by intros P HP k Hk. Qed.

Lemma quiet_lift {A} (r : KernelResult A) : quiet (lift r).
Proof. intros P HP k Hk. by destruct r. Qed.

Lemma quiet_lift_identity {A} (r : IdentityResult A) : quiet (lift_identity r).
Proof. intros P HP k Hk. by destruct r. Qed.

Lemma quiet_get : quiet get.
Proof. by intros P HP k Hk. Qed.

Lemma quiet_tick : quiet tick.
Proof. intros P HP k Hk. unfold tick. by apply stable_tick. Qed.

Lemma quiet_now : quiet now.
Proof. apply quiet_bind; [apply quiet_tick|]. intros n. apply quiet_ret. Qed.

Lemma quiet_generate prefix : quiet (generate prefix).
Proof. apply quiet_bind; [apply quiet_tick|]. intros n. apply quiet_ret. Qed.

Lemma quiet_record w kind payload caused : quiet (record_event w kind payload caused).
Proof.
  apply quiet_bind; [apply quiet_now|]. intros t P HP k Hk. unfold update.
  assert (P (set_ledger k (record_caused_by w (k_ledger k) t kind payload caused).2)) as Hl.
  { apply stable_ledger; [done..|]. apply lm_append. }
  by destruct (record_caused_by _ _ _ _ _ _) as [[e|e] l].
Qed.

Lemma quiet_put_raw bytes : quiet (put_raw bytes).
Proof. intros P HP k Hk. unfold put_raw. cbn. apply stable_ledger; [done..|]. apply (lm_raw _ bytes). Qed.

Lemma quiet_fresh : quiet draw_fresh.
Proof.
  repeat (apply quiet_bind; [apply quiet_generate || apply quiet_now|intros ?]). apply quiet_ret.
Qed.

Lemma quiet_attempt {A} (m : K B A) : quiet m -> quiet (attempt m).
Proof.
  intros Hm P HP. eapply triple_conseq; [by apply triple_attempt, Hm|done| |done]. by intros [a|e] k Hk.
Qed.

Lemma quiet_evaluate_policy who op params br t : quiet (evaluate_policy who op params br t).
Proof.
  apply quiet_bind; [apply quiet_generate|]. intros f. apply quiet_bind; [apply quiet_get|]. intros k.
  destruct (evaluate _ _ _ _ _ _ _); [apply quiet_ret|apply quiet_panic].
Qed.

Lemma quiet_active_branch branch : quiet (active_branch branch).
Proof.
  apply quiet_bind; [apply quiet_get|]. intros k. apply quiet_bind; [apply quiet_lift|]. intros b.
  destruct (b_status b); [apply quiet_ret|apply quiet_raise..].
Qed.

Lemma quiet_principal_of id : quiet (principal_of id).
Proof. apply quiet_bind; [apply quiet_get|]. intros k. apply quiet_lift_identity. Qed.

Lemma quiet_connector n : quiet (connector n).
Proof. apply quiet_bind; [apply quiet_get|]. intros k. apply quiet_ret. Qed.

Lemma quiet_effect_class_of op : quiet (effect_class_of op).
Proof. apply quiet_bind; [apply quiet_get|]. intros k. apply quiet_ret. Qed.

Lemma quiet_deny_step w b step who d : quiet (deny_step w b step who d).
Proof. repeat (apply quiet_bind; [apply quiet_record|intros ?]). apply quiet_ret. Qed.

Lemma quiet_deny_connector_step w b step p d : quiet (deny_connector_step w b step p d).
Proof. apply quiet_bind; [apply quiet_principal_of|]. intros who. apply quiet_deny_step. Qed.

Lemma quiet_record_outcome w step cause node obs : quiet (record_outcome w step cause node obs).
Proof. repeat (apply quiet_bind; [apply quiet_record|intros ?]). apply quiet_ret. Qed.

Lemma quiet_read_observation op ms r : quiet (read_observation op ms r).
Proof.
  destruct r as [[v]|e]; cbn [read_observation].
  - destruct (shape_read_response _) as [raw data]. apply quiet_bind; [apply quiet_put_raw|intros ?; apply quiet_ret].
  - apply quiet_bind; [apply quiet_put_raw|intros ?; apply quiet_ret].
Qed.

Lemma quiet_branch_diff branch since : quiet (branch_diff branch since).
Proof.
  apply quiet_bind; [apply quiet_get|]. intros k. apply quiet_bind; [apply quiet_lift|]. intros b. apply quiet_lift.
Qed.
End logic.

#[export] Hint Resolve quiet_ret quiet_raise quiet_panic quiet_lift quiet_lift_identity quiet_get quiet_tick
  quiet_now quiet_generate quiet_record quiet_put_raw quiet_fresh quiet_attempt quiet_evaluate_policy
  quiet_active_branch quiet_principal_of quiet_connector quiet_effect_class_of quiet_deny_step
  quiet_deny_connector_step quiet_record_outcome quiet_read_observation quiet_branch_diff : ak.
