(* ===== verification/KernelSafety.v ===== *)
(** Complete mediation: what a step can do outside the kernel, and what must
    have been checked before it does. *)

From stdpp Require Import pretty.
From S2P Require Import Prelude Json Budget Glob Capability Types Canonical IdentityDb Registry.
From S2P Require Import LeaseStore Delegation Policy Router Scheduler Effect Ledger Broker Snapshot.
From S2P Require Import Dag DagScope Path Workspace B64 Utf8 Observation KernelText Kernel KernelStep.
From S2P Require Import KernelLogic.

Open Scope Z_scope.

Section safety.
Context {B : Type} `{!Backend B, !RouterDebug, !World B}.
Context `{!Serde, !Sha256, !TimeJson, !JsonText, !DeltaSerde, !TimeText, !Chrono, !ManifestSerde}.
Context `{!ReceiptSigner, !ErrorDisplay, !KernelDisplay, !PathsDebug, !StepSerde}.

Implicit Types (k : Kernel B) (I : Kernel B -> Prop).

(** * Frames *)

Abbreviation keeps I m := (triple I m (fun _ => I) I).

(** What the interface of the broker does to its store. *)
Inductive broker_move (st : Store) : Store -> Prop :=
| bm_propose conns fresh t c who br sp ls : broker_move st (propose conns st fresh t c who br sp ls).2
| bm_prepare conns id : broker_move st (prepare conns st id).2
| bm_approve id who epoch t : broker_move st (approve st id who epoch t).2
| bm_commit conns lc id epoch fresh t : broker_move st (commit conns lc st id epoch fresh t).1.2
| bm_recover conns fresh t : broker_move st (recover_in_doubt conns st fresh t).2
| bm_resolve id fresh t outcome : broker_move st (resolve_in_doubt st id fresh t outcome).2
| bm_compensate conns id fresh t : broker_move st (compensate conns st id fresh t).2.

(** What the interface of the scheduler does to its state. *)
Inductive sched_move (s : StepScheduler B) : StepScheduler B -> Prop :=
| sm_execute run p clk ep step req risk needs :
    sched_move s (Scheduler.execute_step run p clk s ep step req risk needs).2
| sm_open ep : sched_move s (register_episode_default s ep).

(** Assertions kept by the moves a dispatched step makes, as long as those of
    the graph and the workspaces stay within the branches [T]: moves of the
    graph, the broker and the scheduler, and changes of a workspace. *)
Definition inert_on (T : string -> Prop) I : Prop :=
  stable I /\ forall k, I k ->
    (forall d, dag_call (k_dag k) d -> touches T (k_dag k) d -> I (set_dag k d))
    /\ (forall s, broker_move (k_broker k) s -> I (set_broker k s))
    /\ (forall s, sched_move (k_sched k) s -> I (set_sched k s))
    /\ (forall ds, (forall br, ~ T br -> ds !! br = k_dirs k !! br) -> I (set_dirs k ds))
    /\ (forall br, branches (k_dag k) !! br = None -> T br).

Definition everywhere (_ : string) : Prop := True.
Abbreviation inert I := (inert_on everywhere I).

(** A workspace of one of the branches. *)
Lemma set_dirs_on T I k br (f : gmap string Fs -> gmap string Fs) :
  inert_on T I -> T br -> (forall br', br' <> br -> f (k_dirs k) !! br' = k_dirs k !! br') ->
  I k -> I (set_dirs k (f (k_dirs k))).
Proof. intros HI HT Hf Hk. apply HI; [done|]. intros br' Hn. apply Hf. by intros ->. Qed.

Lemma insert_dir_on T I k br fs : inert_on T I -> T br -> I k -> I (set_dirs k (<[br := fs]> (k_dirs k))).
Proof.
  intros HI HT. apply (set_dirs_on T I k br (fun ds => <[br := fs]> ds)); [done..|].
  intros br' Hne. by apply lookup_insert_ne.
Qed.

Lemma keeps_bind {A A'} I (m : K B A) (f : A -> K B A') :
  keeps I m -> (forall a, keeps I (f a)) -> keeps I (m ≫= f).
Proof. intros Hm Hf. by eapply triple_bind. Qed.

Lemma keeps_quiet {A} T I (m : K B A) : inert_on T I -> quiet m -> keeps I m.
Proof. intros [HI _] Hm. by apply Hm. Qed.

Lemma keeps_attempt {A} I (m : K B A) : keeps I m -> keeps I (attempt m).
Proof. intros Hm. eapply triple_conseq; [by apply triple_attempt|done| |done]. by intros [a|e] k Hk. Qed.

Lemma keeps_dag_append T I branch step actor delta root rc :
  inert_on T I -> T branch -> keeps I (dag_append branch step actor delta root rc).
Proof.
  intros HI HT. apply keeps_bind; [apply (keeps_quiet T); auto with ak|]. intros f k Hk. unfold update.
  destruct (append_step _ _ _ _ _ _ _ _) as [[node d]|e] eqn:Ea; [|done].
  apply HI; [done|by eapply step_append|by eapply append_touches].
Qed.

Lemma keeps_on_broker {A} T I (f : Store -> KernelResult A * Store) :
  inert_on T I -> (forall st, broker_move st (f st).2) -> keeps I (on_broker f).
Proof.
  intros HI Hf k Hk. unfold on_broker. specialize (Hf (k_broker k)).
  destruct (f (k_broker k)) as [[a|e] st]; by apply HI.
Qed.

Lemma keeps_set_dirs_dag T I k d br fs :
  inert_on T I -> T br -> I k -> dag_call (k_dag k) d -> touches T (k_dag k) d ->
  I (set_dirs (set_dag k d) (<[br := fs]> (k_dirs k))).
Proof. intros HI HT Hk Hd Ht. apply (insert_dir_on T I (set_dag k d)); [done..|]. by apply HI. Qed.

Lemma keeps_materialize T I state branch : inert_on T I -> T branch -> keeps I (materialize_branch state branch).
Proof.
  intros HI HT. do 2 (apply keeps_bind; [apply (keeps_quiet T); auto with ak|intros ?]). intros k Hk. unfold update.
  match goal with |- context [dag_materialize ?d ?s ?t ?fs ?st ?n] =>
    pose proof (step_materialize d s t fs st n) as Hd; pose proof (materialize_touches T d s t fs st n) as Ht;
    destruct (dag_materialize d s t fs st n) as [[fs'|e] d'] end;
  by apply (keeps_set_dirs_dag T).
Qed.

Lemma keeps_snapshot T I branch step actor rc :
  inert_on T I -> T branch -> keeps I (snapshot_branch branch step actor rc).
Proof.
  intros HI HT. apply keeps_bind; [apply (keeps_quiet T); auto with ak|]. intros f k Hk. unfold update.
  match goal with |- context [snapshot_and_append ?d ?f ?b ?s ?a ?dir ?fs ?t ?rc] =>
    pose proof (step_snapshot d f b s a dir fs t rc) as Hd; pose proof (snapshot_touches T d f b s a dir fs t rc HT) as Ht;
    destruct (snapshot_and_append d f b s a dir fs t rc) as [[n|e] d'] end;
  by apply HI.
Qed.

Lemma keeps_apply_delta T I branch delta : inert_on T I -> T branch -> keeps I (apply_delta branch delta).
Proof.
  intros HI HT. do 2 (apply keeps_bind; [apply (keeps_quiet T); auto with ak|intros ?]). intros k Hk. unfold update.
  destruct (apply_workspace_delta _ _ _); by apply (insert_dir_on T).
Qed.

(** Operations that leave the kernel, when the assertion allows the event. *)
Definition allows I (e : WorldEvent) : Prop := forall k, I k -> I (add_log k e).

Lemma keeps_discard_on T I b branch :
  inert_on T I -> T branch -> allows I (DiscardedOn (profile b) branch) -> keeps I (discard_on b branch).
Proof.
  intros HI HT Hok. apply keeps_bind; [apply (keeps_quiet T); auto with ak|]. intros n k Hk. unfold update.
  destruct (shares_workspace _); [|by apply Hok].
  apply (set_dirs_on T I (add_log k _) branch (delete branch)); [done..| |by apply Hok].
  intros br' Hne. by apply lookup_delete_ne.
Qed.

Lemma keeps_call_connector I c contract :
  allows I (ReadVia c contract) -> keeps I (call_connector c contract).
Proof. intros Hok k Hk. unfold call_connector, update. by apply Hok. Qed.

Lemma scheduled_backend_satisfies s episode req p risk needs (b : B) :
  scheduled_backend s episode req p risk needs = Some b -> satisfies (profile b) risk needs = true.
Proof.
  unfold scheduled_backend. destruct (step_admit _ _ _) as [[u|] s1]; [|done].
  unfold step_route. destruct p as [u'|e']; [|done].
  destruct (route (router s1) risk needs) as [b'|] eqn:Er; [|done]. intros [= ->].
  by apply route_Ok in Er as (_ & He & _).
Qed.

Lemma keeps_schedule T I episode step req risk needs :
  inert_on T I -> T (req_branch req) -> (forall p, satisfies p risk needs = true -> allows I (Ran p req)) ->
  keeps I (schedule_step episode step req risk needs).
Proof.
  intros HI HT Hok. apply keeps_bind; [apply (keeps_quiet T); auto with ak|]. intros n k Hk. unfold update.
  match goal with |- context [Scheduler.execute_step ?run ?p ?c ?s ?ep ?st ?rq ?rk ?nd] =>
    pose proof (sm_execute s run p c ep st rq rk nd) as Hs;
    destruct (Scheduler.execute_step run p c s ep st rq rk nd) as [r s'] end.
  assert (forall k', I k' -> I (lift r k').2) as Hl by (intros k' Hk'; by destruct r).
  set (k2 := match scheduled_backend _ _ _ _ _ _ with Some _ => _ | None => _ end).
  assert (I k2) as Hk2.
  { unfold k2. destruct (scheduled_backend _ _ _ _ _ _) as [b|] eqn:Es; [|by apply HI].
    apply scheduled_backend_satisfies in Es. assert (I (add_log (set_sched k s') (Ran (profile b) req))) as Hr.
    { apply Hok; [done|]. by apply HI. }
    destruct (shares_workspace _); [|done]. by apply (insert_dir_on T I (add_log (set_sched k s') _)). }
  by destruct r.
Qed.

Lemma keeps_sync T I b branch step principal backend delta rc :
  inert_on T I -> T branch -> allows I (DiscardedOn (profile backend) branch) ->
  keeps I (sync_transition b branch step principal backend delta rc).
Proof.
  intros HI HT Hok. unfold sync_transition. apply keeps_bind.
  { apply keeps_attempt. apply keeps_bind; [by apply (keeps_materialize T)|intros _].
    apply keeps_bind; [by apply (keeps_apply_delta T)|intros _]. by apply (keeps_snapshot T). }
  intros [node|error]; [apply (keeps_quiet T); auto with ak|].
  apply keeps_bind; [by apply keeps_attempt, (keeps_materialize T)|]. intros rollback.
  apply keeps_bind; [by apply (keeps_discard_on T)|]. intros _. destruct rollback; apply (keeps_quiet T); auto with ak.
Qed.

Lemma keeps_audit_only T I branch step principal : inert_on T I -> T branch -> keeps I (audit_only_node branch step principal).
Proof.
  intros HI HT. do 2 (apply keeps_bind; [apply (keeps_quiet T); auto with ak|intros ?]). by apply (keeps_dag_append T).
Qed.

Lemma keeps_local_transition T I b branch step principal writable outcome p backend :
  inert_on T I -> T branch -> allows I (DiscardedOn (profile backend) branch) ->
  keeps I (local_transition b branch step principal writable outcome p backend).
Proof.
  intros HI HT Hok. unfold local_transition. destruct (shares_workspace p).
  { apply keeps_bind; [by apply (keeps_snapshot T)|intros ?; apply (keeps_quiet T); auto with ak]. }
  destruct (syncs_state p).
  - destruct (workspace_delta outcome) as [delta|]; [|apply (keeps_quiet T); auto with ak].
    destruct (validate_workspace_delta _ _ _) as [u|d].
    + apply keeps_bind; [by apply (keeps_sync T)|intros ?; apply (keeps_quiet T); auto with ak].
    + apply keeps_bind; [by apply (keeps_discard_on T)|intros ?; apply (keeps_quiet T); auto with ak].
  - apply keeps_bind; [by apply (keeps_audit_only T)|intros ?; apply (keeps_quiet T); auto with ak].
Qed.

Lemma keeps_execute_local T I w b branch step principal action conf :
  inert_on T I -> T branch ->
  (forall p, satisfies p (risk_tier_of (conf_risk_weight conf)) (needs_of (action_kind action)) = true ->
     allows I (Ran p (request_of b branch principal action conf))) ->
  (forall p, allows I (DiscardedOn p branch)) ->
  keeps I (execute_local w b branch step principal action conf).
Proof.
  intros HI HT Hran Hdis. unfold execute_local. apply keeps_bind; [apply (keeps_quiet T); auto with ak|]. intros tool.
  apply keeps_bind; [by apply keeps_attempt, (keeps_schedule T)|].
  intros [[[outcome p] backend]|e].
  2:{ apply (keeps_quiet T); [done|]. destruct e; auto with ak. destruct (String.eqb _ _); auto with ak. }
  destruct (contract_ok p outcome); cbn [negb].
  - apply keeps_bind; [by apply (keeps_local_transition T)|]. intros [d|node]; [apply (keeps_quiet T); auto with ak|].
    repeat (apply keeps_bind; [apply (keeps_quiet T); auto with ak|intros ?]). apply (keeps_quiet T); auto with ak.
  - apply keeps_bind; [by apply (keeps_discard_on T)|]. intros _. apply (keeps_quiet T); auto with ak.
Qed.

Lemma keeps_propose T I w b branch step principal action c op params :
  inert_on T I -> T branch -> keeps I (propose_connector_op w b branch step principal action c op params).
Proof.
  intros HI HT. unfold propose_connector_op.
  apply keeps_bind; [apply (keeps_quiet T); auto with ak|intros kc].
  apply keeps_bind; [destruct kc; apply (keeps_quiet T); auto with ak|intros class].
  do 3 (apply keeps_bind; [apply (keeps_quiet T); auto with ak|intros ?]).
  apply keeps_bind; [apply (keeps_on_broker T); [done|intros st; apply bm_propose]|intros effect].
  do 4 (apply keeps_bind; [apply (keeps_quiet T); auto with ak|intros ?]).
  apply keeps_bind; [by apply (keeps_dag_append T)|intros node]. apply (keeps_quiet T); auto with ak.
Qed.

Lemma keeps_metadata T I w branch step principal action obs :
  inert_on T I -> T branch -> keeps I (finish_metadata_step w branch step principal action obs).
Proof.
  intros HI HT. do 3 (apply keeps_bind; [apply (keeps_quiet T); auto with ak|intros ?]).
  apply keeps_bind; [by apply (keeps_dag_append T)|intros node]. apply (keeps_quiet T); auto with ak.
Qed.

Lemma keeps_read T I w b branch step principal action c op resource args :
  inert_on T I -> T branch ->
  allows I (ReadVia c (mkContract op resource args (Object []) (b_episode b +:+ "-" +:+ step +:+ "-read") Pure)) ->
  keeps I (execute_read_via_connector w b branch step principal action c op resource args).
Proof.
  intros HI HT Hok. unfold execute_read_via_connector.
  do 2 (apply keeps_bind; [apply (keeps_quiet T); auto with ak|intros ?]).
  apply keeps_bind; [by apply keeps_call_connector|intros outcome].
  do 4 (apply keeps_bind; [apply (keeps_quiet T); auto with ak|intros ?]).
  apply keeps_bind; [by apply (keeps_dag_append T)|intros node]. apply (keeps_quiet T); auto with ak.
Qed.
(** * What a dispatched step may do outside *)

(** The registers a step may not write, and the events added since [k0]. *)
Definition framed (k0 : Kernel B) (db : IdentityDb) (ok : WorldEvent -> Prop) (k : Kernel B) : Prop :=
  k_db k = db /\ k_policy k = k_policy k0 /\ k_connectors k = k_connectors k0
  /\ connector_names k = connector_names k0 /\ op_classes k = op_classes k0 /\ k_episodes k = k_episodes k0
  /\ exists evs, k_log k = k_log k0 ++ evs /\ Forall ok evs.

Lemma framed_inert k0 db ok : inert (framed k0 db ok).
Proof. split; [by intros k Hk|]. intros k Hk. by split_and!. Qed.

Lemma framed_allows k0 db (ok : WorldEvent -> Prop) e : ok e -> allows (framed k0 db ok) e.
Proof.
  intros He k (Hdb & Hp & Hc & Hn & Ho & Hep & evs & Hl & Hall). split_and!; try done.
  exists (evs ++ [e]). cbn. rewrite Hl, <- app_assoc. split; [done|]. apply Forall_app. by repeat constructor.
Qed.

(** The host of the URL a read passes to its connector. *)
Definition read_host (url : string) (arguments : Value) : string :=
  default EmptyString (host_of (default url (value_get "url" arguments ≫= as_str))).

Definition event_ok (k0 : Kernel B) (b : Branch) (branch principal : string) (action : Action)
    (conf : CompiledConfinement) (e : WorldEvent) : Prop :=
  match e with
  | Ran p req =>
      req = request_of b branch principal action conf
      /\ satisfies p (risk_tier_of (conf_risk_weight conf)) (needs_of (action_kind action)) = true
  | ReadVia c call =>
      ec_class call = Pure /\ kc_classify c (ec_operation call) (ec_arguments call) = Pure
      /\ match action_kind action with
         | HttpRead url =>
             k_connectors k0 !! "http" = Some c /\ ec_operation call = "http.get"
             /\ canonicalize (kc_connector c) "http.get" (Object [("url", Str url)]) = Ok (ec_arguments call)
             /\ existsb (fun g => glob_match g (read_host url (ec_arguments call))) (conf_egress_domains conf) = true
         | McpInvoke server tool arguments =>
             k_connectors k0 !! server = Some c /\ ec_operation call = server +:+ "." +:+ tool
             /\ canonicalize (kc_connector c) (ec_operation call) arguments = Ok (ec_arguments call)
         | _ => False
         end
  | DiscardedOn _ br => br = branch
  | ForkedOn _ _ _ | CommitCall _ | CompensateCall _ => False
  end.

Lemma connector_lookup k0 db ok n :
  triple (framed k0 db ok) (connector n)
    (fun c k => c = k_connectors k0 !! n /\ framed k0 db ok k) (framed k0 db ok).
Proof.
  intros k Hk. unfold connector, mbind, K_bind, get, update, mret, K_ret. split; [|done].
  by destruct Hk as (_ & _ & -> & _).
Qed.

Section dispatch.
Context (k0 : Kernel B) (db : IdentityDb) (b : Branch) (branch principal : string) (action : Action)
  (conf : CompiledConfinement).

Let ok := event_ok k0 b branch principal action conf.
Let I := framed k0 db ok.

Lemma keeps_http w step url :
  action_kind action = HttpRead url ->
  keeps I (execute_http_read w b branch step principal action url (conf_egress_domains conf)).
Proof.
  intros Hkind. pose proof (framed_inert k0 db ok) as HI. unfold execute_http_read.
  eapply triple_bind; [apply connector_lookup|]. intros c. apply triple_pure. intros Hc.
  destruct c as [c|]; [|apply (keeps_quiet everywhere); auto with ak].
  destruct (canonicalize _ _ _) as [canon|e] eqn:Ecanon; [|apply (keeps_quiet everywhere); auto with ak].
  destruct (existsb _ _) eqn:Ehost; cbn [negb]; [|apply (keeps_quiet everywhere); auto with ak].
  case_decide as Hpure; [|by apply (keeps_propose everywhere)].
  apply (keeps_read everywhere); [done..|]. apply framed_allows. unfold ok. cbn [event_ok]. rewrite Hkind. by split_and!.
Qed.

Lemma keeps_mcp w step server tool arguments :
  action_kind action = McpInvoke server tool arguments ->
  keeps I (execute_mcp_invoke w b branch step principal action server tool arguments).
Proof.
  intros Hkind. pose proof (framed_inert k0 db ok) as HI. unfold execute_mcp_invoke.
  eapply triple_bind; [apply connector_lookup|]. intros c. apply triple_pure. intros Hc.
  destruct c as [c|].
  2:{ apply keeps_bind; [apply (keeps_quiet everywhere); auto with ak|intros ?]. apply (keeps_quiet everywhere); auto with ak. }
  destruct (canonicalize _ _ _) as [canon|e] eqn:Ecanon; [|apply (keeps_quiet everywhere); auto with ak].
  case_decide as Hpure; [|by apply (keeps_propose everywhere)].
  apply (keeps_read everywhere); [done..|]. apply framed_allows. unfold ok. cbn [event_ok]. rewrite Hkind. by split_and!.
Qed.

Lemma keeps_local_dispatch w step : keeps I (execute_local w b branch step principal action conf).
Proof.
  pose proof (framed_inert k0 db ok) as HI. apply (keeps_execute_local everywhere); [done..| |].
  - intros p Hp. by apply framed_allows.
  - intros p. by apply framed_allows.
Qed.

Lemma keeps_dispatch w step : keeps I (dispatch w b branch step principal action conf).
Proof.
  pose proof (framed_inert k0 db ok) as HI. unfold dispatch.
  destruct (action_kind action) as [| | | | | | | | |url|server tool args|c op params|text|since] eqn:Hkind;
    try apply keeps_local_dispatch.
  - by apply keeps_http.
  - by apply keeps_mcp.
  - by apply (keeps_propose everywhere).
  - unfold trace_step. do 3 (apply keeps_bind; [apply (keeps_quiet everywhere); auto with ak|intros ?]). by apply (keeps_metadata everywhere).
  - unfold diff_step. do 2 (apply keeps_bind; [apply (keeps_quiet everywhere); auto with ak|intros ?]). by apply (keeps_metadata everywhere).
Qed.
End dispatch.

(** * Authorization *)

Lemma set_db_same k : set_db k (k_db k) = k.
Proof. by destruct k. Qed.

(** What a granted step has been checked against. *)
Record authorized (k : Kernel B) (principal branch : string) (action : Action) (t : DateTime) (b : Branch)
    (grant : CompiledGrant) (db' : IdentityDb) : Prop := {
  auth_branch : get_branch (k_dag k) branch = Ok b /\ b_status b = Active;
  auth_lease : exists lease, get_lease (k_db k) (action_lease action) = Ok lease
    /\ check lease principal (required_operation (action_kind action)) (action_params (action_kind action))
         (Some branch) t = Ok tt
    /\ fits_within (action_budget action) (lease_budget lease) = true;
  auth_policy : exists who rule fresh, get_principal (k_db k) principal = Ok who
    /\ evaluate fresh (k_policy k) who (required_operation (action_kind action))
         (action_params (action_kind action)) (Some branch) t = Some (DAllow rule grant);
  auth_use : exists lease', consume_use (k_db k) (action_lease action) t = (Ok lease', db');
}.

Definition authorize_post (k : Kernel B) (principal branch : string) (action : Action) (t : DateTime)
    (who : Principal) (out : result Abort (Denial + CompiledConfinement) * Kernel B) : Prop :=
  match out with
  | (Ok (inr conf), k') => exists lease rule grant lease' db',
      get_lease (k_db k) (action_lease action) = Ok lease
      /\ check lease principal (required_operation (action_kind action)) (action_params (action_kind action))
           (Some branch) t = Ok tt
      /\ fits_within (action_budget action) (lease_budget lease) = true
      /\ evaluate (id_generate "lease" (uuid (k_tick k))) (k_policy k) who
           (required_operation (action_kind action)) (action_params (action_kind action)) (Some branch) t
         = Some (DAllow rule grant)
      /\ conf = grant_confinement grant
      /\ consume_use (k_db k) (action_lease action) t = (Ok lease', db')
      /\ k' = set_db (add_tick k) db'
  | (_, k') => k' = k \/ k' = add_tick k
  end.

Lemma authorize_spec who principal branch action t k :
  authorize_post k principal branch action t who (authorize who principal branch action t k).
Proof.
  unfold authorize, mbind, K_bind, get, update. cbn [k_db].
  destruct (get_lease _ _) as [lease|e] eqn:Hl; [|by left].
  destruct (check _ _ _ _ _ _) as [[]|f] eqn:Hc; [|by left].
  destruct (fits_within _ _) eqn:Hf; cbn [negb]; [|by left].
  unfold evaluate_policy, mbind, K_bind, generate, mbind, K_bind, tick, mret, K_ret, get, update.
  change (k_policy (add_tick k)) with (k_policy k).
  destruct (evaluate _ _ _ _ _ _ _) as [[rule grant|rule op cs ep|d]|] eqn:He; try (by right).
  change (k_db (add_tick k)) with (k_db k).
  destruct (consume_use _ _ _) as [[lease'|e] db'] eqn:Hu; cbn.
  - by exists lease, rule, grant, lease', db'.
  - right. apply consume_use_Err in Hu as ->. apply (set_db_same (add_tick k)).
Qed.

(** * Properties *)

(** Only the trace, the clock and the identifier supply moved. *)
Definition same_core (k k' : Kernel B) : Prop :=
  k_dag k' = k_dag k /\ k_db k' = k_db k /\ k_policy k' = k_policy k /\ k_broker k' = k_broker k
  /\ k_sched k' = k_sched k /\ k_dirs k' = k_dirs k /\ k_connectors k' = k_connectors k
  /\ k_episodes k' = k_episodes k /\ k_log k' = k_log k.

Lemma same_core_stable k : stable (same_core k).
Proof. by intros k1 Hk. Qed.

(** Up to the decision, a step only draws identifiers and clock readings. *)
Lemma execute_step_unfold principal branch action k :
  let step := id_generate "step" (uuid (k_tick k)) in
  let k2 := add_tick (add_tick k) in
  let t := clock (S (k_tick k)) in
  execute_step principal branch action k =
  match get_branch (k_dag k) branch with
  | Err e => (Err (Raised e), add_tick k)
  | Ok b =>
      match b_status b with
      | Active =>
          match get_principal (k_db k) principal with
          | Err e => (Err (Raised (kernel_error_of_identity identity_display e)), add_tick k)
          | Ok who =>
              let w := mkWriter (b_episode b) (Some branch) (Some step) principal in
              match authorize who principal branch action t k2 with
              | (Ok (inl denial), k3) => deny_step w b step who denial k3
              | (Ok (inr conf), k3) => dispatch w b branch step principal action conf k3
              | (Err e, k3) => (Err e, k3)
              end
          end
      | _ => (Err (Raised (BranchDiscarded branch)), add_tick k)
      end
  end.
Proof.
  unfold execute_step, mbind, K_bind, generate, mbind, K_bind, tick, mret, K_ret.
  unfold active_branch, mbind, K_bind, get, update. cbn [k_dag add_tick].
  destruct (get_branch (k_dag k) branch) as [b|e]; [|done]. unfold lift, mret, K_ret.
  destruct (b_status b); [|done..].
  unfold principal_of, mbind, K_bind, get, update, lift_identity, lift. cbn [k_db add_tick].
  destruct (get_principal (k_db k) principal) as [who|e]; [|done]. cbn [map_err].
  unfold now, mbind, K_bind, tick, mret, K_ret. cbn [k_tick add_tick].
  by destruct (authorize _ _ _ _ _ _) as [[[d|conf]|e] k3].
Qed.

Lemma framed_add_tick k db ok : framed k db ok (set_db (add_tick (add_tick (add_tick k))) db).
Proof. unfold framed. cbn. split_and!; try done. exists []. by rewrite app_nil_r. Qed.

(** C1: Complete mediation. Whatever a step does, and however it ends: either nothing but the
    trace, the clock and the identifier supply has moved, or the branch was active, the
    presented lease existed and authorizes this principal, operation, parameters and branch at
    the kernel clock's reading at the start of the step, the action budget fits the lease,
    current policy allows it for the registered principal at that same instant, and one use of
    the lease has been consumed, which is the only change to the identity store; then every call
    that left the kernel is within that authority: a backend ran exactly the recorded request
    under the compiled confinement and meets the isolation floor and needs; a connector was only
    read, for arguments it classifies as pure, it was the registered [http] connector, called
    with what it canonicalizes the action's URL to, whose host the grant's egress domains cover,
    or the registered connector of the MCP server named, called with what it canonicalizes the
    action's arguments to; and only this branch's resources were discarded. *)
Theorem step_mediated principal branch action k :
  let k' := (execute_step principal branch action k).2 in
  same_core k k'
  \/ exists b grant db', authorized k principal branch action (clock (S (k_tick k))) b grant db'
       /\ framed k db' (event_ok k b branch principal action (grant_confinement grant)) k'.
Proof.
  cbn zeta. rewrite execute_step_unfold.
  destruct (get_branch (k_dag k) branch) as [b|e] eqn:Hb; [|by left].
  destruct (b_status b) eqn:Hs; [|by left..].
  destruct (get_principal (k_db k) principal) as [who|e] eqn:Hw; [|by left]. cbn zeta.
  pose proof (authorize_spec who principal branch action (clock (S (k_tick k))) (add_tick (add_tick k))) as Ha.
  destruct (authorize _ _ _ _ _ _) as [[[d|conf]|e] k3]; cbn [authorize_post] in Ha.
  - left. assert (same_core k k3) as Hk3 by by destruct Ha as [->| ->].
    pose proof (quiet_deny_step (mkWriter (b_episode b) (Some branch)
      (Some (id_generate "step" (uuid (k_tick k)))) principal) b (id_generate "step" (uuid (k_tick k))) who d
      (same_core k) (same_core_stable k) k3 Hk3) as Hd.
    by destruct (deny_step _ _ _ _ _ _) as [[a|e] k4].
  - right. destruct Ha as (lease & rule & grant & lease' & db' & Hl & Hc & Hf & He & -> & Hu & ->).
    exists b, grant, db'. split.
    + split; [done|by exists lease|by eexists who, rule, _|by exists lease'].
    + match goal with |- framed _ _ _ (?m ?st).2 =>
        pose proof (keeps_dispatch k db' b branch principal action (grant_confinement grant)
          (mkWriter (b_episode b) (Some branch) (Some (id_generate "step" (uuid (k_tick k)))) principal)
          (id_generate "step" (uuid (k_tick k))) st (framed_add_tick k db' _)) as Hd
      end.
      by destruct (dispatch _ _ _ _ _ _ _ _) as [[a|e] k4].
  - left. by destruct Ha as [->| ->].
Qed.
End safety.
