(* ===== verification/KernelTransition.v ===== *)
(** The state transition of a step: a step that returns has either been denied
    and left the world state as it was, or advanced the branch by exactly one
    state. *)

From stdpp Require Import pretty.
From S2P Require Import Prelude Json Budget Glob Capability Types Canonical IdentityDb Registry.
From S2P Require Import LeaseStore Delegation Policy Router Scheduler Effect Ledger Broker Snapshot.
From S2P Require Import Dag Path Workspace B64 Utf8 Observation KernelText Kernel KernelStep.
From S2P Require Import KernelLogic KernelSafety.

Open Scope Z_scope.

Section transition.
Context {B : Type} `{!Backend B, !RouterDebug, !World B}.
Context `{!Serde, !Sha256, !TimeJson, !JsonText, !DeltaSerde, !TimeText, !Chrono, !ManifestSerde}.
Context `{!ReceiptSigner, !ErrorDisplay, !KernelDisplay, !PathsDebug, !StepSerde}.

Implicit Types (k : Kernel B) (P : Kernel B -> Prop).

(** * Returns *)

(** Only returned results matter here. *)
Abbreviation returns P m Q := (triple P m Q (fun _ => True)).

Lemma returns_quiet {A A'} P (m : K B A) (f : A -> K B A') Q :
  stable P -> quiet m -> (forall a, returns P (f a) Q) -> returns P (m ≫= f) Q.
Proof.
  intros HP Hm Hf. eapply triple_bind; [|exact Hf]. eapply triple_conseq; [by apply Hm|done|done|done].
Qed.

Lemma returns_weaken {A} P P' (m : K B A) Q Q' :
  returns P' m Q' -> (forall k, P k -> P' k) -> (forall a k, Q' a k -> Q a k) -> returns P m Q.
Proof. intros Hm HP HQ. by eapply triple_conseq. Qed.

(** An operation that ends by raising an error returns nothing. *)
Lemma returns_raising {A A'} P (m : K B A) (f : A -> K B A') Q :
  (forall a, returns (fun _ => True) (f a) Q) -> returns P (m ≫= f) Q.
Proof.
  intros Hf. eapply triple_bind; [|exact Hf]. intros k _. by destruct (m k) as [[a|e] k'].
Qed.

Lemma returns_record_outcome P w step cause node obs :
  stable P ->
  returns P (record_outcome w step cause node obs)
    (fun sr k => sr = mkStepResult step (node_id node) obs /\ P k).
Proof.
  intros HP. do 2 (apply returns_quiet; [done|apply quiet_record|intros ?]).
  intros k Hk. by cbn.
Qed.

Lemma returns_deny_step P w b step who denial :
  stable P ->
  returns P (deny_step w b step who denial)
    (fun sr k => (exists d, sr = mkStepResult step (head b) (ODenied d)) /\ P k).
Proof.
  intros HP. do 2 (apply returns_quiet; [done|apply quiet_record|intros ?]).
  intros k Hk. split; [by eexists|done].
Qed.

Lemma returns_deny_connector P w b step p denial :
  stable P ->
  returns P (deny_connector_step w b step p denial)
    (fun sr k => (exists d, sr = mkStepResult step (head b) (ODenied d)) /\ P k).
Proof.
  intros HP. apply returns_quiet; [done|apply quiet_principal_of|]. intros who. by apply returns_deny_step.
Qed.

(** * The DAG *)

(** The states, branches and episodes: what is not cache or blob store. *)
Definition dag_core (d : StateDag) := (states d, branches d, episodes d).

(** One state was appended to the branch. *)
Record advanced (d0 : StateDag) (b : Branch) (branch step actor : string) (node : StateNode) (d : StateDag)
    : Prop := {
  adv_states : states d = <[node_id node := node]> (states d0);
  adv_new : states d0 !! node_id node = None;
  adv_branches : branches d = set_head (branches d0) branch (node_id node);
  adv_episodes : episodes d = episodes d0;
  adv_parent : node_parent node = Some (head b);
  adv_step : produced_by node = Some step;
  adv_actor : node_actor node = actor;
  adv_branch : node_branch node = branch;
}.

Lemma append_step_advanced d0 d f branch step actor delta root rc node d' b :
  dag_core d = dag_core d0 -> load_branch (branches d0) branch = Ok b ->
  append_step d f branch step actor delta root rc = Ok (node, d') ->
  advanced d0 b branch step actor node d'.
Proof.
  intros [= Hs Hbr He] Hb. unfold append_step. rewrite Hbr, Hb. intros Ha.
  apply bind_Ok in Ha as (present & _ & Ha). apply bind_Ok in Ha as ([] & _ & Ha).
  apply bind_Ok in Ha as (b' & [= <-] & Ha). apply bind_Ok in Ha as ([] & _ & Ha).
  apply bind_Ok in Ha as (d1 & Hd & [= <- <-]). unfold append_node in Hd.
  apply bind_Ok in Hd as (sts & Hi & [= <-]). unfold insert_state in Hi.
  apply insert_row_once_Ok in Hi as [Hnone ->]. rewrite Hs in *. rewrite Hbr, He. by split.
Qed.

Section from.
Context (d0 : StateDag) (s0 : Store) (b : Branch) (branch step principal : string).
Context (Hb : load_branch (branches d0) branch = Ok b).

(** Before the state is appended: the graph as it was. *)
Definition at_base (k : Kernel B) : Prop := dag_core (k_dag k) = dag_core d0.

(** Nothing of the world state has moved. *)
Definition untouched (k : Kernel B) : Prop := k_dag k = d0 /\ k_broker k = s0.

Definition moved (node : StateNode) (k : Kernel B) : Prop :=
  advanced d0 b branch step principal node (k_dag k).

Lemma at_base_stable : stable at_base.
Proof. by intros k Hk. Qed.
Lemma untouched_stable : stable untouched.
Proof. by intros k Hk. Qed.
Lemma moved_stable node : stable (moved node).
Proof. by intros k Hk. Qed.

Lemma untouched_at_base k : untouched k -> at_base k.
Proof. unfold untouched, at_base. by intros [-> _]. Qed.

Lemma returns_dag_append delta root rc :
  returns at_base (dag_append branch step principal delta root rc) moved.
Proof.
  apply returns_quiet; [apply at_base_stable|apply quiet_fresh|]. intros f k Hk. unfold update.
  destruct (append_step _ _ _ _ _ _ _ _) as [[node d]|e] eqn:Ea; [|done].
  by eapply append_step_advanced.
Qed.

Lemma returns_snapshot rc : returns at_base (snapshot_branch branch step principal rc) moved.
Proof.
  apply returns_quiet; [apply at_base_stable|apply quiet_fresh|]. intros f k Hk. unfold update.
  destruct (snapshot_and_append _ _ _ _ _ _ _ _) as [[node|e] d] eqn:Es; [|done]. cbn.
  unfold snapshot_and_append in Es. destruct (branch_head _ _) as [h|]; [|done].
  destruct (snapshot_dir_with_cache _ _ _ _) as [[[[root m] cas'] cache']|]; [|done].
  match type of Es with (match ?x with _ => _ end = _) => destruct x as [[n d']|] eqn:Ea; [|done] end.
  injection Es as -> ->. apply bind_Ok in Ea as (old & _ & Ea).
  eapply append_step_advanced; [|done|exact Ea]. exact Hk.
Qed.

Lemma returns_materialize state : returns at_base (materialize_branch state branch) (fun _ => at_base).
Proof.
  do 2 (apply returns_quiet; [apply at_base_stable|auto with ak|intros ?]). intros k Hk. unfold update.
  unfold dag_materialize. destruct (get_state _ _) as [nd|e]; [|done].
  destruct (materialize_with_cache _ _ _ _ _ _) as [[fs c]|e]; [exact Hk|done].
Qed.

Lemma returns_apply_delta delta : returns at_base (apply_delta branch delta) (fun _ => at_base).
Proof.
  do 2 (apply returns_quiet; [apply at_base_stable|auto with ak|intros ?]). intros k Hk. unfold update.
  by destruct (apply_workspace_delta _ _ _).
Qed.

Lemma returns_discard P be br :
  stable P -> (forall k e ds, P k -> P (add_log k e) /\ P (set_dirs k ds)) ->
  returns P (discard_on be br) (fun _ => P).
Proof.
  intros HP Hset. apply returns_quiet; [done|auto with ak|]. intros n k Hk. unfold update.
  assert (P (add_log k (DiscardedOn (profile be) br))) as Hl by by apply (Hset k _ ∅).
  destruct (shares_workspace _); [by apply (Hset _ (DiscardedOn (profile be) br))|done].
Qed.

Lemma returns_sync backend delta rc :
  returns at_base (sync_transition b branch step principal backend delta rc) moved.
Proof.
  eapply triple_bind.
  { apply triple_attempt. eapply triple_bind; [apply returns_materialize|intros ?].
    eapply triple_bind; [apply returns_apply_delta|intros ?]. apply returns_snapshot. }
  intros [node|error]; cbn; [by intros k Hk|].
  apply returns_raising. intros r. apply returns_raising. intros u. by destruct r.
Qed.

(** * Results *)

(** A returned step: denied and nothing moved, or one state further. *)
Definition step_post (sr : StepResult) (k : Kernel B) : Prop :=
  sr_step sr = step
  /\ ((is_denial (sr_observation sr) = true /\ sr_state sr = head b /\ untouched k)
      \/ (is_denial (sr_observation sr) = false
          /\ exists node, sr_state sr = node_id node /\ moved node k)).

Lemma denied_post sr k :
  (exists d, sr = mkStepResult step (head b) (ODenied d)) /\ untouched k -> step_post sr k.
Proof. intros [[d ->] Hk]. split; [done|]. by left. Qed.

Lemma moved_post node obs sr k :
  is_denial obs = false -> sr = mkStepResult step (node_id node) obs /\ moved node k -> step_post sr k.
Proof. intros Ho [-> Hk]. split; [done|]. right. split; [done|]. by exists node. Qed.

Lemma returns_denied w who denial : returns untouched (deny_step w b step who denial) step_post.
Proof.
  eapply returns_weaken; [apply returns_deny_step, untouched_stable|done|]. intros sr k. apply denied_post.
Qed.

Lemma returns_denied_connector w denial :
  returns untouched (deny_connector_step w b step principal denial) step_post.
Proof.
  eapply returns_weaken; [apply returns_deny_connector, untouched_stable|done|]. intros sr k. apply denied_post.
Qed.

(** From an appended state to the result. *)
Lemma returns_append_outcome w cause delta root rc obs :
  is_denial obs = false ->
  returns at_base (node ← dag_append branch step principal delta root rc;
                   record_outcome w step cause node obs) step_post.
Proof.
  intros Ho. eapply triple_bind; [apply returns_dag_append|]. intros node.
  eapply returns_weaken; [apply returns_record_outcome, moved_stable|done|]. intros sr k. by apply moved_post.
Qed.

Lemma returns_metadata w action obs :
  is_denial obs = false -> returns at_base (finish_metadata_step w branch step principal action obs) step_post.
Proof.
  intros Ho. do 3 (apply returns_quiet; [apply at_base_stable|auto with ak|intros ?]).
  by apply returns_append_outcome.
Qed.

Lemma returns_propose w action c op params :
  returns at_base (propose_connector_op w b branch step principal action c op params) step_post.
Proof.
  apply returns_quiet; [apply at_base_stable|auto with ak|intros kc].
  apply returns_quiet; [apply at_base_stable|destruct kc; auto with ak|intros class].
  do 3 (apply returns_quiet; [apply at_base_stable|auto with ak|intros ?]).
  eapply (triple_bind _ _ (fun _ => at_base)).
  { intros k Hk. unfold on_broker. by destruct (propose _ _ _ _ _ _ _ _ _) as [[e'|e'] st]. }
  intros effect. do 4 (apply returns_quiet; [apply at_base_stable|auto with ak|intros ?]).
  by apply returns_append_outcome.
Qed.

(** A read is an observation, never a denial. *)
Lemma returns_read_observation op ms r :
  returns at_base (read_observation op ms r) (fun obs k => is_denial obs = false /\ at_base k).
Proof.
  destruct r as [[v]|e]; cbn [read_observation].
  - destruct (shape_read_response _) as [raw data].
    apply returns_quiet; [apply at_base_stable|auto with ak|intros ?]. intros k Hk. by cbn.
  - apply returns_quiet; [apply at_base_stable|auto with ak|intros ?]. intros k Hk. by cbn.
Qed.

Lemma returns_read w action c op resource args :
  returns at_base (execute_read_via_connector w b branch step principal action c op resource args) step_post.
Proof.
  do 2 (apply returns_quiet; [apply at_base_stable|auto with ak|intros ?]).
  eapply (triple_bind _ _ (fun _ => at_base)); [by intros k Hk|intros outcome].
  apply returns_quiet; [apply at_base_stable|auto with ak|intros t1].
  eapply triple_bind; [apply returns_read_observation|intros obs]. apply triple_pure. intros Ho.
  do 2 (apply returns_quiet; [apply at_base_stable|auto with ak|intros ?]).
  by apply returns_append_outcome.
Qed.

Lemma returns_http w action url egress :
  returns untouched (execute_http_read w b branch step principal action url egress) step_post.
Proof.
  apply returns_quiet; [apply untouched_stable|auto with ak|intros [c|]]; [|apply returns_denied_connector].
  destruct (canonicalize _ _ _) as [canon|e]; [|apply returns_denied_connector].
  cbv zeta. destruct (existsb _ _); cbn [negb]; [|apply returns_denied_connector].
  case_decide; (eapply returns_weaken; [|apply untouched_at_base|done]);
    [apply returns_read|apply returns_propose].
Qed.

Lemma returns_mcp w action server tool args :
  returns untouched (execute_mcp_invoke w b branch step principal action server tool args) step_post.
Proof.
  apply returns_quiet; [apply untouched_stable|auto with ak|intros [c|]].
  2:{ apply returns_quiet; [apply untouched_stable|auto with ak|intros k]. apply returns_denied_connector. }
  cbv zeta. destruct (canonicalize _ _ _) as [canon|e]; [|apply returns_denied_connector].
  case_decide; (eapply returns_weaken; [|apply untouched_at_base|done]);
    [apply returns_read|apply returns_propose].
Qed.

(** * Scheduled execution *)

Lemma untouched_discard be br : returns untouched (discard_on be br) (fun _ => untouched).
Proof. apply returns_discard; [apply untouched_stable|]. by intros k e ds Hk. Qed.

Lemma returns_schedule episode req risk needs :
  triple untouched (schedule_step episode step req risk needs) (fun _ => untouched) untouched.
Proof.
  eapply triple_bind; [apply quiet_tick, untouched_stable|]. intros n k Hk. unfold update.
  destruct (Scheduler.execute_step _ _ _ _ _ _ _ _ _) as [r s].
  assert (forall k', untouched k' -> match lift r k' with
    | (Ok _, k'') => untouched k'' | (Err _, k'') => untouched k'' end) as Hl by (intros k' Hk'; by destruct r).
  apply Hl. destruct (scheduled_backend _ _ _ _ _ _) as [be|]; [|done]. by destruct (shares_workspace _).
Qed.

Lemma returns_local_transition writable outcome p backend :
  returns untouched (local_transition b branch step principal writable outcome p backend)
    (fun r k => match r with inl _ => untouched k | inr node => moved node k end).
Proof.
  assert (forall m, returns at_base m moved ->
    returns untouched (node ← m; mret (inr (A := Denial) node))
      (fun r k => match r with inl _ => untouched k | inr node => moved node k end)) as Hnode.
  { intros m Hm. eapply triple_bind; [eapply returns_weaken; [exact Hm|apply untouched_at_base|done]|].
    by intros node k Hk. }
  unfold local_transition. destruct (shares_workspace p); [apply Hnode, returns_snapshot|].
  destruct (syncs_state p).
  - destruct (workspace_delta outcome) as [delta|]; [|by intros k _].
    destruct (validate_workspace_delta _ _ _) as [u|d]; [apply Hnode, returns_sync|].
    eapply triple_bind; [apply untouched_discard|]. by intros u k Hk.
  - apply Hnode. do 2 (apply returns_quiet; [apply at_base_stable|auto with ak|intros ?]).
    apply returns_dag_append.
Qed.

Lemma local_observation_no_denial op p outcome node full :
  is_denial (local_observation op p outcome node full) = false.
Proof. unfold local_observation. by destruct (exit_code outcome =? 0). Qed.

Lemma returns_execute_local w action conf :
  returns untouched (execute_local w b branch step principal action conf) step_post.
Proof.
  apply returns_quiet; [apply untouched_stable|auto with ak|intros tool].
  eapply triple_bind.
  { eapply triple_conseq; [apply triple_attempt, returns_schedule|done|intros r k Hk; exact Hk|done]. }
  intros [[[outcome p] backend]|e].
  2:{ destruct e; try apply returns_denied_connector; try (by intros k _).
      destruct (String.eqb _ _); [apply returns_denied_connector|by intros k _]. }
  cbv beta iota. destruct (contract_ok p outcome); cbn [negb].
  2:{ eapply triple_bind; [apply untouched_discard|intros u]. apply returns_denied_connector. }
  eapply triple_bind; [apply returns_local_transition|]. intros [d|node]; [apply returns_denied_connector|].
  do 3 (apply returns_quiet; [apply moved_stable|auto with ak|intros ?]).
  intros k Hk. eapply moved_post; [apply local_observation_no_denial|]. split; [reflexivity|done].
Qed.

Lemma returns_dispatch w action conf :
  returns untouched (dispatch w b branch step principal action conf) step_post.
Proof.
  assert (forall m : K B StepResult, returns at_base m step_post -> returns untouched m step_post) as Hbase.
  { intros m Hm. eapply returns_weaken; [exact Hm|apply untouched_at_base|done]. }
  unfold dispatch. destruct (action_kind action); try apply returns_execute_local.
  - apply returns_http.
  - apply returns_mcp.
  - apply Hbase, returns_propose.
  - apply Hbase. do 3 (apply returns_quiet; [apply at_base_stable|auto with ak|intros ?]).
    by apply returns_metadata.
  - apply Hbase. do 2 (apply returns_quiet; [apply at_base_stable|auto with ak|intros ?]).
    by apply returns_metadata.
Qed.
End from.

(** A step that returned came out of its denial or of its dispatch, with the graph, the
    effects and the ledger as they were when it was called, and the leases too or one use short. *)
Lemma execute_step_returns principal branch action k sr k' :
  execute_step principal branch action k = (Ok sr, k') ->
  exists b step m k3,
    get_branch (k_dag k) branch = Ok b /\ b_status b = Active
    /\ (let w := mkWriter (b_episode b) (Some branch) (Some step) principal in
        (exists who d, m = deny_step w b step who d /\ k_db k3 = k_db k)
        \/ (exists conf l t, m = dispatch w b branch step principal action conf
              /\ consume_use (k_db k) (action_lease action) t = (Ok l, k_db k3)))
    /\ k_dag k3 = k_dag k /\ k_broker k3 = k_broker k /\ k_ledger k3 = k_ledger k
    /\ m k3 = (Ok sr, k').
Proof.
  rewrite execute_step_unfold. destruct (get_branch (k_dag k) branch) as [b|e] eqn:Hb; [|done].
  destruct (b_status b) eqn:Hs; [|done..].
  destruct (get_principal (k_db k) principal) as [who|e] eqn:Hw; [|done]. cbn zeta.
  pose proof (authorize_spec who principal branch action (clock (S (k_tick k))) (add_tick (add_tick k))) as Ha.
  destruct (authorize _ _ _ _ _ _) as [[[d|conf]|e] k3]; cbn [authorize_post] in Ha; [| |done];
    intros Hm; do 2 eexists; eexists; exists k3; (split_and!; [reflexivity|done| | | | |exact Hm]).
  1: left; do 2 eexists; split; [done|by destruct Ha as [->| ->]].
  1-3: by destruct Ha as [->| ->].
  all: destruct Ha as (lease & rule & grant & lease' & db' & _ & _ & _ & _ & _ & Hu & ->); try done.
  right. by do 3 eexists.
Qed.

(** What it ran, under the step it reports, and what that established. *)
Lemma returned_post principal branch action k sr k' :
  execute_step principal branch action k = (Ok sr, k') ->
  exists b m k3,
    get_branch (k_dag k) branch = Ok b /\ b_status b = Active
    /\ (let w := mkWriter (b_episode b) (Some branch) (Some (sr_step sr)) principal in
        (exists who d, m = deny_step w b (sr_step sr) who d /\ k_db k3 = k_db k)
        \/ (exists conf l t, m = dispatch w b branch (sr_step sr) principal action conf
              /\ consume_use (k_db k) (action_lease action) t = (Ok l, k_db k3)))
    /\ k_ledger k3 = k_ledger k /\ k_broker k3 = k_broker k /\ m k3 = (Ok sr, k')
    /\ step_post (k_dag k) (k_broker k) b branch (sr_step sr) principal sr k'.
Proof.
  intros Hrun. apply execute_step_returns in Hrun
    as (b & step & m & k3 & Hb & Hact & Hm & Hd & Hbr & Hl & Heq).
  assert (returns (untouched (k_dag k) (k_broker k)) m
            (step_post (k_dag k) (k_broker k) b branch step principal)) as Hpost.
  { destruct Hm as [(who & d & -> & _)|(conf & l & t & -> & _)]; [apply returns_denied|by apply returns_dispatch]. }
  specialize (Hpost k3 (conj Hd Hbr)). rewrite Heq in Hpost. exists b, m, k3.
  rewrite (proj1 Hpost). by split_and!.
Qed.

(** * Properties *)

(** C2: A step is an atomic transition of the world state: when it returns, either its
    observation is a denial, it names the unchanged branch head, and neither the state graph
    nor any external effect has changed; or exactly one new state was appended, produced by
    this step and its principal on this branch, whose parent is the head the step started
    from, it is the branch's new head, and every other state and branch is as before. *)
Theorem step_transition principal branch action k sr k' :
  execute_step principal branch action k = (Ok sr, k') ->
  exists b, get_branch (k_dag k) branch = Ok b /\ b_status b = Active
    /\ ((is_denial (sr_observation sr) = true /\ sr_state sr = head b
          /\ k_dag k' = k_dag k /\ k_broker k' = k_broker k)
        \/ (is_denial (sr_observation sr) = false
            /\ exists node, sr_state sr = node_id node
                 /\ advanced (k_dag k) b branch (sr_step sr) principal node (k_dag k'))).
Proof.
  intros Hrun. apply returned_post in Hrun as (b & m & k3 & Hb & Hact & _ & _ & _ & _ & _ & Hpost).
  exists b.
  split_and!; [done|done|]. destruct Hpost as [(Hd & Hh & Hk1 & Hk2)|(Hd & node & Hn & Hm)].
  - left. by split_and!.
  - right. split; [done|]. by exists node.
Qed.
End transition.
