(* ===== verification/KernelTrace.v ===== *)
(** The trace of a step: every step that returns has left its causal chain in
    the ledger. *)

From stdpp Require Import pretty.
From S2P Require Import Prelude Json Budget Glob Capability Types Canonical IdentityDb Registry.
From S2P Require Import LeaseStore Delegation Policy Router Scheduler Effect Ledger Broker Snapshot.
From S2P Require Import Dag Path Workspace B64 Utf8 Observation KernelText Kernel KernelStep.
From S2P Require Import KernelLogic KernelSafety KernelTransition.

Open Scope Z_scope.

Section trace.
Context {B : Type} `{!Backend B, !RouterDebug, !World B}.
Context `{!Serde, !Sha256, !TimeJson, !JsonText, !DeltaSerde, !TimeText, !Chrono, !ManifestSerde}.
Context `{!ReceiptSigner, !ErrorDisplay, !KernelDisplay, !PathsDebug, !StepSerde}.

Implicit Types (k : Kernel B).

Abbreviation returns P m Q := (triple P m Q (fun _ => True)).

(** * Operations that record no event *)

Definition silent {A} (m : K B A) : Prop :=
  forall k, events (k_ledger (m k).2) = events (k_ledger k) /\ k_broker (m k).2 = k_broker k.

Lemma silent_ret {A} (a : A) : silent (mret a).
Proof. done. Qed.

Lemma silent_bind {A A'} (m : K B A) (f : A -> K B A') : silent m -> (forall a, silent (f a)) -> silent (m ≫= f).
Proof.
  intros Hm Hf k. unfold mbind, K_bind. specialize (Hm k). destruct (m k) as [[a|e] k']; [|done].
  destruct (Hf a k') as [-> ->]. exact Hm.
Qed.

Lemma silent_attempt {A} (m : K B A) : silent m -> silent (attempt m).
Proof. intros Hm k. specialize (Hm k). unfold attempt. by destruct (m k) as [[a|[e|]] k']. Qed.

Lemma silent_raise {A} e : silent (raise (A := A) e).
Proof. done. Qed.

Lemma silent_panic {A} : silent (panic (A := A)).
Proof. done. Qed.

Lemma silent_lift {A} (r : KernelResult A) : silent (lift r).
Proof. by destruct r. Qed.

Lemma silent_lift_identity {A} (r : IdentityResult A) : silent (lift_identity r).
Proof. by destruct r. Qed.

Lemma silent_get : silent get.
Proof. done. Qed.

Lemma silent_tick : silent tick.
Proof. done. Qed.

Lemma silent_now : silent now.
Proof. apply silent_bind; [apply silent_tick|done]. Qed.

Lemma silent_generate p : silent (generate p).
Proof. apply silent_bind; [apply silent_tick|done]. Qed.

Lemma silent_fresh : silent draw_fresh.
Proof. repeat (apply silent_bind; [apply silent_generate || apply silent_now|intros ?]). done. Qed.

Lemma silent_put_raw bytes : silent (put_raw bytes).
Proof.
  intros k. unfold put_raw, store_raw. by destruct (raw_outputs _ !! _).
Qed.

Hint Resolve silent_ret silent_raise silent_panic silent_lift silent_lift_identity silent_get silent_tick
  silent_now silent_generate silent_fresh silent_put_raw silent_attempt : ak.

Lemma silent_dag_append branch step actor delta root rc :
  silent (dag_append branch step actor delta root rc).
Proof.
  apply silent_bind; [auto with ak|]. intros f k. unfold update.
  by destruct (append_step _ _ _ _ _ _ _ _) as [[node d]|e].
Qed.

Lemma silent_materialize state branch : silent (materialize_branch state branch).
Proof.
  do 2 (apply silent_bind; [auto with ak|intros ?]). intros k. unfold update.
  by destruct (dag_materialize _ _ _ _ _ _) as [[fs|e] d].
Qed.

Lemma silent_snapshot branch step actor rc : silent (snapshot_branch branch step actor rc).
Proof.
  apply silent_bind; [auto with ak|]. intros f k. unfold update.
  by destruct (snapshot_and_append _ _ _ _ _ _ _ _) as [[n|e] d].
Qed.

Lemma silent_apply_delta branch delta : silent (apply_delta branch delta).
Proof.
  do 2 (apply silent_bind; [auto with ak|intros ?]). intros k. unfold update.
  by destruct (apply_workspace_delta _ _ _).
Qed.

Lemma silent_discard b branch : silent (discard_on b branch).
Proof. apply silent_bind; [auto with ak|]. intros n k. unfold update. by destruct (shares_workspace _). Qed.

Lemma silent_schedule episode step req risk needs : silent (schedule_step episode step req risk needs).
Proof.
  apply silent_bind; [auto with ak|]. intros n k. unfold update.
  destruct (Scheduler.execute_step _ _ _ _ _ _ _ _ _) as [r s].
  assert (forall k', (lift r k').2 = k') as Hl by (intros k'; by destruct r).
  rewrite Hl. destruct (scheduled_backend _ _ _ _ _ _) as [b|]; [|done]. by destruct (shares_workspace _).
Qed.

Hint Resolve silent_dag_append silent_materialize silent_snapshot silent_apply_delta
  silent_discard silent_schedule : ak.

Lemma silent_sync b branch step principal backend delta rc :
  silent (sync_transition b branch step principal backend delta rc).
Proof.
  apply silent_bind.
  { apply silent_attempt. do 2 (apply silent_bind; [auto with ak|intros ?]). auto with ak. }
  intros [node|error]; [auto with ak|]. do 2 (apply silent_bind; [auto with ak|intros ?]). by destruct a.
Qed.

Lemma silent_local_transition b branch step principal writable outcome p backend :
  silent (local_transition b branch step principal writable outcome p backend).
Proof.
  unfold local_transition. destruct (shares_workspace p); [apply silent_bind; auto with ak|].
  destruct (syncs_state p).
  - destruct (workspace_delta outcome) as [delta|]; [|auto with ak].
    destruct (validate_workspace_delta _ _ _); apply silent_bind; auto using silent_sync with ak.
  - apply silent_bind; [|auto with ak]. do 2 (apply silent_bind; [auto with ak|intros ?]). auto with ak.
Qed.

Lemma silent_read_observation op ms r : silent (read_observation op ms r).
Proof.
  destruct r as [[v]|e]; cbn [read_observation]; [destruct (shape_read_response _)|];
    (apply silent_bind; auto with ak).
Qed.

Lemma silent_branch_diff branch since : silent (branch_diff branch since).
Proof. do 2 (apply silent_bind; [auto with ak|intros ?]). auto with ak. Qed.

(** * Recording *)

Lemma numbered_snoc rows r : numbered rows -> row_seq r = Z.of_nat (length rows) + 1 -> numbered (rows ++ [r]).
Proof.
  intros Hn Hr i q Hq. apply lookup_app_Some in Hq as [Hq|[Hle Hq]]; [by apply Hn|].
  apply list_lookup_singleton_Some in Hq as [Hi ->]. rewrite Hr. f_equal. lia.
Qed.

Lemma append_at_end l t ne e l' :
  numbered (events l) -> Z.of_nat (length (events l)) + 1 <= i64_max ->
  append l t ne = (Ok e, l') ->
  events l' = events l ++ [row_of_event e] /\ numbered (events l')
  /\ ev_kind (body e) = ne_kind ne /\ ev_caused_by (body e) = ne_caused_by ne
  /\ ev_payload (body e) = ne_payload ne
  /\ ev_episode (body e) = ne_episode ne /\ ev_branch (body e) = ne_branch ne
  /\ ev_step (body e) = ne_step ne /\ ev_principal (body e) = ne_principal ne.
Proof.
  intros Hn Hl. unfold append.
  destruct (last (events l)) as [r|] eqn:El.
  - rewrite (numbered_last _ _ Hn El), wrap_i64_id by (unfold i64_ok, i64_max in *; apply andb_true_iff; lia).
    match goal with |- context [insert_row ?x _] => set (row := x) end.
    rewrite (insert_row_end _ row Hn) by done. intros [= <- <-]. cbn.
    split_and!; try done. by apply numbered_snoc.
  - apply last_None in El. rewrite El in *. cbn [insert_row]. intros [= <- <-]. cbn.
    split_and!; try done. intros i q Hq. by apply list_lookup_singleton_Some in Hq as [-> <-].
Qed.

(** An operation whose returned state is in the graph. *)
Definition stores (m : K B StateNode) : Prop :=
  forall k, match m k with (Ok n, k') => states (k_dag k') !! node_id n = Some n | _ => True end.

Lemma append_step_stores d f branch step actor delta root rc node d' :
  append_step d f branch step actor delta root rc = Ok (node, d') -> states d' !! node_id node = Some node.
Proof.
  intros Ha. destruct (load_branch (branches d) branch) as [b|e] eqn:Hb.
  - rewrite (adv_states _ _ _ _ _ _ _ (append_step_advanced _ _ _ _ _ _ _ _ _ _ _ _ eq_refl Hb Ha)).
    apply lookup_insert_eq.
  - unfold append_step in Ha. apply bind_Ok in Ha as (present & _ & Ha).
    apply bind_Ok in Ha as ([] & _ & Ha). by rewrite Hb in Ha.
Qed.

Lemma stores_bind {A} (m : K B A) f : (forall a, stores (f a)) -> stores (m ≫= f).
Proof. intros Hf k. unfold mbind, K_bind. destruct (m k) as [[a|e] k']; [apply Hf|done]. Qed.

Lemma stores_dag_append branch step actor delta root rc : stores (dag_append branch step actor delta root rc).
Proof.
  apply stores_bind. intros f k. unfold update.
  destruct (append_step _ _ _ _ _ _ _ _) as [[node d]|e] eqn:Ea; [|done]. by eapply append_step_stores.
Qed.

Lemma stores_snapshot branch step actor rc : stores (snapshot_branch branch step actor rc).
Proof.
  apply stores_bind. intros f k. unfold update.
  destruct (snapshot_and_append _ _ _ _ _ _ _ _) as [[node|e] d] eqn:Es; [|done]. cbn.
  unfold snapshot_and_append in Es. destruct (branch_head _ _) as [h|]; [|done].
  destruct (snapshot_dir_with_cache _ _ _ _) as [[[[root m] cas'] cache']|]; [|done].
  match type of Es with (match ?x with _ => _ end = _) => destruct x as [[n d']|] eqn:Ea; [|done] end.
  injection Es as -> ->. apply bind_Ok in Ea as (old & _ & Ea). by eapply append_step_stores.
Qed.

Lemma stores_attempt m f :
  stores m -> (forall n, f (Ok n) = mret n) -> (forall e, stores (f (Err e))) -> stores (attempt m ≫= f).
Proof.
  intros Hm Hok Herr k. specialize (Hm k). unfold mbind, K_bind, attempt.
  destruct (m k) as [[n|[e|]] k']; [by rewrite Hok|apply Herr|done].
Qed.

Lemma stores_sync b branch step principal backend delta rc :
  stores (sync_transition b branch step principal backend delta rc).
Proof.
  apply stores_attempt; [do 2 (apply stores_bind; intros ?); apply stores_snapshot|done|].
  intros e. do 2 (apply stores_bind; intros ?). by destruct a.
Qed.

Lemma stores_local b branch step principal writable outcome p backend k :
  match local_transition b branch step principal writable outcome p backend k with
  | (Ok (inr n), k') => states (k_dag k') !! node_id n = Some n
  | _ => True
  end.
Proof.
  assert (forall m, stores m -> match (node ← m; mret (inr (A := Denial) node)) k with
    | (Ok (inr n), k') => states (k_dag k') !! node_id n = Some n | _ => True end) as Hnode.
  { intros m Hm. unfold mbind, K_bind. specialize (Hm k). by destruct (m k) as [[n|e] k']. }
  unfold local_transition. destruct (shares_workspace p); [apply Hnode, stores_snapshot|].
  destruct (syncs_state p).
  - destruct (workspace_delta outcome) as [delta|]; [|done].
    destruct (validate_workspace_delta _ _ _) as [u|d]; [apply Hnode, stores_sync|].
    unfold mbind, K_bind. by destruct (discard_on _ _ _) as [[]].
  - apply Hnode. do 2 (apply stores_bind; intros ?). apply stores_dag_append.
Qed.

Section from.
Context (rows0 : list EventRow) (w : EventWriter).
Context (Hnum : numbered rows0) (Hroom : Z.of_nat (length rows0) + 4 <= i64_max).

Definition attributed (e : LedgerEvent) : Prop :=
  ev_episode (body e) = w_episode w /\ ev_branch (body e) = w_branch w
  /\ ev_step (body e) = w_step w /\ ev_principal (body e) = w_principal w.

(** The events recorded so far, in order, and the effects of the broker. *)
Definition traced (st : Store) (evs : list LedgerEvent) (k : Kernel B) : Prop :=
  events (k_ledger k) = rows0 ++ map row_of_event evs /\ numbered (events (k_ledger k))
  /\ Forall attributed evs /\ k_broker k = st.

Lemma traced_same st evs k k' :
  events (k_ledger k') = events (k_ledger k) /\ k_broker k' = k_broker k -> traced st evs k -> traced st evs k'.
Proof. intros [He Hb]. unfold traced. by rewrite He, Hb. Qed.

Lemma traced_silent {A A'} (m : K B A) (f : A -> K B A') st evs Q :
  silent m -> (forall a, returns (traced st evs) (f a) Q) -> returns (traced st evs) (m ≫= f) Q.
Proof.
  intros Hm Hf. eapply triple_bind; [|exact Hf]. intros k Hk. specialize (Hm k).
  destruct (m k) as [[a|e] k']; [|done]. by eapply traced_same.
Qed.

Definition recorded (kind : EventKind) (payload : Value) (caused : list Z) (e : LedgerEvent) : Prop :=
  ev_kind (body e) = kind /\ ev_payload (body e) = payload /\ ev_caused_by (body e) = caused.

Lemma returns_record st evs kind payload caused P :
  (length evs < 4)%nat -> stable P ->
  returns (fun k => traced st evs k /\ P k) (record_event w kind payload caused)
    (fun e k => recorded kind payload caused e /\ traced st (evs ++ [e]) k /\ P k).
Proof.
  intros Hlen HP k [Hk HPk].
  pose proof (quiet_record w kind payload caused P HP k HPk) as HQ. unfold record_event in *.
  unfold mbind, K_bind, update in *. destruct (now k) as [[t|e] k1] eqn:En; [|done].
  pose proof (silent_now k) as Hs. rewrite En in Hs. apply (traced_same _ _ _ _ Hs) in Hk as (Hev & Hn & Hat & Hbr).
  destruct (record_caused_by _ _ _ _ _ _) as [[e|e] l] eqn:Er; [|done]. cbn in *.
  unfold record_caused_by in Er. apply append_at_end in Er as (Hrows & Hnum' & Hk & Hc & Hp & Ha); [|done|].
  - split; [by split_and!|]. split; [|done]. split_and!; [|done| |done].
    + cbn. by rewrite Hrows, Hev, map_app, <- app_assoc.
    + apply Forall_app. split; [done|]. apply Forall_singleton. exact Ha.
  - rewrite Hev, length_app, length_map. lia.
Qed.

(** Record, then go on knowing what was recorded. *)
Lemma returns_record_with {A} st evs kind payload caused P (f : LedgerEvent -> K B A) Q :
  (length evs < 4)%nat -> stable P ->
  (forall e, recorded kind payload caused e -> returns (fun k => traced st (evs ++ [e]) k /\ P k) (f e) Q) ->
  returns (fun k => traced st evs k /\ P k) (record_event w kind payload caused ≫= f) Q.
Proof.
  intros Hlen HP Hf. eapply triple_bind; [by apply returns_record|]. intros e. apply triple_pure. apply Hf.
Qed.

Lemma returns_record_bind {A} st evs kind payload caused (f : LedgerEvent -> K B A) Q :
  (length evs < 4)%nat ->
  (forall e, recorded kind payload caused e -> returns (traced st (evs ++ [e])) (f e) Q) ->
  returns (traced st evs) (record_event w kind payload caused ≫= f) Q.
Proof.
  intros Hlen Hf. apply (triple_conseq _ (fun k => traced st evs k /\ True) _ Q Q _ (fun _ => True)); [|done..].
  apply (returns_record_with st evs kind payload caused (fun _ => True)); [done|done|].
  intros e He k [Hk _]. by apply Hf.
Qed.

(** * The chains *)

Section chain.
Context (s0 : Store) (branch step principal : string) (action : Action).

(** The actions a backend runs. *)
Definition on_backend (kind : ActionKind) : bool :=
  match kind with
  | HttpRead _ | McpInvoke _ _ _ | ConnectorOp _ _ _ | TraceQueryAction _ | BranchDiff _ => false
  | _ => true
  end.

(** What the invocation event says, of a step that proposed no effect. *)
Definition invocation_payload : Value :=
  let call := [("action", action_value (action_kind action)); ("budget", budget_value (action_budget action))] in
  let hint := ("intent_hint", opt_str (intent_hint action)) in
  let lease := ("lease", Str (action_lease action)) in
  match action_kind action with
  | HttpRead _ | McpInvoke _ _ _ => Object (call ++ [hint; lease; ("plane", Str "observation")])
  | TraceQueryAction _ | BranchDiff _ => Object (call ++ [lease])
  | _ => Object (call ++ [hint; lease])
  end.

Lemma invocation_read :
  match action_kind action with HttpRead _ | McpInvoke _ _ _ => True | _ => False end ->
  invocation_payload
  = match tool_payload action with Object m => Object (m ++ [("plane", Str "observation")]) | v => v end.
Proof. unfold invocation_payload, tool_payload. by destruct (action_kind action). Qed.

Lemma invocation_metadata :
  match action_kind action with TraceQueryAction _ | BranchDiff _ => True | _ => False end ->
  invocation_payload
  = Object [("action", action_value (action_kind action)); ("budget", budget_value (action_budget action));
            ("lease", Str (action_lease action))].
Proof. unfold invocation_payload. by destruct (action_kind action). Qed.

Lemma invocation_local : on_backend (action_kind action) = true -> invocation_payload = tool_payload action.
Proof. unfold invocation_payload, tool_payload. by destruct (action_kind action). Qed.

(** A denial and its observation, after the invocation it stopped if [late]. *)
Definition denial_chain (late : bool) (denial : Denial) (evs : list LedgerEvent) : Prop :=
  exists pre d o, evs = pre ++ [d; o]
    /\ (if late then exists tool, pre = [tool] /\ recorded KToolInvocation (tool_payload action) [] tool
        else pre = [])
    /\ recorded KDenialIssued (denial_value denial) [] d
    /\ recorded KObservationEmitted
         (Object [("code", code_value (denial_code denial)); ("kind", Str "denied")]) [seq_of d] o.

(** The effect of an [EffectPending] observation, new in the store. *)
Definition new_effect (id hash : string) (class : EffectClass) (st : Store) : Prop :=
  exists row, effects st = effects s0 ++ [(id, row)] /\ im_get id (effects s0) = None
    /\ effect_id (er_json row) = id /\ effect_contract_hash (er_json row) = hash
    /\ ec_class (contract (er_json row)) = class /\ phase (er_json row) = Proposed
    /\ proposer (er_json row) = principal /\ effect_branch (er_json row) = branch
    /\ effect_step (er_json row) = step /\ effect_lease (er_json row) = action_lease action.

(** Invocation, proposal of the effect if there is one, state delta, observation: each citing
    the one before. *)
Definition step_chain (sr : StepResult) (evs : list LedgerEvent) (k : Kernel B) : Prop :=
  exists tool mid cause delta o node, evs = tool :: mid ++ [delta; o]
    /\ sr_state sr = node_id node /\ states (k_dag k) !! node_id node = Some node
    /\ recorded KStateDeltaRecorded (delta_payload node) [seq_of cause] delta
    /\ recorded KObservationEmitted (observation_value (sr_observation sr)) [seq_of delta] o
    /\ match sr_observation sr with
       | EffectPending id hash class =>
           mid = [cause] /\ recorded KToolInvocation (tool_payload action) [] tool
           /\ recorded KEffectProposed
                (Object [("class", Str (class_str class)); ("contract_hash", Str hash); ("effect_id", Str id)])
                [seq_of tool] cause
           /\ new_effect id hash class (k_broker k)
       | _ => mid = [] /\ cause = tool /\ recorded KToolInvocation invocation_payload [] tool /\ k_broker k = s0
       end.

Definition trace_post (late : bool) (sr : StepResult) (k : Kernel B) : Prop :=
  exists st evs, traced st evs k
    /\ match sr_observation sr with
       | ODenied denial => denial_chain late denial evs
       | _ => step_chain sr evs k
       end.

(** The start of a chain: nothing yet, or the invocation. *)
Definition begun (late : bool) (pre : list LedgerEvent) : Prop :=
  if late then exists tool, pre = [tool] /\ recorded KToolInvocation (tool_payload action) [] tool else pre = [].

Lemma begun_length late pre : begun late pre -> (length pre < 2)%nat.
Proof. destruct late; [intros (t & -> & _)|intros ->]; cbn; lia. Qed.

Lemma trace_deny st late pre b who denial :
  begun late pre -> returns (traced st pre) (deny_step w b step who denial) (trace_post late).
Proof.
  intros Hpre. pose proof (begun_length _ _ Hpre) as Hlen. unfold deny_step. cbv zeta.
  apply returns_record_bind; [lia|]. intros d Hd.
  apply returns_record_bind; [rewrite length_app; cbn; lia|]. intros o Ho.
  intros k Hk. cbn. exists st, ((pre ++ [d]) ++ [o]). split; [done|]. cbn.
  exists pre, d, o. rewrite <- app_assoc. by split_and!.
Qed.

Lemma trace_deny_connector st late pre b p denial :
  begun late pre -> returns (traced st pre) (deny_connector_step w b step p denial) (trace_post late).
Proof.
  intros Hpre. unfold deny_connector_step.
  apply traced_silent; [apply silent_bind; auto with ak|]. intros who. by apply trace_deny.
Qed.

Definition stored (node : StateNode) (k : Kernel B) : Prop := states (k_dag k) !! node_id node = Some node.

Lemma stored_stable node : stable (stored node).
Proof. by intros k Hk. Qed.

(** What precedes the end of an executed step whose observation is [obs]. *)
Definition chained (st : Store) (obs : Observation) (tool : LedgerEvent) (mid : list LedgerEvent)
    (cause : LedgerEvent) : Prop :=
  match obs with
  | ODenied _ => False
  | EffectPending id hash class =>
      mid = [cause] /\ recorded KToolInvocation (tool_payload action) [] tool
      /\ recorded KEffectProposed
           (Object [("class", Str (class_str class)); ("contract_hash", Str hash); ("effect_id", Str id)])
           [seq_of tool] cause
      /\ new_effect id hash class st
  | _ => mid = [] /\ cause = tool /\ recorded KToolInvocation invocation_payload [] tool /\ st = s0
  end.

Lemma chained_length st obs tool mid cause : chained st obs tool mid cause -> (length mid <= 1)%nat.
Proof. destruct obs; cbn; intros Hc; try done; destruct Hc as [-> _]; cbn; lia. Qed.

Lemma trace_end late st tool mid cause delta o node obs k :
  chained st obs tool mid cause -> traced st (tool :: mid ++ [delta; o]) k -> stored node k ->
  recorded KStateDeltaRecorded (delta_payload node) [seq_of cause] delta ->
  recorded KObservationEmitted (observation_value obs) [seq_of delta] o ->
  trace_post late (mkStepResult step (node_id node) obs) k.
Proof.
  intros Hc Hk Hn Hd Ho. exists st, (tool :: mid ++ [delta; o]). split; [done|].
  assert (k_broker k = st) as Hst by apply Hk. cbn [sr_observation].
  destruct obs; cbn in Hc; try done; exists tool, mid, cause, delta, o, node; cbn [sr_observation sr_state];
    rewrite Hst; do 5 (split; [done|]); exact Hc.
Qed.

(** The end of an executed step. *)
Lemma trace_outcome late st tool mid cause node obs :
  chained st obs tool mid cause ->
  returns (fun k => traced st (tool :: mid) k /\ stored node k)
    (record_outcome w step (seq_of cause) node obs) (trace_post late).
Proof.
  intros Hc. pose proof (chained_length _ _ _ _ _ Hc) as Hlen.
  unfold record_outcome. apply returns_record_with; [cbn; lia|apply stored_stable|]. intros delta Hd.
  apply returns_record_with; [cbn; rewrite length_app; cbn; lia|apply stored_stable|]. intros o Ho.
  intros k [Hk Hn]. cbn. apply (trace_end late st tool mid cause delta o); try done.
  cbn in Hk. by rewrite <- app_assoc in Hk.
Qed.

Lemma trace_append late st tool mid cause delta root rc obs :
  chained st obs tool mid cause ->
  returns (traced st (tool :: mid))
    (node ← dag_append branch step principal delta root rc; record_outcome w step (seq_of cause) node obs)
    (trace_post late).
Proof.
  intros Hc. eapply triple_bind; [|intros node; by apply trace_outcome].
  intros k Hk. pose proof (silent_dag_append branch step principal delta root rc k) as Hs.
  pose proof (stores_dag_append branch step principal delta root rc k) as Hn.
  destruct (dag_append _ _ _ _ _ _ k) as [[n|e] k']; [|done]. split; [by eapply traced_same|done].
Qed.

(** * Every way a step returns *)

Lemma trace_metadata late obs :
  match action_kind action with TraceQueryAction _ | BranchDiff _ => True | _ => False end ->
  match obs with ODenied _ | EffectPending _ _ _ => False | _ => True end ->
  returns (traced s0 []) (finish_metadata_step w branch step principal action obs) (trace_post late).
Proof.
  intros Hkind Hobs. do 2 (apply traced_silent; [auto with ak|intros ?]).
  apply returns_record_bind; [cbn; lia|]. intros tool Ht. rewrite <- invocation_metadata in Ht by done.
  apply (trace_append late s0 tool [] tool). by destruct obs.
Qed.

Lemma propose_new conns fresh t c who br sp ls e st' :
  propose conns s0 fresh t c who br sp ls = (Ok e, st') ->
  exists row, effects st' = effects s0 ++ [(effect_id e, row)] /\ im_get (effect_id e) (effects s0) = None
    /\ er_json row = e /\ phase e = Proposed
    /\ proposer e = who /\ effect_branch e = br /\ effect_step e = sp /\ effect_lease e = ls.
Proof.
  unfold propose. destruct (connector_for _ _) as [conn|]; [|done]. destruct (canonicalize _ _ _) as [args|]; [|done].
  cbv zeta. destruct (committed_receipt_for_key _ _); [done|]. destruct (im_get fresh _) eqn:E; [done|].
  intros [= <- <-]. eexists. by split_and!.
Qed.

Lemma trace_propose late b c op params :
  returns (traced s0 []) (propose_connector_op w b branch step principal action c op params) (trace_post late).
Proof.
  apply traced_silent; [apply silent_bind; auto with ak|intros kc].
  apply traced_silent; [destruct kc; [auto with ak|apply silent_bind; auto with ak]|intros class].
  do 3 (apply traced_silent; [auto with ak|intros ?]).
  eapply (triple_bind _ _ (fun e k => exists st,
    new_effect (effect_id e) (effect_contract_hash e) (ec_class (Effect.contract e)) st /\ traced st [] k)).
  { intros k (He & Hn & Ha & Hb). unfold on_broker. rewrite Hb.
    destruct (propose _ _ _ _ _ _ _ _ _) as [[e|e] st] eqn:Ep; [|done]. apply propose_new in Ep as (row & Ep). cbn.
    exists st. split; [exists row|by split_and!]. destruct Ep as (? & ? & -> & ? & ? & ? & ? & ?). by split_and!. }
  intros effect. apply triple_exists. intros st. apply triple_pure. intros Hnew.
  apply returns_record_bind; [cbn; lia|]. intros tool Ht.
  apply returns_record_bind; [cbn; lia|]. intros proposed Hp.
  do 2 (apply traced_silent; [auto with ak|intros ?]).
  by apply (trace_append late st tool [proposed] proposed).
Qed.

Lemma read_observation_plain op ms r k :
  match read_observation op ms r k with
  | (Ok (ODenied _), _) | (Ok (EffectPending _ _ _), _) => False
  | _ => True
  end.
Proof.
  destruct r as [[v]|e]; cbn [read_observation]; [destruct (shape_read_response _)|];
    unfold mbind, K_bind; by destruct (put_raw _ _) as [[]].
Qed.

Lemma trace_read late b c op resource args :
  match action_kind action with HttpRead _ | McpInvoke _ _ _ => True | _ => False end ->
  returns (traced s0 []) (execute_read_via_connector w b branch step principal action c op resource args)
    (trace_post late).
Proof.
  intros Hkind. apply returns_record_bind; [cbn; lia|]. intros tool Ht. cbn [app]. rewrite <- invocation_read in Ht by done.
  apply traced_silent; [auto with ak|intros t0].
  apply traced_silent; [done|intros outcome]. apply traced_silent; [auto with ak|intros t1].
  eapply (triple_bind _ _ (fun obs k =>
    match obs with ODenied _ | EffectPending _ _ _ => False | _ => True end /\ traced s0 [tool] k)).
  { intros k Hk. pose proof (silent_read_observation op ((t1 - t0) / 1000000) outcome k) as Hs.
    pose proof (read_observation_plain op ((t1 - t0) / 1000000) outcome k) as Hd.
    destruct (read_observation _ _ _ _) as [[obs|e] k']; [|done]. split; [by destruct obs|]. by eapply traced_same. }
  intros obs. apply triple_pure. intros Hobs. do 2 (apply traced_silent; [auto with ak|intros ?]).
  apply (trace_append late s0 tool [] tool). by destruct obs.
Qed.

Lemma trace_http b url egress :
  action_kind action = HttpRead url ->
  returns (traced s0 []) (execute_http_read w b branch step principal action url egress) (trace_post false).
Proof.
  intros Hkind. apply traced_silent; [apply silent_bind; auto with ak|]. intros [c|]; [|by apply (trace_deny_connector _ _ [])].
  destruct (canonicalize _ _ _) as [canon|e]; [|by apply (trace_deny_connector _ _ [])].
  cbv zeta. destruct (existsb _ _); cbn [negb]; [|by apply (trace_deny_connector _ _ [])].
  case_decide; [apply trace_read; by rewrite Hkind|apply trace_propose].
Qed.

Lemma trace_mcp b server tool args :
  action_kind action = McpInvoke server tool args ->
  returns (traced s0 []) (execute_mcp_invoke w b branch step principal action server tool args) (trace_post false).
Proof.
  intros Hkind. apply traced_silent; [apply silent_bind; auto with ak|]. intros [c|].
  2:{ apply traced_silent; [auto with ak|intros k]. by apply trace_deny_connector. }
  cbv zeta. destruct (canonicalize _ _ _) as [canon|e]; [|by apply (trace_deny_connector _ _ [])].
  case_decide; [apply trace_read; by rewrite Hkind|apply trace_propose].
Qed.

Lemma local_observation_plain op p outcome node full :
  match local_observation op p outcome node full with ODenied _ | EffectPending _ _ _ => False | _ => True end.
Proof. unfold local_observation. by destruct (exit_code outcome =? 0). Qed.

Lemma trace_local b conf :
  on_backend (action_kind action) = true ->
  returns (traced s0 []) (execute_local w b branch step principal action conf) (trace_post true).
Proof.
  intros Hkind. apply returns_record_bind; [cbn; lia|]. intros tool Ht. cbn [app].
  assert (begun true [tool]) as Hpre by by exists tool.
  apply traced_silent; [auto with ak|]. intros [[[outcome p] backend]|e].
  2:{ destruct e; try (by apply trace_deny_connector); try (by intros k _).
      destruct (String.eqb _ _); [by apply trace_deny_connector|by intros k _]. }
  cbv beta iota. destruct (contract_ok p outcome); cbn [negb].
  2:{ apply traced_silent; [auto with ak|intros ?]. by apply trace_deny_connector. }
  eapply (triple_bind _ _ (fun r k => traced s0 [tool] k /\ match r with inr n => stored n k | inl _ => True end)).
  { intros k Hk. pose proof (silent_local_transition b branch step principal (conf_writable_prefixes conf) outcome p backend k) as Hs.
    pose proof (stores_local b branch step principal (conf_writable_prefixes conf) outcome p backend k) as Hn.
    destruct (local_transition _ _ _ _ _ _ _ _ k) as [[[d|n]|e] k']; [| |done]; (split; [by eapply traced_same|done]). }
  intros [d|node]; [intros k [Hk _]; by apply (trace_deny_connector s0 true [tool])|].
  apply returns_record_with; [cbn; lia|apply stored_stable|]. intros delta Hd. cbn [app].
  eapply (triple_bind _ _ (fun _ k => traced s0 [tool; delta] k /\ stored node k)).
  { intros k [Hk Hn]. pose proof (silent_put_raw (combined_output outcome) k) as Hs.
    pose proof (quiet_put_raw (combined_output outcome) _ (stored_stable node) k Hn) as Hq.
    destruct (put_raw _ k) as [[h|e] k']; [|done]. split; [by eapply traced_same|done]. }
  intros full. apply returns_record_with; [cbn; lia|apply stored_stable|]. intros o Ho. cbn [app].
  intros k [Hk Hn]. apply (trace_end true s0 tool [] tool delta o); try done.
  pose proof (local_observation_plain (required_operation (action_kind action)) p outcome node full) as Hp.
  rewrite <- invocation_local in Ht by done. by destruct (local_observation _ _ _ _ _).
Qed.

Lemma trace_dispatch b conf :
  returns (traced s0 []) (dispatch w b branch step principal action conf)
    (trace_post (on_backend (action_kind action))).
Proof.
  unfold dispatch. destruct (action_kind action) eqn:Hkind; cbn [on_backend];
    try (apply trace_local; by rewrite Hkind).
  - by apply trace_http.
  - by apply trace_mcp.
  - apply trace_propose.
  - do 3 (apply traced_silent; [auto with ak|intros ?]). apply trace_metadata; [by rewrite Hkind|done].
  - apply traced_silent; [apply silent_branch_diff|intros ?]. apply traced_silent; [auto with ak|intros ?].
    apply trace_metadata; [by rewrite Hkind|done].
Qed.
End chain.
End from.

(** * Properties *)

(** A use consumed shows in the identity store. *)
Lemma consume_use_changes db id t l db' : consume_use db id t = (Ok l, db') -> db' <> db.
Proof.
  intros (row & Hrow & _ & _ & ->)%consume_use_Ok Heq.
  apply (f_equal (fun d => lrow_uses <$> leases d !! id)) in Heq. cbn in Heq.
  rewrite lookup_insert_eq, Hrow in Heq. cbn in Heq. injection Heq. lia.
Qed.

Definition has_db (db : IdentityDb) (k : Kernel B) : Prop := k_db k = db.

(** The store a step leaves is the one it had when it was refused or dispatched. *)
Lemma dispatch_db w b branch step principal action conf k sr k' :
  dispatch w b branch step principal action conf k = (Ok sr, k') -> k_db k' = k_db k.
Proof.
  intros Hd. pose proof (keeps_dispatch k (k_db k) b branch principal action conf w step k) as Hk.
  rewrite Hd in Hk. apply Hk. unfold framed. split_and!; try done. exists []. by rewrite app_nil_r.
Qed.

Lemma deny_db w b step who d k sr k' : deny_step w b step who d k = (Ok sr, k') -> k_db k' = k_db k.
Proof.
  intros Hd. pose proof (quiet_deny_step w b step who d (has_db (k_db k)) ltac:(by intros ? ?) k eq_refl) as Hk.
  by rewrite Hd in Hk.
Qed.

(** C3: Every step that returns is on the record: the ledger grew by exactly the events of this
    step, in order and attributed to its episode, branch, step and principal. A denied step left
    its denial and the observation that cites it, preceded by its invocation exactly when it was
    stopped after its lease use was consumed and its action is one a backend runs. A step that
    ended with a pending effect left its invocation, the proposal naming that effect (new in the
    broker's store, proposed by this step), the delta of the new state and the observation, each
    citing the one before; any other step left its invocation, the delta of the new state and the
    observation, each citing the one before, and added no effect. The payloads are those of the
    action, the denial, the effect, the new state and the returned observation. *)
Theorem step_recorded principal branch action k sr k' :
  execute_step principal branch action k = (Ok sr, k') ->
  numbered (events (k_ledger k)) -> Z.of_nat (length (events (k_ledger k))) + 4 <= i64_max ->
  exists b evs, get_branch (k_dag k) branch = Ok b
    /\ events (k_ledger k') = events (k_ledger k) ++ map row_of_event evs
    /\ numbered (events (k_ledger k'))
    /\ Forall (attributed (mkWriter (b_episode b) (Some branch) (Some (sr_step sr)) principal)) evs
    /\ match sr_observation sr with
       | ODenied denial =>
           (k_db k' = k_db k /\ denial_chain action false denial evs)
           \/ (k_db k' <> k_db k /\ denial_chain action (on_backend (action_kind action)) denial evs)
       | _ => step_chain (k_broker k) branch (sr_step sr) principal action sr evs k'
       end.
Proof.
  intros Hrun Hnum Hroom. apply returned_post in Hrun as (b & m & k3 & Hb & _ & Hm & Hl & Hbr & Heq & _).
  set (w := mkWriter _ _ _ _) in Hm. exists b.
  assert (traced (events (k_ledger k)) w (k_broker k) [] k3) as Htr.
  { unfold traced. cbn [map]. rewrite app_nil_r, Hl. by split_and!. }
  destruct Hm as [(who & d & -> & Hdb)|(conf & l & t & -> & Hdb)].
  - pose proof (trace_deny (events (k_ledger k)) w Hroom (k_broker k) branch (sr_step sr) principal action
      (k_broker k) false [] b who d eq_refl k3 Htr) as Hpost.
    rewrite Heq in Hpost. destruct Hpost as (st & evs & (Hev & Hn & Hat & _) & Hc).
    exists evs. split_and!; try done. apply deny_db in Heq. destruct (sr_observation sr); try done.
    left. by rewrite Heq.
  - pose proof (trace_dispatch (events (k_ledger k)) w Hroom (k_broker k) branch (sr_step sr) principal action
      b conf k3 Htr) as Hpost.
    rewrite Heq in Hpost. destruct Hpost as (st & evs & (Hev & Hn & Hat & _) & Hc).
    exists evs. split_and!; try done. apply dispatch_db in Heq. destruct (sr_observation sr); try done.
    right. rewrite Heq. by apply consume_use_changes in Hdb.
Qed.
End trace.
