(* ===== verification/KernelBranch.v ===== *)
(** Episodes and branches, [kernel/api/src/kernel.rs]: opening the kernel over
    its stores, creating and describing an episode, forking, merging and
    discarding a branch.

    The local backend is the first one of the router: [open] registers it
    there, and every other backend is appended.  A backend's answer to a fork
    is only logged, so the call is traced and its answer not modelled; the
    directory a local workspace lives in is always created. *)

From stdpp Require Import pretty.
From S2P Require Import Prelude Json Budget Glob Capability Types Canonical IdentityDb Registry.
From S2P Require Import LeaseStore Delegation Policy Router Scheduler Effect Ledger Broker Snapshot.
From S2P Require Import Dag Path Workspace B64 Utf8 Observation KernelText Kernel KernelStep.

Open Scope Z_scope.

Record EpisodeDescription := mkDescription {
  desc_episode : string;
  desc_root_branch : string;
  desc_root_state : string;
  desc_branches : list Branch;
  desc_created_by : string;
  desc_remaining : ResourceBudget;
}.

Section branch.
Context {B : Type} `{!Backend B, !RouterDebug, !World B}.
Context `{!Serde, !Sha256, !TimeJson, !JsonText, !DeltaSerde, !TimeText, !Chrono, !ManifestSerde}.
Context `{!ReceiptSigner, !ErrorDisplay, !KernelDisplay, !PathsDebug, !StepSerde}.

(** * Opening *)

(** One persisted episode into the index and the budget accounts. *)
Definition restore_episode (d : StateDag) (acc : KernelResult (gmap string EpisodeInfo * StepScheduler B))
    (rec : EpisodeRecord) : KernelResult (gmap string EpisodeInfo * StepScheduler B) :=
  '(eps, sched) ← acc;
  if str_is_empty (Dag.root_branch rec) || str_is_empty (Dag.created_by rec) then Ok (eps, sched)
  else
    brs ← branches_of d (ep_id rec);
    Ok (<[ep_id rec := mkInfo (Dag.root_branch rec) (Dag.root_state rec) (map b_id brs) (Dag.created_by rec)]> eps,
        register_episode_default sched (ep_id rec)).

Definition restore_episodes (d : StateDag) (sched : StepScheduler B)
    : KernelResult (gmap string EpisodeInfo * StepScheduler B) :=
  foldl (restore_episode d) (Ok (∅, sched)) (list_episodes d).

(** The kernel over its opened stores and the parsed policy; connectors and
    further backends are registered afterwards. *)
Definition kernel_open (d : StateDag) (l : Ledger) (db : IdentityDb) (doc : PolicyDocument) (st : Store)
    (local : B) (episode_budget : ResourceBudget) (dirs : gmap string Fs) (t : nat) : KernelResult (Kernel B) :=
  '(eps, sched) ← restore_episodes d
     (mkScheduler (register_backend [] local) ∅ episode_budget [] ∅ None);
  Ok (mkKernel d l db doc st sched dirs ∅ [] ∅ eps [] t).

(** * Episodes *)

(** [workspace_root] is the configured workspace, used when the caller names
    none. *)
Definition create_episode (workspace_root : option Fs) (actor : string) (workspace : option Fs)
    (objective : string) : K B EpisodeHandle :=
  principal_of actor;;
  f ← draw_fresh;
  t ← now;
  let ws := match workspace with Some d => Some d | None => workspace_root end in
  handle ← update (fun k =>
    let '(r, d) := Dag.create_episode (k_dag k) f actor ws t FilesystemOnly objective in
    lift r (set_dag k d));
  materialize_branch (node_id (h_root handle)) (h_branch handle);;
  update (fun k => (Ok tt, set_sched k (register_episode_default (k_sched k) (h_episode handle))));;
  update (fun k => (Ok tt, set_episodes k (<[h_episode handle :=
    mkInfo (h_branch handle) (node_id (h_root handle)) [h_branch handle] actor]> (k_episodes k))));;
  record_event (mkWriter (h_episode handle) (Some (h_branch handle)) None actor) KObjective
    (Object [("objective", Str objective)]) [];;
  mret handle.

Definition describe_episode (episode : string) : K B EpisodeDescription :=
  k ← get;
  info ← lift (ok_or (k_episodes k !! episode) (NotFound "episode" episode));
  branches ← lift (traverse (get_branch (k_dag k)) (info_branches info));
  mret (mkDescription episode (root_branch info) (root_state info) branches (created_by info)
          (default budget_zero (remaining_budget (k_sched k) episode))).

(** * Branches *)

(** [self.dag.discard_branch(...)]. *)
Definition dag_discard (branch : string) : K B () :=
  update (fun k => match Dag.discard_branch (k_dag k) branch with
                   | Ok d => (Ok tt, set_dag k d)
                   | Err e => (Err (Raised e), k)
                   end).

(** The router holds the local backend first; [open] puts it there. *)
Definition local_backend : K B B :=
  k ← get; match router (k_sched k) with local :: _ => mret local | [] => panic end.

(** Asks each backend in turn; the first error, if any. *)
Fixpoint discard_each (backends : list B) (branch : string) : K B (option KernelError) :=
  match backends with
  | [] => mret None
  | b :: rest =>
      r ← discard_on b branch;
      later ← discard_each rest branch;
      mret (match r with Err e => Some e | Ok _ => later end)
  end.

Definition fork_on (b : B) (from new_branch : string) : K B () :=
  update (fun k => (Ok tt,
    if supports_fork (profile b) then add_log k (ForkedOn (profile b) from new_branch) else k)).

Fixpoint fork_each (backends : list B) (from new_branch : string) : K B () :=
  match backends with
  | [] => mret tt
  | b :: rest => fork_on b from new_branch;; fork_each rest from new_branch
  end.

Definition push_branch (episode branch : string) : K B () :=
  update (fun k => (Ok tt, set_episodes k (alter (fun info =>
    mkInfo (root_branch info) (root_state info) (info_branches info ++ [branch]) (created_by info))
    episode (k_episodes k)))).

Definition fork_branch (branch : string) : K B Branch :=
  source ← active_branch branch;
  k ← get;
  h ← lift (get_state (k_dag k) (head source));
  f ← draw_fresh;
  new ← update (fun k => match fork (k_dag k) f (node_id h) with
                         | Ok (b, d) => (Ok b, set_dag k d)
                         | Err e => (Err (Raised e), k)
                         end);
  setup ← attempt (materialize_branch (head new) (b_id new));
  match setup with
  | Err error =>
      local ← local_backend;
      discard_on local (b_id new);;
      attempt (dag_discard (b_id new));;
      raise error
  | Ok _ =>
      push_branch (b_episode new) (b_id new);;
      k ← get;
      fork_each (router (k_sched k)) (node_id h) (b_id new);;
      mret new
  end.

Definition merge_branch (target source actor : string) : K B StateNode :=
  if String.eqb target source then
    raise (Storage ("cannot merge branch `" +:+ target +:+ "` into itself"))
  else
    f ← draw_fresh;
    node ← update (fun k => let '(r, d) := merge (k_dag k) f target source actor in lift r (set_dag k d));
    materialized ← attempt (materialize_branch (node_id node) target);
    k ← get;
    discard_each (router (k_sched k)) source;;
    match materialized with
    | Err error =>
        raise (Storage ("merge committed as " +:+ node_id node +:+ " but rebuilding target workspace `"
                        +:+ target +:+ "` failed: " +:+ error_display error
                        +:+ "; retrying any target step will materialize its durable head"))
    | Ok _ => mret node
    end.

Definition discard_branch (branch : string) : K B () :=
  k ← get;
  b ← lift (get_branch (k_dag k) branch);
  match b_status b with
  | Discarded => raise (BranchDiscarded branch)
  | Merged =>
      first_error ← discard_each (router (k_sched k)) branch;
      match first_error with Some e => raise e | None => mret tt end
  | Active =>
      first_error ← discard_each (drop 1 (router (k_sched k))) branch;
      match first_error with
      | Some e => raise e
      | None =>
          local ← local_backend;
          r ← discard_on local branch;
          lift r;;
          dag_discard branch
      end
  end.
End branch.
