(* ===== verification/KernelEffects.v ===== *)
(** Effects and replay at the facade, [kernel/api/src/kernel.rs]: preparing,
    approving, committing, recovering, resolving and compensating an effect,
    explaining and retrying a step, and the three replay modes.

    A storage failure in the ledger or the graph after a commit is logged and
    not raised; such attempts are [attempt] with the result dropped.  The
    serde conversions of recorded payloads are the class [ReplaySerde]. *)

From stdpp Require Import pretty.
From S2P Require Import Prelude Json Budget Glob Capability Types Canonical IdentityDb Registry.
From S2P Require Import LeaseStore Delegation Policy Router Scheduler Effect Ledger Broker Snapshot.
From S2P Require Import Dag Path Workspace B64 Utf8 Observation KernelText Kernel KernelStep.

Open Scope Z_scope.

Class ReplaySerde := {
  resolution_value : InDoubtResolution -> Value;
  action_of_value : Value -> result string ActionKind;
  budget_of_value : Value -> option ResourceBudget;
  denial_of_value : Value -> option Denial;
  serde_mismatch : Value -> string;      (* the message for a value that is no string *)
}.

Record StepExplanation := mkExplanation {
  ex_step : string;
  ex_episode : string;
  ex_branch : option string;
  ex_principal : string;
  ex_action : option Value;
  policy_decisions : list Value;
  ex_denial : option Denial;
  ex_state : option string;
  state_delta : option Value;
  ex_observation : option Value;
  effects_proposed : list Value;
  ex_events : list LedgerEvent;
}.

Record ReplaySandboxReport := mkReplayReport {
  rr_step : string;
  original_exit_code : option Z;    (* i32 *)
  rerun_exit_code : Z;              (* i32 *)
  workspace_match : bool;
  rr_replay_class : ReplayClass;
}.

Section effects.
Context {B : Type} `{!Backend B, !RouterDebug, !World B}.
Context `{!Serde, !Sha256, !TimeJson, !JsonText, !DeltaSerde, !TimeText, !Chrono, !ManifestSerde}.
Context `{!ReceiptSigner, !ErrorDisplay, !KernelDisplay, !PathsDebug, !StepSerde, !ReplaySerde}.

(** * Effects *)

Definition effect_writer (e : PendingEffect) : K B EventWriter :=
  k ← get;
  b ← lift (get_branch (k_dag k) (effect_branch e));
  mret (mkWriter (b_episode b) (Some (effect_branch e)) (Some (effect_step e)) (proposer e)).

(** [self.broker.effect(...)]. *)
Definition effect (id : string) : K B PendingEffect :=
  k ← get; lift (load_effect (k_broker k) id).

Definition prepare_effect (id : string) : K B PreparedEffect :=
  k ← get;
  prepared ← on_broker (fun st => prepare (broker_conns k) st id);
  e ← effect id;
  w ← effect_writer e;
  record_event w KEffectPrepared
    (Object [("effect_id", Str id); ("preview", preview prepared)]) [];;
  mret prepared.

Definition approve_effect (id approver : string) : K B () :=
  k ← get;
  let epoch := policy_epoch (k_policy k) in
  t ← now;
  on_broker (fun st => approve st id approver epoch t);;
  e ← effect id;
  w ← effect_writer e;
  record_event w KEffectApproved
    (Object [("approver", Str approver); ("effect_id", Str id); ("policy_epoch", Number (PosInt epoch))]) [];;
  mret tt.

(** The lease check a commit runs: present, not revoked, not expired. *)
Definition lease_live (db : IdentityDb) (t : DateTime) (id : string) : bool :=
  match get_lease db id with
  | Ok l => negb (revoked l) && (t <? expires_at l)
  | Err _ => false
  end.

(** [self.broker.commit(...)], with its external call in the trace. *)
Definition broker_commit (id : string) (epoch : Z) (lease_check : string -> bool)
    : K B (KernelResult Receipt) :=
  fresh ← generate "rcpt";
  t ← now;
  update (fun k =>
    let '(r, st, calls) := commit (broker_conns k) lease_check (k_broker k) id epoch fresh t in
    (Ok r, foldl (fun k c => add_log k (CommitCall c)) (set_broker k st) calls)).

Definition aborted_payload (id reason : string) (in_doubt : bool) : Value :=
  Object ([("effect_id", Str id)] ++ (if in_doubt then [("in_doubt", VBool true)] else [])
          ++ [("reason", Str reason)]).

(** [self.ledger.store_receipt(...)]. *)
Definition store_receipt_k (r : Receipt) (key : string) : K B () := fun k =>
  let '(res, l) := store_receipt (k_ledger k) r key in lift res (set_ledger k l).

(** The bookkeeping of a committed effect: the ledger event, then the state. *)
Definition record_commit (w : EventWriter) (id : string) (e : PendingEffect) (r : Receipt) : K B Receipt :=
  attempt (store_receipt_k r (idempotency_key (contract e)));;
  record_event w KEffectCommitted
    (Object [("class", Str (class_str (ec_class (contract e)))); ("effect_id", Str id);
             ("receipt_id", Str (receipt_id r))]) [];;
  k ← get;
  h ← lift (branch_head (k_dag k) (effect_branch e));
  step ← generate "step";
  attempt (dag_append (effect_branch e) step (proposer e)
    (mkStateDelta [] [] [] [] (delta_policy_epoch (node_delta h)) [] [receipt_id r])
    (workspace_root h) (node_replay_class h));;
  mret r.

Definition commit_effect (id : string) : K B Receipt :=
  k ← get;
  let epoch := policy_epoch (k_policy k) in
  t ← now;
  result ← broker_commit id epoch (lease_live (k_db k) t);
  e ← effect id;
  w ← effect_writer e;
  match result with
  | Ok r => record_commit w id e r
  | Err err =>
      let in_doubt := match err with CommitInDoubt _ _ => true | _ => false end in
      record_event w KEffectAborted (aborted_payload id (error_display err) in_doubt) [];;
      raise err
  end.

(** One record per resolution; a failure to record is ignored. *)
Fixpoint record_recoveries (resolutions : list (string * InDoubtResolution)) : K B () :=
  match resolutions with
  | [] => mret tt
  | (id, res) :: rest =>
      attempt (
        e ← effect id; w ← effect_writer e;
        record_event w KEffectCommitted
          (Object [("effect_id", Str id); ("recovery", VBool true); ("resolution", resolution_value res)]) []);;
      record_recoveries rest
  end.

Definition recover_in_doubt_effects : K B (list (string * InDoubtResolution)) :=
  t ← now;
  resolutions ← update (fun k =>
    let '(out, st) := recover_in_doubt (broker_conns k) (k_broker k)
                        (fun i => id_generate "rcpt" (uuid (k_tick k + i))) t in
    (Ok out, Nat.iter (length out) add_tick (set_broker k st)));
  record_recoveries resolutions;;
  mret resolutions.

Definition resolve_in_doubt_effect (id : string) (outcome : OperatorResolution) : K B (option Receipt) :=
  fresh ← generate "rcpt"; t ← now;
  r ← on_broker (fun st => resolve_in_doubt st id fresh t outcome);
  match r with
  | Some rc => attempt (store_receipt_k rc (rb_operation (receipt_body rc)));; mret r
  | None => mret r
  end.

(** The external call [compensate] makes, if any. *)
Definition compensate_calls (conns : gmap string Connector) (st : Store) (id : string) : list EffectContract :=
  match load_effect st id with
  | Ok e =>
      match phase e, connector_for conns (ec_operation (contract e)) with
      | Committed _, Ok _ => [contract e]
      | _, _ => []
      end
  | Err _ => []
  end.

Definition compensate_effect (id : string) : K B Receipt :=
  fresh ← generate "rcpt"; t ← now;
  r ← update (fun k =>
    let '(r, st) := compensate (broker_conns k) (k_broker k) id fresh t in
    lift r (foldl (fun k c => add_log k (CompensateCall c)) (set_broker k st)
              (compensate_calls (broker_conns k) (k_broker k) id)));
  e ← effect id;
  w ← effect_writer e;
  record_event w KEffectAborted
    (Object [("compensated", VBool true); ("compensating_receipt", Str (receipt_id r)); ("effect_id", Str id)]) [];;
  mret r.

(** * Explaining a step *)

Definition from_value_string (v : Value) : KernelResult string :=
  match v with Str s => Ok s | _ => Err (ESerde (serde_mismatch v)) end.

Definition result_ok {E A} (r : result E A) : option A := match r with Ok a => Some a | Err _ => None end.

(** One event of the decoding loop. *)
Definition explain_event (x : StepExplanation) (ev : LedgerEvent) : StepExplanation :=
  let p := ev_payload (body ev) in
  match ev_kind (body ev) with
  | KToolInvocation =>
      mkExplanation (ex_step x) (ex_episode x) (ex_branch x) (ex_principal x) (Some p) (policy_decisions x)
        (ex_denial x) (ex_state x) (state_delta x) (ex_observation x) (effects_proposed x) (ex_events x)
  | KPolicyDecision | KCapabilityRequest =>
      mkExplanation (ex_step x) (ex_episode x) (ex_branch x) (ex_principal x) (ex_action x)
        (policy_decisions x ++ [p])
        (ex_denial x) (ex_state x) (state_delta x) (ex_observation x) (effects_proposed x) (ex_events x)
  | KDenialIssued =>
      mkExplanation (ex_step x) (ex_episode x) (ex_branch x) (ex_principal x) (ex_action x) (policy_decisions x)
        (denial_of_value p) (ex_state x) (state_delta x) (ex_observation x) (effects_proposed x) (ex_events x)
  | KStateDeltaRecorded =>
      mkExplanation (ex_step x) (ex_episode x) (ex_branch x) (ex_principal x) (ex_action x) (policy_decisions x)
        (ex_denial x) (value_get "state_id" p ≫= fun v => result_ok (from_value_string v))
        (value_get "delta" p) (ex_observation x) (effects_proposed x) (ex_events x)
  | KObservationEmitted =>
      mkExplanation (ex_step x) (ex_episode x) (ex_branch x) (ex_principal x) (ex_action x) (policy_decisions x)
        (ex_denial x) (ex_state x) (state_delta x) (Some p) (effects_proposed x) (ex_events x)
  | KEffectProposed =>
      mkExplanation (ex_step x) (ex_episode x) (ex_branch x) (ex_principal x) (ex_action x) (policy_decisions x)
        (ex_denial x) (ex_state x) (state_delta x) (ex_observation x) (effects_proposed x ++ [p]) (ex_events x)
  | _ => x
  end.

Definition step_query (step : string) : TraceQuery :=
  mkQuery None None (Some step) None None [] None None.

Definition step_explain (step : string) : K B StepExplanation :=
  k ← get;
  evs ← lift (query (k_ledger k) (step_query step));
  first ← lift (ok_or (hd_error evs) (NotFound "step" step));
  mret (foldl explain_event
          (mkExplanation step (ev_episode (body first)) (ev_branch (body first)) (ev_principal (body first))
             None [] None None None None [] evs) evs).

(** * Retrying a step *)

Definition retry_hint (step : string) (payload : Value) : option string :=
  Some match value_get "intent_hint" payload ≫= as_str with
       | Some s => "retry of " +:+ step +:+ ": " +:+ s
       | None => "retry of " +:+ step
       end.

(** The recorded action, re-presented. *)
Definition recorded_action (step : string) (payload : Value) : KernelResult Action :=
  av ← ok_or (value_get "action" payload) (NotFound "recorded_action" step);
  kind ← map_err ESerde (action_of_value av);
  lv ← ok_or (value_get "lease" payload) (NotFound "recorded_lease" step);
  lease ← from_value_string lv;
  let budget := default step_default (value_get "budget" payload ≫= budget_of_value) in
  Ok (mkAction kind lease (retry_hint step payload) budget).

Definition step_retry (step : string) : K B StepResult :=
  x ← step_explain step;
  branch ← lift (ok_or (ex_branch x) (NotFound "step_branch" step));
  payload ← lift (ok_or (ex_action x) (NotFound "tool_invocation" step));
  action ← lift (recorded_action step payload);
  execute_step (ex_principal x) branch action.

(** * Replay *)

Definition replay_audit (seq_from seq_to : Z) : K B (list LedgerEvent) :=
  k ← get; lift (query (k_ledger k) (mkQuery None None None (Some (seq_from, seq_to)) None [] None None)).

Definition as_i64 (v : Value) : option Z :=
  match v with
  | Number (PosInt n) => if n <=? i64_max then Some n else None
  | Number (NegInt n) => Some n
  | _ => None
  end.

(** [as i32]. *)
Definition wrap_i32 (z : Z) : Z := (z + 2 ^ 31) mod 2 ^ 32 - 2 ^ 31.

Definition first_of (kind : EventKind) (evs : list LedgerEvent) : option LedgerEvent :=
  List.find (fun e => bool_decide (ev_kind (body e) = kind)) evs.

Definition recorded_kind (step : string) (evs : list LedgerEvent) : KernelResult ActionKind :=
  match first_of KToolInvocation evs ≫= fun e => value_get "action" (ev_payload (body e)) with
  | Some v => map_err ESerde (action_of_value v)
  | None => Err (NotFound "tool_invocation" step)
  end.

Definition recorded_state (step : string) (evs : list LedgerEvent) : KernelResult string :=
  match first_of KStateDeltaRecorded evs ≫= fun e => value_get "state_id" (ev_payload (body e)) with
  | Some v => from_value_string v
  | None => Err (NotFound "state_delta" step)
  end.

Definition recorded_exit (evs : list LedgerEvent) : option Z :=
  wrap_i32 <$> (first_of KObservationEmitted evs
                ≫= fun e => value_get "exit_code" (ev_payload (body e)) ≫= as_i64).

(** [{:?}]. *)
Definition replay_class_debug (rc : ReplayClass) : string :=
  match rc with
  | AuditOnly => "AuditOnly"
  | FilesystemOnly => "FilesystemOnly"
  | ProcessAndFilesystem => "ProcessAndFilesystem"
  | FrameworkHostCalls => "FrameworkHostCalls"
  | BrowserProfile => "BrowserProfile"
  end.

(** Current policy's answer for the recorded actor. *)
Definition replay_confinement (actor branch : string) (kind : ActionKind) : K B CompiledConfinement :=
  who ← principal_of actor;
  t ← now;
  decision ← evaluate_policy who (required_operation kind) (action_params kind) (Some branch) t;
  match decision with
  | DAllow _ grant => mret (grant_confinement grant)
  | DRequireApproval rule _ _ _ =>
      raise (EOther ("sandbox replay refused: rule `" +:+ rule +:+ "` now requires approval"))
  | DDeny denial => raise (Denied denial)
  end.

(** The scratch directory, filled with the parent state. *)
Definition materialize_scratch (state dir : string) : K B Fs :=
  t ← now;
  update (fun k => let '(r, d) := dag_materialize (k_dag k) state dir empty_fs t t in lift r (set_dag k d)).

Definition run_scratch (scratch : B) (req : ExecutionRequest) (fs : Fs) : K B (ExecutionOutcome * Fs) :=
  n ← tick;
  update (fun k =>
    let '(r, fs') := backend_run n scratch req fs in
    match r with
    | Ok outcome => (Ok (outcome, fs'), add_log k (Ran (profile scratch) req))
    | Err e => (Err (Raised e), add_log k (Ran (profile scratch) req))
    end).

Definition snapshot_scratch (fs : Fs) : K B string :=
  t ← now;
  update (fun k => match snapshot_dir (dag_cas (k_dag k)) fs t with
                   | Ok (root, _, cas) => (Ok root, set_dag k (set_cas (k_dag k) cas))
                   | Err e => (Err (Raised e), k)
                   end).

(** [scratch] is the backend opened over the temporary directory. *)
Definition replay_sandbox (scratch : KernelResult B) (step : string) : K B ReplaySandboxReport :=
  k ← get;
  evs ← lift (query (k_ledger k) (step_query step));
  kind ← lift (recorded_kind step evs);
  state ← lift (recorded_state step evs);
  recorded ← lift (get_state (k_dag k) state);
  if negb (supports (node_replay_class recorded) ModeSandbox) then
    raise (EOther ("step " +:+ step +:+ " was recorded at replay class "
                   +:+ replay_class_debug (node_replay_class recorded)
                   +:+ ", which does not support sandbox replay"))
  else
    parent ← lift (ok_or (node_parent recorded) (NotFound "parent_state" state));
    conf ← replay_confinement (node_actor recorded) (node_branch recorded) kind;
    scratch ← lift scratch;
    replay_branch ← generate "br";
    fs ← materialize_scratch parent replay_branch;
    out ← run_scratch scratch
      (mkRequest replay_branch parent (node_actor recorded) kind step_default
         (conf_writable_prefixes conf) (conf_readable_prefixes conf) (conf_egress_domains conf)) fs;
    root ← snapshot_scratch out.2;
    mret (mkReplayReport step (recorded_exit evs) (exit_code out.1)
            (bool_decide (root = workspace_root recorded)) (node_replay_class recorded)).

(** The millisecond timestamp of the fresh key. *)
Definition replay_contract (c : EffectContract) (t : DateTime) : EffectContract :=
  mkContract (ec_operation c) (ec_resource c) (ec_arguments c) (ec_preconditions c)
    (idempotency_key c +:+ "-replay-" +:+ pretty (t / 1000000)) (ec_class c).

Definition replay_live (id approver : string) : K B Receipt :=
  original ← effect id;
  t ← now;
  fresh ← generate "fx"; t' ← now;
  k ← get;
  replayed ← on_broker (fun st =>
    propose (broker_conns k) st fresh t' (replay_contract (contract original) t) (proposer original)
      (effect_branch original) (effect_step original) (effect_lease original));
  prepare_effect (effect_id replayed);;
  approve_effect (effect_id replayed) approver;;
  commit_effect (effect_id replayed).
End effects.
