(* ===== verification/KernelRefine.v ===== *)
(** Lifting the guarantees of the components to the kernel: every call of the
    facade, however it ends, is a sequence of single moves of the components'
    own interfaces, so what each component keeps under its own moves holds of
    the composed kernel ([KernelInvariant], [Receipts], [HttpSafety]).

    [part_step] is one move of one component, whichever call makes it;
    [kernel_step] is one call of the facade; [modular_on T I] says an assertion
    is kept by every move that stays within the branches [T]. *)

From stdpp Require Import pretty.
From S2P Require Import Prelude Json Budget Glob Capability Types Canonical IdentityDb Registry.
From S2P Require Import LeaseStore Delegation Policy Router Scheduler Effect Ledger Broker Snapshot.
From S2P Require Import Dag DagScope Path Workspace B64 Utf8 Observation KernelText Kernel KernelStep.
From S2P Require Import KernelLogic KernelSafety KernelBranch KernelEffects.

Open Scope Z_scope.

Section refine.
Context {B : Type} `{!Backend B, !RouterDebug, !World B}.
Context `{!Serde, !Sha256, !TimeJson, !JsonText, !DeltaSerde, !TimeText, !Chrono, !ManifestSerde}.
Context `{!ReceiptSigner, !ErrorDisplay, !KernelDisplay, !PathsDebug, !StepSerde, !ReplaySerde}.

Implicit Types (k : Kernel B) (I : Kernel B -> Prop).

Abbreviation keeps I m := (triple I m (fun _ => I) I).

(** * The components as one system *)

(** What the interfaces of the identity store do to it. *)
Inductive db_move (db : IdentityDb) : IdentityDb -> Prop :=
| dm_register p db' : register db p = Ok db' -> db_move db db'
| dm_lease op : db_move db (run_op db op)
| dm_delegate fresh delegator parent delegatee cs uses expires budget t c db' :
    delegate db fresh delegator parent delegatee cs uses expires budget t = Ok (c, db') -> db_move db db'.

(** An index entry agrees with the graph: same root, branch and owner, and
    every listed branch is stored there. *)
Definition index_ok (d : StateDag) (ep : string) (info : EpisodeInfo) : Prop :=
  (exists rec, episodes d !! ep = Some rec /\ ep_id rec = ep /\ Dag.root_branch rec = root_branch info
     /\ Dag.root_state rec = root_state info /\ Dag.created_by rec = created_by info)
  /\ forall br, br ∈ info_branches info -> exists row, branches d !! br = Some row /\ br_episode row = ep.

Definition pushed (branch : string) (info : EpisodeInfo) : EpisodeInfo :=
  mkInfo (root_branch info) (root_state info) (info_branches info ++ [branch]) (created_by info).

Inductive part_step k : Kernel B -> Prop :=
| ps_tick : part_step k (add_tick k)
| ps_dirs ds : part_step k (set_dirs k ds)
| ps_log e : part_step k (add_log k e)
| ps_dag d : dag_call (k_dag k) d -> part_step k (set_dag k d)
| ps_ledger l : ledger_move (k_ledger k) l -> part_step k (set_ledger k l)
| ps_db db : db_move (k_db k) db -> part_step k (set_db k db)
| ps_broker st : broker_move (k_broker k) st -> part_step k (set_broker k st)
| ps_sched s : sched_move (k_sched k) s -> part_step k (set_sched k s)
| ps_backend b : part_step k (register_backend_k b k).2
| ps_connector n c : part_step k (register_connector n c k).2
| ps_policy op : part_step k (set_policy k (run_doc_op (k_policy k) op))
| ps_index ep info :
    index_ok (k_dag k) ep info -> part_step k (set_episodes k (<[ep := info]> (k_episodes k)))
| ps_push ep br row :
    branches (k_dag k) !! br = Some row -> br_episode row = ep ->
    part_step k (set_episodes k (alter (pushed br) ep (k_episodes k))).

(** * Assertions kept by every move *)

Record modular_on (T : string -> Prop) I : Prop := {
  mod_inert : inert_on T I;
  mod_log e : allows I e;
  mod_db k db : I k -> db_move (k_db k) db -> I (set_db k db);
}.

Abbreviation modular I := (modular_on everywhere I).

Section ops.
Context T I (HM : modular_on T I).

Lemma keeps_q {A} (m : K B A) : quiet m -> keeps I m.
Proof. apply (keeps_quiet T), HM. Qed.

(** A quiet prefix. *)
Lemma keeps_qb {A A'} (m : K B A) (f : A -> K B A') :
  quiet m -> (forall a, keeps I (f a)) -> keeps I (m ≫= f).
Proof. intros Hm. apply keeps_bind. by apply keeps_q. Qed.

Lemma keeps_db (f : IdentityDb -> IdentityDb) k : I k -> db_move (k_db k) (f (k_db k)) -> I (set_db k (f (k_db k))).
Proof. intros. by apply HM. Qed.

(** ** Steps *)

Lemma keeps_any_read w b branch step principal action c op resource args :
  T branch -> keeps I (execute_read_via_connector w b branch step principal action c op resource args).
Proof. intros HT. apply (keeps_read T); [apply HM|done|]. apply mod_log with T, HM. Qed.

Lemma keeps_any_dispatch w b branch step principal action conf :
  T branch -> keeps I (dispatch w b branch step principal action conf).
Proof.
  intros HT. pose proof (mod_inert _ _ HM) as HI. unfold dispatch. destruct (action_kind action);
    try (apply (keeps_execute_local T); [done|done|intros; eapply mod_log, HM..]).
  - apply keeps_qb; [auto with ak|]. intros [c|]; [|apply keeps_q; auto with ak].
    destruct (canonicalize _ _ _); [|apply keeps_q; auto with ak]. cbv zeta.
    destruct (existsb _ _); cbn [negb]; [|apply keeps_q; auto with ak].
    case_decide; [by apply keeps_any_read|by apply (keeps_propose T)].
  - apply keeps_qb; [auto with ak|]. intros [c|].
    2:{ apply keeps_qb; [auto with ak|intros ?]. apply keeps_q; auto with ak. }
    cbv zeta. destruct (canonicalize _ _ _); [|apply keeps_q; auto with ak].
    case_decide; [by apply keeps_any_read|by apply (keeps_propose T)].
  - by apply (keeps_propose T).
  - do 3 (apply keeps_qb; [auto with ak|intros ?]). by apply (keeps_metadata T).
  - do 2 (apply keeps_qb; [auto with ak|intros ?]). by apply (keeps_metadata T).
Qed.

Lemma keeps_authorize who principal branch action t : keeps I (authorize who principal branch action t).
Proof.
  apply keeps_qb; [auto with ak|]. intros k0. destruct (get_lease _ _); [|apply keeps_q; auto with ak].
  destruct (check _ _ _ _ _ _); [|apply keeps_q; auto with ak].
  destruct (fits_within _ _); cbn [negb]; [|apply keeps_q; auto with ak].
  apply keeps_qb; [auto with ak|]. intros [rule grant|rule op cs ep|d]; try solve [apply keeps_q; auto with ak].
  intros k Hk. unfold update. pose proof (dm_lease (k_db k) (OpConsume (action_lease action) t)) as Hd.
  cbn [run_op] in Hd. destruct (consume_use _ _ _) as [r db]. by apply HM.
Qed.

Lemma keeps_step principal branch action : T branch -> keeps I (execute_step principal branch action).
Proof.
  intros HT. do 4 (apply keeps_qb; [auto with ak|intros ?]). apply keeps_bind; [apply keeps_authorize|].
  intros [d|conf]; [apply keeps_q; auto with ak|by apply keeps_any_dispatch].
Qed.

(** ** Capabilities *)

Lemma keeps_issue l : keeps I (issue_lease l).
Proof. intros k Hk. unfold issue_lease. cbn. apply HM; [done|]. apply (dm_lease _ (OpIssue l)). Qed.

Lemma keeps_request principal op params branch : keeps I (request_capability principal op params branch).
Proof.
  do 3 (apply keeps_qb; [auto with ak|intros ?]). destruct a1; try solve [apply keeps_q; auto with ak].
  apply keeps_bind; [apply keeps_issue|intros _]. destruct branch; [|apply keeps_q; auto with ak].
  do 4 (apply keeps_qb; [auto with ak|intros ?]). apply keeps_q; auto with ak.
Qed.

Lemma keeps_envelope_items principal branch reqs rep : keeps I (envelope_items principal branch rep reqs).
Proof.
  revert rep. induction reqs as [|req reqs IH]; intros rep; cbn; [apply keeps_q; auto with ak|].
  apply keeps_bind; [|done]. apply keeps_bind; [apply keeps_attempt, keeps_request|].
  intros [l|[]]; apply keeps_q; auto with ak.
Qed.

Lemma keeps_envelope principal branch reqs : keeps I (compile_envelope principal branch reqs).
Proof.
  unfold compile_envelope. case_bool_decide; [apply keeps_q; auto with ak|].
  destruct (Nat.ltb _ _); [apply keeps_q; auto with ak|]. apply keeps_envelope_items.
Qed.

Lemma keeps_auto principal branch kind hint budget :
  T branch -> keeps I (execute_step_auto principal branch kind hint budget).
Proof.
  intros HT. do 3 (apply keeps_qb; [auto with ak|intros ?]). apply keeps_bind.
  { destruct (choose_lease _ _ _ _ _ _); [apply keeps_q; auto with ak|].
    apply keeps_bind; [apply keeps_request|intros ?; apply keeps_q; auto with ak]. }
  intros lm. cbv zeta. apply keeps_bind; [by apply keeps_step|intros ?; apply keeps_q; auto with ak].
Qed.

Lemma keeps_register p : keeps I (register_principal p).
Proof.
  intros k Hk. unfold register_principal. destruct (register (k_db k) p) as [db|e] eqn:Er; [|done].
  apply HM; [done|]. by eapply dm_register.
Qed.

Lemma keeps_delegate delegator parent delegatee cs uses expires budget :
  keeps I (delegate_lease delegator parent delegatee cs uses expires budget).
Proof.
  do 2 (apply keeps_qb; [auto with ak|intros ?]). intros k Hk. unfold update.
  destruct (delegate _ _ _ _ _ _ _ _ _ _) as [[c db]|e] eqn:Ed; [|done].
  apply HM; [done|]. by eapply dm_delegate.
Qed.

Lemma keeps_revoke lease : keeps I (revoke_lease lease).
Proof.
  intros k Hk. unfold revoke_lease. pose proof (dm_lease (k_db k) (OpRevoke lease)) as Hd. cbn [run_op] in Hd.
  destruct (revoke_cascading _ _ _) as [[[ids db]|e]|]; [|done..]. by apply HM.
Qed.

(** ** Effects *)

Lemma quiet_effect_writer e : quiet (effect_writer (B := B) e).
Proof. do 2 (apply quiet_bind; [auto with ak|intros ?]). auto with ak. Qed.

Lemma quiet_effect id : quiet (effect (B := B) id).
Proof. apply quiet_bind; auto with ak. Qed.

Lemma quiet_store_receipt r key : quiet (store_receipt_k (B := B) r key).
Proof.
  intros P HP k Hk. unfold store_receipt_k.
  assert (P (set_ledger k (store_receipt (k_ledger k) r key).2)) as Hl by (apply stable_ledger; [done..|apply lm_receipt]).
  by destruct (store_receipt _ _ _) as [[]].
Qed.

Lemma keeps_prepare id : keeps I (prepare_effect id).
Proof.
  apply keeps_qb; [auto with ak|intros k0].
  apply keeps_bind; [apply (keeps_on_broker T); [apply HM|intros st; apply bm_prepare]|intros prepared].
  apply keeps_qb; [apply quiet_effect|intros e]. apply keeps_qb; [apply quiet_effect_writer|intros w].
  apply keeps_qb; [auto with ak|intros ?]. apply keeps_q; auto with ak.
Qed.

Lemma keeps_approve id approver : keeps I (approve_effect id approver).
Proof.
  apply keeps_qb; [auto with ak|intros k0]. cbv zeta. apply keeps_qb; [auto with ak|intros t].
  apply keeps_bind; [apply (keeps_on_broker T); [apply HM|intros st; apply bm_approve]|intros _].
  apply keeps_qb; [apply quiet_effect|intros e]. apply keeps_qb; [apply quiet_effect_writer|intros w].
  apply keeps_qb; [auto with ak|intros ?]. apply keeps_q; auto with ak.
Qed.

Lemma keeps_logs (mk : EffectContract -> WorldEvent) calls k :
  I k -> I (foldl (fun k c => add_log k (mk c)) k calls).
Proof. revert k. induction calls as [|c calls IH]; intros k Hk; [done|]. by apply IH, HM. Qed.

Lemma keeps_broker_commit id epoch lc : keeps I (broker_commit id epoch lc).
Proof.
  do 2 (apply keeps_qb; [auto with ak|intros ?]). intros k Hk. unfold update.
  match goal with |- context [commit ?cs ?l ?st ?i ?ep ?f ?t] =>
    pose proof (bm_commit st cs l i ep f t) as Hm; destruct (commit cs l st i ep f t) as [[r st'] calls] end.
  apply keeps_logs. by apply HM.
Qed.

Lemma keeps_record_commit w id e r : T (effect_branch e) -> keeps I (record_commit w id e r).
Proof.
  intros HT.
  apply keeps_qb; [apply quiet_attempt, quiet_store_receipt|intros _].
  do 4 (apply keeps_qb; [auto with ak|intros ?]).
  apply keeps_bind; [by apply keeps_attempt, (keeps_dag_append T); [apply HM|]|intros _]. apply keeps_q; auto with ak.
Qed.

(** The effect that was asked for, with its branch. *)
Lemma effect_loaded id :
  (forall k e, I k -> load_effect (k_broker k) id = Ok e -> T (effect_branch e)) ->
  triple I (effect id) (fun e k => T (effect_branch e) /\ I k) I.
Proof.
  intros Hbr k Hk. unfold effect, mbind, K_bind, get, update, lift.
  destruct (load_effect (k_broker k) id) as [e|e] eqn:He; [|done]. split; [by eapply Hbr|done].
Qed.

Lemma keeps_commit id :
  (forall k e, I k -> load_effect (k_broker k) id = Ok e -> T (effect_branch e)) -> keeps I (commit_effect id).
Proof.
  intros Hbr.
  apply keeps_qb; [auto with ak|intros k0]. cbv zeta. apply keeps_qb; [auto with ak|intros t].
  apply keeps_bind; [apply keeps_broker_commit|intros result].
  eapply triple_bind; [by apply effect_loaded|intros e]. apply triple_pure. intros HT.
  apply keeps_qb; [apply quiet_effect_writer|intros w].
  destruct result as [r|err]; [by apply keeps_record_commit|].
  apply keeps_qb; [auto with ak|intros ?]. apply keeps_q; auto with ak.
Qed.

Lemma quiet_record_recoveries rs : quiet (record_recoveries (B := B) rs).
Proof.
  induction rs as [|[id res] rs IH]; cbn; [auto with ak|]. apply quiet_bind; [|done].
  apply quiet_attempt. apply quiet_bind; [apply quiet_effect|intros e].
  apply quiet_bind; [apply quiet_effect_writer|intros w]. auto with ak.
Qed.

Lemma keeps_ticks n k : I k -> I (Nat.iter n add_tick k).
Proof. intros Hk. induction n as [|n IH]; [done|]. cbn. apply stable_tick; [apply (mod_inert _ _ HM)|done]. Qed.

Lemma keeps_recover : keeps I recover_in_doubt_effects.
Proof.
  apply keeps_qb; [auto with ak|intros t]. apply keeps_bind.
  - intros k Hk. unfold update.
    match goal with |- context [recover_in_doubt ?cs ?st ?f ?t] =>
      pose proof (bm_recover st cs f t) as Hm; destruct (recover_in_doubt cs st f t) as [out st'] end.
    apply keeps_ticks. by apply HM.
  - intros rs. apply keeps_qb; [apply quiet_record_recoveries|intros _]. apply keeps_q; auto with ak.
Qed.

Lemma keeps_resolve id outcome : keeps I (resolve_in_doubt_effect id outcome).
Proof.
  do 2 (apply keeps_qb; [auto with ak|intros ?]).
  apply keeps_bind; [apply (keeps_on_broker T); [apply HM|intros st; apply bm_resolve]|].
  intros [rc|]; [|apply keeps_q; auto with ak].
  apply keeps_qb; [apply quiet_attempt, quiet_store_receipt|intros _]. apply keeps_q; auto with ak.
Qed.

Lemma keeps_compensate id : keeps I (compensate_effect id).
Proof.
  do 2 (apply keeps_qb; [auto with ak|intros ?]). apply keeps_bind.
  - intros k Hk. unfold update.
    match goal with |- context [compensate ?cs ?st ?i ?f ?t] =>
      pose proof (bm_compensate st cs i f t) as Hm; destruct (compensate cs st i f t) as [[r|e] st'] end;
      cbn; apply keeps_logs; by apply HM.
  - intros r. apply keeps_qb; [apply quiet_effect|intros e]. apply keeps_qb; [apply quiet_effect_writer|intros w].
    apply keeps_qb; [auto with ak|intros ?]. apply keeps_q; auto with ak.
Qed.

(** ** Replay *)

Lemma quiet_explain step : quiet (step_explain (B := B) step).
Proof. do 3 (apply quiet_bind; [auto with ak|intros ?]). auto with ak. Qed.

Lemma keeps_retry step : (forall br, T br) -> keeps I (step_retry step).
Proof.
  intros HT.
  apply keeps_qb; [apply quiet_explain|intros x]. do 3 (apply keeps_qb; [auto with ak|intros ?]). by apply keeps_step.
Qed.

Lemma quiet_replay_confinement actor branch kind : quiet (replay_confinement (B := B) actor branch kind).
Proof. do 3 (apply quiet_bind; [auto with ak|intros ?]). destruct a1; auto with ak. Qed.

Lemma keeps_materialize_scratch state dir : keeps I (materialize_scratch state dir).
Proof.
  apply keeps_qb; [auto with ak|intros t]. intros k Hk. unfold update.
  match goal with |- context [dag_materialize ?d ?s ?t ?fs ?st ?n] =>
    pose proof (step_materialize d s t fs st n) as Hd; pose proof (materialize_touches T d s t fs st n) as Ht;
    destruct (dag_materialize d s t fs st n) as [[fs'|e] d'] end;
  by apply HM.
Qed.

Lemma keeps_run_scratch scratch req fs : keeps I (run_scratch scratch req fs).
Proof.
  apply keeps_qb; [auto with ak|intros n]. intros k Hk. unfold update.
  destruct (backend_run _ _ _ _) as [[out|e] fs']; by apply HM.
Qed.

Lemma keeps_snapshot_scratch fs : keeps I (snapshot_scratch fs).
Proof.
  apply keeps_qb; [auto with ak|intros t]. intros k Hk. unfold update.
  destruct (snapshot_dir _ _ _) as [[[root m] cas]|e] eqn:Es; [|done]. apply HM; [done|by eapply step_scratch|by apply touches_same].
Qed.

Lemma keeps_replay_sandbox scratch step : keeps I (replay_sandbox scratch step).
Proof.
  do 5 (apply keeps_qb; [auto with ak|intros ?]). destruct (negb _); [apply keeps_q; auto with ak|].
  apply keeps_qb; [auto with ak|intros parent]. apply keeps_qb; [apply quiet_replay_confinement|intros conf].
  do 2 (apply keeps_qb; [auto with ak|intros ?]). apply keeps_bind; [apply keeps_materialize_scratch|intros fs].
  apply keeps_bind; [apply keeps_run_scratch|intros out]. apply keeps_bind; [apply keeps_snapshot_scratch|intros root].
  apply keeps_q; auto with ak.
Qed.

Lemma keeps_replay_live id approver : (forall br, T br) -> keeps I (replay_live id approver).
Proof.
  intros HT.
  apply keeps_qb; [apply quiet_effect|intros e]. do 4 (apply keeps_qb; [auto with ak|intros ?]).
  apply keeps_bind; [apply (keeps_on_broker T); [apply HM|intros st; apply bm_propose]|intros r].
  apply keeps_bind; [apply keeps_prepare|intros _]. apply keeps_bind; [apply keeps_approve|intros _]. by apply keeps_commit.
Qed.
(** ** Branches *)

Lemma keeps_discard_each bs branch : T branch -> keeps I (discard_each bs branch).
Proof.
  intros HT. induction bs as [|b bs IH]; cbn; [apply keeps_q; auto with ak|].
  apply keeps_bind; [apply (keeps_discard_on T); [apply HM|done|eapply mod_log, HM]|intros r].
  apply keeps_bind; [done|intros later]. apply keeps_q; auto with ak.
Qed.

Lemma keeps_fork_each bs from new : keeps I (fork_each bs from new).
Proof.
  induction bs as [|b bs IH]; cbn; [apply keeps_q; auto with ak|]. apply keeps_bind; [|done].
  intros k Hk. unfold fork_on, update. destruct (supports_fork _); [by apply HM|done].
Qed.

Lemma keeps_dag_discard branch : T branch -> keeps I (dag_discard branch).
Proof.
  intros HT k Hk. unfold dag_discard, update. destruct (Dag.discard_branch _ _) as [d|e] eqn:Ed; [|done].
  apply HM; [done|by eapply step_discard|by eapply discard_touches].
Qed.

Lemma quiet_local : quiet (local_backend (B := B)).
Proof. apply quiet_bind; [auto with ak|intros k]. destruct (router _); auto with ak. Qed.

Lemma keeps_merge target source actor :
  T target -> (forall k f n, I k -> (merge (k_dag k) f target source actor).1 = Ok n -> T source) ->
  keeps I (merge_branch target source actor).
Proof.
  intros HT HS. unfold merge_branch. destruct (String.eqb _ _); [apply keeps_q; auto with ak|].
  apply keeps_qb; [auto with ak|intros f]. eapply (triple_bind _ _ (fun _ k => T source /\ I k)).
  { intros k Hk. unfold update. pose proof (step_merge (k_dag k) f target source actor) as Hd.
    pose proof (merge_touches T (k_dag k) f target source actor HT (fun n => HS k f n Hk)) as Ht. specialize (HS k f).
    destruct (merge _ _ _ _ _) as [[n|e] d]; cbn; [split; [by eapply HS|]|]; by apply HM. }
  intros node. apply triple_pure. intros HT'.
  apply keeps_bind; [by apply keeps_attempt, (keeps_materialize T); [apply HM|]|intros r].
  apply keeps_qb; [auto with ak|intros k0]. apply keeps_bind; [by apply keeps_discard_each|intros _].
  destruct r; apply keeps_q; auto with ak.
Qed.

Lemma keeps_discard branch : T branch -> keeps I (discard_branch branch).
Proof.
  intros HT. do 2 (apply keeps_qb; [auto with ak|intros ?]). destruct (b_status _).
  - apply keeps_bind; [by apply keeps_discard_each|]. intros [e|]; [apply keeps_q; auto with ak|].
    apply keeps_qb; [apply quiet_local|intros l].
    apply keeps_bind; [apply (keeps_discard_on T); [apply HM|done|eapply mod_log, HM]|intros r].
    apply keeps_qb; [auto with ak|intros _]. by apply keeps_dag_discard.
  - apply keeps_q; auto with ak.
  - apply keeps_bind; [by apply keeps_discard_each|]. intros [e|]; apply keeps_q; auto with ak.
Qed.
End ops.

(** A fact on stored rows can be carried along. *)
Lemma modular_rows T I (φ : StateDag -> Prop) :
  modular_on T I -> (forall d d', rows_kept d d' -> φ d -> φ d') -> modular_on T (fun k => I k /\ φ (k_dag k)).
Proof.
  intros HM Hφ. destruct HM as [[Hst Hin] Hlog Hdb]. split.
  - split; [|intros k [Hk Hf]; destruct (Hin k Hk) as (Hd & Hb & Hs & Hds & Hnew); split_and!].
    + intros k [Hk Hf]. destruct (Hst k Hk). split; [|done]. intros l Hl. split; [auto|done].
    + intros d Hd' Ht. split; [auto|]. eapply Hφ; [by apply dag_call_rows|done].
    + intros s Hs'. split; [auto|done].
    + intros s Hs'. split; [auto|done].
    + intros ds Hds'. split; [auto|done].
    + done.
  - intros e k [Hk Hf]. split; [by apply Hlog|done].
  - intros k db [Hk Hf] Hm. split; [by apply Hdb|done].
Qed.

Definition stored_branch (br ep : string) (d : StateDag) : Prop :=
  exists row, branches d !! br = Some row /\ br_episode row = ep.

Lemma stored_branch_kept br ep d d' : rows_kept d d' -> stored_branch br ep d -> stored_branch br ep d'.
Proof.
  intros [_ Hb] (row & Hr & <-). apply Hb in Hr as (row' & Hr' & Heq). by exists row'.
Qed.

Lemma index_ok_kept ep info d d' : rows_kept d d' -> index_ok d ep info -> index_ok d' ep info.
Proof.
  intros Hk [(rec & He & Hrest) Hb]. split.
  - exists rec. split; [|done]. destruct Hk as [He' _]. by eapply lookup_weaken.
  - intros br Hbr. by eapply stored_branch_kept, Hb.
Qed.

(** The index follows the graph. *)
Section index.
Context T I (HM : modular_on T I).
Context (Hindex : forall k ep info, I k -> index_ok (k_dag k) ep info ->
  I (set_episodes k (<[ep := info]> (k_episodes k)))).
Context (Hpush : forall k ep br, I k -> stored_branch br ep (k_dag k) ->
  I (set_episodes k (alter (pushed br) ep (k_episodes k)))).

Lemma created_index d f actor w started rc obj h d' :
  Dag.create_episode d f actor w started rc obj = (Ok h, d') ->
  index_ok d' (h_episode h) (mkInfo (h_branch h) (node_id (h_root h)) [h_branch h] actor).
Proof.
  unfold Dag.create_episode. destruct (match w with Some _ => _ | None => _ end) as [[root cas']|]; [|done].
  cbv zeta. destruct (create_rows _ _ _ _) as [d''|] eqn:Ec; [|done]. intros [= <- <-].
  unfold create_rows in Ec. apply bind_Ok in Ec as (eps & He & Ec). apply bind_Ok in Ec as (sts & _ & Ec).
  apply bind_Ok in Ec as (brs & Hb & [= <-]).
  apply insert_row_once_Ok in He as [_ ->]. apply insert_row_once_Ok in Hb as [_ ->]. split; cbn.
  - eexists. by rewrite lookup_insert_eq.
  - intros br ->%list_elem_of_singleton. eexists. by rewrite lookup_insert_eq.
Qed.

Lemma created_fresh d f actor w started rc obj h d' :
  Dag.create_episode d f actor w started rc obj = (Ok h, d') -> branches d !! h_branch h = None.
Proof.
  unfold Dag.create_episode. destruct (match w with Some _ => _ | None => _ end) as [[root cas']|]; [|done].
  cbv zeta. destruct (create_rows _ _ _ _) as [d''|] eqn:Ec; [|done]. intros [= <- <-].
  unfold create_rows in Ec. apply bind_Ok in Ec as (eps & He & Ec). apply bind_Ok in Ec as (sts & _ & Ec).
  apply bind_Ok in Ec as (brs & Hb & [= <-]). by apply insert_row_once_Ok in Hb as [Hn _].
Qed.

Lemma keeps_create root actor ws obj : keeps I (create_episode root actor ws obj).
Proof.
  do 3 (apply (keeps_qb _ _ HM); [auto with ak|intros ?]). cbv zeta.
  eapply (triple_bind _ _ (fun h k => T (h_branch h) /\ I k
    /\ index_ok (k_dag k) (h_episode h) (mkInfo (h_branch h) (node_id (h_root h)) [h_branch h] actor))).
  - intros k Hk. unfold update.
    match goal with |- context [Dag.create_episode ?d ?f ?a ?w ?t ?rc ?o] =>
      pose proof (step_create d f a w t rc o) as Hd; pose proof (create_touches T d f a w t rc o) as Ht;
      destruct (Dag.create_episode d f a w t rc o) as [[h|e] d'] eqn:Ec end;
      cbn; [|by apply HM]. split; [|split; [by apply HM|by eapply created_index]].
    apply (mod_inert _ _ HM) with k; [done|]. by eapply created_fresh.
  - intros h. apply triple_pure. intros HT. set (info := mkInfo _ _ _ _).
    pose proof (modular_rows T I (fun d => index_ok d (h_episode h) info) HM (index_ok_kept _ _)) as HJ.
    eapply triple_bind; [eapply triple_conseq; [apply (keeps_materialize T); [apply HJ|done]|done|intros ? ? Hk; exact Hk|by intros ? []]|].
    intros ?. eapply (triple_bind _ _ (fun _ k => I k /\ index_ok (k_dag k) (h_episode h) info)).
    { intros k Hk. apply (mod_inert _ _ HJ); [done|]. apply sm_open. }
    intros _. eapply (triple_bind _ _ (fun _ => I)).
    { intros k [Hk Hi]. by apply Hindex. }
    intros _. apply (keeps_qb _ _ HM); [auto with ak|intros _]. apply (keeps_q _ _ HM); auto with ak.
Qed.

Lemma keeps_fork branch : keeps I (fork_branch branch).
Proof.
  do 4 (apply (keeps_qb _ _ HM); [auto with ak|intros ?]).
  eapply (triple_bind _ _ (fun new k => T (b_id new) /\ I k /\ stored_branch (b_id new) (b_episode new) (k_dag k))).
  - intros k Hk. unfold update. destruct (fork _ _ _) as [[b d]|e] eqn:Ef; [|done]. cbn.
    assert (I (set_dag k d)) as Hd by (apply HM; [done|by eapply step_fork|by eapply fork_touches]).
    unfold fork in Ef. apply bind_Ok in Ef as (base & _ & Ef). apply bind_Ok in Ef as (brs & Hb & [= <- <-]).
    apply insert_row_once_Ok in Hb as [Hn ->]. split; [by apply (mod_inert _ _ HM) with k|]. split; [done|].
    unfold stored_branch. cbn. eexists. by rewrite lookup_insert_eq.
  - intros new. apply triple_pure. intros HT.
    pose proof (modular_rows T I (stored_branch (b_id new) (b_episode new)) HM (stored_branch_kept _ _)) as HJ.
    eapply triple_bind.
    { eapply triple_conseq; [apply keeps_attempt, (keeps_materialize T); [apply HJ|done]|done|intros ? ? Hk; exact Hk|by intros ? []]. }
    intros [u|error].
    + eapply (triple_bind _ _ (fun _ => I)); [intros k [Hk Hs]; by apply Hpush|]. intros _.
      apply (keeps_qb _ _ HM); [auto with ak|intros k0]. apply keeps_bind; [by apply (keeps_fork_each T)|intros _].
      apply (keeps_q _ _ HM); auto with ak.
    + apply (triple_conseq _ I _ _ (fun _ => I) _ I); [|by intros ? []|done|done].
      apply (keeps_qb _ _ HM); [apply quiet_local|intros l].
      apply keeps_bind; [apply (keeps_discard_on T); [apply HM|done|eapply mod_log, HM]|intros _].
      apply keeps_bind; [by apply keeps_attempt, (keeps_dag_discard T)|intros _]. apply (keeps_q _ _ HM); auto with ak.
Qed.
End index.

(** * One call of the facade *)

Inductive kernel_step k : Kernel B -> Prop :=
| ks_principal p : kernel_step k (register_principal p k).2
| ks_connector n c : kernel_step k (register_connector n c k).2
| ks_backend b : kernel_step k (register_backend_k b k).2
| ks_policy op : kernel_step k (with_policy_mut (fun doc => (tt, run_doc_op doc op)) k).2
| ks_episode root actor ws obj : kernel_step k (create_episode root actor ws obj k).2
| ks_fork branch : kernel_step k (fork_branch branch k).2
| ks_merge target source actor : kernel_step k (merge_branch target source actor k).2
| ks_discard branch : kernel_step k (discard_branch branch k).2
| ks_request principal op params branch : kernel_step k (request_capability principal op params branch k).2
| ks_envelope principal branch reqs : kernel_step k (compile_envelope principal branch reqs k).2
| ks_delegate delegator parent delegatee cs uses expires budget :
    kernel_step k (delegate_lease delegator parent delegatee cs uses expires budget k).2
| ks_revoke lease : kernel_step k (revoke_lease lease k).2
| ks_execute principal branch action : kernel_step k (execute_step principal branch action k).2
| ks_auto principal branch kind hint budget :
    kernel_step k (execute_step_auto principal branch kind hint budget k).2
| ks_prepare id : kernel_step k (prepare_effect id k).2
| ks_approve id approver : kernel_step k (approve_effect id approver k).2
| ks_commit id : kernel_step k (commit_effect id k).2
| ks_recover : kernel_step k (recover_in_doubt_effects k).2
| ks_resolve id outcome : kernel_step k (resolve_in_doubt_effect id outcome k).2
| ks_compensate id : kernel_step k (compensate_effect id k).2
| ks_retry step : kernel_step k (step_retry step k).2
| ks_replay_sandbox scratch step : kernel_step k (replay_sandbox scratch step k).2
| ks_replay_live id approver : kernel_step k (replay_live id approver k).2.

Lemma keeps_run {A} I (m : K B A) k : keeps I m -> I k -> I (m k).2.
Proof. intros Hm Hk. specialize (Hm k Hk). by destruct (m k) as [[a|e] k']. Qed.

Lemma part_run_modular k0 : modular (rtc part_step k0).
Proof.
  split.
  - split.
    + intros k Hk. split; [intros l Hl|]; (eapply rtc_r; [exact Hk|]); by constructor.
    + intros k Hk. split_and!; [intros..|done]; (eapply rtc_r; [exact Hk|]); by constructor.
  - intros e k Hk. eapply rtc_r; [exact Hk|]. constructor.
  - intros k db Hk Hm. eapply rtc_r; [exact Hk|]. by constructor.
Qed.

Lemma kernel_step_parts k k' : kernel_step k k' -> rtc part_step k k'.
Proof.
  pose proof (part_run_modular k) as HM.
  assert (forall k1 ep info, rtc part_step k k1 -> index_ok (k_dag k1) ep info ->
    rtc part_step k (set_episodes k1 (<[ep := info]> (k_episodes k1)))) as Hindex.
  { intros k1 ep info Hr Hi. eapply rtc_r; [exact Hr|]. by constructor. }
  assert (forall k1 ep br, rtc part_step k k1 -> stored_branch br ep (k_dag k1) ->
    rtc part_step k (set_episodes k1 (alter (pushed br) ep (k_episodes k1)))) as Hpush.
  { intros k1 ep br Hr (row & Hi & He). eapply rtc_r; [exact Hr|]. by econstructor. }
  intros Hs. destruct Hs; try (by apply rtc_once; constructor);
    (eapply (keeps_run (rtc part_step k)); [|apply rtc_refl]);
    [by eapply keeps_register|by eapply keeps_create|by eapply keeps_fork|by eapply keeps_merge|by eapply keeps_discard
    |by eapply keeps_request|by eapply keeps_envelope|by eapply keeps_delegate|by eapply keeps_revoke|by eapply keeps_step
    |by eapply keeps_auto|by eapply keeps_prepare|by eapply keeps_approve|by eapply keeps_commit|by eapply keeps_recover
    |by eapply keeps_resolve|by eapply keeps_compensate|by eapply keeps_retry|by eapply keeps_replay_sandbox
    |by eapply keeps_replay_live].
Qed.

Lemma kernel_run_parts k k' : rtc kernel_step k k' -> rtc part_step k k'.
Proof.
  intros Hr. induction Hr as [|k1 k2 k3 Hs _ IH]; [apply rtc_refl|].
  etrans; [by apply kernel_step_parts|exact IH].
Qed.

End refine.
