(* ===== verification/KernelInvariant.v ===== *)
(** Invariants of the composed kernel: the components stay well formed, the
    graph and the audit log only grow, and a restart finds every episode the
    running kernel serves. *)

From stdpp Require Import pretty.
From S2P Require Import Prelude Json Budget Glob Capability Types Canonical IdentityDb Registry.
From S2P Require Import LeaseStore Delegation Policy Router Scheduler Effect Ledger Broker BrokerRecord Snapshot.
From S2P Require Import Dag DagScope Path Workspace B64 Utf8 Observation KernelText Kernel KernelStep.
From S2P Require Import KernelLogic KernelSafety KernelTransition KernelTrace KernelBranch.
From S2P Require Import KernelEffects KernelRefine.

Open Scope Z_scope.

Section invariant.
Context {B : Type} `{!Backend B, !RouterDebug, !World B}.
Context `{!Serde, !Sha256, !TimeJson, !JsonText, !DeltaSerde, !TimeText, !Chrono, !ManifestSerde}.
Context `{!ReceiptSigner, !ErrorDisplay, !KernelDisplay, !PathsDebug, !StepSerde, !ReplaySerde}.

Implicit Types (k : Kernel B).

(** * Well-formed kernels *)

Record kernel_wf k : Prop := {
  wf_dag : dag_ok (k_dag k);
  wf_apart : apart (k_dag k);
  wf_episodes : episodes_keyed (k_dag k);
  wf_registry : registry_wf (k_db k);
  wf_leases : LeaseStore.store_ok (leases (k_db k));
  wf_broker : st_inv (k_broker k);
  wf_index ep info : k_episodes k !! ep = Some info -> index_ok (k_dag k) ep info;
}.

Lemma registry_wf_ext db db' : principals db' = principals db -> registry_wf db -> registry_wf db'.
Proof. intros He [Hr Hf]. split; by rewrite He. Qed.

Lemma run_op_principals db op : principals (run_op db op) = principals db.
Proof.
  destruct op as [l|id t|id|t]; cbn; try done.
  - unfold consume_use. by repeat case_match.
  - unfold revoke_cascading. destruct (leases db !! id); [|done]. by destruct (revoke_loop _ _ _ _) as [[ids ls]|].
Qed.

Lemma db_move_wf db db' :
  db_move db db' -> registry_wf db -> LeaseStore.store_ok (leases db) ->
  registry_wf db' /\ LeaseStore.store_ok (leases db').
Proof.
  intros Hm Hr Hl. destruct Hm as [p db' Hp|op|fresh dr pa de cs u ex bu t c db' Hd].
  - split; [by eapply register_wf|]. by apply register_Ok in Hp as (_ & _ & ->).
  - split; [by eapply registry_wf_ext; [apply run_op_principals|]|by apply run_op_ok].
  - apply delegate_Ok in Hd as (parent & _ & _ & _ & Ha & Hp & Hls & _). split; [by eapply registry_wf_ext|].
    rewrite Hls. apply map_Forall_insert_2; [|done].
    apply attenuate_Ok in Ha as (_ & _ & _ & _ & _ & _ & ->). apply row_of_lease_ok.
Qed.

Lemma broker_move_inv st st' : broker_move st st' -> st_inv st -> st_inv st'.
Proof.
  intros Hm Hst. destruct Hm.
  - eapply propose_good; [done|apply surjective_pairing].
  - eapply prepare_good; [done|apply surjective_pairing].
  - eapply approve_good; [done|apply surjective_pairing].
  - by apply commit_inv.
  - by apply recover_inv.
  - by apply resolve_inv.
  - eapply compensate_good; [done|apply surjective_pairing].
Qed.

Lemma pushed_index d ep br row info :
  branches d !! br = Some row -> br_episode row = ep -> index_ok d ep info -> index_ok d ep (pushed br info).
Proof.
  intros Hr He [Hrec Hbs]. split; [done|]. cbn. intros b Hb. apply elem_of_app in Hb as [Hb|Hb]; [by apply Hbs|].
  apply list_elem_of_singleton in Hb as ->. by exists row.
Qed.

Lemma part_step_wf k k' : part_step k k' -> kernel_wf k -> kernel_wf k' /\ extends (k_dag k) (k_dag k').
Proof.
  intros Hs [Hd Ha Hk Hr Hl Hb Hi]. destruct Hs as [| | |d Hm|l Hm|db Hm|st Hm|s Hm| | | |ep info Hm|ep br row Hm He];
    try (split; [by split|apply extends_refl]).
  - destruct (dag_call_preserves _ _ Hm Hd) as [Hd' He]. split; [|done]. split; cbn; try done.
    { by eapply dag_call_apart. }
    { by eapply dag_call_keyed. }
    intros ep info Hep. eapply index_ok_kept; [by apply dag_call_rows|by apply Hi].
  - split; [|apply extends_refl]. destruct (db_move_wf _ _ Hm Hr Hl). by split.
  - split; [|apply extends_refl]. split; try done. by eapply broker_move_inv.
  - split; [|apply extends_refl]. split; try done. cbn. intros ep' info' Hep.
    apply lookup_insert_Some in Hep as [[<- <-]|[_ Hep]]; [done|by apply Hi].
  - split; [|apply extends_refl]. split; try done. cbn. intros ep' info' Hep. subst ep.
    apply lookup_alter_Some in Hep as [(<- & info & Hep & ->)|[_ Hep]]; [|by apply Hi].
    by eapply pushed_index, Hi.
Qed.

Lemma extends_trans d1 d2 d3 : extends d1 d2 -> extends d2 d3 -> extends d1 d3.
Proof. intros [Hs Hc] [Hs' Hc']. split; [by etrans|by eapply cas_grows_trans]. Qed.

Lemma part_run_wf k k' : rtc part_step k k' -> kernel_wf k -> kernel_wf k' /\ extends (k_dag k) (k_dag k').
Proof.
  intros Hr. induction Hr as [k|k1 k2 k3 Hs _ IH]; intros Hk; [split; [done|apply extends_refl]|].
  destruct (part_step_wf _ _ Hs Hk) as [Hk2 He]. destruct (IH Hk2) as [Hk3 He']. split; [done|by eapply extends_trans].
Qed.

Lemma broker_move_refiled st st' : broker_move st st' -> st_inv st -> refiled st st'.
Proof.
  intros Hm [Hok _]. destruct Hm; [apply propose_refiled|by apply prepare_refiled|by apply approve_refiled
    |by apply commit_refiled|apply recover_refiled|apply resolve_refiled|by apply compensate_refiled].
Qed.

Lemma part_run_refiled k k' : rtc part_step k k' -> kernel_wf k -> refiled (k_broker k) (k_broker k').
Proof.
  intros Hr. induction Hr as [k|k1 k2 k3 Hs _ IH]; intros Hk; [by apply refiled_same|].
  destruct (part_step_wf _ _ Hs Hk) as [Hk2 _]. eapply refiled_trans; [|by apply IH].
  destruct Hs; try (by apply refiled_same). apply broker_move_refiled; [done|apply Hk].
Qed.

(** * The audit log *)

Lemma insert_row_length row rows rows' : insert_row row rows = Some rows' -> length rows' = S (length rows).
Proof.
  revert rows'. induction rows as [|r rows IH]; intros rows'; cbn; [by intros [= <-]|].
  destruct (row_seq r <? row_seq row).
  - intros (rows1 & Hi & ->)%fmap_Some. cbn. by rewrite (IH rows1).
  - by case_match; intros [= <-].
Qed.

Lemma append_length l t ne : (length (events l) <= length (events (append l t ne).2))%nat.
Proof.
  unfold append. destruct (last _); destruct (insert_row _ _) as [rows|] eqn:Hi; cbn; try done;
    apply insert_row_length in Hi; lia.
Qed.

(** Grown in place, or as long as sequence numbers go. *)
Definition grown (rows0 : list EventRow) (l : Ledger) : Prop :=
  (rows0 `prefix_of` events l /\ numbered (events l)) \/ i64_max <= Z.of_nat (length (events l)).

Lemma ledger_move_grown rows0 l l' : ledger_move l l' -> grown rows0 l -> grown rows0 l'.
Proof.
  intros Hm Hg. destruct Hm as [t ne|bytes|r key].
  - pose proof (append_length l t ne) as Hlen. destruct Hg as [[Hp Hn]|Hmax]; [|right; lia].
    destruct (decide (i64_max <= Z.of_nat (length (events l)))); [right; lia|].
    destruct (append l t ne) as [[e|e] l'] eqn:Ha.
    + apply append_at_end in Ha as (He & Hn' & _); [|done|lia]. left. split; [|done]. cbn. rewrite He.
      by apply prefix_app_r.
    + left. unfold append in Ha. by destruct (last _); destruct (insert_row _ _); simplify_eq/=.
  - unfold store_raw. by destruct (raw_outputs l !! _).
  - unfold store_receipt. by repeat case_match.
Qed.

Lemma part_run_grown rows0 k k' :
  rtc part_step k k' -> grown rows0 (k_ledger k) -> grown rows0 (k_ledger k').
Proof.
  intros Hr. induction Hr as [|k1 k2 k3 Hs _ IH]; [done|]. intros Hg. apply IH.
  destruct Hs; try exact Hg. by eapply ledger_move_grown.
Qed.

(** * Restarting *)

Definition named (rec : EpisodeRecord) : bool :=
  negb (str_is_empty (Dag.root_branch rec) || str_is_empty (Dag.created_by rec)).

Definition info_of (d : StateDag) (rec : EpisodeRecord) : EpisodeInfo :=
  mkInfo (Dag.root_branch rec) (Dag.root_state rec) (map b_id (value_of [] (branches_of d (ep_id rec))))
    (Dag.created_by rec).

Lemma traverse_Ok {A A'} (f : A -> KernelResult A') l :
  Forall (fun a => is_ok (f a) = true) l -> exists bs, traverse f l = Ok bs /\ Forall2 (fun a b => f a = Ok b) l bs.
Proof.
  intros Hf. induction Hf as [|a l Ha _ [bs [Hbs HF]]]; [by exists []|]. cbn.
  destruct (f a) as [b|] eqn:Hfa; [|done]. rewrite Hbs. exists (b :: bs). split; [done|by constructor].
Qed.

Lemma branches_of_Ok d ep :
  dag_ok d -> exists bs, branches_of d ep = Ok bs
    /\ forall br, br ∈ map b_id bs <-> exists row, branches d !! br = Some row /\ br_episode row = ep.
Proof.
  intros Hd. unfold branches_of. set (rows := merge_sort _ _).
  assert (forall r, r ∈ rows <-> branches d !! br_id r = Some r /\ br_episode r = ep) as Hrows.
  { intros r. unfold rows. rewrite merge_sort_Permutation, list_elem_of_filter, list_elem_of_fmap. split.
    - intros (He & [i r'] & -> & Hm%elem_of_map_to_list). cbn in *. by rewrite (ok_branch_ids _ Hd _ _ Hm).
    - intros [Hb He]. split; [done|]. exists (br_id r, r). by rewrite elem_of_map_to_list. }
  destruct (traverse_Ok branch_of_row rows) as (bs & -> & HF).
  { apply Forall_forall. intros r [Hr _]%Hrows. destruct (ok_status _ Hd _ _ Hr) as [st Hst].
    unfold branch_of_row. by rewrite Hst, (proj2 (status_parse_Ok _ _) eq_refl). }
  exists bs. split; [done|].
  assert (map b_id bs = map br_id rows) as ->.
  { clear -HF. induction HF as [|r b rows bs Hf _ IH]; [done|]. cbn. rewrite IH. f_equal.
    unfold branch_of_row in Hf. by apply bind_Ok in Hf as (st & _ & [= <-]). }
  intros br. rewrite list_elem_of_fmap. split.
  - intros (r & -> & [Hr He]%Hrows). by exists r.
  - intros (row & Hr & He). exists row. rewrite (ok_branch_ids _ Hd _ _ Hr). split; [done|]. apply Hrows.
    by rewrite (ok_branch_ids _ Hd _ _ Hr).
Qed.

Lemma restore_one d eps (sched : StepScheduler B) rec :
  dag_ok d ->
  restore_episode d (Ok (eps, sched)) rec =
  Ok (if named rec then (<[ep_id rec := info_of d rec]> eps, register_episode_default sched (ep_id rec))
      else (eps, sched)).
Proof.
  intros Hd. unfold restore_episode, named, info_of, mbind, result_bind.
  destruct (str_is_empty _ || str_is_empty _); cbn [negb]; [done|].
  by destruct (branches_of_Ok d (ep_id rec) Hd) as (bs & -> & _).
Qed.

(** The restored index holds exactly the named episodes, each with an account. *)
Lemma restore_all d recs eps (sched : StepScheduler B) :
  dag_ok d -> NoDup (map ep_id recs) ->
  exists eps' sched', foldl (restore_episode d) (Ok (eps, sched)) recs = Ok (eps', sched')
    /\ default_episode_budget sched' = default_episode_budget sched
    /\ (forall ep, (forall rec, rec ∈ recs -> named rec = true -> ep_id rec <> ep) ->
         eps' !! ep = eps !! ep /\ accounts sched' !! ep = accounts sched !! ep)
    /\ (forall rec, rec ∈ recs -> named rec = true ->
         eps' !! ep_id rec = Some (info_of d rec)
         /\ remaining_budget sched' (ep_id rec) = Some (default_episode_budget sched)).
Proof.
  intros Hd. revert eps sched. induction recs as [|rec recs IH]; intros eps sched Hnd.
  { exists eps, sched. split_and!; try done. by intros rec ?%elem_of_nil. }
  cbn [foldl map] in *. apply NoDup_cons in Hnd as [Hni Hnd]. rewrite restore_one by done.
  set (s1 := if named rec then _ else (eps, sched)).
  destruct (IH s1.1 s1.2 Hnd) as (eps' & sched' & Hf & Hdef & Hother & Hin). rewrite <- surjective_pairing in Hf.
  exists eps', sched'. split; [exact Hf|].
  assert (default_episode_budget s1.2 = default_episode_budget sched) as Hdef1 by (unfold s1; by destruct (named rec)).
  split; [by rewrite Hdef|]. split.
  - intros ep Hne. destruct (Hother ep) as [-> ->]; [intros r Hr; apply Hne; by right|].
    unfold s1. destruct (named rec) eqn:Hn; [|done]. cbn.
    rewrite !lookup_insert_ne by (apply Hne; [left|done]). done.
  - intros r Hr Hn. apply elem_of_cons in Hr as [->|Hr]; [|rewrite <- Hdef1; by apply Hin].
    unfold remaining_budget. destruct (Hother (ep_id rec)) as [-> ->].
    { intros r Hr _ He. apply Hni. rewrite <- He. by apply list_elem_of_fmap_2. }
    unfold s1. rewrite Hn. cbn. by rewrite !lookup_insert_eq.
Qed.

Lemma list_episodes_elem d rec :
  episodes_keyed d -> rec ∈ list_episodes d <-> episodes d !! ep_id rec = Some rec.
Proof.
  intros Hk. unfold list_episodes. rewrite merge_sort_Permutation, list_elem_of_fmap. split.
  - intros ([i r] & -> & Hm%elem_of_map_to_list). cbn. by rewrite (Hk _ _ Hm).
  - intros He. exists (ep_id rec, rec). by rewrite elem_of_map_to_list.
Qed.

Lemma list_episodes_nodup d : episodes_keyed d -> NoDup (map ep_id (list_episodes d)).
Proof.
  intros Hk. unfold list_episodes. rewrite merge_sort_Permutation.
  assert (map ep_id (map_to_list (episodes d)).*2 = (map_to_list (episodes d)).*1) as ->; [|apply NoDup_fst_map_to_list].
  assert (Forall (fun p => ep_id p.2 = p.1) (map_to_list (episodes d))) as HF.
  { apply Forall_forall. intros [i r] Hm%elem_of_map_to_list. by apply Hk. }
  induction HF as [|p l Hp _ IH]; [done|]. cbn. by rewrite Hp, IH.
Qed.

Lemma named_spec rec : named rec = true <-> Dag.root_branch rec <> EmptyString /\ Dag.created_by rec <> EmptyString.
Proof.
  unfold named. by destruct (Dag.root_branch rec), (Dag.created_by rec); cbn; split; try done; intros [].
Qed.

(** The index of a restored kernel agrees with the graph. *)
Lemma info_of_index d rec : dag_ok d -> episodes d !! ep_id rec = Some rec -> index_ok d (ep_id rec) (info_of d rec).
Proof.
  intros Hd He. split; [by exists rec|]. cbn. destruct (branches_of_Ok d (ep_id rec) Hd) as (bs & -> & Hbs).
  intros br. apply Hbs.
Qed.

(** * Discarding *)

Definition discards (bs : list B) (branch : string) : list WorldEvent :=
  map (fun b => DiscardedOn (profile b) branch) bs.

(** Asking the backends in turn: nothing but the trace, the clock and the workspaces moves,
    and no error is reported only if every one of them answered without one. *)
Record asked (bs : list B) (branch : string) k k' (o : option KernelError) : Prop := {
  asked_dag : k_dag k' = k_dag k;
  asked_sched : k_sched k' = k_sched k;
  asked_log : k_log k' = k_log k ++ discards bs branch;
  asked_tick : k_tick k' = (k_tick k + length bs)%nat;
  asked_ok : o = None -> forall i b, bs !! i = Some b -> backend_discard (k_tick k + i) b branch = Ok tt;
}.

Lemma discard_on_spec b branch k :
  exists k', discard_on b branch k = (Ok (backend_discard (k_tick k) b branch), k')
    /\ asked [b] branch k k' (match backend_discard (k_tick k) b branch with Err e => Some e | Ok _ => None end).
Proof.
  unfold discard_on, mbind, K_bind, tick, update. eexists. split; [reflexivity|].
  destruct (shares_workspace _); (split; cbn; [done..|lia|]); intros Ho [|i] b' [= <-]; rewrite Nat.add_0_r;
    by destruct (backend_discard _ _ _) as [[]|].
Qed.

Lemma asked_app bs bs' branch k1 k2 k3 o o' :
  asked bs branch k1 k2 o -> asked bs' branch k2 k3 o' ->
  asked (bs ++ bs') branch k1 k3 (match o with Some e => Some e | None => o' end).
Proof.
  intros [Hd Hs Hl Ht Ho] [Hd' Hs' Hl' Ht' Ho']. split; try congruence.
  - rewrite Hl', Hl. unfold discards. by rewrite map_app, app_assoc.
  - rewrite Ht', Ht, length_app. lia.
  - intros Hnone i b Hi. destruct o; [done|]. apply lookup_app_Some in Hi as [Hi|[Hle Hi]]; [by apply Ho|].
    specialize (Ho' Hnone _ _ Hi). rewrite Ht in Ho'. replace (k_tick k1 + i)%nat with (k_tick k1 + length bs + (i - length bs))%nat by lia.
    done.
Qed.

Lemma discard_each_spec bs branch k :
  exists o k', discard_each bs branch k = (Ok o, k') /\ asked bs branch k k' o.
Proof.
  revert k. induction bs as [|b bs IH]; intros k.
  - exists None, k. split; [done|]. split; cbn; rewrite ?app_nil_r, ?Nat.add_0_r; done.
  - destruct (discard_on_spec b branch k) as (k1 & He & H1'). destruct (IH k1) as (o & k2 & He' & H2').
    cbn [discard_each]. unfold mbind, K_bind. rewrite He, He'. do 2 eexists. split; [reflexivity|].
    pose proof (asked_app _ _ _ _ _ _ _ _ H1' H2') as Ha. by destruct (backend_discard _ _ _).
Qed.

(** * Properties *)

(** C6: The kernel stays well formed through any sequence of facade calls, failed ones
    included: history in the graph is closed and acyclic, with every live head stored, and
    never crosses an episode, the spawn tree of principals is a forest, lease columns mirror
    their leases, effect rows and receipts are consistent with one committed receipt per
    idempotency key, and the episode index names only what the graph holds.  No call loses or
    alters a recorded state or a stored blob, and an effect once proposed stays on record with
    its contract, proposer, branch, step and lease, only its phase moving. *)
Theorem kernel_stays_wf k k' :
  kernel_wf k -> rtc kernel_step k k' ->
  kernel_wf k' /\ extends (k_dag k) (k_dag k') /\ refiled (k_broker k) (k_broker k').
Proof.
  intros Hk Hr%kernel_run_parts. destruct (part_run_wf _ _ Hr Hk). split_and!; [done..|by apply part_run_refiled].
Qed.

(** The audit log is append-only: as long as its sequence numbers fit their type, any
    sequence of facade calls leaves every event already recorded in place, in order and
    unchanged, and the events stay numbered without gaps. *)
Theorem audit_append_only k k' :
  numbered (events (k_ledger k)) -> rtc kernel_step k k' ->
  Z.of_nat (length (events (k_ledger k'))) < i64_max ->
  events (k_ledger k) `prefix_of` events (k_ledger k') /\ numbered (events (k_ledger k')).
Proof.
  intros Hn Hr Hmax. destruct (part_run_grown (events (k_ledger k)) k k') as [Hg|Hg]; [by apply kernel_run_parts| |done|lia].
  by left.
Qed.

(** C28: A restart loses no episode, but forgets what it spent.  Opening a kernel over the
    stores of a well-formed one succeeds and gives a well-formed kernel, which serves every
    episode the old one served (created by a principal with a name, on a named branch) with
    the same root, owner and at least the same branches.  Its budget is the whole default
    envelope again, whatever was left before: the totals are not persisted, although the
    documentation of [register_episode] says that a restart registers an episode with them. *)
Theorem restart_restores k l doc (local : B) budget dirs t :
  kernel_wf k ->
  exists k0, kernel_open (k_dag k) l (k_db k) doc (k_broker k) local budget dirs t = Ok k0
    /\ kernel_wf k0
    /\ forall ep info, k_episodes k !! ep = Some info ->
         root_branch info <> EmptyString -> created_by info <> EmptyString ->
         exists info', k_episodes k0 !! ep = Some info'
           /\ root_branch info' = root_branch info /\ root_state info' = root_state info
           /\ created_by info' = created_by info /\ info_branches info ⊆ info_branches info'
           /\ remaining_budget (k_sched k0) ep = Some budget.
Proof.
  intros [Hd Ha Hk Hr Hl Hb Hi]. unfold kernel_open, restore_episodes.
  destruct (restore_all (k_dag k) (list_episodes (k_dag k)) ∅
    (mkScheduler (register_backend [] local) ∅ budget [] ∅ None) Hd (list_episodes_nodup _ Hk))
    as (eps & sched & -> & _ & Hother & Hin).
  eexists. split; [reflexivity|]. split.
  - split; try done. cbn. intros ep info He.
    assert (forall rec, rec ∈ list_episodes (k_dag k) -> ep_id rec = ep -> episodes (k_dag k) !! ep = Some rec) as Hlook.
    { intros rec Hrec <-. by apply list_episodes_elem. }
    destruct (episodes (k_dag k) !! ep) as [rec|] eqn:Hep; [destruct (named rec) eqn:Hn|].
    + pose proof (Hk _ _ Hep) as <-. destruct (Hin rec) as [He' _]; [by apply list_episodes_elem|done|].
      assert (info = info_of (k_dag k) rec) as -> by congruence. by apply info_of_index.
    + destruct (Hother ep) as [He' _]; [|cbn in He'; by rewrite He' in He].
      intros rec' Hrec Hn' Heq. specialize (Hlook _ Hrec Heq). congruence.
    + destruct (Hother ep) as [He' _]; [|cbn in He'; by rewrite He' in He].
      intros rec' Hrec Hn' Heq. by specialize (Hlook _ Hrec Heq).
  - cbn. intros ep info He Hrb Hcb. destruct (Hi ep info He) as [(rec & Hrec & Hid & Hrb' & Hrs & Hcb') Hbrs].
    subst ep. destruct (Hin rec) as [Hinfo Hbud].
    + by apply list_episodes_elem.
    + apply named_spec. by rewrite Hrb', Hcb'.
    + exists (info_of (k_dag k) rec). split_and!; try done.
      intros br Hbr. cbn. destruct (branches_of_Ok (k_dag k) (ep_id rec) Hd) as (bs & -> & Hbs). apply Hbs. by apply Hbrs.
Qed.

(** Resources go before records. A branch is marked discarded only after every backend,
    the local one last, was asked to release it and answered without an error, and then
    nothing else in the graph changes; if any of them fails the call raises that error and
    the graph is as before, so the branch can be discarded again. A branch already
    discarded is refused untouched, and for a merged one only the cleanup is repeated. *)
Theorem discard_releases_first branch k local others b :
  router (k_sched k) = local :: others -> get_branch (k_dag k) branch = Ok b ->
  let '(r, k') := discard_branch branch k in
  match b_status b with
  | Discarded => r = Err (Raised (BranchDiscarded branch)) /\ k' = k
  | Merged =>
      exists o, asked (local :: others) branch k k' o
        /\ r = match o with None => Ok tt | Some e => Err (Raised e) end
  | Active =>
      (exists d k1, r = Ok tt /\ k' = set_dag k1 d /\ asked (others ++ [local]) branch k k1 None
         /\ Dag.discard_branch (k_dag k) branch = Ok d)
      \/ (exists e, r = Err (Raised e) /\ k_dag k' = k_dag k
          /\ exists bs, k_log k' = k_log k ++ discards bs branch)
  end.
Proof.
  intros Hrouter Hb. unfold discard_branch, mbind, K_bind, get, update, lift. rewrite Hb. cbn [mret K_ret].
  destruct (b_status b) eqn:Hs; unfold mret, K_ret; rewrite ?Hrouter; [| |].
  - change (drop 1 (local :: others)) with others.
    destruct (discard_each_spec others branch k) as (o & k1 & -> & Ha). destruct o as [e|].
    { right. exists e. split; [done|]. split; [apply Ha|]. exists others. apply Ha. }
    unfold local_backend, mbind, K_bind, get, update, mret, K_ret. rewrite (asked_sched _ _ _ _ _ Ha), Hrouter.
    destruct (discard_on_spec local branch k1) as (k2 & -> & Ha'). pose proof (asked_app _ _ _ _ _ _ _ _ Ha Ha') as Hall.
    destruct (backend_discard _ _ _) as [[]|e] eqn:Hbd; cbn.
    + assert (exists d, Dag.discard_branch (k_dag k) branch = Ok d) as [d Hd].
      { unfold Dag.discard_branch. unfold get_branch in Hb. rewrite Hb. cbn. rewrite decide_False by by rewrite Hs. eauto. }
      unfold dag_discard, update. rewrite (asked_dag _ _ _ _ _ Hall), Hd. left. exists d, k2. by split_and!.
    + right. exists e. split; [done|]. split; [apply Hall|]. eexists. apply Hall.
  - done.
  - destruct (discard_each_spec (local :: others) branch k) as (o & k1 & -> & Ha).
    destruct o as [e|]; [exists (Some e)|exists None]; done.
Qed.
End invariant.
