(* ===== verification/KernelCommit.v ===== *)
(** Committing an effect through the facade: the authority it takes, and the
    record it leaves. *)

From stdpp Require Import pretty.
From S2P Require Import Prelude Json Budget Glob Capability Types Canonical IdentityDb Registry.
From S2P Require Import LeaseStore Delegation Policy Router Scheduler Effect Ledger Broker Snapshot.
From S2P Require Import Dag Path Workspace B64 Utf8 Observation KernelText Kernel KernelStep.
From S2P Require Import KernelLogic KernelSafety KernelTransition KernelTrace KernelBranch.
From S2P Require Import KernelEffects KernelRefine.

Open Scope Z_scope.

Section commit.
Context {B : Type} `{!Backend B, !RouterDebug, !World B}.
Context `{!Serde, !Sha256, !TimeJson, !JsonText, !DeltaSerde, !TimeText, !Chrono, !ManifestSerde}.
Context `{!ReceiptSigner, !ErrorDisplay, !KernelDisplay, !PathsDebug, !StepSerde, !ReplaySerde}.

Implicit Types (k : Kernel B).

Abbreviation keeps I m := (triple I m (fun _ => I) I).

(** * What the call takes *)

Definition logged (l : list WorldEvent) (k : Kernel B) : Prop := k_log k = l.

Lemma logged_inert l : inert_on everywhere (logged l).
Proof. split; [by intros k Hk|]. intros k Hk. by split_and!. Qed.

(** After the broker's answer nothing more leaves the kernel. *)
Lemma keeps_bookkeeping l id (result : KernelResult Receipt) :
  keeps (logged l) (e ← effect id; w ← effect_writer e;
    match result with
    | Ok r => record_commit w id e r
    | Err err =>
        let in_doubt := match err with CommitInDoubt _ _ => true | _ => false end in
        record_event w KEffectAborted (aborted_payload id (error_display err) in_doubt) [];;
        raise err
    end).
Proof.
  pose proof (logged_inert l) as HI.
  apply keeps_bind; [by apply (keeps_quiet everywhere), quiet_effect|intros e].
  apply keeps_bind; [by apply (keeps_quiet everywhere), quiet_effect_writer|intros w]. destruct result as [r|err].
  - apply keeps_bind; [apply (keeps_quiet everywhere); [done|apply quiet_attempt, quiet_store_receipt]|intros _].
    do 4 (apply keeps_bind; [apply (keeps_quiet everywhere); auto with ak|intros ?]).
    apply keeps_bind; [by apply keeps_attempt, (keeps_dag_append everywhere)|intros _]. apply (keeps_quiet everywhere); auto with ak.
  - cbv zeta. apply keeps_bind; [apply (keeps_quiet everywhere); auto with ak|intros ?]. apply (keeps_quiet everywhere); auto with ak.
Qed.

(** The authority behind an external call. *)
Definition commit_authority k (id : string) (e : PendingEffect) : Prop :=
  load_effect (k_broker k) id = Ok e
  /\ contract_hash (contract e) = effect_contract_hash e
  /\ (exists lease, get_lease (k_db k) (effect_lease e) = Ok lease /\ revoked lease = false
        /\ clock (k_tick k) < expires_at lease)
  /\ match phase e with
     | Approved _ _ _ =>
         exists a, load_approval (k_broker k) (effect_id e) = Ok (Some a)
           /\ ar_contract_hash a = contract_hash (contract e) /\ ar_policy_epoch a = policy_epoch (k_policy k)
     | Prepared _ => ec_class (contract e) <> Irreversible /\ ec_class (contract e) <> OpaqueExternal
     | _ => False
     end.

Lemma validated_authority k id v :
  validated_ok (lease_live (k_db k) (clock (k_tick k))) (k_broker k) id (policy_epoch (k_policy k)) v ->
  commit_authority k id (v_effect v).
Proof.
  intros (Hl & Hh & Hlease & Hph & _). split_and!; [done|done| |].
  - unfold lease_live in Hlease. destruct (get_lease _ _) as [lease|]; [|done]. apply andb_true_iff in Hlease as [Hr Ht].
    exists lease. split_and!; [done|by destruct (revoked lease)|lia].
  - destruct (phase (v_effect v)); try done. destruct Hph as (a & _ & Ha & Hch & Hep). by exists a.
Qed.

(** The broker's part of the call. *)
Lemma commit_effect_unfold id k :
  let t := clock (k_tick k) in
  let k1 := add_tick (add_tick (add_tick k)) in
  let '(r, st, calls) := commit (broker_conns k) (lease_live (k_db k) t) (k_broker k) id (policy_epoch (k_policy k))
    (id_generate "rcpt" (uuid (S (k_tick k)))) (clock (S (S (k_tick k)))) in
  commit_effect id k =
  (e ← effect id; w ← effect_writer e;
    match r with
    | Ok r => record_commit w id e r
    | Err err =>
        let in_doubt := match err with CommitInDoubt _ _ => true | _ => false end in
        record_event w KEffectAborted (aborted_payload id (error_display err) in_doubt) [];;
        raise err
    end) (foldl (fun k c => add_log k (CommitCall c)) (set_broker k1 st) calls).
Proof.
  cbv zeta. unfold commit_effect, broker_commit, mbind at 1, K_bind at 1, get, update.
  unfold now, generate, mbind, K_bind, tick, mret, K_ret. cbn [k_tick k_broker k_db k_policy add_tick].
  change (broker_conns (add_tick (add_tick (add_tick k)))) with (broker_conns k).
  by destruct (commit _ _ _ _ _ _ _) as [[r st] calls].
Qed.

(** * What the call leaves *)

Lemma silent_store_receipt r key : silent (store_receipt_k (B := B) r key).
Proof.
  intros k. unfold store_receipt_k, store_receipt. destruct (receipt_by_key _ _); [by case_bool_decide|].
  by destruct (receipts _ !! _).
Qed.

Definition committed_event (id : string) (rc : Receipt) (ev : LedgerEvent) : Prop :=
  ev_kind (body ev) = KEffectCommitted /\ value_get "effect_id" (ev_payload (body ev)) = Some (Str id)
  /\ value_get "receipt_id" (ev_payload (body ev)) = Some (Str (receipt_id rc)).

Lemma traced_record_commit rows0 w st id e rc :
  Z.of_nat (length rows0) + 4 <= i64_max ->
  triple (traced rows0 w st []) (record_commit w id e rc)
    (fun rc' k => rc' = rc /\ exists ev, traced rows0 w st [ev] k /\ committed_event id rc ev) (fun _ => True).
Proof.
  intros Hroom. apply traced_silent; [apply silent_attempt, silent_store_receipt|intros _].
  apply returns_record_bind; [done|cbn; lia|]. intros ev (Hk & Hp & _). cbn [app].
  do 3 (apply traced_silent; [auto using silent_get, silent_lift, silent_generate|intros ?]).
  apply traced_silent; [apply silent_attempt, silent_dag_append|intros _].
  intros k Hk'. cbn. split; [done|]. exists ev. split; [done|]. unfold committed_event. by rewrite Hk, Hp.
Qed.

Lemma add_logs_frame calls k :
  let k' := foldl (fun k c => add_log k (CommitCall c)) k calls in
  k_broker k' = k_broker k /\ k_dag k' = k_dag k /\ k_ledger k' = k_ledger k.
Proof. revert k. induction calls as [|c calls IH]; intros k; [done|]. apply (IH (add_log k (CommitCall c))). Qed.

Lemma commit_Ok_receipt conns lc st id epoch fresh t rc st' calls :
  st_inv st -> commit conns lc st id epoch fresh t = (Ok rc, st', calls) -> exists rid, receipt st' rid = Ok rc.
Proof.
  intros Hst. unfold commit. destruct (commit_validate _ _ _ _ _) as [[q|v] st1] eqn:Hv.
  - intros [= -> <- <-]. unfold commit_validate, stale_done, stale in Hv.
    repeat (case_match; simplify_eq/=; eauto).
  - apply commit_validate_spec in Hv as (_ & -> & Hok); [|done].
    destruct (claim_commit _ _ _) as [[[]|err] st2] eqn:Hc; [|done]. intros [= Hset _].
    destruct (claim_commit_inv _ _ _ _ Hst Hc) as (Hst2 & _).
    assert (forall a res, finalize_commit st2 fresh t (v_effect v) a epoch res = (Ok rc, st') ->
      exists rid, receipt st' rid = Ok rc) as Hfin.
    { intros a res Hf. apply finalize_commit_spec in Hf as (_ & _ & _ & _ & _ & _ & _ & Hr & _); [|done]. eauto. }
    unfold commit_settle, resolve_failed_commit in Hset.
    destruct (c_commit _ _); [eauto|]. destruct (probe_commit _ _) as [[]|]; simplify_eq; eauto.
Qed.

(** * Properties *)

(** C4: An external effect takes live authority at the moment of the call. If a commit
    through the facade makes an external call, it makes one, with the contract of the
    stored effect; that contract still has the hash it was proposed with; the lease the
    effect was proposed under exists, is not revoked and has not expired now; and the
    approval covers that hash at the policy epoch in force now, or the effect is prepared
    and of a class that needs none. *)
Theorem commit_takes_authority id k :
  st_inv (k_broker k) ->
  k_log (commit_effect id k).2 = k_log k
  \/ exists e, k_log (commit_effect id k).2 = k_log k ++ [CommitCall (contract e)] /\ commit_authority k id e.
Proof.
  intros Hst. pose proof (commit_effect_unfold id k) as Hu. cbv zeta in Hu.
  destruct (commit _ _ _ _ _ _ _) as [[r st] calls] eqn:Hc. rewrite Hu. clear Hu.
  set (k1 := foldl _ _ _).
  pose proof (keeps_bookkeeping (k_log k1) id r k1 eq_refl) as Hb.
  match goal with |- context [k_log (?m k1).2] => destruct (m k1) as [[a|e] k2] end; cbn [snd] in *;
    unfold logged in Hb; rewrite Hb; unfold k1; clear Hb k1.
  all: unfold commit in Hc; destruct (commit_validate _ _ _ _ _) as [[q|v] st1] eqn:Hv; [simplify_eq; by left|].
  all: apply commit_validate_spec in Hv as (_ & -> & Hok); [|done].
  all: destruct (claim_commit _ _ _) as [[u|err] st2]; [|simplify_eq; by left].
  all: injection Hc as _ <-; right; exists (v_effect v); split; [done|by apply validated_authority].
Qed.

(** C5: A commit that returns is on record.  The receipt it returns is in the broker's store,
    and the ledger grew by exactly one event, which says the effect was committed under
    that receipt and is attributed to the episode, branch and step the effect came from
    and to its proposer; provided the broker's store and the numbering of the ledger are as
    the facade keeps them and the ledger is four rows short of its last number. *)
Theorem commit_recorded id k rc k' :
  commit_effect id k = (Ok rc, k') ->
  st_inv (k_broker k) -> numbered (events (k_ledger k)) -> Z.of_nat (length (events (k_ledger k))) + 4 <= i64_max ->
  exists e b ev rid, load_effect (k_broker k') id = Ok e /\ get_branch (k_dag k) (effect_branch e) = Ok b
    /\ receipt (k_broker k') rid = Ok rc
    /\ events (k_ledger k') = events (k_ledger k) ++ [row_of_event ev] /\ committed_event id rc ev
    /\ attributed (mkWriter (b_episode b) (Some (effect_branch e)) (Some (effect_step e)) (proposer e)) ev.
Proof.
  intros Hrun Hst Hn Hroom. pose proof (commit_effect_unfold id k) as Hu. cbv zeta in Hu.
  destruct (commit _ _ _ _ _ _ _) as [[r st] calls] eqn:Hc. rewrite Hu in Hrun. clear Hu.
  set (k1 := foldl _ _ calls) in Hrun.
  assert (k_broker k1 = st /\ k_dag k1 = k_dag k /\ k_ledger k1 = k_ledger k) as (Hb1 & Hd1 & Hl1).
  { exact (add_logs_frame calls (set_broker (add_tick (add_tick (add_tick k))) st)). }
  unfold effect, effect_writer, mbind, K_bind, get, update, mret, K_ret, lift in Hrun. rewrite Hb1 in Hrun.
  destruct (load_effect st id) as [e|] eqn:He; [|done]. unfold mret, K_ret in Hrun. rewrite Hd1 in Hrun.
  destruct (get_branch (k_dag k) (effect_branch e)) as [b|] eqn:Hb; [|done].
  unfold mret, K_ret in Hrun. destruct r as [rc'|err].
  2:{ cbv zeta in Hrun. destruct (record_event _ _ _ _ _) as [[]]; done. }
  set (w := mkWriter _ _ _ _) in Hrun.
  pose proof (traced_record_commit (events (k_ledger k)) w st id e rc' Hroom k1) as Ht. rewrite Hrun in Ht.
  destruct Ht as (-> & ev & (Hev & _ & Hat & Hbk) & Hce).
  { unfold traced. cbn. rewrite Hl1, app_nil_r. by split_and!. }
  destruct (commit_Ok_receipt _ _ _ _ _ _ _ _ _ _ Hst Hc) as [rid Hrid].
  exists e, b, ev, rid. rewrite Hbk. do 5 (split; [done|]). exact (proj1 (Forall_singleton _ _) Hat).
Qed.
End commit.
