(* ===== verification/Testbed.v ===== *)
(** A concrete environment in which the kernel model runs: JSON text printed and
    read back, a cheap digest of 64 hexadecimal digits, hexadecimal text, a toy
    signature scheme, a clock that ticks by the second, and a host whose shell
    knows [true], [printf] and [printf] into a file.  The parameters of the
    model are instantiated by these functions when a scenario is run. *)

From stdpp Require Import pretty.
From S2P Require Import Prelude Json Budget Glob Capability Types Canonical IdentityDb Registry.
From S2P Require Import LeaseStore Delegation Policy Router Scheduler Effect Ledger Broker Snapshot.
From S2P Require Import Dag Path Workspace B64 Utf8 Observation KernelText Egress EgressText Secrets Kernel KernelStep KernelBranch.
From S2P Require Import KernelEffects HostFs LocalFiles.

Open Scope Z_scope.

Module Testbed.

(** * JSON text *)

Definition quote : string := String "034" EmptyString.

Definition hex4 (n : Z) : string :=
  String.string_of_list_ascii (map (fun i => ToySha.hex_digit (Z.to_N (Z.land (Z.shiftr n i) 15))) [12; 8; 4; 0]).

Definition escape_char (c : ascii) : string :=
  let b := byte_val c in
  if b =? 34 then String "092" (String "034" EmptyString)
  else if b =? 92 then String "092" (String "092" EmptyString)
  else if b =? 10 then String "092" (String "n" EmptyString)
  else if b =? 13 then String "092" (String "r" EmptyString)
  else if b =? 9 then String "092" (String "t" EmptyString)
  else if b <? 32 then String "092" (String "u" (hex4 b))
  else String c EmptyString.

Fixpoint escape (s : string) : string :=
  match s with EmptyString => EmptyString | String c s' => escape_char c +:+ escape s' end.

#[local] Instance serde : Serde :=
  {| scalar_to_string v :=
       match v with
       | Null => "null"
       | VBool b => if b then "true" else "false"
       | Number (PosInt n) | Number (NegInt n) => pretty n
       | Number (Float _) => "0.0"
       | Str s => quote +:+ escape s +:+ quote
       | _ => EmptyString
       end |}.

Fixpoint read_digits (s : string) (acc : Z) : Z * string :=
  match s with
  | String c s' =>
      let b := byte_val c in
      if (48 <=? b) && (b <=? 57) then read_digits s' (acc * 10 + (b - 48)) else (acc, s)
  | EmptyString => (acc, s)
  end.

Definition hex_val (c : ascii) : Z :=
  let b := byte_val c in
  if (48 <=? b) && (b <=? 57) then b - 48 else if (97 <=? b) && (b <=? 102) then b - 87 else 0.

(** The rest of a string after its opening quote; escapes of characters above 255 are not
    read. *)
Fixpoint read_string (fuel : nat) (s : string) : option (string * string) :=
  match fuel with
  | O => None
  | S fuel =>
      match s with
      | EmptyString => None
      | String c s' =>
          if byte_val c =? 34 then Some (EmptyString, s')
          else if byte_val c =? 92 then
            match s' with
            | String "u" (String a (String b (String d (String e r)))) =>
                '(t, rest) ← read_string fuel r;
                Some (String (ascii_of_nat (Z.to_nat (hex_val d * 16 + hex_val e))) t, rest)
            | String "n" r => '(t, rest) ← read_string fuel r; Some (String "010" t, rest)
            | String "r" r => '(t, rest) ← read_string fuel r; Some (String "013" t, rest)
            | String "t" r => '(t, rest) ← read_string fuel r; Some (String "009" t, rest)
            | String d r => '(t, rest) ← read_string fuel r; Some (String d t, rest)
            | EmptyString => None
            end
          else '(t, rest) ← read_string fuel s'; Some (String c t, rest)
      end
  end.

Definition read_number (s : string) : option (Value * string) :=
  match s with
  | String "-" r => let '(n, rest) := read_digits r 0 in Some (Number (NegInt (- n)), rest)
  | _ => let '(n, rest) := read_digits s 0 in if Nat.eqb (String.length rest) (String.length s) then None else Some (Number (PosInt n), rest)
  end.

Fixpoint read_value (fuel : nat) (s : string) : option (Value * string) :=
  match fuel with
  | O => None
  | S fuel =>
      match s with
      | String "{" (String "}" r) => Some (Object [], r)
      | String "{" r => '(m, rest) ← read_entries fuel r; Some (Object m, rest)
      | String "[" (String "]" r) => Some (Array [], r)
      | String "[" r => '(l, rest) ← read_items fuel r; Some (Array l, rest)
      | String "034" r => '(t, rest) ← read_string fuel r; Some (Str t, rest)
      | _ =>
          match strip_prefix "null" s, strip_prefix "true" s, strip_prefix "false" s with
          | Some r, _, _ => Some (Null, r)
          | _, Some r, _ => Some (VBool true, r)
          | _, _, Some r => Some (VBool false, r)
          | _, _, _ => read_number s
          end
      end
  end
with read_items (fuel : nat) (s : string) : option (list Value * string) :=
  match fuel with
  | O => None
  | S fuel =>
      '(v, r) ← read_value fuel s;
      match r with
      | String "," r' => '(l, rest) ← read_items fuel r'; Some (v :: l, rest)
      | String "]" r' => Some ([v], r')
      | _ => None
      end
  end
with read_entries (fuel : nat) (s : string) : option (list (string * Value) * string) :=
  match fuel with
  | O => None
  | S fuel =>
      match s with
      | String "034" r =>
          '(key, r) ← read_string fuel r;
          match r with
          | String ":" r' =>
              '(v, r) ← read_value fuel r';
              match r with
              | String "," r' => '(m, rest) ← read_entries fuel r'; Some ((key, v) :: m, rest)
              | String "}" r' => Some ([(key, v)], r')
              | _ => None
              end
          | _ => None
          end
      | _ => None
      end
  end.

Definition parse_json (s : string) : option Value :=
  match read_value (S (String.length s)) s with Some (v, EmptyString) => Some v | _ => None end.

Example json_read_back :
  let v := Object [("a b", Array [Number (PosInt 12); Number (NegInt (-3)); Null]);
                   ("c", Str (String "010" (quote +:+ "x,}]"))); ("d", Object [])] in
  parse_json (canonical_json v) = Some v.
Proof. vm_compute. reflexivity. Qed.

Definition link_of (v : Value) : option Z :=
  match v with Number (PosInt n) | Number (NegInt n) => Some n | _ => None end.

#[local] Instance json : JsonText :=
  {| payload_text := canonical_json;
     parse_payload s := ok_or (parse_json s) "expected value";
     stamp_text t := canonical_json (int_to_value t);
     parse_stamp s := ok_or (v ← parse_json s; link_of v) "premature end of input";
     links_text l := canonical_json (Array (map int_to_value l));
     parse_links s :=
       ok_or (v ← parse_json s; match v with Array l => mapM link_of l | _ => None end) "expected a sequence" |}.
#[local] Instance delta : DeltaSerde := {| delta_of_value _ := None |}.
#[local] Instance time_json : TimeJson := {| time_to_json t := pretty t |}.
#[local] Instance sha : Sha256 := ToySha.sha256.

Definition entry_of (v : Value) : option ManifestEntry :=
  match value_get "blob" v, value_get "mode" v with
  | Some (Str blob), Some (Number (PosInt mode)) => Some (mkEntry blob mode)
  | _, _ => None
  end.

#[local] Instance manifests : ManifestSerde :=
  {| manifest_of_slice s :=
       match parse_json s with
       | Some (Object m) =>
           ok_or (list_to_map <$> mapM (fun kv => e ← entry_of kv.2; Some (kv.1, e)) m) "invalid entry"
       | _ => Err "expected a map"
       end |}.

(** * The derived [Serialize] and [Deserialize] of steps *)

Definition code_name (c : DenialCode) : string :=
  match c with
  | CapabilityDenied => "CAPABILITY_DENIED" | CapabilityExpired => "CAPABILITY_EXPIRED"
  | CapabilityExhausted => "CAPABILITY_EXHAUSTED" | BudgetExhausted => "BUDGET_EXHAUSTED"
  | DConstraintViolated => "CONSTRAINT_VIOLATED" | BranchMismatch => "BRANCH_MISMATCH"
  | EffectRequiresApproval => "EFFECT_REQUIRES_APPROVAL" | DStaleAuthorization => "STALE_AUTHORIZATION"
  | PreconditionFailed => "PRECONDITION_FAILED" | DDuplicateCommit => "DUPLICATE_COMMIT"
  | DBackendUnavailable => "BACKEND_UNAVAILABLE" | PolicyForbidden => "POLICY_FORBIDDEN"
  end.

Definition scope_to_value (s : RequestableScope) : Value :=
  Object [("constraints", scope_constraints s); ("operation", Str (scope_operation s)); ("requires_human", VBool (scope_requires_human s))].

Definition denial_to_value (d : Denial) : Value :=
  Object ([("attempted_operation", Str (attempted_operation d)); ("code", Str (code_name (denial_code d)));
           ("escalation_allowed", VBool (escalation_allowed d)); ("reason", Str (denial_reason d))]
          ++ match requestable_scopes d with [] => [] | l => [("requestable_scopes", Array (map scope_to_value l))] end
          ++ match safe_alternatives d with [] => [] | l => [("safe_alternatives", Array (map Str l))] end).

Definition budget_to_value (b : ResourceBudget) : Value :=
  Object [("cost_micro_usd", Number (PosInt (cost_micro_usd b))); ("cpu_ms", Number (PosInt (cpu_ms b)));
          ("memory_bytes", Number (PosInt (memory_bytes b))); ("network_bytes", Number (PosInt (network_bytes b)));
          ("risk_units", Number (PosInt (risk_units b))); ("tokens", Number (PosInt (Budget.tokens b)))].

Definition get_pos (key : string) (v : Value) : option Z :=
  match value_get key v with Some (Number (PosInt n)) => Some n | _ => None end.

Definition budget_from_value (v : Value) : option ResourceBudget :=
  c ← get_pos "cpu_ms" v; m ← get_pos "memory_bytes" v; n ← get_pos "network_bytes" v;
  t ← get_pos "tokens" v; u ← get_pos "cost_micro_usd" v; r ← get_pos "risk_units" v;
  Some (mkBudget c m n t u r).

Definition opt_value (o : option string) : Value := match o with Some s => Str s | None => Null end.

Definition env_value (env : gmap string string) : Value := Object (map (fun kv => (kv.1, Str kv.2)) (bt_iter env)).

(** Shell commands and connector operations in full, other actions by their first text. *)
Definition action_to_value (a : ActionKind) : Value :=
  match a with
  | Shell c cwd env => Object [("command", Str c); ("cwd", opt_value cwd); ("env", env_value env); ("kind", Str "shell")]
  | ReadFile p => Object [("kind", Str "read_file"); ("path", Str p)]
  | WriteFile p c => Object [("contents_b64", Str c); ("kind", Str "write_file"); ("path", Str p)]
  | DeletePath p => Object [("kind", Str "delete_path"); ("path", Str p)]
  | ConnectorOp c o ps => Object [("connector", Str c); ("kind", Str "connector_op"); ("operation", Str o); ("params", ps)]
  | other => Object [("kind", Str (required_operation other))]
  end.

Definition action_from_value (v : Value) : result string ActionKind :=
  match value_get "kind" v, value_get "command" v, value_get "cwd" v with
  | Some (Str kind), Some (Str c), Some cwd =>
      if String.eqb kind "shell" then Ok (Shell c (as_str cwd) ∅) else Err "unknown variant"
  | _, _, _ => Err "missing field"
  end.

Definition opt_field (key : string) (o : option string) : list (string * Value) :=
  match o with Some s => [(key, Str s)] | None => [] end.

Definition observation_to_value (o : Observation) : Value :=
  match o with
  | Success summary _ h t code full truncated =>
      Object ([("exit_code", int_to_value code); ("full_output", Str full); ("kind", Str "success")]
              ++ opt_field "stdout_head" h ++ opt_field "stdout_tail" t
              ++ [("summary", Str summary); ("truncated", VBool truncated)])
  | Failure summary code first t full =>
      Object ([("exit_code", int_to_value code)] ++ opt_field "first_causal_failure" first
              ++ [("full_output", Str full); ("kind", Str "failure")] ++ opt_field "output_tail" t ++ [("summary", Str summary)])
  | ODenied d => Object [("denial", denial_to_value d); ("kind", Str "denied")]
  | EffectPending e h c =>
      Object [("class", Str (class_str c)); ("contract_hash", Str h); ("effect", Str e); ("kind", Str "effect_pending")]
  | EffectCommitted r => Object [("kind", Str "effect_committed"); ("receipt", Str r)]
  end.

Definition change_value (c : FileChange) : Value := Str (change_path c).

#[local] Instance steps : StepSerde :=
  {| action_value := action_to_value; budget_value := budget_to_value; denial_value := denial_to_value;
     code_value c := Str (code_name c); delta_value d := Array (map change_value (files d));
     observation_value := observation_to_value; changes_value l := Array (map change_value l);
     events_value l := Number (PosInt (Z.of_nat (length l))); json_text v := canonical_json v |}.

#[local] Instance replays : ReplaySerde :=
  {| resolution_value _ := Null; action_of_value := action_from_value; budget_of_value := budget_from_value;
     denial_of_value _ := None; serde_mismatch _ := "invalid type" |}.

(** * Texts, time and keys *)

#[local] Instance router_debug : RouterDebug := {| debug_unroutable _ _ names := str_join "," names |}.
#[local] Instance errors : ErrorDisplay := {| error_display := error_code |}.
#[local] Instance display : KernelDisplay :=
  {| time_display t := pretty t; identity_display _ := "identity error"; value_pretty v := canonical_json v |}.
#[local] Instance debug : PathsDebug := {| debug_paths l := str_join "," l |}.
#[local] Instance text : TimeText := ZTime.time.
#[local] Instance chrono : Chrono := PolicyDemo.chrono.
#[local] Instance backend : Backend BackendProfile := {| profile p := p |}.

(** Two lower-case digits for a byte. *)
Fixpoint hex_text (s : string) : string :=
  match s with
  | EmptyString => EmptyString
  | String c s' =>
      let n := Ascii.N_of_ascii c in
      String (ToySha.hex_digit (N.shiftr n 4)) (String (ToySha.hex_digit (N.land n 15)) (hex_text s'))
  end.

Definition hex_digit_val (c : ascii) : option Z :=
  let b := byte_val c in
  if (48 <=? b) && (b <=? 57) then Some (b - 48) else if (97 <=? b) && (b <=? 102) then Some (b - 87) else None.

Fixpoint hex_bytes (s : string) : result string string :=
  match s with
  | EmptyString => Ok EmptyString
  | String a (String b s') =>
      match hex_digit_val a, hex_digit_val b with
      | Some x, Some y => r ← hex_bytes s'; Ok (String (ascii_of_N (Z.to_N (x * 16 + y))) r)
      | _, _ => Err "invalid character"
      end
  | _ => Err "odd number of digits"
  end.

#[local] Instance hex : Hex := {| hex_encode := hex_text; hex_decode := hex_bytes |}.

Lemma hex_digits_read c :
  let n := Ascii.N_of_ascii c in
  match hex_digit_val (ToySha.hex_digit (N.shiftr n 4)), hex_digit_val (ToySha.hex_digit (N.land n 15)) with
  | Some x, Some y => ascii_of_N (Z.to_N (x * 16 + y)) = c
  | _, _ => False
  end.
Proof. destruct c as [[] [] [] [] [] [] [] []]; reflexivity. Qed.

Lemma hex_digit_plain c : let n := Ascii.N_of_ascii c in plain (ToySha.hex_digit (N.shiftr n 4)) /\ plain (ToySha.hex_digit (N.land n 15)).
Proof. destruct c as [[] [] [] [] [] [] [] []]; by repeat split; vm_compute. Qed.

Lemma hex_text_plain s : Forall plain (String.list_ascii_of_string (hex_text s)).
Proof. induction s as [|c s IH]; cbn; [done|]. destruct (hex_digit_plain c). constructor; [done|]. by constructor. Qed.

Lemma plain_chars s : Forall plain (String.list_ascii_of_string s) -> utf8_valid s = true.
Proof.
  intros Hs. assert (s = str_concat (map (fun c => String c EmptyString) (String.list_ascii_of_string s))) as ->.
  { clear Hs. induction s as [|c s IH]; [done|]. cbn. by rewrite <- IH. }
  apply utf8_valid_concat, Forall_map. eapply Forall_impl; [exact Hs|]. intros c [Hc _].
  apply (pieces_char_ok (String c EmptyString)). revert Hc. destruct c as [[] [] [] [] [] [] [] []]; vm_compute; try done; intros _; left.
Qed.

#[local] Instance hex_laws : HexLaws.
Proof.
  split; cbn.
  - induction b as [|c b IH]; cbn; [done|]. pose proof (hex_digits_read c) as Hc. cbv zeta in Hc.
    destruct (hex_digit_val _); [|done]. destruct (hex_digit_val _); [|done]. rewrite IH. cbn. by rewrite Hc.
  - intros b. split; [apply plain_chars, hex_text_plain|apply trim_plain, hex_text_plain].
Qed.

(** A keyed digest in place of the signature scheme. *)
Definition toy_sign (seed message : string) : string := ToySha.hex 64 (ToySha.digest (seed +:+ message) 7).

#[local] Instance ed25519 : Ed25519 :=
  {| ed_public seed := seed; ed_sign := toy_sign; ed_verify pk m sig := String.eqb sig (toy_sign pk m) |}.

Lemma hex_length k n : String.length (ToySha.hex k n) = k.
Proof. revert n. induction k as [|k IH]; intros n; cbn; [done|]. by rewrite IH. Qed.

#[local] Instance ed25519_laws : Ed25519Laws.
Proof. split; intros s m; [exact (hex_length 64 _)|exact (String.eqb_refl _)]. Qed.

(** * The host *)

Definition second : Z := 1000000000.

(** What a command prints, its exit status, and the file it writes. *)
Definition shell (command : string) : string * Z * option (string * string) :=
  let '(cmd, file) := match split_once ">" command with Some (c, f) => (c, Some (trim f)) | None => (command, None) end in
  match split_whitespace cmd with
  | [prog] => if String.eqb prog "true" then (EmptyString, 0, None) else (EmptyString, 127, None)
  | [prog; word] =>
      if String.eqb prog "printf" then
        match file with Some f => (EmptyString, 0, Some (f, word)) | None => (word, 0, None) end
      else (EmptyString, 1, None)
  | _ => (EmptyString, 127, None)
  end.

(** A workspace as a directory [/ws] of the host, and back with one mode for all files. *)
Definition mounted (fs : Snapshot.Fs) : gmap (list string) Node :=
  map_fold (fun p n host =>
      <["ws" :: p := match n with FFile c _ t => File c t | FLink target => Link target 0 end]>
        (foldr (fun i h => <["ws" :: take i p := Dir]> h) host (seq 1 (length p - 1))))
    {[["ws"] := Dir]} (ws fs).

Definition unmounted (fs : Snapshot.Fs) (host : gmap (list string) Node) : Snapshot.Fs :=
  mkFs (list_to_map (omap (fun pn => match pn with
                                     | ("ws" :: p, File c t) => Some (p, FFile c 420 t)
                                     | ("ws" :: p, Link target _) => Some (p, FLink target)
                                     | _ => None
                                     end) (map_to_list host))) (outside fs).

#[local] Instance io_text : IoText := {| errno_text _ := "io error" |}.

(** A file action of the local backend. *)
Definition file_run (fs : Snapshot.Fs) (act : gmap (list string) Node -> KernelResult ExecResult * gmap (list string) Node)
    : KernelResult ExecutionOutcome * Snapshot.Fs :=
  let '(r, host) := act (mounted fs) in
  ((fun x => mkOutcome (er_exit x) (er_stdout x) (er_stderr x) budget_zero [] FilesystemOnly None) <$> r, unmounted fs host).

Definition host_run (n : nat) (req : ExecutionRequest) (fs : Snapshot.Fs) : KernelResult ExecutionOutcome * Snapshot.Fs :=
  let t := (1700000000 + Z.of_nat n) * second in
  match req_action req with
  | Shell command _ _ =>
      let '(out, code, written) := shell command in
      let fs' := match written with Some (f, c) => mkFs (<[[f] := FFile c 420 t]> (ws fs)) (outside fs) | None => fs end in
      (Ok (mkOutcome code out EmptyString budget_zero (match written with Some (f, _) => [f] | None => [] end) FilesystemOnly None), fs')
  | ReadFile path => file_run fs (fun h => (read_action h ["ws"] 1048576 path (req_readable_prefixes req), h))
  | WriteFile path contents => file_run fs (fun h => write_action h t ["ws"] path contents (req_writable_prefixes req))
  | DeletePath path => file_run fs (fun h => delete_action h ["ws"] path (req_writable_prefixes req))
  | other => (Err (denial PolicyForbidden (required_operation other) "not here"), fs)
  end.

Definition ticking (run : nat -> BackendProfile -> ExecutionRequest -> Snapshot.Fs -> KernelResult ExecutionOutcome * Snapshot.Fs) : World BackendProfile :=
  {| uuid n := pretty n; clock n := (1700000000 + Z.of_nat n) * second; permit _ := Ok tt; step_clock _ := mkClock 0 1 2;
     backend_run := run; backend_discard _ _ _ := Ok tt; torn _ := empty_fs |}.

End Testbed.
