(* ===== verification/Receipts.v ===== *)
(** Receipts, from the broker that writes them to the facade that checks them:
    the signer the kernel hands to the broker ([KeySigner] of
    [kernel/api/src/kernel.rs]) and [verify_receipt].

    The broker signs the canonical text of a receipt's body; the kernel's signer
    parses that text and signs the canonical text of what it parsed.  Parsing
    JSON is the operation of [JsonParse]. *)

From stdpp Require Import pretty.
From S2P Require Import Prelude Json Budget Glob Capability Types Canonical IdentityDb Registry.
From S2P Require Import LeaseStore Delegation Policy Router Scheduler Effect Ledger Broker BrokerRecord Snapshot.
From S2P Require Import Dag DagScope Path Workspace B64 Utf8 Observation KernelText Egress EgressText Secrets Kernel KernelStep.
From S2P Require Import KernelLogic KernelSafety KernelTransition KernelTrace KernelBranch.
From S2P Require Import KernelEffects KernelRefine KernelInvariant Testbed.

Open Scope Z_scope.

(** [serde_json::from_slice::<Value>]. *)
Class JsonParse := { json_from_slice : string -> result string Value }.

Section signer.
Context `{!Serde, !Sha256, !TimeJson, !Hex, !Ed25519, !JsonParse}.

Definition sign_bytes (seed message : string) : string :=
  match json_from_slice message with
  | Ok v => sign_canonical seed v
  | Err _ => sign_canonical seed (Str (from_utf8_lossy message))
  end.

Definition key_signer (seed : string) : ReceiptSigner :=
  {| sign message := (sign_bytes seed message, key_id seed) |}.

Definition verify_receipt (identity_display : IdentityError -> string) (seed : string) (r : Receipt) : KernelResult bool :=
  map_err (kernel_error_of_identity identity_display)
    (verify_canonical (ed_public seed) (receipt_body_to_value (receipt_body r)) (receipt_signature r)).

(** The parser reads back the text of this body. *)
Definition reads_back (b : ReceiptBody) : Prop :=
  json_from_slice (canonical_json (receipt_body_to_value b)) = Ok (receipt_body_to_value b).
End signer.

(** * What the broker stores *)

Section stored.
Context `{!Serde, !Sha256, !TimeJson, !ReceiptSigner, !ErrorDisplay}.

Definition row_signed (row : ReceiptRow) : Prop := rr_json row = sign_receipt (rr_id row) (receipt_body (rr_json row)).

(** The table of receipts only grows, by signed receipts. *)
Definition receipts_grow (st st' : Store) : Prop :=
  exists rows, receipt_rows st' = receipt_rows st ++ rows /\ Forall row_signed rows.

#[export] Instance receipts_grow_preorder : PreOrder receipts_grow.
Proof.
  split.
  - intros st. exists []. by rewrite app_nil_r.
  - intros a b c (l & Hl & Fl) (m & Hm & Fm). exists (l ++ m). rewrite Hm, Hl, app_assoc. split; [done|]. by apply Forall_app.
Qed.

Lemma grow_same st st' : receipt_rows st' = receipt_rows st -> receipts_grow st st'.
Proof. intros He. exists []. by rewrite app_nil_r. Qed.

Lemma grow_update st id f : receipts_grow st (update_row st id f).
Proof. apply grow_same, update_row_receipts. Qed.

Lemma sign_receipt_body fresh b : receipt_body (sign_receipt fresh b) = b.
Proof. unfold sign_receipt. by destruct (sign _). Qed.

Lemma insert_grows st id e key comp b st' :
  insert_receipt st (mkReceiptRow id e key comp (sign_receipt id b)) = Ok st' -> receipts_grow st st'.
Proof.
  intros (-> & _)%insert_receipt_Ok. eexists. split; [done|]. repeat constructor. unfold row_signed. cbn.
  by rewrite sign_receipt_body.
Qed.

Lemma finalize_grows st fresh t e a epoch r : receipts_grow st (finalize_commit st fresh t e a epoch r).2.
Proof.
  unfold finalize_commit. cbv zeta. destruct (insert_receipt _ _) as [st1|] eqn:Hi; [|reflexivity].
  apply insert_grows in Hi. etrans; [exact Hi|]. apply grow_same, update_row_receipts.
Qed.

Lemma release_grows st e restore : receipts_grow st (release_claim st e restore).
Proof.
  apply grow_same. unfold release_claim. cbv zeta.
  by destruct (im_get _ _); [case_bool_decide|]; case_bool_decide.
Qed.

Lemma abort_grows st id reason : receipts_grow st (abort st id reason).2.
Proof.
  unfold abort. destruct (load_effect st id) as [e|]; [|reflexivity].
  destruct (phase e); try reflexivity; apply grow_update.
Qed.

Lemma stale_done_grows st id reason : receipts_grow st (stale_done st id reason).2.
Proof. pose proof (abort_grows st id reason) as Ha. unfold stale_done, stale. by destruct (abort st id reason) as [[]]. Qed.

Lemma validate_grows conns lc st id epoch : receipts_grow st (commit_validate conns lc st id epoch).2.
Proof.
  unfold commit_validate. destruct (load_effect st id) as [e|]; [|reflexivity].
  destruct (phase e); try reflexivity; (destruct (commit_approval st e); [|reflexivity]; cbv zeta);
    repeat match goal with
    | |- receipts_grow _ (stale_done _ _ _).2 => apply stale_done_grows
    | |- receipts_grow _ (_, _).2 => reflexivity
    | |- receipts_grow _ (match ?x with _ => _ end).2 => destruct x
    end.
Qed.

Lemma claim_grows st e t : receipts_grow st (claim_commit st e t).2.
Proof.
  apply grow_same. unfold claim_commit. cbv zeta. destruct (_ !! idempotency_key (contract e)); [|done].
  destruct (negb _); [done|]. destruct (im_get _ _); [|done]. by destruct (_ || _).
Qed.

Lemma commit_grows conns lc st id epoch fresh t : receipts_grow st (commit conns lc st id epoch fresh t).1.2.
Proof.
  unfold commit. pose proof (validate_grows conns lc st id epoch) as Hv.
  destruct (commit_validate _ _ _ _ _) as [[r|v] st1]; [done|].
  pose proof (claim_grows st1 (v_effect v) t) as Hc.
  destruct (claim_commit _ _ _) as [[u|err] st2]; [|by etrans]. cbv zeta. cbn [fst].
  etrans; [exact Hv|]. etrans; [exact Hc|]. unfold commit_settle.
  destruct (c_commit _ _); [apply finalize_grows|]. unfold resolve_failed_commit. cbv zeta.
  destruct (probe_commit _ _) as [[res| |]|]; [apply finalize_grows|apply release_grows|reflexivity..].
Qed.

Lemma recover_one_grows conns st fresh t e : receipts_grow st (recover_one conns st fresh t e).2.
Proof.
  unfold recover_one. destruct (connector_for _ _); [|reflexivity]. cbv zeta.
  destruct (probe_commit _ _) as [[res| |]|]; [|apply release_grows|reflexivity..].
  match goal with |- context [finalize_commit ?a ?b ?c ?d ?e ?f ?g] => pose proof (finalize_grows a b c d e f g) as Hf end.
  by destruct (finalize_commit _ _ _ _ _ _ _) as [[]].
Qed.

Lemma recover_loop_grows conns fresh t i st es : receipts_grow st (recover_loop conns fresh t i st es).2.
Proof.
  revert i st. induction es as [|e es IH]; intros i st; cbn [recover_loop]; [reflexivity|].
  pose proof (recover_one_grows conns st (fresh i) t e) as Ho. destruct (recover_one _ _ _ _ _) as [r st1].
  specialize (IH (S i) st1). destruct (recover_loop _ _ _ _ _ _) as [out st2]. by etrans.
Qed.

Lemma broker_move_grows st st' : broker_move st st' -> receipts_grow st st'.
Proof.
  intros Hm. destruct Hm.
  - apply grow_same. unfold propose. destruct (connector_for _ _); [|done]. destruct (canonicalize _ _ _); [|done].
    cbv zeta. destruct (committed_receipt_for_key _ _); [done|]. by destruct (im_get _ _).
  - unfold prepare. destruct (load_effect st id) as [e|]; [|reflexivity]. destruct (phase e); try reflexivity.
    destruct (connector_for _ _); [|reflexivity]. destruct (c_prepare _ _); [|reflexivity]. cbv zeta.
    apply grow_same. cbn [snd]. unfold set_observed, save_effect. by rewrite !update_row_receipts.
  - unfold approve. destruct (approve_load st id); [|reflexivity]. unfold approve_save. cbv zeta.
    apply grow_same. cbn [snd]. unfold save_effect, set_approval. by rewrite !update_row_receipts.
  - apply commit_grows.
  - apply recover_loop_grows.
  - unfold resolve_in_doubt. destruct (load_effect st id) as [e|]; [|reflexivity]. destruct (phase e); try reflexivity.
    destruct (load_approval st id); [|reflexivity]. destruct outcome; [|apply release_grows].
    match goal with |- context [finalize_commit ?a ?b ?c ?d ?e ?f ?g] => pose proof (finalize_grows a b c d e f g) as Hf end.
    by destruct (finalize_commit _ _ _ _ _ _ _) as [[]].
  - unfold compensate. destruct (load_effect st id) as [e|]; [|reflexivity]. destruct (phase e); try reflexivity.
    destruct (connector_for _ _); [|reflexivity]. destruct (c_compensate _ _); [|reflexivity]. cbv zeta.
    unfold sign_and_store. destruct (insert_receipt _ _) as [st1|] eqn:Hi; cbn; [|reflexivity].
    apply insert_grows in Hi. etrans; [exact Hi|]. apply grow_update.
Qed.

Lemma receipt_row st id r : receipt st id = Ok r -> exists row, row ∈ receipt_rows st /\ rr_id row = id /\ rr_json row = r.
Proof.
  unfold receipt. destruct (List.find _ _) as [row|] eqn:Hf; [|done]. intros [= <-].
  apply List.find_some in Hf as [Hin He%bool_decide_eq_true]. exists row. by rewrite list_elem_of_In.
Qed.
End stored.

(** * Receipts of a kernel *)

Section kernel_receipts.
Context {B : Type} `{!Backend B, !RouterDebug, !World B}.
Context `{!Serde, !Sha256, !TimeJson, !JsonText, !DeltaSerde, !TimeText, !Chrono, !ManifestSerde}.
Context `{!ErrorDisplay, !KernelDisplay, !PathsDebug, !StepSerde, !ReplaySerde}.
Context `{!Hex, !HexLaws, !Ed25519, !Ed25519Laws, !JsonParse} (seed : string).

#[local] Instance signer : ReceiptSigner := key_signer seed.

Implicit Types (k : Kernel B).

Lemma part_run_receipts k k' : rtc part_step k k' -> receipts_grow (k_broker k) (k_broker k').
Proof.
  intros Hr. induction Hr as [|k1 k2 k3 Hs _ IH]; [reflexivity|]. etrans; [|exact IH].
  destruct Hs; try reflexivity. by apply broker_move_grows.
Qed.

Lemma signed_verifies fresh b :
  reads_back b ->
  verify_receipt identity_display seed (sign_receipt fresh b) = Ok true /\ receipt_key_id (sign_receipt fresh b) = key_id seed.
Proof.
  intros Hb. unfold sign_receipt. cbn. split; [|done]. unfold verify_receipt, sign_bytes. cbn.
  rewrite Hb, signature_verifies; done.
Qed.

(** C11: Receipts are permanent and can be checked.  Whatever facade calls a kernel makes, no
    receipt is ever dropped or altered, and every receipt it then finds under an identifier
    carries that identifier, the kernel's key, and a signature that [verify_receipt] accepts:
    also one of a recovery, an operator's resolution or a compensation.  The parser is asked
    to read back the text of the receipt's own body. *)
Theorem receipts_verify k k' id r :
  Forall row_signed (receipt_rows (k_broker k)) -> rtc kernel_step k k' ->
  receipt (k_broker k') id = Ok r -> reads_back (receipt_body r) ->
  receipt_rows (k_broker k) `prefix_of` receipt_rows (k_broker k')
  /\ receipt_id r = id /\ receipt_key_id r = key_id seed
  /\ verify_receipt identity_display seed r = Ok true.
Proof.
  intros Hs Hr%kernel_run_parts Hf Hb. apply part_run_receipts in Hr as (rows & Hrows & Hsigned).
  apply receipt_row in Hf as (row & Hin & <- & <-).
  assert (row_signed row) as Hrow.
  { rewrite Hrows in Hin. apply elem_of_app in Hin as [Hin|Hin];
      [exact (proj1 (Forall_forall _ _) Hs _ Hin)|exact (proj1 (Forall_forall _ _) Hsigned _ Hin)]. }
  destruct (signed_verifies (rr_id row) (receipt_body (rr_json row)) Hb) as [Hv Hk].
  unfold row_signed in Hrow. rewrite <- Hrow in Hv, Hk. split; [by eexists|]. split; [|done].
  rewrite Hrow. unfold sign_receipt. done.
Qed.
End kernel_receipts.

(** * A commit whose receipt is checked *)

Module ReceiptsDemo.
#[local] Existing Instance Testbed.serde.
#[local] Existing Instance Testbed.json.
#[local] Existing Instance Testbed.delta.
#[local] Existing Instance Testbed.time_json.
#[local] Existing Instance Testbed.sha.
#[local] Existing Instance Testbed.manifests.
#[local] Existing Instance Testbed.steps.
#[local] Existing Instance Testbed.replays.
#[local] Existing Instance Testbed.router_debug.
#[local] Existing Instance Testbed.errors.
#[local] Existing Instance Testbed.display.
#[local] Existing Instance Testbed.debug.
#[local] Existing Instance Testbed.text.
#[local] Existing Instance Testbed.chrono.
#[local] Existing Instance Testbed.backend.
#[local] Existing Instance Testbed.hex.
#[local] Existing Instance Testbed.hex_laws.
#[local] Existing Instance Testbed.ed25519.
#[local] Existing Instance Testbed.ed25519_laws.

#[local] Instance parser : JsonParse := {| json_from_slice s := ok_or (Testbed.parse_json s) "expected value" |}.
#[local] Instance world : World BackendProfile := Testbed.ticking (fun n _ => Testbed.host_run n).

Definition seed : string := "seed".
#[local] Instance demo_signer : ReceiptSigner := key_signer seed.

Definition policy : PolicyDocument :=
  mkDoc 1 [mkRule "all" (mkSelector [] [] None None) ["*"] Allow [] 5 600 None 0 None]
    (mkPaths [EmptyString] [EmptyString]) [] (mkTools [] []) (mkEscalation false []).

Definition github : KConnector :=
  mkKConnector (mkConnector (fun _ a => Ok a) (fun _ => Ok (mkPrepared Null (Object []))) (fun _ => Ok (mkCommitResult (Str "pr #1")))
                  (fun _ => Ok ProbeUnknown) (fun _ => Ok (mkCommitResult Null)))
    (fun _ _ => Irreversible) [("github.create_pr", Irreversible)].

Definition no_kernel : Kernel BackendProfile :=
  mkKernel (dag_init ∅) ledger_empty db_empty policy store_empty (mkScheduler [] ∅ step_default [] ∅ None) ∅ ∅ [] ∅ ∅ [] 0.

Definition k0 : Kernel BackendProfile :=
  value_of no_kernel (kernel_open (dag_init ∅) ledger_empty db_empty policy store_empty RouterDemo.local step_default ∅ 0).
Definition k1 := (register_principal (new_agent "pr-1" "agent") k0).2.
Definition k2 := (register_connector "github" github k1).2.
Definition created := create_episode None "pr-1" None "ship" k2.
Definition br : string := match created.1 with Ok h => h_branch h | Err _ => EmptyString end.
Definition granted := request_capability "pr-1" "github.create_pr" (Object []) (Some br) created.2.
Definition lease : string := match granted.1 with Ok l => lease_id l | Err _ => EmptyString end.
Definition action : Action := mkAction (ConnectorOp "github" "create_pr" (Object [])) lease None budget_zero.
Definition proposed := execute_step "pr-1" br action granted.2.
Definition fx : string :=
  match proposed.1 with Ok r => match sr_observation r with EffectPending id _ _ => id | _ => "" end | _ => "" end.
Definition k3 := (prepare_effect fx proposed.2).2.
Definition k4 := (approve_effect fx "pr-1" k3).2.
Definition committed := commit_effect fx k4.
Definition rc : Receipt :=
  match committed.1 with Ok r => r | Err _ => mkReceipt "" (mkReceiptBody "" "" "" "" "" "" "" 0 "" "" 0) "" "" end.

Lemma run : rtc kernel_step k0 committed.2.
Proof.
  apply (rtc_l _ _ k1); [exact (ks_principal k0 (new_agent "pr-1" "agent"))|].
  apply (rtc_l _ _ k2); [exact (ks_connector k1 "github" github)|].
  apply (rtc_l _ _ created.2); [exact (ks_episode k2 None "pr-1" None "ship")|].
  apply (rtc_l _ _ granted.2); [exact (ks_request created.2 "pr-1" "github.create_pr" (Object []) (Some br))|].
  apply (rtc_l _ _ proposed.2); [exact (ks_execute granted.2 "pr-1" br action)|].
  apply (rtc_l _ _ k3); [exact (ks_prepare proposed.2 fx)|].
  apply (rtc_l _ _ k4); [exact (ks_approve k3 fx "pr-1")|].
  apply rtc_once. exact (ks_commit k4 fx).
Qed.

Lemma receipts_verify_witness :
  is_ok committed.1 = true /\ verify_receipt identity_display seed rc = Ok true.
Proof.
  split; [vm_compute; reflexivity|].
  assert (receipt_rows (k_broker k0) = []) as H0 by (vm_compute; reflexivity).
  assert (Forall row_signed (receipt_rows (k_broker k0))) as Hs by (rewrite H0; constructor).
  assert (receipt (k_broker committed.2) (receipt_id rc) = Ok rc) as Hf by (vm_compute; reflexivity).
  assert (reads_back (receipt_body rc)) as Hb by (vm_compute; reflexivity).
  exact (proj2 (proj2 (proj2 (receipts_verify seed k0 committed.2 (receipt_id rc) rc Hs run Hf Hb)))).
Defined.
End ReceiptsDemo.
