(* ===== verification/KernelExplore.v ===== *)
(** Parallel exploration: [Kernel::explore] of [api/kernel.rs].

    Each candidate is a task over the shared kernel and the shared flag [won],
    cut at its reads and writes of the flag and at its facade calls; a task
    runs only while it holds one of the semaphore's permits.  [explore_move]
    interleaves the tasks with each other and with other callers; [conclude] is what the call does once every task has ended. *)

From stdpp Require Import pretty.
From S2P Require Import Prelude Json Budget Glob Capability Types Canonical IdentityDb Registry.
From S2P Require Import LeaseStore Delegation Policy Router Scheduler Effect Ledger Broker Snapshot.
From S2P Require Import Dag Path Workspace B64 Utf8 Observation KernelText Kernel KernelStep.
From S2P Require Import KernelBranch KernelEffects KernelLogic KernelSafety KernelRefine.

Open Scope Z_scope.

(** * Data *)

Definition MAX_EXPLORE_CANDIDATES : nat := 16.

Record ExploreCandidate := mkCandidate {
  cand_name : option string;
  cand_actions : list ActionKind;
}.

Record ExploreOptions := mkOptions {
  candidates : list ExploreCandidate;
  evaluator : option ActionKind;
  max_parallel : option Z;            (* usize *)
  early_stop : bool;
  merge_winner : bool;
  discard_losers : bool;
  step_budget : option ResourceBudget;
}.

Record ExploreCandidateReport := mkCandidateReport {
  rep_index : nat;
  rep_name : option string;
  rep_branch : option string;
  rep_steps : list StepResult;
  rep_evaluation : option StepResult;
  rep_passed : bool;
  rep_skipped : bool;
  rep_error : option string;
}.

Record ExploreReport := mkExploreReport {
  exp_source : string;
  exp_winner : option nat;
  exp_merged_state : option string;
  exp_merge_error : option string;
  exp_candidates : list ExploreCandidateReport;
  exp_discarded : list string;
}.

Definition fresh_report (index : nat) (name : option string) : ExploreCandidateReport :=
  mkCandidateReport index name None [] None false false None.
Definition rep_set_branch (br : string) (r : ExploreCandidateReport) : ExploreCandidateReport :=
  mkCandidateReport (rep_index r) (rep_name r) (Some br) (rep_steps r) (rep_evaluation r) (rep_passed r)
    (rep_skipped r) (rep_error r).
Definition rep_push (s : StepResult) (r : ExploreCandidateReport) : ExploreCandidateReport :=
  mkCandidateReport (rep_index r) (rep_name r) (rep_branch r) (rep_steps r ++ [s]) (rep_evaluation r) (rep_passed r)
    (rep_skipped r) (rep_error r).
Definition rep_evaluated (s : StepResult) (passed : bool) (r : ExploreCandidateReport) : ExploreCandidateReport :=
  mkCandidateReport (rep_index r) (rep_name r) (rep_branch r) (rep_steps r) (Some s) passed
    (rep_skipped r) (rep_error r).
Definition rep_pass (r : ExploreCandidateReport) : ExploreCandidateReport :=
  mkCandidateReport (rep_index r) (rep_name r) (rep_branch r) (rep_steps r) (rep_evaluation r) true
    (rep_skipped r) (rep_error r).
Definition rep_skip (r : ExploreCandidateReport) : ExploreCandidateReport :=
  mkCandidateReport (rep_index r) (rep_name r) (rep_branch r) (rep_steps r) (rep_evaluation r) (rep_passed r)
    true (rep_error r).
Definition rep_fail (e : string) (r : ExploreCandidateReport) : ExploreCandidateReport :=
  mkCandidateReport (rep_index r) (rep_name r) (rep_branch r) (rep_steps r) (rep_evaluation r) (rep_passed r)
    (rep_skipped r) (Some e).

(** The observation of an action that lets its candidate go on. *)
Definition action_ok (o : Observation) : bool :=
  match o with Success _ _ _ _ _ _ _ | EffectPending _ _ _ => true | _ => false end.

(** [Observation::Success { exit_code: 0, .. }]. *)
Definition evaluation_ok (o : Observation) : bool :=
  match o with Success _ _ _ _ code _ _ => code =? 0 | _ => false end.

(** A task, by what it does next. *)
Inductive Task :=
| XWaiting
| XStart
| XFork
| XLoop (branch : string) (todo : list ActionKind) (report : ExploreCandidateReport)
| XAct (branch : string) (kind : ActionKind) (todo : list ActionKind) (report : ExploreCandidateReport)
| XEvaluate (branch : string) (report : ExploreCandidateReport)
| XReport (report : ExploreCandidateReport)
| XFinished (report : ExploreCandidateReport)
| XPanicked.

(** A task holds a permit from its acquisition to its end. *)
Definition holds_permit (t : Task) : bool :=
  match t with XWaiting | XFinished _ | XPanicked => false | _ => true end.

Definition permits_used (ts : list Task) : nat := length (List.filter holds_permit ts).

Section explore.
Context {B : Type} `{!Backend B, !RouterDebug, !World B}.
Context `{!Serde, !Sha256, !TimeJson, !JsonText, !DeltaSerde, !TimeText, !Chrono, !ManifestSerde}.
Context `{!ReceiptSigner, !ErrorDisplay, !KernelDisplay, !PathsDebug, !StepSerde, !ReplaySerde}.

Implicit Types (k : Kernel B).

Record Exploring := mkExploring {
  x_kernel : Kernel B;
  x_won : bool;
  x_tasks : list Task;
}.

Section call.
(** [fanout] is the configured [max_concurrent_branches], [join_error] the text
    of the runtime's error for a task that panicked. *)
Context (fanout : Z) (join_error principal source : string) (options : ExploreOptions).
(** What other callers may do to the kernel meanwhile. *)
Context (other : Kernel B -> Kernel B -> Prop).

Definition parallel : nat := Z.to_nat (clamp 1 (Z.max 1 fanout) (default 4 (max_parallel options))).

(** * Tasks *)

Definition hint (what : string) (index : nat) : option string := Some ("explore " +:+ what +:+ " " +:+ pretty index).

(** The result of a facade call inside a task, and the kernel it leaves. *)
Definition called {A} (r : result Abort A * Kernel B) (won : bool) (ok : A -> Task) (failed : KernelError -> Task)
    : Task * Kernel B * bool :=
  match r with
  | (Ok a, k) => (ok a, k, won)
  | (Err (Raised e), k) => (failed e, k, won)
  | (Err Panicked, k) => (XPanicked, k, won)
  end.

(** One move of candidate [index]; [permit] says whether one can be had. *)
Definition task_step (index : nat) (c : ExploreCandidate) (permit : bool) (t : Task) k (won : bool)
    : option (Task * Kernel B * bool) :=
  match t with
  | XWaiting => if permit then Some (XStart, k, won) else None
  | XStart =>
      Some (if early_stop options && won then XFinished (rep_skip (fresh_report index (cand_name c))) else XFork, k, won)
  | XFork =>
      let report := fresh_report index (cand_name c) in
      Some (called (fork_branch source k) won
        (fun b => XLoop (b_id b) (cand_actions c) (rep_set_branch (b_id b) report))
        (fun e => XFinished (rep_fail ("fork failed: " +:+ error_display e) report)))
  | XLoop branch [] report =>
      Some (match evaluator options with Some _ => XEvaluate branch report | None => XReport (rep_pass report) end, k, won)
  | XLoop branch (kind :: todo) report =>
      Some (if early_stop options && won then XReport (rep_skip report) else XAct branch kind todo report, k, won)
  | XAct branch kind todo report =>
      Some (called (execute_step_auto principal branch kind (hint "candidate" index) (step_budget options) k) won
        (fun auto => let report := rep_push (auto_result auto) report in
           if action_ok (sr_observation (auto_result auto)) then XLoop branch todo report else XReport report)
        (fun e => XReport (rep_fail ("step failed: " +:+ error_display e) report)))
  | XEvaluate branch report =>
      kind ← evaluator options;
      Some (called (execute_step_auto principal branch kind (hint "evaluator" index) (step_budget options) k) won
        (fun auto => XReport (rep_evaluated (auto_result auto) (evaluation_ok (sr_observation (auto_result auto))) report))
        (fun e => XReport (rep_fail ("evaluator failed: " +:+ error_display e) report)))
  | XReport report => Some (XFinished report, k, won || rep_passed report)
  | XFinished _ | XPanicked => None
  end.

Definition explore_step (x : Exploring) (index : nat) : option Exploring :=
  t ← x_tasks x !! index;
  c ← candidates options !! index;
  '(t', k, won) ← task_step index c (Nat.ltb (permits_used (x_tasks x)) parallel) t (x_kernel x) (x_won x);
  Some (mkExploring k won (<[index := t']> (x_tasks x))).

(** The moves of the tasks in a given order, with no other caller. *)
Fixpoint schedule (order : list nat) (x : Exploring) : option Exploring :=
  match order with
  | [] => Some x
  | i :: order => x' ← explore_step x i; schedule order x'
  end.

Definition spawned k : Exploring := mkExploring k false (map (fun _ => XWaiting) (candidates options)).

(** A move of a task, or of another caller. *)
Inductive explore_move (x : Exploring) : Exploring -> Prop :=
| xm_task i x' : explore_step x i = Some x' -> explore_move x x'
| xm_other k : other (x_kernel x) k -> explore_move x (mkExploring k (x_won x) (x_tasks x)).

(** * The end of the call *)

(** [handle.await] in turn: the reports, or the first task that panicked; the
    tasks come in the order of their index, so the sort by index changes nothing. *)
Fixpoint collect (ts : list Task) : option (KernelResult (list ExploreCandidateReport)) :=
  match ts with
  | [] => Some (Ok [])
  | XFinished r :: rest => rs ← collect rest; Some (match rs with Ok rs => Ok (r :: rs) | Err e => Err e end)
  | XPanicked :: _ => Some (Err (EOther ("explore candidate task panicked: " +:+ join_error)))
  | _ => None
  end.

(** [candidates.iter().find(|c| c.passed)], after the stable sort by index. *)
Definition find_winner (rs : list ExploreCandidateReport) : option nat := rep_index <$> List.find rep_passed rs.

Definition merge_back (rs : list ExploreCandidateReport) (winner : option nat) : K B (option string * option string) :=
  match merge_winner options, winner with
  | true, Some w =>
      match rs !! w with
      | None => panic
      | Some r =>
          match rep_branch r with
          | None => mret (None, None)
          | Some branch =>
              m ← attempt (merge_branch source branch principal);
              mret (match m with Ok node => (Some (node_id node), None) | Err e => (None, Some (error_display e)) end)
          end
      end
  | _, _ => mret (None, None)
  end.

Fixpoint discard_all (winner : option nat) (rs : list ExploreCandidateReport) : K B (list string) :=
  match rs with
  | [] => mret []
  | r :: rest =>
      if bool_decide (Some (rep_index r) = winner) then discard_all winner rest
      else
        match rep_branch r with
        | None => discard_all winner rest
        | Some branch =>
            d ← attempt (discard_branch branch);
            later ← discard_all winner rest;
            mret (match d with Ok _ => branch :: later | Err _ => later end)
        end
  end.

Definition conclude (rs : list ExploreCandidateReport) : K B ExploreReport :=
  let winner := find_winner rs in
  m ← merge_back rs winner;
  discarded ← (if discard_losers options then discard_all winner rs else mret []);
  mret (mkExploreReport source winner m.1 m.2 rs discarded).

(** The checks before any task starts. *)
Definition explore_refused : option KernelError :=
  if bool_decide (candidates options = []) then Some (EOther "explore requires at least one candidate")
  else if Nat.ltb MAX_EXPLORE_CANDIDATES (length (candidates options))
  then Some (EOther ("explore accepts at most " +:+ pretty MAX_EXPLORE_CANDIDATES +:+ " candidates per call"))
  else None.

(** A call of [explore], with its result and the kernel it leaves. *)
Inductive explore k : result Abort ExploreReport -> Kernel B -> Prop :=
| explore_refuses e : explore_refused = Some e -> explore k (Err (Raised e)) k
| explore_panics x e :
    explore_refused = None -> rtc explore_move (spawned k) x -> collect (x_tasks x) = Some (Err e) ->
    explore k (Err (Raised e)) (x_kernel x)
| explore_ends x rs :
    explore_refused = None -> rtc explore_move (spawned k) x -> collect (x_tasks x) = Some (Ok rs) ->
    explore k (conclude rs (x_kernel x)).1 (conclude rs (x_kernel x)).2.

(** * The kernel sees facade calls *)

Definition calls {A} (m : K B A) : Prop := forall k, rtc kernel_step k (m k).2.

Lemma calls_ret {A} (a : A) : calls (mret a).
Proof. intros k. apply rtc_refl. Qed.

Lemma calls_bind {A A'} (m : K B A) (f : A -> K B A') : calls m -> (forall a, calls (f a)) -> calls (m ≫= f).
Proof.
  intros Hm Hf k. specialize (Hm k). unfold mbind, K_bind. destruct (m k) as [[a|e] k']; cbn in *; [|done].
  etrans; [exact Hm|apply Hf].
Qed.

Lemma calls_attempt {A} (m : K B A) : calls m -> calls (attempt m).
Proof. intros Hm k. specialize (Hm k). unfold attempt. by destruct (m k) as [[a|[e|]] k']. Qed.

Lemma called_kernel {A} (r : result Abort A * Kernel B) won ok failed :
  (called r won ok failed).1.2 = r.2 /\ (called r won ok failed).2 = won.
Proof. by destruct r as [[a|[e|]] k]. Qed.

Lemma task_step_calls index c permit t k won t' k' won' :
  task_step index c permit t k won = Some (t', k', won') -> rtc kernel_step k k'.
Proof.
  intros Hs. assert (forall A (r : result Abort A * Kernel B) ok failed,
    Some (called r won ok failed) = Some (t', k', won') -> k' = r.2) as Hcall.
  { intros A r ok failed Heq. destruct (called_kernel r won ok failed) as [<- _]. injection Heq as ->. done. }
  destruct t as [| | |branch todo r|branch kind todo r|branch r|r|r|]; cbn in Hs; try done.
  - destruct permit; simplify_eq. apply rtc_refl.
  - simplify_eq. apply rtc_refl.
  - apply Hcall in Hs as ->. apply rtc_once, ks_fork.
  - destruct todo; simplify_eq; apply rtc_refl.
  - apply Hcall in Hs as ->. apply rtc_once, ks_auto.
  - destruct (evaluator options); [|done]. apply Hcall in Hs as ->. apply rtc_once, ks_auto.
  - simplify_eq. apply rtc_refl.
Qed.

Lemma explore_step_inv x i x' : explore_step x i = Some x' ->
  exists t c t', x_tasks x !! i = Some t /\ candidates options !! i = Some c
    /\ task_step i c (Nat.ltb (permits_used (x_tasks x)) parallel) t (x_kernel x) (x_won x) = Some (t', x_kernel x', x_won x')
    /\ x_tasks x' = <[i := t']> (x_tasks x).
Proof.
  unfold explore_step. intros Hs. destruct (x_tasks x !! i) as [t|]; [|done]. destruct (candidates options !! i) as [c|]; [|done].
  cbn in Hs. destruct (task_step _ _ _ _ _ _) as [[[t' k'] won']|] eqn:Ht; [|done]. cbn in Hs. simplify_eq.
  by exists t, c, t'.
Qed.

Lemma explore_move_calls x x' :
  (forall k1 k2, other k1 k2 -> kernel_step k1 k2) -> explore_move x x' -> rtc kernel_step (x_kernel x) (x_kernel x').
Proof.
  intros Hother [i x1 Hs|k Hk]; [|by apply rtc_once, Hother].
  apply explore_step_inv in Hs as (t & c & t' & _ & _ & Ht & _). by eapply task_step_calls.
Qed.

Lemma explore_moves_calls x x' :
  (forall k1 k2, other k1 k2 -> kernel_step k1 k2) -> rtc explore_move x x' -> rtc kernel_step (x_kernel x) (x_kernel x').
Proof. intros Hother. induction 1 as [|x x1 x2 Hm _ IH]; [apply rtc_refl|]. etrans; [by apply explore_move_calls|exact IH]. Qed.

Lemma merge_back_calls rs w : calls (merge_back rs w).
Proof.
  unfold merge_back. destruct (merge_winner options), w as [w|]; try apply calls_ret.
  destruct (rs !! w) as [r|]; [|intros k; apply rtc_refl]. destruct (rep_branch r); [|apply calls_ret].
  apply calls_bind; [|intros m; apply calls_ret]. apply calls_attempt. intros k. apply rtc_once, ks_merge.
Qed.

Lemma discard_all_calls w rs : calls (discard_all w rs).
Proof.
  induction rs as [|r rs IH]; cbn; [apply calls_ret|]. case_bool_decide; [done|]. destruct (rep_branch r); [|done].
  apply calls_bind; [apply calls_attempt; intros k; apply rtc_once, ks_discard|].
  intros d. apply calls_bind; [done|]. intros later. apply calls_ret.
Qed.

Lemma conclude_calls rs : calls (conclude rs).
Proof.
  apply calls_bind; [apply merge_back_calls|intros m]. apply calls_bind; [|intros d; apply calls_ret].
  destruct (discard_losers options); [apply discard_all_calls|apply calls_ret].
Qed.

(** * The invariant of the tasks *)

(** The candidate's first actions were executed, each with a result to go on. *)
Definition progressing (i : nat) (c : ExploreCandidate) (branch : string) (todo : list ActionKind)
    (r : ExploreCandidateReport) : Prop :=
  rep_index r = i /\ rep_name r = cand_name c /\ rep_branch r = Some branch
  /\ (length (rep_steps r) + length todo = length (cand_actions c))%nat
  /\ Forall (fun s => action_ok (sr_observation s) = true) (rep_steps r)
  /\ rep_evaluation r = None /\ rep_passed r = false /\ rep_skipped r = false /\ rep_error r = None.

(** What a report claims. *)
Record report_sound (i : nat) (c : ExploreCandidate) (r : ExploreCandidateReport) : Prop := {
  rs_index : rep_index r = i;
  rs_name : rep_name r = cand_name c;
  rs_passed : rep_passed r = true ->
    rep_branch r <> None /\ rep_skipped r = false /\ rep_error r = None
    /\ length (rep_steps r) = length (cand_actions c)
    /\ Forall (fun s => action_ok (sr_observation s) = true) (rep_steps r)
    /\ match evaluator options with
       | Some _ => exists s, rep_evaluation r = Some s /\ evaluation_ok (sr_observation s) = true
       | None => rep_evaluation r = None
       end;
  rs_skipped : rep_skipped r = true -> early_stop options = true;
}.

Definition task_ok (i : nat) (c : ExploreCandidate) (won : bool) (t : Task) : Prop :=
  match t with
  | XWaiting | XStart | XFork | XPanicked => True
  | XLoop branch todo r => progressing i c branch todo r
  | XAct branch kind todo r => progressing i c branch (kind :: todo) r
  | XEvaluate branch r => progressing i c branch [] r /\ evaluator options <> None
  | XReport r => report_sound i c r /\ (rep_skipped r = true -> won = true)
  | XFinished r => report_sound i c r /\ (rep_skipped r = true -> won = true) /\ (rep_passed r = true -> won = true)
  end.

Lemma progressing_sound i c branch todo r e :
  progressing i c branch todo r -> report_sound i c r /\ report_sound i c (rep_fail e r).
Proof.
  intros (Hi & Hn & Hb & Hl & Hs & He & Hp & Hk & Herr). split; constructor; cbn; congruence.
Qed.

Lemma progressing_push i c branch kind todo r s :
  progressing i c branch (kind :: todo) r -> action_ok (sr_observation s) = true ->
  progressing i c branch todo (rep_push s r).
Proof.
  intros (Hi & Hn & Hb & Hl & Hs & He & Hp & Hk & Herr) Ha. unfold progressing, rep_push.
  cbn [rep_index rep_name rep_branch rep_steps rep_evaluation rep_passed rep_skipped rep_error].
  split_and!; try done; [rewrite length_app; cbn in *; lia|]. apply Forall_app. by repeat constructor.
Qed.

Lemma task_ok_won i c won t : task_ok i c won t -> task_ok i c true t.
Proof. by destruct t; cbn; intros; split_and?; destruct_and?. Qed.

Lemma task_step_ok i c permit t k won t' k' won' :
  task_step i c permit t k won = Some (t', k', won') -> task_ok i c won t ->
  task_ok i c won' t' /\ (won = true -> won' = true).
Proof.
  intros Hs Ht. destruct t as [| | |branch todo r|branch kind todo r|branch r|r|r|]; cbn in Hs; try done.
  - destruct permit; simplify_eq. done.
  - simplify_eq. split; [|done]. destruct (early_stop options) eqn:He, won'; cbn; try done.
  - destruct (fork_branch source k) as [[b|[e|]] k1]; cbn in Hs; simplify_eq; (split; [|done]); cbn; try done.
  - destruct todo as [|kind todo]; simplify_eq; (split; [|done]).
    + pose proof Ht as (Hi & Hn & Hb & Hl & Hss & He & Hp & Hk & Herr).
      destruct (evaluator options) as [ev|] eqn:Ee; cbn; [split; [exact Ht|congruence]|]. split; [|by rewrite Hk].
      constructor; cbn; try done; try congruence. intros _. rewrite Ee. cbn in Hl.
      split_and!; try done; [by rewrite Hb|lia].
    + destruct (early_stop options) eqn:He; [|done]. destruct won'; [|done].
      destruct Ht as (Hi & Hn & Hb & Hl & Hss & Hev & Hp & Hk & Herr). cbn. split; [|done].
      constructor; cbn; try done; try congruence.
  - destruct (execute_step_auto _ _ _ _ _ k) as [[auto|[e|]] k1]; cbn in Hs; simplify_eq; (split; [|done]); try done.
    + pose proof Ht as (Hi & Hn & Hb & Hl & Hss & He & Hp & Hk & Herr).
      destruct (action_ok _) eqn:Ea.
      * by apply (progressing_push _ _ _ kind).
      * cbn. split; [|by rewrite Hk]. constructor; cbn; try done; congruence.
    + cbn. split; [by eapply progressing_sound|]. cbn. by destruct Ht as (_ & _ & _ & _ & _ & _ & _ & -> & _).
  - destruct Ht as [Ht Hne]. destruct (evaluator options) as [ev|] eqn:Ee; [|done]. cbn in Hs.
    destruct (execute_step_auto _ _ _ _ _ k) as [[auto|[e|]] k1]; cbn in Hs; simplify_eq; (split; [|done]); try done.
    + pose proof Ht as (Hi & Hn & Hb & Hl & Hss & He & Hp & Hk & Herr). cbn in *. split; [|by rewrite Hk].
      constructor; cbn; try done; [|congruence]. intros Hpass. rewrite Ee. split_and!; try done; [by rewrite Hb|lia|eauto].
    + cbn. split; [by eapply progressing_sound|]. cbn. by destruct Ht as (_ & _ & _ & _ & _ & _ & _ & -> & _).
  - simplify_eq. destruct Ht as [Hr Hk]. cbn. split; [|by intros ->]. split_and!; [done| |].
    + intros Hsk. by rewrite Hk.
    + intros ->. by rewrite orb_true_r.
Qed.

Record explore_ok (x : Exploring) : Prop := {
  xo_length : length (x_tasks x) = length (candidates options);
  xo_tasks i t c : x_tasks x !! i = Some t -> candidates options !! i = Some c -> task_ok i c (x_won x) t;
  xo_won : x_won x = true -> exists i r, x_tasks x !! i = Some (XFinished r) /\ rep_passed r = true;
  xo_permits : (permits_used (x_tasks x) <= parallel)%nat;
}.

Lemma parallel_pos : (1 <= parallel)%nat.
Proof. unfold parallel, clamp. repeat case_match; bool_hyps; lia. Qed.

Lemma spawned_ok k : explore_ok (spawned k).
Proof.
  constructor; cbn [spawned x_tasks x_won]; [by rewrite length_map| |done|].
  - intros i t c Hi _. apply list_elem_of_lookup_2, list_elem_of_fmap in Hi as (? & -> & _). done.
  - pose proof parallel_pos. assert (permits_used (map (fun _ => XWaiting) (candidates options)) = O) as ->; [|lia].
    unfold permits_used. induction (candidates options); [done|]. cbn. done.
Qed.

Lemma permits_insert ts i t t' :
  ts !! i = Some t ->
  (permits_used (<[i := t']> ts) + (if holds_permit t then 1 else 0)
   = permits_used ts + (if holds_permit t' then 1 else 0))%nat.
Proof.
  unfold permits_used. revert i. induction ts as [|u ts IH]; intros [|i] Hi; simplify_eq/=.
  - destruct (holds_permit t), (holds_permit t'); cbn; lia.
  - specialize (IH _ Hi). destruct (holds_permit u); cbn; lia.
Qed.

(** Only a waiting task, with a permit to be had, comes to hold one. *)
Lemma task_step_permit i c permit t k won t' k' won' :
  task_step i c permit t k won = Some (t', k', won') -> holds_permit t = true \/ permit = true.
Proof. destruct t; try done; [|by left..]. cbn. destruct permit; [by right|done]. Qed.

Lemma task_step_won i c permit t k won t' k' won' :
  task_step i c permit t k won = Some (t', k', won') -> won' = true ->
  won = true \/ exists r, t' = XFinished r /\ rep_passed r = true.
Proof.
  intros Hs Hw. assert (forall A (r : result Abort A * Kernel B) ok failed,
    Some (called r won ok failed) = Some (t', k', won') -> won' = won) as Hcall.
  { intros A r ok failed Heq. destruct (called_kernel r won ok failed) as [_ <-]. injection Heq as ->. done. }
  destruct t as [| | |branch todo r|branch kind todo r|branch r|r|r|]; cbn in Hs; try done.
  - destruct permit; simplify_eq. by left.
  - simplify_eq. by left.
  - apply Hcall in Hs. left. congruence.
  - destruct todo; simplify_eq; by left.
  - apply Hcall in Hs. left. congruence.
  - destruct (evaluator options); [|done]. apply Hcall in Hs. left. congruence.
  - injection Hs as <- <- <-. apply orb_true_iff in Hw as [->|Hp]; [by left|right; eauto].
Qed.

Lemma explore_step_ok x i x' : explore_ok x -> explore_step x i = Some x' -> explore_ok x'.
Proof.
  intros [Hl Ht Hw Hp] (t & c & t' & Hi & Hc & Hs & Hts)%explore_step_inv.
  pose proof (task_step_ok _ _ _ _ _ _ _ _ _ Hs (Ht _ _ _ Hi Hc)) as [Ht' Hmono].
  assert (i < length (x_tasks x))%nat as Hlt by by eapply lookup_lt_Some.
  constructor; rewrite Hts; [by rewrite length_insert|..].
  - intros j u c' Hj Hc'. destruct (decide (j = i)) as [->|Hn].
    + rewrite list_lookup_insert_eq in Hj by done. by simplify_eq.
    + rewrite list_lookup_insert_ne in Hj by done. pose proof (Ht _ _ _ Hj Hc') as Hu.
      destruct (x_won x) eqn:Ew; [by rewrite Hmono|]. destruct (x_won x'); [by eapply task_ok_won|done].
  - intros Hw'. destruct (task_step_won _ _ _ _ _ _ _ _ _ Hs Hw') as [Hold|(r & -> & Hr)].
    + destruct (Hw Hold) as (j & r & Hj & Hr). exists j, r. split; [|done].
      rewrite list_lookup_insert_ne; [done|]. intros ->. simplify_eq.
    + exists i, r. by rewrite list_lookup_insert_eq.
  - pose proof (permits_insert _ _ _ t' Hi) as Hn.
    destruct (task_step_permit _ _ _ _ _ _ _ _ _ Hs) as [Hh|Hh]; [rewrite Hh in Hn; destruct (holds_permit t'); lia|].
    apply Nat.ltb_lt in Hh. destruct (holds_permit t), (holds_permit t'); lia.
Qed.

Lemma explore_reach_ok x x' : explore_ok x -> rtc explore_move x x' -> explore_ok x'.
Proof.
  intros HI. induction 1 as [|x x1 x2 Hm _ IH]; [done|]. apply IH. destruct Hm as [i x1 Hs|k Hk]; [by eapply explore_step_ok|].
  by destruct HI.
Qed.

(** ** Collecting the reports *)

Lemma collect_reports ts rs : collect ts = Some (Ok rs) -> ts = map XFinished rs.
Proof.
  revert rs. induction ts as [|t ts IH]; intros rs; cbn; [by intros [= <-]|]. destruct t; try done.
  destruct (collect ts) as [[rs'|e]|]; cbn; intros Heq; simplify_eq. cbn. by rewrite (IH _ eq_refl).
Qed.

Lemma collect_pending ts : collect ts = None ->
  exists i t, ts !! i = Some t /\ match t with XFinished _ | XPanicked => False | _ => True end.
Proof.
  induction ts as [|t ts IH]; cbn; [done|].
  destruct t; try (intros _; exists O; by eexists); [|done]. destruct (collect ts) as [[rs|e]|]; [done..|].
  intros _. destruct (IH eq_refl) as (i & t & Hi & Ht). by exists (S i), t.
Qed.

Lemma find_winner_spec rs w :
  (forall i r, rs !! i = Some r -> rep_index r = i) ->
  find_winner rs = Some w <->
  (exists r, rs !! w = Some r /\ rep_passed r = true) /\ forall j r, (j < w)%nat -> rs !! j = Some r -> rep_passed r = false.
Proof.
  intros Hidx. unfold find_winner.
  assert (forall n, (forall i r, rs !! i = Some r -> rep_index r = (n + i)%nat) ->
    rep_index <$> List.find rep_passed rs = Some (n + w)%nat <->
    (exists r, rs !! w = Some r /\ rep_passed r = true) /\ forall j r, (j < w)%nat -> rs !! j = Some r -> rep_passed r = false) as Hgen.
  { clear Hidx. revert w. induction rs as [|r rs IH]; intros w n Hi.
    - split; [done|]. by intros [(r & Hr & _) _].
    - cbn [List.find]. pose proof (Hi O r eq_refl) as Hzero. destruct (rep_passed r) eqn:Ep.
      + split.
        * intros [= Heq]. assert (w = O) as -> by lia. split; [by exists r|]. intros; lia.
        * intros [(r' & Hr' & Hp') Hlow]. destruct w as [|w]; [cbn; f_equal; lia|].
          rewrite (Hlow O r) in Ep; [done|lia|done].
      + destruct w as [|w].
        * split; [|intros [(r' & Hr' & Hp') _]; simplify_eq/=; congruence].
          intros Hf. exfalso. destruct (List.find rep_passed rs) as [r'|] eqn:Ef; [|done]. cbn in Hf. simplify_eq.
          apply find_some in Ef as [Hin _]. apply list_elem_of_In, list_elem_of_lookup in Hin as (i & Hl).
          specialize (Hi (S i) r' Hl). lia.
        * rewrite <- Nat.add_succ_comm. rewrite (IH w (S n)); [|intros i r' Hl; rewrite (Hi (S i) r' Hl); lia].
          split; intros [Hex Hlow]; (split; [exact Hex|]).
          -- intros [|j] r' Hj Hl; [by simplify_eq/=|]. apply (Hlow j r'); [lia|done].
          -- intros j r' Hj Hl. apply (Hlow (S j) r'); [lia|done]. }
  apply (Hgen O). by intros i r Hr%Hidx.
Qed.

Lemma merge_back_spec rs w k m k' id :
  merge_back rs w k = (Ok m, k') -> m.1 = Some id ->
  merge_winner options = true
  /\ exists i r br node, w = Some i /\ rs !! i = Some r /\ rep_branch r = Some br
     /\ merge_branch source br principal k = (Ok node, k') /\ node_id node = id.
Proof.
  unfold merge_back. destruct (merge_winner options), w as [i|]; intros Hm Hid; try (unfold mret, K_ret in Hm; by simplify_eq).
  split; [done|]. destruct (rs !! i) as [r|] eqn:Er; [|done].
  destruct (rep_branch r) as [br|] eqn:Eb; [|unfold mret, K_ret in Hm; by simplify_eq]. unfold mbind, K_bind, attempt in Hm.
  destruct (merge_branch source br principal k) as [[node|[e|]] k1] eqn:Em; try done; unfold mret, K_ret in Hm; simplify_eq/=.
  by exists i, r, br, node.
Qed.

Lemma discard_all_spec w rs k ds k' :
  discard_all w rs k = (Ok ds, k') ->
  forall br, br ∈ ds -> (exists r, r ∈ rs /\ Some (rep_index r) <> w /\ rep_branch r = Some br)
    /\ exists k1 u k2, discard_branch br k1 = (Ok u, k2).
Proof.
  revert k ds k'. induction rs as [|r rs IH]; intros k ds k' Hd br Hbr.
  { cbn in Hd. unfold mret, K_ret in Hd. injection Hd as <- <-. by apply not_elem_of_nil in Hbr. }
  assert (forall k1 ds1, discard_all w rs k1 = (Ok ds1, k') -> br ∈ ds1 ->
    (exists r0, r0 ∈ r :: rs /\ Some (rep_index r0) <> w /\ rep_branch r0 = Some br)
    /\ exists k1 u k2, discard_branch br k1 = (Ok u, k2)) as Hlater.
  { intros k1 ds1 Hr Hin. destruct (IH _ _ _ Hr _ Hin) as [(r0 & ? & ?) ?]. split; [|done]. exists r0. split; [by right|done]. }
  cbn in Hd. case_bool_decide as Hw; [by eapply Hlater|]. destruct (rep_branch r) as [b|] eqn:Eb; [|by eapply Hlater].
  unfold mbind, K_bind, attempt in Hd. destruct (discard_branch b k) as [[d|[e|]] k1] eqn:Edb; [| |done];
    destruct (discard_all w rs k1) as [[later|e'] k2] eqn:El; try done;
    unfold mret, K_ret in Hd; injection Hd as <- <-; [|by eapply Hlater].
  apply elem_of_cons in Hbr as [->|Hbr]; [|by eapply Hlater]. split; [|by exists k, d, k1].
  exists r. split; [by left|done].
Qed.

(** ** What each candidate ran *)

(** A call of a task on the facade. *)
Inductive XCall :=
| Forked (b : Branch)
| Stepped (branch : string) (kind : ActionKind) (s : StepResult)
| FailedFork
| FailedStep (branch : string) (kind : ActionKind).

(** The call was made, and takes the kernel from [k] to [k']. *)
Definition makes (c : XCall) k k' : Prop :=
  match c with
  | Forked b => fork_branch source k = (Ok b, k')
  | Stepped branch kind s => exists h auto,
      execute_step_auto principal branch kind h (step_budget options) k = (Ok auto, k') /\ auto_result auto = s
  | FailedFork => exists e, fork_branch source k = (Err e, k')
  | FailedStep branch kind => exists h e, execute_step_auto principal branch kind h (step_budget options) k = (Err e, k')
  end.

(** A move with the call it makes. *)
Inductive explore_label (x : Exploring) : option (nat * XCall) -> Exploring -> Prop :=
| xl_quiet i x' : explore_step x i = Some x' -> x_kernel x' = x_kernel x -> explore_label x None x'
| xl_call i c x' : explore_step x i = Some x' -> makes c (x_kernel x) (x_kernel x') -> explore_label x (Some (i, c)) x'
| xl_other k : other (x_kernel x) k -> explore_label x None (mkExploring k (x_won x) (x_tasks x)).

(** The calls of a whole exploration, in order. *)
Inductive traced (x : Exploring) : list (nat * XCall) -> Exploring -> Prop :=
| traced_start : traced x [] x
| traced_move tr x1 l x2 : traced x tr x1 -> explore_label x1 l x2 -> traced x (tr ++ option_list l) x2.

Definition calls_of (i : nat) (tr : list (nat * XCall)) : list XCall :=
  omap (fun c => if bool_decide (c.1 = i) then Some c.2 else None) tr.

Lemma calls_of_app i tr tr' : calls_of i (tr ++ tr') = calls_of i tr ++ calls_of i tr'.
Proof. apply omap_app. Qed.

(** The fork, then the actions, each once and on the fork, with their results. *)
Definition ran_on (b : Branch) (actions : list ActionKind) (steps : list StepResult) : list XCall :=
  Forked b :: zip_with (Stepped (b_id b)) actions steps.

Definition failed_call (c : XCall) : Prop := match c with FailedFork | FailedStep _ _ => True | _ => False end.

(** What the report of a candidate says of the calls made for it: its fork, the
    first of its actions in their order, one call each on that fork with the
    result reported, and then the evaluator on it, if it was reported; after an
    error, a call that failed. *)
Definition report_calls (c : ExploreCandidate) (r : ExploreCandidateReport) (calls : list XCall) : Prop :=
  exists good bad, calls = good ++ bad /\ Forall failed_call bad /\ (rep_error r = None -> bad = [])
  /\ match rep_branch r with
     | None => good = [] /\ rep_steps r = [] /\ rep_evaluation r = None
     | Some br => exists b actions rest, b_id b = br /\ cand_actions c = actions ++ rest
         /\ length actions = length (rep_steps r) /\ (rep_evaluation r <> None -> rest = [])
         /\ match rep_evaluation r with
            | None => good = ran_on b actions (rep_steps r)
            | Some s => exists ev, evaluator options = Some ev /\ good = ran_on b actions (rep_steps r) ++ [Stepped br ev s]
            end
     end.

Definition running_calls (c : ExploreCandidate) (branch : string) (todo : list ActionKind) (r : ExploreCandidateReport)
    (calls : list XCall) : Prop :=
  rep_branch r = Some branch /\ rep_evaluation r = None
  /\ exists b actions, b_id b = branch /\ cand_actions c = actions ++ todo /\ length actions = length (rep_steps r)
     /\ calls = ran_on b actions (rep_steps r).

Definition task_calls (c : ExploreCandidate) (calls : list XCall) (t : Task) : Prop :=
  match t with
  | XWaiting | XStart | XFork => calls = []
  | XLoop branch todo r => running_calls c branch todo r calls
  | XAct branch kind todo r => running_calls c branch (kind :: todo) r calls
  | XEvaluate branch r => running_calls c branch [] r calls
  | XReport r | XFinished r => report_calls c r calls
  | XPanicked => True
  end.

Lemma running_report c branch todo r calls r' bad :
  running_calls c branch todo r calls ->
  rep_branch r' = rep_branch r -> rep_steps r' = rep_steps r -> rep_evaluation r' = None ->
  Forall failed_call bad -> (rep_error r' = None -> bad = []) -> report_calls c r' (calls ++ bad).
Proof.
  intros (Hb & He & b & actions & Hid & Ha & Hl & ->) Hb' Hs' He' Hbad Herr. eexists _, bad. split_and!; [done..|].
  rewrite Hb', Hb, He'. exists b, actions, todo. rewrite Hs'. by split_and!.
Qed.

Lemma zip_with_snoc {A B' C} (f : A -> B' -> C) l l' a b : length l = length l' ->
  zip_with f (l ++ [a]) (l' ++ [b]) = zip_with f l l' ++ [f a b].
Proof. intros Hl. by rewrite zip_with_app by done. Qed.

Lemma running_push c branch kind todo r calls s :
  running_calls c branch (kind :: todo) r calls ->
  exists b actions, b_id b = branch /\ cand_actions c = actions ++ todo
    /\ length actions = length (rep_steps (rep_push s r))
    /\ calls ++ [Stepped branch kind s] = ran_on b actions (rep_steps (rep_push s r)).
Proof.
  intros (Hb & He & b & actions & Hid & Ha & Hl & ->). exists b, (actions ++ [kind]). cbn [rep_push rep_steps].
  rewrite <- app_assoc, !length_app, Hl. split_and!; try done. unfold ran_on. by rewrite zip_with_snoc, <- Hid by done.
Qed.

Definition labelled (l : option XCall) k k' : Prop := match l with None => k' = k | Some c => makes c k k' end.

Lemma task_step_calls_made i c permit t k won t' k' won' calls :
  task_step i c permit t k won = Some (t', k', won') -> task_calls c calls t ->
  exists l, labelled l k k' /\ task_calls c (calls ++ option_list l) t'.
Proof.
  intros Hs Ht. destruct t as [| | |branch todo r|branch kind todo r|branch r|r|r|]; cbn in Hs; try done.
  - destruct permit; simplify_eq. exists None. by rewrite app_nil_r.
  - simplify_eq. exists None. rewrite app_nil_r. split; [done|]. destruct (_ && _); [|done]. cbn in Ht. subst calls.
    exists [], []. cbn. by split_and!.
  - cbn in Ht. subst calls. destruct (fork_branch source k) as [[b|[e|]] k1] eqn:Ef; cbn in Hs; simplify_eq.
    + exists (Some (Forked b)). split; [done|]. cbn. split_and!; [done..|]. by exists b, [].
    + exists (Some FailedFork). split; [by eexists|]. exists [], [FailedFork]. cbn. split_and!; try done. by repeat constructor.
    + exists (Some FailedFork). split; [by eexists|done].
  - destruct todo as [|kind todo]; simplify_eq; exists None; rewrite app_nil_r; (split; [done|]).
    + destruct (evaluator options); [done|]. pose proof Ht as (_ & He & _). rewrite <- (app_nil_r calls). by eapply running_report.
    + destruct (_ && _); [|done]. pose proof Ht as (_ & He & _). rewrite <- (app_nil_r calls). by eapply running_report.
  - cbn in Ht. pose proof Ht as (Hb & He & _).
    destruct (execute_step_auto _ _ _ _ _ k) as [[auto|[e|]] k1] eqn:Ex; cbn in Hs; simplify_eq.
    + exists (Some (Stepped branch kind (auto_result auto))). split; [by eexists _, auto|]. cbn [option_list].
      destruct (running_push _ _ _ _ _ _ (auto_result auto) Ht) as (b & actions & Hid & Ha & Hl & Hc).
      assert (running_calls c branch todo (rep_push (auto_result auto) r) (calls ++ [Stepped branch kind (auto_result auto)])) as Hrun
        by (split_and!; [done..|]; by exists b, actions).
      destruct (action_ok _); [done|]. cbn [task_calls]. rewrite <- (app_nil_r (calls ++ _)). by eapply running_report.
    + exists (Some (FailedStep branch kind)). split; [by eexists _, _|]. eapply running_report; try done. by repeat constructor.
    + exists (Some (FailedStep branch kind)). split; [by eexists _, _|done].
  - cbn in Ht. pose proof Ht as (Hb & He & b & actions & Hid & Ha & Hl & Hc). destruct (evaluator options) as [ev|] eqn:Ee; [|done]. cbn in Hs.
    destruct (execute_step_auto _ _ _ _ _ k) as [[auto|[e|]] k1] eqn:Ex; cbn in Hs; simplify_eq.
    + exists (Some (Stepped (b_id b) ev (auto_result auto))). split; [by eexists _, auto|]. cbn [option_list task_calls].
      eexists _, []. rewrite app_nil_r. split_and!; [done..|]. cbn [rep_branch rep_evaluated rep_steps rep_evaluation]. rewrite Hb.
      exists b, actions, []. split_and!; [done..|]. by exists ev.
    + exists (Some (FailedStep (b_id b) ev)). split; [by eexists _, _|]. eapply running_report; try done. by repeat constructor.
    + exists (Some (FailedStep (b_id b) ev)). split; [by eexists _, _|done].
  - simplify_eq. exists None. by rewrite app_nil_r.
Qed.

(** Every exploration has its calls, and each task knows its own. *)
Lemma explore_traced k x :
  rtc explore_move (spawned k) x ->
  exists tr, traced (spawned k) tr x
    /\ forall i t c, x_tasks x !! i = Some t -> candidates options !! i = Some c -> task_calls c (calls_of i tr) t.
Proof.
  revert x. refine (rtc_ind_r _ _ _ _).
  { exists []. split; [constructor|]. intros i t c Ht _. cbn in Ht.
    apply list_elem_of_lookup_2, list_elem_of_fmap in Ht as (? & -> & _). done. }
  intros x1 x2 _ Hm (tr & Htr & Hok). destruct Hm as [i x' Hs|k' Hk].
  2: { exists (tr ++ option_list None). split; [by eapply traced_move, xl_other|]. cbn [option_list]. by rewrite app_nil_r. }
  pose proof Hs as (t & c & t' & Hi & Hc & Hst & Hts)%explore_step_inv.
  destruct (task_step_calls_made _ _ _ _ _ _ _ _ _ _ Hst (Hok _ _ _ Hi Hc)) as (l & Hl & Hok').
  exists (tr ++ option_list ((i,.) <$> l)). split.
  { eapply traced_move; [done|]. destruct l as [call|]; [by apply xl_call|by eapply xl_quiet]. }
  intros j u d Hj Hd. rewrite Hts in Hj. rewrite calls_of_app. destruct (decide (j = i)) as [->|Hne].
  - rewrite list_lookup_insert_eq in Hj by (by eapply lookup_lt_Some). simplify_eq.
    destruct l as [call|]; cbn; [by rewrite bool_decide_true|done].
  - rewrite list_lookup_insert_ne in Hj by done.
    assert (calls_of j (option_list ((i,.) <$> l)) = []) as -> by (destruct l; cbn; [by rewrite bool_decide_false|done]).
    rewrite app_nil_r. by apply Hok.
Qed.

(** A candidate that passed made exactly the calls it was given. *)
Lemma passed_calls i c r calls :
  report_sound i c r -> rep_passed r = true -> report_calls c r calls ->
  exists b, rep_branch r = Some (b_id b)
    /\ calls = ran_on b (cand_actions c) (rep_steps r)
         ++ match evaluator options, rep_evaluation r with Some ev, Some s => [Stepped (b_id b) ev s] | _, _ => [] end.
Proof.
  intros [_ _ Hs _] Hp (good & bad & -> & _ & Hbad & Hg). destruct (Hs Hp) as (Hb & _ & He & Hl & _ & Hev).
  rewrite (Hbad He), app_nil_r. destruct (rep_branch r) as [br|]; [|done].
  destruct Hg as (b & actions & rest & <- & Ha & Hla & _ & Hg). exists b. split; [done|].
  assert (rest = []) as -> by (apply nil_length_inv; rewrite Ha, length_app in Hl; lia). rewrite app_nil_r in Ha. subst actions.
  destruct (rep_evaluation r) as [s|].
  - by destruct Hg as (ev & -> & ->).
  - rewrite Hg. destruct (evaluator options); by rewrite app_nil_r.
Qed.

(** ** Termination *)

(** The moves left to a task. *)
Definition task_left (c : ExploreCandidate) (t : Task) : nat :=
  match t with
  | XWaiting => 6 + 2 * length (cand_actions c)
  | XStart => 5 + 2 * length (cand_actions c)
  | XFork => 4 + 2 * length (cand_actions c)
  | XLoop _ todo _ => 3 + 2 * length todo
  | XAct _ _ todo _ => 4 + 2 * length todo
  | XEvaluate _ _ => 2
  | XReport _ => 1
  | XFinished _ | XPanicked => 0
  end.

Fixpoint tasks_left (cs : list ExploreCandidate) (ts : list Task) : nat :=
  match cs, ts with c :: cs, t :: ts => task_left c t + tasks_left cs ts | _, _ => 0 end.

Lemma tasks_left_insert cs ts i c t t' :
  cs !! i = Some c -> ts !! i = Some t ->
  (tasks_left cs (<[i := t']> ts) + task_left c t = tasks_left cs ts + task_left c t')%nat.
Proof.
  revert ts i. induction cs as [|c0 cs IH]; intros [|t0 ts] [|i] Hc Ht; simplify_eq/=; [lia|].
  specialize (IH _ _ Hc Ht). lia.
Qed.

Lemma task_step_left i c permit t k won t' k' won' :
  task_step i c permit t k won = Some (t', k', won') -> (task_left c t' < task_left c t)%nat.
Proof.
  intros Hs. assert (forall A (r : result Abort A * Kernel B) ok failed n,
    (forall a, task_left c (ok a) <= n)%nat -> (forall e, task_left c (failed e) <= n)%nat ->
    Some (called r won ok failed) = Some (t', k', won') -> (task_left c t' <= n)%nat) as Hcall.
  { intros A [[a|[e|]] k1] ok failed n Hok Hf Heq; cbn in Heq; simplify_eq; [apply Hok|apply Hf|cbn; lia]. }
  destruct t as [| | |branch todo r|branch kind todo r|branch r|r|r|]; cbn in Hs; try done.
  - destruct permit; simplify_eq. cbn. lia.
  - simplify_eq. destruct (early_stop options && won'); cbn; lia.
  - apply (Hcall _ _ _ _ (3 + 2 * length (cand_actions c))%nat) in Hs; cbn in *; intros; lia.
  - destruct todo; simplify_eq; case_match; cbn; lia.
  - apply (Hcall _ _ _ _ (3 + 2 * length todo)%nat) in Hs; [cbn in *; lia| |cbn; intros; lia].
    intros a. destruct (action_ok _); cbn; lia.
  - destruct (evaluator options); [|done]. apply (Hcall _ _ _ _ 1%nat) in Hs; cbn in *; intros; lia.
  - simplify_eq. cbn. lia.
Qed.

(** A run with [n] moves of the call's own tasks. *)
Inductive explore_run (x : Exploring) : nat -> Exploring -> Prop :=
| run_start : explore_run x 0 x
| run_task n x1 i x2 : explore_run x n x1 -> explore_step x1 i = Some x2 -> explore_run x (S n) x2
| run_other n x1 k :
    explore_run x n x1 -> other (x_kernel x1) k -> explore_run x n (mkExploring k (x_won x1) (x_tasks x1)).

Lemma schedule_run order x x' : schedule order x = Some x' -> explore_run x (length order) x'.
Proof.
  assert (forall n x0, explore_run x0 n x -> schedule order x = Some x' -> explore_run x0 (n + length order) x') as Hgen.
  { revert x. induction order as [|i order IH]; intros x n x0 Hrun Hs; cbn in *.
    - simplify_eq. by rewrite Nat.add_0_r.
    - destruct (explore_step x i) as [x1|] eqn:E; [|done]. rewrite <- Nat.add_succ_comm.
      apply (IH x1); [by eapply run_task|done]. }
  apply (Hgen O). constructor.
Qed.

Lemma run_moves x n x' : explore_run x n x' -> rtc explore_move x x'.
Proof.
  induction 1 as [|n x1 i x2 _ IH Hs|n x1 k _ IH Hk]; [apply rtc_refl|..]; (eapply rtc_r; [exact IH|]).
  - by eapply xm_task.
  - by apply xm_other.
Qed.

Lemma run_left x n x' : explore_run x n x' ->
  (n + tasks_left (candidates options) (x_tasks x') <= tasks_left (candidates options) (x_tasks x))%nat.
Proof.
  induction 1 as [|n x1 i x2 _ IH Hs|n x1 k _ IH Hk]; [lia| |done].
  apply explore_step_inv in Hs as (t & c & t' & Hi & Hc & Hs & ->). apply task_step_left in Hs.
  pose proof (tasks_left_insert _ _ _ _ _ t' Hc Hi). lia.
Qed.

(** Without a collected result some task can move. *)
Lemma explore_progress x : explore_ok x -> collect (x_tasks x) = None -> exists i x', explore_step x i = Some x'.
Proof.
  intros [Hl Ht Hw Hp] Hc.
  assert (forall i t, x_tasks x !! i = Some t ->
    (forall c, candidates options !! i = Some c -> exists r,
       task_step i c (Nat.ltb (permits_used (x_tasks x)) parallel) t (x_kernel x) (x_won x) = Some r) ->
    exists i x', explore_step x i = Some x') as Hmove.
  { intros i t Hi Hstep. destruct (candidates options !! i) as [c|] eqn:Ec.
    - destruct (Hstep c eq_refl) as [[[t' k'] won'] Hs]. exists i. eexists. unfold explore_step. rewrite Hi.
      cbn [mbind option_bind]. rewrite Ec. cbn [mbind option_bind]. by rewrite Hs.
    - apply lookup_lt_Some in Hi. apply lookup_ge_None in Ec. lia. }
  destruct (Nat.ltb (permits_used (x_tasks x)) parallel) eqn:Eperm.
  - apply collect_pending in Hc as (i & t & Hi & Hend). apply (Hmove i t Hi). intros c Hci.
    specialize (Ht _ _ _ Hi Hci). destruct t as [| | |? [|]| |branch r| | |]; cbn in *; try done; eauto.
    destruct Ht as [_ Hev]. destruct (evaluator options); [|done]. cbn. eauto.
  - apply Nat.ltb_ge in Eperm. pose proof parallel_pos.
    assert (exists i t, x_tasks x !! i = Some t /\ holds_permit t = true) as (i & t & Hi & Hh).
    { unfold permits_used in Eperm. destruct (List.filter holds_permit (x_tasks x)) as [|t l] eqn:Ef; [cbn in Eperm; lia|].
      assert (In t (List.filter holds_permit (x_tasks x))) as Hin by (rewrite Ef; by left).
      apply filter_In in Hin as [Hin Hh]. apply list_elem_of_In, list_elem_of_lookup in Hin as [i Hi]. eauto. }
    apply (Hmove i t Hi). intros c Hci. specialize (Ht _ _ _ Hi Hci).
    destruct t as [| | |? [|]| |branch r| | |]; cbn in *; try done; eauto.
    destruct Ht as [_ Hev]. destruct (evaluator options); [|done]. cbn. eauto.
Qed.

(** * Properties *)


(** An exploration does nothing to the kernel but call its facade: when other callers do
    so too, then whatever the interleaving and however the exploration ends, the kernel it
    leaves is reached by facade calls from the kernel it started with, so that every guarantee
    over runs of the facade extends to it. *)
Theorem explore_is_facade_calls k r k' :
  (forall k1 k2, other k1 k2 -> kernel_step k1 k2) -> explore k r k' -> rtc kernel_step k k'.
Proof.
  intros Ho He.
  inversion He as [|x e _ Hr|x rs _ Hr]; subst; [apply rtc_refl|apply (explore_moves_calls _ _ Ho Hr)|].
  etrans; [apply (explore_moves_calls _ _ Ho Hr)|apply conclude_calls].
Qed.

(** C39: Exploration ends and never runs too wide.  At every point of a call, at most the
    configured number of candidates runs, at least one being allowed; its tasks have made at
    most six moves each and two more per action; and as long as the reports are not collected
    some task can move, so no interleaving deadlocks. *)
Theorem explore_terminates k n x :
  explore_run (spawned k) n x ->
  (permits_used (x_tasks x) <= parallel)%nat /\ (1 <= parallel)%nat /\ (Z.of_nat parallel <= Z.max 1 fanout)
  /\ (n <= tasks_left (candidates options) (map (fun _ => XWaiting) (candidates options)))%nat
  /\ ((exists r, collect (x_tasks x) = Some r) \/ exists i x', explore_step x i = Some x').
Proof.
  intros Hrun. pose proof (explore_reach_ok _ _ (spawned_ok k) (run_moves _ _ _ Hrun)) as HI.
  pose proof (run_left _ _ _ Hrun) as Hle. cbn [spawned x_tasks] in Hle. split_and!; [apply HI|apply parallel_pos| |lia|].
  - unfold parallel, clamp. repeat case_match; bool_hyps; lia.
  - destruct (collect (x_tasks x)) eqn:Ec; [left; eauto|right]. by apply explore_progress.
Qed.
End call.
End explore.
