(* ===== verification/Config.v ===== *)
(** Configuration and start-up: the configuration types of
    [kernel/api/src/kernel.rs] with [build_backend], [spawn_mcp_server] and the
    end of [Kernel::open], and [kernel/api/src/bin/agent_kernel_server.rs].

    What the host answers, file by file, is the class [StartHost]; parsed YAML
    and the command line split into flags are inputs. *)

From S2P Require Import Prelude Json Budget Capability Types B64 Utf8 Auth Canonical Policy IdentityDb Router Scheduler Effect Ledger Broker Snapshot Dag Path Net IpText KernelText Egress Service HttpConn McpConn LocalSandbox.
From S2P Require Import Remote Hosts Gvisor Kubernetes Mirror Cube Forkd Kernel KernelBranch.

Open Scope Z_scope.

(** * Configuration *)

Inductive BackendSetup : Type :=
| SGvisor (endpoint : string) (image : option string)
| SForkd (endpoint : string)
| SCube (endpoint : string)
| SKubernetes (endpoint : string) (isolation_strength : Z) (namespace runtime_class image : option string).

Record McpServerSetup := mkMcpSetup {
  mcp_name : string;
  mcp_command : string;
  mcp_args : list string;
  mcp_manifest_file : option string;
  mcp_public_key_hex : option string;
  mcp_env : gmap string string;
  mcp_allow_unsandboxed : bool;
}.

Record HttpEgressSetup := mkHttpSetup {
  read_safe_domains : list string;
  http_max_response_bytes : Z;
}.

Definition default_http_response_cap : Z := Z.shiftl 4 20.
Definition http_setup_default : HttpEgressSetup := mkHttpSetup [] default_http_response_cap.

Definition default_episode_budget : ResourceBudget :=
  mkBudget (10 * 60 * 1000) (Z.shiftl 8 30) (Z.shiftl 1 30) 1000000 10000000 1000.
Definition default_fanout : Z := 8.

Record KernelConfig := mkConfig {
  data_dir : string;
  policy_file : option string;
  cfg_workspace_root : option string;
  cfg_episode_budget : ResourceBudget;
  max_concurrent_branches : Z;
  vault_key_file : option string;
  cfg_http : option HttpEgressSetup;
  cfg_mcp : list McpServerSetup;
  cfg_backends : list BackendSetup;
}.

Definition config_new (data_dir : string) : KernelConfig :=
  mkConfig data_dir None None default_episode_budget default_fanout None None [] [].

(** [Path::join] with a relative name. *)
Definition path_join (base name : string) : string :=
  if str_is_empty base then name else if ends_with "/" base then base +:+ name else base +:+ "/" +:+ name.

(** [home]: the variable [HOME]. *)
Definition effective_vault_key_file (home : option string) (self : KernelConfig) : string :=
  match vault_key_file self with
  | Some p => p
  | None => path_join (path_join (default EmptyString home) ".agent-kernel") "vault.key"
  end.

(** * Backends *)

(** A remote backend, as it is built.  Those of forkd and Cube hold the kernel's state
    provider, which reads the state DAG as it is when a step runs. *)
Inductive Built : Type :=
| BGvisor (c : Gvisor.GvisorConfig)
| BForkd (c : Forkd.ForkdConfig)
| BCube (c : Cube.CubeConfig)
| BKubernetes (c : Kubernetes.KubernetesConfig).

Definition built_profile (b : Built) : BackendProfile :=
  match b with
  | BGvisor _ => Gvisor.profile
  | BForkd _ => Forkd.profile true
  | BCube _ => Cube.profile true
  | BKubernetes c => Kubernetes.profile c
  end.

(** [env]: the environment of the process.  [client]: the answer of the builder
    of the HTTP client. *)
Definition build_backend `{!UrlOps} (env : string -> option string) (client : result string ())
    (setup : BackendSetup) : KernelResult Built :=
  match setup with
  | SGvisor endpoint image =>
      let config := Gvisor.mkGvisorConfig endpoint (env "GVISOR_API_TOKEN") image 30 in
      _ ← Gvisor.backend_new config client; Ok (BGvisor config)
  | SForkd endpoint =>
      let config := Forkd.from_env endpoint (env "FORKD_API_TOKEN") in
      _ ← Forkd.backend_new config client; Ok (BForkd config)
  | SCube endpoint =>
      let config := Cube.from_env endpoint (env "CUBE_API_TOKEN") in
      _ ← Cube.backend_new config client; Ok (BCube config)
  | SKubernetes endpoint strength namespace runtime_class image =>
      let base := Kubernetes.from_env endpoint strength (env "KUBERNETES_API_TOKEN") in
      let config := Kubernetes.mkKubernetesConfig endpoint (Kubernetes.auth_token base)
        (default (Kubernetes.namespace base) namespace) runtime_class (default (Kubernetes.image base) image)
        strength (Kubernetes.request_timeout base) in
      _ ← Kubernetes.backend_new config client; Ok (BKubernetes config)
  end.

(** * Tool servers *)

Definition mcp_name_char (c : ascii) : bool :=
  let b := byte_val c in
  ((97 <=? b) && (b <=? 122)) || ((48 <=? b) && (b <=? 57)) || Ascii.eqb c "-" || Ascii.eqb c "_".

Definition mcp_name_ok (name : string) : bool := negb (str_is_empty name) && str_all mcp_name_char name.

Class StartHost := {
  create_dir_all : string -> result string ();
  canonicalize : string -> result string string;
  write_text : string -> string -> result string ();
  read_text : string -> result string string;
  yaml_manifest : string -> result string SignedManifest;
  is_macos : bool;
}.

Record SpawnPlan := mkPlanned {
  sp_name : string;
  sp_command : string;
  sp_args : list string;
  sp_manifest : option (SignedManifest * string);
  sp_options : Mcp.SpawnOptions;
}.

Section start.
Context `{!StartHost}.

Definition mcp_root (config : KernelConfig) : string := path_join (data_dir config) "mcp".

Definition read_manifest (setup : McpServerSetup) : KernelResult (option (SignedManifest * string)) :=
  match mcp_manifest_file setup, mcp_public_key_hex setup with
  | Some path, Some key =>
      text ← map_err EIo (read_text path);
      signed ← map_err (fun e => EOther ("mcp manifest `" +:+ path +:+ "` is not a SignedManifest document: " +:+ e)) (yaml_manifest text);
      Ok (Some (signed, key))
  | None, None => Ok None
  | _, _ => Err (EOther ("mcp server `" +:+ mcp_name setup +:+ "`: `manifest_file` and `manifest_public_key_hex` must be set together"))
  end.

Definition no_sandbox_error (name : string) : KernelError :=
  BackendUnavailable "local"
    ("no verified OS sandbox on this host: MCP server `" +:+ name +:+ "` is a low-trust tool process and fails closed. Install bubblewrap (Linux) or ensure /usr/bin/sandbox-exec works (macOS), or opt in for trusted development servers only via `dangerously_allow_unsandboxed`.").

(** [or_insert_with]. *)
Definition entry_or (k v : string) (m : gmap string string) : gmap string string :=
  match m !! k with Some _ => m | None => <[k := v]> m end.

(** [spawn_mcp_server], up to the start of the process.  [tech]: the sandbox the
    local backend verified. *)
Definition plan_mcp_server (config : KernelConfig) (tech : SandboxTech) (setup : McpServerSetup) : KernelResult SpawnPlan :=
  if negb (mcp_name_ok (mcp_name setup)) then
    Err (EOther ("mcp server name `" +:+ mcp_name setup +:+ "` must match [a-z0-9_-]+ — it names an on-disk scratch cell and an operation prefix"))
  else
    let cell := path_join (mcp_root config) (mcp_name setup) in
    _ ← map_err EIo (create_dir_all cell);
    cell ← map_err EIo (canonicalize cell);
    let profile_out := path_join (mcp_root config) (mcp_name setup +:+ ".sb") in
    wrapper ← map_err EIo (tool_wrapper is_macos tech cell profile_out (create_dir_all (path_join cell SCRATCH_DIR)) (write_text profile_out));
    wrapper ← match wrapper with
              | Some w => Ok w
              | None => if mcp_allow_unsandboxed setup then Ok [] else Err (no_sandbox_error (mcp_name setup))
              end;
    manifest ← read_manifest setup;
    let env := entry_or "TMPDIR" cell (entry_or "HOME" cell (mcp_env setup)) in
    Ok (mkPlanned (mcp_name setup) (mcp_command setup) (mcp_args setup) manifest (Mcp.mkSpawn env (Some cell) wrapper)).

End start.

(** * The end of [Kernel::open] *)

Section open.
Context {B : Type} `{!Backend B, !RouterDebug, !World B}.
Context `{!Serde, !Sha256, !TimeJson, !JsonText, !DeltaSerde, !TimeText, !Chrono, !ManifestSerde}.
Context `{!ReceiptSigner, !ErrorDisplay, !KernelDisplay, !PathsDebug, !StepSerde}.
Context `{!StartHost} (as_backend : Built -> B) (http_connector : HttpGet.HttpConnectorConfig -> KConnector)
  (spawn : SpawnPlan -> KernelResult KConnector).

Definition http_config (setup : HttpEgressSetup) : HttpGet.HttpConnectorConfig :=
  HttpGet.mkHttpConfig (read_safe_domains setup) (http_max_response_bytes setup) 5 false.

Definition spawn_mcp_server (config : KernelConfig) (tech : SandboxTech) (setup : McpServerSetup) (k : Kernel B) : KernelResult (Kernel B) :=
  plan ← plan_mcp_server config tech setup;
  gateway ← spawn plan;
  Ok (register_connector (mcp_name setup) gateway k).2.

Fixpoint spawn_all (config : KernelConfig) (tech : SandboxTech) (l : list McpServerSetup) (k : Kernel B) : KernelResult (Kernel B) :=
  match l with
  | [] => Ok k
  | setup :: rest => k ← spawn_mcp_server config tech setup k; spawn_all config tech rest k
  end.

Fixpoint build_all `{!UrlOps} (env : string -> option string) (client : result string ()) (l : list BackendSetup) (k : Kernel B) : KernelResult (Kernel B) :=
  match l with
  | [] => Ok k
  | setup :: rest =>
      b ← build_backend env client setup;
      build_all env client rest (register_backend_k (as_backend b) k).2
  end.

Definition configure `{!UrlOps} (env : string -> option string) (client : result string ())
    (config : KernelConfig) (tech : SandboxTech) (k : Kernel B) : KernelResult (Kernel B) :=
  let k := match cfg_http config with
           | Some http => (register_connector HttpGet.name (http_connector (http_config http)) k).2
           | None => k
           end in
  k ← spawn_all config tech (cfg_mcp config) k;
  build_all env client (cfg_backends config) k.
End open.

(** * The server *)

Record Args := mkArgs {
  arg_config : option string;
  arg_listen : string;
  arg_auth_config : option string;
  insecure_no_auth : bool;
  http_read_safe : list string;
  arg_mcp_server : list string;
  arg_backend : list string;
}.

Definition with_http (config : KernelConfig) (h : option HttpEgressSetup) : KernelConfig :=
  mkConfig (data_dir config) (policy_file config) (cfg_workspace_root config) (cfg_episode_budget config)
    (max_concurrent_branches config) (vault_key_file config) h (cfg_mcp config) (cfg_backends config).
Definition push_mcp (config : KernelConfig) (m : McpServerSetup) : KernelConfig :=
  mkConfig (data_dir config) (policy_file config) (cfg_workspace_root config) (cfg_episode_budget config)
    (max_concurrent_branches config) (vault_key_file config) (cfg_http config) (cfg_mcp config ++ [m]) (cfg_backends config).
Definition push_backend (config : KernelConfig) (b : BackendSetup) : KernelConfig :=
  mkConfig (data_dir config) (policy_file config) (cfg_workspace_root config) (cfg_episode_budget config)
    (max_concurrent_branches config) (vault_key_file config) (cfg_http config) (cfg_mcp config) (cfg_backends config ++ [b]).

Definition add_read_safe (domains : list string) (config : KernelConfig) : KernelConfig :=
  match domains with
  | [] => config
  | _ =>
      let http := default http_setup_default (cfg_http config) in
      with_http config (Some (mkHttpSetup (read_safe_domains http ++ domains) (http_max_response_bytes http)))
  end.

Definition mcp_flag (spec : string) : result string McpServerSetup :=
  '(name, cmdline) ← ok_or (split_once "=" spec) ("--mcp-server expects `name=command [args…]`, got `" +:+ spec +:+ "`");
  match split_whitespace cmdline with
  | [] => Err ("--mcp-server " +:+ name +:+ ": empty command")
  | command :: args => Ok (mkMcpSetup (trim name) command args None None ∅ false)
  end.

Definition backend_flag (spec : string) : result string BackendSetup :=
  '(kind, endpoint) ← ok_or (split_once "=" spec) ("--backend expects `kind=endpoint`, got `" +:+ spec +:+ "`");
  let endpoint := trim endpoint in
  if String.eqb (trim kind) "gvisor" then Ok (SGvisor endpoint None)
  else if String.eqb (trim kind) "forkd" then Ok (SForkd endpoint)
  else if String.eqb (trim kind) "cube" then Ok (SCube endpoint)
  else Err ("--backend kind `" +:+ trim kind +:+ "` is not supported on the CLI; use the config file's `backends` block (kinds: gvisor, forkd, cube, kubernetes)").

Fixpoint add_mcp (specs : list string) (config : KernelConfig) : result string KernelConfig :=
  match specs with
  | [] => Ok config
  | spec :: rest => m ← mcp_flag spec; add_mcp rest (push_mcp config m)
  end.

Fixpoint add_backends (specs : list string) (config : KernelConfig) : result string KernelConfig :=
  match specs with
  | [] => Ok config
  | spec :: rest => b ← backend_flag spec; add_backends rest (push_backend config b)
  end.

(** [SocketAddr::from_str]: any number of digits in a port and a scope. *)
Definition read_port (s : string) : option (Z * string) :=
  s ← read_given_char ":" s;
  read_number 10 65535 (String.length s) true s.

Definition read_scope (s : string) : option string :=
  match read_given_char "%" s with
  | Some r => '(_, rest) ← read_number 10 (2 ^ 32 - 1) (String.length r) true r; Some rest
  | None => Some s
  end.

Definition read_socket_v4 (s : string) : option (SocketAddr * string) :=
  '(ip, s) ← read_ipv4_addr s;
  '(port, s) ← read_port s;
  Some (mkAddr (V4 ip) port, s).

Definition read_socket_v6 (s : string) : option (SocketAddr * string) :=
  s ← read_given_char "[" s;
  '(ip, s) ← read_ipv6_addr s;
  s ← read_scope s;
  s ← read_given_char "]" s;
  '(port, s) ← read_port s;
  Some (mkAddr (V6 ip) port, s).

Definition parse_socket_addr (s : string) : option SocketAddr :=
  '(a, rest) ← match read_socket_v4 s with Some x => Some x | None => read_socket_v6 s end;
  if str_is_empty rest then Some a else None.

(** [main], up to opening the kernel and serving.  [read_config] and [read_auth] are the
    YAML files. *)
Definition server_plan (read_config : string -> result string KernelConfig) (read_auth : string -> result string AuthConfig)
    (args : Args) : result string (KernelConfig * AuthConfig * SocketAddr) :=
  config ← match arg_config args with Some path => read_config path | None => Ok (config_new "agent-kernel-data") end;
  let config := add_read_safe (http_read_safe args) config in
  config ← add_mcp (arg_mcp_server args) config;
  config ← add_backends (arg_backend args) config;
  auth ← match arg_auth_config args with Some path => read_auth path | None => Ok auth_disabled end;
  addr ← ok_or (parse_socket_addr (arg_listen args)) "invalid socket address syntax";
  if auth_enabled auth then Ok (config, auth, addr)
  else if negb (is_loopback (addr_ip addr)) then
    Err ("refusing to listen on non-loopback " +:+ arg_listen args +:+ " without --auth-config; unauthenticated mode is loopback-only")
  else if negb (insecure_no_auth args) then
    Err "no --auth-config given; pass --insecure-no-auth to explicitly accept an unauthenticated loopback control plane"
  else Ok (config, auth, addr).

(** * What start-up guarantees *)

Definition MCP_NAME_CHARS : string := "abcdefghijklmnopqrstuvwxyz0123456789-_".

(** The command line of a tool server: the sandbox of its own cell around the
    configured command, with the profile that was written for that cell where the
    sandbox reads one, or the command alone when the setup asked for that on a host
    without a sandbox. *)
Definition mcp_confined `{!StartHost} (config : KernelConfig) (tech : SandboxTech) (setup : McpServerSetup) (cell : string)
    (c : Mcp.ServerCommand) : Prop :=
  match tech with
  | Bwrap => Mcp.program c = "bwrap" /\ Mcp.argv c = bwrap_args cell [] [] ++ mcp_command setup :: mcp_args setup
  | SandboxExec =>
      let profile := path_join (path_join (data_dir config) "mcp") (mcp_name setup +:+ ".sb") in
      write_text profile (seatbelt_profile is_macos cell [] [] None) = Ok tt
      /\ Mcp.program c = "/usr/bin/sandbox-exec" /\ Mcp.argv c = "-f" :: profile :: mcp_command setup :: mcp_args setup
  | NoSandbox => mcp_allow_unsandboxed setup = true
      /\ Mcp.program c = mcp_command setup /\ Mcp.argv c = mcp_args setup
  end.

(** The manifest a server is held to is the configured one. *)
Definition mcp_manifest_kept `{!StartHost} (setup : McpServerSetup) (plan : SpawnPlan) : Prop :=
  match mcp_manifest_file setup, mcp_public_key_hex setup with
  | Some path, Some key =>
      exists text signed, read_text path = Ok text /\ yaml_manifest text = Ok signed /\ sp_manifest plan = Some (signed, key)
  | None, None => sp_manifest plan = None
  | _, _ => False
  end.

Lemma read_manifest_kept `{!StartHost} setup m : read_manifest setup = Ok m ->
  forall name command args options, mcp_manifest_kept setup (mkPlanned name command args m options).
Proof.
  unfold read_manifest, mcp_manifest_kept. intros Hr name command args options.
  destruct (mcp_manifest_file setup) as [path|], (mcp_public_key_hex setup) as [key|]; try done; [|by injection Hr as <-].
  apply bind_Ok in Hr as (text & Ht%map_err_Ok & Hr). apply bind_Ok in Hr as (signed & Hs%map_err_Ok & Hr).
  injection Hr as <-. by exists text, signed.
Qed.

Lemma mcp_name_char_listed c : mcp_name_char c = true -> c ∈ String.list_ascii_of_string MCP_NAME_CHARS.
Proof.
  intros Hc. assert (existsb (Ascii.eqb c) (String.list_ascii_of_string MCP_NAME_CHARS) = true) as Hl.
  { revert Hc. destruct c as [[] [] [] [] [] [] [] []]; vm_compute; congruence. }
  apply existsb_exists in Hl as (x & Hx & ->%Ascii.eqb_eq). by apply list_elem_of_In.
Qed.

Lemma mcp_name_listed name : mcp_name_ok name = true ->
  name <> EmptyString /\ forall c, c ∈ String.list_ascii_of_string name -> c ∈ String.list_ascii_of_string MCP_NAME_CHARS.
Proof.
  unfold mcp_name_ok. intros [Hne Hall]%andb_true_iff. split; [by intros ->|].
  clear Hne. induction name as [|a name IH]; cbn in *; [by intros c []%not_elem_of_nil|].
  apply andb_true_iff in Hall as [Ha Hall]. intros c [->|Hc]%elem_of_cons; [by apply mcp_name_char_listed|by apply IH].
Qed.

Lemma entry_or_lookup k v m k' v' : entry_or k v m !! k' = Some v' -> m !! k' = Some v' \/ (k' = k /\ v' = v).
Proof.
  unfold entry_or. destruct (m !! k); [by left|]. rewrite lookup_insert_Some. naive_solver.
Qed.


(** The server never serves strangers.  When it goes on to serve, authentication is on,
    or it listens on a loopback address and the operator passed the flag that says so. *)
Theorem server_guarded read_config read_auth args config auth addr :
  server_plan read_config read_auth args = Ok (config, auth, addr) ->
  parse_socket_addr (arg_listen args) = Some addr
  /\ (auth_enabled auth = true \/ (is_loopback (addr_ip addr) = true /\ insecure_no_auth args = true)).
Proof.
  unfold server_plan. destruct (match arg_config args with Some path => read_config path | None => _ end) as [c0|]; [|done].
  cbn [mbind result_bind]. destruct (add_mcp _ _) as [c1|]; [|done]. cbn [mbind result_bind].
  destruct (add_backends _ _) as [c2|]; [|done]. cbn [mbind result_bind].
  destruct (match arg_auth_config args with Some path => read_auth path | None => _ end) as [a|]; [|done].
  cbn [mbind result_bind]. destruct (parse_socket_addr _) as [ad|]; [|done]. cbn [ok_or mbind result_bind].
  destruct (auth_enabled a) eqn:Ea; [intros [= <- <- <-]; auto|].
  destruct (is_loopback (addr_ip ad)) eqn:El; [|done]. destruct (insecure_no_auth args); [|done].
  intros [= <- <- <-]. auto.
Qed.

(** Flags only add: what the configuration file says stays, and what they add is confined
    and of a kind the flag can describe. *)
Record extends (c c' : KernelConfig) : Prop := {
  ext_same : data_dir c' = data_dir c /\ policy_file c' = policy_file c /\ vault_key_file c' = vault_key_file c
    /\ cfg_episode_budget c' = cfg_episode_budget c;
  ext_mcp : exists l, cfg_mcp c' = cfg_mcp c ++ l /\ Forall (fun m => mcp_allow_unsandboxed m = false) l;
  ext_backends : exists l, cfg_backends c' = cfg_backends c ++ l;
}.

#[export] Instance extends_preorder : PreOrder extends.
Proof.
  split.
  - intros c. split; [done|exists []|exists []]; by rewrite app_nil_r.
  - intros a b c [(? & ? & ? & ?) (l & Hl & Fl) (m & Hm)] [(? & ? & ? & ?) (l' & Hl' & Fl') (m' & Hm')]. split.
    + split_and!; congruence.
    + exists (l ++ l'). rewrite Hl', Hl, app_assoc. split; [done|]. by apply Forall_app.
    + exists (m ++ m'). by rewrite Hm', Hm, app_assoc.
Qed.

Lemma mcp_flag_confined spec m : mcp_flag spec = Ok m -> mcp_allow_unsandboxed m = false.
Proof.
  unfold mcp_flag. destruct (split_once "=" spec) as [[n c]|]; [|done]. cbn [ok_or mbind result_bind].
  destruct (split_whitespace c); [done|]. by intros [= <-].
Qed.

Lemma add_mcp_extends specs c c' : add_mcp specs c = Ok c' -> extends c c'.
Proof.
  revert c. induction specs as [|spec specs IH]; intros c; cbn [add_mcp]; [intros [= <-]; reflexivity|].
  destruct (mcp_flag spec) as [m|] eqn:Em; [|done]. cbn [mbind result_bind]. intros H%IH. etrans; [|exact H].
  split; [done|exists [m]; split; [done|]|exists []; by rewrite app_nil_r].
  repeat constructor. by eapply mcp_flag_confined.
Qed.

Lemma add_backends_extends specs c c' : add_backends specs c = Ok c' -> extends c c'.
Proof.
  revert c. induction specs as [|spec specs IH]; intros c; cbn [add_backends]; [intros [= <-]; reflexivity|].
  destruct (backend_flag spec) as [b|]; [|done]. cbn [mbind result_bind]. intros H%IH. etrans; [|exact H].
  split; [done|exists []; by rewrite app_nil_r|by exists [b]].
Qed.

(** The command line only adds to a configuration file. *)
Theorem flags_only_add read_config read_auth args path c config auth addr :
  arg_config args = Some path -> read_config path = Ok c ->
  server_plan read_config read_auth args = Ok (config, auth, addr) -> extends c config.
Proof.
  intros Hp Hc. unfold server_plan. rewrite Hp, Hc. cbn [mbind result_bind].
  destruct (add_mcp _ _) as [c1|] eqn:E1; [|done]. cbn [mbind result_bind].
  destruct (add_backends _ _) as [c2|] eqn:E2; [|done]. cbn [mbind result_bind].
  destruct (match arg_auth_config args with Some path0 => read_auth path0 | None => _ end) as [a|]; [|done].
  cbn [mbind result_bind]. destruct (parse_socket_addr _) as [ad|]; [|done]. cbn [ok_or mbind result_bind].
  intros H. assert (c2 = config) as ->.
  { destruct (auth_enabled a), (negb (is_loopback (addr_ip ad))), (negb (insecure_no_auth args)); congruence. }
  apply add_backends_extends in E2. apply add_mcp_extends in E1. etrans; [|exact E2]. etrans; [|exact E1].
  unfold add_read_safe. destruct (http_read_safe args); [reflexivity|].
  split; [done|exists []|exists []]; by rewrite app_nil_r.
Qed.

(** What a configured backend advertises. *)
Definition honest (setup : BackendSetup) (p : BackendProfile) : Prop :=
  shares_workspace p = false /\ supports_fork p = syncs_state p /\
  match setup with
  | SGvisor _ _ => Router.isolation_strength p = 70 /\ syncs_state p = false
  | SForkd _ | SCube _ => Router.isolation_strength p = 90 /\ syncs_state p = true
  | SKubernetes _ strength _ _ _ => Router.isolation_strength p = strength /\ syncs_state p = false
  end.

Definition setup_endpoint (setup : BackendSetup) : string :=
  match setup with SGvisor e _ | SForkd e | SCube e | SKubernetes e _ _ _ _ => e end.

(** Encrypted, or to this machine. *)
Definition safe_endpoint `{!UrlOps} (endpoint : string) : Prop :=
  exists url, url_parse endpoint = Ok url
    /\ (scheme url = "https" \/ (scheme url = "http" /\ host_is_loopback (default EmptyString (host_str url)) = true)).

Lemma check_endpoint_ok `{!UrlOps} backend endpoint u : check_endpoint backend endpoint = Ok u -> safe_endpoint endpoint.
Proof.
  unfold check_endpoint, safe_endpoint. destruct (url_parse endpoint) as [url|]; [|done]. cbn [map_err mbind result_bind].
  intros Hok. exists url. split; [done|].
  destruct (String.eqb_spec (scheme url) "https") as [->|]; [by left|].
  destruct (String.eqb_spec (scheme url) "http") as [->|]; [|done].
  destruct (host_is_loopback _); [by right|done].
Qed.

(** The first check of a constructor. *)
Lemma bind_ok_l {E A B} (m : result E A) (f : A -> result E B) b : m ≫= f = Ok b -> exists a, m = Ok a /\ f a = Ok b.
Proof. destruct m as [a|e]; [eauto|done]. Qed.

(** Configured backends are what they say, where they say.  A backend built from the
    configuration speaks to its endpoint over TLS, or in the clear only to this machine; it
    never claims the kernel's own workspace; only those of forkd and Cube, which get the
    kernel's state provider, claim to sync state and to fork; and the isolation it advertises
    is fixed for its kind or, for Kubernetes, the operator's figure. *)
Theorem built_backends_honest `{!UrlOps} env client setup b :
  build_backend env client setup = Ok b -> honest setup (built_profile b) /\ safe_endpoint (setup_endpoint setup).
Proof.
  destruct setup as [e i|e|e|e st ns rc im]; cbn [build_backend]; intros (m & Hm & [= <-])%bind_ok_l;
    (split; [by repeat split|]); apply bind_ok_l in Hm as ([] & Hm & _); by apply check_endpoint_ok in Hm.
Qed.

Section candidates.
Context {B : Type} `{!Backend B, !RouterDebug, !World B}.
Context `{!Serde, !Sha256, !TimeJson, !JsonText, !DeltaSerde, !TimeText, !Chrono, !ManifestSerde}.
Context `{!ReceiptSigner, !ErrorDisplay, !KernelDisplay, !PathsDebug, !StepSerde}.
Context `{!StartHost, !UrlOps} (as_backend : Built -> B) (http_connector : HttpGet.HttpConnectorConfig -> KConnector)
  (spawn : SpawnPlan -> KernelResult KConnector).

Lemma build_all_router env client l (k k' : Kernel B) :
  build_all as_backend env client l k = Ok k' ->
  exists bs, Forall2 (fun setup b => build_backend env client setup = Ok b) l bs
    /\ router (k_sched k') = router (k_sched k) ++ map as_backend bs.
Proof.
  revert k. induction l as [|setup l IH]; intros k; cbn [build_all].
  { intros [= <-]. exists []. by rewrite app_nil_r. }
  intros (b & Hb & (bs & Hbs & Hr)%IH)%bind_ok_l. exists (b :: bs). split; [by constructor|].
  rewrite Hr. cbn. unfold register_backend. by rewrite <- app_assoc.
Qed.

Lemma spawn_all_sched config tech l (k k' : Kernel B) : spawn_all spawn config tech l k = Ok k' -> k_sched k' = k_sched k.
Proof.
  revert k. induction l as [|setup l IH]; intros k; cbn [spawn_all]; [by intros [= <-]|].
  intros (k1 & Hk & ->%IH)%bind_ok_l. unfold spawn_mcp_server in Hk.
  apply bind_ok_l in Hk as (plan & _ & Hk). apply bind_ok_l in Hk as (g & _ & Hk). by injection Hk as <-.
Qed.

(** The candidates of routing are those there were and the configured ones, in order. *)
Theorem configured_candidates env client config tech (k k' : Kernel B) :
  configure as_backend http_connector spawn env client config tech k = Ok k' ->
  exists bs, Forall2 (fun setup b => build_backend env client setup = Ok b) (cfg_backends config) bs
    /\ router (k_sched k') = router (k_sched k) ++ map as_backend bs.
Proof.
  unfold configure. intros (k1 & Hs & (bs & Hbs & Hr)%build_all_router)%bind_ok_l. exists bs. split; [done|].
  rewrite Hr, (spawn_all_sched _ _ _ _ _ Hs). by destruct (cfg_http config).
Qed.
End candidates.

(** No profile of a server lies in the cell of one: its name has a dot, and no cell has. *)
Theorem profile_outside_cells a b : mcp_name_ok b = true -> a +:+ ".sb" <> b.
Proof.
  unfold mcp_name_ok. intros [_ Hb]%andb_true_iff ->%eq_sym. revert Hb.
  induction a as [|c a IH]; [done|]. cbn. intros [_ ?]%andb_true_iff. by apply IH.
Qed.

Module ConfigDemo.

#[local] Instance host : StartHost := {|
  create_dir_all _ := Ok tt; canonicalize p := Ok p; write_text _ _ := Ok tt;
  read_text _ := Err "no file"; yaml_manifest _ := Err "no manifest"; is_macos := false |}.

Definition setup : McpServerSetup := mkMcpSetup "files" "mcp-files" ["--ro"] None None {["LANG" := "C"]} false.
Definition cfg : KernelConfig := config_new "/data".

Definition planned : SpawnPlan :=
  mkPlanned "files" "mcp-files" ["--ro"] None
    (Mcp.mkSpawn (entry_or "TMPDIR" "/data/mcp/files" (entry_or "HOME" "/data/mcp/files" {["LANG" := "C"]}))
       (Some "/data/mcp/files") ("bwrap" :: bwrap_args "/data/mcp/files" [] [])).


(** The same server without a sandbox is refused. *)
Example no_sandbox_refused : plan_mcp_server cfg NoSandbox setup = Err (no_sandbox_error "files").
Proof. reflexivity. Qed.

Definition args (listen : string) (insecure : bool) : Args := mkArgs None listen None insecure [] ["files=mcp-files --ro"] ["cube=https://cube"].

Definition served : KernelConfig :=
  push_backend (push_mcp (config_new "agent-kernel-data") (mkMcpSetup "files" "mcp-files" ["--ro"] None None ∅ false)) (SCube "https://cube").

Lemma server_guarded_witness :
  server_plan (fun _ => Err "none") (fun _ => Err "none") (args "127.0.0.1:7466" true)
    = Ok (served, auth_disabled, mkAddr (V4 (mkV4 127 0 0 1)) 7466)
  /\ (auth_enabled auth_disabled = true \/ (is_loopback (V4 (mkV4 127 0 0 1)) = true /\ true = true)).
Proof.
  assert (server_plan (fun _ => Err "none") (fun _ => Err "none") (args "127.0.0.1:7466" true)
    = Ok (served, auth_disabled, mkAddr (V4 (mkV4 127 0 0 1)) 7466)) as Hp by (vm_compute; reflexivity).
  split; [exact Hp|]. exact (proj2 (server_guarded _ _ _ _ _ _ Hp)).
Defined.

(** Every address that is not loopback is refused without authentication. *)
Example open_address_refused :
  is_ok (server_plan (fun _ => Err "none") (fun _ => Err "none") (args "[::]:80" true)) = false.
Proof. vm_compute. reflexivity. Qed.

#[local] Instance urls : UrlOps := HttpGet.HttpGetDemo.text_urls.

Lemma built_backends_honest_witness :
  build_backend (fun _ => None) (Ok tt) (SCube "https://cube.example/") = Ok (BCube (Cube.mkCubeConfig "https://cube.example/" None 30))
  /\ safe_endpoint "https://cube.example/".
Proof.
  assert (build_backend (fun _ => None) (Ok tt) (SCube "https://cube.example/")
    = Ok (BCube (Cube.mkCubeConfig "https://cube.example/" None 30))) as Hb by (vm_compute; reflexivity).
  split; [exact Hb|]. exact (proj2 (built_backends_honest _ _ (SCube "https://cube.example/") _ Hb)).
Defined.

End ConfigDemo.
