(* ===== verification/Conformance.v ===== *)
(** The protocol conformance suite, [conformance/src/lib.rs]: the fixture and one
    driver per case kind, over the model of the facade.

    A driver runs in [Drv]: the kernel of its fixture, the shared cell of the
    mock connector's world, and the diagnostic that ends it.  The Debug texts of
    diagnostics are the class [SuiteDebug]; temporary directories, the local
    backend and the one opened for a sandbox replay are parameters.  [ConformanceRun]
    runs the cases of [conformance/cases]. *)

From stdpp Require Import pretty.
From S2P Require Import Prelude Json Budget Glob Capability Types Canonical IdentityDb Registry.
From S2P Require Import LeaseStore Delegation Policy Router Scheduler Effect Ledger Broker Snapshot.
From S2P Require Import Dag Path Workspace B64 Utf8 Observation KernelText Kernel KernelStep KernelBranch.
From S2P Require Import KernelEffects Service Config Testbed.

Open Scope Z_scope.

Record Case := mkCase {
  case_name : string;
  case_description : string;
  case_kind : string;
  case_params : Value;
}.

Class SuiteDebug := {
  debug_observation : Observation -> string;
  debug_code : DenialCode -> string;
  debug_outcome : forall A, KernelResult A -> string;
  debug_phase : EffectPhase -> string;
  debug_check : result LeaseCheckFailure () -> string;
  debug_attenuation : result AttenuationError CapabilityLease -> string;
  debug_files : list FileChange -> string;
  debug_class : ReplayClass -> string;
  debug_kind : EventKind -> string;
  debug_head : option string -> string;
}.

Definition p_str (params : Value) (key dflt : string) : string := default dflt (value_get key params ≫= as_str).


Definition p_u64 (params : Value) (key : string) (dflt : Z) : Z := default dflt (value_get key params ≫= as_u64).

(** * The mock connector *)

Definition world_value (world : string) : Value := Object [("world", Str world)].

(** [DriftableConnector], when its world is [world]. *)
Definition driftable (class : EffectClass) (world : string) : KConnector :=
  let operations := [("mock.poke", class)] in
  mkKConnector
    (mkConnector (fun _ args => Ok args)
       (fun _ => Ok (mkPrepared (Object [("action", Str "poke"); ("world", Str world)]) (world_value world)))
       (fun _ => Ok (mkCommitResult (Object [("poked", VBool true)])))
       (fun _ => Ok ProbeUnknown)
       (fun _ => Ok (mkCommitResult (Object [("unpoked", VBool true)]))))
    (fun operation _ => classify_operation operations operation) operations.

Definition allow_rule (id : string) (ops : list string) (uses ttl : Z) : PolicyRule :=
  mkRule id (mkSelector [] [] None None) ops Allow [] uses ttl None 0 None.

Definition policy_default : PolicyDocument := mkDoc 0 [] (mkPaths [] []) [] (mkTools [] []) (mkEscalation false []).

Definition with_rules_of (rs : list PolicyRule) : PolicyDocument :=
  mkDoc (policy_epoch policy_default) rs (paths policy_default) (egress_domains policy_default) (tools policy_default)
    (escalation policy_default).

Section suite.
Context {B : Type} `{!Backend B, !RouterDebug, !World B}.
Context `{!Serde, !Sha256, !TimeJson, !JsonText, !DeltaSerde, !TimeText, !Chrono, !ManifestSerde}.
Context `{!ReceiptSigner, !ErrorDisplay, !KernelDisplay, !PathsDebug, !StepSerde, !ReplaySerde, !SuiteDebug}.
Context (tempdir : result string ()) (local : B) (scratch : KernelResult B).

(** * Drivers *)

Record Bed := mkBed { bed_kernel : Kernel B; bed_world : string }.

Definition Drv (A : Type) : Type := Bed -> result string A * Bed.

#[export] Instance Drv_ret : MRet Drv := fun A a s => (Ok a, s).
#[export] Instance Drv_bind : MBind Drv := fun A A' f m s =>
  match m s with (Ok a, s') => f a s' | (Err e, s') => (Err e, s') end.

Definition stop {A} (why : string) : Drv A := fun s => (Err why, s).
Definition require (b : bool) (why : string) : Drv () := if b then mret tt else stop why.

(** A kernel call whose error the driver inspects; a panic ends the driver. *)
Definition call {A} (m : K B A) : Drv (KernelResult A) := fun s =>
  let '(r, k) := m (bed_kernel s) in
  let s' := mkBed k (bed_world s) in
  match r with
  | Ok a => (Ok (Ok a), s')
  | Err (Raised e) => (Ok (Err e), s')
  | Err Panicked => (Err "panicked", s')
  end.

(** [.map_err(|e| e.to_string())?]. *)
Definition run {A} (m : K B A) : Drv A :=
  r ← call m; match r with Ok a => mret a | Err e => stop (error_display e) end.

Definition world_now : Drv string := fun s => (Ok (bed_world s), s).

Definition with_mock (k : Kernel B) (class : EffectClass) (world : string) : Kernel B :=
  mkKernel (k_dag k) (k_ledger k) (k_db k) (k_policy k) (k_broker k) (k_sched k) (k_dirs k)
    (<["mock" := driftable class world]> (k_connectors k)) (connector_names k) (op_classes k)
    (k_episodes k) (k_log k) (k_tick k).

(** Writing the cell that the registered connector shares. *)
Definition drift (class : EffectClass) (world : string) : Drv () := fun s =>
  (Ok tt, mkBed (with_mock (bed_kernel s) class world) world).

Record Fixture := mkFixture { fx_agent : Principal; fx_episode : string; fx_branch : string }.

(** The kernel's part of [Fixture::build]. *)
Definition furnish (shell_uses : Z) (mock_class : EffectClass) : Drv Fixture :=
  run (with_policy_mut (fun _ => (tt, with_rules_of
    [allow_rule "shell" ["proc.shell"] shell_uses 3600; allow_rule "fs" ["fs.*"] 100 3600;
     allow_rule "mock" ["mock.*"] 10 3600])));;
  run (register_connector "mock" (driftable mock_class "state-1"));;
  fresh ← run (generate "pr");
  let agent := new_agent fresh "conformance-agent" in
  run (register_principal agent);;
  ep ← run (create_episode None (principal_id agent) None "conformance");
  mret (mkFixture agent (h_episode ep) (h_branch ep)).

(** [Fixture::build], and the rest of a driver on the fixture. *)
Definition on_fixture (shell_uses : Z) (episode_budget : option ResourceBudget) (mock_class : EffectClass)
    (driver : Fixture -> Drv ()) : result string () :=
  _ ← tempdir;
  k ← map_err error_display
        (kernel_open (dag_init ∅) ledger_empty db_empty policy_default store_empty local
           (default Config.default_episode_budget episode_budget) ∅ 0);
  ((f ← furnish shell_uses mock_class; driver f) (mkBed k "state-1")).1.

Definition kernel_now : Drv (Kernel B) := fun s => (Ok (bed_kernel s), s).

(** [.map_err(|e| e.to_string())?] on a result read off the kernel. *)
Definition read {A} (f : Kernel B -> KernelResult A) : Drv A :=
  k ← kernel_now; match f k with Ok a => mret a | Err e => stop (error_display e) end.

Definition dag_head (branch : string) : Drv StateNode := read (fun k => branch_head (k_dag k) branch).

Definition lease (f : Fixture) (operation branch : string) : Drv string :=
  l ← run (request_capability (principal_id (fx_agent f)) operation (Object []) (Some branch));
  mret (lease_id l).

Definition shell_with (f : Fixture) (branch lease command : string) (budget : ResourceBudget) : Drv StepResult :=
  run (execute_step (principal_id (fx_agent f)) branch (mkAction (Shell command None ∅) lease None budget)).

Definition shell (f : Fixture) (branch command : string) : Drv StepResult :=
  l ← lease f "proc.shell" branch;
  shell_with f branch l command step_default.

Definition propose_mock (f : Fixture) : Drv string :=
  l ← lease f "mock.poke" (fx_branch f);
  world ← world_now;
  r ← run (execute_step (principal_id (fx_agent f)) (fx_branch f)
             (mkAction (ConnectorOp "mock" "poke" (Object [("preconditions", world_value world)])) l None step_default));
  match sr_observation r with
  | EffectPending effect _ _ => mret effect
  | other => stop ("expected pending effect, got " +:+ debug_observation other)
  end.

Definition expect_denial (obs : Observation) (code : DenialCode) : Drv () :=
  match obs with
  | ODenied denial =>
      if bool_decide (denial_code denial = code) then mret tt
      else stop ("expected denial code " +:+ debug_code code +:+ ", got " +:+ debug_code (denial_code denial))
  | other => stop ("expected a denial, got " +:+ debug_observation other)
  end.

Definition is_success (o : Observation) : bool := match o with Success _ _ _ _ _ _ _ => true | _ => false end.

(** * The cases *)

Definition episode_lifecycle (params : Value) : result string () :=
  on_fixture 100 None Compensatable (fun f =>
    let file := p_str params "file" "hello.txt" in
    r ← shell f (fx_branch f) ("printf hi > " +:+ file);
    require (is_success (sr_observation r)) ("step failed: " +:+ debug_observation (sr_observation r));;
    desc ← run (describe_episode (fx_episode f));
    require (length (desc_branches desc) =? 1)%nat ("expected 1 branch, got " +:+ pretty (length (desc_branches desc)));;
    h ← dag_head (fx_branch f);
    require (bool_decide (node_id h = sr_state r)) "branch head must advance to the step's state";;
    require (existsb (fun c => bool_decide (change_path c = file)) (files (node_delta h)))
      ("delta must record `" +:+ file +:+ "`: " +:+ debug_files (files (node_delta h)))).

Definition step_observation_shape (params : Value) : result string () :=
  on_fixture 100 None Compensatable (fun f =>
    let text := p_str params "text" "observable-output" in
    r ← shell f (fx_branch f) ("printf " +:+ text);
    match sr_observation r with
    | Success summary _ stdout_head _ exit_code full_output truncated =>
        require (negb (str_is_empty summary)) "summary must be non-empty";;
        require ((exit_code =? 0) && negb truncated) "small output must not truncate";;
        require (bool_decide (stdout_head = Some text)) ("stdout_head must carry the head bytes, got " +:+ debug_head stdout_head);;
        require (starts_with "sha256:" full_output) "full_output must be a sha256 content hash";;
        raw ← read (fun k => fetch_raw (k_ledger k) full_output);
        require (bool_decide (raw = text)) "full output blob must be addressable in the ledger raw store"
    | other => stop ("expected success, got " +:+ debug_observation other)
    end).

Definition denial_machine_readable (params : Value) : result string () :=
  on_fixture 100 None Compensatable (fun f =>
    fresh ← run (generate "lease");
    r ← shell_with f (fx_branch f) fresh "id" step_default;
    match sr_observation r with
    | ODenied denial =>
        let v := denial_value denial in
        match List.find (fun key => bool_decide (value_get key v = None)) ["code"; "attempted_operation"; "reason"; "escalation_allowed"] with
        | Some key => stop ("denial must carry `" +:+ key +:+ "`: " +:+ json_text v)
        | None => mret tt
        end;;
        require (negb (str_is_empty (denial_reason denial))) "denial reason must be non-empty";;
        x ← call (request_capability (principal_id (fx_agent f)) "net.raw_socket" (Object []) (Some (fx_branch f)));
        match x with
        | Err (Denied d) =>
            require (bool_decide (denial_code d = CapabilityDenied))
              ("default deny must be CAPABILITY_DENIED, got " +:+ debug_code (denial_code d))
        | other => stop ("expected structured denial, got " +:+ debug_outcome _ other)
        end
    | other => stop ("expected denial, got " +:+ debug_observation other)
    end).

(** [Utc::now() + Duration::seconds(n)]: [None] is the panic of either. *)
Definition later (n : Z) : Drv DateTime :=
  t ← run now;
  match datetime_plus_seconds t n with Some t' => mret t' | None => stop "panicked" end.

Definition lease_expiry (params : Value) : result string () :=
  on_fixture 100 None Compensatable (fun f =>
    id ← lease f "proc.shell" (fx_branch f);
    k ← kernel_now;
    match get_lease (k_db k) id with
    | Err e => stop (identity_display e)
    | Ok l =>
        future ← later (wrap_i64 (p_u64 params "skew_seconds" 7200));
        match check l (principal_id (fx_agent f)) "proc.shell" (Object []) (Some (fx_branch f)) future with
        | Err (Expired _) => mret tt
        | other => stop ("expected Expired at now+PT" +:+ pretty (wrap_i64 (p_u64 params "skew_seconds" 7200)) +:+ "S, got " +:+ debug_check other)
        end
    end).

Fixpoint use_lease (f : Fixture) (l : string) (n : nat) : Drv () :=
  match n with
  | O => mret tt
  | S n =>
      r ← shell_with f (fx_branch f) l "true" step_default;
      require (is_success (sr_observation r)) ("in-budget use must succeed: " +:+ debug_observation (sr_observation r));;
      use_lease f l n
  end.

Definition lease_exhaustion (params : Value) : result string () :=
  let uses := p_u64 params "uses" 1 mod 2 ^ 32 in
  on_fixture uses None Compensatable (fun f =>
    l ← lease f "proc.shell" (fx_branch f);
    use_lease f l (Z.to_nat uses);;
    r ← shell_with f (fx_branch f) l "true" step_default;
    expect_denial (sr_observation r) CapabilityExhausted).

Definition lease_branch_binding (params : Value) : result string () :=
  on_fixture 100 None Compensatable (fun f =>
    other ← run (fork_branch (fx_branch f));
    l ← lease f "proc.shell" (b_id other);
    r ← shell_with f (fx_branch f) l "true" step_default;
    expect_denial (sr_observation r) BranchMismatch).

Definition constrained (l : CapabilityLease) (cs : list (string * Constraint)) : CapabilityLease :=
  mkLease (lease_id l) (lease_principal l) (lease_operation l) cs (remaining_uses l) (issued_at l) (expires_at l)
    (bound_branch l) (lease_budget l) (parent_lease l) (lease_preconditions l) (revoked l).

Definition attenuation_no_widening (params : Value) : result string () :=
  on_fixture 100 None Compensatable (fun f =>
    fresh ← run (generate "pr");
    let child := spawn_child (fx_agent f) fresh SubAgent "worker" in
    run (register_principal child);;
    parent ← lease f "proc.shell" (fx_branch f);
    k ← kernel_now;
    match get_lease (k_db k) parent with
    | Err e => stop (identity_display e)
    | Ok parent_l =>
        let extra_uses := p_u64 params "extra_uses" 1000 mod 2 ^ 32 in
        widened ← call (delegate_lease (principal_id (fx_agent f)) parent (principal_id child) []
                          ((remaining_uses parent_l + extra_uses) mod 2 ^ 32) (expires_at parent_l) budget_zero);
        match widened with
        | Ok l => stop ("widened delegation must be rejected, got lease " +:+ lease_id l)
        | Err _ => mret tt
        end;;
        let narrow := constrained parent_l [("command", Prefix "cargo ")] in
        fresh' ← run (generate "lease");
        t ← run now;
        match attenuate narrow fresh' (principal_id child) [("command", Prefix EmptyString)] 1 (expires_at narrow) budget_zero t with
        | Err (ConstraintWidened _) => mret tt
        | other => stop ("expected ConstraintWidened, got " +:+ debug_attenuation other)
        end;;
        ok ← run (delegate_lease (principal_id (fx_agent f)) parent (principal_id child) [] 1 (expires_at parent_l) budget_zero);
        require (bool_decide (parent_lease ok = Some parent)) "attenuated lease must record its parent"
    end).

Definition effect_phase_machine (params : Value) : result string () :=
  on_fixture 100 None Compensatable (fun f =>
    effect ← propose_mock f;
    x ← call (approve_effect effect (principal_id (fx_agent f)));
    require (negb (is_ok x)) "approve before prepare must be refused";;
    run (prepare_effect effect);;
    x ← call (prepare_effect effect);
    require (negb (is_ok x)) "double prepare must be refused";;
    run (approve_effect effect (principal_id (fx_agent f)));;
    receipt ← run (commit_effect effect);
    e ← run (KernelEffects.effect effect);
    match phase e with
    | Committed r => require (bool_decide (r = receipt_id receipt)) ("expected Committed phase, got " +:+ debug_phase (phase e))
    | other => stop ("expected Committed phase, got " +:+ debug_phase other)
    end;;
    x ← call (commit_effect effect);
    match x with
    | Ok again =>
        require (bool_decide (receipt_id again = receipt_id receipt))
          ("second commit must return the original receipt " +:+ receipt_id receipt +:+ ", got " +:+ receipt_id again)
    | Err e => stop ("second commit must be idempotent, got error: " +:+ error_display e)
    end).

Definition irreversible_requires_approval (params : Value) : result string () :=
  on_fixture 100 None Irreversible (fun f =>
    effect ← propose_mock f;
    run (prepare_effect effect);;
    x ← call (commit_effect effect);
    match x with
    | Err (WrongEffectPhase _ _ expected) =>
        require (bool_decide (expected = "approved")) ("expected WrongEffectPhase(approved), got " +:+ debug_outcome _ x)
    | other => stop ("expected WrongEffectPhase(approved), got " +:+ debug_outcome _ other)
    end;;
    run (approve_effect effect (principal_id (fx_agent f)));;
    run (commit_effect effect);;
    mret tt).

(** [broker.propose(...)]. *)
Definition propose_direct (c : EffectContract) (who branch step lease : string) : K B PendingEffect :=
  fresh ← generate "fx"; t ← now;
  k ← get;
  on_broker (fun st => propose (broker_conns k) st fresh t c who branch step lease).

Definition duplicate_idempotency (params : Value) : result string () :=
  on_fixture 100 None Compensatable (fun f =>
    let key := p_str params "idempotency_key" "conformance-dup-1" in
    let contract world := mkContract "mock.poke" "mock" (Object []) (world_value world) key Compensatable in
    world ← world_now;
    step ← run (generate "sp");
    l ← lease f "mock.poke" (fx_branch f);
    e1 ← run (propose_direct (contract world) (principal_id (fx_agent f)) (fx_branch f) step l);
    run (prepare_effect (effect_id e1));;
    run (approve_effect (effect_id e1) (principal_id (fx_agent f)));;
    run (commit_effect (effect_id e1));;
    x ← call (propose_direct (contract world) (principal_id (fx_agent f)) (fx_branch f) step l);
    match x with
    | Err (DuplicateCommit k receipt) =>
        require (bool_decide (k = key) && negb (str_is_empty receipt)) "duplicate must name the key and the original receipt"
    | other => stop ("expected DuplicateCommit, got " +:+ debug_outcome _ other)
    end).

Definition stale_precondition_abort (params : Value) : result string () :=
  on_fixture 100 None Compensatable (fun f =>
    effect ← propose_mock f;
    run (prepare_effect effect);;
    run (approve_effect effect (principal_id (fx_agent f)));;
    drift Compensatable (p_str params "drifted_value" "state-2");;
    x ← call (commit_effect effect);
    match x with
    | Err (StaleAuthorization reason) => require (negb (str_is_empty reason)) "stale abort must carry a reason"
    | other => stop ("expected StaleAuthorization, got " +:+ debug_outcome _ other)
    end;;
    e ← run (KernelEffects.effect effect);
    match phase e with
    | Aborted _ => mret tt
    | other => stop ("stale effect must be Aborted, got " +:+ debug_phase other)
    end).

Definition merge_conflict_reporting (params : Value) : result string () :=
  on_fixture 100 None Compensatable (fun f =>
    let file := p_str params "file" "conflict.txt" in
    shell f (fx_branch f) ("printf base > " +:+ file);;
    a ← run (fork_branch (fx_branch f));
    b ← run (fork_branch (fx_branch f));
    shell f (b_id a) ("printf edit-a > " +:+ file);;
    shell f (b_id b) ("printf edit-b > " +:+ file);;
    run (merge_branch (fx_branch f) (b_id a) (principal_id (fx_agent f)));;
    x ← call (merge_branch (fx_branch f) (b_id b) (principal_id (fx_agent f)));
    match x with
    | Err (MergeConflict paths) =>
        require (bool_decide (paths = [file])) ("conflict must name `" +:+ file +:+ "`, got " +:+ debug_paths paths)
    | other => stop ("expected MergeConflict, got " +:+ debug_outcome _ other)
    end).

Definition replay_class_honesty (params : Value) : result string () :=
  on_fixture 100 None Compensatable (fun f =>
    r ← shell f (fx_branch f) "printf replayable > r.txt";
    h ← dag_head (fx_branch f);
    require (bool_decide (node_replay_class h = FilesystemOnly))
      ("local steps must record FilesystemOnly, got " +:+ debug_class (node_replay_class h));;
    require (supports (node_replay_class h) ModeAudit) "every class must support audit replay";;
    require (negb (supports AuditOnly ModeSandbox)) "AuditOnly must not claim sandbox replay";;
    report ← run (replay_sandbox scratch (sr_step r));
    require (workspace_match report) "deterministic step must replay byte-identically").

Definition budget_refusal (params : Value) : result string () :=
  let tiny := mkBudget (p_u64 params "episode_cpu_ms" 500) (memory_bytes step_default) (network_bytes step_default)
                (tokens step_default) (cost_micro_usd step_default) (risk_units step_default) in
  on_fixture 100 (Some tiny) Compensatable (fun f =>
    l ← lease f "proc.shell" (fx_branch f);
    let big := mkBudget 10000 0 0 0 0 0 in
    r ← shell_with f (fx_branch f) l "true" big;
    expect_denial (sr_observation r) BudgetExhausted;;
    h ← dag_head (fx_branch f);
    require (bool_decide (produced_by h = None)) "refused step must not append state").

Definition find_event (events : list LedgerEvent) (kind : EventKind) : Drv LedgerEvent :=
  match List.find (fun e => bool_decide (ev_kind (body e) = kind)) events with
  | Some e => mret e
  | None => stop ("missing " +:+ debug_kind kind)
  end.

Definition trace_causality (params : Value) : result string () :=
  on_fixture 100 None Compensatable (fun f =>
    r ← shell f (fx_branch f) "printf traced > t.txt";
    events ← read (fun k => query (k_ledger k) (mkQuery None None (Some (sr_step r)) None None [] None None));
    tool ← find_event events KToolInvocation;
    delta ← find_event events KStateDeltaRecorded;
    obs ← find_event events KObservationEmitted;
    require (bool_decide (seq_of tool ∈ ev_caused_by (body delta))) "StateDeltaRecorded must cite ToolInvocation as its cause";;
    require (bool_decide (seq_of delta ∈ ev_caused_by (body obs))) "ObservationEmitted must cite StateDeltaRecorded as its cause";;
    read (fun k => verify_chain (k_ledger k));;
    mret tt).

(** The table of [run_case]. *)
Definition drivers : list (string * (Value -> result string ())) :=
  [("episode_lifecycle", episode_lifecycle); ("step_observation_shape", step_observation_shape);
   ("denial_machine_readable", denial_machine_readable); ("lease_expiry", lease_expiry);
   ("lease_exhaustion", lease_exhaustion); ("lease_branch_binding", lease_branch_binding);
   ("attenuation_no_widening", attenuation_no_widening); ("effect_phase_machine", effect_phase_machine);
   ("irreversible_requires_approval", irreversible_requires_approval); ("duplicate_idempotency", duplicate_idempotency);
   ("stale_precondition_abort", stale_precondition_abort); ("merge_conflict_reporting", merge_conflict_reporting);
   ("replay_class_honesty", replay_class_honesty); ("budget_refusal", budget_refusal); ("trace_causality", trace_causality)].

Definition run_case (c : Case) : result string () :=
  match List.find (fun d => String.eqb d.1 (case_kind c)) drivers with
  | Some d => d.2 (case_params c)
  | None => Err ("unknown case kind `" +:+ case_kind c +:+ "`")
  end.
End suite.

(** The suite runs on the model: every case of [conformance/cases] passes, and the
    cases that end in a refusal pass whatever the backend does. *)
Module ConformanceRun.
#[local] Existing Instance Testbed.serde.
#[local] Existing Instance Testbed.json.
#[local] Existing Instance Testbed.delta.
#[local] Existing Instance Testbed.time_json.
#[local] Existing Instance Testbed.sha.
#[local] Existing Instance Testbed.manifests.
#[local] Existing Instance Testbed.steps.
#[local] Existing Instance Testbed.replays.
#[local] Existing Instance Testbed.router_debug.
#[local] Existing Instance Testbed.errors.
#[local] Existing Instance Testbed.display.
#[local] Existing Instance Testbed.debug.
#[local] Existing Instance Testbed.text.
#[local] Existing Instance Testbed.chrono.
#[local] Existing Instance Testbed.backend.

#[local] Instance signer : ReceiptSigner := {| sign m := ("sig", "key") |}.

#[local] Instance suite_debug : SuiteDebug :=
  {| debug_observation _ := "observation"; debug_code := Testbed.code_name;
     debug_outcome _ r := match r with Ok _ => "Ok" | Err e => error_code e end;
     debug_phase := phase_name; debug_check _ := "check"; debug_attenuation _ := "attenuation";
     debug_files l := str_join "," (map change_path l); debug_class := replay_class_debug;
     debug_kind := kind_str; debug_head o := default "None" o |}.

Definition case_on (run : nat -> BackendProfile -> ExecutionRequest -> Fs -> KernelResult ExecutionOutcome * Fs) (c : Case) : result string () :=
  run_case (World0 := Testbed.ticking run) (Ok tt) RouterDemo.local (Ok RouterDemo.local) c.

Definition host (n : nat) (b : BackendProfile) := Testbed.host_run n.

Definition str_param (key value : string) : Value := Object [(key, Str value)].
Definition num_param (key : string) (value : Z) : Value := Object [(key, Number (PosInt value))].

(** The files of [conformance/cases], without their descriptions. *)
Definition cases : list Case :=
  [mkCase "episode lifecycle" EmptyString "episode_lifecycle" (str_param "file" "hello.txt");
   mkCase "step observation shape" EmptyString "step_observation_shape" (str_param "text" "observable-output");
   mkCase "denial machine-readability" EmptyString "denial_machine_readable" Null;
   mkCase "lease expiry" EmptyString "lease_expiry" (num_param "skew_seconds" 7200);
   mkCase "lease exhaustion" EmptyString "lease_exhaustion" (num_param "uses" 2);
   mkCase "lease branch binding" EmptyString "lease_branch_binding" Null;
   mkCase "attenuation cannot widen" EmptyString "attenuation_no_widening" (num_param "extra_uses" 1000);
   mkCase "effect phase machine" EmptyString "effect_phase_machine" Null;
   mkCase "irreversible effects require approval" EmptyString "irreversible_requires_approval" Null;
   mkCase "duplicate idempotency key" EmptyString "duplicate_idempotency" (str_param "idempotency_key" "conformance-dup-1");
   mkCase "stale precondition abort" EmptyString "stale_precondition_abort" (str_param "drifted_value" "state-2");
   mkCase "merge conflict reporting" EmptyString "merge_conflict_reporting" (str_param "file" "conflict.txt");
   mkCase "replay class honesty" EmptyString "replay_class_honesty" Null;
   mkCase "budget refusal" EmptyString "budget_refusal" (num_param "episode_cpu_ms" 500);
   mkCase "trace causality" EmptyString "trace_causality" Null].

Definition refusal_kinds : list string :=
  ["denial_machine_readable"; "lease_expiry"; "lease_branch_binding"; "attenuation_no_widening"; "effect_phase_machine";
   "irreversible_requires_approval"; "duplicate_idempotency"; "stale_precondition_abort"; "budget_refusal"].

Definition passes (run : nat -> BackendProfile -> ExecutionRequest -> Fs -> KernelResult ExecutionOutcome * Fs) (c : Case) : bool :=
  is_ok (case_on run c).

(** The kernel passes its own conformance suite.  On a host whose shell knows the commands
    of the suite, all fifteen cases pass; and the nine that exercise leases, delegation,
    budgets and the effect protocol pass whatever a backend would answer or write. *)
Theorem conformance_passes :
  forallb (passes host) cases = true
  /\ forall run, forallb (passes run) (List.filter (fun c => bool_decide (case_kind c ∈ refusal_kinds)) cases) = true.
Proof. split; [vm_compute; reflexivity|]. intros run. vm_compute. reflexivity. Qed.
End ConformanceRun.
