(* ===== verification/Http.v ===== *)
(** The HTTP binding of the protocol, [kernel/api/src/http.rs]: one handler
    per route, between the authentication middleware and the facade.

    A [Request] is a route with its path segments, query and body, as the
    framework's extractors deliver them; a [Body] is what a handler returns,
    before it is serialized.  A handler runs in the monad [Handler] over the kernel
    and stops at the first error, of the kernel or of authorization.  The
    handler of [explore] is split from the call it makes, which is a relation
    ([KernelExplore.explore]); [serve] puts the middleware, the handlers and
    the error responses together. *)

From stdpp Require Import pretty.
From S2P Require Import Prelude Json Budget Glob Capability Types Canonical IdentityDb Registry.
From S2P Require Import LeaseStore Delegation Policy Router Scheduler Effect Ledger Broker Snapshot.
From S2P Require Import Dag Path Workspace B64 Utf8 Observation Auth RawView KernelText Kernel KernelStep.
From S2P Require Import KernelBranch KernelEffects KernelLogic KernelSafety KernelRefine KernelExplore.

Open Scope Z_scope.

(** * Requests and responses *)

Record ReplayRequestBody := mkReplayBody {
  seq_from : option Z;                (* i64 *)
  seq_to : option Z;
  rb_step : option string;
  rb_effect : option string;
  rb_approver : option string;
}.

Record TraceParams := mkTraceParams {
  tp_episode : option string;
  tp_branch : option string;
  tp_step : option string;
  tp_principal : option string;
  tp_kind : option string;
  tp_limit : option nat;
}.

Inductive Request :=
| RHealthz
| RRegisterPrincipal (p : Principal)
| RCreateEpisode (principal objective : string) (workspace : option string)
| RDescribeEpisode (id : string)
| RExecuteStep (principal branch : string) (action : Action)
| RExecuteStepAuto (principal branch : string) (kind : ActionKind) (hint : option string) (budget : option ResourceBudget)
| RExplainStep (id : string)
| RRetryStep (id : string)
| RForkBranch (id : string)
| RDiffBranch (id : string) (since : option string)
| RMergeBranch (id source actor : string)
| RDiscardBranch (id : string)
| RExploreBranch (id principal : string) (options : ExploreOptions)
| RCompareBranches (a b : string)
| RFetchRaw (hash : string) (offset limit : option Z) (grep : option string)
| RRequestCapability (principal operation : string) (params : Value) (branch : option string)
| RCompileEnvelope (principal : string) (branch : option string) (requests : list EnvelopeRequest)
| RDelegateCapability (delegator parent delegatee : string) (constraints : list (string * Constraint)) (uses : Z)
    (expires : DateTime) (budget : ResourceBudget)
| RRevokeCapability (lease : string)
| RListCapabilities (principal : string)
| RListEffects (phase : option string)
| RRecoverEffects
| RGetEffect (id : string)
| RPrepareEffect (id : string)
| RApproveEffect (id approver : string)
| RCommitEffect (id : string)
| RCompensateEffect (id : string)
| RResolveEffect (id : string) (outcome : OperatorResolution)
| RReplay (mode : string) (body : ReplayRequestBody)
| RTraceQuery (params : TraceParams)
| RGetReceipt (id : string).

(** What a handler returns; a denied step also carries the error envelope. *)
Inductive Body :=
| BHealth
| BPrincipal (p : Principal)
| BEpisode (episode branch root_state : string)
| BDescription (d : EpisodeDescription)
| BStep (r : StepResult) (denied : option ErrorEnvelope)
| BAutoStep (r : AutoStepResult) (denied : option ErrorEnvelope)
| BExplanation (x : StepExplanation)
| BBranch (b : Branch)
| BChanges (l : list FileChange)
| BNode (n : StateNode)
| BDiscarded (id : string)
| BExplored (r : ExploreReport)
| BComparison (c : BranchComparison)
| BPage (hash : string) (p : RawPage)
| BMatches (hash : string) (total : Z) (pattern : string) (matches : list (Z * string)) (truncated : bool)
| BLease (l : CapabilityLease)
| BEnvelope (r : EnvelopeReport)
| BRevoked (ids : list string)
| BLeases (l : list CapabilityLease)
| BEffects (l : list PendingEffect)
| BResolutions (l : list (string * InDoubtResolution))
| BEffect (e : PendingEffect)
| BPrepared (p : PreparedEffect)
| BApproved (id : string)
| BReceipt (r : Receipt)
| BResolved (id : string) (r : option Receipt)
| BEvents (l : list LedgerEvent)
| BReplayed (r : ReplaySandboxReport)
| BError (e : ErrorEnvelope).

Record Response := mkResponse { resp_status : Z; resp_body : Body }.

(** * Errors *)

Inductive ApiError := AKernel (e : KernelError) | AAuth (e : AuthError).

(** Why a handler stops early; a panic drops the connection. *)
Inductive Stop := Refused (e : ApiError) | Crashed.

Definition status_of (e : KernelError) : Z :=
  match e with
  | Denied _ => 403
  | NotFound _ _ => 404
  | InvalidId _ _ | ESerde _ => 400
  | StaleAuthorization _ | DuplicateCommit _ _ | CommitInDoubt _ _ | WrongEffectPhase _ _ _
  | BranchDiscarded _ | MergeConflict _ => 409
  | BackendUnavailable _ _ => 503
  | _ => 500
  end.

(** [RoleDebug] is the derived [Debug] of a role. *)
Class RoleDebug := { role_debug : Role -> string }.

Section http.
Context {B : Type} `{!Backend B, !RouterDebug, !World B}.
Context `{!Serde, !Sha256, !TimeJson, !JsonText, !DeltaSerde, !TimeText, !Chrono, !ManifestSerde}.
Context `{!ReceiptSigner, !ErrorDisplay, !KernelDisplay, !PathsDebug, !StepSerde, !ReplaySerde, !RoleDebug}.

Implicit Types (k : Kernel B).

Definition into_response (e : ApiError) : Response :=
  match e with
  | AAuth a =>
      let '(status, code, message) := auth_error_response role_debug a in
      mkResponse status (BError (mkEnvelope code message None))
  | AKernel e => mkResponse (status_of e) (BError (error_envelope error_display e))
  end.

(** ** The monad of the handlers *)

Definition Handler (A : Type) : Type := Kernel B -> result Stop A * Kernel B.

#[export] Instance handler_ret : MRet Handler := fun A a k => (Ok a, k).
#[export] Instance handler_bind : MBind Handler := fun A A' f m k =>
  match m k with
  | (Ok a, k') => f a k'
  | (Err e, k') => (Err e, k')
  end.

Definition refuse {A} (e : ApiError) : Handler A := fun k => (Err (Refused e), k).

(** [?] on a facade call, on an authorization check and on a parsed value. *)
Definition call {A} (m : K B A) : Handler A := fun k =>
  match m k with
  | (Ok a, k') => (Ok a, k')
  | (Err (Raised e), k') => (Err (Refused (AKernel e)), k')
  | (Err Panicked, k') => (Err Crashed, k')
  end.

Definition allow {A} (r : result AuthError A) : Handler A :=
  match r with Ok a => mret a | Err e => refuse (AAuth e) end.

Definition parsed {A} (r : KernelResult A) : Handler A :=
  match r with Ok a => mret a | Err e => refuse (AKernel e) end.

Definition parse_id (prefix s : string) : Handler string := parsed (id_parse prefix s).

(** [auth.require_owner(&k.branch_owner(...)?)?] and its variants. *)
Definition own_branch (auth : AuthContext) (branch : string) : Handler () :=
  owner ← call (branch_owner branch); allow (require_owner auth owner).

Definition own_effect (auth : AuthContext) (id : string) : Handler () :=
  e ← call (effect id); own_branch auth (effect_branch e).

Definition own_step (auth : AuthContext) (id : string) : Handler () :=
  x ← call (step_explain id); allow (require_owner auth (ex_principal x)).

Definition ok (b : Body) : Response := mkResponse 200 b.
Definition created (b : Body) : Response := mkResponse 201 b.

(** The envelope of a denied observation. *)
Definition denial_envelope (o : Observation) : option ErrorEnvelope :=
  match o with
  | ODenied denial => Some (mkEnvelope "DENIED" (denial_reason denial) (Some denial))
  | _ => None
  end.

Definition step_response (r : StepResult) : Response :=
  match denial_envelope (sr_observation r) with
  | Some env => mkResponse 403 (BStep r (Some env))
  | None => ok (BStep r None)
  end.

Definition auto_response (r : AutoStepResult) : Response :=
  match denial_envelope (sr_observation (auto_result r)) with
  | Some env => mkResponse 403 (BAutoStep r (Some env))
  | None => ok (BAutoStep r None)
  end.

(** ** Handlers *)

Section handlers.
(** [tree_at] reads a directory of the host; [workspace_root] is the
    configured workspace; [scratch] opens a backend over a temporary
    directory. *)
Context (tree_at : string -> Fs) (workspace_root : option Fs) (scratch : KernelResult B).
Context (auth : AuthContext).

Definition h_register_principal (p : Principal) : Handler Response :=
  allow (require_role auth Admin);; call (register_principal p);; mret (created (BPrincipal p)).

Definition h_create_episode (body_principal objective : string) (workspace : option string) : Handler Response :=
  principal ← allow (act_as auth body_principal);
  handle ← call (KernelBranch.create_episode workspace_root principal (tree_at <$> workspace) objective);
  mret (created (BEpisode (h_episode handle) (h_branch handle) (node_id (h_root handle)))).

Definition h_describe_episode (id : string) : Handler Response :=
  id ← parse_id "ep" id;
  owner ← call (episode_owner id); allow (require_owner auth owner);;
  desc ← call (describe_episode id); mret (ok (BDescription desc)).

Definition h_execute_step (body_principal branch : string) (action : Action) : Handler Response :=
  principal ← allow (act_as auth body_principal);
  own_branch auth branch;;
  r ← call (KernelStep.execute_step principal branch action); mret (step_response r).

Definition h_execute_step_auto (body_principal branch : string) (kind : ActionKind) (hint : option string)
    (budget : option ResourceBudget) : Handler Response :=
  principal ← allow (act_as auth body_principal);
  own_branch auth branch;;
  r ← call (execute_step_auto principal branch kind hint budget); mret (auto_response r).

Definition h_explain_step (id : string) : Handler Response :=
  id ← parse_id "step" id;
  x ← call (step_explain id);
  allow (require_owner auth (ex_principal x));;
  mret (ok (BExplanation x)).

Definition h_retry_step (id : string) : Handler Response :=
  id ← parse_id "step" id;
  own_step auth id;;
  r ← call (step_retry id); mret (step_response r).

Definition h_fork_branch (id : string) : Handler Response :=
  id ← parse_id "br" id;
  own_branch auth id;;
  b ← call (fork_branch id); mret (ok (BBranch b)).

Definition h_diff_branch (id : string) (since : option string) : Handler Response :=
  id ← parse_id "br" id;
  own_branch auth id;;
  changes ← call (branch_diff id since); mret (ok (BChanges changes)).

Definition h_merge_branch (id source body_actor : string) : Handler Response :=
  id ← parse_id "br" id;
  own_branch auth id;;
  actor ← allow (act_as auth body_actor);
  node ← call (merge_branch id source actor); mret (ok (BNode node)).

Definition h_discard_branch (id : string) : Handler Response :=
  branch ← parse_id "br" id;
  own_branch auth branch;;
  call (KernelBranch.discard_branch branch);; mret (ok (BDiscarded id)).

(** The checks of [explore_branch]: whom it explores for, and where. *)
Definition h_explore_guard (id body_principal : string) : Handler (string * string) :=
  id ← parse_id "br" id;
  own_branch auth id;;
  principal ← allow (act_as auth body_principal);
  mret (principal, id).

Definition h_compare_branches (a b : string) : Handler Response :=
  a ← parse_id "br" a; b ← parse_id "br" b;
  own_branch auth a;; own_branch auth b;;
  cmp ← call (k ← get; lift (branch_compare (k_dag k) a b)); mret (ok (BComparison cmp)).

Definition h_fetch_raw (hash : string) (offset limit : option Z) (grep : option string) : Handler Response :=
  bytes ← call (k ← get; lift (fetch_raw (k_ledger k) hash));
  mret (ok match grep with
           | Some pattern =>
               let '(matches, truncated) := raw_grep bytes pattern in
               BMatches hash (zlen bytes) pattern matches truncated
           | None => BPage hash (raw_page bytes offset limit)
           end).

Definition h_request_capability (body_principal operation : string) (params : Value) (branch : option string)
    : Handler Response :=
  principal ← allow (act_as auth body_principal);
  lease ← call (request_capability principal operation params branch); mret (created (BLease lease)).

Definition h_compile_envelope (body_principal : string) (branch : option string) (requests : list EnvelopeRequest)
    : Handler Response :=
  principal ← allow (act_as auth body_principal);
  report ← call (compile_envelope principal branch requests); mret (ok (BEnvelope report)).

Definition h_delegate_capability (body_delegator parent delegatee : string) (constraints : list (string * Constraint))
    (uses : Z) (expires : DateTime) (budget : ResourceBudget) : Handler Response :=
  delegator ← allow (act_as auth body_delegator);
  lease ← call (delegate_lease delegator parent delegatee constraints uses expires budget);
  mret (created (BLease lease)).

Definition h_revoke_capability (lease : string) : Handler Response :=
  allow (require_role auth Admin);;
  ids ← call (revoke_lease lease); mret (ok (BRevoked ids)).

Definition h_list_capabilities (principal : string) : Handler Response :=
  principal ← parse_id "pr" principal;
  allow (require_owner auth principal);;
  leases ← call (t ← now; k ← get; lift_identity (active_for_principal (k_db k) principal t));
  mret (ok (BLeases leases)).

Definition h_list_effects (phase : option string) : Handler Response :=
  allow (require_role auth Admin);;
  effects ← call (k ← get; mret (list_effects (k_broker k) phase)); mret (ok (BEffects effects)).

Definition h_recover_effects : Handler Response :=
  allow (require_role auth Admin);;
  rs ← call recover_in_doubt_effects; mret (ok (BResolutions rs)).

Definition h_get_effect (id : string) : Handler Response :=
  id ← parse_id "fx" id;
  e ← call (effect id);
  own_branch auth (effect_branch e);;
  mret (ok (BEffect e)).

Definition h_prepare_effect (id : string) : Handler Response :=
  id ← parse_id "fx" id;
  own_effect auth id;;
  p ← call (prepare_effect id); mret (ok (BPrepared p)).

(** The recorded approver is the authenticated principal. *)
Definition h_approve_effect (id body_approver : string) : Handler Response :=
  allow (require_role auth Approver);;
  fx ← parse_id "fx" id;
  call (approve_effect fx (default body_approver (ctx_principal auth)));; mret (ok (BApproved id)).

Definition h_commit_effect (id : string) : Handler Response :=
  id ← parse_id "fx" id;
  own_effect auth id;;
  r ← call (commit_effect id); mret (ok (BReceipt r)).

Definition h_compensate_effect (id : string) : Handler Response :=
  id ← parse_id "fx" id;
  own_effect auth id;;
  r ← call (compensate_effect id); mret (ok (BReceipt r)).

Definition h_resolve_effect (id : string) (outcome : OperatorResolution) : Handler Response :=
  allow (require_role auth Admin);;
  fx ← parse_id "fx" id;
  r ← call (resolve_in_doubt_effect fx outcome); mret (ok (BResolved id r)).

(** [required]: a field of the body the mode cannot do without. *)
Definition required (mode field : string) (o : option string) : Handler string :=
  parsed (ok_or o (EOther (mode +:+ " replay requires `" +:+ field +:+ "`"))).

Definition h_replay (mode : string) (body : ReplayRequestBody) : Handler Response :=
  if String.eqb mode "audit" then
    allow (require_role auth Admin);;
    evs ← call (replay_audit (default 1 (seq_from body)) (default i64_max (seq_to body))); mret (ok (BEvents evs))
  else if String.eqb mode "sandbox" then
    step ← required "sandbox" "step" (rb_step body);
    step ← parse_id "step" step;
    own_step auth step;;
    r ← call (replay_sandbox scratch step); mret (ok (BReplayed r))
  else if String.eqb mode "live" then
    allow (require_role auth Approver);;
    fx ← required "live" "effect" (rb_effect body);
    approver ← required "live" "approver" (rb_approver body);
    approver ← parse_id "pr" approver;
    approver ← allow (act_as auth approver);
    fx ← parse_id "fx" fx;
    r ← call (replay_live fx approver); mret (ok (BReceipt r))
  else refuse (AKernel (InvalidId "audit|sandbox|live" mode)).

(** [.map(parse).transpose()?]. *)
Definition parse_opt (prefix : string) (o : option string) : Handler (option string) :=
  match o with None => mret None | Some s => id ← parse_id prefix s; mret (Some id) end.

Definition h_trace_query (p : TraceParams) : Handler Response :=
  match tp_episode p with
  | Some e =>
      e ← parse_id "ep" e;
      owner ← call (episode_owner e); allow (require_owner auth owner)
  | None => allow (require_role auth Admin)
  end;;
  episode ← parse_opt "ep" (tp_episode p);
  branch ← parse_opt "br" (tp_branch p);
  step ← parse_opt "step" (tp_step p);
  principal ← parse_opt "pr" (tp_principal p);
  let kinds := match tp_kind p ≫= kind_parse with Some kind => [kind] | None => [] end in
  evs ← call (k ← get; lift (query (k_ledger k) (mkQuery episode branch step None principal kinds None (tp_limit p))));
  mret (ok (BEvents evs)).

Definition h_get_receipt (id : string) : Handler Response :=
  allow (require_role auth Admin);;
  id ← parse_id "rcpt" id;
  r ← call (k ← get; lift (receipt (k_broker k) id)); mret (ok (BReceipt r)).

(** The route table, [explore] apart. *)
Definition route (r : Request) : option (Handler Response) :=
  match r with
  | RHealthz => Some (mret (ok BHealth))
  | RRegisterPrincipal p => Some (h_register_principal p)
  | RCreateEpisode principal objective ws => Some (h_create_episode principal objective ws)
  | RDescribeEpisode id => Some (h_describe_episode id)
  | RExecuteStep principal branch action => Some (h_execute_step principal branch action)
  | RExecuteStepAuto principal branch kind hint budget => Some (h_execute_step_auto principal branch kind hint budget)
  | RExplainStep id => Some (h_explain_step id)
  | RRetryStep id => Some (h_retry_step id)
  | RForkBranch id => Some (h_fork_branch id)
  | RDiffBranch id since => Some (h_diff_branch id since)
  | RMergeBranch id source actor => Some (h_merge_branch id source actor)
  | RDiscardBranch id => Some (h_discard_branch id)
  | RExploreBranch _ _ _ => None
  | RCompareBranches a b => Some (h_compare_branches a b)
  | RFetchRaw hash offset limit grep => Some (h_fetch_raw hash offset limit grep)
  | RRequestCapability principal operation params branch =>
      Some (h_request_capability principal operation params branch)
  | RCompileEnvelope principal branch requests => Some (h_compile_envelope principal branch requests)
  | RDelegateCapability delegator parent delegatee cs uses expires budget =>
      Some (h_delegate_capability delegator parent delegatee cs uses expires budget)
  | RRevokeCapability lease => Some (h_revoke_capability lease)
  | RListCapabilities principal => Some (h_list_capabilities principal)
  | RListEffects phase => Some (h_list_effects phase)
  | RRecoverEffects => Some h_recover_effects
  | RGetEffect id => Some (h_get_effect id)
  | RPrepareEffect id => Some (h_prepare_effect id)
  | RApproveEffect id approver => Some (h_approve_effect id approver)
  | RCommitEffect id => Some (h_commit_effect id)
  | RCompensateEffect id => Some (h_compensate_effect id)
  | RResolveEffect id outcome => Some (h_resolve_effect id outcome)
  | RReplay mode body => Some (h_replay mode body)
  | RTraceQuery p => Some (h_trace_query p)
  | RGetReceipt id => Some (h_get_receipt id)
  end.
End handlers.

(** ** Serving *)

(** The response to the end of a handler; a panic leaves none. *)
Definition answer (r : result Stop Response) : option Response :=
  match r with
  | Ok resp => Some resp
  | Err (Refused e) => Some (into_response e)
  | Err Crashed => None
  end.

(** The path the middleware compares: only the probe's matters. *)
Definition path_of (r : Request) : string := match r with RHealthz => "/healthz" | _ => "/v1" end.

Section serve.
(** [fanout] is the configured [max_concurrent_branches], [join_error] the text
    of the runtime's error for a task that panicked, [other] what other
    requests may do to the kernel while an exploration runs. *)
Context (tree_at : string -> Fs) (workspace_root : option Fs) (scratch : KernelResult B) (fanout : Z) (join_error : string).
Context (other : Kernel B -> Kernel B -> Prop).

(** A request of a caller the middleware let through: how its handler ends. *)
Inductive handled (auth : AuthContext) k : Request -> result Stop Response -> Kernel B -> Prop :=
| handled_route r h :
    route tree_at workspace_root scratch auth r = Some h -> handled auth k r (h k).1 (h k).2
| handled_refused id principal options e k' :
    h_explore_guard auth id principal k = (Err e, k') ->
    handled auth k (RExploreBranch id principal options) (Err e) k'
| handled_explore id principal options who br k1 r k' :
    h_explore_guard auth id principal k = (Ok (who, br), k1) ->
    explore fanout join_error who br options other k1 r k' ->
    handled auth k (RExploreBranch id principal options)
      match r with
      | Ok report => Ok (ok (BExplored report))
      | Err (Raised e) => Err (Refused (AKernel e))
      | Err Panicked => Err Crashed
      end k'.

(** A request with its [Authorization] header; [entries] is the token table in
    the order it is visited. *)
Inductive serve (cfg : AuthConfig) (entries : list (string * (string * list Role))) k
    : Request -> option string -> option Response -> Kernel B -> Prop :=
| serve_rejected r authorization e :
    require_auth cfg entries (path_of r) authorization = Err e ->
    serve cfg entries k r authorization (Some (into_response (AAuth e))) k
| serve_handled r authorization auth out k' :
    require_auth cfg entries (path_of r) authorization = Ok auth ->
    handled auth k r out k' -> serve cfg entries k r authorization (answer out) k'.
End serve.
End http.
Arguments Handler B {_} A.
