(* ===== verification/KernelDemo.v ===== *)
(** A kernel that runs: one local backend, one agent, a policy that allows
    everything, an episode, a lease and a shell step, on which the hypotheses
    of the facade's theorems are seen to hold. *)

From stdpp Require Import pretty.
From S2P Require Import Prelude Json Budget Glob Capability Types Canonical IdentityDb Registry.
From S2P Require Import LeaseStore Delegation Policy Router Scheduler Effect Ledger Broker Snapshot.
From S2P Require Import Dag DagScope Path Workspace B64 Utf8 Observation KernelText Kernel KernelStep.
From S2P Require Import KernelLogic KernelSafety KernelTransition KernelTrace KernelBranch.
From S2P Require Import KernelEffects KernelRefine KernelInvariant KernelCommit KernelExplore.

Open Scope Z_scope.

Module KernelDemo.
Definition no_str {A} (_ : A) : string := EmptyString.
Definition no_value {A} (_ : A) : Value := Null.

#[local] Instance backend : Backend BackendProfile := {| profile p := p |}.
#[local] Instance router_debug : RouterDebug := {| debug_unroutable _ _ _ := EmptyString |}.
#[local] Instance serde : Serde := {| scalar_to_string := no_str |}.
#[local] Instance sha : Sha256 :=
  {| sha256_hex _ := "0000000000000000000000000000000000000000000000000000000000000000" |}.
#[local] Instance time_json : TimeJson := {| time_to_json := no_str |}.
#[local] Existing Instance LedgerDemo.json_text.
#[local] Instance delta : DeltaSerde := {| delta_of_value _ := None |}.
#[local] Existing Instance ZTime.time.
#[local] Existing Instance PolicyDemo.chrono.
#[local] Instance manifests : ManifestSerde := {| manifest_of_slice _ := Ok ∅ |}.
#[local] Instance signer : ReceiptSigner := {| sign _ := ("sig", "key") |}.
#[local] Instance errors : ErrorDisplay := {| error_display := error_code |}.
#[local] Instance display : KernelDisplay :=
  {| time_display := no_str; identity_display := no_str; value_pretty := no_str |}.
#[local] Instance debug : PathsDebug := {| debug_paths := no_str |}.
#[local] Instance steps : StepSerde :=
  {| action_value _ := Str "shell"; budget_value := no_value; denial_value := no_value; code_value := no_value;
     delta_value := no_value; observation_value := no_value; changes_value := no_value;
     events_value := no_value; json_text := no_str |}.
#[local] Instance replays : ReplaySerde :=
  {| resolution_value := no_value; action_of_value _ := Ok (Shell "make" None ∅);
     budget_of_value _ := Some budget_zero;
     denial_of_value _ := None; serde_mismatch := no_str |}.

Definition digit (n : nat) : string := String (ascii_of_nat (48 + n)) EmptyString.

Definition outcome : ExecutionOutcome :=
  mkOutcome 0 "ok" EmptyString budget_zero [] FilesystemOnly None.

#[local] Instance world : World BackendProfile :=
  {| uuid := digit; clock n := Z.of_nat n; permit _ := Ok tt; step_clock _ := mkClock 0 1 2;
     backend_run _ _ _ fs := (Ok outcome, fs); backend_discard _ _ _ := Ok tt; torn _ := empty_fs |}.

Definition policy : PolicyDocument :=
  mkDoc 1 [mkRule "all" (mkSelector [] [] None None) ["*"] Allow [] 5 600 None 0 None]
    (mkPaths [EmptyString] [EmptyString]) [] (mkTools [] []) (mkEscalation false []).

Definition agent : Principal := new_agent "pr-1" "agent".

Definition no_kernel : Kernel BackendProfile :=
  mkKernel (dag_init ∅) ledger_empty db_empty policy store_empty
    (mkScheduler [] ∅ step_default [] ∅ None) ∅ ∅ [] ∅ ∅ [] 0.

Definition k0 : Kernel BackendProfile :=
  value_of no_kernel (kernel_open (dag_init ∅) ledger_empty db_empty policy store_empty RouterDemo.local
                        step_default ∅ 0).
Definition k1 := (register_principal agent k0).2.
Definition created := create_episode None "pr-1" None "fix" k1.
Definition k2 := created.2.
Definition handle : EpisodeHandle :=
  value_of (mkHandle "" "" (root_node (mkFresh "" "" "" 0) "" "" AuditOnly)) created.1.
Definition br : string := h_branch handle.
Definition granted := request_capability "pr-1" "proc.shell" (Object []) (Some br) k2.
Definition k3 := granted.2.
Definition lease : string :=
  match granted.1 with Ok l => lease_id l | Err _ => EmptyString end.
Definition action : Action := mkAction (Shell "make" None ∅) lease None budget_zero.
Definition stepped := execute_step "pr-1" br action k3.
Definition k4 := stepped.2.
Definition no_result : StepResult := mkStepResult "" "" (ODenied (mkDenial PolicyForbidden "" "" [] [] false)).
Definition result : StepResult := value_of no_result stepped.1.

Lemma stepped_is_ok : is_ok stepped.1 = true.
Proof. vm_compute. reflexivity. Qed.

Lemma stepped_ok : execute_step "pr-1" br action k3 = (Ok result, k4).
Proof. exact (outcome_ok no_result stepped stepped_is_ok). Qed.

Lemma result_ok : is_denial (sr_observation result) = false.
Proof. vm_compute. reflexivity. Qed.

(** * Steps *)

Lemma step_transition_witness :
  exists b node, get_branch (k_dag k3) br = Ok b /\ sr_state result = node_id node
    /\ node_parent node = Some (head b).
Proof.
  destruct (step_transition _ _ _ _ _ _ stepped_ok) as (b & Hb & _ & [(Hd & _)|(_ & node & Hn & Ha)]).
  - rewrite result_ok in Hd. discriminate Hd.
  - exists b, node. split; [exact Hb|]. split; [exact Hn|]. apply Ha.
Defined.

Lemma opened_numbered : numbered (events (k_ledger k0)).
Proof. intros i r Hi. vm_compute in Hi. by destruct i. Qed.

Lemma numbered_check rows : forallb (fun p => row_seq p.2 =? Z.of_nat p.1 + 1) (imap pair rows) = true -> numbered rows.
Proof.
  rewrite forallb_forall. intros Hall i r Hi. apply Z.eqb_eq, (Hall (i, r)), list_elem_of_In.
  apply list_elem_of_lookup. exists i. by rewrite list_lookup_imap, Hi.
Qed.

Lemma k3_numbered : numbered (events (k_ledger k3)).
Proof. apply numbered_check. vm_compute. reflexivity. Qed.

Lemma k3_room : (Z.of_nat (length (events (k_ledger k3))) + 4 <=? i64_max) = true.
Proof. vm_compute. reflexivity. Qed.

Lemma result_plain : match sr_observation result with Success _ _ _ _ _ _ _ => true | _ => false end = true.
Proof. vm_compute. reflexivity. Qed.

Lemma step_recorded_witness :
  exists evs, events (k_ledger k4) = events (k_ledger k3) ++ map row_of_event evs
    /\ step_chain (k_broker k3) br (sr_step result) "pr-1" action result evs k4.
Proof.
  destruct (step_recorded _ _ _ _ _ _ stepped_ok k3_numbered (proj1 (Z.leb_le _ _) k3_room))
    as (b & evs & _ & He & _ & _ & Hc).
  exists evs. split; [exact He|]. pose proof result_plain as Hp.
  destruct (sr_observation result); [exact Hc|discriminate Hp..].
Defined.

(** * Runs *)

Lemma demo_run : rtc kernel_step k0 k4.
Proof.
  eapply rtc_l; [apply (ks_principal _ agent)|].
  eapply rtc_l; [apply (ks_episode _ None "pr-1" None "fix")|].
  eapply rtc_l; [apply (ks_request _ "pr-1" "proc.shell" (Object []) (Some br))|].
  eapply rtc_l; [apply (ks_execute _ "pr-1" br action)|]. apply rtc_refl.
Qed.

Lemma k0_eq : k0 = mkKernel (dag_init ∅) ledger_empty db_empty policy store_empty
  (mkScheduler [RouterDemo.local] ∅ step_default [] ∅ None) ∅ ∅ [] ∅ ∅ [] 0.
Proof. vm_compute. reflexivity. Qed.

Lemma k0_wf : kernel_wf k0.
Proof.
  rewrite k0_eq. split; cbn.
  - apply dag_init_ok. intros p b Hp. by rewrite lookup_empty in Hp.
  - apply apart_init.
  - apply map_Forall_empty.
  - apply registry_wf_empty.
  - apply map_Forall_empty.
  - split; [by intros id row|split; constructor].
  - intros ep info He. by rewrite lookup_empty in He.
Qed.

Lemma kernel_stays_wf_witness : kernel_wf k4 /\ states (k_dag k0) ⊆ states (k_dag k4).
Proof.
  destruct (kernel_stays_wf _ _ k0_wf demo_run) as (Hwf & He & _). split; [exact Hwf|]. apply He.
Defined.

Lemma k4_short : (Z.of_nat (length (events (k_ledger k4))) <? i64_max) = true.
Proof. vm_compute. reflexivity. Qed.

Lemma audit_append_only_witness : events (k_ledger k0) `prefix_of` events (k_ledger k4).
Proof. exact (proj1 (audit_append_only _ _ opened_numbered demo_run (proj1 (Z.ltb_lt _ _) k4_short))). Defined.

Lemma k4_wf : kernel_wf k4.
Proof. exact (proj1 (part_run_wf k0 k4 (kernel_run_parts _ _ demo_run) k0_wf)). Qed.

Definition info : EpisodeInfo := mkInfo "br-1" "st-2" ["br-1"] "pr-1".

Lemma k4_index : k_episodes k4 !! "ep-0" = Some info.
Proof. vm_compute. reflexivity. Qed.

Lemma restart_restores_witness :
  exists k5 info', kernel_open (k_dag k4) ledger_empty (k_db k4) policy (k_broker k4) RouterDemo.local step_default ∅ 99
    = Ok k5 /\ k_episodes k5 !! "ep-0" = Some info' /\ created_by info' = "pr-1".
Proof.
  destruct (restart_restores k4 ledger_empty policy RouterDemo.local step_default ∅ 99 k4_wf) as (k5 & Ho & _ & Hr).
  destruct (Hr "ep-0" info k4_index) as (info' & Hi & _ & _ & Hc & _); [discriminate|discriminate|].
  exists k5, info'. split; [exact Ho|]. split; [exact Hi|]. exact Hc.
Defined.

(** * Discarding *)

Definition main : Branch := value_of (mkBranch "" "" "" "" Merged) (get_branch (k_dag k4) br).

Lemma k4_router : router (k_sched k4) = [RouterDemo.local].
Proof. vm_compute. reflexivity. Qed.

Lemma k4_main : get_branch (k_dag k4) br = Ok main.
Proof. apply value_of_ok. vm_compute. reflexivity. Qed.

Lemma discard_releases_first_witness :
  exists d k5, asked [RouterDemo.local] br k4 k5 None
    /\ Dag.discard_branch (k_dag k4) br = Ok d /\ (discard_branch br k4).2 = set_dag k5 d.
Proof.
  pose proof (discard_releases_first br k4 RouterDemo.local [] main k4_router k4_main) as Hd.
  assert (b_status main = Active) as Hact by (vm_compute; reflexivity). rewrite Hact in Hd.
  assert (is_ok (discard_branch br k4).1 = true) as Hok by (vm_compute; reflexivity).
  destruct (discard_branch br k4) as [r k'].
  destruct Hd as [(d & k5 & -> & -> & Ha & Hd)|(e & -> & _)]; [|discriminate Hok].
  exists d, k5. split; [exact Ha|]. split; [exact Hd|]. reflexivity.
Defined.

(** * An effect *)

Definition github : KConnector :=
  mkKConnector (mkConnector (fun _ a => Ok a) (fun _ => Ok (mkPrepared Null (Object []))) (fun _ => Ok (mkCommitResult Null))
                  (fun _ => Ok ProbeUnknown) (fun _ => Ok (mkCommitResult Null)))
    (fun _ _ => Irreversible) [("github.create_pr", Irreversible)].

Definition c1 := (register_connector "github" github k4).2.
Definition c2 := (request_capability "pr-1" "github.create_pr" (Object []) (Some br) c1).
Definition pr_lease : string := match c2.1 with Ok l => lease_id l | Err _ => EmptyString end.
Definition proposed :=
  execute_step "pr-1" br (mkAction (ConnectorOp "github" "create_pr" (Object [])) pr_lease None budget_zero) c2.2.
Definition fx : string :=
  match proposed.1 with Ok r => match sr_observation r with EffectPending id _ _ => id | _ => "" end | _ => "" end.
Definition c3 := (prepare_effect fx proposed.2).2.
Definition c4 := (approve_effect fx "pr-1" c3).2.
Definition c5 := (commit_effect fx c4).2.
Definition no_receipt : Receipt := mkReceipt "" (mkReceiptBody "" "" "" "" "" "" "" 0 "" "" 0) "" "".
Definition receipt_made : Receipt := value_of no_receipt (commit_effect fx c4).1.

Lemma committed_is_ok : is_ok (commit_effect fx c4).1 = true.
Proof. vm_compute. reflexivity. Qed.

Lemma committed_ok : commit_effect fx c4 = (Ok receipt_made, c5).
Proof.
  unfold receipt_made, c5. exact (outcome_ok no_receipt (commit_effect fx c4) committed_is_ok).
Qed.

Definition propose_action : Action :=
  mkAction (ConnectorOp "github" "create_pr" (Object [])) pr_lease None budget_zero.

Lemma effect_run : rtc kernel_step k0 c4.
Proof.
  transitivity k4; [exact demo_run|].
  apply (rtc_l _ _ c1); [exact (ks_connector k4 "github" github)|].
  apply (rtc_l _ _ c2.2); [exact (ks_request c1 "pr-1" "github.create_pr" (Object []) (Some br))|].
  apply (rtc_l _ _ proposed.2); [exact (ks_execute c2.2 "pr-1" br propose_action)|].
  apply (rtc_l _ _ c3); [exact (ks_prepare proposed.2 fx)|].
  apply rtc_once. exact (ks_approve c3 fx "pr-1").
Qed.

Lemma c4_inv : st_inv (k_broker c4).
Proof. exact (wf_broker _ (proj1 (part_run_wf k0 c4 (kernel_run_parts _ _ effect_run) k0_wf))). Qed.

Lemma longer {A} (l l' : list A) : length l' = S (length l) -> l' = l -> False.
Proof. intros Hlen ->. lia. Qed.

Lemma commit_logs : length (k_log (commit_effect fx c4).2) = S (length (k_log c4)).
Proof. vm_compute. reflexivity. Qed.

Lemma commit_takes_authority_witness : exists e, commit_authority c4 fx e.
Proof.
  destruct (commit_takes_authority fx c4 c4_inv) as [Hl|(e & _ & Ha)]; [|exists e; exact Ha].
  destruct (longer _ _ commit_logs Hl).
Defined.

Lemma c4_numbered : numbered (events (k_ledger c4)).
Proof. apply numbered_check. vm_compute. reflexivity. Qed.

Lemma c4_room : (Z.of_nat (length (events (k_ledger c4))) + 4 <=? i64_max) = true.
Proof. vm_compute. reflexivity. Qed.

Lemma commit_recorded_witness :
  exists ev rid, receipt (k_broker c5) rid = Ok receipt_made /\ committed_event fx receipt_made ev.
Proof.
  destruct (commit_recorded fx c4 receipt_made c5 committed_ok c4_inv c4_numbered (proj1 (Z.leb_le _ _) c4_room))
    as (e & b & ev & rid & _ & _ & Hr & _ & Hc & _).
  exists ev, rid. split; [exact Hr|exact Hc].
Defined.

(** * Exploration: two candidates, the first of which wins *)

Definition options : ExploreOptions :=
  mkOptions [mkCandidate None [Shell "make" None ∅]; mkCandidate None []] (Some (Shell "test" None ∅)) (Some 2)
    true true true None.
Definition order : list nat := [0; 1; 0; 0; 0; 0; 0; 0; 0; 1]%nat.
Definition explored : Exploring :=
  default (spawned options k2) (schedule 4 "pr-1" br options order (spawned options k2)).
Definition reports : list ExploreCandidateReport :=
  match collect "panic" (x_tasks explored) with Some (Ok rs) => rs | _ => [] end.
Definition concluded := conclude "pr-1" br options reports (x_kernel explored).
Definition exploration : ExploreReport :=
  value_of (mkExploreReport EmptyString None None None [] []) concluded.1.

Lemma explored_is_some : bool_decide (is_Some (schedule 4 "pr-1" br options order (spawned options k2))) = true.
Proof. vm_compute. reflexivity. Qed.

Lemma explored_run : explore_run 4 "pr-1" br options kernel_step (spawned options k2) 10 explored.
Proof.
  apply (schedule_run 4 "pr-1" br options kernel_step order). pose proof (bool_decide_eq_true_1 _ explored_is_some) as [x Hx].
  unfold explored. rewrite Hx. reflexivity.
Qed.

Lemma collected : collect "panic" (x_tasks explored) = Some (Ok reports).
Proof. vm_compute. reflexivity. Qed.

Lemma concluded_is_ok : is_ok concluded.1 = true.
Proof. vm_compute. reflexivity. Qed.

Lemma exploration_made : explore 4 "panic" "pr-1" br options kernel_step k2 (Ok exploration) concluded.2.
Proof.
  pose proof (explore_ends 4 "panic" "pr-1" br options kernel_step k2 explored reports eq_refl
    (run_moves _ _ _ _ _ _ _ _ explored_run) collected) as He.
  change (explore 4 "panic" "pr-1" br options kernel_step k2 concluded.1 concluded.2) in He.
  unfold exploration. destruct concluded as [[rep|e] k'] eqn:E; [exact He|].
  pose proof concluded_is_ok as Hok. rewrite E in Hok. discriminate Hok.
Qed.

Lemma winner_is_first : exp_winner exploration = Some 0%nat.
Proof. vm_compute. reflexivity. Qed.


Lemma explore_is_facade_calls_witness : rtc kernel_step k2 concluded.2.
Proof. exact (explore_is_facade_calls 4 "panic" "pr-1" br options kernel_step k2 (Ok exploration) concluded.2 (fun _ _ Hs => Hs)
         exploration_made). Defined.

Lemma explore_terminates_witness : (10 <= 6 * 2 + 2)%nat /\ (permits_used (x_tasks explored) <= 2)%nat.
Proof.
  destruct (explore_terminates 4 "panic" "pr-1" br options kernel_step k2 10 explored explored_run) as (Hp & _ & _ & Hn & _).
  split; [exact Hn|exact Hp].
Defined.
End KernelDemo.
