(* ===== verification/HttpSafety.v ===== *)
(** Tenants are isolated at the HTTP interface: what a request can change is
    bounded by who makes it. *)

From stdpp Require Import pretty.
From S2P Require Import Prelude Json Budget Glob Capability Types Canonical IdentityDb Registry.
From S2P Require Import LeaseStore Delegation Policy Router Scheduler Effect Ledger Broker BrokerRecord Snapshot.
From S2P Require Import Dag DagScope Path Workspace B64 Utf8 Observation Auth RawView KernelText Kernel KernelStep.
From S2P Require Import KernelBranch KernelEffects KernelLogic KernelSafety KernelRefine KernelInvariant.
From S2P Require Import KernelExplore Http.

Open Scope Z_scope.

Section tenants.
Context {B : Type} `{!Backend B, !RouterDebug, !World B}.
Context `{!Serde, !Sha256, !TimeJson, !JsonText, !DeltaSerde, !TimeText, !Chrono, !ManifestSerde}.
Context `{!ReceiptSigner, !ErrorDisplay, !KernelDisplay, !PathsDebug, !StepSerde, !ReplaySerde, !RoleDebug}.

Implicit Types (k : Kernel B).

Abbreviation keeps I m := (triple I m (fun _ => I) I).

(** * Ownership *)

(** The principal that created the episode of a branch. *)
Definition owner_of k (br : string) : option string :=
  row ← branches (k_dag k) !! br; created_by <$> k_episodes k !! br_episode row.

(** Branches the principal may reach: its own, and those created later. *)
Definition reach k0 (p br : string) : Prop :=
  branches (k_dag k0) !! br = None \/ owner_of k0 br = Some p.

(** Everything outside is as it was. *)
Record fenced k0 (p : string) k : Prop := {
  fe_dag : dag_ok (k_dag k);
  fe_apart : apart (k_dag k);
  fe_rows : rows_kept (k_dag k0) (k_dag k);
  fe_branches : touches (reach k0 p) (k_dag k0) (k_dag k);
  fe_dirs br : ~ reach k0 p br -> k_dirs k !! br = k_dirs k0 !! br;
  fe_broker : st_inv (k_broker k);
  fe_effects : refiled (k_broker k0) (k_broker k);
}.

Lemma fenced_start k0 p : kernel_wf k0 -> fenced k0 p k0.
Proof.
  intros Hwf. split; [apply Hwf|apply Hwf|apply rows_kept_refl|by apply touches_same|done|apply Hwf|by apply refiled_same].
Qed.

Lemma fenced_modular k0 p : modular_on (reach k0 p) (fenced k0 p).
Proof.
  split; [split; [|intros k [Hd Ha Hr Hb Hds Hbr Hf]; split_and!]| |].
  - intros k [Hd Ha Hr Hb Hds Hbr Hf]. split; [intros l _|]; by split.
  - intros d Hc Ht. destruct (dag_call_preserves _ _ Hc Hd) as [Hd' _]. split; cbn; try done.
    + by eapply dag_call_apart.
    + eapply rows_kept_trans; [exact Hr|by apply dag_call_rows].
    + by eapply touches_trans.
  - intros s Hm. split; cbn; try done; [by eapply broker_move_inv|].
    eapply refiled_trans; [exact Hf|by apply broker_move_refiled].
  - intros s _. by split.
  - intros ds Hout. split; cbn; try done. intros br Hn. rewrite (Hout br Hn). by apply Hds.
  - intros br Hnone. left. destruct (branches (k_dag k0) !! br) as [row|] eqn:E; [|done].
    destruct Hr as [_ Hr]. destruct (Hr _ _ E) as (row' & Hrow' & _). congruence.
  - intros e k [Hd Ha Hr Hb Hds Hbr Hf]. by split.
  - intros k db [Hd Ha Hr Hb Hds Hbr Hf] _. by split.
Qed.

(** The index entries of other episodes do not matter to the fence. *)
Lemma fenced_episodes k0 p k eps : fenced k0 p k -> fenced k0 p (set_episodes k eps).
Proof. intros [Hd Ha Hr Hb Hds Hbr Hf]. by split. Qed.

Section fence.
Context k0 (p : string).
Abbreviation T := (reach k0 p).
Abbreviation I := (fenced k0 p).

Lemma fence_create root actor ws obj : keeps I (KernelBranch.create_episode root actor ws obj).
Proof. eapply keeps_create; [apply fenced_modular|intros; by apply fenced_episodes]. Qed.

Lemma fence_fork branch : keeps I (fork_branch branch).
Proof. eapply keeps_fork; [apply fenced_modular|intros; by apply fenced_episodes]. Qed.

Lemma fence_merge target source actor : T target -> is_Some (branches (k_dag k0) !! target) \/ T source ->
  keeps I (merge_branch target source actor).
Proof.
  intros HT Hcase. eapply keeps_merge; [apply fenced_modular|exact HT|]. intros k f n Hk Hm.
  destruct Hcase as [[tr0 Htr0]|HS]; [|exact HS].
  destruct (merge_one_episode _ _ _ _ _ _ (fe_dag _ _ _ Hk) (fe_apart _ _ _ Hk) Hm) as (tr & sr & Htr & Hsr & Heq).
  destruct (branches (k_dag k0) !! source) as [sr0|] eqn:Es; [right|by left].
  destruct (fe_rows _ _ _ Hk) as [_ Hrows]. destruct (Hrows _ _ Es) as (sr' & Hsr' & Hes).
  destruct (Hrows _ _ Htr0) as (tr' & Htr' & Het). destruct HT as [Hn|Hown]; [congruence|].
  unfold owner_of in *. rewrite Htr0 in Hown. rewrite Es. cbn in *. by replace (br_episode sr0) with (br_episode tr0) by congruence.
Qed.

Lemma fence_commit id e : load_effect (k_broker k0) id = Ok e -> T (effect_branch e) -> keeps I (commit_effect id).
Proof.
  intros He HT. eapply keeps_commit; [apply fenced_modular|]. intros k e' Hk He'.
  destruct (fe_effects _ _ _ Hk _ _ He) as [ph Hph]. rewrite He' in Hph. by simplify_eq.
Qed.

(** ** Exploration *)

Definition report_in (r : ExploreCandidateReport) : Prop := forall br, rep_branch r = Some br -> T br.

Definition task_in (t : Task) : Prop :=
  match t with
  | XWaiting | XStart | XFork | XPanicked => True
  | XLoop br _ r | XAct br _ _ r | XEvaluate br r => T br /\ report_in r
  | XReport r | XFinished r => report_in r
  end.

Context (fanout : Z) (principal source : string) (options : ExploreOptions) (other : Kernel B -> Kernel B -> Prop).
Context (Hother : forall k k', other k k' -> I k -> I k').

Lemma called_in {A} (m : K B A) k won ok failed t' k' won' :
  keeps I m -> I k -> (forall a k1, m k = (Ok a, k1) -> task_in (ok a)) -> (forall e, task_in (failed e)) ->
  called (m k) won ok failed = (t', k', won') -> I k' /\ task_in t'.
Proof.
  intros Hm Hk Hok Hf Hc. specialize (Hm k Hk). destruct (m k) as [[a|[e|]] k1]; cbn in Hc; simplify_eq.
  - split; [done|]. by eapply Hok.
  - by split.
  - by split.
Qed.

(** A fact that no state can change. *)
Lemma triple_any {A} (φ : Prop) (m : K B A) : triple (fun _ => φ) m (fun _ _ => φ) (fun _ => True).
Proof. intros k Hφ. by destruct (m k) as [[]]. Qed.

(** A fork is of a branch that was not there. *)
Lemma fork_fresh branch k b k1 : I k -> fork_branch branch k = (Ok b, k1) -> T (b_id b).
Proof.
  intros Hk Hf. unfold fork_branch in Hf.
  assert (triple I (fork_branch branch) (fun b _ => T (b_id b)) (fun _ => True)) as Ht; [|specialize (Ht k Hk); unfold fork_branch in Ht; by rewrite Hf in Ht].
  unfold fork_branch. clear Hf.
  do 4 (eapply (triple_bind _ _ (fun _ => I)); [eapply triple_conseq; [eapply keeps_q; [apply fenced_modular|auto with ak]|done..|done]|intros ?]).
  eapply (triple_bind _ _ (fun new _ => T (b_id new))).
  - intros k2 Hk2. unfold update. destruct (fork _ _ _) as [[b' d]|e] eqn:Ef; [|done].
    unfold fork in Ef. apply bind_Ok in Ef as (base & _ & Ef). apply bind_Ok in Ef as (brs & Hb & [= <- <-]).
    apply insert_row_once_Ok in Hb as [Hn _]. by apply (mod_inert _ _ (fenced_modular k0 p)) with k2.
  - intros new. eapply triple_bind; [apply triple_any|]. intros [u|error].
    + do 3 (eapply triple_bind; [apply triple_any|intros ?]). by intros k2 HT.
    + do 3 (eapply triple_bind; [apply triple_any|intros ?]). done.
Qed.
Lemma report_in_same r r' : rep_branch r' = rep_branch r -> report_in r -> report_in r'.
Proof. unfold report_in. by intros ->. Qed.

Lemma fence_auto branch kind hint budget : T branch -> keeps I (execute_step_auto principal branch kind hint budget).
Proof. intros HT. eapply keeps_auto; [apply fenced_modular|exact HT]. Qed.

Lemma task_step_in i c permit t k won t' k' won' :
  task_step principal source options i c permit t k won = Some (t', k', won') -> I k -> task_in t -> I k' /\ task_in t'.
Proof.
  intros Hs Hk Ht. destruct t as [| | |branch todo r|branch kind todo r|branch r|r|r|]; cbn in Hs; try done.
  - destruct permit; simplify_eq. done.
  - simplify_eq. split; [done|]. by destruct (early_stop options && won').
  - injection Hs as Hs. eapply called_in; [apply fence_fork|exact Hk| | |exact Hs]; [|done].
    intros b k1 Hf. cbn. pose proof (fork_fresh _ _ _ _ Hk Hf) as HT. split; [exact HT|]. by intros br [= <-].
  - destruct Ht as [HT Hr]. destruct todo as [|kind todo]; simplify_eq; (split; [done|]).
    + destruct (evaluator options); [by split|]. by apply (report_in_same r).
    + destruct (early_stop options && won'); [by apply (report_in_same r)|by split].
  - destruct Ht as [HT Hr]. injection Hs as Hs. eapply called_in; [by apply fence_auto|exact Hk| | |exact Hs].
    + intros a k1 _. cbv beta zeta. destruct (action_ok (sr_observation (auto_result a))); [split; [exact HT|]|]; by apply (report_in_same r).
    + intros e. by apply (report_in_same r).
  - destruct Ht as [HT Hr]. destruct (evaluator options); [|done]. cbn in Hs. injection Hs as Hs.
    eapply called_in; [by apply fence_auto|exact Hk| | |exact Hs]; intros; by apply (report_in_same r).
  - simplify_eq. by split.
Qed.

Lemma explore_move_in x x' :
  explore_move fanout principal source options other x x' ->
  I (x_kernel x) /\ Forall task_in (x_tasks x) -> I (x_kernel x') /\ Forall task_in (x_tasks x').
Proof.
  intros [i x1 Hs|k Hk] [HI Ht]; [|split; [by eapply Hother|done]].
  apply explore_step_inv in Hs as (t & c & t' & Hi & _ & Hs & ->).
  destruct (task_step_in _ _ _ _ _ _ _ _ _ Hs HI) as [HI' Ht']; [by eapply Forall_lookup_1|].
  split; [done|]. by apply Forall_insert.
Qed.

Lemma explore_moves_in x x' :
  rtc (explore_move fanout principal source options other) x x' ->
  I (x_kernel x) /\ Forall task_in (x_tasks x) -> I (x_kernel x') /\ Forall task_in (x_tasks x').
Proof. induction 1 as [|x x1 x2 Hm _ IH]; [done|]. intros Hx. apply IH. by eapply explore_move_in. Qed.

Lemma fence_discard branch : T branch -> keeps I (KernelBranch.discard_branch branch).
Proof. intros HT. eapply keeps_discard; [apply fenced_modular|exact HT]. Qed.

Lemma fence_conclude rs : T source -> Forall report_in rs -> keeps I (conclude principal source options rs).
Proof.
  intros HT Hrs. assert (forall A (a : A), keeps I (mret a)) as Hret by (intros; by intros k Hk).
  apply keeps_bind; [|intros m; apply keeps_bind; [|intros ds; apply Hret]].
  - unfold merge_back. destruct (merge_winner options), (find_winner rs) as [w|]; try apply Hret.
    destruct (rs !! w) as [r|] eqn:Er; [|by intros k Hk]. destruct (rep_branch r) as [br|] eqn:Eb; [|apply Hret].
    apply keeps_bind; [|intros ?; apply Hret]. apply keeps_attempt, fence_merge; [exact HT|right].
    rewrite Forall_lookup in Hrs. by apply (Hrs _ _ Er).
  - destruct (discard_losers options); [|apply Hret]. generalize (find_winner rs) as winner. intros winner.
    induction Hrs as [|r rs Hr _ IH]; cbn; [apply Hret|]. case_bool_decide; [done|].
    destruct (rep_branch r) as [br|] eqn:Eb; [|done].
    apply keeps_bind; [by apply keeps_attempt, fence_discard, Hr|intros d].
    apply keeps_bind; [exact IH|intros later; apply Hret].
Qed.

Lemma explore_in join_error k r k' :
  T source -> I k -> explore fanout join_error principal source options other k r k' -> I k'.
Proof.
  intros HT Hk He. assert (I (x_kernel (spawned options k)) /\ Forall task_in (x_tasks (spawned options k))) as Hx.
  { split; [done|]. cbn. apply Forall_fmap, Forall_true. done. }
  inversion He as [|x e _ Hr|x rs _ Hr Hc]; subst; [done|by apply (explore_moves_in _ _ Hr Hx)|].
  destruct (explore_moves_in _ _ Hr Hx) as [HI Ht]. apply collect_reports in Hc. rewrite Hc in Ht.
  apply (keeps_run I); [|done]. apply fence_conclude; [done|].
  rewrite Forall_map in Ht. exact Ht.
Qed.
End fence.

(** * Handlers *)

(** A part of a handler that only reads, and what is known if it goes on. *)
Definition reads {A} (h : Handler B A) k (φ : A -> Prop) : Prop :=
  (h k).2 = k /\ forall a, (h k).1 = Ok a -> φ a.

Lemma reads_bind {A A'} (h : Handler B A) (f : A -> Handler B A') k φ ψ :
  reads h k φ -> (forall a, φ a -> reads (f a) k ψ) -> reads (h ≫= f) k ψ.
Proof.
  intros [Hk Ha] Hf. unfold reads, mbind, handler_bind in *. destruct (h k) as [[a|e] k1]; cbn in *; subst k1; [|done].
  by apply Hf, Ha.
Qed.

Lemma reads_ret {A} (a : A) k (φ : A -> Prop) : φ a -> reads (mret a) k φ.
Proof. intros Ha. split; [done|]. by intros a' [= <-]. Qed.

Lemma reads_weaken {A} (h : Handler B A) k (φ ψ : A -> Prop) : (forall a, φ a -> ψ a) -> reads h k φ -> reads h k ψ.
Proof. intros Hw [Hk Ha]. split; [done|]. intros a Hr. by apply Hw, Ha. Qed.

Lemma reads_parse prefix s k : reads (parse_id prefix s) k (fun id => id = s).
Proof.
  unfold parse_id, id_parse. destruct (starts_with _ _); (split; [done|]); intros a; [by intros [= <-]|done].
Qed.

Lemma reads_allow {A} (r : result AuthError A) k : reads (allow r) k (fun a => r = Ok a).
Proof. destruct r; (split; [done|]); intros a' Heq; [|done]. by injection Heq as <-. Qed.

Lemma reads_parsed {A} (r : KernelResult A) k : reads (parsed r) k (fun a => r = Ok a).
Proof. destruct r; (split; [done|]); intros a' Heq; [|done]. by injection Heq as <-. Qed.

(** A facade call that leaves the kernel as it is. *)
Lemma reads_call {A} (m : K B A) k : (m k).2 = k -> reads (call m) k (fun a => (m k).1 = Ok a).
Proof.
  intros Hk. unfold reads, call. destruct (m k) as [[a|[e|]] k1]; cbn in *; subst; (split; [done|]); intros a'; [|done..].
  by intros [= <-].
Qed.

Lemma branch_owner_run br k :
  (branch_owner br k).2 = k
  /\ forall q, (branch_owner br k).1 = Ok q -> owner_of k br = Some q.
Proof.
  unfold branch_owner, episode_owner, mbind, K_bind, get, update, lift. destruct (get_branch (k_dag k) br) as [b|e] eqn:Eb; [|done].
  apply load_branch_Ok in Eb as (row & Hrow & _ & Heq). unfold owner_of. rewrite Hrow, Heq. cbn.
  destruct (k_episodes k !! br_episode row); cbn; (split; [done|]); [by intros q [= <-]|done].
Qed.

Lemma reads_own_branch auth br k :
  reads (own_branch auth br) k (fun _ => exists q, owner_of k br = Some q /\ require_owner auth q = Ok tt).
Proof.
  destruct (branch_owner_run br k) as [Hk Hown]. eapply reads_bind; [by apply reads_call|]. intros q Hq%Hown.
  eapply reads_weaken; [|apply reads_allow]. intros [] Hr. by exists q.
Qed.

Lemma effect_loads id k : (effect id k).2 = k /\ (forall e, (effect id k).1 = Ok e -> load_effect (k_broker k) id = Ok e).
Proof.
  unfold effect, mbind, K_bind, get, update, lift. destruct (load_effect _ _); (split; [done|]); [by intros e [= <-]|done].
Qed.

Lemma reads_own_effect auth id k :
  reads (own_effect auth id) k (fun _ => exists e q, load_effect (k_broker k) id = Ok e
    /\ owner_of k (effect_branch e) = Some q /\ require_owner auth q = Ok tt).
Proof.
  destruct (effect_loads id k) as [Hk He]. eapply reads_bind; [by apply reads_call|]. intros e Hl%He.
  eapply reads_weaken; [|apply reads_own_branch]. intros _ (q & Hq). by exists e, q.
Qed.

Lemma explain_run step k : (step_explain step k).2 = k.
Proof.
  unfold step_explain, mbind, K_bind, get, update, lift. destruct (query _ _) as [evs|]; [|done]. by destruct evs.
Qed.

Lemma reads_own_step auth id k : reads (own_step auth id) k (fun _ => True).
Proof.
  eapply reads_bind; [apply reads_call, explain_run|]. intros x _. eapply reads_weaken; [|apply reads_allow]. done.
Qed.

Lemma reads_episode_owner ep k : reads (call (episode_owner ep)) k (fun _ => True).
Proof.
  eapply reads_weaken; [|apply reads_call]; [done|]. unfold episode_owner, mbind, K_bind, get, update, lift.
  by destruct (ok_or _ _).
Qed.

Lemma reads_parse_opt prefix o k : reads (parse_opt prefix o) k (fun _ => True).
Proof.
  destruct o as [s|]; [|by apply reads_ret]. eapply reads_bind; [apply reads_parse|]. intros id _. by apply reads_ret.
Qed.

(** ** Acting *)

(** A handler stopped by authorization has changed nothing; otherwise it ends in [J]. *)
Definition acts {A} (h : Handler B A) k (J : Kernel B -> Prop) : Prop :=
  match (h k).1 with Err (Refused (AAuth _)) => (h k).2 = k | _ => J (h k).2 end.

Lemma acts_reads {A} (h : Handler B A) k φ (J : Kernel B -> Prop) : reads h k φ -> J k -> acts h k J.
Proof. intros [Hk _] HJ. unfold acts. rewrite Hk. by destruct (h k).1 as [|[[]|]]. Qed.

Lemma acts_bind {A A'} (h : Handler B A) (f : A -> Handler B A') k φ J :
  reads h k φ -> J k -> (forall a, φ a -> acts (f a) k J) -> acts (h ≫= f) k J.
Proof.
  intros [Hk Ha] HJ Hf. unfold acts, mbind, handler_bind in *.
  destruct (h k) as [[a|e] k1]; cbn in *; subst k1; [by apply Hf, Ha|]. by destruct e as [[]|].
Qed.

Lemma acts_call {A A'} (m : K B A) (f : A -> A') k (J : Kernel B -> Prop) : J (m k).2 -> acts (a ← call m; mret (f a)) k J.
Proof. intros HJ. unfold acts, mbind, handler_bind, call. by destruct (m k) as [[a|[e|]] k1]. Qed.

Lemma acts_refuse {A} e k (J : Kernel B -> Prop) : J k -> acts (refuse (A := A) e) k J.
Proof. intros HJ. by destruct e. Qed.

Lemma reads_explain step k : reads (call (step_explain step)) k (fun _ => True).
Proof. eapply reads_weaken; [|apply reads_call, explain_run]. done. Qed.

Lemma reads_effect id k : reads (call (effect id)) k (fun _ => True).
Proof. eapply reads_weaken; [|apply reads_call, effect_loads]. done. Qed.

(** Takes a handler apart: its checks, then its one call. *)
Ltac walk_read :=
  first [apply reads_parse | apply reads_allow | apply reads_own_branch | apply reads_own_effect | apply reads_own_step
        | apply reads_parsed | apply reads_episode_owner | apply reads_parse_opt | apply reads_explain | apply reads_effect].

Ltac walk :=
  repeat first
    [ eapply acts_bind; [solve [walk_read]|done|intros ? ?]
    | apply acts_refuse; done
    | apply acts_call
    | eapply acts_reads; [solve [by apply reads_ret | walk_read]|done] ].

Section routes.
Context (tree_at : string -> Fs) (workspace_root : option Fs) (scratch : KernelResult B).

(** The guard of a trace query: the owner of the episode, or an administrator. *)
Lemma reads_trace_guard auth p k :
  reads match tp_episode p with
        | Some e => e ← parse_id "ep" e; owner ← call (episode_owner e); allow (require_owner auth owner)
        | None => allow (require_role auth Admin)
        end k (fun _ => tp_episode p = None -> require_role auth Admin = Ok tt).
Proof.
  destruct (tp_episode p).
  - eapply reads_bind; [apply reads_parse|intros ? _]. eapply reads_bind; [apply reads_episode_owner|intros ? _].
    eapply reads_weaken; [|apply reads_allow]. done.
  - eapply reads_weaken; [|apply reads_allow]. by intros [] ? _.
Qed.

(** Every route, down to the call it makes. *)
Ltac walk_route r Hr :=
  destruct r; cbn [route] in Hr; try done; injection Hr as <-;
  unfold h_register_principal, h_create_episode, h_describe_episode, h_execute_step, h_execute_step_auto,
    h_explain_step, h_retry_step, h_fork_branch, h_diff_branch, h_merge_branch, h_discard_branch, h_compare_branches,
    h_fetch_raw, h_request_capability, h_compile_envelope, h_delegate_capability, h_revoke_capability,
    h_list_capabilities, h_list_effects, h_recover_effects, h_get_effect, h_prepare_effect, h_approve_effect,
    h_commit_effect, h_compensate_effect, h_resolve_effect, h_replay, h_trace_query, h_get_receipt, required;
  repeat match goal with |- acts (if String.eqb ?m ?t then _ else _) _ _ => destruct (String.eqb_spec m t) end;
  try (eapply acts_bind; [apply reads_trace_guard|done|intros ? ?]; cbv zeta);
  walk; cbv beta in *.

Lemma route_acts auth r h k : route tree_at workspace_root scratch auth r = Some h -> acts h k (fun _ => True).
Proof. intros Hr. walk_route r Hr; done. Qed.

(** ** A tenant *)

Section tenant.
Context k0 (p : string) (roles : list Role) (Hwf : kernel_wf k0).
Context (Hadmin : Admin ∉ roles) (Happrover : Approver ∉ roles).

Abbreviation auth := (mkContext (Some p) roles false).

Lemma tenant_owner q : require_owner auth q = Ok tt -> q = p.
Proof.
  unfold require_owner, has_role. cbn. destruct (String.eqb_spec p q) as [->|]; [done|].
  rewrite !bool_decide_false by done. done.
Qed.

Lemma tenant_role role : role = Admin \/ role = Approver -> require_role auth role <> Ok tt.
Proof. intros [->| ->]; unfold require_role, has_role; cbn; by rewrite !bool_decide_false. Qed.

Lemma tenant_reach br : (exists q, owner_of k0 br = Some q /\ require_owner auth q = Ok tt) -> reach k0 p br.
Proof. intros (q & Hq & ->%tenant_owner). by right. Qed.

(** The retried step was recorded on a branch of the tenant's. *)
Definition home (r : Request) : Prop :=
  match r with
  | RRetryStep id => forall x br, (step_explain id k0).1 = Ok x -> ex_branch x = Some br -> owner_of k0 br = Some p
  | _ => True
  end.

Abbreviation I := (fenced k0 p).

Lemma fence_start : I k0.
Proof. by apply fenced_start. Qed.

Lemma fence_run {A} (m : K B A) : keeps I m -> I (m k0).2.
Proof. intros Hm. apply (keeps_run I); [done|apply fence_start]. Qed.

Lemma fence_quiet {A} (m : K B A) : quiet m -> I (m k0).2.
Proof. intros Hm. apply fence_run. eapply keeps_q; [apply fenced_modular|done]. Qed.

Lemma fence_retry id : home (RRetryStep id) -> I (step_retry id k0).2.
Proof.
  intros Hh. cbn in Hh. pose proof (explain_run id k0) as Hk. unfold step_retry, mbind, K_bind, lift.
  destruct (step_explain id k0) as [[x|e] k1]; cbn in Hk; subst k1; [|apply fence_start].
  destruct (ex_branch x) as [br|] eqn:Eb; [|apply fence_start]. cbn.
  destruct (ex_action x) as [payload|]; [|apply fence_start]. cbn.
  destruct (recorded_action id payload) as [a|]; [|apply fence_start]. cbn.
  apply fence_run. eapply keeps_step; [apply fenced_modular|]. right. by apply (Hh x).
Qed.

Lemma quiet_describe ep : quiet (B := B) (describe_episode ep).
Proof. do 3 (apply quiet_bind; [auto with ak|intros ?]). auto with ak. Qed.

Lemma quiet_listing principal :
  quiet (B := B) (t ← now; k ← get; lift_identity (active_for_principal (k_db k) principal t)).
Proof. do 2 (apply quiet_bind; [auto with ak|intros ?]). auto with ak. Qed.

Lemma quiet_look {A} (f : Kernel B -> KernelResult A) : quiet (k ← get; lift (f k)).
Proof. apply quiet_bind; auto with ak. Qed.

Lemma quiet_audit a b : quiet (B := B) (replay_audit a b).
Proof. apply quiet_look. Qed.

Lemma route_fenced r h : route tree_at workspace_root scratch auth r = Some h -> home r -> acts h k0 I.
Proof.
  intros Hr Hh. pose proof fence_start as HJ. pose proof (fenced_modular k0 p) as HM.
  assert (forall role u, role = Admin \/ role = Approver -> require_role auth role = Ok u -> False) as Hno
    by (intros role [] Hc Hrole; by eapply tenant_role).
  walk_route r Hr; try exact HJ;
    try (match goal with Hrole : require_role auth _ = Ok _ |- _ => by edestruct Hno; [|exact Hrole]; auto end);
    try (apply fence_quiet; first [apply quiet_describe | apply quiet_listing | apply quiet_look | apply quiet_audit | solve [auto with ak]]).
  all: try match goal with Ho : exists q, owner_of k0 _ = Some q /\ _ |- _ => pose proof (tenant_reach _ Ho) as HT end.
  all: try (by subst; apply fence_retry).
  all: apply fence_run.
  - apply fence_create.
  - by eapply keeps_step.
  - by eapply keeps_auto.
  - apply fence_fork.
  - apply fence_merge; [done|left]. subst. unfold owner_of in *. destruct (branches (k_dag k0) !! _); [done|naive_solver].
  - by eapply keeps_discard.
  - by eapply keeps_request.
  - by eapply keeps_envelope.
  - by eapply keeps_delegate.
  - by eapply keeps_prepare.
  - match goal with Ho : exists e q, _ |- _ => destruct Ho as (e & q & He & Hq) end.
    eapply fence_commit; [exact He|]. apply tenant_reach. eauto.
  - by eapply keeps_compensate.
  - by eapply keeps_replay_sandbox.
Qed.

Lemma explore_guard_reads id principal :
  reads (h_explore_guard auth id principal) k0 (fun wb => reach k0 p wb.2).
Proof.
  unfold h_explore_guard. eapply reads_bind; [apply reads_parse|intros br _].
  eapply reads_bind; [apply reads_own_branch|intros _ Ho%tenant_reach].
  eapply reads_bind; [apply reads_allow|intros who _]. by apply reads_ret.
Qed.
End tenant.

(** ** Requests *)

Context (fanout : Z) (join_error : string) (other : Kernel B -> Kernel B -> Prop).

Lemma handled_fenced k0 p roles r out k' :
  kernel_wf k0 -> Admin ∉ roles -> Approver ∉ roles -> home k0 p r ->
  (forall k1 k2, other k1 k2 -> fenced k0 p k1 -> fenced k0 p k2) ->
  handled tree_at workspace_root scratch fanout join_error other (mkContext (Some p) roles false) k0 r out k' ->
  fenced k0 p k'.
Proof.
  intros Hwf Hadmin Happ Hh Ho Hr. pose proof (fenced_start k0 p Hwf) as Hstart.
  inversion Hr as [r' h Hroute|id who options e k1 Hg|id body options who br k1 ro k1' Hg He]; subst.
  - pose proof (route_fenced k0 p roles Hwf Hadmin Happ _ _ Hroute Hh) as Ha. unfold acts in Ha.
    destruct (h k0) as [[resp|[[]|]] k1]; cbn in *; try done. by subst.
  - destruct (explore_guard_reads k0 p roles Hadmin id who) as [Hk _]. rewrite Hg in Hk. cbn in Hk. by subst.
  - destruct (explore_guard_reads k0 p roles Hadmin id body) as [Hk Hreach]. rewrite Hg in Hk, Hreach. cbn in *. subst k1.
    eapply explore_in; [exact Ho|by apply (Hreach (who, br))|exact Hstart|exact He].
Qed.

(** The role a request asks for before anything else. *)
Definition required_role (r : Request) : option Role :=
  match r with
  | RRegisterPrincipal _ | RRevokeCapability _ | RListEffects _ | RRecoverEffects | RResolveEffect _ _ | RGetReceipt _ =>
      Some Admin
  | RApproveEffect _ _ => Some Approver
  | RReplay mode _ =>
      if String.eqb mode "audit" then Some Admin else if String.eqb mode "live" then Some Approver else None
  | RTraceQuery p => match tp_episode p with None => Some Admin | Some _ => None end
  | _ => None
  end.

Lemma allow_refused {A} auth role (f : () -> Handler B A) k :
  has_role auth role = false ->
  (allow (require_role auth role) ≫= f) k = (Err (Refused (AAuth (MissingRole role))), k).
Proof. intros Hr. unfold require_role. by rewrite Hr. Qed.

Lemma route_role auth r h role k :
  route tree_at workspace_root scratch auth r = Some h -> required_role r = Some role -> has_role auth role = false ->
  h k = (Err (Refused (AAuth (MissingRole role))), k).
Proof.
  intros Hr Hrole Hno. destruct r; cbn [route required_role] in *; simplify_eq; try (by apply allow_refused).
  - unfold h_replay. destruct (String.eqb mode "audit"); [simplify_eq; by apply allow_refused|].
    destruct (String.eqb_spec mode "live") as [->|]; [|done]. simplify_eq. by apply allow_refused.
  - unfold h_trace_query. destruct (tp_episode params); [done|]. simplify_eq. by apply allow_refused.
Qed.

(** * Properties *)

(** C7: Tenants are isolated.  A request of a caller that is neither administrator nor
    approver leaves every branch of other principals' episodes exactly as it was, its head and
    its status, and the workspace directory of that branch too: steps, forks, explorations,
    discards, commits and replays stay within the caller's episodes, and so do merges, whose
    source branch the handler does not check, because branches of different episodes share no
    ancestor.  Retrying a step is confined when the step was recorded on the caller's own
    branch, and an exploration when the requests that run meanwhile stay within their own
    bounds. *)
Theorem tenant_isolation cfg entries k p roles r authorization resp k' br q :
  kernel_wf k ->
  require_auth cfg entries (path_of r) authorization = Ok (mkContext (Some p) roles false) ->
  Admin ∉ roles -> Approver ∉ roles -> home k p r ->
  (forall k1 k2, other k1 k2 -> fenced k p k1 -> fenced k p k2) ->
  serve tree_at workspace_root scratch fanout join_error other cfg entries k r authorization resp k' ->
  owner_of k br = Some q -> q <> p ->
  branches (k_dag k') !! br = branches (k_dag k) !! br /\ k_dirs k' !! br = k_dirs k !! br.
Proof.
  intros Hwf Hauth Hadmin Happ Hh Ho Hs Hown Hne.
  inversion Hs as [r' a e Hrej|r' a auth out k1 Hok Hhd]; subst; [congruence|]. rewrite Hauth in Hok. injection Hok as <-.
  pose proof (handled_fenced _ _ _ _ _ _ Hwf Hadmin Happ Hh Ho Hhd) as [_ _ _ Hb Hd _ _].
  assert (~ reach k p br) as Hout.
  { unfold reach, owner_of in *. destruct (branches (k_dag k) !! br); [|done]. intros [?|?]; congruence. }
  split; [|by apply Hd]. unfold owner_of in Hown. destruct (branches (k_dag k) !! br) as [row|] eqn:E; [|done]. by apply Hb.
Qed.

(** A refusal by a check of the handler comes before anything it does, and the role a route
    asks for before any other check. *)
Lemma handled_refused auth k r out k' :
  handled tree_at workspace_root scratch fanout join_error other auth k r out k' ->
  (forall e, out = Err (Refused (AAuth e)) -> k' = k)
  /\ (forall role, required_role r = Some role -> has_role auth role = false ->
       out = Err (Refused (AAuth (MissingRole role))) /\ k' = k).
Proof.
  intros Hr. inversion Hr as [r' h Hroute|id who options e k1 Hg|id body options who br k1 ro k1' Hg He]; subst.
  - split.
    + intros e Hout. pose proof (route_acts auth _ _ k Hroute) as Ha. unfold acts in Ha. by rewrite Hout in Ha.
    + intros role Hrole Hno. by rewrite (route_role _ _ _ _ _ Hroute Hrole Hno).
  - split; [|done]. intros e' _.
    assert (reads (h_explore_guard auth id who) k (fun _ => True)) as [Hk _]; [|by rewrite Hg in Hk].
    unfold h_explore_guard. eapply reads_bind; [apply reads_parse|intros br _].
    eapply reads_bind; [apply reads_own_branch|intros _ _]. eapply reads_bind; [apply reads_allow|intros ? _]. by apply reads_ret.
  - split; [|done]. intros e' Hout. by destruct ro as [|[]].
Qed.

(** Who the middleware takes the caller for: nobody in particular when authentication is off or
    the health probe is asked, else the holder of the presented token. *)
Definition identified (cfg : AuthConfig) (entries : list (string * (string * list Role))) (r : Request)
    (authorization : option string) (auth : AuthContext) : Prop :=
  (auth = anonymous /\ (auth_enabled cfg = false \/ r = RHealthz))
  \/ exists token p roles, Auth.bearer_token authorization = Some token
       /\ (token_digest token, (p, roles)) ∈ entries /\ auth = mkContext (Some p) roles false.

Lemma scan_tokens_elem digest (entries : list (string * (string * list Role))) init v :
  foldl (fun matched e => if digest_eq digest e.1 then Some e.2 else matched) init entries = Some v ->
  init = Some v \/ (digest, v) ∈ entries.
Proof.
  revert init. induction entries as [|[d x] entries IH]; intros init; cbn; [by left|].
  intros [Hi|Hin]%IH; [|right; by right]. destruct (digest_eq digest d) eqn:E; [|by left].
  apply digest_eq_true in E as ->. injection Hi as ->. right. left.
Qed.

Lemma scan_tokens_absent digest (entries : list (string * (string * list Role))) :
  scan_tokens digest entries = None -> forall v, (digest, v) ∉ entries.
Proof.
  unfold scan_tokens. generalize (None (A := string * list Role)) at 1.
  induction entries as [|[d x] entries IH]; intros init; cbn; intros Hf v Hin; [by apply elem_of_nil in Hin|].
  apply elem_of_cons in Hin as [[= <- <-]|Hin]; [|by eapply IH].
  rewrite (proj2 (digest_eq_true digest digest)) in Hf by done. clear -Hf.
  enough (is_Some (None (A := string * list Role))) as [? [=]]. rewrite <- Hf. clear Hf.
  assert (is_Some (Some v)) as Hs by by eexists. revert Hs. generalize (Some v).
  induction entries as [|[d y] entries IH]; intros o Ho; cbn; [done|]. apply IH. by destruct (digest_eq _ _).
Qed.

Lemma path_of_probe r : String.eqb (path_of r) "/healthz" = true -> r = RHealthz.
Proof. by destruct r. Qed.

Lemma require_auth_cases cfg entries r authorization :
  match require_auth cfg entries (path_of r) authorization with
  | Ok auth => identified cfg entries r authorization auth
  | Err e => e = Unauthenticated /\ auth_enabled cfg = true /\ r <> RHealthz
      /\ forall token v, Auth.bearer_token authorization = Some token -> (token_digest token, v) ∉ entries
  end.
Proof.
  unfold require_auth. destruct (auth_enabled cfg) eqn:Ee; cbn [negb]; [|left; by split; [|left]].
  destruct (String.eqb (path_of r) "/healthz") eqn:Ep; [left; by split; [|right; apply path_of_probe]|].
  assert (r <> RHealthz) as Hr by (by intros ->).
  destruct (Auth.bearer_token authorization) as [token|] eqn:Et; cbn; [|by split_and!].
  destruct (scan_tokens (token_digest token) entries) as [[p roles]|] eqn:Es; cbn.
  - right. apply scan_tokens_elem in Es as [[=]|Hin]. by exists token, p, roles.
  - split_and!; try done. intros token' v [= <-]. by apply scan_tokens_absent.
Qed.

(** C12: Authorization comes before action.  With authentication on, a request other than the
    health probe that presents no token of the table is answered 401 by the middleware and
    leaves the kernel exactly as it was; any other request is handled for the holder of the
    token it presents (for nobody in particular when authentication is off or the probe is
    asked), and then a refusal by any authorization check of its handler leaves the kernel
    exactly as it was, and the routes for administrators and approvers answer a caller without
    the role with a missing role and leave the kernel as it was, whatever the request. *)
Theorem authorized_before_acting cfg entries k r authorization resp k' :
  serve tree_at workspace_root scratch fanout join_error other cfg entries k r authorization resp k' ->
  (auth_enabled cfg = true /\ r <> RHealthz
   /\ (forall token v, Auth.bearer_token authorization = Some token -> (token_digest token, v) ∉ entries)
   /\ resp = Some (into_response (AAuth Unauthenticated)) /\ k' = k)
  \/ exists auth out, identified cfg entries r authorization auth
       /\ handled tree_at workspace_root scratch fanout join_error other auth k r out k' /\ resp = answer out
       /\ (forall e, out = Err (Refused (AAuth e)) -> k' = k)
       /\ (forall role, required_role r = Some role -> has_role auth role = false ->
            resp = Some (into_response (AAuth (MissingRole role))) /\ k' = k).
Proof.
  intros Hs. pose proof (require_auth_cases cfg entries r authorization) as Hc.
  inversion Hs as [r' a e Hrej|r' a auth out k1 Hok Hh]; subst.
  - left. rewrite Hrej in Hc. destruct Hc as (-> & He & Hr & Hno). by split_and!.
  - right. rewrite Hok in Hc. exists auth, out. destruct (handled_refused _ _ _ _ _ Hh) as [Href Hrole].
    split_and!; try done. intros role Hreq Hno. by destruct (Hrole role Hreq Hno) as [-> ->].
Qed.
End routes.
End tenants.
