(* ===== verification/HttpDemo.v ===== *)
(** Requests on the running kernel of [KernelDemo]: a second tenant next to
    the first, with a token of its own. *)

From stdpp Require Import pretty.
From S2P Require Import Prelude Json Budget Glob Capability Types Canonical IdentityDb Registry.
From S2P Require Import LeaseStore Delegation Policy Router Scheduler Effect Ledger Broker BrokerRecord Snapshot.
From S2P Require Import Dag DagScope Path Workspace B64 Utf8 Observation Auth RawView KernelText Kernel KernelStep.
From S2P Require Import KernelBranch KernelEffects KernelLogic KernelSafety KernelRefine KernelInvariant.
From S2P Require Import KernelExplore KernelDemo Http HttpSafety.

Open Scope Z_scope.

Module HttpDemo.
#[local] Existing Instances KernelDemo.backend KernelDemo.router_debug KernelDemo.serde KernelDemo.sha KernelDemo.time_json
  LedgerDemo.json_text KernelDemo.delta ZTime.time PolicyDemo.chrono KernelDemo.manifests KernelDemo.signer KernelDemo.errors
  KernelDemo.display KernelDemo.debug KernelDemo.steps KernelDemo.replays KernelDemo.world.
#[local] Instance roles : RoleDebug := {| role_debug := KernelDemo.no_str |}.

(** The first tenant, pr-1, has the branch [KernelDemo.br]; pr-2 gets its own. *)
Definition second : Principal := new_agent "pr-2" "second".
Definition m1 := (register_principal second KernelDemo.k4).2.
Definition opened := KernelBranch.create_episode None "pr-2" None "other" m1.
Definition m2 := opened.2.
Definition mine : string := h_branch (value_of KernelDemo.handle opened.1).

Definition digest : string := "0000000000000000000000000000000000000000000000000000000000000000".
Definition cfg : AuthConfig := with_tokens [mkEntry digest "pr-2" [Auth.Agent]].
Definition entries := map_to_list (digest_map cfg).
Definition tenant : AuthContext := mkContext (Some "pr-2") [Auth.Agent] false.

Definition no_tree (_ : string) : Fs := empty_fs.
Definition scratch : KernelResult BackendProfile := Err (EOther EmptyString).
Definition answered := h_fork_branch tenant mine m2.

Lemma m2_run : rtc kernel_step KernelDemo.k4 m2.
Proof.
  apply (rtc_l _ _ m1); [exact (ks_principal KernelDemo.k4 second)|].
  apply rtc_once. exact (ks_episode m1 None "pr-2" None "other").
Qed.

Lemma m2_wf : kernel_wf m2.
Proof. exact (proj1 (part_run_wf _ _ (kernel_run_parts _ _ m2_run) KernelDemo.k4_wf)). Qed.

Lemma tenant_known : require_auth cfg entries "/v1" (Some "Bearer x") = Ok tenant.
Proof. vm_compute. reflexivity. Qed.

Lemma first_owns : owner_of m2 KernelDemo.br = Some "pr-1".
Proof. vm_compute. reflexivity. Qed.

Lemma forked_is_ok : is_ok answered.1 = true.
Proof. vm_compute. reflexivity. Qed.

(** A request that acts: the second tenant forks its branch. *)
Lemma tenant_isolation_witness :
  is_ok answered.1 = true
  /\ branches (k_dag answered.2) !! KernelDemo.br = branches (k_dag m2) !! KernelDemo.br
  /\ k_dirs answered.2 !! KernelDemo.br = k_dirs m2 !! KernelDemo.br.
Proof.
  split; [exact forked_is_ok|].
  apply (tenant_isolation no_tree None scratch 4 "panic" (fun _ _ => False) cfg entries m2 "pr-2" [Auth.Agent]
    (RForkBranch mine) (Some "Bearer x") (answer answered.1) answered.2 KernelDemo.br "pr-1").
  - exact m2_wf.
  - exact tenant_known.
  - by intros Hin%list_elem_of_singleton.
  - by intros Hin%list_elem_of_singleton.
  - exact Logic.I.
  - by intros k1 k2 [].
  - apply (serve_handled _ _ _ _ _ _ _ _ _ _ _ tenant); [exact tenant_known|].
    exact (handled_route no_tree None scratch 4 "panic" (fun _ _ => False) tenant m2 (RForkBranch mine) _ eq_refl).
  - exact first_owns.
  - done.
Defined.

(** Revoking a lease is for administrators. *)
Definition revoking := h_revoke_capability tenant KernelDemo.lease m2.

Lemma entries_eq : entries = [(digest, ("pr-2", [Auth.Agent]))].
Proof. vm_compute. reflexivity. Qed.

Lemma tenant_only r auth : identified cfg entries r (Some "Bearer x") auth -> r <> RHealthz -> has_role auth Auth.Admin = false.
Proof.
  rewrite entries_eq. intros [[_ [[=]| ->]]|(token & p & roles & _ & Hin & ->)] Hr; [done|].
  apply list_elem_of_singleton in Hin. injection Hin as -> ->. reflexivity.
Qed.

Lemma authorized_before_acting_witness :
  answer revoking.1 = Some (into_response (AAuth (MissingRole Auth.Admin))) /\ revoking.2 = m2.
Proof.
  destruct (authorized_before_acting no_tree None scratch 4 "panic" (fun _ _ => False) cfg entries m2
    (RRevokeCapability KernelDemo.lease) (Some "Bearer x") (answer revoking.1) revoking.2)
    as [(_ & _ & Hno & _)|(auth & out & Hid & _ & _ & _ & Hrole)].
  - apply (serve_handled _ _ _ _ _ _ _ _ _ _ _ tenant); [exact tenant_known|].
    exact (handled_route no_tree None scratch 4 "panic" (fun _ _ => False) tenant m2 (RRevokeCapability KernelDemo.lease) _ eq_refl).
  - destruct (Hno "x" ("pr-2", [Auth.Agent]) eq_refl). rewrite entries_eq. left.
  - exact (Hrole Auth.Admin eq_refl (tenant_only _ _ Hid ltac:(discriminate))).
Defined.

(** ** Retrying a step on someone else's branch *)

(** An administrator's step as pr-2 on pr-1's branch. *)
Definition leased := request_capability "pr-2" "proc.shell" (Object []) (Some KernelDemo.br) m2.
Definition lease2 : string := match leased.1 with Ok l => lease_id l | Err _ => EmptyString end.
Definition admin : AuthContext := mkContext (Some "pr-9") [Auth.Admin] false.
Definition acted :=
  h_execute_step admin "pr-2" KernelDemo.br (mkAction (Shell "make" None ∅) lease2 None budget_zero) leased.2.
Definition step_of (r : result Stop Response) : string :=
  match r with Ok (mkResponse _ (BStep s _)) => sr_step s | _ => EmptyString end.
Definition retried := h_retry_step tenant (step_of acted.1) acted.2.

(** The retry route checks who ran the step and not whose branch it ran on: an agent without
    any role repeats it on the branch of another principal's episode, whose head moves. *)
Theorem retry_reaches_foreign_branch :
  owner_of acted.2 KernelDemo.br = Some "pr-1" /\ ctx_principal tenant = Some "pr-2" /\ has_role tenant Admin = false
  /\ is_ok retried.1 = true
  /\ (br_head <$> branches (k_dag retried.2) !! KernelDemo.br) <> (br_head <$> branches (k_dag acted.2) !! KernelDemo.br).
Proof. vm_compute. split_and!; try reflexivity. discriminate. Qed.
End HttpDemo.
